(* ===== verification/_CoqProject ===== *)
-Q . S2P
Prelude.v
Wire.v
Data.v
Msgpack.v
DataWire.v
Json.v
JsonSample.v
JsonSchema.v
Account.v
Lmdb.v
Tables.v
Chain.v
Subaddress.v
Accounts.v
Update.v
Storage.v
RandomOutputs.v
OwnershipTest.v
Mempool.v
Threads.v
ScanServer.v
Sync.v
Scanner.v
Transactions.v
Rest.v
RestQueue.v
FeedConnection.v
Feed.v
HttpClient.v
RpcClient.v
RestServer.v
WalletJson.v
Admin.v
Runner.v
DaemonJson.v
PackRead.v
ScanWire.v
