(* ===== verification/Prelude.v ===== *)
(** monero-lws, a light wallet server for Monero: a model of its core in Rocq.

    The server keeps the view keys of its users in an LMDB database, scans the
    blocks and the transaction pool of a monerod daemon for them, and answers
    wallets from what it found. The development follows that path through the
    code:

      daemon -> scanner threads -> ownership test -> accounts -> storage
                     |                                             |
                queues, scan server                          wallets, webhooks

    ** The files, from the bottom up

    - Prelude.v: this header; machine integers ([u8] .. [u64], written out as
      [mod]), the error monad [expect] of the monero sources ([let*]), sorted
      ranges with [std::lower_bound] and [std::sort], lemmas the components
      share.
    - Wire.v, Msgpack.v: src/wire. What [write_bytes] functions emit as trees,
      the loop over the fields of an object, and the MessagePack reader and
      writer byte for byte.
    - Data.v, DataWire.v: src/db/data.h, data.cpp. Stored records, their orders,
      the packed byte of an output, difficulty words, the wire form of outputs
      (Data.v) and of everything else (DataWire.v).
    - Json.v, JsonSample.v: src/wire/json. The JSON reader and both writers over
      rapidjson, which is a class with its laws; [read_bytes] functions as values
      ([Readings.reading]) that have a meaning on bytes and one on trees
      ([Faithful]); and an implementation of rapidjson's part, to evaluate them.
    - JsonSchema.v: the [read_bytes] functions of all schemas that are made of the
      pieces of src/wire, with the round trip of their values.
    - Account.v: src/db/account.cpp. The object a scan keeps for an account.
    - Lmdb.v: tables with duplicates as src/db/storage.cpp uses them, with
      cursors as the lists they will visit; [try_write] of src/lmdb with its
      resizing and locking (module Transaction).
    - Tables.v, Chain.v, Subaddress.v, Accounts.v, Update.v, Storage.v:
      src/db/storage.cpp. The tables; block hashes, [sync_chain], [sync_pow],
      rollback; watched subaddresses; accounts and requests; [update] with the
      webhooks; and all write transactions together as a transition system.
    - OwnershipTest.v: src/util/ownership_test.cpp, transactions.cpp. The test
      of one transaction against a list of accounts, with the callbacks as
      arguments.
    - RandomOutputs.v: src/util/gamma_picker.cpp, random_outputs.cpp. Decoys for
      the rings of a wallet's transactions.
    - Mempool.v: src/mempool.cpp. The pool of transactions and its cache.
    - Threads.v: src/rpc/scanner/queue.cpp and the assignment of accounts to
      threads in [check_loop] of src/scanner.cpp.
    - ScanServer.v: src/rpc/scanner/server.cpp, client.cpp. Sessions with remote
      scanners and the distribution of accounts over them.
    - Sync.v: src/util/blocks.cpp, [get_pow_window], and [sync_quick] and
      [sync_full] of src/scanner.cpp.
    - Scanner.v: [scanner::loop] of src/scanner.cpp and [user_data::store]. It
      composes Threads.v (the queue), OwnershipTest.v (every transaction),
      Account.v (the callbacks), Sync.v (proof of work) and Update.v (the
      database).
    - Transactions.v: [merge_into_txes] and [get_address_txs_response::load] of
      src/rpc/light_wallet.cpp. The history of an account: its outputs, spends
      and pool transactions merged into one entry per transaction.
    - Rest.v: the endpoints of src/rest_server.cpp that wallets call, from the
      parsed request to the response, with src/rpc/login.cpp. They use
      Accounts.v, Subaddress.v, Mempool.v and Transactions.v. Module [Shared] is
      the protocol by which [daemon_status] and [get_unspent_outs] share one
      call to the daemon among the requests that wait for it.
    - RestQueue.v: the two endpoints of src/rest_server.cpp that queue requests
      for the daemon, [submit_raw_tx] and [get_random_outs] (with
      RandomOutputs.v), and the clients they take from the pool.
    - RestServer.v: the HTTP side of src/rest_server.cpp: the tables of endpoints,
      the response to a request, the connection with its timer, and the ports the
      server opens.
    - FeedConnection.v, Feed.v: src/rpc/feed.inl and feed_tcp.cpp. The websocket
      connection as a machine of handlers with at most one operation of a kind at
      work, and the messages the feed makes of logins, scanner updates and
      warnings; Feed.v puts both together.
    - HttpClient.v: src/net/http/client.cpp. The queue of webhook messages and
      the coroutine that sends them over connections it keeps or closes.
    - RpcClient.v: src/rpc/client.cpp. Waiting for the daemon and for signals, the
      messages the daemon publishes, the loop that keeps the pool of Mempool.v up
      to date, the signal that wakes threads for the accounts in their queues
      (Threads.v), the messages behind [push_updates] of Scanner.v, and the cache
      of exchange rates.
    - WalletJson.v: src/rpc/light_wallet.cpp, rates.cpp. The JSON of the requests
      and responses of Rest.v, RestQueue.v and Feed.v, and the exchange rates.
    - Admin.v: src/rpc/admin.cpp and [call_admin] of src/rest_server.cpp. The
      requests of administrators, from their JSON to the steps of Storage.v.
    - Runner.v: [scanner::run] and [fetch_chain] of src/scanner.cpp, and the
      sending of webhooks (src/rpc/webhook.h) over ZeroMQ and HttpClient.v.
    - DaemonJson.v: src/rpc/json.h, daemon_zmq.cpp, daemon_pub.cpp and
      src/wire/wrapper/variant.h. The answers and publications of the daemon,
      from their JSON to the transactions and blocks of Scanner.v.
    - PackRead.v, ScanWire.v: src/rpc/scanner/commands.cpp, write_commands.h,
      read_commands.h and connection.cpp. MessagePack [read_bytes] functions as
      values (with src/db/account.cpp and wrapper/trusted_array.h), the commands of
      remote scanners as bytes, the queue of writes, the stream that the server of
      ScanServer.v cuts into messages, and the retries of a connection.

    ** How code becomes definitions

    A function of the source is a definition of the same name where Rocq allows
    it; exceptions and error codes are [Err] of [expect]; a write transaction
    maps [tables] to [expect tables], because [try_write] commits on success
    only (the theorem [Lmdb.Transaction.try_write_atomic]); where a caller goes
    on after an error, the tables are part of the result ([Subaddress.do_upsert]).
    Callbacks and the state they change are threaded as in [Ownership.act].
    Locked sections are single steps; what several threads do is a list of
    such steps in any order ([Queue.op], the two halves of
    [Mempool.Pool.scan_account]). Daemon answers, notifications, clocks and the
    outcome of a send are arguments; [Scanner.Loop.turn] collects what one turn
    of the scanner loop meets.

    Code outside of src/ is a class of operations: [Lmdb] with [LmdbLaws] (with
    [Reference] as an instance), [WalletCrypto], [SubaddressCrypto],
    [ViewKeyCrypto], [Consensus], [UnlockRules], [Doubles], [Random],
    [OutputKeys], [RapidJson] with [RapidJsonLaws] (with [Sample.library] as an
    instance), [RctEncode], [Limits]. Each file
    ends with a sample: concrete instances and inputs on which its definitions
    are evaluated and its theorems are applied.

    ** What the theorems show

    - Storage: every reachable database has its account tables in agreement
      ([reachable_storage_ok]); an update stores what was found for the accounts
      that are as the scan left them, and moves these ([update_delivers]);
      rollback to a stored block forgets exactly what is above it; where the
      stored chain is contiguous, it becomes the one the daemon sent and never
      changes below a checkpoint; requests, status changes and subaddress
      ranges do what their callers are told.
    - Scanning: [scan_transaction] gives its callbacks only outputs that the
      account can spend, whatever it meets ([received_is_own]), and, where it does
      not write, exactly the outputs and spends of a specification that looks at
      each output and ring alone ([scan_transaction_exact]); a batch is the
      sequence of its tests; with a trusted daemon a turn of the loop that replaces
      no accounts and has none at height 1 keeps the next request at the lowest
      account and marks as scanned only what was tested ([turn_marks_tested]); a
      fully verified sync stores only chains with the links, timestamps and work
      their history demands.
    - Distribution: queues deliver the last replacement and everything after
      it, and a thread that waits for a block is woken for them
      ([gifts_are_noticed]); the first assignment and each redistribution give every account to
      one thread; by depth no thread has more than its share.
    - Wallets: a stranger to an address changes nothing by any endpoint
      ([strangers_change_nothing]); a login that lets in leaves an account that
      opens; the history, the totals and the unspent outputs answered are those
      of the stored tables ([load_groups_transactions], [address_info_totals],
      [unspent_response_exact]); requests that share a daemon call are each told
      one thing, and nothing older than the cache timeout ([shared_answers]);
      a transaction to relay is answered once, in order, by what the daemon said to
      it or a timeout ([submit_answers]), and a request for decoys by its own round,
      unless an exception of the picker drops all that wait ([decoys_answered]); a
      handler runs only for a
      request its endpoint admits ([async_response_guarded]), and a connection
      gives one response to each request ([one_answer_per_request]).
    - Pushed data: a feed connection refines a session that answers a login and
      then every update ([session_refines]), with no gap between updates of blocks
      that go on one from the other ([open_stream_covers]), and ends once it has started to close
      ([closing_ends]); a webhook message is sent at most once over a connection
      to its host, if one host and port have one scheme ([each_message_once]); an update of the scanner is one message
      ([push_updates_sends]).
    - Remote scanners: from the bytes of a connection to the database, the updates
      whose messages are complete are stored, as they were queued
      ([updates_reach_store]).
    - The daemon: after every input of its loop the pool holds what the daemon
      answered last and has published since ([pool_follows_daemon]); an answer is a result, an error or refused
      ([response_outcome]), and what a hostile daemon gets accepted is bounded by
      the limits and by the bytes it sent ([hostile_answer_bounded]); threads run
      on the active accounts only, until they are told to stop
      ([run_calls_rightly]).
    - Administrators: their requests are one step of the database or none, and
      none without the key in the request ([admin_calls_are_steps]) unless
      authentication is disabled; a webhook is found from
      its registration to its removal ([webhook_until_deleted]), and an event goes
      out once and in order ([webhooks_sent_once]).
    - Input from outside: the MessagePack and JSON round trips ([json_roundtrip] for
      any schema and order of members, [requests_read] for those of wallets,
      [read_write_confirmation]), complete texts only
      ([json_written_complete]), the exact extent of skipped values and the end of
      the skipping loops; what a peer of the scan server can do before it has
      authenticated.
    - Errors: where the code does something its own documentation or the rest of
      the code excludes, a theorem states what it does instead
      ([unsynced_accounts_dropped], [cached_spend_is_missed],
      [remote_remainder_unscanned], [height_one_never_stored],
      [exception_drops_all], [replaced_socket_unread], [import_partial_shrink_ignored],
      and others).

    ** Bounds and fuel

    Loops over data are structural. The loops of the JSON reader take a unit for
    each byte that is left, which is enough ([key_fuel], and [json_roundtrip] for
    objects and arrays). [skip_loop] takes fuel, and
    [skip_value_terminates] shows that one unit per remaining byte is enough.
    [draw_index] of RandomOutputs.v repeats a random draw: its fuel is the
    number of attempts, and without one that is accepted the model has no result;
    that a round ends is a theorem for random numbers whose draws are accepted
    ([draws_accepted]); the 64 tries of [fill_rings] are the code's.
    [round_robin] of ScanServer.v gets the number of accounts, which is enough
    by [round_robin_spec]. [merge_rounds] takes one output or spend in each
    round and gets their number. [get_blocks] visits at most [max_internal] anchors,
    as the code does. The loops that wait for a peer ([sync_quick], [sync_full],
    [loop_turns], [wait_for_block]) run over a list of its messages and say so
    when the list ends first.

    ** Not modelled

    Sockets, TLS and the clocks behind timers, the parsing of HTTP and of
    websocket frames, the set-up of ZeroMQ sockets and the publication of
    webhooks over RabbitMQ; rapidjson itself, of which Json.v states what it uses;
    command lines and configuration (with them admin_main.cpp, which prints what
    the calls of storage return); error texts. Not yet modelled: the wire forms of
    src/rpc/lws_pub.cpp, [convert_table], [accounts_at_height], the dump of the
    database, the start and the end of scanner threads. Only compact JSON, as
    rapidjson writes it, is in the theorems about reading, and of doubles those that
    its default parser reads back exactly ([survives]). *)

From Stdlib Require Export ZArith Lia.
From stdpp Require Export base tactics option list sorting strings.

#[global] Open Scope Z_scope.
#[export] Set Warnings "-clear-no-such-hyp".

(** ** Machine integers

    Unsigned integers of the C++ code are values of [Z] kept in range by the
    definitions; the wrap-around of an operation is written out with [u32]
    and [u64]. *)

Definition u8_max : Z := 255.
Definition u16_max : Z := 65535.
Definition u32_max : Z := 4294967295.
Definition u64_max : Z := 18446744073709551615.

Definition u8 (z : Z) : Z := z mod 256.
Definition u32 (z : Z) : Z := z mod 4294967296.
Definition u64 (z : Z) : Z := z mod 18446744073709551616.

Definition in_u8 (z : Z) : Prop := 0 <= z <= u8_max.
Definition in_u32 (z : Z) : Prop := 0 <= z <= u32_max.
Definition in_u64 (z : Z) : Prop := 0 <= z <= u64_max.

Lemma u32_small z : in_u32 z -> u32 z = z.
Proof. unfold in_u32, u32, u32_max. intros. apply Z.mod_small. lia. Qed.

Lemma u64_small z : in_u64 z -> u64 z = z.
Proof. unfold in_u64, u64, u64_max. intros. apply Z.mod_small. lia. Qed.

Lemma u32_range z : in_u32 (u32 z).
Proof. unfold in_u32, u32, u32_max. pose proof (Z.mod_pos_bound z 4294967296). lia. Qed.

Lemma u64_range z : in_u64 (u64 z).
Proof. unfold in_u64, u64, u64_max. pose proof (Z.mod_pos_bound z 18446744073709551616). lia. Qed.

(** ** Errors

    [std::error_code] values the modelled code returns or compares against:
    [lws::error] (src/error.h), [wire::error::schema] (src/wire/error.h),
    [wire::error::msgpack] (src/wire/msgpack/error.h), the LMDB codes and the
    generic [common_error]. An exception that carries one of these codes is
    the same value. *)

Inductive lws_error : Set :=
| account_exists | account_list_change | account_max | account_not_found
| bad_address | bad_view_key | bad_blockchain | bad_client_tx
| bad_daemon_response | bad_height | bad_url | bad_verb | bad_webhook
| blockchain_reorg | configuration | crypto_failure | create_queue_max
| daemon_timeout | duplicate_request | exceeded_blockchain_buffer
| exceeded_rest_request_limit | exchange_rates_disabled
| exchange_rates_fetch | exchange_rates_old | http_server | invalid_range
| json_rpc | load | max_subaddresses | not_enough_mixin | not_enough_amount
| signal_abort_process | signal_abort_scan | signal_unknown
| system_clock_invalid_range | rmq_failure | tx_relay_failed.

Inductive schema_error : Set :=
| schema_array | schema_array_max_element | schema_array_min_size
| schema_binary | schema_boolean | schema_enumeration | schema_fixed_binary
| schema_integer | schema_invalid_key | schema_larger_integer
| schema_maximum_depth | schema_missing_key | schema_number | schema_object
| schema_smaller_integer | schema_string.

Inductive msgpack_error : Set :=
| msgpack_incomplete | msgpack_integer_encoding | msgpack_invalid
| msgpack_max_tree_size | msgpack_not_enough_bytes | msgpack_underflow_tree.

Inductive lmdb_error : Set :=
| MDB_NOTFOUND | MDB_KEYEXIST | MDB_MAP_FULL | MDB_MAP_RESIZED
| MDB_CORRUPTED | MDB_OTHER (code : Z).

Inductive feed_error : Set := missed_messages | feed_protocol | queue_max.

(** A null error code put into an [expect] becomes [kInvalidErrorCode]. *)
Inductive error : Set :=
| lws_err (e : lws_error)
| schema_err (e : schema_error)
| msgpack_err (e : msgpack_error)
| rapidjson_err (code : Z)
| mdb_err (e : lmdb_error)
| zmq_err (code : Z)
| feed_err (e : feed_error)
| kInvalidArgument
| kInvalidErrorCode
| logic_error
| runtime_error
| out_of_range
| bad_numeric_cast.

#[export] Instance lws_error_eq_dec : EqDecision lws_error.
Proof. solve_decision. Defined.
#[export] Instance schema_error_eq_dec : EqDecision schema_error.
Proof. solve_decision. Defined.
#[export] Instance msgpack_error_eq_dec : EqDecision msgpack_error.
Proof. solve_decision. Defined.
#[export] Instance lmdb_error_eq_dec : EqDecision lmdb_error.
Proof. solve_decision. Defined.
#[export] Instance feed_error_eq_dec : EqDecision feed_error.
Proof. solve_decision. Defined.
#[export] Instance error_eq_dec : EqDecision error.
Proof. solve_decision. Defined.

(** ** [expect<T>]: a value or an error code *)

Inductive expect (A : Type) : Type :=
| Ok (a : A)
| Err (e : error).
Arguments Ok {A} a.
Arguments Err {A} e.

Definition ebind {A B} (m : expect A) (f : A -> expect B) : expect B :=
  match m with Ok a => f a | Err e => Err e end.

Declare Scope lws_scope.
Delimit Scope lws_scope with lws.
#[global] Open Scope lws_scope.

Notation "'let*' x := m 'in' k" := (ebind m (fun x => k))
  (at level 10, x pattern, m at level 100, k at level 200) : lws_scope.
Notation "'guard' b 'orelse' e 'in' k" := (if b then k else Err e)
  (at level 10, b at level 100, e at level 100, k at level 200) : lws_scope.

Definition is_ok {A} (m : expect A) : bool :=
  match m with Ok _ => true | Err _ => false end.

Lemma ebind_ok {A B} (m : expect A) (f : A -> expect B) b :
  ebind m f = Ok b <-> exists a, m = Ok a /\ f a = Ok b.
Proof.
  destruct m; simpl; split; intros; eauto; try congruence.
  - destruct H as (a' & [= <-] & ?); done.
  - destruct H as (? & ? & ?); congruence.
Qed.

Lemma ebind_err {A B} (m : expect A) (f : A -> expect B) e :
  ebind m f = Err e <-> m = Err e \/ exists a, m = Ok a /\ f a = Err e.
Proof.
  destruct m; simpl; split; intros H; eauto.
  - destruct H as [H | (a' & [= <-] & ?)]; congruence.
  - left; congruence.
  - destruct H as [H | (a' & H & _)]; congruence.
Qed.

(** Left fold that stops at the first error: a range-for whose body can
    return. *)
Fixpoint efold {A S} (f : S -> A -> expect S) (s : S) (l : list A) : expect S :=
  match l with
  | [] => Ok s
  | x :: l => let* s := f s x in efold f s l
  end.

Lemma efold_app {A S} (f : S -> A -> expect S) s l1 l2 :
  efold f s (l1 ++ l2) = let* s := efold f s l1 in efold f s l2.
Proof. revert s; induction l1 as [|x l1 IH]; intros s; simpl; [done|]. destruct (f s x); simpl; auto. Qed.

Lemma efold_invariant {A S} (P : S -> Prop) (f : S -> A -> expect S) l s s' :
  (forall s x s', x ∈ l -> P s -> f s x = Ok s' -> P s') ->
  P s -> efold f s l = Ok s' -> P s'.
Proof.
  revert s; induction l as [|x l IH]; intros s Hf Hs; simpl.
  - by intros [= <-].
  - intros (s1 & H1 & H2)%ebind_ok. eapply IH; [|eapply Hf, H1|exact H2].
    + intros; eapply Hf; eauto. by apply list_elem_of_further.
    + by apply list_elem_of_here.
    + done.
Qed.

Definition is_some_b {A} (o : option A) : bool :=
  match o with Some _ => true | None => false end.

(** Splits a hypothesis [... = Ok _] along the monad. *)
Ltac inv_ok H :=
  let a := fresh "r" in let H1 := fresh "Hr" in
  apply ebind_ok in H; destruct H as (a & H1 & H).

Ltac case_if H :=
  match type of H with
  | context [if ?b then _ else _] => let E := fresh "Hc" in destruct b eqn:E
  end.

(** ** Bytes

    A byte is a [Z] in [0, 256); a fixed-size binary value (a hash, a key) is
    the big-endian value of its bytes, so that [std::memcmp] on two values of
    the same size is the order of [Z]. *)

Fixpoint be_bytes (n : nat) (z : Z) : list Z :=
  match n with
  | O => []
  | S n => (z / 256 ^ Z.of_nat n) mod 256 :: be_bytes n z
  end.

Definition be_decode (l : list Z) : Z := foldl (fun a b => a * 256 + b) 0 l.

Definition is_byte (b : Z) : Prop := 0 <= b < 256.

Lemma length_be_bytes n z : length (be_bytes n z) = n.
Proof. induction n; simpl; congruence. Qed.

Lemma be_bytes_byte n z : Forall is_byte (be_bytes n z).
Proof.
  induction n; simpl; constructor; auto.
  apply Z.mod_pos_bound; lia.
Qed.

Lemma foldl_decode_shift l a :
  foldl (fun a b => a * 256 + b) a l = a * 256 ^ Z.of_nat (length l) + be_decode l.
Proof.
  unfold be_decode. revert a. induction l as [|b l IH]; intros a; simpl length; simpl foldl.
  - simpl. lia.
  - rewrite (IH (a * 256 + b)), (IH (0 * 256 + b)), Nat2Z.inj_succ, Z.pow_succ_r by lia. ring.
Qed.

Lemma be_decode_cons b l :
  be_decode (b :: l) = b * 256 ^ Z.of_nat (length l) + be_decode l.
Proof. unfold be_decode at 1. simpl foldl. by rewrite foldl_decode_shift. Qed.

Lemma be_decode_bytes n z : be_decode (be_bytes n z) = z mod 256 ^ Z.of_nat n.
Proof.
  induction n as [|n IH].
  - simpl. by rewrite Z.mod_1_r.
  - cbn [be_bytes]. rewrite be_decode_cons, IH, length_be_bytes, Nat2Z.inj_succ, Z.pow_succ_r by lia.
    rewrite (Z.mul_comm 256), Z.rem_mul_r; [lia| |lia].
    apply Z.pow_nonzero; lia.
Qed.

Lemma be_decode_bytes_small n z :
  0 <= z < 256 ^ Z.of_nat n -> be_decode (be_bytes n z) = z.
Proof. intros. rewrite be_decode_bytes. by apply Z.mod_small. Qed.

Lemma be_decode_range l :
  Forall is_byte l -> 0 <= be_decode l < 256 ^ Z.of_nat (length l).
Proof.
  induction 1 as [|b l Hb Hl IH]; [simpl; unfold be_decode; simpl; lia|].
  rewrite be_decode_cons. cbn [length]. rewrite Nat2Z.inj_succ, Z.pow_succ_r by lia.
  unfold is_byte in Hb. nia.
Qed.

Lemma be_bytes_add n m c z :
  (n <= m)%nat -> be_bytes n (c * 256 ^ Z.of_nat m + z) = be_bytes n z.
Proof.
  induction n as [|n IH]; intros Hle; [done|]. cbn [be_bytes].
  rewrite IH by lia. f_equal.
  replace (Z.of_nat m) with (Z.of_nat (m - n - 1) + 1 + Z.of_nat n) by lia.
  rewrite !Z.pow_add_r, Z.pow_1_r, !Z.mul_assoc by lia.
  rewrite Z.div_add_l by (apply Z.pow_nonzero; lia).
  by rewrite Z.add_comm, Z.mod_add by lia.
Qed.

Lemma be_bytes_decode l n :
  Forall is_byte l -> length l = n -> be_bytes n (be_decode l) = l.
Proof.
  intros Hl <-. induction Hl as [|b l Hb Hl IH]; [done|].
  cbn [length be_bytes]. pose proof (be_decode_range l Hl) as Hr.
  rewrite be_decode_cons. f_equal.
  - rewrite Z.div_add_l, (Z.div_small (be_decode l)), Z.add_0_r by lia.
    apply Z.mod_small, Hb.
  - by rewrite be_bytes_add.
Qed.

(** A [Z] below [256 ^ n] is determined by its [n] bytes. *)
Lemma be_bytes_inj n x y :
  0 <= x < 256 ^ Z.of_nat n -> 0 <= y < 256 ^ Z.of_nat n ->
  be_bytes n x = be_bytes n y -> x = y.
Proof.
  intros Hx Hy E. rewrite <- (be_decode_bytes_small n x), <- (be_decode_bytes_small n y) by done.
  by rewrite E.
Qed.

(** ** Ranges of a sorted sequence

    [std::lower_bound] on a range partitioned by [p]: the first position whose
    element does not satisfy [p]. *)

Fixpoint lower_bound {A} (p : A -> bool) (l : list A) : nat :=
  match l with
  | [] => 0
  | x :: l => if p x then S (lower_bound p l) else 0
  end.

Definition insert_at {A} (i : nat) (x : A) (l : list A) : list A :=
  take i l ++ x :: drop i l.

Lemma lower_bound_le {A} (p : A -> bool) l : (lower_bound p l <= length l)%nat.
Proof. induction l as [|x l IH]; simpl; [lia|]. destruct (p x); lia. Qed.

Lemma lower_bound_before {A} (p : A -> bool) l x :
  x ∈ take (lower_bound p l) l -> p x = true.
Proof.
  induction l as [|y l IH]; simpl; [by intros ?%elem_of_nil|].
  destruct (p y) eqn:E; simpl; [|by intros ?%elem_of_nil].
  intros [->|?]%elem_of_cons; auto.
Qed.

Lemma lower_bound_at {A} (p : A -> bool) l x :
  l !! lower_bound p l = Some x -> p x = false.
Proof.
  induction l as [|y l IH]; simpl; [done|].
  destruct (p y) eqn:E; simpl; [done|]. by intros [= <-].
Qed.

Lemma insert_at_elem {A} i (x y : A) l : y ∈ insert_at i x l <-> y = x \/ y ∈ l.
Proof.
  unfold insert_at. rewrite elem_of_app, elem_of_cons.
  rewrite <- (take_drop i l) at 3. rewrite elem_of_app. tauto.
Qed.

Lemma insert_at_perm {A} i (x : A) l : insert_at i x l ≡ₚ x :: l.
Proof. unfold insert_at. by rewrite <- Permutation_middle, take_drop. Qed.

(** ** Strict total orders given by an [operator<] *)

Class TotalLt {A} (lt : A -> A -> bool) : Prop := {
  tlt_irrefl x : lt x x = false;
  tlt_trans x y z : lt x y = true -> lt y z = true -> lt x z = true;
  tlt_total x y : lt x y = false -> lt y x = false -> x = y
}.

#[export] Instance Z_ltb_total : TotalLt Z.ltb.
Proof. split; intros *; rewrite ?Z.ltb_lt, ?Z.ltb_ge; lia. Qed.

(** [a == b ? x < y : a < b] on two projections that determine the value. *)
Lemma total_lt_lex {A B C} (f : C -> A) (g : C -> B) eqa lta ltb :
  TotalLt lta -> TotalLt ltb ->
  (forall x y, eqa x y = true <-> x = y) ->
  (forall x y, f x = f y -> g x = g y -> x = y) ->
  TotalLt (fun x y => if eqa (f x) (f y) then ltb (g x) (g y) else lta (f x) (f y)).
Proof.
  intros Ha Hb Heq Hinj.
  assert (forall x y, eqa x y = false -> x <> y) as Hne.
  { intros x y E ->. pose proof (proj2 (Heq y y) eq_refl). congruence. }
  split.
  - intros x. rewrite (proj2 (Heq (f x) (f x)) eq_refl). apply tlt_irrefl.
  - intros x y z Hxy Hyz.
    destruct (eqa (f x) (f y)) eqn:E1; destruct (eqa (f y) (f z)) eqn:E2;
      rewrite ?Heq in E1; rewrite ?Heq in E2.
    + rewrite E1, E2, (proj2 (Heq (f z) (f z)) eq_refl). by eapply tlt_trans.
    + rewrite E1. destruct (eqa (f y) (f z)) eqn:E3; [congruence|done].
    + rewrite <- E2, E1. done.
    + assert (lta (f x) (f z) = true) as Hxz by (eapply tlt_trans; eauto).
      destruct (eqa (f x) (f z)) eqn:E3; [|done]. apply Heq in E3. exfalso.
      rewrite E3, tlt_irrefl in Hxz. done.
  - intros x y Hxy Hyx.
    destruct (eqa (f x) (f y)) eqn:E1.
    + apply Heq in E1. rewrite E1, (proj2 (Heq (f y) (f y)) eq_refl) in Hyx.
      apply Hinj; [done|]. by apply tlt_total.
    + destruct (eqa (f y) (f x)) eqn:E2; [apply Heq in E2; by apply Hne in E1|].
      exfalso. apply Hne in E1. apply E1. by apply tlt_total.
Qed.

Lemma tlt_asym {A} (lt : A -> A -> bool) `{!TotalLt lt} x y :
  lt x y = true -> lt y x = false.
Proof.
  intros H. destruct (lt y x) eqn:E; [|done].
  pose proof (tlt_trans _ _ _ H E). by rewrite tlt_irrefl in *.
Qed.

Lemma tlt_false_trans {A} (lt : A -> A -> bool) `{!TotalLt lt} x y z :
  lt x y = false -> lt y z = false -> lt x z = false.
Proof.
  intros H1 H2. destruct (lt x z) eqn:E; [|done]. exfalso.
  destruct (lt y x) eqn:Hyx.
  - pose proof (tlt_trans _ _ _ Hyx E). congruence.
  - pose proof (tlt_total _ _ H1 Hyx); subst. congruence.
Qed.

(** A range sorted by an [operator<]: no element is less than an earlier one. *)
Definition sorted_by {A} (lt : A -> A -> bool) (l : list A) : Prop :=
  StronglySorted (fun x y => lt y x = false) l.

Section sorted_ranges.
Context {A : Type} (lt : A -> A -> bool) `{!TotalLt lt}.

(** At the lower bound of [x] the elements stop being less than [x]. *)
Lemma lower_bound_after x l y :
  sorted_by lt l -> y ∈ drop (lower_bound (fun y => lt y x) l) l -> lt y x = false.
Proof.
  induction 1 as [|z l Hl IH Hz]; simpl; [by intros ?%elem_of_nil|].
  destruct (lt z x) eqn:E; simpl; [exact IH|].
  intros [->|Hy]%elem_of_cons; [done|]. rewrite Forall_forall in Hz.
  eapply (tlt_false_trans lt); [by apply Hz|done].
Qed.

Lemma sorted_insert x l :
  sorted_by lt l -> sorted_by lt (insert_at (lower_bound (fun y => lt y x) l) x l).
Proof.
  induction 1 as [|z l Hl IH Hz]; unfold insert_at; simpl; [repeat constructor|].
  destruct (lt z x) eqn:E; simpl.
  - constructor; [exact IH|]. apply Forall_forall. intros y Hy.
    apply insert_at_elem in Hy as [->|Hy]; [by apply (tlt_asym lt)|].
    rewrite Forall_forall in Hz. by apply Hz.
  - constructor; [by constructor|]. constructor; [done|].
    rewrite Forall_forall in Hz |- *. intros y Hy. eapply (tlt_false_trans lt); [by apply Hz|done].
Qed.

Lemma sorted_drop l n : sorted_by lt l -> sorted_by lt (drop n l).
Proof.
  intros Hl. revert n. unfold sorted_by in *.
  induction Hl as [|y l Hl IH Hy]; intros [|n]; simpl; try constructor; auto.
Qed.

(** The lower bound finds an element of the range. *)
Lemma lower_bound_found x l :
  sorted_by lt l -> (l !! lower_bound (fun y => lt y x) l = Some x <-> x ∈ l).
Proof.
  intros Hl. split; [apply list_elem_of_lookup_2|]. intros Hx.
  rewrite <- (take_drop (lower_bound (fun y => lt y x) l) l) in Hx.
  apply elem_of_app in Hx as [Hx|Hx].
  { apply lower_bound_before in Hx. by rewrite tlt_irrefl in Hx. }
  destruct (l !! lower_bound (fun y => lt y x) l) as [z|] eqn:E.
  - f_equal. pose proof (lower_bound_at _ _ _ E) as Hz. cbn in Hz.
    apply tlt_total; [done|]. rewrite (drop_S _ z) in Hx by done.
    apply elem_of_cons in Hx as [->|Hx]; [apply tlt_irrefl|].
    pose proof (sorted_drop _ (lower_bound (fun y => lt y x) l) Hl) as Hd.
    rewrite (drop_S _ z) in Hd by done. inversion Hd as [|? ? _ Hf]; subst.
    rewrite Forall_forall in Hf. by apply Hf.
  - apply lookup_ge_None in E. rewrite drop_ge in Hx by done. by apply elem_of_nil in Hx.
Qed.

(** [std::sort]: the standard library promises a sorted permutation; under a
    total order there is exactly one. *)
#[local] Instance not_greater_dec : RelDecision (fun x y => lt y x = false).
Proof. intros x y. apply _. Defined.
Definition std_sort (l : list A) : list A := merge_sort (fun x y => lt y x = false) l.

Lemma std_sort_perm l : std_sort l ≡ₚ l.
Proof. apply merge_sort_Permutation. Qed.
Lemma std_sort_sorted l : sorted_by lt (std_sort l).
Proof.
  apply StronglySorted_merge_sort.
  - intros x y z H1 H2. by eapply (tlt_false_trans lt).
  - intros x y. destruct (lt y x) eqn:E; [right; by apply (tlt_asym lt)|by left].
Qed.
End sorted_ranges.

(** [operator<] of [std::pair]. *)
Definition pair_lt {A B} (lta : A -> A -> bool) (ltb : B -> B -> bool) (x y : A * B) : bool :=
  lta x.1 y.1 || (negb (lta y.1 x.1) && ltb x.2 y.2).

#[export] Instance pair_lt_total {A B} (lta : A -> A -> bool) (ltb : B -> B -> bool) :
  TotalLt lta -> TotalLt ltb -> TotalLt (pair_lt lta ltb).
Proof.
  intros Ha Hb. split.
  - intros [a b]. unfold pair_lt; cbn. by rewrite !tlt_irrefl.
  - intros [a b] [a' b'] [a'' b'']. unfold pair_lt; cbn. rewrite !orb_true_iff, !andb_true_iff, !negb_true_iff.
    intros [H1|[H1 H1']] [H2|[H2 H2']].
    + left. by eapply tlt_trans.
    + destruct (lta a' a'') eqn:E; [left; by eapply tlt_trans|].
      pose proof (tlt_total _ _ E H2); subst. by left.
    + destruct (lta a a') eqn:E; [left; by eapply tlt_trans|].
      pose proof (tlt_total _ _ E H1); subst. by left.
    + right. split; [by eapply (tlt_false_trans lta)|by eapply tlt_trans].
  - intros [a b] [a' b']. unfold pair_lt; cbn. rewrite !orb_false_iff, !andb_false_iff, !negb_false_iff.
    intros [H1 H1'] [H2 H2']. pose proof (tlt_total _ _ H1 H2); subst.
    rewrite tlt_irrefl in *. f_equal. destruct H1' as [?|H1']; [done|]. destruct H2' as [?|H2']; [done|].
    by apply tlt_total.
Qed.

(** Wrap-around commutes with addition. *)
Lemma u64_add_l a b : u64 (u64 a + b) = u64 (a + b).
Proof. unfold u64. by rewrite Z.add_mod_idemp_l by lia. Qed.
Lemma u64_sub_l a b : u64 (u64 a - b) = u64 (a - b).
Proof. unfold u64. by rewrite Zminus_mod_idemp_l. Qed.
Lemma u64_add_r a b : u64 (a + u64 b) = u64 (a + b).
Proof. unfold u64. by rewrite Z.add_mod_idemp_r by lia. Qed.

Fixpoint nat_sum (l : list nat) : nat :=
  match l with [] => 0 | x :: l => (x + nat_sum l)%nat end.

Lemma nat_sum_app l1 l2 : nat_sum (l1 ++ l2) = (nat_sum l1 + nat_sum l2)%nat.
Proof. induction l1; simpl; lia. Qed.

Lemma pair_lt_fst {A B} (lta : A -> A -> bool) (ltb : B -> B -> bool) `{!TotalLt lta} x y :
  pair_lt lta ltb x y = true -> lta y.1 x.1 = false.
Proof.
  unfold pair_lt. rewrite orb_true_iff, andb_true_iff, negb_true_iff. intros [H|[H _]]; [by apply (tlt_asym lta)|done].
Qed.

(** The longest prefix that satisfies [p]. *)
Fixpoint take_while {A} (p : A -> bool) (l : list A) : list A :=
  match l with
  | [] => []
  | x :: l => if p x then x :: take_while p l else []
  end.

(** ** Orders on a projection

    [std::sort] and [std::lower_bound] with a comparison of one field only: the
    elements are ordered up to that field. *)

Class WeakLt {A} (lt : A -> A -> bool) : Prop := {
  wlt_asym x y : lt x y = true -> lt y x = false;
  wlt_false_trans x y z : lt x y = false -> lt y z = false -> lt x z = false
}.

#[export] Instance total_weak {A} (lt : A -> A -> bool) : TotalLt lt -> WeakLt lt.
Proof. split; [apply (tlt_asym lt)|apply (tlt_false_trans lt)]. Qed.

#[export] Instance weak_on {A B} (f : A -> B) (lt : B -> B -> bool) :
  WeakLt lt -> WeakLt (fun x y => lt (f x) (f y)).
Proof. intros H. split; intros *; [apply wlt_asym|apply wlt_false_trans]. Qed.

Section weak_sort.
Context {A : Type} (lt : A -> A -> bool) `{!WeakLt lt}.

Lemma weak_sort_sorted l : sorted_by lt (std_sort lt l).
Proof.
  apply StronglySorted_merge_sort.
  - intros x y z H1 H2. by eapply (wlt_false_trans (lt:=lt)).
  - intros x y. destruct (lt y x) eqn:E; [right; by apply (wlt_asym (lt:=lt))|by left].
Qed.

Lemma weak_lower_bound_after (p : A -> bool) l y :
  (forall a b, lt b a = false -> p b = true -> p a = true) ->
  sorted_by lt l -> y ∈ drop (lower_bound p l) l -> p y = false.
Proof.
  intros Hp. induction 1 as [|z l Hl IH Hz]; simpl; [by intros ?%elem_of_nil|].
  destruct (p z) eqn:E; simpl; [exact IH|].
  intros [->|Hy]%elem_of_cons; [done|]. rewrite Forall_forall in Hz.
  destruct (p y) eqn:Ey; [|done]. by rewrite (Hp z y) in E by auto.
Qed.
End weak_sort.

Lemma sorted_by_lookup {A} (lt : A -> A -> bool) l i j x y :
  sorted_by lt l -> l !! i = Some x -> l !! j = Some y -> (i < j)%nat -> lt y x = false.
Proof.
  intros Hl. revert i j. induction Hl as [|z l Hl IH Hz]; intros [|i] [|j] Hx Hy Hij; simpl in *; try done; try lia.
  - simplify_eq. rewrite Forall_forall in Hz. by eapply Hz, list_elem_of_lookup_2.
  - apply (IH i j); auto with lia.
Qed.

Lemma list_filter_sublist {A} (f : A -> bool) l : List.filter f l `sublist_of` l.
Proof. induction l as [|x l IH]; cbn; [constructor|]. destruct (f x); [by apply sublist_skip|by apply sublist_cons]. Qed.

Lemma list_filter_mono {A} (f : A -> bool) l1 l2 :
  l1 `sublist_of` l2 -> List.filter f l1 `sublist_of` List.filter f l2.
Proof.
  induction 1 as [|x l1 l2 _ IH|x l1 l2 _ IH]; cbn; [constructor| |].
  - destruct (f x); [by apply sublist_skip|done].
  - destruct (f x); [by apply sublist_cons|done].
Qed.
Lemma list_filter_idemp {A} (f : A -> bool) l : List.filter f (List.filter f l) = List.filter f l.
Proof. induction l as [|x l IH]; cbn; [done|]. destruct (f x) eqn:E; cbn; rewrite ?E, IH; done. Qed.

Lemma lxor_byte a b : is_byte a -> is_byte b -> is_byte (Z.lxor a b).
Proof.
  unfold is_byte. intros Ha Hb. assert (0 <= Z.lxor a b) as H0 by (apply Z.lxor_nonneg; lia). split; [done|].
  destruct (decide (Z.lxor a b = 0)) as [->|Hne]; [lia|].
  change 256 with (2 ^ 8). apply Z.log2_lt_pow2; [lia|].
  pose proof (Z.log2_lxor a b ltac:(lia) ltac:(lia)) as Hlog.
  assert (forall c, 0 <= c < 256 -> Z.log2 c < 8) as Hc.
  { intros c Hc. destruct (decide (c = 0)) as [->|]; [done|]. apply Z.log2_lt_pow2; lia. }
  pose proof (Hc a Ha). pose proof (Hc b Hb). lia.
Qed.

Lemma lxor_bytes k l : Forall is_byte k -> Forall is_byte l -> Forall is_byte (zip_with Z.lxor k l).
Proof.
  intros Hk. revert l. induction Hk as [|a k Ha _ IH]; intros [|b l] Hl; cbn; try constructor.
  - apply Forall_inv in Hl. by apply lxor_byte.
  - apply IH. by inversion Hl.
Qed.
