(* ===== verification/Wire.v ===== *)
(** The format-independent layer of src/wire: the sequence of calls a
    [write_bytes] function makes on a [wire::writer] is a tree of type
    [wvalue]; [read_object] is the loop of [wire_read::object] (read.h) over
    the keys a [wire::reader] delivers. *)

From S2P Require Import Prelude.
From Stdlib Require Import Ascii.

(** One complete value given to a [wire::writer]. [WBin] and [WStr] hold
    bytes; a member of [WObj] is a call [key(id, name)] with its value. *)
#[local] Unset Elimination Schemes.
Inductive wvalue : Type :=
| WBool (b : bool)
| WInt (z : Z)
| WUint (z : Z)
| WReal (bits : Z)
| WStr (s : list Z)
| WBin (s : list Z)
| WArr (l : list wvalue)
| WObj (l : list (Z * string * wvalue)).

#[local] Set Elimination Schemes.

Section wvalue_ind.
  Variable P : wvalue -> Prop.
  Hypothesis HBool : forall b, P (WBool b).
  Hypothesis HInt : forall z, P (WInt z).
  Hypothesis HUint : forall z, P (WUint z).
  Hypothesis HReal : forall z, P (WReal z).
  Hypothesis HStr : forall s, P (WStr s).
  Hypothesis HBin : forall s, P (WBin s).
  Hypothesis HArr : forall l, Forall P l -> P (WArr l).
  Hypothesis HObj : forall l, Forall (fun kv => P kv.2) l -> P (WObj l).

  (** Induction that reaches the elements of arrays and objects. *)
Fixpoint wvalue_nested_ind (v : wvalue) : P v :=
    match v with
    | WBool b => HBool b
    | WInt z => HInt z
    | WUint z => HUint z
    | WReal z => HReal z
    | WStr s => HStr s
    | WBin s => HBin s
    | WArr l => HArr l
        ((fix go (l : list wvalue) : Forall P l :=
          match l with
          | [] => List.Forall_nil _
          | x :: l => List.Forall_cons _ x l (wvalue_nested_ind x) (go l)
          end) l)
    | WObj l => HObj l
        ((fix go (l : list (Z * string * wvalue)) : Forall (fun kv => P kv.2) l :=
          match l with
          | [] => List.Forall_nil _
          | x :: l => List.Forall_cons _ x l (wvalue_nested_ind x.2) (go l)
          end) l)
    end.
End wvalue_ind.

Definition bytes_of_string (s : string) : list Z :=
  (fun c => Z.of_nat (nat_of_ascii c)) <$> String.list_ascii_of_string s.

(** A field of [wire::object] as the reader sees it. *)
Record field := Field { f_id : Z; f_name : string; f_required : bool }.

(** Whether the key of a member selects field [f]: integer keys match [id],
    string keys match [name] (msgpack_reader::key, json_reader::key). *)
Inductive wkey := KInt (id : Z) | KStr (name : list Z).

Definition key_matches (k : wkey) (f : field) : bool :=
  match k with
  | KInt id => f_id f =? id
  | KStr s => bool_decide (bytes_of_string (f_name f) = s)
  end.

(** Index of the first matching field. *)
Fixpoint find_key (k : wkey) (fs : list field) : option nat :=
  match fs with
  | [] => None
  | f :: fs => if key_matches k f then Some O else S <$> find_key k fs
  end.

(** [wire_read::object]: members in wire order; an unknown member is skipped,
    a second one for the same field is [invalid_key]; when the members are
    exhausted a required field not seen is [missing_key]. [try_read i v s]
    stores the value of field [i] in the destination [s]. *)
Section read_object.
  Context {S : Type} (fs : list field).
  Context (try_read : nat -> wvalue -> S -> expect S).

Definition read_member (st : list nat * S) (kv : wkey * wvalue) : expect (list nat * S) :=
    let '(seen, s) := st in
    match find_key kv.1 fs with
    | None => Ok (seen, s)
    | Some i =>
      if bool_decide (i ∈ seen) then Err (schema_err schema_invalid_key)
      else let* s := try_read i kv.2 s in Ok (i :: seen, s)
    end.

Definition missing (seen : list nat) : bool :=
    existsb (fun p : nat * field => f_required p.2 && negb (bool_decide (p.1 ∈ seen)))
      (zip (seq 0 (length fs)) fs).

Definition read_object (kvs : list (wkey * wvalue)) (s : S) : expect (list nat * S) :=
    let* st := efold read_member ([], s) kvs in
    if missing st.1 then Err (schema_err schema_missing_key) else Ok st.
End read_object.

(** One member of the loop that is matched, not seen yet and read without an
    error. *)
Lemma efold_read_member {S} (fs : list field) (tr : nat -> wvalue -> S -> expect S) seen s k v l i s' :
  find_key k fs = Some i -> bool_decide (i ∈ seen) = false -> tr i v s = Ok s' ->
  efold (read_member fs tr) (seen, s) ((k, v) :: l) = efold (read_member fs tr) (i :: seen, s') l.
Proof. intros Hk Hs Ht. cbn [efold read_member fst snd]. by rewrite Hk, Hs, Ht. Qed.

(** The members of a written object, as a reader delivers their keys. *)
Definition member_key (integer_keys : bool) (id : Z) (name : string) : wkey :=
  if integer_keys then KInt id else KStr (bytes_of_string name).

Definition members (integer_keys : bool) (l : list (Z * string * wvalue)) : list (wkey * wvalue) :=
  (fun kv => (member_key integer_keys kv.1.1 kv.1.2, kv.2)) <$> l.
