(* ===== verification/Data.v ===== *)
(** src/db/data.h and src/db/data.cpp: the records stored in the database,
    their orders, the packed [extra_and_length] byte, the difficulty words,
    the check of a subaddress dictionary, and the wire form of [output] and
    [spend]. *)

From S2P Require Import Prelude Wire.

(** ** Scalars. A hash, key or key image is the big-endian value of its 32
    bytes ([std::memcmp] is then the order of [Z]); a [hash8] has 8 bytes. *)

Definition hash : Type := Z.
Definition hash8 : Type := Z.
Definition public_key : Type := Z.
Definition key_image_t : Type := Z.
Definition secret_key : Type := Z.
Definition rct_key : Type := Z.
Definition uuid : Type := Z.

Definition account_id : Type := Z.
Definition account_time : Type := Z.
Definition block_id : Type := Z.

Definition account_id_invalid : account_id := u32_max.
Definition block_id_txpool : block_id := u64_max.

(** ** Enumerations *)

Inductive account_status : Set := active | inactive | hidden.
Inductive request : Set := create | import_scan.
Inductive webhook_type : Set := tx_confirmation | new_account | tx_spend.

#[export] Instance account_status_eq_dec : EqDecision account_status.
Proof. solve_decision. Defined.
#[export] Instance request_eq_dec : EqDecision request.
Proof. solve_decision. Defined.
#[export] Instance webhook_type_eq_dec : EqDecision webhook_type.
Proof. solve_decision. Defined.

(** The integer stored for each enumerator. *)
Definition account_status_num (s : account_status) : Z :=
  match s with active => 0 | inactive => 1 | hidden => 2 end.
Definition request_num (r : request) : Z :=
  match r with create => 0 | import_scan => 1 end.
Definition webhook_type_num (t : webhook_type) : Z :=
  match t with tx_confirmation => 0 | new_account => 1 | tx_spend => 2 end.

(** [account_flags] is a bit mask. *)
Definition default_account : Z := 0.
Definition admin_account : Z := 1.
Definition account_generated_locally : Z := 2.

(** [extra] flags. *)
Definition coinbase_output : Z := 1.
Definition ringct_output : Z := 2.

(** ** Records *)

Record output_id := OutputId { oi_high : Z; oi_low : Z }.
Definition output_id_txpool : output_id := OutputId 0 u64_max.

Record account_address := AccountAddress {
  view_public : public_key;
  spend_public : public_key
}.

Record address_index := AddressIndex { maj_i : Z; min_i : Z }.
Definition address_index_primary : address_index := AddressIndex 0 0.

Definition is_zero (i : address_index) : bool := (maj_i i =? 0) && (min_i i =? 0).

(** [index_range] is [std::array<minor_index, 2>]. *)
Definition index_range : Type := Z * Z.
Definition index_ranges : Type := list index_range.
Definition subaddress_dict : Type := Z * index_ranges.

Record subaddress_map := SubaddressMap {
  sm_subaddress : public_key;
  sm_index : address_index
}.

Record account := Account {
  acc_id : account_id;
  acc_access : account_time;
  acc_address : account_address;
  acc_key : secret_key;
  acc_scan_height : block_id;
  acc_start_height : block_id;
  acc_creation : account_time;
  acc_flags : Z;
  acc_lookahead : address_index;
  acc_lookahead_fail : block_id
}.

Record block_info := BlockInfo { bi_id : block_id; bi_hash : hash }.
Record block_difficulty := BlockDifficulty { bd_high : Z; bd_low : Z }.
Record block_pow := BlockPow {
  bp_id : block_id;
  bp_timestamp : Z;
  bp_cumulative_diff : block_difficulty
}.
Record pow_sync := PowSync { ps_timestamp : Z; ps_cumulative_diff : block_difficulty }.

Record transaction_link := TransactionLink { tl_height : block_id; tl_tx_hash : hash }.

Record spend_meta := SpendMeta {
  sme_id : output_id;
  sme_amount : Z;
  sme_mixin_count : Z;
  sme_index : Z;
  sme_tx_public : public_key
}.

(** [payment_id] is the union of a [hash8] and a [hash]: 32 bytes, the short
    form being the first 8 of them. *)
Record output := Output {
  out_link : transaction_link;
  out_spend_meta : spend_meta;
  out_timestamp : Z;
  out_unlock_time : Z;
  out_tx_prefix_hash : hash;
  out_pub : public_key;
  out_ringct_mask : rct_key;
  out_extra : Z;
  out_payment_id : Z;
  out_fee : Z;
  out_recipient : address_index
}.

Record spend := Spend {
  sp_link : transaction_link;
  sp_image : key_image_t;
  sp_source : output_id;
  sp_timestamp : Z;
  sp_unlock_time : Z;
  sp_mixin_count : Z;
  sp_length : Z;
  sp_payment_id : hash;
  sp_sender : address_index
}.

Record key_image := KeyImage { ki_value : key_image_t; ki_link : transaction_link }.

Record request_info := RequestInfo {
  ri_address : account_address;
  ri_key : secret_key;
  ri_start_height : block_id;
  ri_creation : account_time;
  ri_creation_flags : Z;
  ri_lookahead : address_index
}.

Record webhook_key := WebhookKey { wk_user : account_id; wk_type : webhook_type }.
Record webhook_dupsort := WebhookDupsort { wd_payment_id : Z; wd_event_id : uuid }.
Record webhook_data := WebhookData {
  wh_url : string;
  wh_token : string;
  wh_confirmations : Z
}.
Definition webhook_value : Type := webhook_dupsort * webhook_data.
Record webhook_tx_confirmation := WebhookTxConfirmation {
  wtc_key : webhook_key;
  wtc_value : webhook_value;
  wtc_tx_info : output
}.
Record webhook_tx_spend := WebhookTxSpend {
  wts_key : webhook_key;
  wts_value : webhook_value;
  wts_input : spend;
  wts_source : spend_meta
}.
Record webhook_output := WebhookOutput { wo_tx : transaction_link; wo_out : output_id }.
Record webhook_event := WebhookEvent {
  we_link : webhook_output;
  we_link_webhook : webhook_dupsort
}.
Record webhook_new_account := WebhookNewAccount {
  wna_value : webhook_value;
  wna_account : account_address
}.

#[export] Instance output_id_eq_dec : EqDecision output_id.
Proof. solve_decision. Defined.
#[export] Instance account_address_eq_dec : EqDecision account_address.
Proof. solve_decision. Defined.
#[export] Instance address_index_eq_dec : EqDecision address_index.
Proof. solve_decision. Defined.
#[export] Instance account_eq_dec : EqDecision account.
Proof. solve_decision. Defined.
#[export] Instance transaction_link_eq_dec : EqDecision transaction_link.
Proof. solve_decision. Defined.
#[export] Instance spend_meta_eq_dec : EqDecision spend_meta.
Proof. solve_decision. Defined.
#[export] Instance output_eq_dec : EqDecision output.
Proof. solve_decision. Defined.
#[export] Instance spend_eq_dec : EqDecision spend.
Proof. solve_decision. Defined.
#[export] Instance webhook_key_eq_dec : EqDecision webhook_key.
Proof. solve_decision. Defined.
#[export] Instance webhook_dupsort_eq_dec : EqDecision webhook_dupsort.
Proof. solve_decision. Defined.

(** ** Equality and order operators *)

Definition account_address_eqb (l r : account_address) : bool :=
  (view_public l =? view_public r) && (spend_public l =? spend_public r).

Definition address_index_eqb (l r : address_index) : bool :=
  (maj_i l =? maj_i r) && (min_i l =? min_i r).
Definition address_index_lt (l r : address_index) : bool :=
  if maj_i l =? maj_i r then min_i l <? min_i r else maj_i l <? maj_i r.

Definition output_id_eqb (l r : output_id) : bool :=
  (oi_high l =? oi_high r) && (oi_low l =? oi_low r).
Definition output_id_lt (l r : output_id) : bool :=
  if oi_high l =? oi_high r then oi_low l <? oi_low r else oi_high l <? oi_high r.
Definition output_id_le (l r : output_id) : bool :=
  if oi_high l =? oi_high r then oi_low l <=? oi_low r else oi_high l <? oi_high r.

Definition webhook_key_lt (l r : webhook_key) : bool :=
  if wk_user l =? wk_user r
  then webhook_type_num (wk_type l) <? webhook_type_num (wk_type r)
  else wk_user l <? wk_user r.

Definition webhook_dupsort_lt (l r : webhook_dupsort) : bool :=
  if wd_payment_id l =? wd_payment_id r
  then wd_event_id l <? wd_event_id r
  else wd_payment_id l <? wd_payment_id r.

Definition transaction_link_eqb (l r : transaction_link) : bool :=
  (tl_height l =? tl_height r) && (tl_tx_hash l =? tl_tx_hash r).
Definition transaction_link_lt (l r : transaction_link) : bool :=
  if tl_height l =? tl_height r
  then tl_tx_hash l <? tl_tx_hash r
  else tl_height l <? tl_height r.
Definition transaction_link_le (l r : transaction_link) : bool :=
  if tl_height r =? tl_height l
  then tl_tx_hash l <=? tl_tx_hash r
  else tl_height l <? tl_height r.

Definition webhook_output_eqb (l r : webhook_output) : bool :=
  output_id_eqb (wo_out l) (wo_out r) && transaction_link_eqb (wo_tx l) (wo_tx r).
Definition webhook_output_lt (l r : webhook_output) : bool :=
  if transaction_link_eqb (wo_tx l) (wo_tx r)
  then output_id_lt (wo_out l) (wo_out r)
  else transaction_link_lt (wo_tx l) (wo_tx r).
Definition webhook_event_lt (l r : webhook_event) : bool :=
  if webhook_output_eqb (we_link l) (we_link r)
  then webhook_dupsort_lt (we_link_webhook l) (we_link_webhook r)
  else webhook_output_lt (we_link l) (we_link r).

Ltac eqb_spec :=
  split; [rewrite ?andb_true_iff, ?Z.eqb_eq; intros; destruct_and?; f_equal/=; auto; try congruence
         |intros [=]; subst; rewrite ?Z.eqb_refl; done].

Lemma account_address_eqb_eq l r : account_address_eqb l r = true <-> l = r.
Proof. destruct l, r. unfold account_address_eqb; simpl. eqb_spec. Qed.
Lemma address_index_eqb_eq l r : address_index_eqb l r = true <-> l = r.
Proof. destruct l, r. unfold address_index_eqb; simpl. eqb_spec. Qed.
Lemma output_id_eqb_eq l r : output_id_eqb l r = true <-> l = r.
Proof. destruct l, r. unfold output_id_eqb; simpl. eqb_spec. Qed.
Lemma transaction_link_eqb_eq l r : transaction_link_eqb l r = true <-> l = r.
Proof. destruct l, r. unfold transaction_link_eqb; simpl. eqb_spec. Qed.
Lemma webhook_output_eqb_eq l r : webhook_output_eqb l r = true <-> l = r.
Proof.
  destruct l, r. unfold webhook_output_eqb; simpl.
  rewrite andb_true_iff, output_id_eqb_eq, transaction_link_eqb_eq.
  split; [intros [-> ->]; done|intros [=]; auto].
Qed.

#[export] Instance address_index_lt_total : TotalLt address_index_lt.
Proof. apply (total_lt_lex maj_i min_i Z.eqb Z.ltb Z.ltb); try apply _; [apply Z.eqb_eq|]. intros [] []; simpl; congruence. Qed.
#[export] Instance output_id_lt_total : TotalLt output_id_lt.
Proof. apply (total_lt_lex oi_high oi_low Z.eqb Z.ltb Z.ltb); try apply _; [apply Z.eqb_eq|]. intros [] []; simpl; congruence. Qed.
#[export] Instance transaction_link_lt_total : TotalLt transaction_link_lt.
Proof. apply (total_lt_lex tl_height tl_tx_hash Z.eqb Z.ltb Z.ltb); try apply _; [apply Z.eqb_eq|]. intros [] []; simpl; congruence. Qed.
#[export] Instance webhook_dupsort_lt_total : TotalLt webhook_dupsort_lt.
Proof. apply (total_lt_lex wd_payment_id wd_event_id Z.eqb Z.ltb Z.ltb); try apply _; [apply Z.eqb_eq|]. intros [] []; simpl; congruence. Qed.
#[export] Instance webhook_key_lt_total : TotalLt webhook_key_lt.
Proof.
  apply (total_lt_lex wk_user wk_type Z.eqb Z.ltb (fun a b => webhook_type_num a <? webhook_type_num b)); try apply _.
  - split; intros *; rewrite ?Z.ltb_lt, ?Z.ltb_ge; [lia|lia|]. intros; destruct x, y; simpl in *; done || lia.
  - apply Z.eqb_eq.
  - intros [] []; simpl; congruence.
Qed.
#[export] Instance webhook_output_lt_total : TotalLt webhook_output_lt.
Proof.
  apply (total_lt_lex wo_tx wo_out transaction_link_eqb transaction_link_lt output_id_lt); try apply _.
  - apply transaction_link_eqb_eq.
  - intros [] []; simpl; congruence.
Qed.
#[export] Instance webhook_event_lt_total : TotalLt webhook_event_lt.
Proof.
  apply (total_lt_lex we_link we_link_webhook webhook_output_eqb webhook_output_lt webhook_dupsort_lt); try apply _.
  - apply webhook_output_eqb_eq.
  - intros [] []; simpl; congruence.
Qed.

(** ** [extra_and_length] *)

Definition pack (val length : Z) : Z := u8 (Z.lor (Z.shiftl val 6) (Z.land length 63)).
Definition unpack (val : Z) : Z * Z := (Z.shiftr val 6, Z.land val 63).

(** ** [block_difficulty] *)

Definition set_difficulty (v : Z) : block_difficulty :=
  BlockDifficulty (Z.land (Z.shiftr v 64) 18446744073709551615)
                  (Z.land v 18446744073709551615).
Definition get_difficulty (d : block_difficulty) : Z :=
  Z.shiftl (bd_high d) 64 + bd_low d.

(** ** [check_subaddress_dict] *)

Fixpoint check_ranges (is_first : bool) (last : Z) (l : index_ranges) : bool :=
  match l with
  | [] => true
  | elem :: l =>
    if elem.2 <? elem.1 then false
    else if (elem.1 <=? u64 (last + 1)) && negb is_first then false
    else check_ranges false elem.2 l
  end.

Definition check_subaddress_dict (self : subaddress_dict) : bool :=
  check_ranges true 0 self.2.

(** ** Wire forms

    [hash8] <-> [std::uint64_t] by [std::memcpy]: the integer is the
    little-endian value of the 8 bytes. *)
Definition u64_of_hash8 (h : hash8) : Z := be_decode (rev (be_bytes 8 h)).
Definition hash8_of_u64 (z : Z) : hash8 := be_decode (rev (be_bytes 8 z)).

(** The short payment id is the first 8 bytes of the union. *)
Definition payment_id_short (p : Z) : hash8 := p / 2 ^ 192.
Definition set_payment_id_short (p : Z) (s : hash8) : Z := s * 2 ^ 192 + p mod 2 ^ 192.

Definition wblob (n : nat) (z : Z) : wvalue := WBin (be_bytes n z).

Definition map_output_id (i : output_id) : wvalue :=
  WObj [(0, "high", WUint (oi_high i)); (1, "low", WUint (oi_low i))]%string.
Definition map_address_index (i : address_index) : wvalue :=
  WObj [(0, "maj_i", WUint (maj_i i)); (1, "min_i", WUint (min_i i))]%string.
Definition map_account_address (a : account_address) : wvalue :=
  WObj [(0, "spend_public", wblob 32 (spend_public a)); (1, "view_public", wblob 32 (view_public a))]%string.

Definition has_flag (flags f : Z) : bool := negb (Z.land flags f =? 0).

(** A member that is written only under a condition ([optional_field]). *)
Definition opt_member (b : bool) (m : Z * string * wvalue) : list (Z * string * wvalue) :=
  if b then [m] else [].

Definition write_output (self : output) : wvalue :=
  let unpacked := unpack (out_extra self) in
  let coinbase := has_flag unpacked.1 coinbase_output in
  let rct := has_flag unpacked.1 ringct_output in
  let payment_bytes :=
    if unpacked.2 =? 32 then be_bytes 32 (out_payment_id self)
    else if unpacked.2 =? 8 then be_bytes 8 (payment_id_short (out_payment_id self))
    else [] in
  WObj (
    opt_member (negb (output_id_eqb (sme_id (out_spend_meta self)) output_id_txpool))
      (0, "id"%string, map_output_id (sme_id (out_spend_meta self))) ++
    opt_member (negb (tl_height (out_link self) =? block_id_txpool))
      (1, "block"%string, WUint (tl_height (out_link self))) ++
    [(2, "index"%string, WUint (sme_index (out_spend_meta self)));
     (3, "amount"%string, WUint (sme_amount (out_spend_meta self)));
     (4, "timestamp"%string, WUint (out_timestamp self));
     (5, "tx_hash"%string, wblob 32 (tl_tx_hash (out_link self)));
     (6, "tx_prefix_hash"%string, wblob 32 (out_tx_prefix_hash self));
     (7, "tx_public"%string, wblob 32 (sme_tx_public (out_spend_meta self)))] ++
    opt_member rct (8, "rct_mask"%string, wblob 32 (out_ringct_mask self)) ++
    opt_member (negb (bool_decide (payment_bytes = []))) (9, "payment_id"%string, WBin payment_bytes) ++
    [(10, "unlock_time"%string, WUint (out_unlock_time self));
     (11, "mixin_count"%string, WUint (sme_mixin_count (out_spend_meta self)));
     (12, "coinbase"%string, WBool coinbase);
     (13, "fee"%string, WUint (out_fee self));
     (14, "recipient"%string, map_address_index (out_recipient self));
     (15, "pub"%string, wblob 32 (out_pub self))]).

(** Typed reads of one delivered value. The error codes are those of
    [msgpack_reader] (a negative fixed tag is no unsigned integer, a wider
    negative one underflows the cast). *)
Definition read_uint (max : Z) (v : wvalue) : expect Z :=
  match v with
  | WUint z => if max <? z then Err (schema_err schema_smaller_integer) else Ok z
  | WInt z =>
    if z <? -32 then Err (schema_err schema_larger_integer)
    else if z <? 0 then Err (schema_err schema_integer)
    else if max <? z then Err (schema_err schema_smaller_integer) else Ok z
  | _ => Err (schema_err schema_integer)
  end.
Definition read_boolean (v : wvalue) : expect bool :=
  match v with WBool b => Ok b | _ => Err (schema_err schema_boolean) end.
Definition read_binary (v : wvalue) : expect (list Z) :=
  match v with WBin s => Ok s | _ => Err (schema_err schema_string) end.
Definition read_blob (n : nat) (v : wvalue) : expect Z :=
  let* s := read_binary v in
  if bool_decide (length s = n) then Ok (be_decode s) else Err (schema_err schema_fixed_binary).

(** An object of required unsigned integers, each given with its maximum. *)
Definition read_uints (ik : bool) (fs : list field) (max : Z) (v : wvalue) (init : list Z) : expect (list Z) :=
  match v with
  | WObj l =>
    let* st := read_object fs (fun i v s => let* z := read_uint max v in Ok (<[i := z]> s))
                 (members ik l) init in
    Ok st.2
  | _ => Err (schema_err schema_object)
  end.

Definition output_id_fields : list field :=
  [Field 0 "high" true; Field 1 "low" true].
Definition read_output_id (ik : bool) (v : wvalue) (dest : output_id) : expect output_id :=
  let* l := read_uints ik output_id_fields u64_max v [oi_high dest; oi_low dest] in
  Ok (OutputId (nth 0 l 0) (nth 1 l 0)).

Definition address_index_fields : list field :=
  [Field 0 "maj_i" true; Field 1 "min_i" true].
Definition read_address_index (ik : bool) (v : wvalue) (dest : address_index) : expect address_index :=
  let* l := read_uints ik address_index_fields u32_max v [maj_i dest; min_i dest] in
  Ok (AddressIndex (nth 0 l 0) (nth 1 l 0)).

(** The locals of [read_bytes(wire::reader&, output&)]. *)
Record output_reading := OutputReading {
  or_self : output;
  or_coinbase : bool;
  or_rct : option rct_key;
  or_payment_id : option (list Z)
}.

Definition output_fields : list field :=
  [Field 0 "id" false; Field 1 "block" false; Field 2 "index" true;
   Field 3 "amount" true; Field 4 "timestamp" true; Field 5 "tx_hash" true;
   Field 6 "tx_prefix_hash" true; Field 7 "tx_public" true;
   Field 8 "rct_mask" false; Field 9 "payment_id" false;
   Field 10 "unlock_time" true; Field 11 "mixin_count" true;
   Field 12 "coinbase" true; Field 13 "fee" true; Field 14 "recipient" true;
   Field 15 "pub" true]%string.

Definition with_link (f : transaction_link -> transaction_link) (o : output) : output :=
  Output (f (out_link o)) (out_spend_meta o) (out_timestamp o) (out_unlock_time o)
    (out_tx_prefix_hash o) (out_pub o) (out_ringct_mask o) (out_extra o)
    (out_payment_id o) (out_fee o) (out_recipient o).
Definition with_spend_meta (f : spend_meta -> spend_meta) (o : output) : output :=
  Output (out_link o) (f (out_spend_meta o)) (out_timestamp o) (out_unlock_time o)
    (out_tx_prefix_hash o) (out_pub o) (out_ringct_mask o) (out_extra o)
    (out_payment_id o) (out_fee o) (out_recipient o).
Definition with_timestamp (z : Z) (o : output) : output :=
  Output (out_link o) (out_spend_meta o) z (out_unlock_time o)
    (out_tx_prefix_hash o) (out_pub o) (out_ringct_mask o) (out_extra o)
    (out_payment_id o) (out_fee o) (out_recipient o).
Definition with_unlock_time (z : Z) (o : output) : output :=
  Output (out_link o) (out_spend_meta o) (out_timestamp o) z
    (out_tx_prefix_hash o) (out_pub o) (out_ringct_mask o) (out_extra o)
    (out_payment_id o) (out_fee o) (out_recipient o).
Definition with_tx_prefix_hash (z : hash) (o : output) : output :=
  Output (out_link o) (out_spend_meta o) (out_timestamp o) (out_unlock_time o)
    z (out_pub o) (out_ringct_mask o) (out_extra o)
    (out_payment_id o) (out_fee o) (out_recipient o).
Definition with_pub (z : public_key) (o : output) : output :=
  Output (out_link o) (out_spend_meta o) (out_timestamp o) (out_unlock_time o)
    (out_tx_prefix_hash o) z (out_ringct_mask o) (out_extra o)
    (out_payment_id o) (out_fee o) (out_recipient o).
Definition with_fee (z : Z) (o : output) : output :=
  Output (out_link o) (out_spend_meta o) (out_timestamp o) (out_unlock_time o)
    (out_tx_prefix_hash o) (out_pub o) (out_ringct_mask o) (out_extra o)
    (out_payment_id o) z (out_recipient o).
Definition with_recipient (r : address_index) (o : output) : output :=
  Output (out_link o) (out_spend_meta o) (out_timestamp o) (out_unlock_time o)
    (out_tx_prefix_hash o) (out_pub o) (out_ringct_mask o) (out_extra o)
    (out_payment_id o) (out_fee o) r.
Definition with_packed (mask : rct_key) (extra payment_id : Z) (o : output) : output :=
  Output (out_link o) (out_spend_meta o) (out_timestamp o) (out_unlock_time o)
    (out_tx_prefix_hash o) (out_pub o) mask extra
    payment_id (out_fee o) (out_recipient o).

Definition set_sme_id (i : output_id) (m : spend_meta) : spend_meta :=
  SpendMeta i (sme_amount m) (sme_mixin_count m) (sme_index m) (sme_tx_public m).
Definition set_sme_amount (z : Z) (m : spend_meta) : spend_meta :=
  SpendMeta (sme_id m) z (sme_mixin_count m) (sme_index m) (sme_tx_public m).
Definition set_sme_mixin (z : Z) (m : spend_meta) : spend_meta :=
  SpendMeta (sme_id m) (sme_amount m) z (sme_index m) (sme_tx_public m).
Definition set_sme_index (z : Z) (m : spend_meta) : spend_meta :=
  SpendMeta (sme_id m) (sme_amount m) (sme_mixin_count m) z (sme_tx_public m).
Definition set_sme_tx_public (z : public_key) (m : spend_meta) : spend_meta :=
  SpendMeta (sme_id m) (sme_amount m) (sme_mixin_count m) (sme_index m) z.

Definition on_self (f : output -> output) (s : output_reading) : output_reading :=
  OutputReading (f (or_self s)) (or_coinbase s) (or_rct s) (or_payment_id s).

Definition output_try_read (ik : bool) (i : nat) (v : wvalue) (s : output_reading) : expect output_reading :=
  let self := or_self s in
  match i with
  | 0%nat => let* x := read_output_id ik v (sme_id (out_spend_meta self)) in Ok (on_self (with_spend_meta (set_sme_id x)) s)
  | 1%nat => let* x := read_uint u64_max v in Ok (on_self (with_link (fun l => TransactionLink x (tl_tx_hash l))) s)
  | 2%nat => let* x := read_uint u32_max v in Ok (on_self (with_spend_meta (set_sme_index x)) s)
  | 3%nat => let* x := read_uint u64_max v in Ok (on_self (with_spend_meta (set_sme_amount x)) s)
  | 4%nat => let* x := read_uint u64_max v in Ok (on_self (with_timestamp x) s)
  | 5%nat => let* x := read_blob 32 v in Ok (on_self (with_link (fun l => TransactionLink (tl_height l) x)) s)
  | 6%nat => let* x := read_blob 32 v in Ok (on_self (with_tx_prefix_hash x) s)
  | 7%nat => let* x := read_blob 32 v in Ok (on_self (with_spend_meta (set_sme_tx_public x)) s)
  | 8%nat => let* x := read_blob 32 v in Ok (OutputReading self (or_coinbase s) (Some x) (or_payment_id s))
  | 9%nat => let* x := read_binary v in Ok (OutputReading self (or_coinbase s) (or_rct s) (Some x))
  | 10%nat => let* x := read_uint u64_max v in Ok (on_self (with_unlock_time x) s)
  | 11%nat => let* x := read_uint u32_max v in Ok (on_self (with_spend_meta (set_sme_mixin x)) s)
  | 12%nat => let* x := read_boolean v in Ok (OutputReading self x (or_rct s) (or_payment_id s))
  | 13%nat => let* x := read_uint u64_max v in Ok (on_self (with_fee x) s)
  | 14%nat => let* x := read_address_index ik v (out_recipient self) in Ok (on_self (with_recipient x) s)
  | _ => let* x := read_blob 32 v in Ok (on_self (with_pub x) s)
  end.

(** [reset_omitted] of the two [defaulted] fields. *)
Definition output_reset (seen : list nat) (self : output) : output :=
  let self := if bool_decide (0%nat ∈ seen) then self else with_spend_meta (set_sme_id output_id_txpool) self in
  if bool_decide (1%nat ∈ seen) then self
  else with_link (fun l => TransactionLink block_id_txpool (tl_tx_hash l)) self.

Definition finish_output (s : output_reading) : expect output :=
  let self := or_self s in
  let pay_length := match or_payment_id s with Some p => u8 (Z.of_nat (length p)) | None => 0 end in
  if negb (pay_length =? 0) && negb (pay_length =? 8) && negb (pay_length =? 32)
  then Err (schema_err schema_binary)
  else
    let p := default [] (or_payment_id s) in
    let payment_id :=
      if pay_length =? 8 then set_payment_id_short (out_payment_id self) (be_decode (take 8 p))
      else if pay_length =? 32 then be_decode (take 32 p)
      else out_payment_id self in
    let mask := default 0 (or_rct s) in
    let flags := if or_coinbase s then coinbase_output else 0 in
    let flags := match or_rct s with Some _ => Z.lor ringct_output flags | None => flags end in
    Ok (with_packed mask (pack flags pay_length) payment_id self).

Definition read_output (ik : bool) (v : wvalue) (dest : output) : expect output :=
  match v with
  | WObj l =>
    let* st := read_object output_fields (output_try_read ik) (members ik l)
                 (OutputReading dest false None None) in
    let s := st.2 in
    finish_output (OutputReading (output_reset st.1 (or_self s)) (or_coinbase s) (or_rct s) (or_payment_id s))
  | _ => Err (schema_err schema_object)
  end.

(** ** Properties *)

Definition in_blob32 (z : Z) : Prop := 0 <= z < 256 ^ 32.

Definition valid_output_id (i : output_id) : Prop := in_u64 (oi_high i) /\ in_u64 (oi_low i).
Definition valid_address_index (i : address_index) : Prop := in_u32 (maj_i i) /\ in_u32 (min_i i).

(** The ranges of the C++ types of an [output], with an [extra_and_length]
    whose length is one the scanner stores. *)
Record valid_output (o : output) : Prop := {
  vo_height : in_u64 (tl_height (out_link o));
  vo_tx_hash : in_blob32 (tl_tx_hash (out_link o));
  vo_id : valid_output_id (sme_id (out_spend_meta o));
  vo_amount : in_u64 (sme_amount (out_spend_meta o));
  vo_mixin : in_u32 (sme_mixin_count (out_spend_meta o));
  vo_index : in_u32 (sme_index (out_spend_meta o));
  vo_tx_public : in_blob32 (sme_tx_public (out_spend_meta o));
  vo_timestamp : in_u64 (out_timestamp o);
  vo_unlock : in_u64 (out_unlock_time o);
  vo_prefix : in_blob32 (out_tx_prefix_hash o);
  vo_pub : in_blob32 (out_pub o);
  vo_mask : in_blob32 (out_ringct_mask o);
  vo_payment : in_blob32 (out_payment_id o);
  vo_fee : in_u64 (out_fee o);
  vo_recipient : valid_address_index (out_recipient o);
  vo_extra : in_u8 (out_extra o);
  vo_length : (unpack (out_extra o)).2 = 0 \/ (unpack (out_extra o)).2 = 8 \/ (unpack (out_extra o)).2 = 32
}.

Lemma read_uint_ok max z : 0 <= z <= max -> read_uint max (WUint z) = Ok z.
Proof. intros. simpl. by rewrite (proj2 (Z.ltb_ge max z)) by lia. Qed.

Lemma read_blob_ok n z : 0 <= z < 256 ^ Z.of_nat n -> read_blob n (wblob n z) = Ok z.
Proof.
  intros. unfold read_blob, wblob, read_binary, ebind.
  rewrite bool_decide_true by apply length_be_bytes. by rewrite be_decode_bytes_small.
Qed.

Lemma read_output_id_ok ik i dest :
  valid_output_id i -> read_output_id ik (map_output_id i) dest = Ok i.
Proof.
  intros [H1 H2]. unfold in_u64 in *. unfold read_output_id, map_output_id, read_uints, read_object, members.
  cbn [fmap list_fmap fst snd].
  erewrite efold_read_member; [|by destruct ik|done|rewrite read_uint_ok by done; reflexivity].
  erewrite efold_read_member; [|by destruct ik|done|rewrite read_uint_ok by done; reflexivity].
  destruct i; reflexivity.
Qed.

Lemma read_address_index_ok ik i dest :
  valid_address_index i -> read_address_index ik (map_address_index i) dest = Ok i.
Proof.
  intros [H1 H2]. unfold in_u32 in *. unfold read_address_index, map_address_index, read_uints, read_object, members.
  cbn [fmap list_fmap fst snd].
  erewrite efold_read_member; [|by destruct ik|done|rewrite read_uint_ok by done; reflexivity].
  erewrite efold_read_member; [|by destruct ik|done|rewrite read_uint_ok by done; reflexivity].
  destruct i; reflexivity.
Qed.

(** Both bit fields of an 8-bit value are recovered. *)
Lemma unpack_pack_aux :
  forallb (fun e => let '(v, l) := unpack e in (pack v l =? e) && (0 <=? v) && (v <=? 3) && (l <=? 63) && (0 <=? l))
    (seqZ 0 256) = true.
Proof. vm_compute. reflexivity. Qed.

Lemma in_u8_seqZ e : in_u8 e -> e ∈ seqZ 0 256.
Proof. unfold in_u8, u8_max. intros. apply elem_of_seqZ. lia. Qed.

Lemma unpack_bounds e :
  in_u8 e -> pack (unpack e).1 (unpack e).2 = e /\ 0 <= (unpack e).1 <= 3 /\ 0 <= (unpack e).2 <= 63.
Proof.
  intros He%in_u8_seqZ. pose proof unpack_pack_aux as Hall.
  rewrite forallb_forall in Hall. specialize (Hall e (proj1 (list_elem_of_In _ _) He)).
  destruct (unpack e) as [v l]. rewrite !andb_true_iff in Hall. simpl. lia.
Qed.

Lemma pack_unpack_aux :
  forallb (fun v => forallb (fun l => bool_decide (unpack (pack v l) = (v, l))) (seqZ 0 64)) (seqZ 0 4) = true.
Proof. vm_compute. reflexivity. Qed.

Lemma pack_unpack_ok v l : 0 <= v <= 3 -> 0 <= l <= 63 -> unpack (pack v l) = (v, l).
Proof.
  intros Hv Hl. pose proof pack_unpack_aux as Hall. rewrite forallb_forall in Hall.
  specialize (Hall v (proj1 (list_elem_of_In _ _) (proj2 (elem_of_seqZ 0 4 v) ltac:(lia)))).
  rewrite forallb_forall in Hall.
  specialize (Hall l (proj1 (list_elem_of_In _ _) (proj2 (elem_of_seqZ 0 64 l) ltac:(lia)))).
  by apply bool_decide_eq_true in Hall.
Qed.

(** The flags read back: coinbase and ringct are bits 0 and 1. *)
Lemma flags_recovered v :
  0 <= v <= 3 ->
  (let flags := if has_flag v coinbase_output then coinbase_output else 0 in
   if has_flag v ringct_output then Z.lor ringct_output flags else flags) = v.
Proof.
  intros. assert (v = 0 \/ v = 1 \/ v = 2 \/ v = 3) as [-> | [-> | [-> | ->]]] by lia; reflexivity.
Qed.

(** What reading a written output gives: a mask only for a ringct output, the
    payment id bytes that were written and the others of the destination. *)
Definition output_canon (self dest : output) : output :=
  let u := unpack (out_extra self) in
  with_packed
    (if has_flag u.1 ringct_output then out_ringct_mask self else 0)
    (out_extra self)
    (if u.2 =? 32 then out_payment_id self
     else if u.2 =? 8 then set_payment_id_short (out_payment_id dest) (payment_id_short (out_payment_id self))
     else out_payment_id dest)
    self.

Ltac read_step :=
  erewrite efold_read_member;
  [ | match goal with |- find_key (member_key ?ik _ _) _ = _ => destruct ik; vm_compute; reflexivity end
    | vm_compute; reflexivity
    | cbn [output_try_read];
      first [ rewrite read_output_id_ok by assumption
            | rewrite read_address_index_ok by assumption
            | rewrite read_uint_ok by assumption
            | rewrite (read_blob_ok 32) by assumption
            | idtac ];
      cbn [read_boolean read_binary ebind]; reflexivity ];
  cbn [on_self or_self or_coinbase or_rct or_payment_id].

Lemma finish_output_ok s p :
  (or_payment_id s = None /\ p = 0 \/
   exists b, or_payment_id s = Some b /\ Z.of_nat (length b) = p /\ (p = 8 \/ p = 32)) ->
  finish_output s =
    Ok (with_packed (default 0 (or_rct s))
      (pack (let flags := if or_coinbase s then coinbase_output else 0 in
             match or_rct s with Some _ => Z.lor ringct_output flags | None => flags end) p)
      (if p =? 8 then set_payment_id_short (out_payment_id (or_self s)) (be_decode (take 8 (default [] (or_payment_id s))))
       else if p =? 32 then be_decode (take 32 (default [] (or_payment_id s)))
       else out_payment_id (or_self s)) (or_self s)).
Proof.
  intros [[E ->] | (b & E & Hl & [-> | ->])]; unfold finish_output; rewrite E; [reflexivity|rewrite Hl; reflexivity|rewrite Hl; reflexivity].
Qed.

Lemma payment_id_short_range p : in_blob32 p -> 0 <= payment_id_short p < 256 ^ Z.of_nat 8.
Proof.
  unfold in_blob32, payment_id_short. intros [H0 H1]. split; [apply Z.div_pos; lia|].
  apply Z.div_lt_upper_bound; [lia|]. eapply Z.lt_le_trans; [exact H1|]. vm_compute. congruence.
Qed.

(** Reading back what [write_bytes] wrote for a valid output gives that output, with integer and with string keys, whatever the destination held:
    the optional id and height, the mask, the payment id and the packed
    [extra_and_length] byte included. *)
Lemma read_output_written ik o dest :
  valid_output o -> read_output ik (write_output o) dest = Ok (output_canon o dest).
Proof.
  intros [Hh Hth Hid Ham Hmix Hidx Htp Hts Hun Hpre Hpub Hmask Hpay Hfee Hrec Hex Hlen].
  pose proof (unpack_bounds _ Hex) as (Hpk & Hf & _).
  unfold read_output, write_output, output_canon.
  destruct (unpack (out_extra o)) as [fl len] eqn:Eu. cbn [fst snd] in *.
  pose proof (flags_recovered fl Hf) as Hfl. cbn zeta in Hfl.
  set (pb := if len =? 32 then _ else _).
  unfold read_object, members. cbn zeta.
  destruct (output_id_eqb (sme_id (out_spend_meta o)) output_id_txpool) eqn:Ei;
  destruct (tl_height (out_link o) =? block_id_txpool) eqn:Eh;
  destruct (has_flag fl ringct_output) eqn:Er;
  destruct Hlen as [-> | [-> | ->]]; subst pb;
  cbn [opt_member negb app fmap list_fmap fst snd Z.eqb Pos.eqb];
  rewrite ?(bool_decide_false (be_bytes 8 _ = [])), ?(bool_decide_false (be_bytes 32 _ = [])), ?(bool_decide_true (@nil Z = [])) by done;
  cbn [opt_member negb app fmap list_fmap fst snd];
  repeat read_step; cbn [efold ebind fst snd];
  (match goal with |- context [missing ?a ?b] => replace (missing a b) with false by (vm_compute; reflexivity) end);
  cbn [ebind fst snd or_self or_coinbase or_rct or_payment_id on_self];
  first [ rewrite (finish_output_ok _ 0) by (left; split; reflexivity)
        | rewrite (finish_output_ok _ 8) by (right; eexists; split; [reflexivity|]; split; [by rewrite length_be_bytes|lia])
        | rewrite (finish_output_ok _ 32) by (right; eexists; split; [reflexivity|]; split; [by rewrite length_be_bytes|lia]) ];
  cbn [or_self or_coinbase or_rct or_payment_id default from_option id Z.eqb Pos.eqb].
  all: rewrite ?Hfl, ?Hpk; unfold output_reset;
  repeat (match goal with |- context [bool_decide (?n ∈ ?l)] =>
    let b := eval vm_compute in (bool_decide (n ∈ l)) in change (bool_decide (n ∈ l)) with b end);
  rewrite ?(take_ge (be_bytes 8 _)), ?(take_ge (be_bytes 32 _)) by (rewrite length_be_bytes; lia);
  rewrite ?(be_decode_bytes_small 8) by (by apply payment_id_short_range);
  rewrite ?(be_decode_bytes_small 32) by assumption;
  cbv beta iota;
  rewrite ?output_id_eqb_eq in Ei; rewrite ?Z.eqb_eq in Eh;
  apply (f_equal Ok); destruct o as [[] [] ? ? ? ? ? ? ? ? ?]; destruct dest as [[] [] ? ? ? ? ? ? ? ? ?];
  cbn in *; rewrite ?Hpk; try (rewrite <- Ei); try (rewrite <- Eh); reflexivity.

Qed.

(** [set_difficulty] splits a 128-bit value into two words. *)
Lemma set_difficulty_words v :
  0 <= v < 2 ^ 128 ->
  bd_high (set_difficulty v) = v / 2 ^ 64 /\ bd_low (set_difficulty v) = v mod 2 ^ 64.
Proof.
  intros Hv. unfold set_difficulty; cbn [bd_high bd_low].
  change 18446744073709551615 with (Z.ones 64).
  rewrite !Z.land_ones, Z.shiftr_div_pow2 by lia. split; [|done].
  apply Z.mod_small. split; [apply Z.div_pos; lia|]. apply Z.div_lt_upper_bound; lia.
Qed.

(** Every minor index of a range. *)
Definition in_range (i : Z) (r : index_range) : Prop := r.1 <= i <= r.2.

(** A well-formed list of ranges: none is empty, and a range starts at least
    two after the end of every earlier one. *)
Definition range_wf (r : index_range) : Prop := in_u32 r.1 /\ in_u32 r.2.
Definition range_gap (a b : index_range) : Prop := a.2 + 1 < b.1.
Definition ranges_ok (l : index_ranges) : Prop :=
  Forall (fun r => r.1 <= r.2) l /\ StronglySorted range_gap l.

Lemma check_ranges_spec first last l :
  in_u32 last -> Forall range_wf l ->
  check_ranges first last l = true <->
  ranges_ok l /\ (first = false -> Forall (fun r => last + 1 < r.1) l).
Proof.
  intros Hlast Hl. revert first last Hlast. induction Hl as [|r l [Hr1 Hr2] Hl IH]; intros first last Hlast.
  { simpl. split; [intros _; split; [split; constructor|by constructor]|done]. }
  cbn [check_ranges]. unfold ranges_ok, in_u32, u32_max in *.
  rewrite u64_small by (unfold in_u64, u64_max; lia).
  destruct (Z.ltb_spec r.2 r.1).
  { split; [done|]. intros [[Hf _] _]. inversion Hf; subst; lia. }
  destruct (Z.leb_spec r.1 (last + 1)); destruct first; cbn [andb negb];
    try (split; [done|]; intros [_ Hf]; specialize (Hf eq_refl); inversion Hf; subst; lia).
  all: rewrite IH by lia; unfold range_gap in *; split.
  all: try (intros [[Hf Hs] Hg]; specialize (Hg eq_refl); split; [split; [by constructor|by constructor]|]).
  all: try (intros [[Hf Hs] _]; inversion Hf; inversion Hs; subst; split; [split; done|]; intros _; done).
  - done.
  - done.
  - intros _. constructor; [done|]. eapply Forall_impl; [exact Hg|]. intros; simpl in *; lia.
Qed.

(** A well-formed list covers each index with at most one range. *)
Lemma ranges_ok_disjoint l i a b ra rb :
  ranges_ok l -> l !! a = Some ra -> l !! b = Some rb ->
  in_range i ra -> in_range i rb -> a = b.
Proof.
  intros [Hf Hs]. revert a b. induction Hs as [|r l Hs IH Hr]; intros a b; [done|].
  apply Forall_cons in Hf as [Hr0 Hf]. rewrite Forall_forall in Hr.
  unfold in_range, range_gap in *.
  destruct a as [|a], b as [|b]; cbn; intros Ha Hb Hia Hib; [done| | |].
  - injection Ha as ->. apply list_elem_of_lookup_2, Hr in Hb. lia.
  - injection Hb as ->. apply list_elem_of_lookup_2, Hr in Ha. lia.
  - f_equal. by eapply IH.
Qed.

(** The [operator<] of every key the tables and containers are sorted by is
    a strict total order whose incomparable values are equal. *)
Theorem data_orders_total :
  TotalLt address_index_lt /\ TotalLt output_id_lt /\ TotalLt transaction_link_lt /\
  TotalLt webhook_key_lt /\ TotalLt webhook_dupsort_lt /\ TotalLt webhook_output_lt /\
  TotalLt webhook_event_lt.
Proof. split_and!; apply _. Qed.

(** [pack] and [unpack] are inverse: two flag bits and a length below 64 are
    recovered, and every byte is the packing of its parts. *)
Theorem pack_unpack_roundtrip :
  (forall v l, 0 <= v <= 3 /\ 0 <= l <= 63 -> unpack (pack v l) = (v, l)) /\
  (forall e, in_u8 e -> pack (unpack e).1 (unpack e).2 = e).
Proof. split; [intros v l []; by apply pack_unpack_ok|intros; by apply unpack_bounds]. Qed.

(** A 128-bit difficulty survives the split in two 64-bit words. *)
Theorem difficulty_roundtrip v :
  0 <= v < 2 ^ 128 ->
  get_difficulty (set_difficulty v) = v /\
  in_u64 (bd_high (set_difficulty v)) /\ in_u64 (bd_low (set_difficulty v)).
Proof.
  intros Hv. destruct (set_difficulty_words v Hv) as [Hh Hl].
  unfold get_difficulty. rewrite Hh, Hl, Z.shiftl_mul_pow2 by lia.
  assert (0 <= v / 2 ^ 64 < 2 ^ 64) by (split; [apply Z.div_pos; lia|apply Z.div_lt_upper_bound; lia]).
  pose proof (Z.mod_pos_bound v (2 ^ 64)). pose proof (Z.div_mod v (2 ^ 64)).
  unfold in_u64, u64_max. lia.
Qed.

(** [check_subaddress_dict] accepts exactly the range lists that are sorted,
    non-empty and neither overlapping nor adjacent, and then no minor index is
    in two of its ranges. *)
Theorem check_subaddress_dict_spec d :
  Forall range_wf d.2 ->
  (check_subaddress_dict d = true <-> ranges_ok d.2) /\
  (check_subaddress_dict d = true -> forall i a b ra rb,
     d.2 !! a = Some ra -> d.2 !! b = Some rb -> in_range i ra -> in_range i rb -> a = b).
Proof.
  intros Hwf. unfold check_subaddress_dict.
  rewrite check_ranges_spec by (done || unfold in_u32, u32_max; lia).
  split; [split; [intros [? _]; done|by intros]|]. intros [Hok _] *. by apply ranges_ok_disjoint.
Qed.

(** The length of a payment id is truncated to 8 bits before it is checked:
    a payment id of any multiple of 256 bytes is accepted and dropped. *)
Theorem oversize_payment_id_accepted self coinbase rct p :
  Z.of_nat (length p) mod 256 = 0 ->
  exists o, finish_output (OutputReading self coinbase rct (Some p)) = Ok o /\
    out_payment_id o = out_payment_id self /\ (unpack (out_extra o)).2 = 0.
Proof.
  intros Hp. unfold finish_output, u8. cbn [or_payment_id]. rewrite Hp. eexists; split; [reflexivity|].
  split; [reflexivity|]. destruct rct, coinbase; reflexivity.
Qed.

(** ** Witnesses *)

Lemma oversize_payment_id_accepted_witness :
  is_ok (finish_output (OutputReading
    (Output (TransactionLink 0 0) (SpendMeta output_id_txpool 0 0 0 0) 0 0 0 0 0 0 0 0 address_index_primary)
    false None (Some (replicate 256 7)))) = true.
Proof.
  destruct (oversize_payment_id_accepted
    (Output (TransactionLink 0 0) (SpendMeta output_id_txpool 0 0 0 0) 0 0 0 0 0 0 0 0 address_index_primary)
    false None (replicate 256 7)) as (o & E & _); [reflexivity|].
  rewrite E. reflexivity.
Defined.

Definition sample_output : output :=
  Output (TransactionLink 100 7) (SpendMeta (OutputId 0 5) 1000 15 1 9) 1600000000 0 11 12 13
    (pack 3 8) (set_payment_id_short 0 77) 30 (AddressIndex 1 2).

Lemma sample_output_valid : valid_output sample_output.
Proof.
  split; try (vm_compute; split; congruence); try (split; vm_compute; split; congruence). right; left; reflexivity.
Qed.

Lemma pack_unpack_roundtrip_witness : unpack (pack 3 32) = (3, 32) /\ pack (unpack 200).1 (unpack 200).2 = 200.
Proof.
  split.
  - apply (proj1 pack_unpack_roundtrip). lia.
  - apply (proj2 pack_unpack_roundtrip). unfold in_u8, u8_max. lia.
Defined.

Lemma difficulty_roundtrip_witness :
  0 <= 2 ^ 127 + 5 < 2 ^ 128 /\ get_difficulty (set_difficulty (2 ^ 127 + 5)) = 2 ^ 127 + 5.
Proof. split; [lia|]. apply (difficulty_roundtrip (2 ^ 127 + 5)). lia. Defined.

Lemma check_subaddress_dict_spec_witness :
  check_subaddress_dict (3, [(0, 4); (6, 9)]) = true /\ ranges_ok [(0, 4); (6, 9)].
Proof.
  assert (Forall range_wf ((3, [(0, 4); (6, 9)]) : subaddress_dict).2) as H.
  { repeat constructor; vm_compute; congruence. }
  split; [reflexivity|]. apply (proj1 (check_subaddress_dict_spec (3, [(0, 4); (6, 9)]) H)). reflexivity.
Defined.
