(* ===== verification/Msgpack.v ===== *)
(** src/wire/msgpack: tags (base.h), the token writer (write.h, write.cpp) and
    the token reader (read.h, read.cpp) with its skipping of unknown values. *)

From S2P Require Import Prelude Wire.

(** ** Tags *)

Definition tag_nil := 0xc0.
Definition tag_unused := 0xc1.
Definition tag_False := 0xc2.
Definition tag_True := 0xc3.
Definition tag_binary8 := 0xc4.
Definition tag_binary16 := 0xc5.
Definition tag_binary32 := 0xc6.
Definition tag_extension8 := 0xc7.
Definition tag_extension16 := 0xc8.
Definition tag_extension32 := 0xc9.
Definition tag_float32 := 0xca.
Definition tag_float64 := 0xcb.
Definition tag_uint8 := 0xcc.
Definition tag_uint16 := 0xcd.
Definition tag_uint32 := 0xce.
Definition tag_uint64 := 0xcf.
Definition tag_int8 := 0xd0.
Definition tag_int16 := 0xd1.
Definition tag_int32 := 0xd2.
Definition tag_int64 := 0xd3.
Definition tag_fixed_extension1 := 0xd4.
Definition tag_fixed_extension2 := 0xd5.
Definition tag_fixed_extension4 := 0xd6.
Definition tag_fixed_extension8 := 0xd7.
Definition tag_fixed_extension16 := 0xd8.
Definition tag_string8 := 0xd9.
Definition tag_string16 := 0xda.
Definition tag_string32 := 0xdb.
Definition tag_array16 := 0xdc.
Definition tag_array32 := 0xdd.
Definition tag_object16 := 0xde.
Definition tag_object32 := 0xdf.

(** [fixed_tag<T, M, N>]: tag, mask and greatest value stored in the tag byte. *)
Record fixed_tag := FixedTag { ft_tag : Z; ft_mask : Z; ft_max : Z }.
Definition ft_matches (t : fixed_tag) (value : Z) : bool := Z.land value (ft_mask t) =? ft_tag t.
Definition ft_extract (t : fixed_tag) (value : Z) : Z := Z.land value (255 - ft_mask t).

Definition ftag_unsigned : fixed_tag := FixedTag 0x00 0x80 0x7f.
Definition ftag_signed : fixed_tag := FixedTag 0xe0 0xe0 0.
Definition ftag_string : fixed_tag := FixedTag 0xa0 0xe0 31.
Definition ftag_array : fixed_tag := FixedTag 0x90 0xf0 15.
Definition ftag_object : fixed_tag := FixedTag 0x80 0xf0 15.

(** [type<T, V>]: a tag with the width in bytes and signedness of its number. *)
Record mtype := MType { mt_tag : Z; mt_width : nat; mt_signed : bool }.
Definition mt_bits (t : mtype) : Z := 8 * Z.of_nat (mt_width t).
Definition mt_min (t : mtype) : Z := if mt_signed t then - 2 ^ (mt_bits t - 1) else 0.
Definition mt_max (t : mtype) : Z :=
  if mt_signed t then 2 ^ (mt_bits t - 1) - 1 else 2 ^ mt_bits t - 1.

Definition signed_types : list mtype :=
  [MType tag_int8 1 true; MType tag_int16 2 true; MType tag_int32 4 true; MType tag_int64 8 true].
Definition unsigned_types : list mtype :=
  [MType tag_uint8 1 false; MType tag_uint16 2 false; MType tag_uint32 4 false; MType tag_uint64 8 false].
Definition string_types : list mtype :=
  [MType tag_string8 1 false; MType tag_string16 2 false; MType tag_string32 4 false].
Definition binary_types : list mtype :=
  [MType tag_binary8 1 false; MType tag_binary16 2 false; MType tag_binary32 4 false].
Definition array_types : list mtype := [MType tag_array16 2 false; MType tag_array32 4 false].
Definition object_types : list mtype := [MType tag_object16 2 false; MType tag_object32 4 false].

(** ** Writer *)
Module Writer.

Record writer := MkWriter { w_bytes : list Z; w_expected : Z; w_integer_keys : bool }.

(** [msgpack_writer(sink, integer_keys, ...)]: one value is expected. *)
Definition init (sink : list Z) (integer_keys : bool) : writer := MkWriter sink 1 integer_keys.

Definition put (w : writer) (bs : list Z) : writer :=
  MkWriter (w_bytes w ++ bs) (w_expected w) (w_integer_keys w).
Definition complete_one (w : writer) : writer :=
  MkWriter (w_bytes w) (u64 (w_expected w - 1)) (w_integer_keys w).
Definition expect_more (w : writer) (n : Z) : writer :=
  MkWriter (w_bytes w) (u64 (w_expected w + n)) (w_integer_keys w).

(** [write_endian(bytes, value, type)]: the tag and the big-endian number. *)
Definition write_endian (w : writer) (value : Z) (t : mtype) : writer :=
  put w (mt_tag t :: be_bytes (mt_width t) value).

(** [boost::fusion::any(T{}, match_size)]: the first type wide enough. *)
Fixpoint write_count (types : list mtype) (w : writer) (items : Z) : expect writer :=
  match types with
  | [] => Err (msgpack_err msgpack_integer_encoding)
  | t :: ts => if mt_max t <? items then write_count ts w items else Ok (write_endian w items t)
  end.

Definition write_count_fixed (ft : fixed_tag) (types : list mtype) (w : writer) (items : Z) : expect writer :=
  if items <=? ft_max ft then Ok (put w [Z.lor (ft_tag ft) (u8 items)])
  else write_count types w items.

Fixpoint write_signed (types : list mtype) (w : writer) (value : Z) : expect writer :=
  match types with
  | [] => Err (msgpack_err msgpack_integer_encoding)
  | t :: ts => if value <? mt_min t then write_signed ts w value else Ok (write_endian w value t)
  end.

Definition do_integer (w : writer) (value : Z) : expect writer :=
  if -32 <=? value then Ok (put w [u8 value]) else write_signed signed_types w value.
Definition do_unsigned_integer (w : writer) (value : Z) : expect writer :=
  write_count unsigned_types w value.

Definition boolean (w : writer) (value : bool) : writer :=
  complete_one (put w [if value then tag_True else tag_False]).

Definition integer (w : writer) (value : Z) : expect writer :=
  let* w :=
    if 0 <=? value then
      if value <=? ft_max ftag_unsigned then Ok (put w [u8 value])
      else do_unsigned_integer w (u64 value)
    else do_integer w value in
  Ok (complete_one w).

Definition unsigned_integer (w : writer) (value : Z) : expect writer :=
  let* w := if value <=? ft_max ftag_unsigned then Ok (put w [u8 value]) else do_unsigned_integer w value in
  Ok (complete_one w).

Definition real (w : writer) (bits : Z) : writer :=
  complete_one (put w (tag_float64 :: be_bytes 8 bits)).

Definition string (w : writer) (source : list Z) : expect writer :=
  let* w := write_count_fixed ftag_string string_types w (Z.of_nat (length source)) in
  Ok (complete_one (put w source)).

Definition binary (w : writer) (source : list Z) : expect writer :=
  let* w := write_count binary_types w (Z.of_nat (length source)) in
  Ok (complete_one (put w source)).

Definition start_array (w : writer) (items : Z) : expect writer :=
  let* w := write_count_fixed ftag_array array_types w items in
  Ok (expect_more w items).
Definition end_array (w : writer) : writer := complete_one w.

Definition start_object (w : writer) (items : Z) : expect writer :=
  let* w := write_count_fixed ftag_object object_types w items in
  Ok (expect_more w (u64 (items * 2))).
Definition end_object (w : writer) : writer := complete_one w.

Definition key (w : writer) (id : Z) (name : String.string) : expect writer :=
  if w_integer_keys w then unsigned_integer w id else string w (bytes_of_string name).

(** [take_msgpack]: [std::logic_error] when the tree is incomplete. *)
Definition check_complete (w : writer) : expect unit :=
  if w_expected w =? 0 then Ok tt else Err logic_error.
Definition take_msgpack (w : writer) : expect (list Z) :=
  let* _ := check_complete w in Ok (w_bytes w).

(** [wire_write::bytes] of a tree: the calls that [wire_write::array] and
    [wire_write::object] make. *)
Fixpoint write_value (v : wvalue) (w : writer) : expect writer :=
  match v with
  | WBool b => Ok (boolean w b)
  | WInt z => integer w z
  | WUint z => unsigned_integer w z
  | WReal z => Ok (real w z)
  | WStr s => string w s
  | WBin s => binary w s
  | WArr l =>
    let* w := start_array w (Z.of_nat (length l)) in
    let* w := (fix go l w := match l with
                | [] => Ok w
                | x :: l => let* w := write_value x w in go l w
                end) l w in
    Ok (end_array w)
  | WObj l =>
    let* w := start_object w (Z.of_nat (length l)) in
    let* w := (fix go l w := match l with
                | [] => Ok w
                | (id, name, x) :: l =>
                  let* w := key w id name in
                  let* w := write_value x w in go l w
                end) l w in
    Ok (end_object w)
  end.

(** [wire_write::to_bytes<msgpack_slice_writer>]. *)
Definition to_bytes (integer_keys : bool) (v : wvalue) : expect (list Z) :=
  let* w := write_value v (init [] integer_keys) in take_msgpack w.

End Writer.

(** ** Reader *)
Module Reader.

Record reader := MkReader { remaining : list Z; tags_remaining : Z; depth : Z }.

(** [msgpack_reader(source)]. *)
Definition init (source : list Z) : reader := MkReader source 1 0.

Definition max_read_depth : Z := 100.

Definition increment_depth (r : reader) : expect reader :=
  let d := depth r + 1 in
  if d =? max_read_depth then Err (schema_err schema_maximum_depth)
  else Ok (MkReader (remaining r) (tags_remaining r) d).
Definition decrement_depth (r : reader) : expect reader :=
  if depth r =? 0 then Err logic_error
  else Ok (MkReader (remaining r) (tags_remaining r) (depth r - 1)).

Definition update_tags_remaining (r : reader) : expect reader :=
  if tags_remaining r =? 0 then Err (msgpack_err msgpack_underflow_tree)
  else Ok (MkReader (remaining r) (tags_remaining r - 1) (depth r)).

(** [epee::span::remove_prefix] removes at most what is left. *)
Definition remove_prefix (n : nat) (r : reader) : reader :=
  MkReader (drop n (remaining r)) (tags_remaining r) (depth r).
Definition set_remaining (r : reader) (l : list Z) : reader :=
  MkReader l (tags_remaining r) (depth r).

Definition peek_tag (r : reader) : expect Z :=
  match remaining r with
  | [] => Err (msgpack_err msgpack_not_enough_bytes)
  | b :: _ => Ok b
  end.
Definition get_tag (r : reader) : expect (Z * reader) :=
  let* next := peek_tag r in Ok (next, remove_prefix 1 r).

(** Two's complement value of [width] bytes. *)
Definition to_signed (width : nat) (v : Z) : Z :=
  if 2 ^ (8 * Z.of_nat width - 1) <=? v then v - 2 ^ (8 * Z.of_nat width) else v.

Definition read_endian (t : mtype) (r : reader) : expect (Z * reader) :=
  if bool_decide (length (remaining r) < mt_width t)%nat
  then Err (msgpack_err msgpack_not_enough_bytes)
  else
    let v := be_decode (take (mt_width t) (remaining r)) in
    Ok (if mt_signed t then to_signed (mt_width t) v else v, remove_prefix (mt_width t) r).

(** [boost::numeric_cast] to a type with range [lo, hi]. *)
Definition numeric_cast (lo hi v : Z) : expect Z :=
  if hi <? v then Err (schema_err schema_smaller_integer)
  else if v <? lo then Err (schema_err schema_larger_integer)
  else Ok v.

Definition find_type (types : list mtype) (next : Z) : option mtype :=
  List.find (fun t => mt_tag t =? next) types.

Definition read_integer (lo hi : Z) (r : reader) (next : Z) : expect (Z * reader) :=
  match find_type (signed_types ++ unsigned_types) next with
  | Some t =>
    let* vr := read_endian t r in
    let* v := numeric_cast lo hi vr.1 in Ok (v, vr.2)
  | None => Err (schema_err schema_integer)
  end.

Definition read_raw (bytes : nat) (r : reader) : expect (list Z * reader) :=
  if bool_decide (length (remaining r) < bytes)%nat
  then Err (msgpack_err msgpack_not_enough_bytes)
  else Ok (take bytes (remaining r), remove_prefix bytes r).

(** [read_raw<T>]: a length of the width of [T], then that many bytes. *)
Definition read_sized (t : mtype) (r : reader) : expect (list Z * reader) :=
  let* nr := read_endian t r in read_raw (Z.to_nat nr.1) nr.2.

Definition read_string (r : reader) (next : Z) : expect (list Z * reader) :=
  if ft_matches ftag_string next then read_raw (Z.to_nat (ft_extract ftag_string next)) r
  else match find_type string_types next with
       | Some t => read_sized t r
       | None => Err (schema_err schema_string)
       end.

Definition read_binary (r : reader) (next : Z) : expect (list Z * reader) :=
  match find_type binary_types next with
  | Some t => read_sized t r
  | None => Err (schema_err schema_string)
  end.

Definition read_count (ft : fixed_tag) (types : list mtype) (expected : schema_error)
    (r : reader) : expect (Z * reader) :=
  let* tr := get_tag r in
  let '(next, r) := tr in
  if ft_matches ft next then Ok (ft_extract ft next, r)
  else match find_type types next with
       | Some t => read_endian t r
       | None => Err (schema_err expected)
       end.

Definition add_tags (r : reader) (n : Z) : reader :=
  MkReader (remaining r) (tags_remaining r + n) (depth r).

Definition start_array (min_element_size : Z) (r : reader) : expect (Z * reader) :=
  let* ur := read_count ftag_array array_types schema_array r in
  let '(upcoming, r) := ur in
  if u64_max - tags_remaining r <? upcoming then Err (msgpack_err msgpack_max_tree_size)
  else if Z.of_nat (length (remaining r)) / Z.max min_element_size 1 <? upcoming
  then Err (schema_err schema_array)
  else let* r := increment_depth (add_tags r upcoming) in Ok (upcoming, r).

Definition start_object (r : reader) : expect (Z * reader) :=
  let* ur := read_count ftag_object object_types schema_object r in
  let '(upcoming, r) := ur in
  if u64_max / 2 <? upcoming then Err (msgpack_err msgpack_max_tree_size)
  else if u64_max - tags_remaining r <? upcoming * 2 then Err (msgpack_err msgpack_max_tree_size)
  else let* r := increment_depth (add_tags r (upcoming * 2)) in Ok (upcoming, r).

Definition is_array_end (count : Z) (r : reader) : expect (bool * reader) :=
  if negb (count =? 0) then Ok (false, r)
  else let* r := update_tags_remaining r in Ok (true, r).

Definition check_complete (r : reader) : expect unit :=
  if tags_remaining r =? 0 then Ok tt else Err (msgpack_err msgpack_incomplete).

(** *** Values *)

Definition boolean (r : reader) : expect (bool * reader) :=
  let* r := update_tags_remaining r in
  let* tr := get_tag r in
  if tr.1 =? tag_True then Ok (true, tr.2)
  else if tr.1 =? tag_False then Ok (false, tr.2)
  else Err (schema_err schema_boolean).

Definition int64_min : Z := - 2 ^ 63.
Definition int64_max : Z := 2 ^ 63 - 1.

Definition do_integer (r : reader) (next : Z) : expect (Z * reader) :=
  if ft_matches ftag_signed next then Ok (to_signed 1 next, r)
  else read_integer int64_min int64_max r next.
Definition do_unsigned_integer (r : reader) (next : Z) : expect (Z * reader) :=
  read_integer 0 u64_max r next.

Definition integer (r : reader) : expect (Z * reader) :=
  let* r := update_tags_remaining r in
  let* tr := get_tag r in
  if tr.1 <=? ft_max ftag_unsigned then Ok tr else do_integer tr.2 tr.1.
Definition unsigned_integer (r : reader) : expect (Z * reader) :=
  let* r := update_tags_remaining r in
  let* tr := get_tag r in
  if tr.1 <=? ft_max ftag_unsigned then Ok tr else do_unsigned_integer tr.2 tr.1.

(** The bits of the floating point number that is read. *)
Definition real (r : reader) : expect ((nat * Z) * reader) :=
  let* r := update_tags_remaining r in
  let* tr := get_tag r in
  if tr.1 =? tag_float32 then
    let* vr := read_endian (MType tag_float32 4 false) tr.2 in Ok ((4%nat, vr.1), vr.2)
  else if tr.1 =? tag_float64 then
    let* vr := read_endian (MType tag_float64 8 false) tr.2 in Ok ((8%nat, vr.1), vr.2)
  else Err (schema_err schema_number).

Definition string (r : reader) : expect (list Z * reader) :=
  let* r := update_tags_remaining r in
  let* tr := get_tag r in read_string tr.2 tr.1.
Definition binary (r : reader) : expect (list Z * reader) :=
  let* r := update_tags_remaining r in
  let* tr := get_tag r in read_binary tr.2 tr.1.
(** [binary(dest)] with a destination of [size] bytes. *)
Definition binary_fixed (size : nat) (r : reader) : expect (list Z * reader) :=
  let* br := binary r in
  if bool_decide (length br.1 = size) then Ok br else Err (schema_err schema_fixed_binary).

(** *** Skipping *)

Definition width_to_skip (next : Z) : option nat :=
  if (next =? tag_nil) || (next =? tag_unused) || (next =? tag_False) || (next =? tag_True) then Some 1%nat
  else if (next =? tag_int8) || (next =? tag_uint8) then Some 2%nat
  else if (next =? tag_int16) || (next =? tag_uint16) || (next =? tag_fixed_extension1) then Some 3%nat
  else if (next =? tag_int32) || (next =? tag_uint32) || (next =? tag_float32) then Some 5%nat
  else if (next =? tag_int64) || (next =? tag_uint64) || (next =? tag_float64) then Some 9%nat
  else if next =? tag_fixed_extension2 then Some 4%nat
  else if next =? tag_fixed_extension4 then Some 6%nat
  else if next =? tag_fixed_extension8 then Some 10%nat
  else if next =? tag_fixed_extension16 then Some 18%nat
  else None.

Definition extension_types : list mtype :=
  [MType tag_extension8 1 false; MType tag_extension16 2 false; MType tag_extension32 4 false].

(** The [switch] of [skip_value]: what the tag [next] at the head removes. *)
Definition skip_one (next : Z) (r : reader) : expect reader :=
  match width_to_skip next with
  | Some n => Ok (remove_prefix n r)
  | None =>
    if is_some_b (find_type binary_types next) then
      let* br := read_binary (remove_prefix 1 r) next in Ok br.2
    else if is_some_b (find_type extension_types next) then
      match find_type extension_types next with
      | Some t => let* br := read_sized t (remove_prefix 1 r) in Ok (remove_prefix 1 br.2)
      | None => Ok r
      end
    else if ft_matches ftag_string next || is_some_b (find_type string_types next) then
      let* br := read_string (remove_prefix 1 r) next in Ok br.2
    else if ft_matches ftag_array next || is_some_b (find_type array_types next) then
      let* cr := start_array 0 r in Ok cr.2
    else if ft_matches ftag_object next || is_some_b (find_type object_types next) then
      let* cr := start_object r in Ok cr.2
    else Ok r
  end.

(** One round of the do-while loop of [skip_value]. *)
Definition skip_step (r : reader) : expect reader :=
  let size := length (remaining r) in
  let* next := peek_tag r in
  let* r := skip_one next r in
  let* r :=
    if bool_decide (size = length (remaining r)) then
      if ft_matches ftag_unsigned next || ft_matches ftag_signed next
      then Ok (remove_prefix 1 r) else Err (msgpack_err msgpack_invalid)
    else Ok r in
  update_tags_remaining r.

(** [do ... while (initial <= tags_remaining_)]; [None] when out of fuel. *)
Fixpoint skip_loop (fuel : nat) (initial : Z) (r : reader) : option (expect reader) :=
  match fuel with
  | O => None
  | S fuel =>
    match skip_step r with
    | Err e => Some (Err e)
    | Ok r => if initial <=? tags_remaining r then skip_loop fuel initial r else Some (Ok r)
    end
  end.

Definition skip_value (r : reader) : expect reader :=
  if tags_remaining r =? u64_max then Err (msgpack_err msgpack_max_tree_size)
  else default (Err logic_error) (skip_loop (S (length (remaining r))) (tags_remaining r) r).

(** *** Object keys *)

Definition read_key (r : reader) : expect (wkey * reader) :=
  let* r := update_tags_remaining r in
  let* tr := get_tag r in
  let '(next, r) := tr in
  if ft_matches ftag_unsigned next then Ok (KInt next, r)
  else if is_some_b (find_type unsigned_types next) then
    let* kr := read_integer 0 u32_max r next in Ok (KInt kr.1, kr.2)
  else if ft_matches ftag_string next || is_some_b (find_type string_types next) then
    let* sr := read_string r next in Ok (KStr sr.1, sr.2)
  else Err (schema_err schema_invalid_key).

(** [key(map, state, index)]: [Some index] of the next known field, or [None]
    at the end of the object; the second component is the new [state]. *)
Fixpoint key (map : list field) (state : nat) (r : reader) : expect (option nat * nat * reader) :=
  match state with
  | O => let* r := update_tags_remaining r in Ok (None, O, r)
  | S state =>
    let* kr := read_key r in
    match find_key kr.1 map with
    | Some index => Ok (Some index, state, kr.2)
    | None => let* r := skip_value kr.2 in key map state r
    end
  end.

End Reader.

(** ** The encoding as a function of the tree *)

Module Encoding.
Import Writer.

Fixpoint enc_first (types : list mtype) (z : Z) : list Z :=
  match types with
  | [] => []
  | t :: ts => if mt_max t <? z then enc_first ts z else mt_tag t :: be_bytes (mt_width t) z
  end.
Fixpoint enc_first_signed (types : list mtype) (z : Z) : list Z :=
  match types with
  | [] => []
  | t :: ts => if z <? mt_min t then enc_first_signed ts z else mt_tag t :: be_bytes (mt_width t) z
  end.
Definition enc_count (ft : fixed_tag) (types : list mtype) (n : Z) : list Z :=
  if n <=? ft_max ft then [Z.lor (ft_tag ft) (u8 n)] else enc_first types n.
Definition enc_uint (z : Z) : list Z :=
  if z <=? 127 then [u8 z] else enc_first unsigned_types z.
Definition enc_int (z : Z) : list Z :=
  if 0 <=? z then enc_uint z
  else if -32 <=? z then [u8 z] else enc_first_signed signed_types z.
Definition enc_str (s : list Z) : list Z :=
  enc_count ftag_string string_types (Z.of_nat (length s)) ++ s.
Definition enc_key (integer_keys : bool) (id : Z) (name : String.string) : list Z :=
  if integer_keys then enc_uint id else enc_str (bytes_of_string name).

Fixpoint enc (ik : bool) (v : wvalue) : list Z :=
  match v with
  | WBool b => [if b then tag_True else tag_False]
  | WInt z => enc_int z
  | WUint z => enc_uint z
  | WReal z => tag_float64 :: be_bytes 8 z
  | WStr s => enc_str s
  | WBin s => enc_first binary_types (Z.of_nat (length s)) ++ s
  | WArr l => enc_count ftag_array array_types (Z.of_nat (length l)) ++ concat (enc ik <$> l)
  | WObj l =>
    enc_count ftag_object object_types (Z.of_nat (length l)) ++
    concat ((fun kv : Z * String.string * wvalue => enc_key ik kv.1.1 kv.1.2 ++ enc ik kv.2) <$> l)
  end.

(** The values the writer accepts: integers of the C++ types, and at most
    [2^32 - 1] bytes or members. *)
Definition len_ok {A} (l : list A) : Prop := Z.of_nat (length l) <= u32_max.
Fixpoint wf (v : wvalue) : Prop :=
  match v with
  | WBool _ => True
  | WInt z => Reader.int64_min <= z <= Reader.int64_max
  | WUint z => in_u64 z
  | WReal z => in_u64 z
  | WStr s | WBin s => len_ok s
  | WArr l => len_ok l /\ (fix go l := match l with [] => True | x :: l => wf x /\ go l end) l
  | WObj l => len_ok l /\
    (fix go (l : list (Z * String.string * wvalue)) := match l with
      | [] => True
      | (id, name, x) :: l => in_u64 id /\ len_ok (bytes_of_string name) /\ wf x /\ go l
      end) l
  end.

Lemma put_app w a b : put (put w a) b = put w (a ++ b).
Proof. unfold put; simpl. by rewrite app_assoc. Qed.

Lemma enc_first_spec types z :
  Exists (fun t => z <= mt_max t) types ->
  exists t, t ∈ types /\ z <= mt_max t /\ enc_first types z = mt_tag t :: be_bytes (mt_width t) z /\
    forall w, write_count types w z = Ok (put w (enc_first types z)).
Proof.
  induction types as [|t types IH]; [by inversion 1|]. intros Hex. cbn [enc_first write_count].
  destruct (Z.ltb_spec (mt_max t) z).
  - inversion Hex; subst; [lia|]. destruct IH as (t' & ? & ? & ? & Hw); [done|].
    exists t'. split_and!; auto. by apply list_elem_of_further.
  - exists t. split_and!; auto. by apply list_elem_of_here.
Qed.

Lemma enc_first_signed_spec types z :
  Exists (fun t => mt_min t <= z) types ->
  exists t, t ∈ types /\ mt_min t <= z /\ enc_first_signed types z = mt_tag t :: be_bytes (mt_width t) z /\
    forall w, write_signed types w z = Ok (put w (enc_first_signed types z)).
Proof.
  induction types as [|t types IH]; [by inversion 1|]. intros Hex. cbn [enc_first_signed write_signed].
  destruct (Z.ltb_spec z (mt_min t)).
  - inversion Hex; subst; [lia|]. destruct IH as (t' & ? & ? & ? & Hw); [done|].
    exists t'. split_and!; auto. by apply list_elem_of_further.
  - exists t. split_and!; auto. by apply list_elem_of_here.
Qed.

(** The widest type of each tuple takes every admitted number. *)
Ltac fits :=
  intros; cbv [unsigned_types string_types binary_types array_types object_types signed_types];
  repeat first [ apply List.Exists_cons_hd;
      unfold in_u64, u64_max, u32_max, Reader.int64_min in *;
      match goal with
      | |- ?z <= ?m => let m' := eval vm_compute in m in change (z <= m'); lia
      | |- ?m <= ?z => let m' := eval vm_compute in m in change (m' <= z); lia
      end
    | apply List.Exists_cons_tl ].

Lemma fits_unsigned z : in_u64 z -> Exists (fun t => z <= mt_max t) unsigned_types.
Proof. fits. Qed.
Lemma fits_string z : z <= u32_max -> Exists (fun t => z <= mt_max t) string_types.
Proof. fits. Qed.
Lemma fits_binary z : z <= u32_max -> Exists (fun t => z <= mt_max t) binary_types.
Proof. fits. Qed.
Lemma fits_array z : z <= u32_max -> Exists (fun t => z <= mt_max t) array_types.
Proof. fits. Qed.
Lemma fits_object z : z <= u32_max -> Exists (fun t => z <= mt_max t) object_types.
Proof. fits. Qed.
Lemma fits_signed z : Reader.int64_min <= z -> Exists (fun t => mt_min t <= z) signed_types.
Proof. fits. Qed.

(** Writing is appending the encoding and completing one value. *)
Definition done_with (w : writer) (bs : list Z) : writer := complete_one (put w bs).

Lemma write_count_fixed_enc ft types w n :
  Exists (fun t => n <= mt_max t) types ->
  write_count_fixed ft types w n = Ok (put w (enc_count ft types n)).
Proof.
  intros Hex. unfold write_count_fixed, enc_count. destruct (n <=? ft_max ft); [done|].
  destruct (enc_first_spec types n Hex) as (? & _ & _ & _ & Hw). apply Hw.
Qed.

Lemma unsigned_integer_enc w z : in_u64 z -> unsigned_integer w z = Ok (done_with w (enc_uint z)).
Proof.
  intros Hz. unfold unsigned_integer, enc_uint. change (ft_max ftag_unsigned) with 127.
  destruct (z <=? 127); [done|].
  destruct (enc_first_spec unsigned_types z (fits_unsigned z Hz)) as (? & _ & _ & _ & Hw).
  unfold do_unsigned_integer. by rewrite Hw.
Qed.

Lemma integer_enc w z :
  Reader.int64_min <= z <= Reader.int64_max -> integer w z = Ok (done_with w (enc_int z)).
Proof.
  unfold Reader.int64_min, Reader.int64_max. intros Hz. unfold integer, enc_int.
  destruct (Z.leb_spec 0 z).
  - rewrite u64_small by (unfold in_u64, u64_max; lia).
    apply unsigned_integer_enc. unfold in_u64, u64_max; lia.
  - unfold do_integer. destruct (-32 <=? z); [done|].
    destruct (enc_first_signed_spec signed_types z) as (? & _ & _ & _ & Hw); [apply fits_signed; unfold Reader.int64_min; lia|].
    by rewrite Hw.
Qed.

Lemma string_enc w s : len_ok s -> string w s = Ok (done_with w (enc_str s)).
Proof.
  intros Hs. unfold string, enc_str. rewrite write_count_fixed_enc by (by apply fits_string).
  cbn [ebind]. by rewrite put_app.
Qed.

Lemma binary_enc w s :
  len_ok s -> binary w s = Ok (done_with w (enc_first binary_types (Z.of_nat (length s)) ++ s)).
Proof.
  intros Hs. unfold binary. destruct (enc_first_spec binary_types _ (fits_binary _ Hs)) as (? & _ & _ & _ & Hw).
  rewrite Hw. cbn [ebind]. by rewrite put_app.
Qed.

Lemma key_enc w id name :
  in_u64 id -> len_ok (bytes_of_string name) ->
  key w id name = Ok (done_with w (enc_key (w_integer_keys w) id name)).
Proof.
  intros Hid Hn. unfold key, enc_key. destruct (w_integer_keys w);
    [by apply unsigned_integer_enc|by apply string_enc].
Qed.

(** The loops of [write_value] over elements and members. *)
Fixpoint write_list (l : list wvalue) (w : writer) : expect writer :=
  match l with
  | [] => Ok w
  | x :: l => let* w := write_value x w in write_list l w
  end.
Fixpoint write_members (l : list (Z * String.string * wvalue)) (w : writer) : expect writer :=
  match l with
  | [] => Ok w
  | (id, name, x) :: l =>
    let* w := key w id name in
    let* w := write_value x w in write_members l w
  end.

Lemma write_value_arr l w :
  write_value (WArr l) w =
  let* w := start_array w (Z.of_nat (length l)) in
  let* w := write_list l w in Ok (end_array w).
Proof. reflexivity. Qed.
Lemma write_value_obj l w :
  write_value (WObj l) w =
  let* w := start_object w (Z.of_nat (length l)) in
  let* w := write_members l w in Ok (end_object w).
Proof. reflexivity. Qed.

Lemma wf_arr l : wf (WArr l) <-> len_ok l /\ Forall wf l.
Proof.
  cbn [wf]. split; intros [H1 H2]; (split; [done|]); clear H1.
  - induction l as [|x l IH]; [constructor|]. destruct H2. constructor; auto.
  - induction H2 as [|x l ? ? IH]; [done|]. split; auto.
Qed.
Definition wf_member (kv : Z * String.string * wvalue) : Prop :=
  in_u64 kv.1.1 /\ len_ok (bytes_of_string kv.1.2) /\ wf kv.2.
Lemma wf_obj l : wf (WObj l) <-> len_ok l /\ Forall wf_member l.
Proof.
  cbn [wf]. split; intros [H1 H2]; (split; [done|]); clear H1.
  - induction l as [|[[id name] x] l IH]; [constructor|]. destruct H2 as (? & ? & ? & ?).
    constructor; [done|auto].
  - induction H2 as [|[[id name] x] l (? & ? & ?) ? IH]; [done|]. done.
Qed.

(** [w'] is [w] after [n] values encoded as [bs]. *)
Definition wrote (w w' : writer) (bs : list Z) (n : Z) : Prop :=
  w_bytes w' = w_bytes w ++ bs /\ w_integer_keys w' = w_integer_keys w /\
  u64 (w_expected w') = u64 (w_expected w - n).

Lemma wrote_trans w1 w2 w3 a b n m :
  wrote w1 w2 a n -> wrote w2 w3 b m -> wrote w1 w3 (a ++ b) (n + m).
Proof.
  intros (Hb1 & Hk1 & He1) (Hb2 & Hk2 & He2). split_and!.
  - by rewrite Hb2, Hb1, app_assoc.
  - congruence.
  - rewrite He2, <- u64_sub_l, He1, u64_sub_l. f_equal; lia.
Qed.

Lemma wrote_done w bs : wrote w (done_with w bs) bs 1.
Proof. split_and!; [done|done|]. cbn. unfold u64. by rewrite Zmod_mod. Qed.

Lemma write_list_wrote l w :
  Forall (fun v => wf v -> forall w, write_value v w = Ok (done_with w (enc (w_integer_keys w) v))) l ->
  Forall wf l ->
  exists w', write_list l w = Ok w' /\
    wrote w w' (concat (enc (w_integer_keys w) <$> l)) (Z.of_nat (length l)).
Proof.
  intros Hl Hwf. revert w. induction Hl as [|x l Hx Hl IH]; intros w; inversion Hwf; subst.
  - exists w. cbn. split; [done|]. split_and!; rewrite ?app_nil_r, ?Z.sub_0_r; done.
  - cbn [write_list]. rewrite Hx by done. cbn [ebind].
    destruct (IH ltac:(done) (done_with w (enc (w_integer_keys w) x))) as (w' & Hw & Hwr).
    exists w'. split; [done|]. cbn [fmap list_fmap concat length].
    replace (Z.of_nat (S (length l))) with (1 + Z.of_nat (length l)) by lia.
    eapply wrote_trans; [apply wrote_done|exact Hwr].
Qed.

Lemma write_members_wrote l w :
  Forall (fun kv : Z * String.string * wvalue =>
    wf kv.2 -> forall w, write_value kv.2 w = Ok (done_with w (enc (w_integer_keys w) kv.2))) l ->
  Forall wf_member l ->
  exists w', write_members l w = Ok w' /\
    wrote w w' (concat ((fun kv : Z * String.string * wvalue =>
      enc_key (w_integer_keys w) kv.1.1 kv.1.2 ++ enc (w_integer_keys w) kv.2) <$> l)) (2 * Z.of_nat (length l)).
Proof.
  intros Hl Hwf. revert w. induction Hl as [|[[id name] x] l Hx Hl IH]; intros w; inversion Hwf as [|? ? (Hi & Hn & Hv)]; subst.
  - exists w. cbn. split; [done|]. split_and!; rewrite ?app_nil_r, ?Z.sub_0_r; done.
  - cbn [write_members fst snd] in *. rewrite key_enc by done. cbn [ebind].
    set (wk := done_with w _). rewrite Hx by done. cbn [ebind].
    destruct (IH ltac:(done) (done_with wk (enc (w_integer_keys wk) x))) as (w' & Hw & Hwr).
    exists w'. split; [done|]. cbn [fmap list_fmap concat length fst snd].
    replace (2 * Z.of_nat (S (length l))) with (1 + 1 + 2 * Z.of_nat (length l)) by lia.
    eapply wrote_trans; [|exact Hwr]. eapply wrote_trans; [apply wrote_done|apply (wrote_done wk)].
Qed.

(** Closing a container of [n] values completes one value. *)
Lemma close_container w w' bs n header :
  wrote (expect_more (put w header) n) w' bs n -> complete_one w' = done_with w (header ++ bs).
Proof.
  destruct w' as [b e k]. intros (Hb & Hk & He). cbn in *. subst. unfold done_with, complete_one, put; cbn.
  rewrite app_assoc. f_equal. rewrite u64_sub_l, Z.add_simpl_r in He.
  by rewrite <- u64_sub_l, He, u64_sub_l.
Qed.

Lemma write_value_enc v :
  wf v -> forall w, write_value v w = Ok (done_with w (enc (w_integer_keys w) v)).
Proof.
  induction v as [b|z|z|z|s|s|l IH|l IH] using wvalue_nested_ind; intros Hwf w.
  - done.
  - by apply integer_enc.
  - by apply unsigned_integer_enc.
  - done.
  - by apply string_enc.
  - by apply binary_enc.
  - apply wf_arr in Hwf as [Hlen Hwf]. rewrite write_value_arr. unfold start_array.
    rewrite write_count_fixed_enc by (by apply fits_array). cbn [ebind].
    set (w1 := expect_more _ _). destruct (write_list_wrote l w1 IH Hwf) as (w' & -> & Hwr).
    cbn [ebind]. f_equal. by apply close_container with (n := Z.of_nat (length l)).
  - apply wf_obj in Hwf as [Hlen Hwf]. rewrite write_value_obj. unfold start_object.
    rewrite write_count_fixed_enc by (by apply fits_object). cbn [ebind].
    set (w1 := expect_more _ _). destruct (write_members_wrote l w1 IH Hwf) as (w' & -> & Hwr).
    cbn [ebind]. f_equal. apply close_container with (n := 2 * Z.of_nat (length l)).
    unfold w1 in Hwr. rewrite u64_small in Hwr; [|unfold len_ok, u32_max, in_u64, u64_max in *; lia].
    by rewrite (Z.mul_comm _ 2) in Hwr.
Qed.
End Encoding.

(** ** Reading back *)
Module RoundTrip.
Import Encoding.
Import Reader.

Lemma take_app_be n z (rest : list Z) : take n (be_bytes n z ++ rest) = be_bytes n z.
Proof. rewrite take_app_le by (rewrite length_be_bytes; lia). apply take_ge. rewrite length_be_bytes; lia. Qed.
Lemma drop_app_be n z (rest : list Z) : drop n (be_bytes n z ++ rest) = rest.
Proof. by rewrite drop_app_ge, length_be_bytes, Nat.sub_diag by (rewrite length_be_bytes; lia). Qed.

Lemma read_endian_unsigned t z rest tg d :
  mt_signed t = false -> 0 <= z <= mt_max t ->
  read_endian t (MkReader (be_bytes (mt_width t) z ++ rest) tg d) = Ok (z, MkReader rest tg d).
Proof.
  intros Hs Hz. unfold read_endian. cbn [remaining].
  rewrite bool_decide_false by (rewrite length_app, length_be_bytes; lia).
  rewrite Hs, take_app_be. unfold remove_prefix; cbn [remaining tags_remaining depth].
  rewrite drop_app_be, be_decode_bytes_small; [done|].
  unfold mt_max, mt_bits in Hz. rewrite Hs in Hz.
  change 256 with (2 ^ 8). rewrite <- Z.pow_mul_r by lia. lia.
Qed.

Lemma read_endian_signed t z rest tg d :
  mt_signed t = true -> (0 < mt_width t)%nat -> mt_min t <= z <= mt_max t ->
  read_endian t (MkReader (be_bytes (mt_width t) z ++ rest) tg d) = Ok (z, MkReader rest tg d).
Proof.
  intros Hs Hw Hz. unfold read_endian. cbn [remaining].
  rewrite bool_decide_false by (rewrite length_app, length_be_bytes; lia).
  rewrite Hs, take_app_be. unfold remove_prefix; cbn [remaining tags_remaining depth].
  rewrite drop_app_be, be_decode_bytes. do 2 f_equal. unfold to_signed, mt_min, mt_max, mt_bits in *.
  rewrite Hs in Hz. change 256 with (2 ^ 8). rewrite <- Z.pow_mul_r by lia.
  set (b := 8 * Z.of_nat (mt_width t)) in *.
  assert (2 ^ b = 2 * 2 ^ (b - 1)) as Hb by (rewrite <- Z.pow_succ_r by lia; f_equal; lia).
  destruct (Z.leb_spec (2 ^ (b - 1)) (z mod 2 ^ b)) as [H|H].
  - assert (z < 0) by (destruct (Z.ltb_spec z 0); [done|rewrite Z.mod_small in H by lia; lia]).
    rewrite <- (Z.mod_add z 1) in * by lia. rewrite Z.mod_small by lia. lia.
  - destruct (Z.ltb_spec z 0); [|rewrite Z.mod_small by lia; lia].
    rewrite <- (Z.mod_add z 1) in H by lia. rewrite Z.mod_small in H by lia. lia.
Qed.

(** One byte in front, as the tag. *)
Lemma get_tag_cons b l tg d : get_tag (MkReader (b :: l) tg d) = Ok (b, MkReader l tg d).
Proof. reflexivity. Qed.
Lemma update_tags_pos l tg d :
  0 < tg -> update_tags_remaining (MkReader l tg d) = Ok (MkReader l (tg - 1) d).
Proof. intros. unfold update_tags_remaining; cbn. by rewrite (proj2 (Z.eqb_neq tg 0)) by lia. Qed.

Ltac in_types H :=
  cbv [unsigned_types signed_types string_types binary_types array_types object_types extension_types] in H;
  repeat (apply elem_of_cons in H; destruct H as [-> | H]); [.. | by apply elem_of_nil in H].

Lemma read_integer_enc_unsigned lo hi z rest tg d :
  in_u64 z -> lo <= z <= hi ->
  exists tag body, enc_first unsigned_types z = tag :: body /\ 0xcc <= tag <= 0xcf /\
    read_integer lo hi (MkReader (body ++ rest) tg d) tag = Ok (z, MkReader rest tg d).
Proof.
  intros Hz Hlh. destruct (enc_first_spec unsigned_types z (fits_unsigned z Hz)) as (t & Ht & Hmax & -> & _).
  exists (mt_tag t), (be_bytes (mt_width t) z). unfold in_u64 in Hz.
  assert (read_endian t (MkReader (be_bytes (mt_width t) z ++ rest) tg d) = Ok (z, MkReader rest tg d)) as Hr.
  { apply read_endian_unsigned; [|lia]. in_types Ht; reflexivity. }
  assert (find_type (signed_types ++ unsigned_types) (mt_tag t) = Some t) as Hf by (in_types Ht; reflexivity).
  split_and!; [done|in_types Ht; vm_compute; congruence|in_types Ht; vm_compute; congruence|].
  unfold read_integer. rewrite Hf, Hr. cbn [ebind fst snd]. unfold numeric_cast.
  rewrite (proj2 (Z.ltb_ge hi z)), (proj2 (Z.ltb_ge z lo)) by lia. done.
Qed.

Lemma read_integer_enc_signed z rest tg d :
  int64_min <= z < 0 ->
  exists tag body, enc_first_signed signed_types z = tag :: body /\ 0xd0 <= tag <= 0xd3 /\
    read_integer int64_min int64_max (MkReader (body ++ rest) tg d) tag = Ok (z, MkReader rest tg d).
Proof.
  intros Hz. destruct (enc_first_signed_spec signed_types z (fits_signed z ltac:(lia))) as (t & Ht & Hmin & -> & _).
  exists (mt_tag t), (be_bytes (mt_width t) z). unfold int64_min, int64_max in *.
  assert (read_endian t (MkReader (be_bytes (mt_width t) z ++ rest) tg d) = Ok (z, MkReader rest tg d)) as Hr.
  { apply read_endian_signed; in_types Ht; try reflexivity; try (cbn; lia);
      (split; [done|]); match goal with |- _ <= ?m => let m' := eval vm_compute in m in change (z <= m'); lia end. }
  assert (find_type (signed_types ++ unsigned_types) (mt_tag t) = Some t) as Hf by (in_types Ht; reflexivity).
  split_and!; [done|in_types Ht; vm_compute; congruence|in_types Ht; vm_compute; congruence|].
  unfold read_integer. rewrite Hf, Hr. cbn [ebind fst snd]. unfold numeric_cast.
  rewrite (proj2 (Z.ltb_ge _ z)), (proj2 (Z.ltb_ge z _)) by lia. done.
Qed.

Lemma unsigned_integer_ok z rest tg d :
  in_u64 z -> 0 < tg ->
  unsigned_integer (MkReader (enc_uint z ++ rest) tg d) = Ok (z, MkReader rest (tg - 1) d).
Proof.
  intros Hz Htg. unfold unsigned_integer. rewrite update_tags_pos by done. cbn [ebind].
  unfold enc_uint. destruct (Z.leb_spec z 127).
  - unfold in_u64 in Hz. cbn [app]. rewrite get_tag_cons. cbn [ebind fst snd].
    unfold u8. rewrite Z.mod_small by lia. by rewrite (proj2 (Z.leb_le _ _)) by (cbn; lia).
  - destruct (read_integer_enc_unsigned 0 u64_max z rest (tg - 1) d) as (tag & body & -> & Ht & Hr); [done|done|].
    cbn [app]. rewrite get_tag_cons. cbn [ebind fst snd].
    rewrite (proj2 (Z.leb_gt _ _)) by (cbn; lia). exact Hr.
Qed.

Lemma not_ftag_signed tag : 0xcc <= tag <= 0xd3 -> ft_matches ftag_signed tag = false.
Proof.
  intros. assert (Hin : tag ∈ seqZ 0xcc 8) by (apply elem_of_seqZ; lia).
  assert (Hall : forallb (fun t => negb (ft_matches ftag_signed t)) (seqZ 0xcc 8) = true) by reflexivity.
  rewrite forallb_forall in Hall. specialize (Hall tag (proj1 (list_elem_of_In _ _) Hin)).
  by destruct (ft_matches ftag_signed tag).
Qed.

Lemma negative_fixed z : -32 <= z < 0 ->
  ft_matches ftag_signed (u8 z) = true /\ to_signed 1 (u8 z) = z /\ 127 < u8 z.
Proof.
  intros. assert (Hin : z ∈ seqZ (-32) 32) by (apply elem_of_seqZ; lia).
  assert (Hall : forallb (fun t => ft_matches ftag_signed (u8 t) && (to_signed 1 (u8 t) =? t) && (127 <? u8 t)) (seqZ (-32) 32) = true) by reflexivity.
  rewrite forallb_forall in Hall. specialize (Hall z (proj1 (list_elem_of_In _ _) Hin)).
  rewrite !andb_true_iff, Z.eqb_eq, Z.ltb_lt in Hall. tauto.
Qed.

Lemma integer_ok z rest tg d :
  int64_min <= z <= int64_max -> 0 < tg ->
  integer (MkReader (enc_int z ++ rest) tg d) = Ok (z, MkReader rest (tg - 1) d).
Proof.
  intros Hz Htg. unfold int64_min, int64_max in Hz. unfold integer. rewrite update_tags_pos by done. cbn [ebind].
  unfold enc_int, enc_uint. destruct (Z.leb_spec 0 z); [destruct (Z.leb_spec z 127)|].
  - cbn [app]. rewrite get_tag_cons. cbn [ebind fst snd].
    unfold u8. rewrite Z.mod_small by lia. by rewrite (proj2 (Z.leb_le _ _)) by (cbn; lia).
  - destruct (read_integer_enc_unsigned int64_min int64_max z rest (tg - 1) d) as (tag & body & -> & Ht & Hr);
      [unfold in_u64, u64_max; lia|unfold int64_min, int64_max; lia|].
    cbn [app]. rewrite get_tag_cons. cbn [ebind fst snd].
    rewrite (proj2 (Z.leb_gt _ _)) by (cbn; lia). unfold do_integer.
    by rewrite not_ftag_signed by lia.
  - destruct (Z.leb_spec (-32) z).
    + destruct (negative_fixed z) as (Hm & Hs & Hgt); [lia|].
      cbn [app]. rewrite get_tag_cons. cbn [ebind fst snd].
      rewrite (proj2 (Z.leb_gt _ _)) by (cbn; lia). unfold do_integer. by rewrite Hm, Hs.
    + destruct (read_integer_enc_signed z rest (tg - 1) d) as (tag & body & -> & Ht & Hr); [unfold int64_min; lia|].
      cbn [app]. rewrite get_tag_cons. cbn [ebind fst snd].
      rewrite (proj2 (Z.leb_gt _ _)) by (cbn; lia). unfold do_integer.
      by rewrite not_ftag_signed by lia.
Qed.

(** A fact about every byte of a small range, checked by evaluation. *)
Lemma byte_range_check (P : Z -> bool) lo n b :
  forallb P (seqZ lo n) = true -> lo <= b < lo + n -> P b = true.
Proof.
  intros Hall Hb. rewrite forallb_forall in Hall. apply Hall, list_elem_of_In, elem_of_seqZ. lia.
Qed.

Lemma fixed_header ft n :
  ft = ftag_string \/ ft = ftag_array \/ ft = ftag_object -> 0 <= n <= ft_max ft ->
  ft_matches ft (Z.lor (ft_tag ft) (u8 n)) = true /\ ft_extract ft (Z.lor (ft_tag ft) (u8 n)) = n.
Proof.
  intros Hft Hn.
  assert ((ft_matches ft (Z.lor (ft_tag ft) (u8 n)) && (ft_extract ft (Z.lor (ft_tag ft) (u8 n)) =? n)) = true) as H.
  { apply (byte_range_check (fun n => ft_matches ft (Z.lor (ft_tag ft) (u8 n)) && (ft_extract ft (Z.lor (ft_tag ft) (u8 n)) =? n)) 0 (ft_max ft + 1)); [|lia].
    destruct Hft as [-> | [-> | ->]]; reflexivity. }
  by rewrite andb_true_iff, Z.eqb_eq in H.
Qed.

Lemma read_raw_app s rest tg d :
  read_raw (length s) (MkReader (s ++ rest) tg d) = Ok (s, MkReader rest tg d).
Proof.
  unfold read_raw, remove_prefix. cbn [remaining tags_remaining depth].
  rewrite bool_decide_false by (rewrite length_app; lia).
  by rewrite take_app_length, drop_app_length.
Qed.

Lemma read_sized_ok t s rest tg d :
  mt_signed t = false -> Z.of_nat (length s) <= mt_max t ->
  read_sized t (MkReader (be_bytes (mt_width t) (Z.of_nat (length s)) ++ s ++ rest) tg d) =
  Ok (s, MkReader rest tg d).
Proof.
  intros Hs Hl. unfold read_sized. rewrite read_endian_unsigned by (done || lia).
  cbn [ebind fst snd]. by rewrite Nat2Z.id, read_raw_app.
Qed.

(** The header of a string: its tag and what [read_string] makes of the rest. *)
Lemma read_string_enc s :
  len_ok s ->
  exists tag body, enc_str s = tag :: body /\
    (ft_matches ftag_string tag || is_some_b (find_type string_types tag)) = true /\
    (0xa0 <= tag <= 0xbf \/ 0xd9 <= tag <= 0xdb) /\
    forall rest tg d, read_string (MkReader (body ++ rest) tg d) tag = Ok (s, MkReader rest tg d).
Proof.
  intros Hs. unfold enc_str, enc_count. destruct (Z.leb_spec (Z.of_nat (length s)) (ft_max ftag_string)).
  - destruct (fixed_header ftag_string (Z.of_nat (length s))) as [Hm He]; [tauto|lia|].
    eexists _, s. split_and!; [reflexivity|by rewrite Hm| |].
    + left. set (n := Z.of_nat (length s)) in *.
      assert (((0xa0 <=? Z.lor (ft_tag ftag_string) (u8 n)) && (Z.lor (ft_tag ftag_string) (u8 n) <=? 0xbf)) = true) as Hb.
      { apply (byte_range_check (fun n => (0xa0 <=? Z.lor (ft_tag ftag_string) (u8 n)) && (Z.lor (ft_tag ftag_string) (u8 n) <=? 0xbf)) 0 32); [reflexivity|].
        cbn in H. lia. }
      rewrite andb_true_iff in Hb. lia.
    + intros. unfold read_string. by rewrite Hm, He, Nat2Z.id, read_raw_app.
  - destruct (enc_first_spec string_types _ (fits_string _ Hs)) as (t & Ht & Hmax & -> & _).
    eexists _, _. split_and!; [reflexivity|in_types Ht; reflexivity|right; in_types Ht; vm_compute; split; congruence|].
    intros. unfold read_string.
    replace (ft_matches ftag_string (mt_tag t)) with false by (in_types Ht; reflexivity).
    replace (find_type string_types (mt_tag t)) with (Some t) by (in_types Ht; reflexivity).
    rewrite <- app_assoc. apply read_sized_ok; [|done]. in_types Ht; reflexivity.
Qed.

Lemma read_binary_enc s :
  len_ok s ->
  exists tag body, enc_first binary_types (Z.of_nat (length s)) ++ s = tag :: body /\
    0xc4 <= tag <= 0xc6 /\
    forall rest tg d, read_binary (MkReader (body ++ rest) tg d) tag = Ok (s, MkReader rest tg d).
Proof.
  intros Hs. destruct (enc_first_spec binary_types _ (fits_binary _ Hs)) as (t & Ht & Hmax & -> & _).
  eexists _, _. split_and!; [reflexivity|in_types Ht; vm_compute; congruence|in_types Ht; vm_compute; congruence|].
  intros. unfold read_binary.
  replace (find_type binary_types (mt_tag t)) with (Some t) by (in_types Ht; reflexivity).
  rewrite <- app_assoc. apply read_sized_ok; [|done]. in_types Ht; reflexivity.
Qed.

Lemma string_ok s rest tg d :
  len_ok s -> 0 < tg ->
  string (MkReader (enc_str s ++ rest) tg d) = Ok (s, MkReader rest (tg - 1) d).
Proof.
  intros Hs Htg. unfold string. rewrite update_tags_pos by done. cbn [ebind].
  destruct (read_string_enc s Hs) as (tag & body & -> & _ & _ & Hr).
  cbn [app]. rewrite get_tag_cons. cbn [ebind fst snd]. apply Hr.
Qed.

Lemma binary_ok s rest tg d :
  len_ok s -> 0 < tg ->
  binary (MkReader ((enc_first binary_types (Z.of_nat (length s)) ++ s) ++ rest) tg d) =
  Ok (s, MkReader rest (tg - 1) d).
Proof.
  intros Hs Htg. unfold binary. rewrite update_tags_pos by done. cbn [ebind].
  destruct (read_binary_enc s Hs) as (tag & body & -> & _ & Hr).
  cbn [app]. rewrite get_tag_cons. cbn [ebind fst snd]. apply Hr.
Qed.

(** The header of a container. *)
Lemma read_count_enc ft types e n :
  (ft = ftag_array /\ types = array_types \/ ft = ftag_object /\ types = object_types) ->
  0 <= n <= u32_max ->
  exists tag body, enc_count ft types n = tag :: body /\
    (ft_matches ft tag || is_some_b (find_type types tag)) = true /\ is_byte tag /\
    forall rest tg d, read_count ft types e (MkReader (tag :: body ++ rest) tg d) = Ok (n, MkReader rest tg d).
Proof.
  intros Hft Hn. unfold enc_count. destruct (Z.leb_spec n (ft_max ft)).
  - destruct (fixed_header ft n) as [Hm He]; [tauto|lia|].
    eexists _, []. split; [reflexivity|]. split; [by rewrite Hm|]. split.
    { assert (((0 <=? Z.lor (ft_tag ft) (u8 n)) && (Z.lor (ft_tag ft) (u8 n) <? 256)) = true) as Hb; [|unfold is_byte; lia].
      apply (byte_range_check (fun n => (0 <=? Z.lor (ft_tag ft) (u8 n)) && (Z.lor (ft_tag ft) (u8 n) <? 256)) 0 16);
        [destruct Hft as [[-> _] | [-> _]]; reflexivity|].
      destruct Hft as [[-> _] | [-> _]]; cbn in H; lia. }
    intros. unfold read_count. cbn [app]. rewrite get_tag_cons. cbn [ebind]. by rewrite Hm, He.
  - assert (Exists (fun t => n <= mt_max t) types) as Hex.
    { destruct Hft as [[-> ->] | [-> ->]]; [apply fits_array|apply fits_object]; lia. }
    destruct (enc_first_spec types _ Hex) as (t & Ht & Hmax & -> & _).
    eexists _, _. split; [reflexivity|].
    destruct Hft as [[-> ->] | [-> ->]]; in_types Ht; (split; [reflexivity|]); (split; [split; [by vm_compute|reflexivity]|]);
      intros; unfold read_count; rewrite get_tag_cons; cbn [ebind];
      (match goal with |- context [ft_matches ?f ?g] => replace (ft_matches f g) with false by reflexivity end);
      (match goal with |- context [find_type ?f ?g] =>
         let o := eval vm_compute in (find_type f g) in change (find_type f g) with o end);
      refine (read_endian_unsigned (MType _ _ false) n rest tg d eq_refl (conj (proj1 Hn) Hmax)).
Qed.
End RoundTrip.

(** ** Skipping consumes exactly one value *)
Module Skipping.
Import Encoding.
Import Reader.
Import RoundTrip.

Definition key_value (ik : bool) (id : Z) (name : String.string) : wvalue :=
  if ik then WUint id else WStr (bytes_of_string name).

(** The values that follow the header of a container on the wire. *)
Definition children (ik : bool) (v : wvalue) : list wvalue :=
  match v with
  | WArr l => l
  | WObj l => concat ((fun kv : Z * String.string * wvalue => [key_value ik kv.1.1 kv.1.2; kv.2]) <$> l)
  | _ => []
  end.
Definition is_container (v : wvalue) : bool :=
  match v with WArr _ | WObj _ => true | _ => false end.

(** Number of values of a tree (keys included) and of its containers. *)
Fixpoint nodes (v : wvalue) : nat :=
  match v with
  | WArr l => S (nat_sum (map nodes l))
  | WObj l => S (nat_sum (map (fun kv : Z * String.string * wvalue => S (nodes kv.2)) l))
  | _ => 1
  end.
Fixpoint containers (v : wvalue) : nat :=
  match v with
  | WArr l => S (nat_sum (map containers l))
  | WObj l => S (nat_sum (map (fun kv : Z * String.string * wvalue => containers kv.2) l))
  | _ => 0
  end.

Lemma nodes_children ik v : nodes v = S (nat_sum (map nodes (children ik v))).
Proof.
  destruct v; try reflexivity. cbn [nodes children]. f_equal.
  induction l as [|[[id name] x] l IH]; [done|]. destruct ik; cbn in *; rewrite IH; lia.
Qed.

Lemma containers_children ik v :
  containers v = ((if is_container v then 1 else 0) + nat_sum (map containers (children ik v)))%nat.
Proof.
  destruct v; try reflexivity. cbn [containers children is_container]. cbn [Nat.add]. f_equal.
  induction l as [|[[id name] x] l IH]; [done|]. destruct ik; cbn in *; rewrite IH; lia.
Qed.

Lemma children_wf ik v : wf v -> Forall wf (children ik v).
Proof.
  destruct v; try constructor; intros H.
  - by apply wf_arr in H as [_ H].
  - apply wf_obj in H as [_ H]. cbn [children]. induction H as [|[[id name] x] l (Hi & Hn & Hx) Hl IH]; [constructor|].
    cbn in *. constructor; [|constructor; done]. by destruct ik.
Qed.

(** Encoded headers: the first bytes of a value, then its children. *)
Definition header (v : wvalue) : list Z :=
  match v with
  | WArr l => enc_count ftag_array array_types (Z.of_nat (length l))
  | WObj l => enc_count ftag_object object_types (Z.of_nat (length l))
  | _ => enc true v
  end.

Lemma enc_header ik v : enc ik v = header v ++ concat (enc ik <$> children ik v).
Proof.
  destruct v; cbn [enc header children fmap list_fmap concat]; rewrite ?app_nil_r; try done.
  f_equal. induction l as [|[[id name] x] l IH]; [done|]. cbn [fmap list_fmap concat app fst snd].
  rewrite IH, <- app_assoc. by destruct ik.
Qed.

Lemma header_cons v : wf v -> exists b l, header v = b :: l.
Proof.
  intros H. destruct v; cbn [header enc].
  - eauto.
  - unfold enc_int, enc_uint. unfold wf in H. destruct (Z.leb_spec 0 z); [destruct (z <=? 127); [eauto|]|destruct (-32 <=? z); [eauto|]].
    + destruct (enc_first_spec unsigned_types z) as (? & _ & _ & -> & _); [apply fits_unsigned|eauto].
      unfold in_u64, u64_max, int64_max in *. lia.
    + destruct (enc_first_signed_spec signed_types z) as (? & _ & _ & -> & _); [apply fits_signed|eauto]. tauto.
  - unfold enc_uint. destruct (z <=? 127); [eauto|].
    destruct (enc_first_spec unsigned_types z (fits_unsigned z H)) as (? & _ & _ & -> & _). eauto.
  - eauto.
  - destruct (read_string_enc s H) as (? & ? & -> & _). eauto.
  - destruct (read_binary_enc s H) as (? & ? & -> & _). eauto.
  - apply wf_arr in H as [H _]. destruct (read_count_enc ftag_array array_types schema_array (Z.of_nat (length l))) as (? & ? & -> & _); [tauto| |eauto].
    unfold len_ok in H. lia.
  - apply wf_obj in H as [H _]. destruct (read_count_enc ftag_object object_types schema_array (Z.of_nat (length l))) as (? & ? & -> & _); [tauto| |eauto].
    unfold len_ok in H. lia.
Qed.

(** A forest takes at least one byte per value. *)
Lemma forest_length ik vs :
  Forall wf vs -> (nat_sum (map nodes vs) <= length (concat (enc ik <$> vs)))%nat.
Proof.
  assert (forall n vs, (nat_sum (map nodes vs) <= n)%nat -> Forall wf vs ->
    (nat_sum (map nodes vs) <= length (concat (enc ik <$> vs)))%nat) as H; [|by eauto].
  clear vs. induction n as [|n IH]; intros vs Hn Hwf; [lia|].
  destruct Hwf as [|v vs Hv Hwf]; [done|].
  cbn [map nat_sum fmap list_fmap concat] in *.
  rewrite length_app, (enc_header ik v), length_app. destruct (header_cons v Hv) as (b & l & ->).
  rewrite (nodes_children ik v) in Hn |- *. cbn [length].
  assert (Hc := IH (children ik v) ltac:(lia) (children_wf ik v Hv)).
  assert (Hr := IH vs ltac:(lia) Hwf). lia.
Qed.

(** The rounds of [skip_value] by the class of the tag. *)
Definition no_width (b : Z) : bool :=
  negb (is_some_b (width_to_skip b)) && negb (is_some_b (find_type binary_types b)) &&
  negb (is_some_b (find_type extension_types b)).
Definition is_string_tag (b : Z) : bool := ft_matches ftag_string b || is_some_b (find_type string_types b).
Definition is_array_tag (b : Z) : bool := ft_matches ftag_array b || is_some_b (find_type array_types b).
Definition is_object_tag (b : Z) : bool := ft_matches ftag_object b || is_some_b (find_type object_types b).

Definition fixed_integer_tag (b : Z) : bool :=
  no_width b && negb (is_string_tag b) && negb (is_array_tag b) && negb (is_object_tag b) &&
  (ft_matches ftag_unsigned b || ft_matches ftag_signed b).

Lemma skip_one_no_width b r :
  no_width b = true ->
  skip_one b r =
    if is_string_tag b then let* br := read_string (remove_prefix 1 r) b in Ok br.2
    else if is_array_tag b then let* cr := start_array 0 r in Ok cr.2
    else if is_object_tag b then let* cr := start_object r in Ok cr.2
    else Ok r.
Proof.
  unfold no_width, skip_one. intros H.
  destruct (width_to_skip b); [done|].
  destruct (find_type binary_types b); [done|].
  by destruct (find_type extension_types b).
Qed.

(** A round that removed something consumes the value. *)
Lemma skip_step_progress b l tg d r' :
  skip_one b (MkReader (b :: l) tg d) = Ok r' ->
  (length (remaining r') < S (length l))%nat -> 0 < tags_remaining r' ->
  skip_step (MkReader (b :: l) tg d) = Ok (MkReader (remaining r') (tags_remaining r' - 1) (depth r')).
Proof.
  intros Hone Hlen Htg. unfold skip_step. cbn [remaining length]. unfold peek_tag. cbn [remaining ebind].
  rewrite Hone. cbn [ebind]. rewrite bool_decide_false by lia. cbn [ebind].
  destruct r' as [rm tg' d']. by rewrite update_tags_pos.
Qed.

Lemma skip_step_width n b l tg d :
  width_to_skip b = Some (S n) -> 0 < tg ->
  skip_step (MkReader (b :: l) tg d) = Ok (MkReader (drop n l) (tg - 1) d).
Proof.
  intros Hw Htg. rewrite (skip_step_progress b l tg d (MkReader (drop n l) tg d)); [done| | |done].
  - unfold skip_one. by rewrite Hw.
  - cbn [remaining]. rewrite length_drop. lia.
Qed.

Lemma skip_step_fixed b l tg d :
  0 <= b <= 127 \/ 224 <= b <= 255 -> 0 < tg ->
  skip_step (MkReader (b :: l) tg d) = Ok (MkReader l (tg - 1) d).
Proof.
  intros Hb Htg.
  assert (fixed_integer_tag b = true) as H.
  { destruct Hb; [apply (byte_range_check fixed_integer_tag 0 128)|apply (byte_range_check fixed_integer_tag 224 32)]; (reflexivity || lia). }
  unfold fixed_integer_tag in H. rewrite !andb_true_iff, !negb_true_iff in H. destruct H as [[[[H1 H2] H3] H4] H5].
  unfold skip_step. cbn [remaining length]. unfold peek_tag. cbn [remaining ebind].
  rewrite skip_one_no_width, H2, H3, H4 by done. cbn [ebind remaining length].
  rewrite bool_decide_true by done. rewrite H5. cbn [ebind]. unfold remove_prefix; cbn [remaining drop tags_remaining depth].
  by rewrite update_tags_pos.
Qed.

Lemma skip_step_typed ts t z rest tg d :
  (ts = unsigned_types \/ ts = signed_types) -> t ∈ ts -> 0 < tg ->
  skip_step (MkReader ((mt_tag t :: be_bytes (mt_width t) z) ++ rest) tg d) = Ok (MkReader rest (tg - 1) d).
Proof.
  intros Hts Ht Htg. cbn [app].
  rewrite (skip_step_width (mt_width t)); [by rewrite drop_app_be|destruct Hts as [-> | ->]; in_types Ht; reflexivity|done].
Qed.

Lemma skip_step_uint z rest tg d :
  in_u64 z -> 0 < tg -> skip_step (MkReader (enc_uint z ++ rest) tg d) = Ok (MkReader rest (tg - 1) d).
Proof.
  intros Hz Htg. unfold enc_uint. destruct (Z.leb_spec z 127).
  - unfold in_u64 in Hz. cbn [app]. apply skip_step_fixed; [|done]. unfold u8. rewrite Z.mod_small; lia.
  - destruct (enc_first_spec unsigned_types z (fits_unsigned z Hz)) as (t & Ht & _ & -> & _).
    apply (skip_step_typed unsigned_types); tauto.
Qed.

Lemma skip_step_int z rest tg d :
  int64_min <= z <= int64_max -> 0 < tg -> skip_step (MkReader (enc_int z ++ rest) tg d) = Ok (MkReader rest (tg - 1) d).
Proof.
  intros Hz Htg. unfold enc_int. destruct (Z.leb_spec 0 z); [|destruct (Z.leb_spec (-32) z)].
  - apply skip_step_uint; [|done]. unfold in_u64, u64_max, int64_max in *. lia.
  - cbn [app]. apply skip_step_fixed; [|done]. unfold u8. pose proof (Z.mod_pos_bound z 256).
    rewrite <- (Z.mod_add z 1), Z.mod_small by lia. lia.
  - destruct (enc_first_signed_spec signed_types z) as (t & Ht & _ & -> & _); [apply fits_signed; tauto|].
    apply (skip_step_typed signed_types); tauto.
Qed.

Lemma skip_step_str s rest tg d :
  len_ok s -> 0 < tg -> skip_step (MkReader (enc_str s ++ rest) tg d) = Ok (MkReader rest (tg - 1) d).
Proof.
  intros Hs Htg. destruct (read_string_enc s Hs) as (b & body & He & Hm & Hb & Hr). rewrite He. cbn [app].
  assert (no_width b = true) as Hnw.
  { destruct Hb; [apply (byte_range_check no_width 0xa0 32)|apply (byte_range_check no_width 0xd9 3)]; (reflexivity || lia). }
  rewrite (skip_step_progress b (body ++ rest) tg d (MkReader rest tg d)); [done| | |done].
  - rewrite skip_one_no_width by done. unfold is_string_tag. rewrite Hm.
    change (remove_prefix 1 (MkReader (b :: body ++ rest) tg d)) with (MkReader (body ++ rest) tg d). by rewrite Hr.
  - cbn [remaining]. rewrite length_app. lia.
Qed.

Lemma skip_step_bin s rest tg d :
  len_ok s -> 0 < tg ->
  skip_step (MkReader ((enc_first binary_types (Z.of_nat (length s)) ++ s) ++ rest) tg d) = Ok (MkReader rest (tg - 1) d).
Proof.
  intros Hs Htg. destruct (read_binary_enc s Hs) as (b & body & He & Hb & Hr). rewrite He. cbn [app].
  assert (negb (is_some_b (width_to_skip b)) && is_some_b (find_type binary_types b) = true) as H.
  { apply (byte_range_check (fun b => negb (is_some_b (width_to_skip b)) && is_some_b (find_type binary_types b)) 0xc4 3); [reflexivity|lia]. }
  rewrite andb_true_iff, negb_true_iff in H. destruct H as [H1 H2].
  rewrite (skip_step_progress b (body ++ rest) tg d (MkReader rest tg d)); [done| | |done].
  - unfold skip_one. rewrite H2. destruct (width_to_skip b); [done|].
    change (remove_prefix 1 (MkReader (b :: body ++ rest) tg d)) with (MkReader (body ++ rest) tg d). by rewrite Hr.
  - cbn [remaining]. rewrite length_app. lia.
Qed.
(** Tags of arrays and objects take no other branch of the [switch]. *)
Lemma container_tag b :
  is_byte b -> is_array_tag b = true \/ is_object_tag b = true ->
  no_width b = true /\ is_string_tag b = false /\ (is_object_tag b = true -> is_array_tag b = false).
Proof.
  intros Hb Ho. set (P b := negb (is_array_tag b || is_object_tag b) ||
    no_width b && negb (is_string_tag b) && (negb (is_object_tag b) || negb (is_array_tag b))).
  assert (P b = true) as H by (apply (byte_range_check P 0 256); [reflexivity|unfold is_byte in Hb; lia]).
  unfold P in H. destruct (is_array_tag b), (is_object_tag b), (no_width b), (is_string_tag b); cbn in H; (split_and!; [..|intros]; (done || by destruct Ho)).
Qed.

Lemma length_children ik l : length (children ik (WObj l)) = (2 * length l)%nat.
Proof. cbn [children]. induction l as [|kv l IH]; [done|]. cbn in *. lia. Qed.

(** An array adds its elements to the tags to come and one to the depth. *)
Lemma skip_step_array l rest tg d :
  len_ok l -> (length l <= length rest)%nat -> 0 < tg -> tg + Z.of_nat (length l) <= u64_max ->
  d + 1 <> max_read_depth ->
  skip_step (MkReader (header (WArr l) ++ rest) tg d) = Ok (MkReader rest (tg - 1 + Z.of_nat (length l)) (d + 1)).
Proof.
  intros Hl Hr Htg Hmax Hd. cbn [header]. unfold len_ok in Hl.
  destruct (read_count_enc ftag_array array_types schema_array (Z.of_nat (length l))) as (b & body & -> & Ht & Hb & Hc);
    [tauto|lia|].
  destruct (container_tag b Hb (or_introl Ht)) as (Hnw & Hns & _).
  cbn [app]. rewrite (skip_step_progress b (body ++ rest) tg d (MkReader rest (tg + Z.of_nat (length l)) (d + 1))).
  - cbn [remaining tags_remaining depth]. do 2 f_equal. lia.
  - rewrite skip_one_no_width, Hns by done. unfold is_array_tag. rewrite Ht.
    unfold start_array. rewrite Hc. cbn [ebind tags_remaining remaining].
    rewrite (proj2 (Z.ltb_ge _ _)) by lia. rewrite Z.max_r, Z.div_1_r, (proj2 (Z.ltb_ge _ _)) by lia.
    unfold increment_depth, add_tags. cbn [depth tags_remaining remaining].
    by rewrite (proj2 (Z.eqb_neq _ _)) by done.
  - cbn [remaining]. rewrite length_app. lia.
  - cbn [tags_remaining]. lia.
Qed.

Lemma skip_step_object l rest tg d :
  len_ok l -> 0 < tg -> tg + 2 * Z.of_nat (length l) <= u64_max -> d + 1 <> max_read_depth ->
  skip_step (MkReader (header (WObj l) ++ rest) tg d) = Ok (MkReader rest (tg - 1 + 2 * Z.of_nat (length l)) (d + 1)).
Proof.
  intros Hl Htg Hmax Hd. cbn [header]. unfold len_ok in Hl.
  destruct (read_count_enc ftag_object object_types schema_object (Z.of_nat (length l))) as (b & body & -> & Ht & Hb & Hc);
    [tauto|lia|].
  destruct (container_tag b Hb (or_intror Ht)) as (Hnw & Hns & Hna).
  cbn [app]. rewrite (skip_step_progress b (body ++ rest) tg d (MkReader rest (tg + 2 * Z.of_nat (length l)) (d + 1))).
  - cbn [remaining tags_remaining depth]. do 2 f_equal. lia.
  - rewrite skip_one_no_width, Hns, (Hna Ht) by done. unfold is_object_tag. rewrite Ht.
    unfold start_object. rewrite Hc. cbn [ebind tags_remaining remaining].
    rewrite (proj2 (Z.ltb_ge (u64_max / 2) _)) by (change (u64_max / 2) with 9223372036854775807; unfold u32_max in *; lia).
    rewrite (proj2 (Z.ltb_ge _ _)) by lia.
    unfold increment_depth, add_tags. cbn [depth tags_remaining remaining].
    rewrite (proj2 (Z.eqb_neq _ _)) by done. cbn [ebind snd]. do 2 f_equal. lia.
  - cbn [remaining]. rewrite length_app. lia.
  - cbn [tags_remaining]. lia.
Qed.

Definition container_depth (v : wvalue) : Z := if is_container v then 1 else 0.

(** One round replaces a value by its children. *)
Lemma skip_step_enc ik v rest tg d :
  wf v -> 0 < tg -> tg + Z.of_nat (length (children ik v)) <= u64_max ->
  d + container_depth v < max_read_depth -> (nat_sum (map nodes (children ik v)) <= length rest)%nat ->
  skip_step (MkReader (header v ++ rest) tg d) =
  Ok (MkReader rest (tg - 1 + Z.of_nat (length (children ik v))) (d + container_depth v)).
Proof.
  intros Hwf Htg Hmax Hd Hlen. unfold container_depth in *.
  destruct v; cbn [header enc is_container] in *; try (cbn [children length] in *; rewrite !Z.add_0_r).
  - cbn [app]. destruct b; [apply (skip_step_width 0)|apply (skip_step_width 0)]; (reflexivity || done).
  - by apply skip_step_int.
  - by apply skip_step_uint.
  - cbn [app]. rewrite (skip_step_width 8) by (reflexivity || done). by rewrite (drop_app_be 8).
  - by apply skip_step_str.
  - by apply skip_step_bin.
  - apply wf_arr in Hwf as [Hl Hwf]. cbn [children] in *.
    apply (skip_step_array l); [done| |done|done|unfold max_read_depth in *; lia].
    clear -ik Hlen. revert Hlen. generalize (length rest). induction l as [|x l IH]; intros n; cbn; [lia|].
    rewrite (nodes_children ik x). intros. specialize (IH (n - 1)%nat). lia.
  - apply wf_obj in Hwf as [Hl Hwf]. rewrite length_children in *.
    rewrite (skip_step_object l) by (done || unfold max_read_depth in *; lia).
    do 2 f_equal. lia.
Qed.

Lemma length_nodes (ik : bool) vs : (length vs <= nat_sum (map nodes vs))%nat.
Proof. induction vs as [|v vs IH]; cbn; [lia|]. rewrite (nodes_children ik v). lia. Qed.

(** The loop over a forest: every value is removed, with its descendants. *)
Lemma skip_loop_forest ik n vs rest initial tg d :
  (nat_sum (map nodes vs) = n)%nat -> Forall wf vs -> vs <> [] ->
  0 < initial -> tg = initial - 1 + Z.of_nat (length vs) ->
  initial - 1 + Z.of_nat n <= u64_max -> d + Z.of_nat (nat_sum (map containers vs)) < max_read_depth ->
  forall fuel, (n <= fuel)%nat ->
  skip_loop fuel initial (MkReader (concat (enc ik <$> vs) ++ rest) tg d) =
  Some (Ok (MkReader rest (initial - 1) (d + Z.of_nat (nat_sum (map containers vs))))).
Proof.
  revert vs tg d. induction n as [|n IH]; intros vs tg d Hn Hwf Hne Hi Htg Hmax Hd fuel Hf.
  { destruct vs as [|v vs]; [done|]. cbn in Hn. rewrite (nodes_children ik v) in Hn. lia. }
  destruct vs as [|v vs]; [done|]. inversion Hwf as [|? ? Hv Hvs]; subst.
  destruct fuel as [|fuel]; [lia|]. cbn [skip_loop fmap list_fmap concat map nat_sum length] in *.
  rewrite (nodes_children ik v) in Hn. rewrite (containers_children ik v) in Hd |- *.
  pose proof (length_nodes ik (children ik v)) as Hlc. pose proof (length_nodes ik vs) as Hlv.
  rewrite (enc_header ik v), <- !app_assoc.
  rewrite (skip_step_enc ik v); [|done|lia|lia|unfold container_depth; destruct (is_container v); cbn in *; lia|].
  2: { rewrite !length_app. pose proof (forest_length ik _ (children_wf ik v Hv)). lia. }
  cbn [ebind tags_remaining]. set (d' := d + container_depth v).
  assert (Hd' : d' = d + Z.of_nat (if is_container v then 1 else 0)).
  { unfold d', container_depth. by destruct (is_container v). }
  rewrite app_assoc. change (concat (enc ik <$> children ik v) ++ concat (list_fmap wvalue (list Z) (enc ik) vs))
    with (concat (enc ik <$> children ik v) ++ concat (enc ik <$> vs)).
  rewrite <- concat_app, <- fmap_app.
  destruct (decide (children ik v ++ vs = [])) as [He|He].
  - apply app_eq_nil in He as [Hc ->]. rewrite Hc in *. cbn [length map nat_sum fmap list_fmap concat app Z.of_nat] in *.
    rewrite (proj2 (Z.leb_gt _ _)) by lia. do 3 f_equal; lia.
  - assert (0 < Z.of_nat (length (children ik v)) + Z.of_nat (length vs)) as Hpos.
    { destruct (children ik v), vs; cbn in *; try congruence; lia. }
    rewrite (proj2 (Z.leb_le _ _)) by lia.
    rewrite (IH (children ik v ++ vs)); rewrite ?map_app, ?nat_sum_app, ?length_app.
    + do 3 f_equal. lia.
    + lia.
    + apply Forall_app; split; [by apply children_wf|done].
    + done.
    + lia.
    + lia.
    + lia.
    + lia.
    + lia.
Qed.
(** Every round removes at least one byte. *)
Lemma read_raw_shrinks n r br : read_raw n r = Ok br -> (length (remaining br.2) <= length (remaining r))%nat.
Proof.
  unfold read_raw. case_bool_decide; [done|]. intros [= <-]. cbn. rewrite length_drop. lia.
Qed.
Lemma read_endian_shrinks t r vr : read_endian t r = Ok vr -> (length (remaining vr.2) <= length (remaining r))%nat.
Proof.
  unfold read_endian. case_bool_decide; [done|]. intros [= <-]. cbn. rewrite length_drop. lia.
Qed.
Lemma read_sized_shrinks t r br : read_sized t r = Ok br -> (length (remaining br.2) <= length (remaining r))%nat.
Proof.
  unfold read_sized. intros H. inv_ok H. apply read_endian_shrinks in Hr. apply read_raw_shrinks in H. lia.
Qed.
Lemma read_count_shrinks ft types e r cr :
  read_count ft types e r = Ok cr -> (length (remaining cr.2) <= length (remaining r))%nat.
Proof.
  unfold read_count, get_tag, peek_tag. intros H. destruct (remaining r) as [|b l] eqn:E; [done|]. cbn [ebind] in H.
  assert (length (remaining (remove_prefix 1 r)) <= length (b :: l))%nat as Hp.
  { unfold remove_prefix; cbn [remaining]. rewrite E, length_drop. lia. }
  case_if H; [inversion H; subst; exact Hp|]. destruct (find_type types b); [|done].
  apply read_endian_shrinks in H. lia.
Qed.
Lemma prefix_shrinks n r : (length (remaining (remove_prefix n r)) <= length (remaining r))%nat.
Proof. cbn. rewrite length_drop. lia. Qed.
Lemma start_array_shrinks m r cr : start_array m r = Ok cr -> (length (remaining cr.2) <= length (remaining r))%nat.
Proof.
  unfold start_array. intros H. inv_ok H. apply read_count_shrinks in Hr. destruct r0 as [n r1]. cbn [snd] in Hr.
  do 2 (case_if H; [done|]). unfold increment_depth in H. cbn [depth] in H. case_if H; [done|].
  by inversion H.
Qed.
Lemma start_object_shrinks r cr : start_object r = Ok cr -> (length (remaining cr.2) <= length (remaining r))%nat.
Proof.
  unfold start_object. intros H. inv_ok H. apply read_count_shrinks in Hr. destruct r0 as [n r1]. cbn [snd] in Hr.
  do 2 (case_if H; [done|]). unfold increment_depth in H. cbn [depth] in H. case_if H; [done|].
  by inversion H.
Qed.

Lemma skip_one_shrinks b r r' : skip_one b r = Ok r' -> (length (remaining r') <= length (remaining r))%nat.
Proof.
  pose proof (fun n => prefix_shrinks n r) as Hp. unfold skip_one. intros H.
  destruct (width_to_skip b); [inversion H; subst; apply Hp|].
  case_if H; [|case_if H; [|case_if H; [|case_if H; [|case_if H]]]].
  - inv_ok H. inversion H; subst. unfold read_binary in Hr. destruct (find_type binary_types b); [|done].
    apply read_sized_shrinks in Hr. specialize (Hp 1%nat). lia.
  - destruct (find_type extension_types b); [|by inversion H; subst].
    inv_ok H. inversion H; subst. apply read_sized_shrinks in Hr. specialize (Hp 1%nat).
    pose proof (prefix_shrinks 1 r0.2). lia.
  - inv_ok H. inversion H; subst. specialize (Hp 1%nat). unfold read_string in Hr.
    case_if Hr; [apply read_raw_shrinks in Hr; lia|]. destruct (find_type string_types b); [|done].
    apply read_sized_shrinks in Hr. lia.
  - inv_ok H. inversion H; subst. by eapply start_array_shrinks.
  - inv_ok H. inversion H; subst. by eapply start_object_shrinks.
  - by inversion H; subst.
Qed.

Lemma skip_step_shrinks r r' : skip_step r = Ok r' -> (length (remaining r') < length (remaining r))%nat.
Proof.
  unfold skip_step, peek_tag. intros H. destruct (remaining r) as [|b l] eqn:E; [done|]. cbn [ebind] in H.
  inv_ok H. inv_ok H. apply skip_one_shrinks in Hr. rewrite E in Hr.
  assert (length (remaining r1) < length (b :: l))%nat as Hlt.
  { case_bool_decide as Hs.
    - case_if Hr0; [|done]. inversion Hr0; subst. cbn [remaining remove_prefix]. rewrite length_drop, <- Hs. cbn. lia.
    - inversion Hr0; subst. lia. }
  unfold update_tags_remaining in H. case_if H; [done|]. by inversion H; subst.
Qed.

Lemma skip_loop_total fuel initial r :
  (length (remaining r) < fuel)%nat ->
  exists res, forall k, skip_loop (fuel + k) initial r = Some res.
Proof.
  revert r. induction fuel as [|fuel IH]; intros r Hf; [lia|]. cbn [Nat.add skip_loop].
  destruct (skip_step r) as [r'|e] eqn:E; [|by eexists].
  destruct (initial <=? tags_remaining r'); [|by eexists].
  apply IH. apply skip_step_shrinks in E. lia.
Qed.

Lemma skip_value_enc ik v rest tg d :
  wf v -> 0 < tg -> tg + Z.of_nat (nodes v) <= u64_max -> d + Z.of_nat (containers v) < max_read_depth ->
  skip_value (MkReader (enc ik v ++ rest) tg d) = Ok (MkReader rest (tg - 1) (d + Z.of_nat (containers v))).
Proof.
  intros Hv Htg Hmax Hd. unfold skip_value. cbn [tags_remaining remaining].
  pose proof (length_nodes ik [v]) as Hl. pose proof (forest_length ik [v] (List.Forall_cons _ _ _ Hv (List.Forall_nil _))) as Hf.
  cbn in Hl, Hf. rewrite app_nil_r in Hf.
  rewrite (proj2 (Z.eqb_neq _ _)) by lia.
  pose proof (skip_loop_forest ik (nodes v) [v] rest tg tg d) as H. cbn in H. rewrite app_nil_r, !Nat.add_0_r in H.
  rewrite H; [done|done|by constructor|done|done|lia|lia|done|]. rewrite length_app. lia.
Qed.

(** Keys: a known one is delivered, an unknown one is dropped with its value. *)
Definition key_ok (ik : bool) (id : Z) (name : String.string) : Prop :=
  if ik then 0 <= id <= u32_max else len_ok (bytes_of_string name).

Lemma read_key_enc ik id name rest tg d :
  key_ok ik id name -> 0 < tg ->
  read_key (MkReader (enc_key ik id name ++ rest) tg d) = Ok (member_key ik id name, MkReader rest (tg - 1) d).
Proof.
  intros Hk Htg. unfold read_key. rewrite update_tags_pos by done. cbn [ebind].
  unfold key_ok, enc_key, member_key in *. destruct ik.
  - unfold enc_uint. destruct (Z.leb_spec id 127).
    + cbn [app]. rewrite get_tag_cons. cbn [ebind]. unfold u8. rewrite Z.mod_small by lia.
      rewrite (byte_range_check (ft_matches ftag_unsigned) 0 128) by (reflexivity || lia). done.
    + destruct (read_integer_enc_unsigned 0 u32_max id rest (tg - 1) d) as (t & body & -> & Ht & Hr);
        [unfold in_u64, u64_max, u32_max in *; lia|done|].
      cbn [app]. rewrite get_tag_cons. cbn [ebind].
      set (P t := negb (ft_matches ftag_unsigned t) && is_some_b (find_type unsigned_types t)).
      assert (P t = true) as HP by (apply (byte_range_check P 0xcc 4); [reflexivity|lia]).
      unfold P in HP. apply andb_true_iff in HP as [HP1 HP2]. apply negb_true_iff in HP1.
      by rewrite HP1, HP2, Hr.
  - destruct (read_string_enc _ Hk) as (t & body & -> & Hm & Ht & Hr).
    cbn [app]. rewrite get_tag_cons. cbn [ebind].
    set (P t := negb (ft_matches ftag_unsigned t) && negb (is_some_b (find_type unsigned_types t))).
    assert (P t = true) as HP.
    { destruct Ht; [apply (byte_range_check P 0xa0 32)|apply (byte_range_check P 0xd9 3)]; (reflexivity || lia). }
    unfold P in HP. rewrite andb_true_iff, !negb_true_iff in HP. destruct HP as [HP1 HP2].
    by rewrite HP1, HP2, Hm, Hr.
Qed.

Lemma key_unknown ik fs st id name v rest tg d :
  key_ok ik id name -> find_key (member_key ik id name) fs = None ->
  wf v -> 1 < tg -> tg + Z.of_nat (nodes v) <= u64_max -> d + Z.of_nat (containers v) < max_read_depth ->
  key fs (S st) (MkReader ((enc_key ik id name ++ enc ik v) ++ rest) tg d) =
  key fs st (MkReader rest (tg - 2) (d + Z.of_nat (containers v))).
Proof.
  intros Hk Hf Hv Htg Hmax Hd. cbn [key]. rewrite <- app_assoc, read_key_enc by (done || lia).
  cbn [ebind fst snd]. rewrite Hf, skip_value_enc by (done || lia). cbn [ebind].
  by replace (tg - 1 - 1) with (tg - 2) by lia.
Qed.
End Skipping.

(** ** What the writer and the reader promise each other *)
Module Contract.
Import Encoding.
Import Reader.
Import RoundTrip.
Import Skipping.

(** the token writer emits, for every tree whose integers fit their C++
    types and whose strings and containers have at most [2^32 - 1] elements,
    exactly the reference encoding [enc], and has then written the one value
    it was expecting: [take_msgpack] never reports an incomplete tree. *)
Theorem write_tree_is_enc (integer_keys : bool) (v : wvalue) :
  wf v -> Writer.to_bytes integer_keys v = Ok (enc integer_keys v).
Proof. intros Hv. unfold Writer.to_bytes. by rewrite write_value_enc. Qed.

Definition sample_tree : wvalue :=
  WObj [(0, "id"%string, WUint 300); (1, "v"%string, WArr [WInt (-70000); WBool true; WReal 5]);
        (2, "s"%string, WBin [1; 2; 3]); (200, "t"%string, WStr [104; 105])].
Lemma sample_tree_wf : wf sample_tree.
Proof. vm_compute. repeat split; congruence. Qed.

Lemma write_tree_is_enc_witness : Writer.to_bytes true sample_tree = Ok (enc true sample_tree).
Proof. apply (write_tree_is_enc true sample_tree), sample_tree_wf. Defined.

(** every scalar written is read back as written and leaves exactly the
    bytes that follow it: signed and unsigned 64-bit integers at every width
    of their encoding, strings, binaries, booleans and doubles; one tag is
    consumed. *)
Theorem scalars_read_back rest tg d :
  0 < tg ->
  (forall ik z, in_u64 z ->
     unsigned_integer (MkReader (enc ik (WUint z) ++ rest) tg d) = Ok (z, MkReader rest (tg - 1) d)) /\
  (forall ik z, int64_min <= z <= int64_max ->
     integer (MkReader (enc ik (WInt z) ++ rest) tg d) = Ok (z, MkReader rest (tg - 1) d)) /\
  (forall ik s, len_ok s ->
     string (MkReader (enc ik (WStr s) ++ rest) tg d) = Ok (s, MkReader rest (tg - 1) d)) /\
  (forall ik s, len_ok s ->
     binary (MkReader (enc ik (WBin s) ++ rest) tg d) = Ok (s, MkReader rest (tg - 1) d)) /\
  (forall ik b, boolean (MkReader (enc ik (WBool b) ++ rest) tg d) = Ok (b, MkReader rest (tg - 1) d)) /\
  (forall ik z, in_u64 z ->
     real (MkReader (enc ik (WReal z) ++ rest) tg d) = Ok ((8%nat, z), MkReader rest (tg - 1) d)).
Proof.
  intros Htg. split_and!; intros ik.
  - intros. by apply unsigned_integer_ok.
  - intros. by apply integer_ok.
  - intros. by apply string_ok.
  - intros. by apply binary_ok.
  - intros b. unfold boolean. rewrite update_tags_pos by done. by destruct b.
  - intros z Hz. unfold real. rewrite update_tags_pos by done. cbn [ebind enc app].
    rewrite get_tag_cons. cbn [ebind fst snd].
    change (tag_float64 =? tag_float32) with false. change (tag_float64 =? tag_float64) with true.
    pose proof (read_endian_unsigned (MType tag_float64 8 false) z rest (tg - 1) d eq_refl) as Hr.
    cbn [mt_width] in Hr. rewrite Hr; [done|].
    assert (mt_max (MType tag_float64 8 false) = u64_max) as -> by reflexivity. exact Hz.
Qed.

Lemma scalars_read_back_witness :
  unsigned_integer (MkReader (enc true (WUint 70000) ++ [7]) 1 0) = Ok (70000, MkReader [7] 0 0).
Proof. refine (proj1 (scalars_read_back [7] 1 0 _) true 70000 _); [lia|split; vm_compute; congruence]. Defined.

(** [skip_value] removes exactly one value. On the encoding of any tree
    followed by [rest] it leaves [rest] with one tag less, as long as the tag
    counter cannot overflow and the depth limit is not reached; the depth it
    leaves is larger by the number of containers of the skipped tree. *)
Theorem skip_value_exact (ik : bool) (v : wvalue) (rest : list Z) (tg d : Z) :
  wf v -> 0 < tg -> tg + Z.of_nat (nodes v) <= u64_max -> d + Z.of_nat (containers v) < max_read_depth ->
  skip_value (MkReader (enc ik v ++ rest) tg d) = Ok (MkReader rest (tg - 1) (d + Z.of_nat (containers v))).
Proof. apply skip_value_enc. Qed.

Lemma skip_value_exact_witness :
  skip_value (MkReader (enc false sample_tree ++ [1; 2]) 3 1) = Ok (MkReader [1; 2] 2 3).
Proof.
  apply (skip_value_exact false sample_tree [1; 2] 3 1);
    [apply sample_tree_wf|done|vm_compute; congruence|reflexivity].
Defined.

(** the loop of [skip_value] terminates on every input, valid or not:
    every round that does not fail removes a byte, so one more round than
    there are bytes always reaches the end of the loop, and more fuel gives
    the same result. *)
Theorem skip_value_terminates (initial : Z) (r : reader) :
  exists result, forall fuel, (length (remaining r) < fuel)%nat -> skip_loop fuel initial r = Some result.
Proof.
  destruct (skip_loop_total (S (length (remaining r))) initial r) as (res & H); [lia|].
  exists res. intros fuel Hf. rewrite <- (H (fuel - S (length (remaining r)))%nat). f_equal. lia.
Qed.

(** Encoded members of an object. *)
Definition enc_members (ik : bool) (l : list (Z * String.string * wvalue)) : list Z :=
  concat ((fun kv : Z * String.string * wvalue => enc_key ik kv.1.1 kv.1.2 ++ enc ik kv.2) <$> l).
Definition unknown_to (ik : bool) (fs : list field) (kv : Z * String.string * wvalue) : Prop :=
  key_ok ik kv.1.1 kv.1.2 /\ find_key (member_key ik kv.1.1 kv.1.2) fs = None /\ wf kv.2.
Definition member_containers (l : list (Z * String.string * wvalue)) : nat :=
  nat_sum (map (fun kv => containers kv.2) l).
Definition member_nodes (l : list (Z * String.string * wvalue)) : nat :=
  nat_sum (map (fun kv => S (nodes kv.2)) l).

Lemma key_drops_unknown ik fs us st rest tg d :
  Forall (unknown_to ik fs) us ->
  0 < tg - 2 * Z.of_nat (length us) -> tg + Z.of_nat (member_nodes us) <= u64_max ->
  d + Z.of_nat (member_containers us) < max_read_depth ->
  key fs (length us + st) (MkReader (enc_members ik us ++ rest) tg d) =
  key fs st (MkReader rest (tg - 2 * Z.of_nat (length us)) (d + Z.of_nat (member_containers us))).
Proof.
  intros Hus. revert tg d. induction Hus as [|[[id name] v] us (Hk & Hf & Hv) Hus IH]; intros tg d Htg Hmax Hd.
  - cbn. by rewrite Z.sub_0_r, Z.add_0_r.
  - unfold enc_members, member_nodes, member_containers in *. cbn [length fmap list_fmap concat fst snd map nat_sum Nat.add] in *.
    rewrite <- (app_assoc (_ ++ _)), (key_unknown ik fs) by (done || lia).
    setoid_rewrite IH; [|lia|lia|lia].
    f_equal; f_equal; lia.
Qed.

(** the key loop of an object skips the members it does not know, whole,
    whatever their values, and delivers the index of the first field it
    knows, positioned on that field's value. *)
Theorem key_finds_first_known ik fs us id name i st rest tg d :
  Forall (unknown_to ik fs) us -> key_ok ik id name -> find_key (member_key ik id name) fs = Some i ->
  0 < tg - 2 * Z.of_nat (length us) -> tg + Z.of_nat (member_nodes us) <= u64_max ->
  d + Z.of_nat (member_containers us) < max_read_depth ->
  key fs (length us + S st) (MkReader (enc_members ik us ++ enc_key ik id name ++ rest) tg d) =
  Ok (Some i, st, MkReader rest (tg - 2 * Z.of_nat (length us) - 1) (d + Z.of_nat (member_containers us))).
Proof.
  intros Hus Hk Hf Htg Hmax Hd. rewrite key_drops_unknown by done. cbn [key].
  rewrite read_key_enc by done. cbn [ebind fst snd]. by rewrite Hf.
Qed.

Lemma key_finds_first_known_witness :
  key [Field 0 "a" true; Field 1 "b" true] 2
      (MkReader (enc_members false [(9, "x"%string, sample_tree)] ++ enc_key false 1 "b" ++ [5]) 5 1) =
  Ok (Some 1%nat, 0%nat, MkReader [5] 2 3).
Proof.
  apply (key_finds_first_known false [Field 0 "a" true; Field 1 "b" true] [(9, "x"%string, sample_tree)] 1 "b" 1 0 [5] 5 1).
  - constructor; [|constructor]. split; [vm_compute; congruence|split; [reflexivity|apply sample_tree_wf]].
  - vm_compute; congruence.
  - reflexivity.
  - reflexivity.
  - vm_compute; congruence.
  - reflexivity.
Defined.

Lemma skip_empty_array_at_limit ik l tg :
  0 <= tg < u64_max ->
  skip_value (MkReader (enc ik (WArr []) ++ l) tg (max_read_depth - 1)) = Err (schema_err schema_maximum_depth).
Proof.
  intros Htg. change (enc ik (WArr []) ++ l) with (0x90 :: l). unfold skip_value. cbn [tags_remaining remaining].
  rewrite (proj2 (Z.eqb_neq _ _)) by lia. cbn [skip_loop].
  assert (start_array 0 (MkReader (0x90 :: l) tg (max_read_depth - 1)) = Err (schema_err schema_maximum_depth)) as Hs.
  { unfold start_array. change (read_count ftag_array array_types schema_array (MkReader (0x90 :: l) tg (max_read_depth - 1)))
      with (Ok (0, MkReader l tg (max_read_depth - 1))). cbn [ebind tags_remaining remaining].
    rewrite (proj2 (Z.ltb_ge _ _)) by lia. rewrite (proj2 (Z.ltb_ge _ 0)); [done|]. apply Z.div_pos; lia. }
  unfold skip_step, peek_tag. cbn [remaining ebind].
  change (skip_one 0x90 (MkReader (0x90 :: l) tg (max_read_depth - 1)))
    with (let* cr := start_array 0 (MkReader (0x90 :: l) tg (max_read_depth - 1)) in Ok cr.2).
  by rewrite Hs.
Qed.

(** skipped containers use up the depth limit. [skip_value] opens them
    with [start_array] and [start_object], which count one level, and never
    closes them; an object whose unknown members are empty arrays, one level
    deep, is refused with [maximum_depth] as soon as there are
    [max_read_depth - depth] of them. *)
Theorem skipped_containers_exhaust_depth fs id rest st tg d :
  0 <= id <= 127 -> find_key (KInt id) fs = None -> 0 <= d < max_read_depth ->
  let us := replicate (Z.to_nat (max_read_depth - d)) (id, ""%string, WArr []) in
  2 * Z.of_nat (length us) < tg -> tg + Z.of_nat (member_nodes us) <= u64_max ->
  key fs (length us + st) (MkReader (enc_members true us ++ rest) tg d) = Err (schema_err schema_maximum_depth).
Proof.
  intros Hid Hf Hd us. subst us. rewrite length_replicate.
  remember (Z.to_nat (max_read_depth - d)) as n eqn:Hn. revert tg d Hd Hn.
  induction n as [|n IH]; intros tg d Hd Hn Htg Hmax; [lia|].
  unfold enc_members, member_nodes in *. cbn [replicate fmap list_fmap concat fst snd map nat_sum Nat.add] in *.
  destruct (decide (d + 1 < max_read_depth)) as [Hlt|Hge].
  - rewrite <- (app_assoc (_ ++ _)), (key_unknown true fs) by first [done | cbn in *; unfold u32_max; lia].
    apply IH; cbn [containers nodes map nat_sum] in *; lia.
  - assert (d = 99) as -> by (unfold max_read_depth in *; lia). cbn [key].
    rewrite <- !app_assoc, (read_key_enc true) by (cbn; unfold u32_max; lia).
    cbn [ebind fst snd member_key]. rewrite Hf.
    by rewrite skip_empty_array_at_limit by lia.
Qed.

Lemma skipped_containers_exhaust_depth_witness :
  key [Field 0 "a" false] 99
    (MkReader (enc_members true (replicate 99 (5, ""%string, WArr [])) ++ []) 199 1) =
  Err (schema_err schema_maximum_depth).
Proof.
  apply (skipped_containers_exhaust_depth [Field 0 "a" false] 5 [] 0 199 1);
    [lia|reflexivity|unfold max_read_depth; lia|reflexivity|vm_compute; congruence].
Defined.
End Contract.
