(* ===== verification/DataWire.v ===== *)
(** The wire forms of src/db/data.cpp other than that of an output (Data.v):
    enumerations as strings, subaddresses, blocks, spends, accounts, requests and
    webhooks, written as trees and, where the code reads them, read back; with
    the macros of src/wire.h and src/wire/fwd.h that define them. *)

From S2P Require Import Prelude Wire Data.
From Stdlib Require Import Ascii.

(** ** Fields

    A field of [wire::object] on reading: [w_read] unpacks its value into the
    destination and [w_reset] is [reset_field]. *)
Record wfield (S : Type) := WField {
  w_field : field;
  w_read : bool -> wvalue -> S -> expect S;
  w_reset : S -> S
}.
Arguments WField {S} _ _ _.
Arguments w_field {S} _.
Arguments w_read {S} _ _ _ _.
Arguments w_reset {S} _ _.

Definition required_field {A S} (id : Z) (name : string) (read : bool -> wvalue -> expect A) (set : A -> S -> S) : wfield S :=
  WField (Field id name true) (fun ik v s => let* a := read ik v in Ok (set a s)) (fun s => s).
Definition optional_field {A S} (id : Z) (name : string) (read : bool -> wvalue -> expect A) (set : A -> S -> S) (reset : S -> S) : wfield S :=
  WField (Field id name false) (fun ik v s => let* a := read ik v in Ok (set a s)) reset.

Definition reset_omitted {S} (fs : list (wfield S)) (seen : list nat) (s : S) : S :=
  foldl (fun s p => if negb (f_required (w_field p.2)) && negb (bool_decide (p.1 ∈ seen)) then w_reset p.2 s else s)
    s (zip (seq 0 (length fs)) fs).

(** [wire::object] over these fields. *)
Definition read_wobject {S} (fs : list (wfield S)) (ik : bool) (v : wvalue) (s : S) : expect S :=
  match v with
  | WObj l =>
    let* st := read_object (w_field <$> fs)
      (fun i v s => match fs !! i with Some f => w_read f ik v s | None => Err (schema_err schema_invalid_key) end)
      (members ik l) s in
    Ok (reset_omitted fs st.1 st.2)
  | _ => Err (schema_err schema_object)
  end.

(** ** Strings and enumerations *)
Definition string_of_bytes (l : list Z) : string :=
  String.string_of_list_ascii ((fun b => ascii_of_nat (Z.to_nat b)) <$> l).

Definition read_string (v : wvalue) : expect (list Z) :=
  match v with WStr s => Ok s | _ => Err (schema_err schema_string) end.

(** [WIRE_DEFINE_ENUM]: [get_string], [*_from_string], and the functions that
    write and read the name. *)
Definition get_string (map : list string) (value : nat) : string := default "invalid enum value"%string (map !! value).
Fixpoint find_string (map : list string) (source : list Z) : option nat :=
  match map with
  | [] => None
  | m :: map => if bool_decide (bytes_of_string m = source) then Some O else S <$> find_string map source
  end.
Definition from_string (map : list string) (source : list Z) : expect nat :=
  match find_string map source with Some i => Ok i | None => Err (schema_err schema_enumeration) end.
Definition write_enum (map : list string) (value : nat) : wvalue := WStr (bytes_of_string (get_string map value)).
Definition read_enum (map : list string) (v : wvalue) : expect nat :=
  let* s := read_string v in from_string map s.

(** [WIRE_AS_INTEGER] is [read_uint] and [WUint] themselves. *)

Definition map_account_status : list string := ["active"; "inactive"; "hidden"]%string.
Definition map_request : list string := ["create"; "import"]%string.
Definition map_webhook_type : list string := ["tx-confirmation"; "new-account"; "tx-spend"]%string.

Definition write_account_status (s : account_status) : wvalue := write_enum map_account_status (Z.to_nat (account_status_num s)).
Definition write_request (r : request) : wvalue := write_enum map_request (Z.to_nat (request_num r)).
Definition write_webhook_type (t : webhook_type) : wvalue := write_enum map_webhook_type (Z.to_nat (webhook_type_num t)).

Definition read_account_status (v : wvalue) : expect account_status :=
  let* n := read_enum map_account_status v in
  Ok (match n with O => active | S O => inactive | _ => hidden end).
Definition read_request (v : wvalue) : expect request :=
  let* n := read_enum map_request v in Ok (match n with O => create | _ => import_scan end).
Definition read_webhook_type (v : wvalue) : expect webhook_type :=
  let* n := read_enum map_webhook_type v in
  Ok (match n with O => tx_confirmation | S O => new_account | _ => tx_spend end).

(** ** Subaddresses *)
Definition minor_range (r : index_range) : wvalue := WArr [WUint r.1; WUint r.2].
Definition map_subaddress_dict (d : subaddress_dict) : wvalue :=
  WObj ((0, "key"%string, WUint d.1) ::
        opt_member (negb (bool_decide (d.2 = []))) (1, "value"%string, WArr (minor_range <$> d.2))).
Definition write_subaddress_dict (d : subaddress_dict) : expect wvalue :=
  if check_subaddress_dict d then Ok (map_subaddress_dict d) else Err (schema_err schema_array).

(** [std::array<minor_index, 2>] *)
Definition read_range (v : wvalue) : expect index_range :=
  match v with
  | WArr [x; y] => let* a := read_uint u32_max x in let* b := read_uint u32_max y in Ok (a, b)
  | _ => Err (schema_err schema_array)
  end.
(** [wire::array<min_element_size<2>>]: the bytes of an element of two numbers
    are never fewer. *)
Definition read_ranges (v : wvalue) : expect index_ranges :=
  match v with
  | WArr l => efold (fun rs x => let* r := read_range x in Ok (rs ++ [r])) [] l
  | _ => Err (schema_err schema_array)
  end.
Definition subaddress_dict_fields : list (wfield subaddress_dict) :=
  [required_field 0 "key" (fun _ => read_uint u32_max) (fun k d => (k, d.2));
   optional_field 1 "value" (fun _ => read_ranges) (fun rs d => (d.1, rs)) (fun d => (d.1, []))].
Definition read_subaddress_dict (ik : bool) (v : wvalue) (dest : subaddress_dict) : expect subaddress_dict :=
  let* d := read_wobject subaddress_dict_fields ik v dest in
  if check_subaddress_dict d then Ok d else Err (schema_err schema_array).

Definition map_subaddress_map (m : subaddress_map) : wvalue :=
  WObj [(0, "subaddress"%string, wblob 32 (sm_subaddress m)); (1, "index"%string, map_address_index (sm_index m))].

(** ** Blocks *)
Definition map_block_info (b : block_info) : wvalue :=
  WObj [(0, "id"%string, WUint (bi_id b)); (0, "hash"%string, wblob 32 (bi_hash b))].
Definition map_block_difficulty (d : block_difficulty) : wvalue :=
  WObj [(0, "high"%string, WUint (bd_high d)); (1, "low"%string, WUint (bd_low d))].
Definition map_block_pow (b : block_pow) : wvalue :=
  WObj [(0, "id"%string, WUint (bp_id b)); (1, "timestamp"%string, WUint (bp_timestamp b));
        (2, "cumulative_diff"%string, map_block_difficulty (bp_cumulative_diff b))].
Definition map_transaction_link (l : transaction_link) : wvalue :=
  WObj [(0, "height"%string, WUint (tl_height l)); (1, "tx_hash"%string, wblob 32 (tl_tx_hash l))].

(** ** Accounts and requests *)
Definition write_account (show_key : bool) (self : account) : wvalue :=
  WObj ([(0, "id"%string, WUint (acc_id self));
         (0, "access_time"%string, WUint (acc_access self));
         (0, "address"%string, map_account_address (acc_address self))] ++
        opt_member show_key (0, "view_key"%string, wblob 32 (acc_key self)) ++
        [(0, "scan_height"%string, WUint (acc_scan_height self));
         (0, "start_height"%string, WUint (acc_start_height self));
         (0, "creation_time"%string, WUint (acc_creation self));
         (0, "admin"%string, WBool (has_flag (acc_flags self) admin_account));
         (0, "generated_locally"%string, WBool (has_flag (acc_flags self) account_generated_locally));
         (0, "lookahead"%string, map_address_index (acc_lookahead self));
         (0, "lookahead_fail"%string, WUint (acc_lookahead_fail self))]).

Definition write_request_info (show_key : bool) (self : request_info) : wvalue :=
  WObj ((0, "address"%string, map_account_address (ri_address self)) ::
        opt_member show_key (0, "view_key"%string, wblob 32 (ri_key self)) ++
        [(0, "start_height"%string, WUint (ri_start_height self));
         (0, "generated_locally"%string, WBool (has_flag (ri_creation_flags self) account_generated_locally));
         (0, "lookahead"%string, map_address_index (ri_lookahead self))]).

Definition map_key_image (k : key_image) : wvalue :=
  WObj [(0, "key_image"%string, wblob 32 (ki_value k)); (0, "tx_hash"%string, wblob 32 (tl_tx_hash (ki_link k)));
        (0, "height"%string, WUint (tl_height (ki_link k)))].

(** ** Spends *)
Definition map_spend (self : spend) (payment_id : option hash) : wvalue :=
  WObj ([(0, "height"%string, WUint (tl_height (sp_link self)));
         (1, "tx_hash"%string, wblob 32 (tl_tx_hash (sp_link self)));
         (2, "image"%string, wblob 32 (sp_image self));
         (3, "source"%string, map_output_id (sp_source self));
         (4, "timestamp"%string, WUint (sp_timestamp self));
         (5, "unlock_time"%string, WUint (sp_unlock_time self));
         (6, "mixin_count"%string, WUint (sp_mixin_count self))] ++
        match payment_id with Some p => [(7, "payment_id"%string, wblob 32 p)] | None => [] end ++
        [(8, "sender"%string, map_address_index (sp_sender self))]).
Definition write_spend (source : spend) : wvalue :=
  map_spend source (if sp_length source =? 32 then Some (sp_payment_id source) else None).

Definition spend_fields : list (wfield (spend * option hash)) :=
  [required_field 0 "height" (fun _ => read_uint u64_max) (fun h '(s, p) =>
     (Spend (TransactionLink h (tl_tx_hash (sp_link s))) (sp_image s) (sp_source s) (sp_timestamp s) (sp_unlock_time s) (sp_mixin_count s) (sp_length s) (sp_payment_id s) (sp_sender s), p));
   required_field 1 "tx_hash" (fun _ => read_blob 32) (fun h '(s, p) =>
     (Spend (TransactionLink (tl_height (sp_link s)) h) (sp_image s) (sp_source s) (sp_timestamp s) (sp_unlock_time s) (sp_mixin_count s) (sp_length s) (sp_payment_id s) (sp_sender s), p));
   required_field 2 "image" (fun _ => read_blob 32) (fun i '(s, p) =>
     (Spend (sp_link s) i (sp_source s) (sp_timestamp s) (sp_unlock_time s) (sp_mixin_count s) (sp_length s) (sp_payment_id s) (sp_sender s), p));
   required_field 3 "source" (fun ik v => read_output_id ik v (OutputId 0 0)) (fun i '(s, p) =>
     (Spend (sp_link s) (sp_image s) i (sp_timestamp s) (sp_unlock_time s) (sp_mixin_count s) (sp_length s) (sp_payment_id s) (sp_sender s), p));
   required_field 4 "timestamp" (fun _ => read_uint u64_max) (fun z '(s, p) =>
     (Spend (sp_link s) (sp_image s) (sp_source s) z (sp_unlock_time s) (sp_mixin_count s) (sp_length s) (sp_payment_id s) (sp_sender s), p));
   required_field 5 "unlock_time" (fun _ => read_uint u64_max) (fun z '(s, p) =>
     (Spend (sp_link s) (sp_image s) (sp_source s) (sp_timestamp s) z (sp_mixin_count s) (sp_length s) (sp_payment_id s) (sp_sender s), p));
   required_field 6 "mixin_count" (fun _ => read_uint u32_max) (fun z '(s, p) =>
     (Spend (sp_link s) (sp_image s) (sp_source s) (sp_timestamp s) (sp_unlock_time s) z (sp_length s) (sp_payment_id s) (sp_sender s), p));
   optional_field 7 "payment_id" (fun _ => read_blob 32) (fun h '(s, _) => (s, Some h)) (fun '(s, _) => (s, None));
   required_field 8 "sender" (fun ik v => read_address_index ik v address_index_primary) (fun i '(s, p) =>
     (Spend (sp_link s) (sp_image s) (sp_source s) (sp_timestamp s) (sp_unlock_time s) (sp_mixin_count s) (sp_length s) (sp_payment_id s) i, p))].
Definition with_payment_id (length : Z) (payment_id : hash) (s : spend) : spend :=
  Spend (sp_link s) (sp_image s) (sp_source s) (sp_timestamp s) (sp_unlock_time s) (sp_mixin_count s) length payment_id (sp_sender s).
Definition read_spend (ik : bool) (v : wvalue) (dest : spend) : expect spend :=
  let* r := read_wobject spend_fields ik v (dest, None) in
  Ok (match r.2 with
      | Some payment_id => with_payment_id 32 payment_id r.1
      | None => with_payment_id 0 (sp_payment_id r.1) r.1
      end).

(** ** Webhooks *)
Definition map_webhook_key (k : webhook_key) : wvalue :=
  WObj [(0, "user"%string, WUint (wk_user k)); (1, "type"%string, write_webhook_type (wk_type k))].
Definition map_webhook_data (d : webhook_data) : wvalue :=
  WObj [(0, "url"%string, WStr (bytes_of_string (wh_url d))); (1, "token"%string, WStr (bytes_of_string (wh_token d)));
        (2, "confirmations"%string, WUint (wh_confirmations d))].

(** The payment id is a number in the record and 8 bytes on the wire. *)
Definition write_payment_id (p : Z) : wvalue := wblob 8 (hash8_of_u64 p).

Definition write_webhook_value (source : webhook_value) : wvalue :=
  WObj [(0, "payment_id"%string, write_payment_id (wd_payment_id source.1));
        (1, "event_id"%string, wblob 16 (wd_event_id source.1));
        (2, "token"%string, WStr (bytes_of_string (wh_token source.2)));
        (3, "confirmations"%string, WUint (wh_confirmations source.2));
        (4, "url"%string, WStr (bytes_of_string (wh_url source.2)))].

Definition read_text (v : wvalue) : expect string := let* s := read_string v in Ok (string_of_bytes s).

(** The destination of [read_bytes(wire::reader&, webhook_value&)]: the value
    and the local payment id. [confirmations] is given to its field without
    [std::ref]: what is read goes into the copy in the field. *)
Definition webhook_value_fields : list (wfield (webhook_value * hash8)) :=
  [required_field 0 "payment_id" (fun _ => read_blob 8) (fun p '(v, _) => (v, p));
   required_field 1 "event_id" (fun _ => read_blob 16) (fun e '((d, w), p) => ((WebhookDupsort (wd_payment_id d) e, w), p));
   required_field 2 "token" (fun _ => read_text) (fun t '((d, w), p) => ((d, WebhookData (wh_url w) t (wh_confirmations w)), p));
   required_field 3 "confirmations" (fun _ => read_uint u32_max) (fun _ s => s);
   required_field 4 "url" (fun _ => read_text) (fun u '((d, w), p) => ((d, WebhookData u (wh_token w) (wh_confirmations w)), p))].
Definition with_webhook_payment_id (p : hash8) (v : webhook_value) : webhook_value :=
  (WebhookDupsort (u64_of_hash8 p) (wd_event_id v.1), v.2).
Definition read_webhook_value (ik : bool) (v : wvalue) (dest : webhook_value) : expect webhook_value :=
  let* r := read_wobject webhook_value_fields ik v (dest, 0) in Ok (with_webhook_payment_id r.2 r.1).

Definition write_webhook_tx_confirmation (source : webhook_tx_confirmation) : wvalue :=
  let value := wtc_value source in
  WObj [(0, "event"%string, write_webhook_type (wk_type (wtc_key source)));
        (1, "payment_id"%string, write_payment_id (wd_payment_id value.1));
        (2, "token"%string, WStr (bytes_of_string (wh_token value.2)));
        (3, "confirmations"%string, WUint (wh_confirmations value.2));
        (4, "event_id"%string, wblob 16 (wd_event_id value.1));
        (5, "tx_info"%string, write_output (wtc_tx_info source))].

Definition set_webhook_value (f : webhook_value -> webhook_value) (c : webhook_tx_confirmation) : webhook_tx_confirmation :=
  WebhookTxConfirmation (wtc_key c) (f (wtc_value c)) (wtc_tx_info c).
Definition webhook_confirmation_fields (dest : output) : list (wfield (webhook_tx_confirmation * hash8)) :=
  [required_field 0 "event" (fun _ => read_webhook_type) (fun t '(c, p) =>
     (WebhookTxConfirmation (WebhookKey (wk_user (wtc_key c)) t) (wtc_value c) (wtc_tx_info c), p));
   required_field 1 "payment_id" (fun _ => read_blob 8) (fun p '(c, _) => (c, p));
   required_field 2 "token" (fun _ => read_text) (fun t '(c, p) =>
     (set_webhook_value (fun v => (v.1, WebhookData (wh_url v.2) t (wh_confirmations v.2))) c, p));
   required_field 3 "confirmations" (fun _ => read_uint u32_max) (fun n '(c, p) =>
     (set_webhook_value (fun v => (v.1, WebhookData (wh_url v.2) (wh_token v.2) n)) c, p));
   required_field 4 "event_id" (fun _ => read_blob 16) (fun e '(c, p) =>
     (set_webhook_value (fun v => (WebhookDupsort (wd_payment_id v.1) e, v.2)) c, p));
   required_field 5 "tx_info" (fun ik v => read_output ik v dest) (fun o '(c, p) =>
     (WebhookTxConfirmation (wtc_key c) (wtc_value c) o, p))].
Definition read_webhook_tx_confirmation (ik : bool) (v : wvalue) (dest : webhook_tx_confirmation) : expect webhook_tx_confirmation :=
  let* r := read_wobject (webhook_confirmation_fields (wtc_tx_info dest)) ik v (dest, 0) in
  Ok (set_webhook_value (with_webhook_payment_id r.2) r.1).

Definition write_spend_meta (self : spend_meta) : wvalue :=
  WObj [(0, "id"%string, map_output_id (sme_id self)); (1, "amount"%string, WUint (sme_amount self));
        (2, "mixin"%string, WUint (sme_mixin_count self)); (3, "index"%string, WUint (sme_index self));
        (4, "tx_public"%string, wblob 32 (sme_tx_public self))].
Definition write_webhook_tx_spend (self : webhook_tx_spend) : wvalue :=
  WObj [(0, "event"%string, write_webhook_type (wk_type (wts_key self)));
        (1, "token"%string, WStr (bytes_of_string (wh_token (wts_value self).2)));
        (2, "event_id"%string, wblob 16 (wd_event_id (wts_value self).1));
        (3, "tx_info"%string, WObj [(0, "input"%string, write_spend (wts_input self)); (1, "source"%string, write_spend_meta (wts_source self))])].
Definition write_webhook_event (self : webhook_event) : wvalue :=
  WObj [(0, "tx_info"%string, map_transaction_link (wo_tx (we_link self)));
        (1, "output_id"%string, map_output_id (wo_out (we_link self)));
        (2, "payment_id"%string, write_payment_id (wd_payment_id (we_link_webhook self)));
        (3, "event_id"%string, wblob 16 (wd_event_id (we_link_webhook self)))].
Definition write_webhook_new_account (address_string : account_address -> list Z) (self : webhook_new_account) : wvalue :=
  WObj [(0, "event_id"%string, wblob 16 (wd_event_id (wna_value self).1));
        (1, "token"%string, WStr (bytes_of_string (wh_token (wna_value self).2)));
        (2, "address"%string, WStr (address_string (wna_account self)))].

(** [get_hash(account_address)] *)
Definition get_hash (value : account_address) : Z := be_decode (rev (take 8 (be_bytes 32 (view_public value)))).

(** ** Properties *)

Lemma string_of_bytes_of_string s : string_of_bytes (bytes_of_string s) = s.
Proof.
  unfold string_of_bytes, bytes_of_string. rewrite <- list_fmap_compose.
  rewrite <- (String.string_of_list_ascii_of_string s) at 2. f_equal.
  induction (String.list_ascii_of_string s) as [|a l IH]; [done|]. rewrite fmap_cons, IH. f_equal.
  unfold compose. by rewrite Nat2Z.id, ascii_nat_embedding.
Qed.

Lemma bytes_of_string_inj s t : bytes_of_string s = bytes_of_string t -> s = t.
Proof. intros E. by rewrite <- (string_of_bytes_of_string s), E, string_of_bytes_of_string. Qed.

Lemma read_text_written s : read_text (WStr (bytes_of_string s)) = Ok s.
Proof. unfold read_text, read_string. cbn [ebind]. by rewrite string_of_bytes_of_string. Qed.

(** A name of the table that is listed once is read back as its number. *)
Lemma find_string_written map i name : NoDup map -> map !! i = Some name -> find_string map (bytes_of_string name) = Some i.
Proof.
  revert i. induction map as [|m map IH]; intros [|i] Hn Hi; try done; cbn in *.
  - injection Hi as ->. by rewrite bool_decide_true.
  - inversion Hn as [|? ? Hm Hn']; subst. rewrite bool_decide_false; [by rewrite (IH i)|].
    intros E%bytes_of_string_inj. subst. apply Hm. by eapply list_elem_of_lookup_2.
Qed.
Lemma read_enum_written map i : NoDup map -> (i < length map)%nat -> read_enum map (write_enum map i) = Ok i.
Proof.
  intros Hn Hi. destruct (map !! i) as [name|] eqn:E; [|apply lookup_ge_None in E; lia].
  unfold read_enum, write_enum, get_string, from_string. rewrite E. cbn [default from_option id read_string ebind]. by rewrite (find_string_written map i name).
Qed.

Lemma read_webhook_type_written t : read_webhook_type (write_webhook_type t) = Ok t.
Proof. by destruct t. Qed.
Lemma read_account_status_written s : read_account_status (write_account_status s) = Ok s.
Proof. by destruct s. Qed.
Lemma read_request_written r : read_request (write_request r) = Ok r.
Proof. by destruct r. Qed.

Lemma hash8_range p : 0 <= hash8_of_u64 p < 256 ^ 8.
Proof.
  unfold hash8_of_u64. pose proof (be_decode_range (rev (be_bytes 8 p))) as Hr. rewrite length_rev, length_be_bytes in Hr.
  apply Hr. apply Forall_rev. apply be_bytes_byte.
Qed.
Lemma hash8_roundtrip p : in_u64 p -> u64_of_hash8 (hash8_of_u64 p) = p.
Proof.
  intros Hp. unfold u64_of_hash8, hash8_of_u64. rewrite be_bytes_decode.
  - rewrite rev_involutive. apply be_decode_bytes_small. unfold in_u64, u64_max in Hp. lia.
  - apply Forall_rev, be_bytes_byte.
  - by rewrite length_rev, length_be_bytes.
Qed.

(** Reads one written member of the object. *)
Ltac wfield_step :=
  erewrite efold_read_member;
  [ | match goal with |- find_key (member_key ?ik _ _) _ = _ => destruct ik; vm_compute; reflexivity end
    | vm_compute; reflexivity
    | cbn -[read_webhook_type write_webhook_type read_blob read_text read_uint read_output_id read_address_index wblob bytes_of_string hash8_of_u64];
      first [ rewrite read_webhook_type_written
            | rewrite (read_blob_ok 8) by apply hash8_range
            | rewrite read_text_written
            | rewrite read_uint_ok by assumption
            | rewrite (read_blob_ok 32) by assumption
            | rewrite (read_blob_ok 16) by assumption
            | rewrite read_output_id_ok by assumption
            | rewrite read_address_index_ok by assumption
            | idtac ];
      cbn [ebind]; reflexivity ].
Ltac wobject_end :=
  cbn [efold ebind fst snd];
  (match goal with |- context [missing ?a ?b] => replace (missing a b) with false by (vm_compute; reflexivity) end);
  cbn [ebind fst snd]; unfold reset_omitted; cbn [length seq zip zip_with foldl w_field w_reset required_field optional_field f_required negb andb fst snd];
  repeat (match goal with |- context [bool_decide (?n ∈ ?l)] =>
    let b := eval vm_compute in (bool_decide (n ∈ l)) in change (bool_decide (n ∈ l)) with b end);
  cbn [negb].

Record valid_webhook_value (v : webhook_value) : Prop := {
  vw_payment : in_u64 (wd_payment_id v.1);
  vw_event : 0 <= wd_event_id v.1 < 256 ^ 16;
  vw_confirmations : in_u32 (wh_confirmations v.2)
}.

(** A written webhook value is read back, its number of confirmations excepted:
    that stays what the destination had. *)
Theorem webhook_value_loses_confirmations ik v dest : valid_webhook_value v ->
  read_webhook_value ik (write_webhook_value v) dest =
  Ok (v.1, WebhookData (wh_url v.2) (wh_token v.2) (wh_confirmations dest.2)).
Proof.
  intros [Hp He Hc]. unfold in_u32, u32_max in Hc. destruct v as [d w], dest as [[] []]. cbn [fst snd] in *.
  unfold read_webhook_value, write_webhook_value, write_payment_id, read_wobject, read_object, members, webhook_value_fields.
  cbn [fmap list_fmap fst snd]. do 5 wfield_step. wobject_end.
  destruct d, w. cbn [fst snd Data.wd_payment_id Data.wd_event_id Data.wh_url Data.wh_token Data.wh_confirmations] in *. unfold with_webhook_payment_id; cbn -[u64_of_hash8 hash8_of_u64]. by rewrite hash8_roundtrip.
Qed.
Lemma webhook_value_loses_confirmations_witness :
  read_webhook_value false (write_webhook_value (WebhookDupsort 5 7, WebhookData "http://127.0.0.1" "token" 3)) (WebhookDupsort 0 0, WebhookData "" "" 0) =
  Ok (WebhookDupsort 5 7, WebhookData "http://127.0.0.1" "token" 0).
Proof. apply (webhook_value_loses_confirmations false (WebhookDupsort 5 7, WebhookData "http://127.0.0.1" "token" 3)). split; vm_compute; split; congruence. Defined.

(** C32: A confirmation for a webhook that is written and read back, with integer
    or string keys, is the same event: type, token, confirmations, payment id,
    event id and the output with its optional fields. The user and the URL are
    not sent and stay those of the destination. *)
Theorem read_write_confirmation ik c dest :
  valid_webhook_value (wtc_value c) -> valid_output (wtc_tx_info c) ->
  read_webhook_tx_confirmation ik (write_webhook_tx_confirmation c) dest =
  Ok (WebhookTxConfirmation (WebhookKey (wk_user (wtc_key dest)) (wk_type (wtc_key c)))
        ((wtc_value c).1, WebhookData (wh_url (wtc_value dest).2) (wh_token (wtc_value c).2) (wh_confirmations (wtc_value c).2))
        (output_canon (wtc_tx_info c) (wtc_tx_info dest))).
Proof.
  intros [Hp He Hc] Ho. unfold in_u32, u32_max in Hc.
  destruct c as [ck [d w] o], dest as [[] [[] []] od]. cbn [fst snd wtc_key wtc_value wtc_tx_info] in *.
  unfold read_webhook_tx_confirmation, write_webhook_tx_confirmation, write_payment_id, read_wobject, read_object, members, webhook_confirmation_fields.
  cbn [wtc_key wtc_value wtc_tx_info].
  cbn [fmap list_fmap fst snd]. do 5 wfield_step.
  erewrite efold_read_member; [|destruct ik; vm_compute; reflexivity|vm_compute; reflexivity|].
  2:{ cbn -[read_output write_output hash8_of_u64]. rewrite read_output_written by done. reflexivity. }
  wobject_end. destruct ck, d, w. cbn [fst snd Data.wd_payment_id Data.wd_event_id Data.wh_url Data.wh_token Data.wh_confirmations] in *.
  unfold set_webhook_value, with_webhook_payment_id; cbn -[u64_of_hash8 hash8_of_u64 output_canon]. by rewrite hash8_roundtrip.
Qed.
Definition sample_confirmation : webhook_tx_confirmation :=
  WebhookTxConfirmation (WebhookKey 4 tx_confirmation) (WebhookDupsort 5 7, WebhookData "http://127.0.0.1" "token" 3) sample_output.
Lemma read_write_confirmation_witness :
  is_ok (read_webhook_tx_confirmation true (write_webhook_tx_confirmation sample_confirmation) sample_confirmation) = true.
Proof.
  unfold is_ok. rewrite (read_write_confirmation true sample_confirmation sample_confirmation); [reflexivity| |exact sample_output_valid].
  split; vm_compute; split; congruence.
Defined.

(** A spend with a payment id of 32 bytes or none. *)
Record valid_spend (s : spend) : Prop := {
  vs_height : in_u64 (tl_height (sp_link s)); vs_tx_hash : in_blob32 (tl_tx_hash (sp_link s));
  vs_image : in_blob32 (sp_image s); vs_source : valid_output_id (sp_source s);
  vs_timestamp : in_u64 (sp_timestamp s); vs_unlock_time : in_u64 (sp_unlock_time s); vs_mixin : in_u32 (sp_mixin_count s);
  vs_payment_id : in_blob32 (sp_payment_id s); vs_length : sp_length s = 0 \/ sp_length s = 32;
  vs_sender : valid_address_index (sp_sender s)
}.

Lemma read_spend_written ik s dest : valid_spend s ->
  read_spend ik (write_spend s) dest =
  Ok (with_payment_id (sp_length s) (if sp_length s =? 32 then sp_payment_id s else sp_payment_id dest) s).
Proof.
  intros [Hh Ht Hi Hs Hts Hu Hm Hp Hl Hse]. destruct s as [[h t] i src ts ut m len p se], dest as [[dh dt] di ds dts du dm dl dp dse].
  cbn [sp_link sp_image sp_source sp_timestamp sp_unlock_time sp_mixin_count sp_length sp_payment_id sp_sender tl_height tl_tx_hash] in *.
  unfold in_u64, in_u32, in_blob32 in *. unfold read_spend, write_spend, map_spend, read_wobject, read_object, members, spend_fields.
  destruct Hl as [-> | ->]; cbn [sp_link sp_image sp_source sp_timestamp sp_unlock_time sp_mixin_count sp_length sp_payment_id sp_sender tl_height tl_tx_hash
    Z.eqb Pos.eqb app fmap list_fmap fst snd]; repeat wfield_step; wobject_end; reflexivity.
Qed.

(** Subaddress ranges are written and read as pairs of the least and the
    greatest index; what is not in order is refused either way. *)
Lemma read_range_written r : range_wf r -> read_range (minor_range r) = Ok r.
Proof. intros [H1 H2]. unfold read_range, minor_range. rewrite !read_uint_ok by done. by destruct r. Qed.
Lemma read_ranges_written rs : Forall range_wf rs -> read_ranges (WArr (minor_range <$> rs)) = Ok rs.
Proof.
  intros Hrs. unfold read_ranges. assert (forall acc, efold (fun rs x => let* r := read_range x in Ok (rs ++ [r])) acc (minor_range <$> rs) = Ok (acc ++ rs)) as Ha; [|apply (Ha [])].
  induction Hrs as [|r rs Hr Hrs IH]; intros acc; cbn [fmap list_fmap efold]; [by rewrite app_nil_r|].
  rewrite read_range_written by done. cbn [ebind]. by rewrite IH, <- app_assoc.
Qed.
Lemma read_subaddress_dict_written ik d dest w : in_u32 d.1 -> Forall range_wf d.2 ->
  write_subaddress_dict d = Ok w -> read_subaddress_dict ik w dest = Ok d.
Proof.
  intros Hk Hr. unfold write_subaddress_dict. destruct (check_subaddress_dict d) eqn:Hc; [|done]. intros [= <-].
  destruct d as [k rs]. cbn [fst snd] in *. unfold in_u32 in Hk.
  assert (read_wobject subaddress_dict_fields ik (map_subaddress_dict (k, rs)) dest = Ok (k, rs)) as E.
  { unfold map_subaddress_dict, read_wobject, read_object, members, subaddress_dict_fields. cbn [fst snd].
    destruct (decide (rs = [])) as [->|Hn]; [rewrite bool_decide_true by done|rewrite bool_decide_false by done];
      cbn [negb opt_member fmap list_fmap fst snd]; wfield_step.
    - wobject_end. by destruct dest.
    - erewrite efold_read_member; [|destruct ik; vm_compute; reflexivity|vm_compute; reflexivity|].
      2:{ cbn -[read_ranges]. change (list_fmap _ _ minor_range rs) with (minor_range <$> rs). rewrite read_ranges_written by done. reflexivity. }
      wobject_end. by destruct dest. }
  unfold read_subaddress_dict. rewrite E. cbn [ebind]. by rewrite Hc.
Qed.
