(* ===== verification/Json.v ===== *)
(** src/wire/json: the token writer (write.h, write.cpp) and the token reader
    (read.h, read.cpp), with [wire_read::object] and
    [wire_read::array_unchecked] (src/wire/read.h) over the reader's tokens.

    rapidjson and epee are not part of the repository: the class [RapidJson]
    has the calls the code makes and [RapidJsonLaws] the documented behaviour
    it relies on. [Sample] of JsonSample.v is an implementation that has all of
    it. The theorems relate the bytes to the trees of [Wire]: what
    the writer makes of a tree is the compact text of that tree, and reading
    that text is reading the tree (JsonSchema.v: the value the tree stands for). *)

From S2P Require Import Prelude Wire.
From Stdlib Require Import Ascii.

(** ** The libraries *)

(** What rapidjson's [Writer] is given and what its [Reader] hands to a
    handler; numbers are split the way [ParseNumber] does it. *)
Inductive sax :=
| SNull
| SBool (b : bool)
| SInt (z : Z)
| SUint (z : Z)
| SDouble (bits : Z)
| SString (s : list Z)
| SKey (s : list Z)
| SStartArray
| SEndArray (n : nat)
| SStartObject
| SEndObject (n : nat).

(** How [Parse] ends when the handler never returns false: an error code, or
    the number of bytes it took. *)
Inductive parse_end := Failed (code : Z) | Finished (n : nat).

Class RapidJson := {
  formatter : Type;                                (* rapidjson::Writer *)
  fresh : formatter;
  emit : sax -> formatter -> list Z * formatter;   (* the bytes put on the stream *)
  IsComplete : formatter -> bool;
  u64toa : Z -> list Z;
  Parse : list Z -> list sax * parse_end;          (* with kParseStopWhenDoneFlag *)
  SkipWhitespace : list Z -> nat;                  (* bytes skipped *)
  to_double : Z -> Z;                              (* static_cast<double>, as bits *)
  finite_double : Z -> bool;
  survives : Z -> bool;                            (* doubles whose text is read back as them *)
  kParseErrorNone : Z;
  kParseErrorObjectMissColon : Z;
  kParseErrorObjectMissCommaOrCurlyBracket : Z;
  kParseErrorArrayMissCommaOrSquareBracket : Z;
  kParseErrorStringMissQuotationMark : Z;
  kParseErrorTermination : Z;
  kParseErrorUnspecificSyntaxError : Z;
  to_hex : list Z -> list Z;                       (* epee::to_hex::string *)
  to_buffer : nat -> list Z -> option (list Z)     (* epee::from_hex::to_buffer, size of the span *)
}.

(** ASCII codes of the characters the reader tests for. *)
Definition ch_quote : Z := 34.
Definition ch_comma : Z := 44.
Definition ch_colon : Z := 58.
Definition ch_open_array : Z := 91.
Definition ch_close_array : Z := 93.
Definition ch_open_object : Z := 123.
Definition ch_close_object : Z := 125.

(** ** Writer *)
Module JsonWriter.
Section json_writer.
Context `{RapidJson}.
(** [epee::byte_stream::available] of a buffer with these bytes. *)
Context (available : list Z -> Z).

Definition flush_threshold : Z := 100.
Definition max_buffer : Z := 4096.

(** [streams] tells [json_stream_writer], whose [do_flush] writes to [dest],
    from [json_slice_writer], whose [do_flush] does nothing. *)
Record json_writer := Mk {
  bytes : list Z;
  formatter_ : formatter;
  needs_flush : bool;
  streams : bool;
  dest : list Z
}.

Definition json_slice_writer (sink : list Z) : json_writer := Mk sink fresh false false [].
Definition json_stream_writer (dest : list Z) : json_writer := Mk [] fresh true true dest.

Definition do_flush (w : json_writer) : list Z := if streams w then dest w ++ bytes w else dest w.
Definition flush (w : json_writer) : json_writer :=
  Mk [] (formatter_ w) (needs_flush w) (streams w) (do_flush w).
Definition check_flush (w : json_writer) : json_writer :=
  if needs_flush w && ((max_buffer <? Z.of_nat (length (bytes w))) || (available (bytes w) <? flush_threshold))
  then flush w else w.

Definition check_complete (w : json_writer) : expect unit :=
  if IsComplete (formatter_ w) then Ok tt else Err logic_error.

Definition take_json (w : json_writer) : expect (list Z * json_writer) :=
  let* _ := check_complete w in
  Ok (bytes w, Mk [] fresh (needs_flush w) (streams w) (dest w)).
Definition take_sink := take_json.

Definition finish (w : json_writer) : expect json_writer :=
  let* _ := check_complete w in Ok (flush w).

(** A call on [formatter_], whose stream is [bytes_]. *)
Definition format (e : sax) (w : json_writer) : json_writer :=
  let '(out, f) := emit e (formatter_ w) in Mk (bytes w ++ out) f (needs_flush w) (streams w) (dest w).

Definition boolean (source : bool) (w : json_writer) : json_writer := check_flush (format (SBool source) w).
Definition integer (source : Z) (w : json_writer) : json_writer := check_flush (format (SInt source) w).
Definition unsigned_integer (source : Z) (w : json_writer) : json_writer := check_flush (format (SUint source) w).
Definition real (source : Z) (w : json_writer) : json_writer := check_flush (format (SDouble source) w).
Definition string (source : list Z) (w : json_writer) : json_writer := check_flush (format (SString source) w).
Definition binary (source : list Z) (w : json_writer) : json_writer := string (to_hex source) w.
Definition start_array (w : json_writer) : json_writer := format SStartArray w.
Definition end_array (n : nat) (w : json_writer) : json_writer := format (SEndArray n) w.
Definition start_object (w : json_writer) : json_writer := format SStartObject w.
Definition key (str : list Z) (w : json_writer) : json_writer := check_flush (format (SKey str) w).
Definition key_id (id : Z) (w : json_writer) : json_writer := key (u64toa id) w.
Definition end_object (n : nat) (w : json_writer) : json_writer := format (SEndObject n) w.

(** [wire_write::bytes] of a tree. *)
Fixpoint write_value (v : wvalue) (w : json_writer) : json_writer :=
  match v with
  | WBool b => boolean b w
  | WInt z => integer z w
  | WUint z => unsigned_integer z w
  | WReal z => real z w
  | WStr s => string s w
  | WBin s => binary s w
  | WArr l => end_array (length l) (foldl (fun w x => write_value x w) (start_array w) l)
  | WObj l => end_object (length l)
      (foldl (fun w kv => write_value kv.2 (key (bytes_of_string kv.1.2) w)) (start_object w) l)
  end.

(** [wire_write::to_bytes<json_slice_writer>] and a whole [json_stream_writer]. *)
Definition to_bytes (v : wvalue) : expect (list Z) :=
  let* r := take_sink (write_value v (json_slice_writer [])) in Ok r.1.
Definition to_stream (v : wvalue) (out : list Z) : expect (list Z) :=
  let* w := finish (write_value v (json_stream_writer out)) in Ok (dest w).
End json_writer.
End JsonWriter.

(** ** Reader *)
Module JsonReader.
Section json_reader.
Context `{RapidJson}.

Record reader := Mk { remaining : list Z; depth : Z }.

Definition init (source : list Z) : reader := Mk source 0.
Definition remove_prefix (n : nat) (r : reader) : reader := Mk (drop n (remaining r)) (depth r).

Definition max_read_depth : Z := 100.
Definition increment_depth (r : reader) : expect reader :=
  if depth r + 1 =? max_read_depth then Err (schema_err schema_maximum_depth) else Ok (Mk (remaining r) (depth r + 1)).
Definition decrement_depth (r : reader) : expect reader :=
  if depth r =? 0 then Err logic_error else Ok (Mk (remaining r) (depth r - 1)).

(** [rapidjson_sax]: the union with the member that is set, and what the
    caller expects; [None] is [error::schema::none]. *)
Inductive value :=
| VUnset
| VBoolean (b : bool)
| VInteger (z : Z)
| VUnsigned (z : Z)
| VNumber (bits : Z)
| VString (s : list Z).
Record rapidjson_sax := Sax { val : value; expected : option schema_error; negative : bool }.
Definition sax_init (expected : option schema_error) : rapidjson_sax := Sax VUnset expected false.

Definition set_if (ok : bool) (v : value) (h : rapidjson_sax) : option rapidjson_sax :=
  if ok then Some (Sax v (expected h) (negative h)) else None.
Definition keep_if (ok : bool) (h : rapidjson_sax) : option rapidjson_sax := if ok then Some h else None.
Definition accepts (e : schema_error) (h : rapidjson_sax) : bool :=
  bool_decide (expected h = Some e) || bool_decide (expected h = None).

(** The handler's functions; [None] is [return false]. *)
Definition handle (e : sax) (h : rapidjson_sax) : option rapidjson_sax :=
  match e with
  | SNull => keep_if (bool_decide (expected h = None)) h
  | SBool i => set_if (accepts schema_boolean h) (VBoolean i) h
  | SInt i =>
    match expected h with
    | Some schema_integer => Some (Sax (VInteger i) (expected h) true)
    | Some schema_number => Some (Sax (VNumber (to_double i)) (expected h) true)
    | None => Some (Sax (val h) (expected h) true)
    | _ => None
    end
  | SUint i =>
    match expected h with
    | Some schema_integer => Some (Sax (VUnsigned i) (expected h) (negative h))
    | Some schema_number => Some (Sax (VNumber (to_double i)) (expected h) (negative h))
    | None => Some h
    | _ => None
    end
  | SDouble i => set_if (accepts schema_number h) (VNumber i) h
  | SString s | SKey s => set_if (accepts schema_string h) (VString s) h
  | SStartArray | SEndArray _ | SStartObject | SEndObject _ => keep_if (bool_decide (expected h = None)) h
  end.

Fixpoint handle_all (es : list sax) (h : rapidjson_sax) : option rapidjson_sax :=
  match es with
  | [] => Some h
  | e :: es => match handle e h with Some h => handle_all es h | None => None end
  end.

(** A null code in an exception is [kInvalidErrorCode]; [none] is expected by
    [skip_value] only, whose handler never returns false. *)
Definition expected_error (e : option schema_error) : error :=
  match e with Some e => schema_err e | None => kInvalidErrorCode end.
Definition throw_json_error (code : Z) (expected : option schema_error) : error :=
  if (code =? kParseErrorNone) || (code =? kParseErrorTermination) then expected_error expected
  else rapidjson_err code.

Definition read_next_value (h : rapidjson_sax) (r : reader) : expect (rapidjson_sax * reader) :=
  let '(events, fin) := Parse (remaining r) in
  match handle_all events h with
  | None => Err (throw_json_error kParseErrorTermination (expected h))
  | Some h' =>
    match fin with
    | Failed code => Err (throw_json_error code (expected h))
    | Finished n => Ok (h', remove_prefix n r)
    end
  end.

(** [stream.Peek()] is a null character at the end. *)
Definition get_next_token (r : reader) : Z * reader :=
  let r := remove_prefix (SkipWhitespace (remaining r)) r in (default 0 (head (remaining r)), r).

(** [std::memchr]: the bytes before the first [c], and those after it. *)
Fixpoint memchr (c : Z) (l : list Z) : option (list Z * list Z) :=
  match l with
  | [] => None
  | x :: l => if x =? c then Some ([], l) else (fun p => (x :: p.1, p.2)) <$> memchr c l
  end.

Definition get_next_string (r : reader) : expect (list Z * reader) :=
  let '(next, r) := get_next_token r in
  if negb (next =? ch_quote) then Err (schema_err schema_string)
  else
    let r := remove_prefix 1 r in
    match memchr ch_quote (remaining r) with
    | None => Err (rapidjson_err kParseErrorStringMissQuotationMark)
    | Some (s, rest) => Ok (s, Mk rest (depth r))
    end.

Definition skip_value (r : reader) : expect reader :=
  let* hr := read_next_value (sax_init None) r in Ok hr.2.

Definition check_complete (r : reader) : expect unit :=
  if negb (depth r =? 0) then Err (rapidjson_err kParseErrorUnspecificSyntaxError) else Ok tt.

(** *** Values

    A member of the union other than the one that was set is never read: a
    successful [Parse] calls the handler, and the handler accepts one kind. *)
Definition boolean_of (v : value) : bool := match v with VBoolean b => b | _ => false end.
Definition integer_of (v : value) : Z := match v with VInteger z | VUnsigned z => z | _ => 0 end.
Definition number_of (v : value) : Z := match v with VNumber z => z | _ => 0 end.
Definition string_of (v : value) : list Z := match v with VString s => s | _ => [] end.

Definition imax : Z := 2 ^ 63 - 1.

Definition boolean (r : reader) : expect (bool * reader) :=
  let* hr := read_next_value (sax_init (Some schema_boolean)) r in Ok (boolean_of (val hr.1), hr.2).

Definition integer (r : reader) : expect (Z * reader) :=
  let* hr := read_next_value (sax_init (Some schema_integer)) r in
  let '(h, r) := hr in
  if negative h then Ok (integer_of (val h), r)
  else if imax <? integer_of (val h) then Err (schema_err schema_smaller_integer)
  else Ok (integer_of (val h), r).

Definition unsigned_integer (r : reader) : expect (Z * reader) :=
  let* hr := read_next_value (sax_init (Some schema_integer)) r in
  let '(h, r) := hr in
  if negb (negative h) then Ok (integer_of (val h), r)
  else if integer_of (val h) <? 0 then Err (schema_err schema_larger_integer)
  else Ok (integer_of (val h), r).

Definition safe_unsigned_integer (r : reader) : expect (Z * reader) :=
  let '(next, r) := get_next_token r in
  if negb (next =? ch_quote) then Err (schema_err schema_string)
  else
    let* ur := unsigned_integer (remove_prefix 1 r) in
    let '(out, r) := ur in
    let '(next, r) := get_next_token r in
    if negb (next =? ch_quote) then Err (rapidjson_err kParseErrorStringMissQuotationMark)
    else Ok (out, remove_prefix 1 r).

Definition real (r : reader) : expect (Z * reader) :=
  let* hr := read_next_value (sax_init (Some schema_number)) r in Ok (number_of (val hr.1), hr.2).

Definition string (r : reader) : expect (list Z * reader) :=
  let* hr := read_next_value (sax_init (Some schema_string)) r in Ok (string_of (val hr.1), hr.2).

Definition binary (r : reader) : expect (list Z * reader) :=
  let* sr := get_next_string r in
  match to_buffer (Nat.div (length sr.1) 2) sr.1 with
  | Some out => Ok (out, sr.2)
  | None => Err (schema_err schema_binary)
  end.
(** [binary(dest)] with a destination of [size] bytes. *)
Definition binary_fixed (size : nat) (r : reader) : expect (list Z * reader) :=
  let* sr := get_next_string r in
  match to_buffer size sr.1 with
  | Some out => Ok (out, sr.2)
  | None => Err (schema_err schema_fixed_binary)
  end.

Definition start_array (r : reader) : expect (Z * reader) :=
  let '(next, r) := get_next_token r in
  if negb (next =? ch_open_array) then Err (schema_err schema_array)
  else let* r := increment_depth (remove_prefix 1 r) in Ok (0, r).

Definition is_array_end (count : Z) (r : reader) : expect (bool * reader) :=
  let '(next, r) := get_next_token r in
  if next =? 0 then Err (rapidjson_err kParseErrorArrayMissCommaOrSquareBracket)
  else if next =? ch_close_array then Ok (true, remove_prefix 1 r)
  else if negb (count =? 0) then
    if negb (next =? ch_comma) then Err (rapidjson_err kParseErrorArrayMissCommaOrSquareBracket)
    else Ok (false, remove_prefix 1 r)
  else Ok (false, r).
Definition end_array (r : reader) : expect reader := decrement_depth r.

Definition start_object (r : reader) : expect (Z * reader) :=
  let '(next, r) := get_next_token r in
  if negb (next =? ch_open_object) then Err (schema_err schema_object)
  else let* r := increment_depth (remove_prefix 1 r) in Ok (0, r).
Definition end_object (r : reader) : expect reader := decrement_depth r.

(** One round of the loop of [key]: the end of the object, or the key of a
    member with the reader at its value. *)
Definition next_key (state : Z) (r : reader) : expect (option (list Z) * Z * reader) :=
  let '(next, r) := get_next_token r in
  if next =? 0 then Err (rapidjson_err kParseErrorObjectMissCommaOrCurlyBracket)
  else if next =? ch_close_object then Ok (None, state, remove_prefix 1 r)
  else
    let* r :=
      if negb (state =? 0) then
        if negb (next =? ch_comma) then Err (rapidjson_err kParseErrorObjectMissCommaOrCurlyBracket)
        else Ok (remove_prefix 1 r)
      else Ok r in
    let* hr := read_next_value (sax_init (Some schema_string)) r in
    let '(h, r) := hr in
    let '(next, r) := get_next_token r in
    if negb (next =? ch_colon) then Err (rapidjson_err kParseErrorObjectMissColon)
    else Ok (Some (string_of (val h)), u64 (state + 1), remove_prefix 1 r).

(** [key(map, state, index)]: members that match no field are skipped. Every
    round takes at least one byte, so [fuel] above the number of bytes left is
    enough ([key_fuel]). *)
Fixpoint key_loop (fuel : nat) (map : list field) (state : Z) (r : reader) : expect (option nat * Z * reader) :=
  match fuel with
  | O => Err logic_error
  | S fuel =>
    let* k := next_key state r in
    match k with
    | (None, state, r) => Ok (None, state, r)
    | (Some name, state, r) =>
      match find_key (KStr name) map with
      | Some index => Ok (Some index, state, r)
      | None => let* r := skip_value r in key_loop fuel map state r
      end
    end
  end.
Definition key (map : list field) (state : Z) (r : reader) : expect (option nat * Z * reader) :=
  key_loop (S (length (remaining r))) map state r.

Definition from_bytes {A} (read : reader -> expect (A * reader)) (source : list Z) : expect A :=
  let* ar := read (init source) in
  let* _ := check_complete ar.2 in Ok ar.1.
End json_reader.
Arguments reader : clear implicits.
End JsonReader.

(** ** Objects and arrays *)
Module JsonObject.
Section object.
Import JsonReader.
Context `{RapidJson} {S : Type}.
(** The fields of the object; [unpack i] is [unpack_field] of field [i] with
    the destinations [S], [reset i] is its [reset_field]. *)
Context (fields : list field).
Context (unpack : nat -> S -> reader -> expect (S * reader)) (reset : nat -> S -> S).

Definition is_required (index : nat) : bool := match fields !! index with Some f => f_required f | None => false end.

(** [fields.try_read(source, next)...] for the field with that index. *)
Definition try_read (index : nat) (seen : list nat) (s : S) (r : reader) : expect (S * reader) :=
  if bool_decide (index ∈ seen) then Err (schema_err schema_invalid_key) else unpack index s r.

Fixpoint read_fields (fuel : nat) (state required : Z) (seen : list nat) (s : S) (r : reader)
  : expect (Z * list nat * S * reader) :=
  match fuel with
  | O => Err logic_error
  | Datatypes.S fuel =>
    let* k := key fields state r in
    match k with
    | (None, _, r) => Ok (required, seen, s, r)
    | (Some next, state, r) =>
      let* sr := try_read next seen s r in
      read_fields fuel state (if is_required next then required - 1 else required) (next :: seen) sr.1 sr.2
    end
  end.

Definition reset_omitted (seen : list nat) (s : S) : S :=
  foldl (fun s i => if negb (is_required i) && negb (bool_decide (i ∈ seen)) then reset i s else s)
    s (seq 0 (length fields)).

Definition required_fields : Z := Z.of_nat (length (List.filter f_required fields)).

Definition object (s : S) (r : reader) : expect (S * reader) :=
  let* sr := start_object r in
  let '(state, r) := sr in
  let* st := read_fields (Datatypes.S (length (remaining r))) state required_fields [] s r in
  let '(required, seen, s, r) := st in
  if negb (required =? 0) then Err (schema_err schema_missing_key)
  else
    let s := reset_omitted seen s in
    let* r := end_object r in Ok (s, r).

(** The object as the tree layer reads it ([Wire.read_object]). *)
Definition object_tree (read : nat -> wvalue -> S -> expect S) (l : list (Z * String.string * wvalue)) (s : S) : expect S :=
  let* st := Wire.read_object fields read (members false l) s in Ok (reset_omitted st.1 st.2).
End object.

Section array.
Import JsonReader.
Context `{RapidJson} {A : Type}.
(** [array_insert]: at the back, or at its place in a sorted container. *)
Context (read : reader -> expect (A * reader)) (insert : A -> list A -> list A).
Context (min_element_size max_element_count : Z).

Definition left (r : reader) : Z := Z.of_nat (length (remaining r)).

Fixpoint array_loop (fuel : nat) (start_bytes : Z) (more : bool) (count : Z) (dest : list A) (r : reader)
  : expect (list A * reader) :=
  match fuel with
  | O => Err logic_error
  | S fuel =>
    let* er := if more then Ok (false, r) else is_array_end count r in
    let '(fin, r) := er in
    if fin then Ok (dest, r)
    else if max_element_count <=? Z.of_nat (length dest) then Err (schema_err schema_array_max_element)
    else
      let* ar := read r in
      let '(x, r) := ar in
      let dest := insert x dest in
      let count := u64 (count - 1) in
      let more := more && negb (count =? 0) in
      if (start_bytes - left r) / Z.of_nat (length dest) <? min_element_size
      then Err (schema_err schema_array_min_size)
      else array_loop fuel start_bytes more count dest r
  end.

Definition array_unchecked (r : reader) : expect (list A * reader) :=
  let* cr := start_array r in
  let '(count, r) := cr in
  if max_element_count <? count then Err (schema_err schema_array_max_element)
  else if left r / Z.max min_element_size 1 <? count then Err (schema_err schema_array_min_size)
  else
    let* dr := array_loop (S (length (remaining r))) (left r) (negb (count =? 0)) count [] r in
    let* r := end_array dr.2 in Ok (dr.1, r).
End array.
End JsonObject.

(** ** The text of a tree *)
Section text.
Context `{RapidJson}.

(** The text of a value that is a single event. *)
Definition scalar (e : sax) : list Z := (emit e fresh).1.

(** The events of a tree, as the writer is given them. *)
Fixpoint events (v : wvalue) : list sax :=
  match v with
  | WBool b => [SBool b]
  | WInt z => [SInt z]
  | WUint z => [SUint z]
  | WReal z => [SDouble z]
  | WStr s => [SString s]
  | WBin s => [SString (to_hex s)]
  | WArr l => SStartArray :: concat (map events l) ++ [SEndArray (length l)]
  | WObj l =>
    SStartObject :: concat (map (fun kv => SKey (bytes_of_string kv.1.2) :: events kv.2) l) ++ [SEndObject (length l)]
  end.

Fixpoint emits (es : list sax) (f : formatter) : list Z * formatter :=
  match es with
  | [] => ([], f)
  | e :: es => let '(out, f) := emit e f in let '(outs, f) := emits es f in (out ++ outs, f)
  end.

(** The elements of an array, or the members of an object, with commas
    between them; [after] is what follows the first one. *)
Definition after (l : list (list Z)) : list Z := concat (map (cons ch_comma) l).
Definition separated (l : list (list Z)) : list Z :=
  match l with [] => [] | x :: l => x ++ after l end.

Fixpoint compact (v : wvalue) : list Z :=
  match v with
  | WBool b => scalar (SBool b)
  | WInt z => scalar (SInt z)
  | WUint z => scalar (SUint z)
  | WReal z => scalar (SDouble z)
  | WStr s => scalar (SString s)
  | WBin s => scalar (SString (to_hex s))
  | WArr l => ch_open_array :: separated (map compact l) ++ [ch_close_array]
  | WObj l =>
    ch_open_object ::
      separated (map (fun kv => scalar (SString (bytes_of_string kv.1.2)) ++ ch_colon :: compact kv.2) l) ++ [ch_close_object]
  end.
Definition member_text (kv : Z * string * wvalue) : list Z :=
  scalar (SString (bytes_of_string kv.1.2)) ++ ch_colon :: compact kv.2.

(** A non-negative [Int64] is read as a [Uint64]. *)
Definition as_read (e : sax) : sax :=
  match e with SInt z => if 0 <=? z then SUint z else SInt z | _ => e end.

(** The trees that can be written, and those that are read back as they were: the
    default flags of [Parse] read a double to within a few units in the last place
    only. *)
Definition is_byte_b (b : Z) : bool := (0 <=? b) && (b <? 256).
Fixpoint writable (v : wvalue) : bool :=
  match v with
  | WBool _ => true
  | WInt z => (- 2 ^ 63 <=? z) && (z <? 2 ^ 63)
  | WUint z => (0 <=? z) && (z <=? u64_max)
  | WReal z => finite_double z
  | WStr s | WBin s => forallb is_byte_b s
  | WArr l => forallb writable l
  | WObj l => forallb (fun kv => writable kv.2) l
  end.
Fixpoint good (v : wvalue) : bool :=
  match v with
  | WBool _ => true
  | WInt z => (- 2 ^ 63 <=? z) && (z <? 2 ^ 63)
  | WUint z => (0 <=? z) && (z <=? u64_max)
  | WReal z => finite_double z && survives z
  | WStr s | WBin s => forallb is_byte_b s
  | WArr l => forallb good l
  | WObj l => forallb (fun kv => good kv.2) l
  end.

Lemma good_writable v : good v = true -> writable v = true.
Proof.
  induction v as [b|z|z|z|s|s|l IH|l IH] using wvalue_nested_ind; cbn; try done.
  - by intros [Hg _]%andb_true_iff.
  - intros Hg. induction IH as [|v l Hv _ IHl]; cbn in *; [done|]. apply andb_true_iff in Hg as [H1 H2]. by rewrite Hv, IHl.
  - intros Hg. induction IH as [|kv l Hv _ IHl]; cbn in *; [done|]. apply andb_true_iff in Hg as [H1 H2]. by rewrite Hv, IHl.
Qed.

(** What may follow a value: nothing, or the punctuation of JSON. *)
Definition ends (rest : list Z) : bool :=
  match rest with
  | [] => true
  | c :: _ => existsb (Z.eqb c) [ch_comma; ch_close_array; ch_close_object; ch_colon; ch_quote]
  end.
Definition is_blank (c : Z) : bool := existsb (Z.eqb c) [9; 10; 13; 32; 239].
Definition is_digit (c : Z) : bool := (48 <=? c) && (c <=? 57).
(** A character that stands for itself in a string. *)
Definition is_plain (c : Z) : bool := is_digit c || ((97 <=? c) && (c <=? 122)) || (c =? 95).

(** A key of a well-formed object, or a value that is one token. *)
Definition is_number_or_bool (e : sax) : bool :=
  match e with SBool _ | SInt _ | SUint _ | SDouble _ => true | _ => false end.
Definition good_event (e : sax) : bool :=
  match e with
  | SBool b => good (WBool b) | SInt z => good (WInt z) | SUint z => good (WUint z) | SDouble z => good (WReal z)
  | SString s => good (WStr s) | _ => false
  end.

(** The documented behaviour of the libraries: [Writer] makes a complete
    value without whitespace of the events of a tree; [Reader] gives back the
    events of such a text and takes nothing after it; whitespace is space,
    tab, carriage return and line feed (a byte order mark is skipped too);
    integers are written in decimal; strings are quoted, and characters that
    need no escape stand for themselves; [epee] writes two digits a byte. *)
Class RapidJsonLaws : Prop := {
  write_tree v : writable v = true ->
    exists f, emits (events v) fresh = (compact v, f) /\ IsComplete f = true;
  parse_tree v rest : good v = true -> ends rest = true ->
    Parse (compact v ++ rest) = (map as_read (events v), Finished (length (compact v)));
  skip_none c l : is_blank c = false -> SkipWhitespace (c :: l) = O;
  skip_end : SkipWhitespace [] = O;
  scalar_string s : exists l, scalar (SString s) = ch_quote :: l;
  scalar_plain s : forallb is_plain s = true -> scalar (SString s) = ch_quote :: s ++ [ch_quote];
  scalar_token e : is_number_or_bool e = true -> good_event e = true ->
    exists c l, scalar e = c :: l /\ (is_digit c = true \/ c = 45 \/ c = 116 \/ c = 102);
  scalar_uint n : 0 <= n <= u64_max -> scalar (SUint n) = u64toa n;
  u64toa_digits n : 0 <= n <= u64_max -> forallb is_digit (u64toa n) = true;
  hex_plain s : forallb is_byte_b s = true -> forallb is_plain (to_hex s) = true;
  hex_length s : length (to_hex s) = (2 * length s)%nat;
  hex_roundtrip n s : forallb is_byte_b s = true ->
    to_buffer n (to_hex s) = if bool_decide (n = length s) then Some s else None
}.
End text.

(** ** What the writer makes of a tree *)
Module WriterFacts.
Section writer_facts.
Import JsonWriter.
Context `{RJ : RapidJson} (available : list Z -> Z).

(** Everything put on the stream so far, flushed or not. *)
Definition written (w : json_writer) : list Z := dest w ++ bytes w.

(** From [w] to [w'] the formatter was given [es] and its output is kept. *)
Record gives (es : list sax) (w w' : json_writer) : Prop := {
  gives_written : written w' = written w ++ (emits es (formatter_ w)).1;
  gives_formatter : formatter_ w' = (emits es (formatter_ w)).2;
  gives_streams : streams w' = streams w;
  gives_needs_flush : needs_flush w' = needs_flush w;
  gives_dest : needs_flush w = false -> dest w' = dest w
}.

Lemma emits_app es1 es2 f :
  emits (es1 ++ es2) f = ((emits es1 f).1 ++ (emits es2 (emits es1 f).2).1, (emits es2 (emits es1 f).2).2).
Proof.
  revert f; induction es1 as [|e es1 IH]; intros f; cbn; [by destruct (emits es2 f)|].
  destruct (emit e f) as [o f1]. rewrite IH. destruct (emits es1 f1) as [o1 f2]; cbn.
  destruct (emits es2 f2); cbn. by rewrite app_assoc.
Qed.

Lemma gives_nil w : gives [] w w.
Proof. split; cbn; by rewrite ?app_nil_r. Qed.

Lemma gives_app es1 es2 w1 w2 w3 : gives es1 w1 w2 -> gives es2 w2 w3 -> gives (es1 ++ es2) w1 w3.
Proof.
  intros [A1 B1 C1 D1 E1] [A2 B2 C2 D2 E2]. split; rewrite ?emits_app; cbn; [|congruence..|].
  - by rewrite A2, A1, B1, app_assoc.
  - intros Hn. by rewrite E2, E1 by congruence.
Qed.

Lemma gives_format e w : gives [e] w (format e w).
Proof. unfold format. split; cbn; destruct (emit e (formatter_ w)); unfold written; cbn; by rewrite ?app_nil_r, ?app_assoc. Qed.

Lemma gives_check_flush es w w' :
  needs_flush w = streams w -> gives es w w' -> gives es w (check_flush available w').
Proof.
  intros Hf [A B C D G]. unfold check_flush. destruct (needs_flush w' && _) eqn:E; [|by split].
  apply andb_true_iff in E as [E _]. split; [|done..|congruence].
  unfold flush, written, do_flush in *; cbn. rewrite C, <- Hf, <- D, E. by rewrite app_nil_r.
Qed.

Lemma gives_call e w : needs_flush w = streams w -> gives [e] w (check_flush available (format e w)).
Proof. intros Hf. apply gives_check_flush; [done|apply gives_format]. Qed.

Lemma gives_fold {A} (step : json_writer -> A -> json_writer) (ev : A -> list sax) l w :
  Forall (fun x => forall w, needs_flush w = streams w -> gives (ev x) w (step w x)) l ->
  needs_flush w = streams w -> gives (concat (map ev l)) w (foldl step w l).
Proof.
  intros Hl. revert w. induction Hl as [|x l Hx Hl IH]; intros w Hf; cbn; [apply gives_nil|].
  pose proof (Hx w Hf) as G. apply (gives_app _ _ _ (step w x)); [done|]. apply IH.
  by rewrite (gives_streams _ _ _ G), (gives_needs_flush _ _ _ G).
Qed.

Lemma flags_kept es w w' : gives es w w' -> needs_flush w = streams w -> needs_flush w' = streams w'.
Proof. intros [] ?. congruence. Qed.

(** A tree is given to the formatter event by event, and nothing of its output is lost. *)
Lemma write_value_gives v : forall w, needs_flush w = streams w -> gives (events v) w (write_value available v w).
Proof.
  induction v as [b|z|z|z|s|s|l IH|l IH] using wvalue_nested_ind; intros w Hf; cbn [write_value events];
    try (by apply gives_call).
  - apply (gives_app [_] (_ ++ [_]) _ (format SStartArray w)); [apply gives_format|].
    pose proof (flags_kept _ _ _ (gives_format SStartArray w) Hf) as Hf'.
    eapply gives_app; [|apply gives_format]. by apply gives_fold.
  - apply (gives_app [_] (_ ++ [_]) _ (format SStartObject w)); [apply gives_format|].
    pose proof (flags_kept _ _ _ (gives_format SStartObject w) Hf) as Hf'.
    eapply gives_app; [|apply gives_format]. apply gives_fold; [|done].
    eapply Forall_impl; [exact IH|]. intros kv Hkv w1 Hf1. cbn beta.
    apply (gives_app [_] (events kv.2) _ (key available (bytes_of_string kv.1.2) w1)); [by apply gives_call|].
    apply Hkv. by eapply flags_kept; [apply gives_call|].
Qed.

Context `{!RapidJsonLaws}.

Lemma slice_text v : writable v = true -> to_bytes available v = Ok (compact v).
Proof.
  intros Hv. destruct (write_tree v Hv) as (f & E & Hc). unfold to_bytes, take_sink, take_json, check_complete.
  pose proof (write_value_gives v (json_slice_writer []) eq_refl) as [W F S N D].
  cbn in F, W. rewrite E in F, W. rewrite F. cbn [snd]. rewrite Hc. cbn [ebind fst snd].
  f_equal. unfold written in W. by rewrite (D eq_refl) in W.
Qed.

Lemma stream_text v out : writable v = true -> to_stream available v out = Ok (out ++ compact v).
Proof.
  intros Hv. destruct (write_tree v Hv) as (f & E & Hc). unfold to_stream, finish, check_complete.
  pose proof (write_value_gives v (json_stream_writer out) eq_refl) as [W F S N D].
  cbn in F, W. rewrite E in F, W. rewrite F. cbn [snd]. rewrite Hc. cbn [ebind]. unfold flush, do_flush; cbn. rewrite S; cbn.
  f_equal. unfold written in W. cbn in W. by rewrite W, app_nil_r.
Qed.
End writer_facts.
End WriterFacts.

(** ** What the reader makes of the text of a tree *)
Module ReaderFacts.
Section reader_facts.
Import JsonReader.
Context `{RJ : RapidJson} `{!RapidJsonLaws}.

(** [rd], at depth [d], takes the text of [v] and nothing after it, with the
    result [x]. *)
Definition reads {A} (d : Z) (rd : reader -> expect (A * reader)) (v : wvalue) (x : expect A) : Prop :=
  forall rest, ends rest = true -> rd (Mk (compact v ++ rest) d) = let* a := x in Ok (a, Mk rest d).

(** The functions of the reader on trees. *)
Definition t_boolean (v : wvalue) : expect bool :=
  match v with WBool b => Ok b | _ => Err (schema_err schema_boolean) end.
Definition t_integer (v : wvalue) : expect Z :=
  match v with
  | WInt z => Ok z
  | WUint z => if imax <? z then Err (schema_err schema_smaller_integer) else Ok z
  | _ => Err (schema_err schema_integer)
  end.
Definition t_unsigned_integer (v : wvalue) : expect Z :=
  match v with
  | WUint z => Ok z
  | WInt z => if z <? 0 then Err (schema_err schema_larger_integer) else Ok z
  | _ => Err (schema_err schema_integer)
  end.
Definition t_real (v : wvalue) : expect Z :=
  match v with WReal z => Ok z | WInt z | WUint z => Ok (to_double z) | _ => Err (schema_err schema_number) end.
Definition t_string (v : wvalue) : expect (list Z) :=
  match v with WStr s => Ok s | WBin s => Ok (to_hex s) | _ => Err (schema_err schema_string) end.
(** A destination of [size] bytes takes the digits of a string without escapes. *)
Definition t_binary_fixed (size : nat) (v : wvalue) : expect (list Z) :=
  match v with
  | WBin s => if bool_decide (size = length s) then Ok s else Err (schema_err schema_fixed_binary)
  | WStr s => match to_buffer size s with Some out => Ok out | None => Err (schema_err schema_fixed_binary) end
  | _ => Err (schema_err schema_string)
  end.
Definition t_binary (v : wvalue) : expect (list Z) :=
  match v with
  | WBin s => Ok s
  | WStr s => match to_buffer (Nat.div (length s) 2) s with Some out => Ok out | None => Err (schema_err schema_binary) end
  | _ => Err (schema_err schema_string)
  end.
Definition plain (v : wvalue) : bool := match v with WStr s => forallb is_plain s | _ => true end.

(** *** Tokens *)

(** The first character of the text of a tree. *)
Definition lead (v : wvalue) (c : Z) : Prop :=
  match v with
  | WStr _ | WBin _ => c = ch_quote
  | WArr _ => c = ch_open_array
  | WObj _ => c = ch_open_object
  | _ => is_digit c = true \/ c = 45 \/ c = 116 \/ c = 102
  end.

Lemma compact_head v : good v = true -> exists c l, compact v = c :: l /\ lead v c.
Proof.
  intros Hv. destruct v as [b|z|z|z|s|s|l|l]; cbn [compact lead];
    try (by apply scalar_token); try (destruct (scalar_string s) as [l E]; by eexists _, _);
    try (destruct (scalar_string (to_hex s)) as [l E]; by eexists _, _); eauto.
Qed.

Lemma digit_range c : is_digit c = true -> 48 <= c <= 57.
Proof. unfold is_digit. rewrite andb_true_iff, !Z.leb_le. lia. Qed.

(** No value begins like whitespace or like the punctuation between values. *)
Lemma lead_token v c : lead v c ->
  is_blank c = false /\ c <> 0 /\ c <> ch_close_array /\ c <> ch_close_object /\ c <> ch_comma.
Proof.
  intros Hc. assert (c = 34 \/ c = 91 \/ c = 123 \/ 48 <= c <= 57 \/ c = 45 \/ c = 116 \/ c = 102) as Hr.
  { destruct v; cbn in Hc; unfold ch_quote, ch_open_array, ch_open_object in Hc; try lia;
      destruct Hc as [Hc|Hc]; try lia; apply digit_range in Hc; lia. }
  unfold is_blank, ch_close_array, ch_close_object, ch_comma; cbn [existsb]. rewrite !orb_false_iff, !Z.eqb_neq. lia.
Qed.

Lemma lead_neq v c e : lead v c -> (forall x, lead v x -> x <> e) -> (c =? e) = false.
Proof. intros Hc He. apply Z.eqb_neq. by apply He. Qed.

Definition is_text (v : wvalue) : bool := match v with WStr _ | WBin _ => true | _ => false end.

Lemma lead_quote v c : lead v c -> (c =? ch_quote) = is_text v.
Proof.
  intros Hc. unfold ch_quote, is_text. destruct v; cbn in Hc; try (subst; done);
    apply Z.eqb_neq; destruct Hc as [Hc|Hc]; try lia; apply digit_range in Hc; lia.
Qed.
Lemma lead_array v c : lead v c -> (c =? ch_open_array) = match v with WArr _ => true | _ => false end.
Proof.
  intros Hc. unfold ch_open_array. destruct v; cbn in Hc; try (subst; done);
    apply Z.eqb_neq; destruct Hc as [Hc|Hc]; try lia; apply digit_range in Hc; lia.
Qed.
Lemma lead_object v c : lead v c -> (c =? ch_open_object) = match v with WObj _ => true | _ => false end.
Proof.
  intros Hc. unfold ch_open_object. destruct v; cbn in Hc; try (subst; done);
    apply Z.eqb_neq; destruct Hc as [Hc|Hc]; try lia; apply digit_range in Hc; lia.
Qed.

Lemma token_cons c l d : is_blank c = false -> get_next_token (Mk (c :: l) d) = (c, Mk (c :: l) d).
Proof. intros Hc. unfold get_next_token, remove_prefix; cbn [remaining depth]. by rewrite skip_none. Qed.

Lemma token_value v rest d : good v = true ->
  exists c l, compact v = c :: l /\ lead v c /\ get_next_token (Mk (compact v ++ rest) d) = (c, Mk (compact v ++ rest) d).
Proof.
  intros Hv. destruct (compact_head v Hv) as (c & l & E & Hc). exists c, l. split_and!; [done..|].
  rewrite E; cbn [app]. apply token_cons. by eapply lead_token.
Qed.

Lemma remove_one c l d : remove_prefix 1 (Mk (c :: l) d) = Mk l d.
Proof. done. Qed.

(** *** Values *)

Lemma read_value v rest d h : good v = true -> ends rest = true ->
  read_next_value h (Mk (compact v ++ rest) d) =
  match handle_all (map as_read (events v)) h with
  | None => Err (expected_error (expected h))
  | Some h' => Ok (h', Mk rest d)
  end.
Proof.
  intros Hv Hr. unfold read_next_value; cbn [remaining]. rewrite parse_tree by done.
  unfold remove_prefix; cbn [remaining depth]. rewrite drop_app_length.
  destruct (handle_all _ h); [done|]. unfold throw_json_error. by rewrite Z.eqb_refl, orb_true_r.
Qed.

(** [skip_value] accepts every event: no depth is counted. *)
Lemma handle_none es v neg : exists h, handle_all es (Sax v None neg) = Some h.
Proof.
  revert v neg. induction es as [|e es IH]; intros v neg; cbn; [by eexists|].
  destruct e; cbn; apply IH.
Qed.

Lemma skip_value_reads v rest d : good v = true -> ends rest = true ->
  skip_value (Mk (compact v ++ rest) d) = Ok (Mk rest d).
Proof.
  intros Hv Hr. unfold skip_value, sax_init. rewrite read_value by done.
  by destruct (handle_none (map as_read (events v)) VUnset false) as [h ->].
Qed.

Lemma boolean_reads d v : good v = true -> reads d boolean v (t_boolean v).
Proof. intros Hv rest Hr. unfold boolean. rewrite read_value by done. destruct v; cbn; try done. by destruct (0 <=? z). Qed.

Lemma integer_reads d v : good v = true -> reads d integer v (t_integer v).
Proof.
  intros Hv rest Hr. unfold integer. rewrite read_value by done. destruct v; cbn; try done; [|by destruct (imax <? z)].
  cbn in Hv. rewrite andb_true_iff, Z.leb_le, Z.ltb_lt in Hv. destruct (0 <=? z) eqn:E; cbn; [|done].
  assert ((imax <? z) = false) as -> by (apply Z.ltb_ge; unfold imax; lia). done.
Qed.

Lemma unsigned_integer_reads d v : good v = true -> reads d unsigned_integer v (t_unsigned_integer v).
Proof.
  intros Hv rest Hr. unfold unsigned_integer. rewrite read_value by done. destruct v; cbn; try done.
  rewrite Z.ltb_antisym. destruct (0 <=? z) eqn:E; cbn; [done|]. by rewrite Z.ltb_antisym, E.
Qed.

Lemma real_reads d v : good v = true -> reads d real v (t_real v).
Proof. intros Hv rest Hr. unfold real. rewrite read_value by done. destruct v; cbn; try done. by destruct (0 <=? z). Qed.

Lemma string_reads d v : good v = true -> reads d string v (t_string v).
Proof. intros Hv rest Hr. unfold string. rewrite read_value by done. destruct v; cbn; try done. by destruct (0 <=? z). Qed.

Lemma memchr_app c l rest : forallb (fun x => negb (x =? c)) l = true -> memchr c (l ++ c :: rest) = Some (l, rest).
Proof.
  induction l as [|x l IH]; cbn; [by rewrite Z.eqb_refl|].
  rewrite andb_true_iff, negb_true_iff. intros [-> Hl]. by rewrite IH.
Qed.

Lemma plain_not_quote s : forallb is_plain s = true -> forallb (fun x => negb (x =? ch_quote)) s = true.
Proof.
  rewrite !forallb_forall. intros Hs x Hx. apply Hs in Hx. unfold ch_quote. apply negb_true_iff, Z.eqb_neq. intros ->.
  vm_compute in Hx. congruence.
Qed.

Lemma next_string_plain s rest d : forallb is_plain s = true ->
  get_next_string (Mk (scalar (SString s) ++ rest) d) = Ok (s, Mk rest d).
Proof.
  intros Hs. unfold get_next_string. rewrite scalar_plain by done. cbn [app].
  rewrite token_cons by done. rewrite Z.eqb_refl. cbn [negb]. rewrite remove_one. cbn [remaining depth].
  rewrite <- app_assoc. cbn [app]. rewrite memchr_app; [done|by apply plain_not_quote].
Qed.

Lemma next_string_reads d v : good v = true -> plain v = true ->
  reads d get_next_string v (t_string v).
Proof.
  intros Hv Hp rest Hr. destruct (is_text v) eqn:Et.
  - destruct v as [| | | |s|s| |]; try done; cbn [compact t_string ebind]; apply next_string_plain; [done|by apply hex_plain].
  - destruct (token_value v rest d Hv) as (c & l & E & Hc & Ht). unfold get_next_string. rewrite Ht.
    rewrite (lead_quote v c Hc), Et. by destruct v.
Qed.

Lemma binary_fixed_reads d n v : good v = true -> plain v = true -> reads d (binary_fixed n) v (t_binary_fixed n v).
Proof.
  intros Hv Hp rest Hr. unfold binary_fixed. rewrite (next_string_reads d v Hv Hp rest Hr).
  destruct v as [| | | |s|s| |]; cbn; try done; [by destruct (to_buffer n s)|]. rewrite hex_roundtrip by done.
  by case_bool_decide.
Qed.

Lemma binary_reads d v : good v = true -> plain v = true -> reads d binary v (t_binary v).
Proof.
  intros Hv Hp rest Hr. unfold binary. rewrite (next_string_reads d v Hv Hp rest Hr).
  destruct v as [| | | |s|s| |]; cbn -[Nat.div]; try done; [by destruct (to_buffer _ s)|]. rewrite hex_length, Nat.mul_comm, Nat.div_mul by done.
  rewrite hex_roundtrip by done. by rewrite bool_decide_true.
Qed.

(** A number in quotes, as [safe_uint64] writes it. *)
Lemma safe_unsigned_reads d n : 0 <= n <= u64_max -> reads d safe_unsigned_integer (WStr (u64toa n)) (Ok n).
Proof.
  intros Hn rest Hr. unfold safe_unsigned_integer. cbn [compact].
  pose proof (u64toa_digits n Hn) as Hd. rewrite scalar_plain.
  2:{ rewrite forallb_forall in *. intros x Hx. unfold is_plain. by rewrite Hd. }
  cbn [app]. rewrite token_cons by done. rewrite Z.eqb_refl. cbn [negb]. rewrite remove_one. cbn [remaining depth].
  rewrite <- app_assoc, <- scalar_uint by done. cbn [app].
  pose proof (unsigned_integer_reads d (WUint n)) as Hu. cbn [good] in Hu. rewrite andb_true_iff, !Z.leb_le in Hu.
  specialize (Hu Hn (ch_quote :: rest) eq_refl). cbn [compact] in Hu. rewrite Hu. cbn [t_unsigned_integer ebind].
  by rewrite token_cons.
Qed.
End reader_facts.
End ReaderFacts.

(** ** Objects and arrays of a tree *)
Module ObjectFacts.
Import JsonReader JsonObject ReaderFacts.
Section keys.
Context `{RJ : RapidJson} `{!RapidJsonLaws}.
Context (fields : list field).

(** The members still to come: with a comma before the first one unless the
    object begins here ([state] is 0). *)
Definition text_from (state : Z) (l : list (Z * String.string * wvalue)) : list Z :=
  if state =? 0 then separated (map member_text l) else after (map member_text l).

Lemma text_from_cons state kv l tail :
  text_from state (kv :: l) ++ tail =
  (if state =? 0 then [] else [ch_comma]) ++
    scalar (SString (bytes_of_string kv.1.2)) ++ ch_colon :: compact kv.2 ++ after (map member_text l) ++ tail.
Proof.
  unfold text_from, separated, after, member_text. destruct (state =? 0); cbn; rewrite <- ?app_assoc; cbn; rewrite <- ?app_assoc; done.
Qed.

Lemma after_ends l c tail : ends (c :: tail) = true -> ends (after l ++ c :: tail) = true.
Proof. intros Hc. by destruct l. Qed.

Lemma text_from_after state l : 0 < state -> text_from state l = after (map member_text l).
Proof. intros Hs. unfold text_from. destruct (Z.eqb_spec state 0); [lia|done]. Qed.

Lemma after_length l : (length l <= length (after l))%nat.
Proof. induction l as [|x l IH]; cbn; [lia|]. rewrite length_app. unfold after in IH. lia. Qed.

(** Every member takes at least one byte. *)
Lemma text_from_length state l : (length l <= length (text_from state l))%nat.
Proof.
  unfold text_from. pose proof (after_length (map member_text l)) as Ha. rewrite length_map in Ha. destruct (state =? 0); [|done].
  destruct l as [|x l]; cbn [length map separated]; [lia|]. pose proof (after_length (map member_text l)) as Hb.
  rewrite length_map in Hb. rewrite length_app. unfold member_text at 1. rewrite length_app. cbn [length]. lia.
Qed.

Lemma bytes_of_string_good s : good (WStr (bytes_of_string s)) = true.
Proof.
  cbn. apply forallb_forall. intros x Hx. unfold bytes_of_string in Hx. apply in_map_iff in Hx as (a & <- & _).
  unfold is_byte_b. pose proof (nat_ascii_bounded a). apply andb_true_iff. rewrite Z.leb_le, Z.ltb_lt. lia.
Qed.

Lemma next_key_end state rest d : next_key state (Mk (ch_close_object :: rest) d) = Ok (None, state, Mk rest d).
Proof. unfold next_key. by rewrite token_cons. Qed.

Lemma next_key_member state kv l tail d : 0 <= state < u64_max ->
  next_key state (Mk (text_from state (kv :: l) ++ tail) d) =
  Ok (Some (bytes_of_string kv.1.2), state + 1, Mk (compact kv.2 ++ after (map member_text l) ++ tail) d).
Proof.
  intros Hs. rewrite text_from_cons. set (tl := compact kv.2 ++ _). pose proof (bytes_of_string_good kv.1.2) as Hk.
  assert (read_next_value (sax_init (Some schema_string)) (Mk (scalar (SString (bytes_of_string kv.1.2)) ++ ch_colon :: tl) d)
    = Ok (Sax (VString (bytes_of_string kv.1.2)) (Some schema_string) false, Mk (ch_colon :: tl) d)) as Hr
    by apply (read_value (WStr (bytes_of_string kv.1.2)) (ch_colon :: tl) d (sax_init (Some schema_string)) Hk eq_refl).
  unfold next_key. destruct (Z.eqb_spec state 0) as [->|Hn]; cbn [app].
  - destruct (scalar_string (bytes_of_string kv.1.2)) as [t E]. rewrite E in *. cbn [app] in *.
    rewrite token_cons by done. cbn [Z.eqb ch_quote ch_close_object negb]. cbn -[read_next_value get_next_token u64].
    rewrite Hr. cbn [ebind]. rewrite token_cons by done. done.
  - rewrite token_cons by done. cbn -[read_next_value get_next_token u64 remove_prefix].
    rewrite remove_one, Hr. cbn [ebind]. rewrite token_cons by done. cbn -[u64]. rewrite u64_small; [done|].
    unfold in_u64. lia.
Qed.

(** The members up to the first one that matches a field. *)
Fixpoint next_known (state : Z) (l : list (Z * String.string * wvalue)) : Z * option (nat * (Z * String.string * wvalue) * list (Z * String.string * wvalue)) :=
  match l with
  | [] => (state, None)
  | kv :: l =>
    match find_key (member_key false kv.1.1 kv.1.2) fields with
    | Some i => (state + 1, Some (i, kv, l))
    | None => next_known (state + 1) l
    end
  end.

Lemma key_loop_text fuel state l rest d :
  0 <= state -> state + Z.of_nat (length l) <= u64_max -> (length l < fuel)%nat ->
  Forall (fun kv => good kv.2 = true) l ->
  key_loop fuel fields state (Mk (text_from state l ++ ch_close_object :: rest) d) =
  match next_known state l with
  | (state, None) => Ok (None, state, Mk rest d)
  | (state, Some (i, kv, l)) =>
    Ok (Some i, state, Mk (compact kv.2 ++ after (map member_text l) ++ ch_close_object :: rest) d)
  end.
Proof.
  revert state fuel. induction l as [|kv l IH]; intros state [|fuel] Hs Hm Hf Hg; try (cbn in Hf; lia); cbn [key_loop next_known].
  - replace (text_from state [] ++ ch_close_object :: rest) with (ch_close_object :: rest)
      by (unfold text_from; by destruct (state =? 0)).
    by rewrite next_key_end.
  - cbn [length] in *. rewrite next_key_member by lia. cbn [ebind]. inversion Hg as [|? ? Hv Hl]; subst.
    unfold member_key. destruct (find_key _ fields) as [i|]; [done|].
    rewrite skip_value_reads by (done || by apply after_ends). cbn [ebind].
    rewrite <- (text_from_after (state + 1)) by lia. apply IH; [lia|lia|lia|done].
Qed.

Lemma next_known_some state l state' i kv l' :
  next_known state l = (state', Some (i, kv, l')) ->
  find_key (member_key false kv.1.1 kv.1.2) fields = Some i /\ state < state' /\ kv ∈ l /\ (forall x, x ∈ l' -> x ∈ l) /\
  state' + Z.of_nat (length l') = state + Z.of_nat (length l) /\ (length l' < length l)%nat.
Proof.
  revert state. induction l as [|x l IH]; intros state; cbn [next_known length]; [done|].
  destruct (find_key (member_key false x.1.1 x.1.2) fields) as [j|] eqn:E.
  - intros Hq. simplify_eq. split_and!; [done|lia|by apply elem_of_cons; left|intros y ?; apply elem_of_cons; by right|lia..].
  - intros (H1 & H2 & H3 & H4 & H5 & H6)%IH.
    split_and!; [done|lia|apply elem_of_cons; by right|intros y ?; apply elem_of_cons; right; auto|lia..].
Qed.

Lemma read_members_known {S} (read : nat -> wvalue -> S -> expect S) state l st :
  efold (read_member fields read) st (members false l) =
  match next_known state l with
  | (_, None) => Ok st
  | (_, Some (i, kv, l)) =>
    let* st := read_member fields read st (member_key false kv.1.1 kv.1.2, kv.2) in
    efold (read_member fields read) st (members false l)
  end.
Proof.
  revert state st. induction l as [|x l IH]; intros state [seen s]; cbn [next_known]; [done|].
  change (members false (x :: l)) with ((member_key false x.1.1 x.1.2, x.2) :: members false l). cbn [efold].
  destruct (find_key _ fields) as [j|] eqn:E; [done|].
  rewrite <- IH. unfold read_member at 1. cbn [fst snd]. by rewrite E.
Qed.
End keys.

Section object_facts.
Context `{RJ : RapidJson} `{!RapidJsonLaws} {S : Type}.
Context (fields : list field) (unpack : nat -> S -> reader -> expect (S * reader)) (reset : nat -> S -> S).
Context (read : nat -> wvalue -> S -> expect S).

Definition required_seen (seen : list nat) : Z := Z.of_nat (length (List.filter (is_required fields) seen)).

Lemma find_key_lt k fs i : find_key k fs = Some i -> (i < length fs)%nat.
Proof.
  revert i. induction fs as [|f fs IH]; intros i; cbn; [done|]. destruct (key_matches k f); [intros [= <-]; lia|].
  destruct (find_key k fs) as [j|]; cbn; [|done]. intros [= <-]. specialize (IH j eq_refl). lia.
Qed.

Lemma read_fields_text d fuel state req seen s l rest :
  0 <= state -> state + Z.of_nat (length l) <= u64_max -> (length l < fuel)%nat ->
  Forall (fun kv => good kv.2 = true) l ->
  (forall kv i s, kv ∈ l -> find_key (member_key false kv.1.1 kv.1.2) fields = Some i ->
    reads d (unpack i s) kv.2 (read i kv.2 s)) ->
  read_fields fields unpack fuel state req seen s (Mk (text_from state l ++ ch_close_object :: rest) d) =
  let* st := efold (read_member fields read) (seen, s) (members false l) in
  Ok (req - (required_seen st.1 - required_seen seen), st.1, st.2, Mk rest d).
Proof.
  revert state req seen s l. induction fuel as [|fuel IH]; intros state req seen s l Hs Hm Hf Hg Hr; [lia|]. cbn [read_fields].
  unfold key. rewrite key_loop_text; [|done..| |done].
  2:{ cbn [remaining]. rewrite length_app. pose proof (text_from_length state l). cbn [length]. lia. }
  rewrite (read_members_known fields read state). destruct (next_known fields state l) as [state' [[[i kv] l']|]] eqn:E.
  2:{ cbn. f_equal. f_equal. f_equal. f_equal. lia. }
  apply next_known_some in E as (Hi & Hlt & Hkv & Hsub & Hlen & Hsh). rewrite Forall_forall in Hg. cbn [ebind].
  unfold try_read, read_member. cbn [fst snd]. rewrite Hi. case_bool_decide as Hseen; [done|].
  rewrite (Hr kv i s Hkv Hi) by (apply after_ends; done). destruct (read i kv.2 s) as [s'|e]; [|done]. cbn [ebind fst snd].
  rewrite <- (text_from_after state' l') by lia. rewrite IH; [|lia|lia|lia| |].
  - destruct (efold _ (i :: seen, s') _) as [st|]; [|done]. cbn [ebind]. f_equal. f_equal. f_equal. f_equal.
    unfold required_seen. cbn [List.filter]. destruct (is_required fields i); cbn [length]; lia.
  - apply Forall_forall. eauto.
  - eauto.
Qed.

Lemma read_members_seen seen s l st :
  efold (read_member fields read) (seen, s) l = Ok st -> NoDup seen /\ Forall (fun i => i < length fields)%nat seen ->
  NoDup st.1 /\ Forall (fun i => i < length fields)%nat st.1.
Proof.
  revert seen s. induction l as [|kv l IH]; intros seen s; cbn [efold]; [by intros [= <-]|]. unfold read_member at 1.
  destruct (find_key kv.1 fields) as [i|] eqn:Hi; [|by apply IH]. case_bool_decide as Hs; [done|].
  destruct (read i kv.2 s) as [s'|]; [|done]. cbn [ebind]. intros He [Hn Hl]. eapply IH; [exact He|].
  split; constructor; try done. by eapply find_key_lt.
Qed.

Lemma seq_lookup_zip {A} (l : list A) n (p : nat * A) : p ∈ zip (seq n (length l)) l <-> exists j, p = ((n + j)%nat, p.2) /\ l !! j = Some p.2.
Proof.
  revert n. induction l as [|x l IH]; intros n; cbn.
  - split; [by intros ?%elem_of_nil|intros (j & _ & ?); done].
  - rewrite elem_of_cons, IH. destruct p as [i y]; cbn. split.
    + intros [[= -> ->]|(j & [= ->] & Hj)]; [exists O|exists (Datatypes.S j)]; cbn; split; try done; f_equal; lia.
    + intros ([|j] & [= ->] & Hj); cbn in Hj; [left; injection Hj as ->; f_equal; lia|right; exists j; split; [f_equal; lia|done]].
Qed.

Lemma missing_spec seen : missing fields seen = false <-> forall i, is_required fields i = true -> i ∈ seen.
Proof.
  unfold missing. rewrite <- not_true_iff_false, existsb_exists. split.
  - intros Hn i Hi. destruct (decide (i ∈ seen)) as [|Hs]; [done|]. exfalso. apply Hn. unfold is_required in Hi.
    destruct (fields !! i) as [f|] eqn:Hf; [|done]. exists (i, f). split; cbn; [|by rewrite Hi, bool_decide_false].
    apply list_elem_of_In, seq_lookup_zip. by exists i.
  - intros Ha ([i f] & Hp & Hb). apply list_elem_of_In, seq_lookup_zip in Hp as (j & [= ->] & Hf). cbn in *.
    apply andb_true_iff in Hb as [Hb1 Hb2]. specialize (Ha j). unfold is_required in Ha. rewrite Hf in Ha.
    rewrite bool_decide_true in Hb2 by auto. done.
Qed.

Lemma required_fields_seq : required_fields fields = required_seen (seq 0 (length fields)).
Proof.
  unfold required_fields, required_seen. f_equal. assert (forall l n,
    (forall j, is_required fields (n + j) = match l !! j with Some f => f_required f | None => false end) ->
    length (List.filter f_required l) = length (List.filter (is_required fields) (seq n (length l)))) as Hg; [|by apply Hg].
  induction l as [|f l IH]; intros n Hl; cbn; [done|]. pose proof (Hl O) as H0. rewrite Nat.add_0_r in H0. rewrite H0. cbn.
  assert (length (List.filter f_required l) = length (List.filter (is_required fields) (seq (Datatypes.S n) (length l)))) as E.
  { apply IH. intros j. replace (Datatypes.S n + j)%nat with (n + Datatypes.S j)%nat by lia. exact (Hl (Datatypes.S j)). }
  destruct (f_required f); cbn; by rewrite E.
Qed.

(** The count of the code is zero exactly when no required field is missing. *)
Lemma required_missing seen : NoDup seen -> Forall (fun i => i < length fields)%nat seen ->
  negb (required_fields fields - required_seen seen =? 0) = missing fields seen.
Proof.
  intros Hn Hl. rewrite required_fields_seq. unfold required_seen. rewrite Forall_forall in Hl.
  set (p := is_required fields). assert (forall l : list nat, NoDup l -> List.NoDup (List.filter p l)) as Hnd.
  { intros l ?. by apply List.NoDup_filter, NoDup_ListNoDup. }
  assert (incl (List.filter p seen) (List.filter p (seq 0 (length fields)))) as Hin.
  { intros i. rewrite !filter_In, <- !list_elem_of_In, elem_of_seq. intros [Hi Hp]. apply Hl in Hi. split; [lia|done]. }
  pose proof (NoDup_incl_length (Hnd seen Hn) Hin) as Hle. destruct (missing fields seen) eqn:Hm.
  - apply negb_true_iff, Z.eqb_neq. intros Heq. rewrite <- not_false_iff_true in Hm. apply Hm, missing_spec. intros i Hi.
    assert (incl (List.filter p (seq 0 (length fields))) (List.filter p seen)) as Hback
      by (apply NoDup_length_incl; [by apply Hnd|lia|done]).
    assert (In i (List.filter p (seq 0 (length fields)))) as Hs.
    { apply filter_In. split; [|done]. apply in_seq. unfold is_required in Hi. destruct (fields !! i) eqn:E; [|done].
      apply lookup_lt_Some in E. lia. }
    apply Hback, filter_In in Hs as [Hs _]. by apply list_elem_of_In.
  - rewrite missing_spec in Hm. apply negb_false_iff, Z.eqb_eq.
    assert (incl (List.filter p (seq 0 (length fields))) (List.filter p seen)) as Hback.
    { intros i. rewrite !filter_In. intros [_ Hp]. split; [|done]. apply list_elem_of_In. by apply Hm. }
    pose proof (NoDup_incl_length (Hnd _ (NoDup_seq 0 (length fields))) Hback). lia.
Qed.

(** What [wire_read::object] makes of a value at a depth. *)
Definition t_object (d : Z) (s : S) (v : wvalue) : expect S :=
  match v with
  | WObj l => if d + 1 =? max_read_depth then Err (schema_err schema_maximum_depth) else object_tree fields reset read l s
  | _ => Err (schema_err schema_object)
  end.

Definition few (v : wvalue) : bool := match v with WObj l => Z.of_nat (length l) <=? u64_max | _ => true end.

Definition fields_read (d : Z) (v : wvalue) : Prop :=
  match v with
  | WObj l => forall kv i s, kv ∈ l -> find_key (member_key false kv.1.1 kv.1.2) fields = Some i ->
      reads d (unpack i s) kv.2 (read i kv.2 s)
  | _ => True
  end.

(** The end of an object is its last character: anything may follow. *)
Lemma object_reads_before d s l rest : 0 <= d -> good (WObj l) = true -> few (WObj l) = true -> fields_read (d + 1) (WObj l) ->
  object fields unpack reset s (Mk (compact (WObj l) ++ rest) d) = let* a := t_object d s (WObj l) in Ok (a, Mk rest d).
Proof.
  intros Hd Hv Hf Hr. unfold object, start_object.
  destruct (token_value _ rest d Hv) as (c & t & E & Hc & Ht). rewrite Ht, (lead_object _ c Hc). cbn [negb t_object]. change (compact (WObj l)) with
    (ch_open_object :: text_from 0 l ++ [ch_close_object]). cbn [app]. rewrite remove_one.
  unfold increment_depth. cbn [depth remaining]. destruct (d + 1 =? max_read_depth) eqn:E100; [done|]. cbn [ebind].
  rewrite <- app_assoc. cbn [app]. cbn in Hf, Hv. rewrite Z.leb_le in Hf. rewrite (read_fields_text (d + 1)); [|lia|lia| | |exact Hr].
  2:{ cbn [remaining]. rewrite length_app. pose proof (text_from_length 0 l). lia. }
  2:{ apply Forall_forall. intros kv Hkv. apply list_elem_of_In in Hkv. rewrite forallb_forall in Hv. by apply Hv. }
  unfold object_tree, Wire.read_object. destruct (efold _ _ _) as [st|e] eqn:Ef; [|done]. cbn [ebind].
  apply read_members_seen in Ef as [Hn Hl]; [|split; constructor].
  unfold required_seen at 2. cbn [List.filter length]. rewrite Z.sub_0_r, required_missing by done.
  destruct (missing fields st.1); [done|]. cbn [ebind]. unfold end_object, decrement_depth. cbn [depth remaining].
  destruct (Z.eqb_spec (d + 1) 0); [lia|]. cbn [ebind]. by replace (d + 1 - 1) with d by lia.
Qed.

Lemma object_reads d s v : 0 <= d -> good v = true -> few v = true -> fields_read (d + 1) v ->
  reads d (object fields unpack reset s) v (t_object d s v).
Proof.
  intros Hd Hv Hf Hr rest He. destruct (match v with WObj _ => true | _ => false end) eqn:Eo.
  { destruct v as [| | | | | | |l]; try done. by apply object_reads_before. }
  unfold object, start_object. destruct (token_value v rest d Hv) as (c & t & E & Hc & Ht). rewrite Ht, (lead_object v c Hc).
  by destruct v.
Qed.
End object_facts.
End ObjectFacts.

Module ArrayFacts.
Import JsonReader JsonObject ReaderFacts ObjectFacts.
Section array_facts.
Context `{RJ : RapidJson} `{!RapidJsonLaws} {A : Type}.
Context (read : reader -> expect (A * reader)) (insert : A -> list A -> list A).
Context (min_element_size max_element_count : Z) (t_read : wvalue -> expect A).
(** [emplace_back], or [emplace_hint] which may find an equal element. *)
Context (Hinsert : forall x l, (0 < length (insert x l) <= S (length l))%nat).
Context (Hmin : 0 <= min_element_size) (Hmax : 0 <= max_element_count).

(** One element on the tree layer. *)
Definition t_element (dest : list A) (v : wvalue) : expect (list A) :=
  if max_element_count <=? Z.of_nat (length dest) then Err (schema_err schema_array_max_element)
  else let* x := t_read v in Ok (insert x dest).

Definition array_from (count : Z) (l : list wvalue) : list Z :=
  if count =? 0 then separated (map compact l) else after (map compact l).

Lemma array_from_cons count v l tail :
  array_from count (v :: l) ++ tail =
  (if count =? 0 then [] else [ch_comma]) ++ compact v ++ after (map compact l) ++ tail.
Proof. unfold array_from, separated, after. destruct (count =? 0); cbn; by rewrite <- ?app_assoc. Qed.

Lemma array_from_length count l : (length l <= length (array_from count l) + 1)%nat.
Proof.
  unfold array_from. pose proof (after_length (map compact l)) as Ha. rewrite length_map in Ha. destruct (count =? 0); [|lia].
  destruct l as [|v l]; cbn [length map separated]; [lia|]. pose proof (after_length (map compact l)) as Hb.
  rewrite length_map in Hb. rewrite length_app. lia.
Qed.

Lemma is_array_end_more count v l tail d : good v = true ->
  is_array_end count (Mk (array_from count (v :: l) ++ tail) d) = Ok (false, Mk (compact v ++ after (map compact l) ++ tail) d).
Proof.
  intros Hv. rewrite array_from_cons. set (tl := after _ ++ tail).
  destruct (token_value v tl d Hv) as (c & t & E & Hc & Ht). apply lead_token in Hc as (_ & H0 & H1 & _ & _).
  unfold is_array_end. destruct (Z.eqb_spec count 0) as [Hn|Hn]; cbn [app].
  - rewrite Ht. rewrite (proj2 (Z.eqb_neq c 0)), (proj2 (Z.eqb_neq c ch_close_array)) by done. by subst count.
  - rewrite token_cons by done. cbn -[remove_prefix]. by rewrite remove_one.
Qed.

Lemma is_array_end_done count rest d :
  is_array_end count (Mk (array_from count [] ++ ch_close_array :: rest) d) = Ok (true, Mk rest d).
Proof.
  replace (array_from count [] ++ ch_close_array :: rest) with (ch_close_array :: rest) by (unfold array_from; by destruct (count =? 0)).
  unfold is_array_end. by rewrite token_cons.
Qed.

(** The count after [k] elements; it is 0 before the first one only. *)
Lemma count_zero k : 0 <= k <= u64_max -> (u64 (- k) =? 0) = (k =? 0).
Proof.
  intros Hk. unfold u64, u64_max in *. destruct (Z.eqb_spec k 0) as [->|Hn]; [done|]. apply Z.eqb_neq.
  rewrite Z.mod_opp_l_nz; rewrite ?(Z.mod_small k); lia.
Qed.

(** Every element took its share of the [start] bytes that were left at the
    start of the array. *)
Lemma array_loop_text fuel start k dest l rest d :
  (length l < fuel)%nat -> Forall (fun v => good v = true) l ->
  0 <= k -> k + Z.of_nat (length l) <= u64_max -> Z.of_nat (length dest) <= k ->
  Forall (fun v => min_element_size <= Z.of_nat (length (compact v))) l ->
  (forall v, v ∈ l -> reads d read v (t_read v)) ->
  k * min_element_size + Z.of_nat (length (array_from (u64 (- k)) l ++ ch_close_array :: rest)) <= start ->
  array_loop read insert min_element_size max_element_count fuel start false (u64 (- k)) dest
    (Mk (array_from (u64 (- k)) l ++ ch_close_array :: rest) d) =
  let* dest := efold t_element dest l in Ok (dest, Mk rest d).
Proof.
  revert fuel k dest. induction l as [|v l IH]; intros [|fuel] k dest Hf Hg Hk Hm Hd He Hr Hs; try (cbn in Hf; lia).
  - cbn [array_loop]. by rewrite is_array_end_done.
  - inversion Hg as [|? ? Hv Hl]; inversion He as [|? ? Hv1 Hl1]; subst. cbn [length] in *. cbn [array_loop efold].
    rewrite is_array_end_more by done. cbn [ebind]. unfold t_element at 1. destruct (max_element_count <=? _); [done|].
    rewrite (Hr v (list_elem_of_here v l)) by by apply after_ends. destruct (t_read v) as [x|e]; [|done]. cbn [ebind].
    pose proof (Hinsert x dest) as Hins. rewrite array_from_cons, !length_app in Hs.
    assert (((start - left (Mk (after (map compact l) ++ ch_close_array :: rest) d)) / Z.of_nat (length (insert x dest))
      <? min_element_size) = false) as ->.
    { apply Z.ltb_ge, Z.div_le_lower_bound; [lia|]. unfold left. cbn [remaining]. rewrite length_app.
      assert (Z.of_nat (length (insert x dest)) * min_element_size <= (k + 1) * min_element_size)
        by (apply Z.mul_le_mono_nonneg_r; lia). destruct (u64 (- k) =? 0); cbn [length] in *; lia. }
    cbn [andb]. replace (u64 (u64 (- k) - 1)) with (u64 (- (k + 1))) by (rewrite u64_sub_l; f_equal; lia).
    assert (array_from (u64 (- (k + 1))) l = after (map compact l)) as Ha.
    { unfold array_from. rewrite count_zero by lia. by destruct (Z.eqb_spec (k + 1) 0); [lia|]. }
    rewrite <- Ha. apply IH; try done; try lia; [intros y Hy; apply Hr, elem_of_cons; by right|].
    rewrite Ha, length_app. destruct (u64 (- k) =? 0); cbn [length] in *; lia.
Qed.

Definition t_array (d : Z) (v : wvalue) : expect (list A) :=
  match v with
  | WArr l => if d + 1 =? max_read_depth then Err (schema_err schema_maximum_depth) else efold t_element [] l
  | _ => Err (schema_err schema_array)
  end.

Definition elements_read (d : Z) (v : wvalue) : Prop :=
  match v with
  | WArr l => Z.of_nat (length l) <= u64_max /\ Forall (fun v => min_element_size <= Z.of_nat (length (compact v))) l /\
      (forall x, x ∈ l -> reads d read x (t_read x))
  | _ => True
  end.

Lemma array_reads d v : 0 <= d -> good v = true -> elements_read (d + 1) v ->
  reads d (array_unchecked read insert min_element_size max_element_count) v (t_array d v).
Proof.
  intros Hd Hv Hr rest He. unfold array_unchecked, start_array.
  destruct (token_value v rest d Hv) as (c & t & E & Hc & Ht). rewrite Ht, (lead_array v c Hc).
  destruct v as [| | | | | |l|]; try done. cbn [negb t_array]. destruct Hr as (Hn & Hm & Hr).
  change (compact (WArr l)) with (ch_open_array :: array_from 0 l ++ [ch_close_array]). cbn [app]. rewrite remove_one.
  unfold increment_depth. cbn [depth remaining]. destruct (d + 1 =? max_read_depth) eqn:E100; [done|]. cbn [ebind].
  rewrite (proj2 (Z.ltb_ge max_element_count 0)) by lia. rewrite (proj2 (Z.ltb_ge (_ / _) 0)) by (apply Z.div_pos; unfold left; lia).
  rewrite <- app_assoc. cbn [app negb]. change (negb (0 =? 0)) with false. set (text := array_from 0 l ++ ch_close_array :: rest).
  pose proof (array_loop_text (S (length text)) (Z.of_nat (length text)) 0 [] l rest (d + 1)) as Hl.
  change (u64 (- 0)) with 0 in Hl. fold text in Hl. unfold left. cbn [remaining]. rewrite Hl; try done; try lia.
  2:{ unfold text. rewrite length_app. pose proof (array_from_length 0 l). cbn [length]. lia. }
  2:{ apply Forall_forall. intros x Hx. apply list_elem_of_In in Hx. cbn in Hv. rewrite forallb_forall in Hv. by apply Hv. }
  destruct (efold _ _ _) as [dest|e]; [|done]. cbn [ebind snd fst]. unfold end_array, decrement_depth. cbn [depth remaining].
  destruct (Z.eqb_spec (d + 1) 0); [lia|]. cbn [ebind]. by replace (d + 1 - 1) with d by lia.
Qed.
End array_facts.
End ArrayFacts.

(** ** The loop of [key] ends *)
Module KeyFacts.
Import JsonReader.
Section key_facts.
Context `{RJ : RapidJson}.

Lemma token_left r c r' : get_next_token r = (c, r') -> (length (remaining r') <= length (remaining r))%nat.
Proof. unfold get_next_token. intros [= <- <-]. cbn. rewrite length_drop. lia. Qed.

Lemma token_taken r c r' : get_next_token r = (c, r') -> c <> 0 ->
  (length (remaining (remove_prefix 1 r')) < length (remaining r))%nat.
Proof.
  unfold get_next_token. intros [= <- <-] Hc. cbn [remaining remove_prefix] in *. rewrite !length_drop.
  destruct (drop _ (remaining r)) eqn:E; [done|]. apply (f_equal length) in E. rewrite length_drop in E. cbn in E. lia.
Qed.

Lemma read_left h r h' r' : read_next_value h r = Ok (h', r') -> (length (remaining r') <= length (remaining r))%nat.
Proof.
  unfold read_next_value. destruct (Parse (remaining r)) as [es fin]. destruct (handle_all es h); [|done].
  destruct fin; [done|]. intros [= <- <-]. cbn. rewrite length_drop. lia.
Qed.

Lemma skip_left r r' : skip_value r = Ok r' -> (length (remaining r') <= length (remaining r))%nat.
Proof. unfold skip_value. intros Hs. inv_ok Hs. destruct r0 as [h r0]. injection Hs as <-. by eapply read_left. Qed.

Lemma next_key_taken state r name state' r' : next_key state r = Ok (Some name, state', r') ->
  (length (remaining r') < length (remaining r))%nat.
Proof.
  unfold next_key. destruct (get_next_token r) as [c r1] eqn:E1. destruct (c =? 0) eqn:E0; [done|].
  destruct (c =? ch_close_object); [done|]. intros Hk. inv_ok Hk. inv_ok Hk. destruct r2 as [h r2].
  destruct (get_next_token r2) as [c2 r3] eqn:E3. destruct (Z.eqb_spec c2 ch_colon) as [->|]; [|done]. injection Hk as _ _ <-.
  apply token_taken in E3; [|done]. apply read_left in Hr0. apply token_left in E1.
  assert (length (remaining r0) <= length (remaining r1))%nat; [|lia].
  destruct (negb (state =? 0)); [|injection Hr as <-; lia]. destruct (negb (c =? ch_comma)); [done|]. injection Hr as <-.
  cbn. rewrite length_drop. lia.
Qed.

(** More fuel than bytes changes nothing: the bound of [key] is never hit. *)
Lemma key_fuel fuel map state r : (length (remaining r) < fuel)%nat -> key_loop fuel map state r = key map state r.
Proof.
  unfold key. remember (S (length (remaining r))) as n eqn:Hn. intros Hf. assert (length (remaining r) < n)%nat as Hf2 by lia.
  clear Hn. revert fuel state r Hf Hf2. induction n as [|n IH]; intros [|fuel] state r Hf Hf2; try lia. cbn [key_loop].
  destruct (next_key state r) as [[[[name|] state'] r1]|e] eqn:E; cbn [ebind]; [|done..].
  destruct (find_key _ map); [done|]. destruct (skip_value r1) as [r2|] eqn:Es; cbn [ebind]; [|done].
  apply next_key_taken in E. apply skip_left in Es. apply IH; lia.
Qed.
End key_facts.
End KeyFacts.

(** ** Readings: a [read_bytes] function with its meaning on trees

    [read_bytes] is the code's function over the tokens of the reader;
    [of_tree] says what it makes of a tree whose text starts at a depth, for
    the trees in [fits]. [Faithful] ties the two together; its instances follow
    the shape of the function. *)
Module Readings.
Import JsonReader JsonObject ReaderFacts ObjectFacts ArrayFacts.

(** [wire::integer::cast_unsigned], [cast_signed] and their
    [throw_exception]. *)
Definition cast_unsigned (max source : Z) : expect Z :=
  if max <? source then Err (schema_err schema_smaller_integer) else Ok source.
Definition cast_signed (min max source : Z) : expect Z :=
  if (source <? min) || (max <? source) then
    if source <? 0 then Err (schema_err schema_larger_integer) else Err (schema_err schema_smaller_integer)
  else Ok source.

Section readings.
Context `{RJ : RapidJson}.

Record reading (A : Type) := Reading {
  read_bytes : reader -> expect (A * reader);
  of_tree : Z -> wvalue -> expect A;
  fits : wvalue -> Prop
}.
Arguments Reading {A} _ _ _.
Arguments read_bytes {A} _ _.
Arguments of_tree {A} _ _ _.
Arguments fits {A} _ _.

Class Faithful {A} (R : reading A) : Prop :=
  faithful d v : 0 <= d -> good v = true -> fits R v -> reads d (read_bytes R) v (of_tree R d v).

(** *** Values *)
Definition read_bool : reading bool := Reading boolean (fun _ => t_boolean) (fun _ => True).
Definition read_real : reading Z := Reading real (fun _ => t_real) (fun _ => True).
Definition read_string : reading (list Z) := Reading string (fun _ => t_string) (fun _ => True).

(** [f] is applied to the value that was read and may throw. *)
Definition converted {A B} (R : reading A) (f : A -> expect B) : reading B :=
  Reading (fun r => let* ar := read_bytes R r in let* b := f ar.1 in Ok (b, ar.2))
    (fun d v => let* a := of_tree R d v in f a) (fits R).

Definition read_unsigned (max : Z) : reading Z :=
  converted (Reading unsigned_integer (fun _ => t_unsigned_integer) (fun _ => True)) (cast_unsigned max).
Definition read_signed (min max : Z) : reading Z :=
  converted (Reading integer (fun _ => t_integer) (fun _ => True)) (cast_signed min max).

(** A type that is a blob of [n] bytes. *)
Definition read_blob (n : nat) : reading Z :=
  converted (Reading (binary_fixed n) (fun _ => t_binary_fixed n) (fun v => plain v = true)) (fun s => Ok (be_decode s)).

(** The unsigned integer between quotes, up to the closing one. *)
Definition safe_of_tree (v : wvalue) : expect Z :=
  match v with
  | WStr s | WBin s => let* ur := unsigned_integer (Mk (s ++ [ch_quote]) 0) in Ok ur.1
  | _ => Err (schema_err schema_string)
  end.
Definition safe_fits (v : wvalue) : Prop :=
  match v with WStr s => exists n, in_u64 n /\ s = u64toa n | WBin _ => False | _ => True end.
Definition read_safe_uint64 : reading Z :=
  converted (Reading safe_unsigned_integer (fun _ => safe_of_tree) safe_fits) (cast_unsigned u64_max).

(** *** Arrays *)

(** [wire_read::array] into a [std::vector]. *)
Definition read_vector {A} (R : reading A) (min_element_size max_element_count : Z) : reading (list A) :=
  Reading (array_unchecked (read_bytes R) (fun x l => l ++ [x]) min_element_size max_element_count)
    (fun d => t_array (fun x l => l ++ [x]) max_element_count (of_tree R (d + 1)) d)
    (fun v => match v with
              | WArr l => Z.of_nat (length l) <= u64_max /\
                  Forall (fun v => min_element_size <= Z.of_nat (length (compact v))) l /\ Forall (fits R) l
              | _ => True
              end).

(** *** Objects *)

(** A field of the object, with the place of its value in the destination. *)
Record slot (S : Type) := Slot {
  s_field : field;
  s_unpack : S -> reader -> expect (S * reader);
  s_tree : Z -> S -> wvalue -> expect S;
  s_fits : wvalue -> Prop;
  s_reset : S -> S
}.
Arguments Slot {S} _ _ _ _ _.
Arguments s_field {S} _.
Arguments s_unpack {S} _ _ _.
Arguments s_tree {S} _ _ _ _.
Arguments s_fits {S} _ _.
Arguments s_reset {S} _ _.

Section slots.
Context {A S : Type}.
Definition slot_of (required : bool) (name : String.string) (R : reading A) (set : A -> S -> S) (reset : S -> S) : slot S :=
  Slot (Field 0 name required) (fun s r => let* ar := read_bytes R r in Ok (set ar.1 s, ar.2))
    (fun d s v => let* a := of_tree R d v in Ok (set a s)) (fits R) reset.
(** [WIRE_FIELD] of a value, of a container (optional when it is empty),
    [WIRE_FIELD_DEFAULTED] and [WIRE_OPTIONAL_FIELD]. *)
Definition required (name : String.string) (R : reading A) (set : A -> S -> S) : slot S := slot_of true name R set (fun s => s).
Definition cleared (name : String.string) (R : reading A) (set : A -> S -> S) (empty : A) : slot S := slot_of false name R set (set empty).
Definition defaulted (name : String.string) (R : reading A) (set : A -> S -> S) (default_ : A) : slot S := slot_of false name R set (set default_).
Definition optional (name : String.string) (R : reading A) (set : option A -> S -> S) : slot S :=
  slot_of false name R (fun a => set (Some a)) (set None).
End slots.

Section slot_object.
Context {S : Type} (slots : list (slot S)).
Definition fields_of : list field := map s_field slots.
(** The [default] of the switch in [wire_read::object]. *)
Definition bad_map {A} : expect A := Err (schema_err schema_invalid_key).
Definition unpack_of (i : nat) (s : S) (r : reader) : expect (S * reader) :=
  match slots !! i with Some sl => s_unpack sl s r | None => bad_map end.
Definition reset_of (i : nat) (s : S) : S := match slots !! i with Some sl => s_reset sl s | None => s end.
Definition tree_of (d : Z) (i : nat) (v : wvalue) (s : S) : expect S :=
  match slots !! i with Some sl => s_tree sl d s v | None => bad_map end.

Definition read_slots (s : S) : reading S :=
  Reading (object fields_of unpack_of reset_of s)
    (fun d => t_object fields_of reset_of (tree_of (d + 1)) d s)
    (fun v => few v = true /\
       match v with
       | WObj l => forall kv i sl, kv ∈ l -> find_key (member_key false kv.1.1 kv.1.2) fields_of = Some i ->
           slots !! i = Some sl -> s_fits sl kv.2
       | _ => True
       end).
End slot_object.

(** [std::array<T, 2>] (adapted/array.h): exactly two elements. *)
Section std_array.
Context {A : Type} (R : reading A).
Definition read_array2 (r : reader) : expect ((A * A) * reader) :=
  let* cr := start_array r in
  let '(count, r) := cr in
  let json := count =? 0 in
  if negb json && negb (count =? 2) then Err (schema_err schema_array)
  else
    let* er := if json then is_array_end count r else Ok (false, r) in
    if er.1 then Err (schema_err schema_array)
    else
      let* xr := read_bytes R er.2 in
      let count := u64 (count - 1) in
      let* er := if json then is_array_end count xr.2 else Ok (false, xr.2) in
      if er.1 then Err (schema_err schema_array)
      else
        let* yr := read_bytes R er.2 in
        let count := u64 (count - 1) in
        let* er := is_array_end count yr.2 in
        if negb er.1 then Err (schema_err schema_array)
        else let* r := end_array er.2 in Ok ((xr.1, yr.1), r).

Definition t_array2 (d : Z) (v : wvalue) : expect (A * A) :=
  match v with
  | WArr l =>
    if d + 1 =? max_read_depth then Err (schema_err schema_maximum_depth)
    else
      match l with
      | [] => Err (schema_err schema_array)
      | x :: l =>
        let* a := of_tree R (d + 1) x in
        match l with
        | [] => Err (schema_err schema_array)
        | y :: l => let* b := of_tree R (d + 1) y in match l with [] => Ok (a, b) | _ => Err (schema_err schema_array) end
        end
      end
  | _ => Err (schema_err schema_array)
  end.
Definition read_pair : reading (A * A) :=
  Reading read_array2 t_array2 (fun v => match v with WArr l => Forall (fits R) l | _ => True end).
End std_array.

(** *** Instances *)
Context `{!RapidJsonLaws}.

#[export] Instance bool_faithful : Faithful read_bool.
Proof. intros d v _ Hv _. by apply boolean_reads. Qed.
#[export] Instance real_faithful : Faithful read_real.
Proof. intros d v _ Hv _. by apply real_reads. Qed.
#[export] Instance string_faithful : Faithful read_string.
Proof. intros d v _ Hv _. by apply string_reads. Qed.

#[export] Instance converted_faithful {A B} (R : reading A) (f : A -> expect B) : Faithful R -> Faithful (converted R f).
Proof.
  intros HR d v Hd Hv Hf rest Hr. cbn. rewrite (HR d v Hd Hv Hf rest Hr). destruct (of_tree R d v) as [a|e]; [|done]. cbn [ebind fst snd].
  by destruct (f a).
Qed.

#[export] Instance unsigned_faithful max : Faithful (read_unsigned max).
Proof. apply converted_faithful. intros d v _ Hv _. by apply unsigned_integer_reads. Qed.
#[export] Instance signed_faithful min max : Faithful (read_signed min max).
Proof. apply converted_faithful. intros d v _ Hv _. by apply integer_reads. Qed.
#[export] Instance blob_faithful n : Faithful (read_blob n).
Proof. apply converted_faithful. intros d v _ Hv Hp. by apply binary_fixed_reads. Qed.

Lemma safe_tree n : in_u64 n -> safe_of_tree (WStr (u64toa n)) = Ok n.
Proof.
  intros Hn. unfold safe_of_tree. pose proof (unsigned_integer_reads 0 (WUint n)) as Hu. cbn [good] in Hu.
  rewrite andb_true_iff, !Z.leb_le in Hu. specialize (Hu Hn [ch_quote] eq_refl). cbn [compact] in Hu.
  rewrite scalar_uint in Hu by exact Hn. by rewrite Hu.
Qed.
#[export] Instance safe_faithful : Faithful read_safe_uint64.
Proof.
  apply converted_faithful. intros d v _ Hv Hf. cbn [read_bytes of_tree]. destruct (is_text v) eqn:Et.
  - destruct v as [| | | |s|s| |]; try done. destruct Hf as (n & Hn & ->). rewrite safe_tree by done. by apply safe_unsigned_reads.
  - intros rest Hr. destruct (token_value v rest d Hv) as (c & l & E & Hc & Ht). unfold safe_unsigned_integer. rewrite Ht.
    rewrite (lead_quote v c Hc), Et. by destruct v.
Qed.

#[export] Instance vector_faithful {A} (R : reading A) min max : 0 <= min -> 0 <= max -> Faithful R -> Faithful (read_vector R min max).
Proof.
  intros Hmin Hmax HR d v Hd Hv Hf. cbn [read_bytes of_tree read_vector]. apply array_reads; try done.
  - intros x l. rewrite length_app. cbn. lia.
  - destruct v as [| | | | | |l|]; try done. destruct Hf as (Hn & Hm & Hl). split_and!; [done..|]. intros x Hx.
    cbn in Hv. rewrite forallb_forall in Hv. rewrite Forall_forall in Hl. apply HR; [lia| |by apply Hl].
    apply Hv. by apply list_elem_of_In.
Qed.

Definition slot_faithful {S} (sl : slot S) : Prop :=
  forall d v s, 0 <= d -> good v = true -> s_fits sl v -> reads d (s_unpack sl s) v (s_tree sl d s v).

Lemma slot_of_faithful {A S} b name (R : reading A) `{!Faithful R} (set : A -> S -> S) reset : slot_faithful (slot_of b name R set reset).
Proof.
  intros d v s Hd Hv Hf rest Hr. cbn. rewrite (faithful d v Hd Hv Hf rest Hr). destruct (of_tree R d v); done.
Qed.

Lemma slots_fields_read {S} (slots : list (slot S)) d v s : Forall slot_faithful slots -> 0 <= d -> good v = true ->
  fits (read_slots slots s) v -> fields_read (fields_of slots) (unpack_of slots) (tree_of slots (d + 1)) (d + 1) v.
Proof.
  intros Hs Hd Hv [Hfew Hf]. destruct v as [| | | | | | |l]; try done. intros kv i s' Hkv Hi. unfold unpack_of, tree_of.
  destruct (slots !! i) as [sl|] eqn:Hsl.
  - rewrite Forall_forall in Hs. apply (Hs sl); [by eapply list_elem_of_lookup_2|lia| |by eapply Hf].
    cbn in Hv. rewrite forallb_forall in Hv. apply Hv. by apply list_elem_of_In.
  - exfalso. apply find_key_lt in Hi. unfold fields_of in Hi. rewrite length_map in Hi. apply lookup_ge_None in Hsl. lia.
Qed.

Lemma slots_faithful {S} (slots : list (slot S)) s : Forall slot_faithful slots -> Faithful (read_slots slots s).
Proof.
  intros Hs d v Hd Hv Hf. cbn [read_bytes of_tree read_slots]. apply object_reads; [done|done|apply Hf|]. by eapply slots_fields_read.
Qed.

#[export] Instance pair_faithful {A} (R : reading A) : Faithful R -> Faithful (read_pair R).
Proof.
  intros HR d v Hd Hv Hf rest Hr. cbn [read_bytes of_tree read_pair]. unfold read_array2, start_array.
  destruct (token_value v rest d Hv) as (c & t & E & Hc & Ht). rewrite Ht, (lead_array v c Hc).
  destruct v as [| | | | | |l|]; try done. cbn [negb t_array2]. change (compact (WArr l)) with (ch_open_array :: array_from 0 l ++ [ch_close_array]).
  cbn [app]. rewrite remove_one. unfold increment_depth. cbn [depth remaining]. destruct (d + 1 =? max_read_depth); [done|]. cbn [ebind].
  change (0 =? 0) with true. cbn [negb andb]. rewrite <- app_assoc. cbn [app].
  change (u64 (0 - 1)) with u64_max. change (u64 (u64_max - 1)) with (u64_max - 1).
  destruct l as [|x l]; [by rewrite is_array_end_done|].
  cbn [good forallb] in Hv. apply andb_true_iff in Hv as [Hx Hv]. inversion Hf as [|? ? Hfx Hfl]; subst.
  rewrite is_array_end_more by done. cbn [ebind fst snd].
  rewrite (HR (d + 1) x) by (done || lia || by apply after_ends). destruct (of_tree R (d + 1) x) as [a|e]; [|done]. cbn [ebind fst snd].
  change (after (map compact l)) with (array_from u64_max l).
  destruct l as [|y l]; [by rewrite is_array_end_done|].
  cbn [forallb] in Hv. apply andb_true_iff in Hv as [Hy Hv]. inversion Hfl as [|? ? Hfy Hfl']; subst.
  rewrite is_array_end_more by done. cbn [ebind fst snd].
  rewrite (HR (d + 1) y) by (done || lia || by apply after_ends). destruct (of_tree R (d + 1) y) as [b|e]; [|done]. cbn [ebind fst snd].
  change (after (map compact l)) with (array_from (u64_max - 1) l).
  destruct l as [|z l].
  - rewrite is_array_end_done. cbn [ebind fst snd negb]. unfold end_array, decrement_depth. cbn [depth remaining].
    destruct (Z.eqb_spec (d + 1) 0); [lia|]. cbn [ebind]. by replace (d + 1 - 1) with d by lia.
  - cbn [forallb] in Hv. apply andb_true_iff in Hv as [Hz Hv]. by rewrite is_array_end_more by done.
Qed.
End readings.
Arguments Reading {_} _ _ _.
Arguments read_bytes {_} _ _.
Arguments of_tree {_} _ _ _.
Arguments fits {_} _ _.
End Readings.

(** ** What is written is read back *)
Module JsonText.
Import JsonReader JsonObject ReaderFacts ObjectFacts Readings.
Section json_text.
Context `{RJ : RapidJson} `{!RapidJsonLaws}.

(** C29: Every tree that JSON can carry is written completely: [to_bytes]
    returns its compact text, and a stream writer, however often it flushed on
    the way, has put the same bytes on its stream when it is finished. Neither
    stops with the exception for an incomplete tree. *)
Theorem json_written_complete (available : list Z -> Z) v out : writable v = true ->
  JsonWriter.to_bytes available v = Ok (compact v) /\ JsonWriter.to_stream available v out = Ok (out ++ compact v).
Proof. intros Hv. split; [by apply WriterFacts.slice_text|by apply WriterFacts.stream_text]. Qed.

Lemma from_text {A} (R : reading A) v : Faithful R -> good v = true -> fits R v ->
  from_bytes (read_bytes R) (compact v) = of_tree R 0 v.
Proof.
  intros HR Hv Hf. unfold from_bytes, init. pose proof (HR 0 v ltac:(lia) Hv Hf [] eq_refl) as Ht.
  rewrite app_nil_r in Ht. rewrite Ht. by destruct (of_tree R 0 v).
Qed.

(** A tree that is written and read back, for any function that is tied to its
    meaning on trees; JsonSchema.v has the functions of any schema. *)
Lemma text_read_back {A} (available : list Z -> Z) (R : reading A) v :
  Faithful R -> good v = true -> fits R v ->
  exists text, JsonWriter.to_bytes available v = Ok text /\ from_bytes (read_bytes R) text = of_tree R 0 v.
Proof. intros HR Hv Hf. exists (compact v). split; [by apply WriterFacts.slice_text, good_writable|by apply from_text]. Qed.

(** An object without the members that match no field. *)
Definition known (fields : list field) (l : list (Z * String.string * wvalue)) : list (Z * String.string * wvalue) :=
  List.filter (fun kv => is_some_b (find_key (member_key false kv.1.1 kv.1.2) fields)) l.

Lemma read_members_ignores {S} (fields : list field) (read : nat -> wvalue -> S -> expect S) l st :
  efold (read_member fields read) st (members false (known fields l)) = efold (read_member fields read) st (members false l).
Proof.
  revert st. induction l as [|kv l IH]; intros [seen s]; [done|].
  change (members false (kv :: l)) with ((member_key false kv.1.1 kv.1.2, kv.2) :: members false l).
  unfold known. cbn [List.filter]. destruct (find_key _ fields) as [i|] eqn:E; cbn [is_some_b].
  - change (members false (kv :: ?l)) with ((member_key false kv.1.1 kv.1.2, kv.2) :: members false l). cbn [efold].
    destruct (read_member _ _ _ _); [apply IH|done].
  - cbn [efold]. unfold read_member at 2. cbn [fst snd]. rewrite E. cbn [ebind]. apply IH.
Qed.

Lemma tree_ignores_unknown {S} (slots : list (slot S)) s d l :
  of_tree (read_slots slots s) d (WObj (known (fields_of slots) l)) = of_tree (read_slots slots s) d (WObj l).
Proof. cbn. unfold object_tree, Wire.read_object. by rewrite read_members_ignores. Qed.

(** *** Members in another order *)

(** Fields are stored in places of their own. *)
Definition commuting {S} (slots : list (slot S)) (d : Z) : Prop := forall i j v w s s1 s2, i <> j ->
  tree_of slots d i v s = Ok s1 -> tree_of slots d j w s1 = Ok s2 ->
  exists s1', tree_of slots d j w s = Ok s1' /\ tree_of slots d i v s1' = Ok s2.

Definition slots_commute {S} (d : Z) (sl sl' : slot S) : Prop := forall v w s s1 s2,
  s_tree _ sl d s v = Ok s1 -> s_tree _ sl' d s1 w = Ok s2 -> exists s1', s_tree _ sl' d s w = Ok s1' /\ s_tree _ sl d s1' v = Ok s2.
Lemma slots_commute_of {A B S} d b n (R : reading A) (set : A -> S -> S) r b' n' (R' : reading B) (set' : B -> S -> S) r' :
  (forall x y s, set' y (set x s) = set x (set' y s)) -> slots_commute d (slot_of b n R set r) (slot_of b' n' R' set' r').
Proof.
  intros Hset v w s s1 s2. cbn. destruct (of_tree R d v) as [x|]; [|done]. destruct (of_tree R' d w) as [y|]; [|done]. cbn. intros [= <-] [= <-].
  exists (set' y s). split; [done|]. by rewrite Hset.
Qed.
Fixpoint pairwise {A} (P : A -> A -> Prop) (l : list A) : Prop :=
  match l with [] => True | x :: l => Forall (fun y => P x y /\ P y x) l /\ pairwise P l end.
Lemma pairwise_lookup {A} (P : A -> A -> Prop) l i j x y : pairwise P l -> i <> j -> l !! i = Some x -> l !! j = Some y -> P x y.
Proof.
  revert i j. induction l as [|z l IH]; intros i j Hp Hne Hx Hy; [done|]. destruct Hp as [Hz Hl]. rewrite Forall_forall in Hz.
  destruct i as [|i], j as [|j]; cbn in Hx, Hy; [done| | |by apply (IH i j Hl); [intros ->|..]].
  - injection Hx as ->. apply Hz. by eapply list_elem_of_lookup_2.
  - injection Hy as ->. apply Hz. by eapply list_elem_of_lookup_2.
Qed.
Lemma pairwise_commuting {S} (slots : list (slot S)) d : pairwise (slots_commute d) slots -> commuting slots d.
Proof.
  intros Hp i j v w s s1 s2 Hne. unfold tree_of. destruct (slots !! i) as [sl|] eqn:Ei; [|done]. destruct (slots !! j) as [sl'|] eqn:Ej; [|done].
  exact (pairwise_lookup _ _ i j sl sl' Hp Hne Ei Ej v w s s1 s2).
Qed.

Lemma read_member_seen {S} (fields : list field) (read : nat -> wvalue -> S -> expect S) seen seen2 s kv st :
  seen ≡ₚ seen2 -> read_member fields read (seen, s) kv = Ok st ->
  exists seen', read_member fields read (seen2, s) kv = Ok (seen', st.2) /\ st.1 ≡ₚ seen'.
Proof.
  intros Hp. unfold read_member. destruct (find_key kv.1 fields) as [i|]; [|intros [= <-]; by exists seen2].
  rewrite <- (bool_decide_ext (i ∈ seen) (i ∈ seen2)) by (by rewrite Hp). destruct (bool_decide _); [done|].
  destruct (read i kv.2 s) as [s1|]; [|done]. intros [= <-]. exists (i :: seen2). split; [done|]. cbn. by rewrite Hp.
Qed.

Lemma members_permuted {S} (slots : list (slot S)) d l l' : commuting slots d -> l ≡ₚ l' -> forall seen seen2 s st, seen ≡ₚ seen2 ->
  efold (read_member (fields_of slots) (tree_of slots d)) (seen, s) l = Ok st ->
  exists seen', efold (read_member (fields_of slots) (tree_of slots d)) (seen2, s) l' = Ok (seen', st.2) /\ st.1 ≡ₚ seen'.
Proof.
  intros Hc Hl. induction Hl as [|kv l l' Hl IH|kv kv' l|l l' l'' _ IH1 _ IH2]; intros seen seen2 s st Hp He.
  - injection He as <-. by exists seen2.
  - cbn [efold] in *. destruct (read_member _ _ (seen, s) kv) as [[seen1 s1]|] eqn:E; [|done].
    destruct (read_member_seen _ _ _ _ _ _ _ Hp E) as (seen1' & -> & Hp1). cbn [ebind fst snd] in *. by eapply IH.
  - assert (forall seen seen2 s st, seen ≡ₚ seen2 -> efold (read_member (fields_of slots) (tree_of slots d)) (seen, s) l = Ok st ->
      exists seen', efold (read_member (fields_of slots) (tree_of slots d)) (seen2, s) l = Ok (seen', st.2) /\ st.1 ≡ₚ seen') as Hsame.
    { clear -l. induction l as [|x l IH]; intros seen seen2 s st Hp He; [injection He as <-; by exists seen2|]. cbn [efold] in *.
      destruct (read_member _ _ (seen, s) x) as [[seen1 s1]|] eqn:E; [|done].
      destruct (read_member_seen _ _ _ _ _ _ _ Hp E) as (seen1' & -> & Hp1). cbn [ebind fst snd] in *. by eapply IH. }
    cbn [efold] in *. unfold read_member at 1 2 in He. unfold read_member at 1 2.
    destruct (find_key kv'.1 (fields_of slots)) as [i|] eqn:Ei; cbn [ebind] in *.
    + destruct (find_key kv.1 (fields_of slots)) as [j|] eqn:Ej; cbn [ebind] in *.
      * case_bool_decide as Hi; [done|]. destruct (tree_of slots d i kv'.2 s) as [s1|] eqn:E1; [|done]. cbn [ebind] in He.
        case_bool_decide as Hj; [done|]. destruct (tree_of slots d j kv.2 s1) as [s2|] eqn:E2; [|done]. cbn [ebind] in He.
        rewrite elem_of_cons in Hj. destruct (Hc i j kv'.2 kv.2 s s1 s2 ltac:(naive_solver) E1 E2) as (s1' & E3 & E4).
        rewrite bool_decide_false by (rewrite <- Hp; naive_solver). rewrite E3. cbn [ebind]. rewrite bool_decide_false by (rewrite elem_of_cons, <- Hp; naive_solver).
        rewrite E4. cbn [ebind]. eapply Hsame; [|exact He]. rewrite Hp. constructor.
      * rewrite (bool_decide_ext (i ∈ seen2) (i ∈ seen)) by (by rewrite Hp). destruct (bool_decide _); [done|].
        destruct (tree_of slots d i kv'.2 s) as [s1|]; [|done]. cbn [ebind] in *. eapply Hsame; [|exact He]. by rewrite Hp.
    + destruct (find_key kv.1 (fields_of slots)) as [j|] eqn:Ej; cbn [ebind] in *.
      * rewrite (bool_decide_ext (j ∈ seen2) (j ∈ seen)) by (by rewrite Hp). destruct (bool_decide _); [done|].
        destruct (tree_of slots d j kv.2 s) as [s1|]; [|done]. cbn [ebind] in *. eapply Hsame; [|exact He]. by rewrite Hp.
      * by eapply Hsame.
  - destruct (IH1 _ _ _ _ (reflexivity seen) He) as (seen' & H1 & Hp1). destruct (IH2 _ _ _ _ Hp H1) as (seen'' & H2 & Hp2).
    exists seen''. split; [done|]. by rewrite Hp1.
Qed.

(** An object that is read is read in any order of its members. *)
Lemma tree_permuted {S} (slots : list (slot S)) s d l l' x : commuting slots (d + 1) -> l ≡ₚ l' ->
  of_tree (read_slots slots s) d (WObj l) = Ok x -> of_tree (read_slots slots s) d (WObj l') = Ok x.
Proof.
  intros Hc Hl. cbn. destruct (d + 1 =? max_read_depth); [done|]. unfold object_tree, Wire.read_object. intros He. inv_ok He. rename r into st. inv_ok Hr.
  rename r into st1. destruct (missing (fields_of slots) st1.1) eqn:Em; [done|]. injection Hr as <-. injection He as <-.
  assert (members false l ≡ₚ members false l') as Hm by (unfold members; by rewrite Hl).
  destruct (members_permuted slots (d + 1) _ _ Hc Hm [] [] s st1 ltac:(done) Hr0) as (seen & -> & Hp). cbn [ebind fst snd].
  assert (missing (fields_of slots) seen = false) as ->.
  { rewrite missing_spec in Em |- *. intros i Hi. rewrite <- Hp. by apply Em. }
  cbn [ebind fst snd]. f_equal. unfold reset_omitted. generalize (seq 0 (length (fields_of slots))). intros ids. generalize st1.2. induction ids as [|i ids IH]; intros t; [done|].
  cbn [foldl]. rewrite (bool_decide_ext (i ∈ st1.1) (i ∈ seen)) by (by rewrite Hp). apply IH.
Qed.

(** Members that match no field of an object change nothing: the text with
    them is read like the text without them. They are skipped whatever they
    hold; no depth is counted in them, so that the limit of 100 nested objects
    and arrays does not apply there. *)
Theorem unknown_members_skipped {S} (slots : list (slot S)) (s : S) l :
  Forall slot_faithful slots -> good (WObj l) = true -> fits (read_slots slots s) (WObj l) ->
  from_bytes (read_bytes (read_slots slots s)) (compact (WObj l)) =
  from_bytes (read_bytes (read_slots slots s)) (compact (WObj (known (fields_of slots) l))).
Proof.
  intros Hs Hv [Hfew Hf]. assert (forall kv, kv ∈ known (fields_of slots) l -> kv ∈ l) as Hsub.
  { intros kv. rewrite !list_elem_of_In. unfold known. rewrite filter_In. tauto. }
  rewrite !from_text; try (by apply slots_faithful); try done; [by rewrite tree_ignores_unknown| |].
  - cbn in *. rewrite forallb_forall in *. intros kv Hkv. apply Hv. by apply list_elem_of_In, Hsub, list_elem_of_In.
  - split; [|eauto]. unfold few in *. rewrite Z.leb_le in *. pose proof (filter_length_le
      (fun kv => is_some_b (find_key (member_key false kv.1.1 kv.1.2) (fields_of slots))) l). unfold known. lia.
Qed.

(** [check_complete] asks for the depth only: an object that is followed by
    any other bytes is accepted as if they were not there. *)
Theorem trailing_bytes_accepted {S} (slots : list (slot S)) (s : S) l rest :
  Forall slot_faithful slots -> good (WObj l) = true -> fits (read_slots slots s) (WObj l) ->
  from_bytes (read_bytes (read_slots slots s)) (compact (WObj l) ++ rest) =
  from_bytes (read_bytes (read_slots slots s)) (compact (WObj l)).
Proof.
  intros Hs Hv Hf. rewrite from_text by (done || by apply slots_faithful). unfold from_bytes, init.
  cbn [read_bytes of_tree read_slots]. rewrite (object_reads_before _ _ _ _ 0 s l rest ltac:(lia) Hv (proj1 Hf) (slots_fields_read slots 0 _ s Hs ltac:(lia) Hv Hf)).
  by destruct (t_object _ _ _ _ _ _).
Qed.
End json_text.
End JsonText.
