(* ===== verification/JsonSample.v ===== *)
(** An implementation of the libraries that src/wire/json uses ([Json.RapidJson])
    and the proof of their laws: the witnesses of the theorems about JSON run
    on it. Every real has the same text, so none is read back ([survives] is false
    everywhere). *)

From S2P Require Import Prelude Wire Json.
From Stdlib Require Import DecimalN.

Module Sample.

(** ** Decimal numbers *)
Fixpoint digits (u : Decimal.uint) : list Z :=
  match u with
  | Decimal.Nil => []
  | Decimal.D0 u => 48 :: digits u | Decimal.D1 u => 49 :: digits u | Decimal.D2 u => 50 :: digits u
  | Decimal.D3 u => 51 :: digits u | Decimal.D4 u => 52 :: digits u | Decimal.D5 u => 53 :: digits u
  | Decimal.D6 u => 54 :: digits u | Decimal.D7 u => 55 :: digits u | Decimal.D8 u => 56 :: digits u
  | Decimal.D9 u => 57 :: digits u
  end.

Definition digit_of (c : Z) : option (Decimal.uint -> Decimal.uint) :=
  if c =? 48 then Some Decimal.D0 else if c =? 49 then Some Decimal.D1 else if c =? 50 then Some Decimal.D2
  else if c =? 51 then Some Decimal.D3 else if c =? 52 then Some Decimal.D4 else if c =? 53 then Some Decimal.D5
  else if c =? 54 then Some Decimal.D6 else if c =? 55 then Some Decimal.D7 else if c =? 56 then Some Decimal.D8
  else if c =? 57 then Some Decimal.D9 else None.

Fixpoint read_digits (l : list Z) : Decimal.uint * list Z :=
  match l with
  | [] => (Decimal.Nil, [])
  | c :: l' =>
    match digit_of c with
    | Some D => let '(u, rest) := read_digits l' in (D u, rest)
    | None => (Decimal.Nil, l)
    end
  end.

Definition decimal (n : Z) : list Z := digits (N.to_uint (Z.to_N n)).
Definition read_decimal (l : list Z) : Z * list Z :=
  let '(u, rest) := read_digits l in (Z.of_N (N.of_uint u), rest).

Lemma read_digits_app u rest : ends rest = true -> read_digits (digits u ++ rest) = (u, rest).
Proof.
  intros Hr. induction u; cbn; try (by rewrite IHu). destruct rest as [|c rest]; cbn; [done|]. cbn in Hr.
  rewrite !orb_true_iff, !Z.eqb_eq in Hr. destruct Hr as [->|[->|[->|[->|[->|]]]]]; done.
Qed.

Lemma read_decimal_app n rest : 0 <= n -> ends rest = true -> read_decimal (decimal n ++ rest) = (n, rest).
Proof.
  intros Hn Hr. unfold read_decimal, decimal. rewrite read_digits_app by done.
  by rewrite DecimalN.Unsigned.of_to, Z2N.id.
Qed.

Lemma digits_range u : forallb is_digit (digits u) = true.
Proof. by induction u. Qed.

Lemma decimal_head n : exists c l, decimal n = c :: l /\ is_digit c = true.
Proof.
  unfold decimal. pose proof (digits_range (N.to_uint (Z.to_N n))) as Hd.
  destruct (digits _) as [|c l] eqn:E; [|cbn in Hd; apply andb_true_iff in Hd as [Hc _]; by exists c, l]. exfalso.
  assert (N.to_uint (Z.to_N n) = Decimal.Nil) as H0 by (by destruct (N.to_uint (Z.to_N n))).
  destruct (Z.to_N n) as [|p]; [done|]. by apply DecimalPos.Unsigned.to_uint_nonnil in H0.
Qed.

(** ** Strings *)
Definition escape (c : Z) : list Z := if (c =? 34) || (c =? 92) then [92; c] else [c].
Definition quoted (s : list Z) : list Z := 34 :: concat (map escape s) ++ [34].

Fixpoint unescape (l : list Z) : option (list Z * list Z) :=
  match l with
  | [] => None
  | c :: l =>
    if c =? 34 then Some ([], l)
    else if c =? 92 then
      match l with [] => None | e :: l => (fun p => (e :: p.1, p.2)) <$> unescape l end
    else (fun p => (c :: p.1, p.2)) <$> unescape l
  end.

Lemma unescape_quoted s rest : unescape (concat (map escape s) ++ 34 :: rest) = Some (s, rest).
Proof.
  induction s as [|c s IH]; cbn; [done|]. unfold escape at 1. destruct (c =? 34) eqn:E1; cbn; [by rewrite IH|].
  destruct (c =? 92) eqn:E2; cbn; [by rewrite IH|]. by rewrite E1, E2, IH.
Qed.

(** ** Writer: whether a value was begun, and per level its kind and the
    number of values (and keys) in it. *)
Record writer := Writer { begun : bool; levels : list (bool * nat) }.

Definition prefix (w : writer) : list Z :=
  match levels w with
  | (_, O) :: _ | [] => []
  | (true, _) :: _ => [ch_comma]
  | (false, n) :: _ => if Nat.even n then [ch_comma] else [ch_colon]
  end.
Definition bump (w : writer) : writer :=
  Writer true (match levels w with (k, n) :: ls => (k, S n) :: ls | [] => [] end).
Definition push (k : bool) (w : writer) : writer := Writer true ((k, O) :: levels w).
Definition pop (w : writer) : writer := Writer true (tail (levels w)).

Definition text (e : sax) : list Z :=
  match e with
  | SNull => [110; 117; 108; 108]
  | SBool true => [116; 114; 117; 101]
  | SBool false => [102; 97; 108; 115; 101]
  | SInt z => if z <? 0 then 45 :: decimal (- z) else decimal z
  | SUint z => decimal z
  | SDouble _ => [48; 46; 48]
  | SString s | SKey s => quoted s
  | SStartArray => [ch_open_array] | SEndArray _ => [ch_close_array]
  | SStartObject => [ch_open_object] | SEndObject _ => [ch_close_object]
  end.

Definition emit (e : sax) (w : writer) : list Z * writer :=
  match e with
  | SStartArray => (prefix w ++ text e, push true (bump w))
  | SStartObject => (prefix w ++ text e, push false (bump w))
  | SEndArray _ | SEndObject _ => (text e, pop w)
  | _ => (prefix w ++ text e, bump w)
  end.

(** ** Parser *)
Inductive mode := MValue | MElements (n : nat) | MMembers (n : nat).

Fixpoint starts (p l : list Z) : option (list Z) :=
  match p, l with
  | [], _ => Some l
  | c :: p, d :: l => if c =? d then starts p l else None
  | _, [] => None
  end.

Definition separator (n : nat) (l : list Z) : option (list Z) :=
  match n with O => Some l | _ => starts [ch_comma] l end.

Definition number (l : list Z) : option (list sax * list Z) :=
  match l with
  | [] => None
  | c :: l' =>
    if c =? 45 then let '(n, rest) := read_decimal l' in Some ([SInt (- n)], rest)
    else if is_digit c then let '(n, rest) := read_decimal l in Some ([SUint n], rest)
    else match starts (text (SBool true)) l with
         | Some rest => Some ([SBool true], rest)
         | None => (fun rest => ([SBool false], rest)) <$> starts (text (SBool false)) l
         end
  end.

Fixpoint parse (fuel : nat) (m : mode) (l : list Z) : option (list sax * list Z) :=
  match fuel, l with
  | O, _ | _, [] => None
  | S fuel, c :: l' =>
    match m with
    | MValue =>
      if c =? ch_quote then '(s, rest) ← unescape l'; Some ([SString s], rest)
      else if c =? ch_open_array then '(es, rest) ← parse fuel (MElements 0) l'; Some (SStartArray :: es, rest)
      else if c =? ch_open_object then '(es, rest) ← parse fuel (MMembers 0) l'; Some (SStartObject :: es, rest)
      else number l
    | MElements n =>
      if c =? ch_close_array then Some ([SEndArray n], l')
      else
        l1 ← separator n l; '(es, l2) ← parse fuel MValue l1; '(es', l3) ← parse fuel (MElements (S n)) l2;
        Some (es ++ es', l3)
    | MMembers n =>
      if c =? ch_close_object then Some ([SEndObject n], l')
      else
        l1 ← separator n l; l2 ← starts [ch_quote] l1; '(k, l3) ← unescape l2; l4 ← starts [ch_colon] l3;
        '(es, l5) ← parse fuel MValue l4; '(es', l6) ← parse fuel (MMembers (S n)) l5;
        Some (SKey k :: es ++ es', l6)
    end
  end.

Definition Parse (l : list Z) : list sax * parse_end :=
  match parse (S (length l)) MValue l with
  | Some (es, rest) => (es, Finished (length l - length rest))
  | None => ([], Failed 3)
  end.

Fixpoint SkipWhitespace (l : list Z) : nat :=
  match l with c :: l => if is_blank c then S (SkipWhitespace l) else O | [] => O end.

(** ** Hexadecimal *)
Definition hex_digit (n : Z) : Z := if n <? 10 then 48 + n else 87 + n.
Definition to_hex (s : list Z) : list Z := concat (map (fun b => [hex_digit (b / 16); hex_digit (b mod 16)]) s).
Definition hex_value (c : Z) : option Z :=
  if is_digit c then Some (c - 48) else if (97 <=? c) && (c <=? 102) then Some (c - 87) else None.
Fixpoint from_hex (n : nat) (l : list Z) : option (list Z) :=
  match n, l with
  | O, [] => Some []
  | S n, a :: b :: l => x ← hex_value a; y ← hex_value b; s ← from_hex n l; Some (x * 16 + y :: s)
  | _, _ => None
  end.

#[export] Instance library : RapidJson := {|
  formatter := writer; fresh := Writer false []; Json.emit := emit;
  IsComplete w := begun w && bool_decide (levels w = []);
  u64toa := decimal; Json.Parse := Parse; Json.SkipWhitespace := SkipWhitespace;
  to_double z := z; finite_double _ := true; survives _ := false;
  kParseErrorNone := 0; kParseErrorObjectMissColon := 5; kParseErrorObjectMissCommaOrCurlyBracket := 6;
  kParseErrorArrayMissCommaOrSquareBracket := 7; kParseErrorStringMissQuotationMark := 11;
  kParseErrorTermination := 16; kParseErrorUnspecificSyntaxError := 17;
  Json.to_hex := to_hex; to_buffer := from_hex
|}.

(** ** The laws *)
Lemma even_double n : Nat.even (n + n) = true.
Proof. replace (n + n)%nat with (2 * n)%nat by lia. apply Nat.even_even. Qed.
Lemma odd_double n : Nat.even (S (n + n)) = false.
Proof. rewrite Nat.even_succ, <- Nat.negb_even, even_double. done. Qed.

Definition writes (v : wvalue) : Prop := forall w, emits (events v) w = (prefix w ++ compact v, bump w).

Lemma writes_scalar e w : is_number_or_bool e || match e with SString _ => true | _ => false end = true ->
  emits [e] w = (prefix w ++ scalar e, bump w).
Proof. intros He. destruct e; try done; cbn; by rewrite app_nil_r. Qed.

Lemma writes_elements l n ls : Forall writes l ->
  emits (concat (map events l)) (Writer true ((true, n) :: ls)) =
  (match n with O => separated (map compact l) | _ => after (map compact l) end, Writer true ((true, (n + length l)%nat) :: ls)).
Proof.
  intros Hl. revert n. induction Hl as [|v l Hv Hl IH]; intros n; cbn [map concat length].
  - cbn. rewrite Nat.add_0_r. by destruct n.
  - rewrite WriterFacts.emits_app, Hv. cbn [fst snd].
    change (bump (Writer true ((true, n) :: ls))) with (Writer true ((true, S n) :: ls)). rewrite IH. cbn [fst snd].
    f_equal; [destruct n; unfold after; cbn; by rewrite <- ?app_assoc|]. do 3 f_equal. lia.
Qed.

Lemma writes_members l n ls : Forall (fun kv => writes kv.2) l ->
  emits (concat (map (fun kv => SKey (bytes_of_string kv.1.2) :: events kv.2) l)) (Writer true ((false, (n + n)%nat) :: ls)) =
  (match n with O => separated (map member_text l) | _ => after (map member_text l) end,
   Writer true ((false, ((n + length l) + (n + length l))%nat) :: ls)).
Proof.
  intros Hl. revert n. induction Hl as [|kv l Hv Hl IH]; intros n; cbn [map concat length].
  - cbn. rewrite Nat.add_0_r. by destruct n.
  - rewrite <- app_comm_cons. cbn [emits]. cbn [Json.emit library emit].
    rewrite WriterFacts.emits_app, Hv. cbn [fst snd].
    change (bump (bump (Writer true ((false, (n + n)%nat) :: ls)))) with (Writer true ((false, S (S (n + n))) :: ls)).
    change (bump (Writer true ((false, (n + n)%nat) :: ls))) with (Writer true ((false, S (n + n)) :: ls)).
    replace (S (S (n + n))) with (S n + S n)%nat by lia. rewrite IH. cbn [fst snd].
    f_equal.
    + unfold prefix; cbn [levels]. rewrite odd_double. destruct n as [|n].
      * unfold separated, member_text; cbn. by rewrite <- ?app_assoc.
      * cbn [Nat.add]. change (S (n + S n)) with (S n + S n)%nat. rewrite even_double.
        unfold after, member_text; cbn. rewrite <- ?app_assoc. cbn. by rewrite <- ?app_assoc.
    + do 3 f_equal; lia.
Qed.

Lemma writes_tree v : writes v.
Proof.
  induction v as [b|z|z|z|s|s|l IH|l IH] using wvalue_nested_ind; intros w; try (by apply writes_scalar); cbn [events emits].
  - cbn [Json.emit library emit]. rewrite WriterFacts.emits_app. unfold push. rewrite (writes_elements l 0 (levels (bump w)) IH).
    cbn. by rewrite <- !app_assoc.
  - cbn [Json.emit library emit]. rewrite WriterFacts.emits_app. pose proof (writes_members l 0 (levels (bump w)) IH) as Hm.
    cbn [Nat.add] in Hm. unfold push. rewrite Hm. cbn. by rewrite <- !app_assoc.
Qed.

(** Parsing the text of a tree, and of the rest of an array or object. *)
Definition parses (v : wvalue) : Prop := forall fuel rest,
  (length (compact v) < fuel)%nat -> good v = true -> ends rest = true ->
  parse fuel MValue (compact v ++ rest) = Some (map as_read (events v), rest).

Lemma scalar_string_text s : exists l, scalar (SString s) = ch_quote :: l.
Proof. by eexists. Qed.

Lemma parse_text s fuel rest : (0 < fuel)%nat -> parse fuel MValue (quoted s ++ rest) = Some ([SString s], rest).
Proof. destruct fuel; [lia|]. intros _. unfold quoted. cbn. rewrite <- app_assoc. cbn [app]. by rewrite unescape_quoted. Qed.

Lemma number_token e rest : is_number_or_bool e = true -> good_event e = true -> ends rest = true ->
  number (text e ++ rest) = Some ([as_read e], rest).
Proof.
  intros He Hg Hr. assert (forall n, 0 <= n -> number (decimal n ++ rest) = Some ([SUint n], rest)) as Hd.
  { intros n Hn. destruct (decimal_head n) as (c & l & E & Hc). pose proof (read_decimal_app n rest Hn Hr) as Hread.
    rewrite E in *. cbn [app] in *. unfold number. rewrite Hc, Hread. destruct (Z.eqb_spec c 45) as [->|]; [done|done]. }
  destruct e as [|b|z|z|z| | | | | |]; try done; cbn in Hg.
  - by destruct b.
  - cbn. destruct (Z.ltb_spec z 0) as [Hz|Hz].
    + cbn. rewrite read_decimal_app by (lia || done). rewrite (proj2 (Z.leb_gt 0 z)) by lia. by rewrite Z.opp_involutive.
    + rewrite Hd by done. by rewrite (proj2 (Z.leb_le 0 z)).
  - apply Hd. rewrite andb_true_iff, Z.leb_le in Hg. lia.
Qed.

Lemma text_head e : is_number_or_bool e = true -> good_event e = true ->
  exists c l, text e = c :: l /\ (is_digit c = true \/ c = 45 \/ c = 116 \/ c = 102).
Proof.
  intros He Hg. destruct e as [|b|z|z|z| | | | | |]; try done; cbn in *.
  - destruct b; eauto 10.
  - destruct (z <? 0); [eauto 10|]. destruct (decimal_head z) as (c & l & -> & ?). eauto.
  - destruct (decimal_head z) as (c & l & -> & ?). eauto.
Qed.

Lemma parse_token e fuel rest : is_number_or_bool e = true -> good_event e = true -> ends rest = true -> (0 < fuel)%nat ->
  parse fuel MValue (text e ++ rest) = Some ([as_read e], rest).
Proof.
  intros He Hg Hr Hf. destruct fuel; [lia|]. rewrite <- (number_token e rest) by done.
  destruct (text_head e He Hg) as (c & l & -> & Hc). cbn [app parse].
  assert (c <> 34 /\ c <> 91 /\ c <> 123) as (H1 & H2 & H3).
  { destruct Hc as [Hc|Hc]; [apply ReaderFacts.digit_range in Hc; lia|lia]. }
  rewrite (proj2 (Z.eqb_neq c ch_quote)), (proj2 (Z.eqb_neq c ch_open_array)), (proj2 (Z.eqb_neq c ch_open_object)) by done. done.
Qed.

(** The text of a value does not begin like the end of an array or object. *)
Lemma compact_lead v : good v = true -> exists c l, compact v = c :: l /\ (c =? ch_close_array) = false /\ (c =? ch_close_object) = false.
Proof.
  intros Hv. assert (forall e, is_number_or_bool e = true -> good_event e = true -> exists c l, text e = c :: l /\
    (c =? ch_close_array) = false /\ (c =? ch_close_object) = false) as Ht.
  { intros e He Hg. destruct (text_head e He Hg) as (c & l & E & Hc). exists c, l. split; [done|]. rewrite !Z.eqb_neq.
    unfold ch_close_array, ch_close_object. destruct Hc as [Hc|Hc]; [apply ReaderFacts.digit_range in Hc; lia|lia]. }
  destruct v; try (by apply Ht); cbn; eauto.
Qed.

Lemma parse_elements l n fuel rest : Forall parses l -> forallb good l = true ->
  (length (match n with O => separated (map compact l) | _ => after (map compact l) end) + 1 < fuel)%nat ->
  parse fuel (MElements n) (match n with O => separated (map compact l) | _ => after (map compact l) end ++ ch_close_array :: rest) =
  Some (map as_read (concat (map events l)) ++ [SEndArray (n + length l)], rest).
Proof.
  intros Hl. revert n fuel. induction Hl as [|v l Hv Hl IH]; intros n fuel Hg Hf; (destruct fuel as [|fuel]; [lia|]).
  - rewrite Nat.add_0_r. by destruct n.
  - cbn [forallb] in Hg. apply andb_true_iff in Hg as [Hgv Hgl].
    assert (length (compact v) + length (after (map compact l)) < fuel)%nat as Hlen
      by (unfold separated, after in *; destruct n; cbn [map concat app length] in Hf; rewrite length_app in Hf; lia). clear Hf.
    assert (parse fuel MValue (compact v ++ after (map compact l) ++ ch_close_array :: rest) =
      Some (map as_read (events v), after (map compact l) ++ ch_close_array :: rest)) as Ev.
    { apply Hv; [lia|done|by apply ObjectFacts.after_ends]. }
    assert (parse fuel (MElements (S n)) (after (map compact l) ++ ch_close_array :: rest) =
      Some (map as_read (concat (map events l)) ++ [SEndArray (S n + length l)], rest)) as El.
    { apply (IH (S n)); [done|]. destruct (compact_lead v Hgv) as (c & t & Et & _). rewrite Et in Hlen. cbn in Hlen. lia. }
    cbn [map concat]. rewrite map_app, <- app_assoc. replace (n + length (v :: l))%nat with (S n + length l)%nat by (cbn; lia).
    destruct (compact_lead v Hgv) as (c & t & Et & Hc & _). destruct n as [|n].
    + cbn [separated]. rewrite <- app_assoc. rewrite Et in *. cbn [app parse separator] in *. rewrite Hc. cbn [mbind option_bind]. rewrite Ev. cbn. by rewrite El.
    + unfold after in *. cbn [map concat app parse separator starts]. cbn [Z.eqb]. cbn -[parse]. rewrite <- app_assoc, Ev. cbn -[parse]. by rewrite El.
Qed.

Lemma member_text_length kv : (length (compact kv.2) + 2 <= length (member_text kv))%nat.
Proof.
  unfold member_text. destruct (scalar_string_text (bytes_of_string kv.1.2)) as [l ->]. rewrite length_app. cbn [length]. lia.
Qed.

Lemma parse_members l n fuel rest : Forall (fun kv => parses kv.2) l -> forallb (fun kv => good kv.2) l = true ->
  (length (match n with O => separated (map member_text l) | _ => after (map member_text l) end) + 1 < fuel)%nat ->
  parse fuel (MMembers n) (match n with O => separated (map member_text l) | _ => after (map member_text l) end ++ ch_close_object :: rest) =
  Some (map as_read (concat (map (fun kv => SKey (bytes_of_string kv.1.2) :: events kv.2) l)) ++ [SEndObject (n + length l)], rest).
Proof.
  intros Hl. revert n fuel. induction Hl as [|kv l Hv Hl IH]; intros n fuel Hg Hf; (destruct fuel as [|fuel]; [lia|]).
  - rewrite Nat.add_0_r. by destruct n.
  - cbn [forallb] in Hg. apply andb_true_iff in Hg as [Hgv Hgl].
    assert (length (compact kv.2) + length (after (map member_text l)) + 1 < fuel)%nat as Hlen.
    { pose proof (member_text_length kv). unfold separated, after in *. destruct n; cbn [map concat app length] in Hf; rewrite length_app in Hf; lia. }
    clear Hf.
    assert (parse fuel MValue (compact kv.2 ++ after (map member_text l) ++ ch_close_object :: rest) =
      Some (map as_read (events kv.2), after (map member_text l) ++ ch_close_object :: rest)) as Ev.
    { apply Hv; [lia|done|by apply ObjectFacts.after_ends]. }
    assert (parse fuel (MMembers (S n)) (after (map member_text l) ++ ch_close_object :: rest) =
      Some (map as_read (concat (map (fun kv => SKey (bytes_of_string kv.1.2) :: events kv.2) l)) ++ [SEndObject (S n + length l)], rest)) as El.
    { apply (IH (S n)); [done|]. lia. }
    cbn [map concat]. rewrite <- app_comm_cons. cbn [map as_read]. rewrite map_app, <- app_comm_cons, <- app_assoc.
    replace (n + length (kv :: l))%nat with (S n + length l)%nat by (cbn; lia).
    assert (forall tl, quoted (bytes_of_string kv.1.2) ++ tl = 34 :: concat (map escape (bytes_of_string kv.1.2)) ++ 34 :: tl) as Hq
      by (intros tl; unfold quoted; cbn; by rewrite <- app_assoc).
    change (scalar (SString (bytes_of_string kv.1.2))) with (quoted (bytes_of_string kv.1.2)) in *.
    assert (forall tl, member_text kv ++ tl = 34 :: concat (map escape (bytes_of_string kv.1.2)) ++ 34 :: ch_colon :: compact kv.2 ++ tl) as Hm.
    { intros tl. unfold member_text. change (scalar (SString (bytes_of_string kv.1.2))) with (quoted (bytes_of_string kv.1.2)).
      rewrite <- app_assoc, Hq. done. }
    destruct n as [|n]; unfold separated, after in *; cbn [map concat]; rewrite <- ?app_assoc, ?Hm.
    + cbn [app parse separator starts ch_close_object ch_quote Z.eqb]. cbn -[parse unescape]. rewrite unescape_quoted. cbn -[parse]. rewrite Ev. cbn -[parse]. by rewrite El.
    + cbn [app]. rewrite <- ?app_assoc, ?Hm. cbn [parse]. cbn -[parse unescape]. rewrite unescape_quoted. cbn -[parse]. rewrite Ev. cbn -[parse]. by rewrite El.
Qed.

Lemma parses_tree v : parses v.
Proof.
  induction v as [b|z|z|z|s|s|l IH|l IH] using wvalue_nested_ind; intros fuel rest Hf Hg Hr;
    try (apply parse_token; [done|exact Hg|done|lia]); try (apply parse_text; lia).
  - cbn [compact events] in *. cbn [length] in Hf. rewrite length_app in Hf. cbn [length] in Hf. destruct fuel as [|fuel]; [lia|].
    cbn [app parse]. change (ch_open_array =? ch_quote) with false. change (ch_open_array =? ch_open_array) with true. cbv iota.
    rewrite <- app_assoc. cbn [app]. rewrite (parse_elements l 0 fuel rest IH Hg) by lia. cbn [mbind option_bind map as_read Nat.add].
    by rewrite map_app.
  - cbn [compact events] in *. cbn [length] in Hf. rewrite length_app in Hf. cbn [length] in Hf. destruct fuel as [|fuel]; [lia|].
    cbn [app parse]. change (ch_open_object =? ch_quote) with false. change (ch_open_object =? ch_open_array) with false.
    change (ch_open_object =? ch_open_object) with true. cbv iota.
    rewrite <- app_assoc. cbn [app]. pose proof (parse_members l 0 fuel rest IH Hg) as Hp. unfold member_text in Hp. rewrite Hp by lia. cbn [mbind option_bind map as_read Nat.add].
    by rewrite map_app.
Qed.

Lemma hex_digit_value n : 0 <= n < 16 -> hex_value (hex_digit n) = Some n /\ is_plain (hex_digit n) = true.
Proof.
  intros Hn. assert (forallb (fun n => bool_decide (hex_value (hex_digit n) = Some n) && is_plain (hex_digit n)) (seqZ 0 16) = true) as Hall
    by (vm_compute; reflexivity).
  rewrite forallb_forall in Hall. specialize (Hall n ltac:(apply list_elem_of_In, elem_of_seqZ; lia)).
  apply andb_true_iff in Hall as [Hv Hpl]. by apply bool_decide_eq_true in Hv.
Qed.

Lemma byte_digits b : is_byte_b b = true -> 0 <= b / 16 < 16 /\ 0 <= b mod 16 < 16.
Proof. unfold is_byte_b. rewrite andb_true_iff, Z.leb_le, Z.ltb_lt. intros Hb. pose proof (Z.mod_pos_bound b 16). split; [|lia]. split; [apply Z.div_pos; lia|apply Z.div_lt_upper_bound; lia]. Qed.

#[export] Instance laws : RapidJsonLaws.
Proof.
  split.
  - intros v Hv. eexists. split; [apply writes_tree|done].
  - intros v rest Hv Hr. cbn [Json.Parse library]. unfold Parse. rewrite parses_tree; [|rewrite length_app; lia|done|done].
    do 2 f_equal. rewrite length_app. lia.
  - intros c l Hc. cbn [Json.SkipWhitespace library SkipWhitespace]. by rewrite Hc.
  - done.
  - intros s. by eexists.
  - intros s Hs. change (quoted s = ch_quote :: s ++ [ch_quote]). unfold quoted. do 2 f_equal. induction s as [|c s IH]; [done|].
    cbn [forallb map concat] in *. apply andb_true_iff in Hs as [Hc Hs]. rewrite IH by done. unfold escape.
    destruct (Z.eqb_spec c 34) as [->|]; [done|]. by destruct (Z.eqb_spec c 92) as [->|].
  - intros e He Hg. destruct (text_head e He Hg) as (c & l & E & Hc). exists c, l. split; [|done]. by destruct e.
  - done.
  - intros n _. apply digits_range.
  - intros s Hs. cbn [Json.to_hex library]. unfold to_hex. induction s as [|b s IH]; [done|]. cbn [forallb map concat app] in *.
    apply andb_true_iff in Hs as [Hb Hs]. apply byte_digits in Hb as [H1 H2]. rewrite IH by done.
    by rewrite (proj2 (hex_digit_value _ H1)), (proj2 (hex_digit_value _ H2)).
  - intros s. cbn [Json.to_hex library]. unfold to_hex. induction s as [|b s IH]; [done|]. cbn [map concat app length] in *. lia.
  - intros n s Hs. cbn [Json.to_hex to_buffer library]. unfold to_hex. revert n. induction s as [|b s IH]; intros n; [by destruct n|].
    cbn [forallb map concat app] in *. apply andb_true_iff in Hs as [Hb Hs]. pose proof (byte_digits b Hb) as [H1 H2].
    destruct n as [|n]; [done|]. cbn [from_hex]. rewrite (proj1 (hex_digit_value _ H1)), (proj1 (hex_digit_value _ H2)). cbn [mbind option_bind].
    rewrite IH by done. replace (b / 16 * 16 + b mod 16) with b by (pose proof (Z.div_mod b 16); lia).
    destruct (decide (n = length s)) as [->|Hn]; [by rewrite !bool_decide_true|].
    rewrite !bool_decide_false; [done|cbn; lia|done].
Qed.
End Sample.

(** ** The theorems of Json.v on a text *)
Module SampleText.
Import Sample Readings.

(** An object with a nested object, an array, a blob and members of no field. *)
Definition inner_slots : list (slot (Z * bool)) :=
  [required "n" (read_unsigned u32_max) (fun n s => (n, s.2)); defaulted "flag" read_bool (fun b s => (s.1, b)) true].
Definition sample_slots : list (slot (list Z * Z * (Z * bool) * list Z)) :=
  [required "name" read_string (fun s '(_, k, i, l) => (s, k, i, l));
   required "key" (read_blob 4) (fun k '(s, _, i, l) => (s, k, i, l));
   required "inner" (read_slots inner_slots (0, false)) (fun i '(s, k, _, l) => (s, k, i, l));
   cleared "list" (read_vector (read_signed (- 2 ^ 31) (2 ^ 31 - 1)) 1 3) (fun l '(s, k, i, _) => (s, k, i, l)) []].

Lemma inner_faithful : Forall slot_faithful inner_slots.
Proof. repeat constructor; apply slot_of_faithful; apply _. Qed.
Lemma sample_faithful : Forall slot_faithful sample_slots.
Proof.
  repeat constructor; apply slot_of_faithful; try apply _; [by apply slots_faithful, inner_faithful|by apply vector_faithful; [| |apply _]].
Qed.

Definition sample_members : list (Z * String.string * wvalue) :=
  [(0, "other"%string, WArr [WArr []; WObj [(0, "a"%string, WBool false)]]);
   (0, "name"%string, WStr (bytes_of_string "a \ b")); (0, "key"%string, WBin [222; 173; 190; 239]);
   (0, "list"%string, WArr [WInt (-7); WUint 12]); (0, "inner"%string, WObj [(0, "n"%string, WUint 4294967295)])].
Definition init : list Z * Z * (Z * bool) * list Z := ([], 0, (0, false), []).

Lemma sample_slots_fit : fits (read_slots sample_slots init) (WObj sample_members).
Proof.
  split; [done|]. intros kv i sl Hkv. repeat (apply elem_of_cons in Hkv as [->|Hkv];
    [intros Hi Hsl; vm_compute in Hi; try done; injection Hi as <-; injection Hsl as <-; cbn; try done|]); [| |by apply elem_of_nil in Hkv].
  - split_and!; [vm_compute; congruence|repeat constructor; vm_compute; congruence|repeat constructor].
  - split; [done|]. intros kv i sl Hkv. apply list_elem_of_singleton in Hkv as ->. intros Hi Hsl. vm_compute in Hi. injection Hi as <-. by injection Hsl as <-.
Qed.

Lemma json_written_complete_witness :
  JsonWriter.to_bytes (fun _ => 0) (WObj sample_members) = Ok (compact (WObj sample_members)) /\
  JsonWriter.to_stream (fun _ => 0) (WObj sample_members) [1] = Ok ([1] ++ compact (WObj sample_members)).
Proof. apply (JsonText.json_written_complete (fun _ => 0) (WObj sample_members) [1]). vm_compute. reflexivity. Defined.

Lemma text_read_back_witness : exists text, JsonWriter.to_bytes (fun _ => 0) (WObj sample_members) = Ok text /\
  JsonReader.from_bytes (read_bytes (read_slots sample_slots init)) text =
  Ok (bytes_of_string "a \ b", 0xdeadbeef, (4294967295, true), [-7; 12]).
Proof.
  destruct (JsonText.text_read_back (fun _ => 0) (read_slots sample_slots init) (WObj sample_members)) as (text & E1 & E2).
  - apply slots_faithful, sample_faithful.
  - vm_compute. reflexivity.
  - exact sample_slots_fit.
  - exists text. split; [exact E1|]. rewrite E2. vm_compute. reflexivity.
Defined.

Lemma unknown_members_skipped_witness :
  JsonReader.from_bytes (read_bytes (read_slots sample_slots init)) (compact (WObj sample_members)) =
  JsonReader.from_bytes (read_bytes (read_slots sample_slots init)) (compact (WObj (JsonText.known (fields_of sample_slots) sample_members))).
Proof.
  apply (JsonText.unknown_members_skipped sample_slots init sample_members); [exact sample_faithful|vm_compute; reflexivity|exact sample_slots_fit].
Defined.

Lemma trailing_bytes_accepted_witness :
  JsonReader.from_bytes (read_bytes (read_slots sample_slots init)) (compact (WObj sample_members) ++ bytes_of_string "} and more") =
  JsonReader.from_bytes (read_bytes (read_slots sample_slots init)) (compact (WObj sample_members)).
Proof.
  apply (JsonText.trailing_bytes_accepted sample_slots init sample_members); [exact sample_faithful|vm_compute; reflexivity|exact sample_slots_fit].
Defined.

(** A member that is missing, given twice, too long, or beyond the depth. *)
Example errors_read :
  JsonReader.from_bytes (read_bytes (read_slots inner_slots (0, false))) (compact (WObj [])) = Err (schema_err schema_missing_key) /\
  JsonReader.from_bytes (read_bytes (read_slots inner_slots (0, false))) (compact (WObj [(0, "n"%string, WUint 1); (0, "n"%string, WUint 1)])) =
    Err (schema_err schema_invalid_key) /\
  JsonReader.from_bytes (read_bytes (read_vector read_bool 1 3)) (compact (WArr (replicate 4 (WBool true)))) = Err (schema_err schema_array_max_element) /\
  JsonReader.from_bytes (read_bytes (read_slots inner_slots (0, false))) (bytes_of_string "{") = Err (rapidjson_err 6) /\
  of_tree (read_slots inner_slots (0, false)) 99 (WObj []) = Err (schema_err schema_maximum_depth).
Proof. vm_compute. split_and!; reflexivity. Qed.
End SampleText.
