(* ===== verification/JsonSchema.v ===== *)
(** JSON by schema: every [read_bytes] function that is made of the pieces of
    src/wire ([wire_read::object] with required and optional fields,
    [wire_read::array], integers of a width, strings, blobs) gives back the value
    that a text was written for, whatever the order of the members of its objects,
    whatever other members they hold, and however deep they are nested within the
    limit of the reader. *)

From S2P Require Import Prelude Wire Json JsonSample.
Import Readings.

Module Schema.

(** ** Schemas and their values *)

(** [Elimination Schemes]: the induction over the fields is below. *)
#[local] Unset Elimination Schemes.
Inductive schema :=
| TBool
| TUnsigned (max : Z)
| TSigned (min max : Z)
| TReal
| TString
| TBlob (n : nat)
| TArray (min_element_size max_element_count : Z) (element : schema)
| TObject (fields : list (bool * String.string * schema)).

(** The fields of an object in the order of the schema, some of them absent. *)
Inductive data :=
| DBool (b : bool)
| DInteger (z : Z)
| DReal (bits : Z)
| DString (s : list Z)
| DBlob (z : Z)
| DArray (l : list data)
| DObject (fields : list (option data)).

Section schema_ind.
Variable P : schema -> Prop.
Hypothesis HBool : P TBool.
Hypothesis HUnsigned : forall max, P (TUnsigned max).
Hypothesis HSigned : forall min max, P (TSigned min max).
Hypothesis HReal : P TReal.
Hypothesis HString : P TString.
Hypothesis HBlob : forall n, P (TBlob n).
Hypothesis HArray : forall min max e, P e -> P (TArray min max e).
Hypothesis HObject : forall fs, Forall (fun f => P f.2) fs -> P (TObject fs).
Fixpoint schema_nested_ind (sc : schema) : P sc :=
  match sc with
  | TBool => HBool | TUnsigned max => HUnsigned max | TSigned min max => HSigned min max | TReal => HReal
  | TString => HString | TBlob n => HBlob n
  | TArray min max e => HArray min max e (schema_nested_ind e)
  | TObject fs => HObject fs
      ((fix go (l : list (bool * String.string * schema)) : Forall (fun f => P f.2) l :=
        match l with [] => List.Forall_nil _ | f :: l => List.Forall_cons _ f l (schema_nested_ind f.2) (go l) end) fs)
  end.
End schema_ind.

(** Nested arrays and objects. *)
Fixpoint height (sc : schema) : Z :=
  match sc with
  | TArray _ _ e => 1 + height e
  | TObject fs => 1 + foldr (fun f h => Z.max (height f.2) h) 0 fs
  | _ => 0
  end.
(** Limits are not negative, and the fields of an object have names of their own. *)
Fixpoint well_formed (sc : schema) : bool :=
  match sc with
  | TArray min max e => (0 <=? min) && (0 <=? max) && well_formed e
  | TObject fs => bool_decide (NoDup ((fun f => bytes_of_string f.1.2) <$> fs)) && forallb (fun f => well_formed f.2) fs
  | _ => true
  end.

(** ** Reading *)
Section reading.
Context `{RJ : RapidJson}.

(** The field with number [i], required or reset when it is absent. *)
Definition slot_at (i : nat) (req : bool) (name : String.string) (R : reading data) : slot (list (option data)) :=
  slot_of req name R (fun x s => <[i := Some x]> s) (fun s => <[i := None]> s).

(** The [read_bytes] function of a schema. *)
Fixpoint reading_of (sc : schema) : reading data :=
  match sc with
  | TBool => converted read_bool (fun b => Ok (DBool b))
  | TUnsigned max => converted (read_unsigned max) (fun z => Ok (DInteger z))
  | TSigned min max => converted (read_signed min max) (fun z => Ok (DInteger z))
  | TReal => converted read_real (fun z => Ok (DReal z))
  | TString => converted read_string (fun s => Ok (DString s))
  | TBlob n => converted (read_blob n) (fun z => Ok (DBlob z))
  | TArray min max e => converted (read_vector (reading_of e) min max) (fun l => Ok (DArray l))
  | TObject fs =>
    converted
      (read_slots ((fix slots_from (i : nat) (fs : list (bool * String.string * schema)) : list (slot (list (option data))) :=
          match fs with
          | [] => []
          | f :: fs => slot_at i f.1.1 f.1.2 (reading_of f.2) :: slots_from (S i) fs
          end) O fs) (replicate (length fs) None))
      (fun l => Ok (DObject l))
  end.
Fixpoint slots_from (i : nat) (fs : list (bool * String.string * schema)) : list (slot (list (option data))) :=
  match fs with
  | [] => []
  | f :: fs => slot_at i f.1.1 f.1.2 (reading_of f.2) :: slots_from (S i) fs
  end.
Definition read_object_of (fs : list (bool * String.string * schema)) : reading (list (option data)) :=
  read_slots (slots_from 0 fs) (replicate (length fs) None).

Lemma reading_of_object fs : reading_of (TObject fs) = converted (read_object_of fs) (fun l => Ok (DObject l)).
Proof. reflexivity. Qed.

(** ** What a tree stands for *)

(** The values of the members with a name. *)
Definition named (name : String.string) (l : list (Z * String.string * wvalue)) : list wvalue :=
  map snd (List.filter (fun kv => bool_decide (bytes_of_string name = bytes_of_string kv.1.2)) l).

(** A tree that carries a value: integers as either kind of JSON integer, one member
    for every field that is there, in any order, and none for one that is not, which
    must not be required; members of other names are free. *)
Inductive represents : schema -> data -> wvalue -> Prop :=
| rep_bool b : represents TBool (DBool b) (WBool b)
| rep_unsigned max z v : v = WUint z \/ v = WInt z -> 0 <= z <= max -> represents (TUnsigned max) (DInteger z) v
| rep_signed min max z v : v = WUint z \/ v = WInt z -> z <= JsonReader.imax -> min <= z <= max -> represents (TSigned min max) (DInteger z) v
| rep_real bits : represents TReal (DReal bits) (WReal bits)
| rep_string s : represents TString (DString s) (WStr s)
| rep_blob n z : 0 <= z < 256 ^ Z.of_nat n -> represents (TBlob n) (DBlob z) (WBin (be_bytes n z))
| rep_array min max e l vs :
    Forall2 (fun x v => represents e x v) l vs -> Forall (fun v => min <= Z.of_nat (length (compact v))) vs ->
    Z.of_nat (length vs) <= max -> Z.of_nat (length vs) <= u64_max ->
    represents (TArray min max e) (DArray l) (WArr vs)
| rep_object fs xs l :
    length xs = length fs -> Z.of_nat (length l) <= u64_max ->
    (forall j f x, fs !! j = Some f -> xs !! j = Some (Some x) -> exists v, named f.1.2 l = [v] /\ represents f.2 x v) ->
    (forall j f, fs !! j = Some f -> xs !! j = Some None -> f.1.1 = false /\ named f.1.2 l = []) ->
    represents (TObject fs) (DObject xs) (WObj l).
End reading.

(** ** Reading gives the value back *)
Section facts.
Context `{RJ : RapidJson} {RL : RapidJsonLaws}.

Lemma slots_from_lookup i fs j :
  slots_from i fs !! j = (fun f => slot_at (i + j) f.1.1 f.1.2 (reading_of f.2)) <$> fs !! j.
Proof.
  revert i j. induction fs as [|f fs IH]; intros i [|j]; cbn; [done|done|by rewrite Nat.add_0_r|].
  rewrite IH. by replace (S i + j)%nat with (i + S j)%nat by lia.
Qed.
Lemma fields_lookup fs j : fields_of (slots_from 0 fs) !! j = (fun f => Field 0 f.1.2 f.1.1) <$> fs !! j.
Proof. unfold fields_of. rewrite list_lookup_fmap, slots_from_lookup. by destruct (fs !! j). Qed.
Lemma length_fields fs : length (fields_of (slots_from 0 fs)) = length fs.
Proof. unfold fields_of. rewrite length_map. generalize 0%nat. induction fs as [|f fs IH]; intros i; cbn; [done|by rewrite IH]. Qed.

#[export] Instance reading_of_faithful sc : well_formed sc = true -> Faithful (reading_of sc).
Proof.
  induction sc as [|max|min max| | |n|min max e IH|fs IH] using schema_nested_ind; cbn [well_formed]; intros Hw; try apply _.
  - apply andb_true_iff in Hw as [[H1%Z.leb_le H2%Z.leb_le]%andb_true_iff Hw]. apply converted_faithful, vector_faithful; auto.
  - apply andb_true_iff in Hw as [_ Hw]. rewrite reading_of_object. apply converted_faithful, slots_faithful.
    revert Hw. generalize 0%nat. induction IH as [|f fs Hf _ IHl]; intros i Hw; cbn; [constructor|].
    cbn in Hw. apply andb_true_iff in Hw as [H1 H2]. constructor; [|by apply IHl]. unfold slot_at. apply slot_of_faithful. by apply Hf.
Qed.

(** *** Names *)
Lemma find_key_some k fs i : find_key k fs = Some i -> exists f, fs !! i = Some f /\ key_matches k f = true.
Proof.
  revert i. induction fs as [|f fs IH]; intros i; cbn; [done|]. destruct (key_matches k f) eqn:E; [intros [= <-]; by exists f|].
  destruct (find_key k fs) as [j|]; [|done]. intros [= <-]. by apply IH.
Qed.
Lemma find_key_none k fs i f : find_key k fs = None -> fs !! i = Some f -> key_matches k f = false.
Proof.
  revert i. induction fs as [|g fs IH]; intros i; cbn; [by destruct i|]. destruct (key_matches k g) eqn:E; [done|].
  destruct (find_key k fs) eqn:E2; [done|]. intros _. destruct i as [|i]; [by intros [= <-]|]. by apply IH.
Qed.

Section object.
Context (fs : list (bool * String.string * schema)).
Hypothesis names : NoDup ((fun f => bytes_of_string f.1.2) <$> fs).

#[local] Abbreviation flds := (fields_of (slots_from 0 fs)).
#[local] Abbreviation key_of kv := (member_key false kv.1.1 kv.1.2).

Lemma same_name i j f g : fs !! i = Some f -> fs !! j = Some g -> bytes_of_string f.1.2 = bytes_of_string g.1.2 -> i = j.
Proof.
  intros Hi Hj E. eapply (NoDup_lookup _ _ _ (bytes_of_string f.1.2) names); rewrite list_lookup_fmap; [by rewrite Hi|by rewrite Hj, E].
Qed.

(** A member selects the field of its name. *)
Lemma find_member (kv : Z * String.string * wvalue) i : find_key (key_of kv) flds = Some i ->
  exists f, fs !! i = Some f /\ bytes_of_string f.1.2 = bytes_of_string kv.1.2.
Proof.
  intros (g & Hg & Hm)%find_key_some. rewrite fields_lookup in Hg. destruct (fs !! i) as [f|]; [|done]. injection Hg as <-.
  cbn in Hm. apply bool_decide_eq_true in Hm. by exists f.
Qed.
Lemma no_member (kv : Z * String.string * wvalue) i f : find_key (key_of kv) flds = None -> fs !! i = Some f ->
  bytes_of_string f.1.2 <> bytes_of_string kv.1.2.
Proof.
  intros Hn Hf. apply (find_key_none _ _ i (Field 0 f.1.2 f.1.1)) in Hn; [|by rewrite fields_lookup, Hf]. cbn in Hn. by apply bool_decide_eq_false in Hn.
Qed.

Lemma named_cons name (kv : Z * String.string * wvalue) l :
  named name (kv :: l) = (if bool_decide (bytes_of_string name = bytes_of_string kv.1.2) then [kv.2] else []) ++ named name l.
Proof. unfold named. cbn. by destruct (bool_decide _). Qed.

(** *** The members in any order *)
Context (xs : list (option data)) (tr : nat -> wvalue -> list (option data) -> expect (list (option data))).
Hypothesis same_length : length xs = length fs.

(** The fields that were seen have their values, the others none yet. *)
Definition filled (seen : list nat) (s : list (option data)) : Prop :=
  length s = length xs /\ forall i, (i < length xs)%nat -> s !! i = if decide (i ∈ seen) then xs !! i else Some None.

Lemma filled_more seen s i x : filled seen s -> xs !! i = Some (Some x) -> filled (i :: seen) (<[i := Some x]> s).
Proof.
  intros [Hl Hs] Hx. pose proof (lookup_lt_Some _ _ _ Hx) as Hi. split; [by rewrite length_insert|]. intros j Hj.
  destruct (decide (j = i)) as [->|Hne].
  - rewrite list_lookup_insert_eq by lia. rewrite decide_True by left. by rewrite Hx.
  - rewrite list_lookup_insert_ne by done. rewrite Hs by done. destruct (decide (j ∈ seen)).
    + by rewrite decide_True by (by right).
    + rewrite decide_False; [done|]. by intros [|]%elem_of_cons.
Qed.

Lemma members_read l seen s :
  filled seen s ->
  (forall j f v, fs !! j = Some f -> v ∈ named f.1.2 l -> exists x, xs !! j = Some (Some x) /\ forall s, tr j v s = Ok (<[j := Some x]> s)) ->
  (forall j f, fs !! j = Some f -> (length (named f.1.2 l) <= 1)%nat /\ (named f.1.2 l <> [] -> j ∉ seen)) ->
  exists seen' s', efold (read_member flds tr) (seen, s) (members false l) = Ok (seen', s') /\ filled seen' s' /\
    (forall i, i ∈ seen -> i ∈ seen') /\ (forall j f, fs !! j = Some f -> named f.1.2 l <> [] -> j ∈ seen').
Proof.
  revert seen s. induction l as [|kv l IH]; intros seen s Hs Hv Hone; [by exists seen, s|].
  change (members false (kv :: l)) with ((key_of kv, kv.2) :: members false l).
  assert (forall j f v, fs !! j = Some f -> v ∈ named f.1.2 l -> exists x, xs !! j = Some (Some x) /\ forall s, tr j v s = Ok (<[j := Some x]> s)) as Hv'.
  { intros j f v Hj Hin. apply (Hv j f v Hj). rewrite named_cons. apply elem_of_app. by right. }
  destruct (find_key (key_of kv) flds) as [i|] eqn:Ek.
  - destruct (find_member kv i Ek) as (f & Hf & En). destruct (Hone i f Hf) as [Hlen Hseen]. rewrite named_cons, bool_decide_true in Hlen, Hseen by done.
    cbn in Hlen. assert (named f.1.2 l = []) as Hnil by (destruct (named f.1.2 l); [done|cbn in Hlen; lia]).
    destruct (Hv i f kv.2 Hf) as (x & Hx & Htr). { rewrite named_cons, bool_decide_true by done. left. }
    specialize (Hseen ltac:(done)). rewrite (efold_read_member _ _ seen s _ _ _ i _ Ek (bool_decide_eq_false_2 _ Hseen) (Htr s)).
    destruct (IH (i :: seen) (<[i := Some x]> s)) as (seen' & s' & H1 & H2 & H3 & H4); [by apply filled_more|done| |].
    + intros j g Hj. destruct (Hone j g Hj) as [Hlj Hsj]. rewrite named_cons in Hlj, Hsj. rewrite length_app in Hlj. split; [lia|].
      intros Hne [->|Hin]%elem_of_cons; [assert (g = f) as -> by congruence; done|]. apply Hsj; [|done]. by destruct (bool_decide _).
    + exists seen', s'. split_and!; [done|done|intros j Hj; apply H3; by right|]. intros j g Hj Hne. rewrite named_cons in Hne.
      case_bool_decide as Eb; [|by eapply H4]. assert (j = i) as -> by (apply (same_name j i g f); congruence). apply H3. left.
  - cbn [efold read_member fst snd]. rewrite Ek. cbn [ebind]. destruct (IH seen s) as (seen' & s' & H1 & H2 & H3 & H4); [done|done| |].
    + intros j g Hj. destruct (Hone j g Hj) as [Hlj Hsj]. rewrite named_cons, bool_decide_false in Hlj, Hsj by (by eapply no_member). done.
    + exists seen', s'. split_and!; [done..|]. intros j g Hj Hne. rewrite named_cons, bool_decide_false in Hne by (by eapply no_member). by eapply H4.
Qed.

Lemma absent_reset (req : nat -> bool) (seen : list nat) s (reset : nat -> list (option data) -> list (option data)) ids :
  (forall i s, i ∈ ids -> reset i s = <[i := None]> s) -> s = xs ->
  (forall i, i ∈ ids -> i ∉ seen -> xs !! i = Some None) ->
  foldl (fun s i => if negb (req i) && negb (bool_decide (i ∈ seen)) then reset i s else s) s ids = xs.
Proof.
  revert s. induction ids as [|i ids IH]; intros s Hreset -> H; [done|]. cbn [foldl].
  apply IH; [intros j t Hj; apply Hreset; by right| |intros j Hj; apply H; by right].
  destruct (req i); [done|]. case_bool_decide as Ei; [done|]. cbn. rewrite Hreset by left. apply list_insert_id. apply H; [left|done].
Qed.
End object.

Lemma represented_named fs xs l j f v : represents (TObject fs) (DObject xs) (WObj l) -> fs !! j = Some f -> v ∈ named f.1.2 l ->
  exists x, xs !! j = Some (Some x) /\ represents f.2 x v /\ named f.1.2 l = [v].
Proof.
  intros H Hj Hv. inversion H as [| | | | | | |? ? ? Hlen _ Hsome Hnone]; subst.
  destruct (xs !! j) as [[x|]|] eqn:E.
  - destruct (Hsome j f x Hj E) as (w & Hw & Hr). rewrite Hw in Hv. apply list_elem_of_singleton in Hv as ->. by exists x.
  - destruct (Hnone j f Hj E) as [_ Hn]. rewrite Hn in Hv. by apply elem_of_nil in Hv.
  - apply lookup_ge_None in E. apply lookup_lt_Some in Hj. lia.
Qed.

(** *** The trees are in the domain of the readers *)
Lemma represents_fits sc x v : well_formed sc = true -> represents sc x v -> fits (reading_of sc) v.
Proof.
  revert x v. induction sc as [|max|min max| | |n|min max e IH|fs IH] using schema_nested_ind; intros x v Hw H; try done.
  - by inversion H.
  - cbn in Hw. apply andb_true_iff in Hw as [_ Hw]. inversion H as [| | | | | |? ? ? l vs Hl Hmin Hmax Hn|]; subst. cbn. split_and!; [done|done|].
    apply Forall_forall. intros v Hv. apply list_elem_of_lookup in Hv as (i & Hi). destruct (Forall2_lookup_r _ _ _ _ _ Hl Hi) as (y & _ & Hy). by apply (IH y).
  - cbn in Hw. apply andb_true_iff in Hw as [Hnames Hw]. apply bool_decide_eq_true in Hnames. rewrite reading_of_object. pose proof H as Hrep.
    inversion H as [| | | | | | |? xs l Hlen Hfew Hsome Hnone]; subst. cbn [fits converted read_object_of read_slots]. split; [by apply Z.leb_le|].
    intros kv i sl Hkv Hi Hsl. destruct (find_member fs kv i Hi) as (f & Hf & En).
    rewrite slots_from_lookup, Hf in Hsl. injection Hsl as <-. cbn.
    destruct (represented_named fs xs l i f kv.2 Hrep Hf) as (y & _ & Hy & _).
    { unfold named. apply list_elem_of_fmap. exists kv. split; [done|]. apply list_elem_of_In, filter_In. split; [by apply list_elem_of_In|by apply bool_decide_eq_true]. }
    rewrite Forall_lookup in IH. rewrite forallb_forall in Hw. apply (IH i f Hf y); [|done]. apply Hw, list_elem_of_In. by eapply list_elem_of_lookup_2.
Qed.

(** *** The meaning of the readers *)
Lemma elements_represented e d max l vs :
  (forall x v, represents e x v -> of_tree (reading_of e) d v = Ok x) -> Forall2 (fun x v => represents e x v) l vs -> forall dest,
  Z.of_nat (length dest + length vs) <= max ->
  efold (ArrayFacts.t_element (fun x l => l ++ [x]) max (of_tree (reading_of e) d)) dest vs = Ok (dest ++ l).
Proof.
  intros He Hl. induction Hl as [|x v l vs Hx _ IH]; intros dest Hm; cbn [efold]; [by rewrite app_nil_r|]. cbn [length] in Hm.
  unfold ArrayFacts.t_element at 1. destruct (Z.leb_spec max (Z.of_nat (length dest))); [lia|]. rewrite (He x v Hx). cbn [ebind].
  rewrite IH by (rewrite length_app; cbn; lia). by rewrite <- app_assoc.
Qed.

Lemma height_field fs (f : bool * String.string * schema) : f ∈ fs -> 1 + height f.2 <= height (TObject fs).
Proof.
  cbn [height]. induction fs as [|g fs IH]; intros Hf; [by apply elem_of_nil in Hf|]. cbn [foldr]. apply elem_of_cons in Hf as [->|Hf]; [lia|].
  specialize (IH Hf). lia.
Qed.
Lemma height_object fs : 1 <= height (TObject fs).
Proof. cbn [height]. induction fs as [|f fs IH]; cbn [foldr]; lia. Qed.
Lemma height_pos sc : 0 <= height sc.
Proof. induction sc as [| | | | | |? ? e IH|fs IH] using schema_nested_ind; cbn; try lia. induction IH; cbn; lia. Qed.

Lemma represents_read sc x v d : well_formed sc = true -> represents sc x v -> 0 <= d -> d + height sc < JsonReader.max_read_depth ->
  of_tree (reading_of sc) d v = Ok x.
Proof.
  revert x v d. induction sc as [|max|min max| | |n|min max e IH|fs IH] using schema_nested_ind; intros x v d Hw H Hd Hh.
  - by inversion H.
  - inversion H as [|? z ? Hv Hz| | | | | |]; subst. cbn. unfold cast_unsigned.
    destruct Hv as [->| ->]; cbn; [|destruct (Z.ltb_spec z 0); [lia|cbn]]; (destruct (Z.ltb_spec max z); [lia|done]).
  - inversion H as [| |? ? z ? Hv Hi Hz| | | | |]; subst. cbn. unfold cast_signed.
    destruct Hv as [->| ->]; cbn; [destruct (Z.ltb_spec JsonReader.imax z); [lia|cbn]|];
      (destruct (Z.ltb_spec z min); [lia|]; destruct (Z.ltb_spec max z); [lia|done]).
  - by inversion H.
  - by inversion H.
  - inversion H as [| | | | |? z Hz| |]; subst. cbn. rewrite bool_decide_true by (by rewrite length_be_bytes). cbn. by rewrite be_decode_bytes_small.
  - cbn [well_formed] in Hw. apply andb_true_iff in Hw as [_ Hw]. cbn [height] in Hh. pose proof (height_pos e).
    inversion H as [| | | | | |? ? ? l vs Hl Hmin Hmax Hn|]; subst. cbn [reading_of converted of_tree read_vector ArrayFacts.t_array].
    destruct (Z.eqb_spec (d + 1) JsonReader.max_read_depth); [lia|].
    rewrite (elements_represented e (d + 1) max l vs) by (done || intros y w Hy; apply IH; done || lia). done.
  - cbn [well_formed] in Hw. apply andb_true_iff in Hw as [Hnames Hw]. apply bool_decide_eq_true in Hnames. pose proof H as Hrep.
    inversion H as [| | | | | | |? xs l Hlen Hfew Hsome Hnone]; subst. rewrite reading_of_object. cbn [converted of_tree read_object_of read_slots ObjectFacts.t_object].
    pose proof (height_object fs) as Hpos.
    destruct (Z.eqb_spec (d + 1) JsonReader.max_read_depth); [lia|].
    rewrite forallb_forall in Hw. rewrite Forall_lookup in IH. unfold JsonObject.object_tree, Wire.read_object.
    destruct (members_read fs Hnames xs (tree_of (slots_from 0 fs) (d + 1)) Hlen l [] (replicate (length fs) None))
      as (seen & s & -> & [Hls Hs] & _ & Hall).
    + split; [by rewrite length_replicate|]. intros i Hi. rewrite lookup_replicate_2 by lia. done.
    + intros j f v Hj Hv. destruct (represented_named fs xs l j f v Hrep Hj Hv) as (y & Hy & Hr & _). exists y. split; [done|]. intros s.
      unfold tree_of. rewrite slots_from_lookup, Hj. cbn. rewrite (IH j f Hj y v); [done| |done|lia|].
      * apply Hw, list_elem_of_In. by eapply list_elem_of_lookup_2.
      * pose proof (height_field fs f ltac:(by eapply list_elem_of_lookup_2)). lia.
    + intros j f Hj. split; [|by intros _ ?%elem_of_nil]. destruct (named f.1.2 l) as [|v vs] eqn:En; [cbn; lia|].
      destruct (represented_named fs xs l j f v Hrep Hj) as (y & _ & _ & En'); [rewrite En; left|]. rewrite En in En'. injection En' as ->. cbn. lia.
    + assert (forall i, (i < length fs)%nat -> i ∉ seen -> xs !! i = Some None) as Habs.
      { intros i Hi Hn. destruct (lookup_lt_is_Some_2 fs i Hi) as [f Hf]. destruct (lookup_lt_is_Some_2 xs i ltac:(lia)) as [[y|] Hy]; [|done].
        destruct (Hsome i f y Hf Hy) as (w & Hw' & _). exfalso. apply Hn, (Hall i f Hf). by rewrite Hw'. }
      assert (s = xs) as Es.
      { apply list_eq_same_length with (n := length xs); [done|done|]. intros i a b Hi Ha Hb. rewrite Hs in Ha by done.
        destruct (decide (i ∈ seen)); [congruence|]. rewrite (Habs i) in Hb by (lia || done). congruence. }
      assert (missing (fields_of (slots_from 0 fs)) seen = false) as Hmiss.
      { apply (ObjectFacts.missing_spec (fields_of (slots_from 0 fs))). intros i Hi. unfold JsonObject.is_required in Hi. rewrite fields_lookup in Hi.
        destruct (fs !! i) as [f|] eqn:Hf; [|done]. cbn in Hi. destruct (decide (i ∈ seen)) as [|Hn]; [done|]. exfalso.
        pose proof (lookup_lt_Some _ _ _ Hf). destruct (Hnone i f Hf (Habs i ltac:(lia) Hn)). congruence. }
      cbn [ebind fst snd]. rewrite Hmiss. cbn [ebind fst snd]. unfold JsonObject.reset_omitted. rewrite (absent_reset xs); [done| |done|].
      * intros i t Hi. apply elem_of_seq in Hi. rewrite length_fields in Hi. unfold reset_of. rewrite slots_from_lookup.
        destruct (lookup_lt_is_Some_2 fs i ltac:(lia)) as [f ->]. done.
      * intros i Hi Hn. apply elem_of_seq in Hi. rewrite length_fields in Hi. apply Habs; [lia|done].
Qed.

End facts.
End Schema.

(** ** A value of a schema *)
Module SchemaSample.
Import Sample SampleText Schema.

Definition inner : schema := TObject [(true, "n"%string, TUnsigned u32_max); (false, "flag"%string, TBool)].
Definition sample_schema : schema :=
  TObject [(true, "name"%string, TString); (true, "key"%string, TBlob 4); (false, "inner"%string, inner);
    (false, "list"%string, TArray 1 3 (TSigned (- 2 ^ 31) (2 ^ 31 - 1))); (false, "more"%string, TString)].
(** The members are in another order, one is of no field, [flag] and [more] are absent. *)
Definition sample_data : data :=
  DObject [Some (DString (bytes_of_string "a \ b")); Some (DBlob 0xdeadbeef); Some (DObject [Some (DInteger 4294967295); None]);
    Some (DArray [DInteger (-7); DInteger 12]); None].

Lemma inner_represents : represents inner (DObject [Some (DInteger 4294967295); None]) (WObj [(0, "n"%string, WUint 4294967295)]).
Proof.
  constructor; [done|by vm_compute| |].
  - intros [|[|j]] f x [= <-] [= <-]. eexists. split; [reflexivity|]. constructor; [by left|by vm_compute].
  - intros [|[|j]] f [= <-] [=]. by split.
Qed.
Lemma sample_represents : represents sample_schema sample_data (WObj sample_members).
Proof.
  constructor; [done|by vm_compute| |].
  - intros [|[|[|[|[|j]]]]] f x [= <-] [= <-]; eexists; (split; [reflexivity|]).
    + constructor.
    + apply (rep_blob 4 0xdeadbeef). by vm_compute.
    + exact inner_represents.
    + constructor; [|repeat constructor; by vm_compute|by vm_compute|by vm_compute].
      repeat constructor; (by left) || (by right) || by vm_compute.
  - intros [|[|[|[|[|j]]]]] f [= <-] [=]. by split.
Qed.


(** A member that is given twice, one that is required and absent, an element too many. *)
Definition read_inner (l : list (Z * String.string * wvalue)) : expect data := JsonReader.from_bytes (read_bytes (reading_of inner)) (compact (WObj l)).
Example rejected :
  read_inner [(0, "n"%string, WUint 1); (0, "n"%string, WUint 1)] = Err (schema_err schema_invalid_key) /\
  read_inner [(0, "flag"%string, WBool true)] = Err (schema_err schema_missing_key) /\
  read_inner [(0, "n"%string, WUint (2 ^ 32))] = Err (schema_err schema_smaller_integer) /\
  JsonReader.from_bytes (read_bytes (reading_of (TArray 1 1 TBool))) (compact (WArr [WBool true; WBool true])) =
    Err (schema_err schema_array_max_element).
Proof. vm_compute. split_and!; reflexivity. Qed.
End SchemaSample.
