(* ===== verification/Account.v ===== *)
(** src/db/account.h, src/db/account.cpp: the part of a database account that
    a scanner thread works on. The sorted vectors [spendable_] and [pubs_] are
    searched by [std::lower_bound]; [outputs_] and [spends_] gather what a
    batch of blocks found until [updated] takes them. *)

From S2P Require Import Prelude Data.

Module Account.

Record internal := Internal {
  in_address : list Z;
  in_id : account_id;
  in_pubs : account_address;
  in_view_key : secret_key
}.

(** [immutable_] is null in a default-constructed or moved-from account. *)
Record state := State {
  immutable_ : option internal;
  spendable_ : list (output_id * address_index);
  pubs_ : list public_key;
  spends_ : list spend;
  outputs_ : list output;
  height_ : block_id
}.

Record update := Update {
  u_spends : list spend;
  u_outputs : list output;
  u_old_height : block_id;
  u_new_height : block_id
}.

Definition sort_pubs (l r : public_key) : bool := l <? r.
Definition spendable_lt : output_id * address_index -> output_id * address_index -> bool :=
  pair_lt output_id_lt address_index_lt.

#[export] Instance sort_pubs_total : TotalLt sort_pubs.
Proof. apply Z_ltb_total. Qed.
#[export] Instance spendable_lt_total : TotalLt spendable_lt.
Proof. apply _. Qed.

Section constructor.
(** The base58 form of an address is computed by the monero libraries. *)
Context (address_string : account_address -> list Z).

Definition make_internal (source : Data.account) : internal :=
  Internal (address_string (acc_address source)) (acc_id source) (acc_address source) (acc_key source).

Definition construct (source : Data.account) (spendable : list (output_id * address_index))
    (pubs : list public_key) : state :=
  State (Some (make_internal source)) (std_sort spendable_lt spendable) (std_sort sort_pubs pubs)
    [] [] (acc_scan_height source).
End constructor.

Definition empty_account : state := State None [] [] [] [] 0.

Definition null_check (a : state) : expect internal :=
  match immutable_ a with Some i => Ok i | None => Err kInvalidArgument end.

Definition clone (a : state) : state :=
  State (immutable_ a) (spendable_ a) (pubs_ a) (spends_ a) (outputs_ a) (height_ a).

Definition updated (new_height : block_id) (a : state) : update * state :=
  (Update (spends_ a) (outputs_ a) (height_ a) new_height,
   State (immutable_ a) (spendable_ a) (pubs_ a) [] [] (Z.max (height_ a) new_height)).

Definition id (a : state) : account_id :=
  match immutable_ a with Some i => in_id i | None => account_id_invalid end.
Definition address (a : state) : expect (list Z) := let* i := null_check a in Ok (in_address i).
Definition db_address (a : state) : expect account_address := let* i := null_check a in Ok (in_pubs i).
Definition get_view_public (a : state) : expect public_key :=
  let* i := null_check a in Ok (view_public (in_pubs i)).
Definition get_spend_public (a : state) : expect public_key :=
  let* i := null_check a in Ok (spend_public (in_pubs i)).
Definition get_view_key (a : state) : expect secret_key := let* i := null_check a in Ok (in_view_key i).
Definition scan_height (a : state) : block_id := height_ a.

Definition get_spendable (oid : output_id) (a : state) : option address_index :=
  match spendable_ a !! lower_bound (fun e => spendable_lt e (oid, address_index_primary)) (spendable_ a) with
  | Some e => if output_id_eqb e.1 oid then Some e.2 else None
  | None => None
  end.

Definition add_out (out : output) (a : state) : bool * state :=
  let pos := lower_bound (fun p => sort_pubs p (out_pub out)) (pubs_ a) in
  if (match (pubs_ a !! pos : option public_key) with Some p => p =? out_pub out | None => false end) then (false, a)
  else
    let value := (sme_id (out_spend_meta out), out_recipient out) in
    (true, State (immutable_ a)
       (insert_at (lower_bound (fun e => spendable_lt e value) (spendable_ a)) value (spendable_ a))
       (insert_at pos (out_pub out) (pubs_ a))
       (spends_ a) (outputs_ a ++ [out]) (height_ a)).

Definition add_spend (sp : spend) (a : state) : state :=
  State (immutable_ a) (spendable_ a) (pubs_ a) (spends_ a ++ [sp]) (outputs_ a) (height_ a).

(** [by_height] orders accounts for the distribution of work over threads. *)
Definition by_height (l r : state) : bool := scan_height l <? scan_height r.

(** ** Runs of a scanner thread on one account *)

Inductive op :=
| OpAddOut (out : output)
| OpAddSpend (sp : spend)
| OpUpdated (new_height : block_id).

Definition exec (st : list update * state) (o : op) : list update * state :=
  let '(us, a) := st in
  match o with
  | OpAddOut out => (us, (add_out out a).2)
  | OpAddSpend sp => (us, add_spend sp a)
  | OpUpdated h => let '(u, a) := updated h a in (us ++ [u], a)
  end.
Definition run (ops : list op) (a : state) : list update * state := foldl exec ([], a) ops.

(** ** Invariant: both vectors are sorted *)

Record invariant (a : state) : Prop := {
  inv_spendable : sorted_by spendable_lt (spendable_ a);
  inv_pubs : sorted_by sort_pubs (pubs_ a)
}.

Lemma construct_invariant f source spendable pubs : invariant (construct f source spendable pubs).
Proof. split; apply std_sort_sorted, _. Qed.

(** What [add_out] does, in terms of membership. *)
Lemma add_out_known out a :
  invariant a -> out_pub out ∈ pubs_ a -> add_out out a = (false, a).
Proof.
  intros [_ Hp] Hin. unfold add_out; cbv zeta. assert (pubs_ a !! lower_bound (fun p => sort_pubs p (out_pub out)) (pubs_ a) = Some (out_pub out)) as ->
    by by apply (lower_bound_found sort_pubs).
  by rewrite Z.eqb_refl.
Qed.
Lemma add_out_new out a :
  invariant a -> out_pub out ∉ pubs_ a ->
  exists a', add_out out a = (true, a') /\ invariant a' /\
    pubs_ a' ≡ₚ out_pub out :: pubs_ a /\
    spendable_ a' ≡ₚ (sme_id (out_spend_meta out), out_recipient out) :: spendable_ a /\
    immutable_ a' = immutable_ a /\ spends_ a' = spends_ a /\
    outputs_ a' = outputs_ a ++ [out] /\ height_ a' = height_ a.
Proof.
  intros [Hs Hp] Hin. unfold add_out; cbv zeta. pose proof (lower_bound_found sort_pubs (out_pub out) _ Hp) as Hf.
  destruct (pubs_ a !! lower_bound (fun p => sort_pubs p (out_pub out)) (pubs_ a)) as [p|] eqn:E.
  - destruct (Z.eqb_spec p (out_pub out)) as [->|Hne]; [by destruct Hin; apply Hf|].
    eexists. split; [done|]. split; [split; apply sorted_insert; try apply _; done|].
    cbn. by rewrite !insert_at_perm.
  - eexists. split; [done|]. split; [split; apply sorted_insert; try apply _; done|].
    cbn. by rewrite !insert_at_perm.
Qed.

Lemma exec_invariant st o : invariant st.2 -> invariant (exec st o).2.
Proof.
  destruct st as [us a], o; cbn.
  - intros Ha. destruct (decide (out_pub out ∈ pubs_ a)) as [Hin|Hin].
    + by rewrite add_out_known.
    + by destruct (add_out_new out a Ha Hin) as (a' & -> & Ha' & _).
  - by intros [? ?].
  - by intros [? ?].
Qed.

(** ** What a run accepts *)

(** Outputs with a public key not seen before, in order; spends are all taken. *)
Fixpoint fresh_outputs (seen : list public_key) (ops : list op) : list output :=
  match ops with
  | [] => []
  | OpAddOut out :: ops =>
    if bool_decide (out_pub out ∈ seen) then fresh_outputs seen ops
    else out :: fresh_outputs (out_pub out :: seen) ops
  | _ :: ops => fresh_outputs seen ops
  end.
Fixpoint all_spends (ops : list op) : list spend :=
  match ops with
  | [] => []
  | OpAddSpend sp :: ops => sp :: all_spends ops
  | _ :: ops => all_spends ops
  end.
Fixpoint final_height (h : block_id) (ops : list op) : block_id :=
  match ops with
  | [] => h
  | OpUpdated h' :: ops => final_height (Z.max h h') ops
  | _ :: ops => final_height h ops
  end.

Lemma fresh_outputs_perm seen seen' ops :
  seen ≡ₚ seen' -> fresh_outputs seen ops = fresh_outputs seen' ops.
Proof.
  revert seen seen'. induction ops as [|[out|sp|h] ops IH]; intros seen seen' Hp; cbn; eauto.
  rewrite (bool_decide_ext (out_pub out ∈ seen) (out_pub out ∈ seen')) by (by rewrite Hp).
  case_bool_decide; [by apply IH|]. f_equal. apply IH. by f_equiv.
Qed.

Definition spend_entry (out : output) : output_id * address_index :=
  (sme_id (out_spend_meta out), out_recipient out).

Lemma run_from ops us a :
  invariant a ->
  let r := foldl exec (us, a) ops in
  invariant r.2 /\
  concat (u_outputs <$> r.1) ++ outputs_ r.2 =
    (concat (u_outputs <$> us) ++ outputs_ a) ++ fresh_outputs (pubs_ a) ops /\
  concat (u_spends <$> r.1) ++ spends_ r.2 =
    (concat (u_spends <$> us) ++ spends_ a) ++ all_spends ops /\
  spendable_ r.2 ≡ₚ (spend_entry <$> fresh_outputs (pubs_ a) ops) ++ spendable_ a /\
  height_ r.2 = final_height (height_ a) ops.
Proof.
  revert us a. induction ops as [|o ops IH]; intros us a Ha; cbn [foldl].
  { cbn. rewrite !app_nil_r. done. }
  destruct o as [out|sp|h]; cbn [exec fresh_outputs all_spends final_height].
  - destruct (decide (out_pub out ∈ pubs_ a)) as [Hin|Hin].
    + rewrite add_out_known by done. rewrite bool_decide_true by done. by apply IH.
    + destruct (add_out_new out a Ha Hin) as (a' & -> & Ha' & Hpub & Hsp & _ & Hs & Ho & Hh).
      rewrite bool_decide_false by done. cbn [snd].
      destruct (IH us a' Ha') as (H1 & H2 & H3 & H4 & H5).
      rewrite (fresh_outputs_perm _ (out_pub out :: pubs_ a)) in H2, H4 by done.
      rewrite Ho in H2. rewrite Hs in H3. rewrite Hh in H5. rewrite Hsp in H4.
      split_and!; [done| | done| |done].
      * rewrite H2, <- !app_assoc. done.
      * rewrite H4. cbn [fmap list_fmap]. by rewrite <- Permutation_middle.
  - destruct (IH us (add_spend sp a) ltac:(by destruct Ha)) as (H1 & H2 & H3 & H4 & H5).
    split_and!; [done|done| |done|done]. rewrite H3. cbn [spends_ add_spend]. by rewrite <- !app_assoc.
  - cbn [updated].
    match goal with |- context [foldl exec (?us', ?a') ops] =>
      destruct (IH us' a' ltac:(by destruct Ha)) as (H1 & H2 & H3 & H4 & H5) end.
    split_and!; [done| | |done|done].
    + rewrite H2. cbn [outputs_]. by rewrite fmap_app, concat_app, app_nil_r; cbn; rewrite !app_nil_r.
    + rewrite H3. cbn [spends_]. by rewrite fmap_app, concat_app, app_nil_r; cbn; rewrite !app_nil_r.
Qed.

(** The search of [get_spendable] in a sorted vector. *)
Lemma primary_not_greater oid i :
  valid_address_index i -> spendable_lt (oid, i) (oid, address_index_primary) = false.
Proof.
  intros [H1 H2]. unfold spendable_lt, pair_lt; cbn. rewrite tlt_irrefl. cbn.
  unfold address_index_lt, address_index_primary, in_u32 in *; cbn.
  destruct (Z.eqb_spec (maj_i i) 0); apply Z.ltb_ge; lia.
Qed.

Lemma get_spendable_spec oid a :
  invariant a -> Forall (fun e => valid_address_index e.2) (spendable_ a) ->
  match get_spendable oid a with
  | Some i => (oid, i) ∈ spendable_ a /\ forall i', (oid, i') ∈ spendable_ a -> address_index_lt i' i = false
  | None => forall i, (oid, i) ∉ spendable_ a
  end.
Proof.
  intros [Hs _] Hv. unfold get_spendable. set (x := (oid, address_index_primary)).
  set (n := lower_bound (fun e => spendable_lt e x) (spendable_ a)).
  assert (forall i, (oid, i) ∈ spendable_ a -> (oid, i) ∈ drop n (spendable_ a)) as Hd.
  { intros i Hi. rewrite Forall_forall in Hv. pose proof (Hv _ Hi) as Hvi.
    rewrite <- (take_drop n (spendable_ a)) in Hi. apply elem_of_app in Hi as [Hi|Hi]; [|done].
    apply lower_bound_before in Hi. unfold x in Hi. by rewrite primary_not_greater in Hi. }
  destruct (spendable_ a !! n) as [[o i]|] eqn:E.
  - assert (forall i', (oid, i') ∈ spendable_ a -> spendable_lt (oid, i') (o, i) = false) as Hmin.
    { intros i' Hi'%Hd. rewrite (drop_S _ (o, i)) in Hi' by done. apply (sorted_drop spendable_lt _ n) in Hs.
      rewrite (drop_S _ (o, i)) in Hs by done. inversion Hs as [|? ? _ Hf]; subst.
      apply elem_of_cons in Hi' as [[= -> ->]|Hi']; [apply tlt_irrefl|].
      rewrite Forall_forall in Hf. by apply Hf. }
    cbn [fst snd]. destruct (output_id_eqb o oid) eqn:Eo.
    + apply output_id_eqb_eq in Eo. subst o. split; [by eapply list_elem_of_lookup_2|].
      intros i' Hi'%Hmin. unfold spendable_lt, pair_lt in Hi'; cbn in Hi'. by rewrite tlt_irrefl in Hi'.
    + intros i' Hi'%Hmin. apply lower_bound_at in E. unfold spendable_lt, pair_lt, x in *; cbn in *.
      apply orb_false_iff in Hi' as [H1 _], E as [H2 _]. pose proof (tlt_total _ _ H1 H2); subst.
      by rewrite (proj2 (output_id_eqb_eq o o)) in Eo.
  - intros i Hi%Hd. apply lookup_ge_None in E. rewrite drop_ge in Hi by done. by apply elem_of_nil in Hi.
Qed.

(** nothing a scan finds is lost, duplicated or reordered. Over any run of
    [add_out], [add_spend] and [updated] on a new account, the outputs of the
    updates handed out followed by those still held are exactly the outputs
    whose public key was not stored before and had not been added earlier, in
    the order they were added; the spends are all spends in order, and the
    scan height is the maximum of the starting one and those of the updates. *)
Theorem updates_deliver_everything f source spendable pubs ops :
  let r := run ops (construct f source spendable pubs) in
  concat (u_outputs <$> r.1) ++ outputs_ r.2 = fresh_outputs pubs ops /\
  concat (u_spends <$> r.1) ++ spends_ r.2 = all_spends ops /\
  height_ r.2 = final_height (acc_scan_height source) ops.
Proof.
  intros r. destruct (run_from ops [] _ (construct_invariant f source spendable pubs)) as (_ & H2 & H3 & _ & H5).
  cbn in H2, H3, H5. subst r. unfold run. rewrite H2, H3, H5. split_and!; [|done|done].
  apply fresh_outputs_perm, std_sort_perm.
Qed.

(** [get_spendable] after any run: it answers for an output exactly when
    that output was given to the constructor or accepted by [add_out], and
    then with the least subaddress index recorded for it. *)
Theorem get_spendable_after_run f source spendable pubs ops oid :
  let a := (run ops (construct f source spendable pubs)).2 in
  let entries := (spend_entry <$> fresh_outputs pubs ops) ++ spendable in
  Forall (fun e => valid_address_index e.2) entries ->
  match get_spendable oid a with
  | Some i => (oid, i) ∈ entries /\ forall i', (oid, i') ∈ entries -> address_index_lt i' i = false
  | None => forall i, (oid, i) ∉ entries
  end.
Proof.
  intros a entries Hv. destruct (run_from ops [] _ (construct_invariant f source spendable pubs)) as (Hs & _ & _ & Hp & _).
  cbn in Hp. fold a in Hs, Hp. assert (spendable_ a ≡ₚ entries) as He.
  { unfold a, run. rewrite Hp, (fresh_outputs_perm _ pubs) by apply std_sort_perm. by rewrite std_sort_perm by apply _. }
  rewrite <- He in Hv. pose proof (get_spendable_spec oid a Hs Hv) as H.
  destruct (get_spendable oid a) as [i|].
  - destruct H as [Hi H]. split; [by rewrite <- He|]. intros i'. rewrite <- He. apply H.
  - intros i. rewrite <- He. apply H.
Qed.

Definition sample_source : Data.account :=
  Data.Account 7 0 (AccountAddress 1 2) 3 100 90 0 0 address_index_primary 0.
Definition sample_out (pub low : Z) (recipient : address_index) : output :=
  Output (TransactionLink 101 5) (SpendMeta (OutputId 0 low) 10 15 0 9) 0 0 0 pub 0 0 0 0 recipient.

Lemma get_spendable_after_run_witness :
  let ops := [OpAddOut (sample_out 40 8 (AddressIndex 1 2)); OpAddOut (sample_out 40 9 (AddressIndex 0 1));
              OpUpdated 102; OpAddOut (sample_out 41 8 (AddressIndex 0 3))] in
  let a := (run ops (construct (fun _ => []) sample_source [(OutputId 0 4, AddressIndex 0 0)] [39])).2 in
  get_spendable (OutputId 0 8) a = Some (AddressIndex 0 3) /\
  forall i, (OutputId 0 9, i) ∉ (spend_entry <$> fresh_outputs [39] ops) ++ [(OutputId 0 4, AddressIndex 0 0)].
Proof.
  intros ops a. split; [vm_compute; reflexivity|].
  refine (get_spendable_after_run (fun _ => []) sample_source [(OutputId 0 4, AddressIndex 0 0)] [39] ops (OutputId 0 9) _).
  repeat constructor; vm_compute; congruence.
Defined.
End Account.
