(* ===== verification/Lmdb.v ===== *)
(** LMDB as src/db/storage.cpp and src/lmdb use it.

    LMDB is third-party code: its tables are a parameter, the class [Lmdb] of
    operations, and what its documentation promises of a [MDB_DUPSORT] table is
    the class [LmdbLaws]. A cursor that walks the duplicates of a key is the
    list of the values it will visit; deleting under the cursor does not change
    what it visits next. [Reference] is a concrete instance of both classes, so
    that hypotheses about the database can be discharged on concrete tables.

    [try_write], [do_create_txn] and [resize] of src/lmdb/lws_database.{h,cpp}
    are modelled over an abstract environment that may fail in every way a
    LMDB call can. *)

From S2P Require Import Prelude.

(** A table of storage.cpp: its keys, its values, and the part of a value that
    its comparison function looks at. *)
Record tdesc := TDesc {
  td_key : Type;
  td_val : Type;
  td_sort : Type;
  td_key_lt : td_key -> td_key -> bool;
  td_proj : td_val -> td_sort;
  td_sort_lt : td_sort -> td_sort -> bool
}.

Class TdescOk (d : tdesc) : Prop := {
  td_key_total :: TotalLt (td_key_lt d);
  td_sort_total :: TotalLt (td_sort_lt d)
}.

(** Equality of keys and of the sorted part, as the comparisons see it. *)
Definition same_by {A} (lt : A -> A -> bool) (x y : A) : bool := negb (lt x y) && negb (lt y x).

Lemma same_by_eq {A} (lt : A -> A -> bool) `{!TotalLt lt} x y : same_by lt x y = true <-> x = y.
Proof.
  unfold same_by. rewrite andb_true_iff, !negb_true_iff. split.
  - intros [H1 H2]. by apply tlt_total.
  - intros ->. by rewrite tlt_irrefl.
Qed.
Lemma same_by_refl {A} (lt : A -> A -> bool) `{!TotalLt lt} x : same_by lt x x = true.
Proof. by apply same_by_eq. Qed.
Lemma same_by_false {A} (lt : A -> A -> bool) `{!TotalLt lt} x y : same_by lt x y = false <-> x <> y.
Proof. rewrite <- (same_by_eq lt x y). by destruct (same_by lt x y). Qed.

Definition key_is (d : tdesc) : td_key d -> td_key d -> bool := same_by (td_key_lt d).
Definition sort_is (d : tdesc) : td_sort d -> td_sort d -> bool := same_by (td_sort_lt d).

Lemma key_is_eq (d : tdesc) `{!TdescOk d} x y : key_is d x y = true <-> x = y.
Proof. apply same_by_eq, _. Qed.
Lemma key_is_neq (d : tdesc) `{!TdescOk d} x y : key_is d x y = false <-> x <> y.
Proof. apply same_by_false, _. Qed.
Lemma key_is_refl (d : tdesc) `{!TdescOk d} x : key_is d x x = true.
Proof. by apply key_is_eq. Qed.
Lemma sort_is_eq (d : tdesc) `{!TdescOk d} x y : sort_is d x y = true <-> x = y.
Proof. apply same_by_eq, _. Qed.
Lemma sort_is_neq (d : tdesc) `{!TdescOk d} x y : sort_is d x y = false <-> x <> y.
Proof. apply same_by_false, _. Qed.
Lemma sort_is_refl (d : tdesc) `{!TdescOk d} x : sort_is d x x = true.
Proof. by apply sort_is_eq. Qed.

(** Insertion of a duplicate: at its place, over one that compares equal. *)
Fixpoint dup_set (d : tdesc) (v : td_val d) (l : list (td_val d)) : list (td_val d) :=
  match l with
  | [] => [v]
  | x :: l =>
    if td_sort_lt d (td_proj d x) (td_proj d v) then x :: dup_set d v l
    else if td_sort_lt d (td_proj d v) (td_proj d x) then v :: x :: l
    else v :: l
  end.
Definition dup_find (d : tdesc) (s : td_sort d) (l : list (td_val d)) : option (td_val d) :=
  List.find (fun v => sort_is d (td_proj d v) s) l.
Definition dup_del (d : tdesc) (s : td_sort d) (l : list (td_val d)) : list (td_val d) :=
  List.filter (fun v => negb (sort_is d (td_proj d v) s)) l.

Definition dup_sorted (d : tdesc) (l : list (td_val d)) : Prop :=
  StronglySorted (fun x y => td_sort_lt d (td_proj d x) (td_proj d y) = true) l.

(** The operations used by storage.cpp. *)
Class Lmdb := {
  tab : tdesc -> Type;
  (** [MDB_SET] / [MDB_FIRST_DUP], then [MDB_NEXT_DUP] *)
  dups {d} : tab d -> td_key d -> list (td_val d);
  (** [MDB_FIRST], then [MDB_NEXT_NODUP] *)
  keys {d} : tab d -> list (td_key d);
  (** [MDB_GET_BOTH]; [None] is [MDB_NOTFOUND] *)
  get_both {d} : tab d -> td_key d -> td_sort d -> option (td_val d);
  (** [MDB_GET_BOTH_RANGE], then [MDB_NEXT_DUP]; the argument tells the values
      that compare less than the one searched for *)
  both_range {d} : tab d -> td_key d -> (td_sort d -> bool) -> list (td_val d);
  (** [mdb_cursor_put] with flags 0, or [MDB_CURRENT] on a value that sorts
      like the current one *)
  put {d} : td_key d -> td_val d -> tab d -> tab d;
  (** [mdb_cursor_put] with [MDB_NODUPDATA]; [None] is [MDB_KEYEXIST] *)
  put_nodupdata {d} : td_key d -> td_val d -> tab d -> option (tab d);
  (** [mdb_cursor_del] under a cursor on the value that sorts like [s] *)
  del {d} : td_key d -> td_sort d -> tab d -> tab d
}.

Class LmdbLaws `(!Lmdb) : Prop := {
  dups_sorted d (t : tab d) k : TdescOk d -> dup_sorted d (dups t k);
  keys_sorted d (t : tab d) : TdescOk d -> StronglySorted (fun x y => td_key_lt d x y = true) (keys t);
  keys_spec d (t : tab d) k : TdescOk d -> k ∈ keys t <-> dups t k <> [];
  get_both_spec d (t : tab d) k s : TdescOk d -> get_both t k s = dup_find d s (dups t k);
  both_range_spec d (t : tab d) k p : TdescOk d ->
    (forall a b, td_sort_lt d a b = true -> p b = true -> p a = true) ->
    both_range t k p = drop (lower_bound (fun v => p (td_proj d v)) (dups t k)) (dups t k);
  dups_put d (t : tab d) k k' v : TdescOk d ->
    dups (put k v t) k' = if key_is d k k' then dup_set d v (dups t k) else dups t k';
  put_nodupdata_spec d (t : tab d) k v : TdescOk d ->
    put_nodupdata k v t =
    match dup_find d (td_proj d v) (dups t k) with Some _ => None | None => Some (put k v t) end;
  dups_del d (t : tab d) k k' s : TdescOk d ->
    dups (del k s t) k' = if key_is d k k' then dup_del d s (dups t k) else dups t k'
}.

(** ** Duplicates as lists *)
Section dup_lists.
Context (d : tdesc) `{!TdescOk d}.
Implicit Types (v x : td_val d) (l : list (td_val d)) (s : td_sort d).

Lemma dup_set_elem v x l :
  dup_sorted d l -> x ∈ dup_set d v l <-> x = v \/ (x ∈ l /\ td_proj d x <> td_proj d v).
Proof.
  induction 1 as [|y l Hl IH Hy]; simpl.
  { rewrite list_elem_of_singleton, elem_of_nil. tauto. }
  rewrite Forall_forall in Hy.
  destruct (td_sort_lt d (td_proj d y) (td_proj d v)) eqn:E1; [|destruct (td_sort_lt d (td_proj d v) (td_proj d y)) eqn:E2].
  - rewrite !elem_of_cons, IH. split; [|naive_solver]. intros [->|[->|[? ?]]]; [|by left|naive_solver].
    right. split; [by left|]. intros E. by rewrite E, tlt_irrefl in E1.
  - rewrite !elem_of_cons. split; [|naive_solver].
    intros [->|[->|Hx]]; [by left|right; split; [by left|]|right; split; [by right|]].
    + intros E. by rewrite E, tlt_irrefl in E2.
    + intros E. pose proof (tlt_trans _ _ _ E2 (Hy _ Hx)) as H. by rewrite E, tlt_irrefl in H.
  - pose proof (tlt_total _ _ E1 E2) as E. rewrite !elem_of_cons. split.
    + intros [->|Hx]; [by left|]. right. split; [by right|]. intros E'. specialize (Hy _ Hx).
      by rewrite E, E', tlt_irrefl in Hy.
    + intros [->|[[->|Hx] Hn]]; [by left|done|by right].
Qed.

Lemma dup_set_sorted v l : dup_sorted d l -> dup_sorted d (dup_set d v l).
Proof.
  induction 1 as [|y l Hl IH Hy]; simpl; [repeat constructor|].
  pose proof Hy as Hy'. rewrite Forall_forall in Hy'.
  destruct (td_sort_lt d (td_proj d y) (td_proj d v)) eqn:E1; [|destruct (td_sort_lt d (td_proj d v) (td_proj d y)) eqn:E2].
  - constructor; [exact IH|]. apply Forall_forall. intros x [->|[Hx _]]%dup_set_elem; auto.
  - constructor; [by constructor|]. constructor; [done|]. apply Forall_forall. intros x Hx.
    eapply tlt_trans; [exact E2|by apply Hy'].
  - pose proof (tlt_total _ _ E1 E2) as E. constructor; [done|]. by rewrite <- E.
Qed.

Lemma dup_del_elem s x l : x ∈ dup_del d s l <-> x ∈ l /\ td_proj d x <> s.
Proof.
  unfold dup_del. rewrite !list_elem_of_In, filter_In, negb_true_iff, sort_is_neq by done. done.
Qed.
Lemma dup_del_sorted s l : dup_sorted d l -> dup_sorted d (dup_del d s l).
Proof.
  induction 1 as [|y l Hl IH Hy]; simpl; [constructor|].
  destruct (negb _); [|done]. constructor; [done|]. rewrite Forall_forall in Hy |- *.
  intros x [Hx _]%dup_del_elem. by apply Hy.
Qed.

Lemma dup_find_some s l v : dup_find d s l = Some v -> v ∈ l /\ td_proj d v = s.
Proof.
  intros H. apply find_some in H as [H1 H2]. split; [by apply list_elem_of_In|by apply (sort_is_eq d)].
Qed.
Lemma dup_find_none s l : dup_find d s l = None <-> forall v, v ∈ l -> td_proj d v <> s.
Proof.
  split.
  - intros H v Hv E. apply list_elem_of_In in Hv. pose proof (find_none _ _ H v Hv) as Hn.
    cbn in Hn. by rewrite E, sort_is_refl in Hn.
  - intros H. destruct (dup_find d s l) eqn:E; [|done]. apply dup_find_some in E as [E1 E2].
    by destruct (H _ E1).
Qed.
Lemma dup_sorted_inj l x y : dup_sorted d l -> x ∈ l -> y ∈ l -> td_proj d x = td_proj d y -> x = y.
Proof.
  induction 1 as [|z l Hl IH Hz]; [by intros ?%elem_of_nil|]. rewrite Forall_forall in Hz.
  intros [->|Hx]%elem_of_cons [->|Hy]%elem_of_cons E; auto.
  - specialize (Hz _ Hy). by rewrite E, tlt_irrefl in Hz.
  - specialize (Hz _ Hx). by rewrite E, tlt_irrefl in Hz.
Qed.
Lemma dup_find_elem s l v : dup_sorted d l -> dup_find d s l = Some v <-> v ∈ l /\ td_proj d v = s.
Proof.
  intros Hl. split; [apply dup_find_some|]. intros [Hv Hs].
  destruct (dup_find d s l) as [w|] eqn:E.
  - apply dup_find_some in E as [Hw Hs']. f_equal. eapply dup_sorted_inj; eauto. congruence.
  - by destruct (proj1 (dup_find_none s l) E v Hv).
Qed.
End dup_lists.

(** ** Tables through the laws *)
Section tables.
Context {LM : Lmdb} {LL : LmdbLaws LM} {d : tdesc} `{!TdescOk d}.
Implicit Types (t : tab d) (k : td_key d) (s : td_sort d) (v : td_val d).

Lemma get_both_some t k s v : get_both t k s = Some v <-> v ∈ dups t k /\ td_proj d v = s.
Proof. rewrite get_both_spec by done. apply dup_find_elem, dups_sorted; done. Qed.
Lemma get_both_none t k s : get_both t k s = None <-> forall v, v ∈ dups t k -> td_proj d v <> s.
Proof. rewrite get_both_spec by done. by apply dup_find_none. Qed.

Lemma dups_put_same t k v : dups (put k v t) k = dup_set d v (dups t k).
Proof. by rewrite dups_put, key_is_refl. Qed.
Lemma dups_put_other t k k' v : k <> k' -> dups (put k v t) k' = dups t k'.
Proof. intros. rewrite dups_put by done. by rewrite (proj2 (key_is_neq d k k')). Qed.
Lemma dups_del_same t k s : dups (del k s t) k = dup_del d s (dups t k).
Proof. by rewrite dups_del, key_is_refl. Qed.
Lemma dups_del_other t k k' s : k <> k' -> dups (del k s t) k' = dups t k'.
Proof. intros. rewrite dups_del by done. by rewrite (proj2 (key_is_neq d k k')). Qed.

Lemma elem_put t k k' v x :
  x ∈ dups (put k v t) k' <-> (k' = k /\ x = v) \/ (x ∈ dups t k' /\ (k' = k -> td_proj d x <> td_proj d v)).
Proof.
  destruct (key_is d k k') eqn:E.
  - apply (key_is_eq d) in E as <-. rewrite dups_put_same, dup_set_elem by (done || by apply dups_sorted). naive_solver.
  - apply (key_is_neq d) in E. rewrite dups_put_other by done. naive_solver.
Qed.
Lemma elem_del t k k' s x :
  x ∈ dups (del k s t) k' <-> x ∈ dups t k' /\ (k' = k -> td_proj d x <> s).
Proof.
  destruct (key_is d k k') eqn:E.
  - apply (key_is_eq d) in E as <-. rewrite dups_del_same, dup_del_elem by done. naive_solver.
  - apply (key_is_neq d) in E. rewrite dups_del_other by done. naive_solver.
Qed.

Lemma put_nodupdata_some t k v t' :
  put_nodupdata k v t = Some t' <-> t' = put k v t /\ forall x, x ∈ dups t k -> td_proj d x <> td_proj d v.
Proof.
  rewrite put_nodupdata_spec by done. destruct (dup_find d (td_proj d v) (dups t k)) as [w|] eqn:E.
  - apply dup_find_some in E as [E1 E2]; [|done]. split; [done|]. intros [_ H]. by destruct (H _ E1).
  - pose proof (proj1 (dup_find_none d _ _) E) as H. split; [intros [= <-]; done|]. by intros [-> _].
Qed.
Lemma put_nodupdata_none t k v :
  put_nodupdata k v t = None <-> exists x, x ∈ dups t k /\ td_proj d x = td_proj d v.
Proof.
  rewrite put_nodupdata_spec by done. destruct (dup_find d (td_proj d v) (dups t k)) as [w|] eqn:E.
  - apply dup_find_some in E; [|done]. split; [by exists w|done].
  - pose proof (proj1 (dup_find_none d _ _) E) as H. split; [done|]. intros (x & Hx & Hp). by destruct (H x Hx).
Qed.

(** Two values of a key that sort alike are the same. *)
Lemma dups_inj t k x y : x ∈ dups t k -> y ∈ dups t k -> td_proj d x = td_proj d y -> x = y.
Proof. apply dup_sorted_inj; [done|apply dups_sorted, _]. Qed.

(** [MDB_GET_BOTH_RANGE] and the values after it. *)
Lemma both_range_elem t k (p : td_sort d -> bool) x :
  (forall a b, td_sort_lt d a b = true -> p b = true -> p a = true) ->
  x ∈ both_range t k p <-> x ∈ dups t k /\ p (td_proj d x) = false.
Proof.
  intros Hp. rewrite both_range_spec by done. pose proof (dups_sorted d t k TdescOk0) as Hs. revert Hs.
  generalize (dups t k). intros l Hl. induction Hl as [|y l Hl IH Hy]; cbn [lower_bound drop]; [rewrite elem_of_nil; tauto|].
  rewrite Forall_forall in Hy. destruct (p (td_proj d y)) eqn:E; cbn [drop].
  - rewrite IH, elem_of_cons. split; [tauto|]. intros [[->|Hx] Hf]; [congruence|done].
  - rewrite !elem_of_cons. split; [|tauto]. intros [->|Hx]; [tauto|]. split; [by right|].
    destruct (p (td_proj d x)) eqn:E'; [|done]. rewrite (Hp _ _ (Hy _ Hx)) in E; done.
Qed.

Lemma both_range_sorted t k p :
  (forall a b, td_sort_lt d a b = true -> p b = true -> p a = true) -> dup_sorted d (both_range t k p).
Proof.
  intros Hp. rewrite both_range_spec by done. pose proof (dups_sorted d t k TdescOk0) as Hs.
  unfold dup_sorted in *. revert Hs. generalize (lower_bound (fun v => p (td_proj d v)) (dups t k)).
  generalize (dups t k). intros l n Hl. revert n. induction Hl as [|y l Hl IH Hy]; intros [|n]; cbn; try constructor; auto.
Qed.

(** Deleting a list of values, one after another. *)
Lemma foldl_del_elem k (l : list (td_val d)) t k' x :
  x ∈ dups (foldl (fun t v => del k (td_proj d v) t) t l) k' <->
  x ∈ dups t k' /\ (k' = k -> forall v, v ∈ l -> td_proj d x <> td_proj d v).
Proof.
  revert t. induction l as [|v l IH]; intros t; cbn [foldl].
  - split; [|tauto]. intros Hx. split; [done|]. intros _ v Hv%elem_of_nil. done.
  - rewrite IH, elem_del. split.
    + intros [[Hx Hv] Hl]. split; [done|]. intros E w [->|Hw]%elem_of_cons; auto.
    + intros [Hx Hl]. split; [split; [done|]|]; intros E; [|intros w Hw]; apply Hl; try done.
      * by apply list_elem_of_here.
      * by apply list_elem_of_further.
Qed.
End tables.

(** A missing value that the code does not expect is reported as is. *)
Definition lmdb_check {A} (o : option A) : expect A :=
  match o with Some a => Ok a | None => Err (mdb_err MDB_NOTFOUND) end.
Definition lmdb_check_put {A} (o : option A) : expect A :=
  match o with Some a => Ok a | None => Err (mdb_err MDB_KEYEXIST) end.

(** [bulk_insert]: [MDB_MULTIPLE] puts the values one after another and stops
    at one that exists, which the loop skips; flags 0 overwrites. *)
Section bulk_insert.
Context {LM : Lmdb} {d : tdesc}.

Fixpoint bulk_insert (k : td_key d) (values : list (td_val d)) (t : tab d) : tab d :=
  match values with
  | [] => t
  | v :: values =>
    match put_nodupdata k v t with
    | Some t => bulk_insert k values t
    | None => bulk_insert k values t
    end
  end.
Fixpoint bulk_overwrite (k : td_key d) (values : list (td_val d)) (t : tab d) : tab d :=
  match values with
  | [] => t
  | v :: values => bulk_overwrite k values (put k v t)
  end.
End bulk_insert.

Section bulk_overwrite.
Context {LM : Lmdb} {LL : LmdbLaws LM} {d : tdesc} `{!TdescOk d}.

Lemma bulk_overwrite_app k l1 l2 (t : tab d) :
  bulk_overwrite k (l1 ++ l2) t = bulk_overwrite k l2 (bulk_overwrite k l1 t).
Proof. revert t. induction l1; intros t; cbn; auto. Qed.
Lemma bulk_insert_app k l1 l2 (t : tab d) :
  bulk_insert k (l1 ++ l2) t = bulk_insert k l2 (bulk_insert k l1 t).
Proof. revert t. induction l1; intros t; cbn; [done|]. destruct (put_nodupdata k a t); auto. Qed.

Lemma bulk_overwrite_elem k (l : list (td_val d)) (t : tab d) k' x :
  NoDup (td_proj d <$> l) ->
  x ∈ dups (bulk_overwrite k l t) k' <->
  (k' = k /\ x ∈ l) \/ (x ∈ dups t k' /\ (k' = k -> forall v, v ∈ l -> td_proj d x <> td_proj d v)).
Proof.
  revert t. induction l as [|v l IH]; intros t Hnd; cbn [bulk_overwrite].
  - rewrite elem_of_nil. split; [|tauto]. intros Hx. right. split; [done|]. intros _ v Hv%elem_of_nil. done.
  - cbn [fmap list_fmap] in Hnd. apply NoDup_cons in Hnd as [Hv Hnd]. rewrite IH, elem_put by done.
    assert (forall w, w ∈ l -> td_proj d v <> td_proj d w) as Hvl.
    { intros w Hw E. apply Hv. rewrite E. by apply list_elem_of_fmap_2. }
    split.
    + intros [[-> Hx]|[[[-> ->]|[Hx Hne]] Hl]].
      * left. split; [done|]. by apply list_elem_of_further.
      * left. split; [done|]. by apply list_elem_of_here.
      * right. split; [done|]. intros E w [->|Hw]%elem_of_cons; auto.
    + intros [[-> [->|Hx]%elem_of_cons]|[Hx Hl]].
      * right. split; [by left|]. intros _. apply Hvl.
      * by left.
      * right. split; [right; split; [done|]|]; intros E; [|intros w Hw]; apply Hl; try done.
        -- by apply list_elem_of_here.
        -- by apply list_elem_of_further.
Qed.

Lemma bulk_insert_keeps k (l : list (td_val d)) (t : tab d) k' x :
  x ∈ dups t k' -> x ∈ dups (bulk_insert k l t) k'.
Proof.
  revert t. induction l as [|v l IH]; intros t Hx; cbn [bulk_insert]; [done|].
  destruct (put_nodupdata k v t) eqn:E; [|by apply IH]. apply put_nodupdata_some in E as [-> Hn].
  apply IH. rewrite elem_put. right. split; [done|]. intros ->. by apply Hn.
Qed.
(** Nothing but the given values is added, and each is there afterwards up to
    the part that is compared. *)
Lemma bulk_insert_adds k (l : list (td_val d)) (t : tab d) k' x :
  x ∈ dups (bulk_insert k l t) k' -> x ∈ dups t k' \/ (k' = k /\ x ∈ l).
Proof.
  revert t. induction l as [|v l IH]; intros t Hx; cbn [bulk_insert] in Hx; [by left|].
  destruct (put_nodupdata k v t) eqn:E.
  - apply put_nodupdata_some in E as [-> Hn]. apply IH in Hx as [Hx|[-> Hx]].
    + rewrite elem_put in Hx. rewrite elem_of_cons. naive_solver.
    + right. split; [done|]. by apply list_elem_of_further.
  - apply IH in Hx as [Hx|[-> Hx]]; [by left|right; split; [done|]]. by apply list_elem_of_further.
Qed.
Lemma bulk_insert_stored k (l : list (td_val d)) (t : tab d) v :
  v ∈ l -> exists x, x ∈ dups (bulk_insert k l t) k /\ td_proj d x = td_proj d v.
Proof.
  revert t. induction l as [|w l IH]; intros t; cbn [bulk_insert]; [by intros ?%elem_of_nil|].
  intros [->|Hv]%elem_of_cons; [|destruct (put_nodupdata k w t); auto].
  destruct (put_nodupdata k w t) eqn:E.
  - apply put_nodupdata_some in E as [-> Hn]. exists w. split; [|done]. apply bulk_insert_keeps.
    rewrite elem_put. by left.
  - apply put_nodupdata_none in E as (x & Hx & Ep). exists x. split; [by apply bulk_insert_keeps|done].
Qed.
End bulk_overwrite.

(** ** The reference instance: a table is the log of its insertions *)
Module Reference.

Fixpoint key_set (d : tdesc) (k : td_key d) (l : list (td_key d)) : list (td_key d) :=
  match l with
  | [] => [k]
  | x :: l =>
    if td_key_lt d x k then x :: key_set d k l
    else if td_key_lt d k x then k :: x :: l else x :: l
  end.

Definition rtab (d : tdesc) : Type := list (td_key d * td_val d).
Definition rdups (d : tdesc) (t : rtab d) (k : td_key d) : list (td_val d) :=
  foldr (fun kv acc => if key_is d kv.1 k then dup_set d kv.2 acc else acc) [] t.
Definition rkeys (d : tdesc) (t : rtab d) : list (td_key d) := foldr (fun kv acc => key_set d kv.1 acc) [] t.
Definition rput (d : tdesc) (k : td_key d) (v : td_val d) (t : rtab d) : rtab d := (k, v) :: t.
Definition rdel (d : tdesc) (k : td_key d) (s : td_sort d) (t : rtab d) : rtab d :=
  List.filter (fun kv => negb (key_is d kv.1 k && sort_is d (td_proj d kv.2) s)) t.

#[export] Instance reference : Lmdb := {
  tab := rtab;
  dups d t k := rdups d t k;
  keys d t := rkeys d t;
  get_both d t k s := dup_find d s (rdups d t k);
  both_range d t k p := drop (lower_bound (fun v => p (td_proj d v)) (rdups d t k)) (rdups d t k);
  put d k v t := rput d k v t;
  put_nodupdata d k v t :=
    match dup_find d (td_proj d v) (rdups d t k) with Some _ => None | None => Some (rput d k v t) end;
  del d k s t := rdel d k s t
}.

Lemma key_set_elem (d : tdesc) `{!TdescOk d} k x l : x ∈ key_set d k l <-> x = k \/ x ∈ l.
Proof.
  induction l as [|y l IH]; simpl; [by rewrite list_elem_of_singleton, elem_of_nil; tauto|].
  destruct (td_key_lt d y k) eqn:E1; [|destruct (td_key_lt d k y) eqn:E2].
  - rewrite !elem_of_cons, IH. tauto.
  - rewrite !elem_of_cons. tauto.
  - pose proof (tlt_total _ _ E1 E2). subst. rewrite !elem_of_cons. tauto.
Qed.
Lemma key_set_sorted (d : tdesc) `{!TdescOk d} k l :
  StronglySorted (fun x y => td_key_lt d x y = true) l ->
  StronglySorted (fun x y => td_key_lt d x y = true) (key_set d k l).
Proof.
  induction 1 as [|y l Hl IH Hy]; simpl; [repeat constructor|]. pose proof Hy as Hy'. rewrite Forall_forall in Hy'.
  destruct (td_key_lt d y k) eqn:E1; [|destruct (td_key_lt d k y) eqn:E2].
  - constructor; [done|]. apply Forall_forall. intros x [->|Hx]%key_set_elem; auto.
  - constructor; [by constructor|]. constructor; [done|]. apply Forall_forall. intros x Hx.
    eapply tlt_trans; [exact E2|auto].
  - by constructor.
Qed.

Lemma rdups_sorted (d : tdesc) `{!TdescOk d} t k : dup_sorted d (rdups d t k).
Proof.
  induction t as [|[k' v] t IH]; simpl; [constructor|].
  destruct (key_is d k' k); [by apply dup_set_sorted|done].
Qed.

(** Deleting commutes with inserting. *)
Lemma dup_del_head (d : tdesc) `{!TdescOk d} v l :
  Forall (fun x => td_sort_lt d (td_proj d v) (td_proj d x) = true) l -> dup_del d (td_proj d v) l = l.
Proof.
  induction 1 as [|x l Hx Hl IH]; [done|]. unfold dup_del in *; simpl.
  destruct (sort_is d (td_proj d x) (td_proj d v)) eqn:E; simpl; [|by rewrite IH].
  apply (sort_is_eq d) in E. by rewrite E, tlt_irrefl in Hx.
Qed.
Lemma dup_del_set_same (d : tdesc) `{!TdescOk d} v l :
  dup_sorted d l -> dup_del d (td_proj d v) (dup_set d v l) = dup_del d (td_proj d v) l.
Proof.
  induction 1 as [|x l Hl IH Hx]; simpl.
  { unfold dup_del; simpl. by rewrite sort_is_refl. }
  destruct (td_sort_lt d (td_proj d x) (td_proj d v)) eqn:E1; [|destruct (td_sort_lt d (td_proj d v) (td_proj d x)) eqn:E2].
  - unfold dup_del in *; simpl. by rewrite IH.
  - unfold dup_del; simpl. by rewrite sort_is_refl.
  - unfold dup_del; simpl. rewrite (tlt_total _ _ E1 E2). by rewrite !sort_is_refl.
Qed.
Lemma dup_del_set_other (d : tdesc) `{!TdescOk d} s v l :
  td_proj d v <> s -> dup_sorted d l -> dup_del d s (dup_set d v l) = dup_set d v (dup_del d s l).
Proof.
  intros Hs. assert (Hv : sort_is d (td_proj d v) s = false) by by apply sort_is_neq.
  induction 1 as [|x l Hl IH Hx]; simpl; [unfold dup_del; simpl; by rewrite Hv|].
  destruct (td_sort_lt d (td_proj d x) (td_proj d v)) eqn:E1; [|destruct (td_sort_lt d (td_proj d v) (td_proj d x)) eqn:E2].
  - unfold dup_del in *; simpl. rewrite IH. destruct (sort_is d (td_proj d x) s); simpl; [done|]. by rewrite E1.
  - unfold dup_del in *; simpl. rewrite Hv; simpl. destruct (sort_is d (td_proj d x) s); simpl.
    + assert (Forall (fun y => td_sort_lt d (td_proj d v) (td_proj d y) = true) (List.filter (fun v0 => negb (sort_is d (td_proj d v0) s)) l)) as Hf.
      { apply Forall_forall. intros y Hy. apply list_elem_of_In, filter_In in Hy as [Hy%list_elem_of_In _].
        rewrite Forall_forall in Hx. eapply tlt_trans; [exact E2|auto]. }
      destruct (List.filter _ l) as [|y l']; [done|]. simpl. inversion Hf; subst.
      by rewrite (tlt_asym (td_sort_lt d) (td_proj d v) (td_proj d y)), H1 by done.
    + by rewrite E1, E2.
  - pose proof (tlt_total _ _ E1 E2) as E. unfold dup_del; simpl. rewrite E, Hv; simpl.
    by rewrite <- E, tlt_irrefl.
Qed.

Lemma rdel_dups (d : tdesc) `{!TdescOk d} t k k' s :
  rdups d (rdel d k s t) k' = if key_is d k k' then dup_del d s (rdups d t k) else rdups d t k'.
Proof.
  induction t as [|[k1 v] t IH]; [simpl; by destruct (key_is d k k')|]. unfold rdel; simpl.
  destruct (key_is d k1 k && sort_is d (td_proj d v) s) eqn:E; simpl.
  - fold (rdel d k s t). rewrite IH. apply andb_true_iff in E as [->%(key_is_eq d) E%(sort_is_eq d)].
    destruct (key_is d k k') eqn:Ek; [|done]. rewrite (key_is_refl d). subst s. by rewrite dup_del_set_same by (done || by apply rdups_sorted).
  - fold (rdel d k s t). rewrite IH. destruct (key_is d k k') eqn:Ek; [|done].
    apply (key_is_eq d) in Ek as <-. destruct (key_is d k1 k); [|done].
    by rewrite dup_del_set_other by first [done | by apply (sort_is_neq d) | by apply rdups_sorted].
Qed.

Lemma dup_set_not_nil (d : tdesc) v l : dup_set d v l <> [].
Proof. destruct l; simpl; [done|]. by repeat case_match. Qed.

#[export] Instance reference_laws : LmdbLaws reference.
Proof.
  split; intros d t.
  - intros. by apply rdups_sorted.
  - intros H. simpl. induction t; simpl; [constructor|by apply key_set_sorted].
  - intros k H. simpl. induction t as [|[k1 v] t IH]; simpl; [by rewrite elem_of_nil|].
    rewrite (key_set_elem d), IH. destruct (key_is d k1 k) eqn:E.
    + apply (key_is_eq d) in E as ->. pose proof (dup_set_not_nil d v (rdups d t k)). tauto.
    + apply (key_is_neq d) in E. naive_solver.
  - done.
  - done.
  - intros k k' v H. simpl. destruct (key_is d k k') eqn:E; [|done]. apply (key_is_eq d) in E as ->. done.
  - done.
  - intros k k' s H. simpl. by apply rdel_dups.
Qed.
End Reference.

(** ** Write transactions (lws_database.h, lws_database.cpp)

    [X] is the state of the LMDB environment; a LMDB call returns an error code
    or none, and the next state. [DB] is the content of the database: it
    changes when a transaction commits. [e_shared] counts the shared locks on
    [context::sync] that this thread holds; [resize] takes it exclusively, so
    that calling it with a lock held never returns: [None]. *)
Module Transaction.

Definition max_resize : Z := 1 * 1024 * 1024 * 1024.
Definition initial_mapsize : Z := 128 * 1024 * 1024.

Section transaction.
Context {DB X : Type}.
Context (mdb_txn_begin mdb_txn_commit mdb_env_info : X -> option lmdb_error * X).
Context (mdb_env_set_mapsize : Z -> X -> option lmdb_error * X) (me_mapsize : X -> Z).

Record env := Env { e_shared : nat; e_ext : X }.

Definition acquire_context (e : env) : env := Env (S (e_shared e)) (e_ext e).
Definition release_context (e : env) : env := Env (pred (e_shared e)) (e_ext e).
Definition with_ext (e : env) (x : X) : env := Env (e_shared e) x.

Definition resize (e : env) : option (expect unit * env) :=
  if bool_decide (e_shared e = 0%nat) then
    let '(err, x) := mdb_env_info (e_ext e) in
    match err with
    | Some err => Some (Err (mdb_err err), with_ext e x)
    | None =>
      let more := Z.min (me_mapsize x) max_resize in
      let '(err, x) := mdb_env_set_mapsize (u64 (me_mapsize x + more)) x in
      match err with
      | Some err => Some (Err (mdb_err err), with_ext e x)
      | None => Some (Ok tt, with_ext e x)
      end
    end
  else None.

(** The loop of [do_create_txn]. *)
Fixpoint do_create_txn (attempts : nat) (e : env) : option (expect unit * env) :=
  match attempts with
  | O => Some (Err (mdb_err MDB_MAP_RESIZED), e)
  | S attempts =>
    let e := acquire_context e in
    let '(err, x) := mdb_txn_begin (e_ext e) in
    let e := with_ext e x in
    match err with
    | None => Some (Ok tt, e)
    | Some err =>
      let e := release_context e in
      if bool_decide (err = MDB_MAP_RESIZED) then
        match resize e with
        | Some (Ok _, e) => do_create_txn attempts e
        | r => r
        end
      else Some (Err (mdb_err err), e)
    end
  end.
Definition create_write_txn (e : env) : option (expect unit * env) := do_create_txn 3 e.

Definition commit (e : env) : expect unit * env :=
  let '(err, x) := mdb_txn_commit (e_ext e) in
  let e := release_context (with_ext e x) in
  match err with Some err => (Err (mdb_err err), e) | None => (Ok tt, e) end.

(** [abort_write_txn]: the transaction is dropped and its lock released. *)
Definition abort_write_txn (e : env) : env := release_context e.

Definition map_full : error := mdb_err MDB_MAP_FULL.

(** [try_write]. The function may fail in any way that depends on the
    environment, a full memory map included. *)
Fixpoint try_write {A} (f : X -> DB -> expect (A * DB)) (attempts : nat) (db : DB) (e : env)
    : option (expect A * DB * env) :=
  match attempts with
  | O => Some (Err map_full, db, e)
  | S attempts =>
    match create_write_txn e with
    | None => None
    | Some (Err err, e) => Some (Err err, db, e)
    | Some (Ok _, e) =>
      let retry e :=
        match resize e with
        | None => None
        | Some (Err err, e) => Some (Err err, db, e)
        | Some (Ok _, e) => try_write f attempts db e
        end in
      match f (e_ext e) db with
      | Ok (a, db') =>
        match commit e with
        | (Ok _, e) => Some (Ok a, db', e)
        | (Err err, e) => if bool_decide (err = map_full) then retry e else Some (Err err, db, e)
        end
      | Err err =>
        let e := abort_write_txn e in
        if bool_decide (err = map_full) then retry e else Some (Err err, db, e)
      end
    end
  end.

Lemma resize_unlocked e :
  e_shared e = 0%nat -> exists r e', resize e = Some (r, e') /\ e_shared e' = 0%nat.
Proof.
  intros He. unfold resize. rewrite bool_decide_true by done.
  destruct (mdb_env_info (e_ext e)) as [[err|] x]; [by eexists _, _|].
  destruct (mdb_env_set_mapsize _ x) as [[err|] x']; by eexists _, _.
Qed.

Lemma do_create_txn_locks n e :
  e_shared e = 0%nat ->
  exists r e', do_create_txn n e = Some (r, e') /\ e_shared e' = if is_ok r then 1%nat else 0%nat.
Proof.
  revert e. induction n as [|n IH]; intros e He; cbn [do_create_txn]; [by eexists _, _|].
  destruct (mdb_txn_begin _) as [[err|] x].
  - case_bool_decide; [|eexists _, _; split; [done|exact He]].
    destruct (resize_unlocked (release_context (with_ext (acquire_context e) x))) as (r & e' & -> & He'); [done|].
    destruct r; [by apply IH|by eexists _, _].
  - eexists _, _. split; [done|]. cbn. by rewrite He.
Qed.

(** C35: [try_write] is atomic and leaves no lock behind. Started without the
    shared lock it always returns, however LMDB behaves: it never waits for its
    own lock in [resize], and holds none when it is done. When it reports
    success the database is what one run of the function made of the original
    content; when it reports an error the database is unchanged. *)
Theorem try_write_atomic {A} (f : X -> DB -> expect (A * DB)) attempts db e :
  e_shared e = 0%nat ->
  exists r db' e', try_write f attempts db e = Some (r, db', e') /\ e_shared e' = 0%nat /\
    match r with
    | Ok a => exists x, f x db = Ok (a, db')
    | Err _ => db' = db
    end.
Proof.
  revert e. induction attempts as [|n IH]; intros e He; cbn [try_write]; [by eexists _, _, _|].
  destruct (do_create_txn_locks 3 e He) as ([[]|err] & e1 & Hc & He1); unfold create_write_txn; rewrite Hc; [|by eexists _, _, _].
  assert (forall e2, e_shared e2 = 0%nat -> exists r db' e',
    match resize e2 with
    | None => None
    | Some (Err err, e) => Some (Err err, db, e)
    | Some (Ok _, e) => try_write f n db e
    end = Some (r, db', e') /\ e_shared e' = 0%nat /\
    match r with Ok a => exists x, f x db = Ok (a, db') | Err _ => db' = db end) as Hretry.
  { intros e2 He2. destruct (resize_unlocked e2 He2) as ([[]|err] & e3 & -> & He3); [by apply IH|by eexists _, _, _]. }
  destruct (f (e_ext e1) db) as [[a db1]|err] eqn:Ef.
  - unfold commit. destruct (mdb_txn_commit (e_ext e1)) as [[err|] x]; cbn [fst snd].
    + case_bool_decide; [apply Hretry; cbn; by rewrite He1|].
      eexists _, _, _. split; [done|]. split; [cbn; by rewrite He1|done].
    + eexists _, _, _. split; [done|]. split; [cbn; by rewrite He1|by eexists].
  - case_bool_decide; [apply Hretry; cbn; by rewrite He1|].
    eexists _, _, _. split; [done|]. split; [cbn; by rewrite He1|done].
Qed.
End transaction.

(** An environment whose first commit finds the map full. *)
Lemma try_write_atomic_witness :
  let begin (x : Z) := (@None lmdb_error, x) in
  let commit (x : Z) := if x =? 0 then (Some MDB_MAP_FULL, 1) else (None, x) in
  exists r db' e',
    try_write begin commit begin (fun _ x => (None, x)) (fun _ => initial_mapsize)
      (fun _ (db : Z) => Ok (db, db + 1)) 3 41 (Env 0 0) = Some (r, db', e') /\ e_shared e' = 0%nat /\
    match r with Ok a => exists x : Z, Ok (41, 42) = Ok (a, db') | Err _ => db' = 41 end.
Proof.
  intros begin commit.
  exact (try_write_atomic begin commit begin (fun _ x => (None, x)) (fun _ => initial_mapsize)
    (fun _ (db : Z) => Ok (db, db + 1)) 3 41 (Env 0 0) eq_refl).
Defined.
End Transaction.
