(* ===== verification/Tables.v ===== *)
(** The tables of src/db/storage.cpp: their descriptors, the record of the
    thirteen tables that [storage_internal] opens, and what it means for the
    three account tables to agree. *)

From S2P Require Import Prelude Data Lmdb.

(** [account_lookup] and [account_by_address]. *)
Record account_lookup := AccountLookup { al_id : account_id; al_status : account_status }.
Record account_by_address := AccountByAddress { ab_address : account_address; ab_lookup : account_lookup }.

#[export] Instance account_lookup_eq_dec : EqDecision account_lookup.
Proof. solve_decision. Defined.

Definition blocks_version : Z := 0.
Definition by_address_version : Z := 0.
Definition pows_version : Z := 0.

(** Enumerations are compared by their values. *)
Definition status_lt (l r : account_status) : bool := account_status_num l <? account_status_num r.
Definition request_lt (l r : request) : bool := request_num l <? request_num r.

#[export] Instance status_lt_total : TotalLt status_lt.
Proof. split; intros; by repeat match goal with s : account_status |- _ => destruct s end. Qed.
#[export] Instance request_lt_total : TotalLt request_lt.
Proof. split; intros; by repeat match goal with s : request |- _ => destruct s end. Qed.

Definition output_sort (o : output) : transaction_link * output_id := (out_link o, sme_id (out_spend_meta o)).
Definition output_compare : transaction_link * output_id -> transaction_link * output_id -> bool :=
  pair_lt transaction_link_lt output_id_lt.
Definition spend_sort (s : spend) : transaction_link * key_image_t * output_id :=
  (sp_link s, sp_image s, sp_source s).
Definition spend_compare : transaction_link * key_image_t * output_id -> transaction_link * key_image_t * output_id -> bool :=
  pair_lt (pair_lt transaction_link_lt Z.ltb) output_id_lt.

Definition blocks : tdesc := TDesc Z block_info block_id Z.ltb bi_id Z.ltb.
Definition pows : tdesc := TDesc Z block_pow block_id Z.ltb bp_id Z.ltb.
Definition accounts : tdesc := TDesc account_status account account_id status_lt acc_id Z.ltb.
Definition accounts_by_address : tdesc :=
  TDesc Z account_by_address public_key Z.ltb (fun a => view_public (ab_address a)) Z.ltb.
Definition accounts_by_height : tdesc := TDesc block_id account_lookup account_id Z.ltb al_id Z.ltb.
Definition outputs : tdesc :=
  TDesc account_id output (transaction_link * output_id) Z.ltb output_sort output_compare.
Definition spends : tdesc :=
  TDesc account_id spend (transaction_link * key_image_t * output_id) Z.ltb spend_sort spend_compare.
Definition images : tdesc := TDesc output_id key_image key_image_t output_id_lt ki_value Z.ltb.
Definition requests : tdesc :=
  TDesc request request_info public_key request_lt (fun r => spend_public (ri_address r)) Z.ltb.
Definition webhooks : tdesc :=
  TDesc webhook_key webhook_value webhook_dupsort webhook_key_lt fst webhook_dupsort_lt.
Definition events_by_account_id : tdesc :=
  TDesc account_id webhook_event webhook_event Z.ltb (fun e => e) webhook_event_lt.
Definition subaddress_ranges : tdesc := TDesc account_id subaddress_dict Z Z.ltb fst Z.ltb.
Definition subaddress_indexes : tdesc :=
  TDesc account_id subaddress_map public_key Z.ltb sm_subaddress Z.ltb.

#[export] Instance blocks_ok : TdescOk blocks. Proof. split; apply _. Qed.
#[export] Instance pows_ok : TdescOk pows. Proof. split; apply _. Qed.
#[export] Instance accounts_ok : TdescOk accounts. Proof. split; apply _. Qed.
#[export] Instance accounts_by_address_ok : TdescOk accounts_by_address. Proof. split; apply _. Qed.
#[export] Instance accounts_by_height_ok : TdescOk accounts_by_height. Proof. split; apply _. Qed.
#[export] Instance outputs_ok : TdescOk outputs. Proof. split; [apply _|]. cbn. unfold output_compare. apply _. Qed.
#[export] Instance spends_ok : TdescOk spends. Proof. split; [apply _|]. cbn. unfold spend_compare. apply _. Qed.
#[export] Instance images_ok : TdescOk images. Proof. split; apply _. Qed.
#[export] Instance requests_ok : TdescOk requests. Proof. split; apply _. Qed.
#[export] Instance webhooks_ok : TdescOk webhooks. Proof. split; apply _. Qed.
#[export] Instance events_ok : TdescOk events_by_account_id. Proof. split; apply _. Qed.
#[export] Instance subaddress_ranges_ok : TdescOk subaddress_ranges. Proof. split; apply _. Qed.
#[export] Instance subaddress_indexes_ok : TdescOk subaddress_indexes. Proof. split; apply _. Qed.

(** [storage_internal::tables_] *)
Record tables `{!Lmdb} := Tables {
  t_blocks : tab blocks;
  t_pows : tab pows;
  t_accounts : tab accounts;
  t_accounts_ba : tab accounts_by_address;
  t_accounts_bh : tab accounts_by_height;
  t_outputs : tab outputs;
  t_spends : tab spends;
  t_images : tab images;
  t_requests : tab requests;
  t_webhooks : tab webhooks;
  t_events : tab events_by_account_id;
  t_subaddress_ranges : tab subaddress_ranges;
  t_subaddress_indexes : tab subaddress_indexes
}.

Section setters.
Context {LM : Lmdb}.

Definition with_blocks (t : tab blocks) (s : tables) : tables :=
  Tables LM t (t_pows s) (t_accounts s) (t_accounts_ba s) (t_accounts_bh s) (t_outputs s) (t_spends s) (t_images s) (t_requests s) (t_webhooks s) (t_events s) (t_subaddress_ranges s) (t_subaddress_indexes s).
Definition with_pows (t : tab pows) (s : tables) : tables :=
  Tables LM (t_blocks s) t (t_accounts s) (t_accounts_ba s) (t_accounts_bh s) (t_outputs s) (t_spends s) (t_images s) (t_requests s) (t_webhooks s) (t_events s) (t_subaddress_ranges s) (t_subaddress_indexes s).
Definition with_accounts (t : tab accounts) (s : tables) : tables :=
  Tables LM (t_blocks s) (t_pows s) t (t_accounts_ba s) (t_accounts_bh s) (t_outputs s) (t_spends s) (t_images s) (t_requests s) (t_webhooks s) (t_events s) (t_subaddress_ranges s) (t_subaddress_indexes s).
Definition with_accounts_ba (t : tab accounts_by_address) (s : tables) : tables :=
  Tables LM (t_blocks s) (t_pows s) (t_accounts s) t (t_accounts_bh s) (t_outputs s) (t_spends s) (t_images s) (t_requests s) (t_webhooks s) (t_events s) (t_subaddress_ranges s) (t_subaddress_indexes s).
Definition with_accounts_bh (t : tab accounts_by_height) (s : tables) : tables :=
  Tables LM (t_blocks s) (t_pows s) (t_accounts s) (t_accounts_ba s) t (t_outputs s) (t_spends s) (t_images s) (t_requests s) (t_webhooks s) (t_events s) (t_subaddress_ranges s) (t_subaddress_indexes s).
Definition with_outputs (t : tab outputs) (s : tables) : tables :=
  Tables LM (t_blocks s) (t_pows s) (t_accounts s) (t_accounts_ba s) (t_accounts_bh s) t (t_spends s) (t_images s) (t_requests s) (t_webhooks s) (t_events s) (t_subaddress_ranges s) (t_subaddress_indexes s).
Definition with_spends (t : tab spends) (s : tables) : tables :=
  Tables LM (t_blocks s) (t_pows s) (t_accounts s) (t_accounts_ba s) (t_accounts_bh s) (t_outputs s) t (t_images s) (t_requests s) (t_webhooks s) (t_events s) (t_subaddress_ranges s) (t_subaddress_indexes s).
Definition with_images (t : tab images) (s : tables) : tables :=
  Tables LM (t_blocks s) (t_pows s) (t_accounts s) (t_accounts_ba s) (t_accounts_bh s) (t_outputs s) (t_spends s) t (t_requests s) (t_webhooks s) (t_events s) (t_subaddress_ranges s) (t_subaddress_indexes s).
Definition with_requests (t : tab requests) (s : tables) : tables :=
  Tables LM (t_blocks s) (t_pows s) (t_accounts s) (t_accounts_ba s) (t_accounts_bh s) (t_outputs s) (t_spends s) (t_images s) t (t_webhooks s) (t_events s) (t_subaddress_ranges s) (t_subaddress_indexes s).
Definition with_webhooks (t : tab webhooks) (s : tables) : tables :=
  Tables LM (t_blocks s) (t_pows s) (t_accounts s) (t_accounts_ba s) (t_accounts_bh s) (t_outputs s) (t_spends s) (t_images s) (t_requests s) t (t_events s) (t_subaddress_ranges s) (t_subaddress_indexes s).
Definition with_events (t : tab events_by_account_id) (s : tables) : tables :=
  Tables LM (t_blocks s) (t_pows s) (t_accounts s) (t_accounts_ba s) (t_accounts_bh s) (t_outputs s) (t_spends s) (t_images s) (t_requests s) (t_webhooks s) t (t_subaddress_ranges s) (t_subaddress_indexes s).
Definition with_subaddress_ranges (t : tab subaddress_ranges) (s : tables) : tables :=
  Tables LM (t_blocks s) (t_pows s) (t_accounts s) (t_accounts_ba s) (t_accounts_bh s) (t_outputs s) (t_spends s) (t_images s) (t_requests s) (t_webhooks s) (t_events s) t (t_subaddress_indexes s).
Definition with_subaddress_indexes (t : tab subaddress_indexes) (s : tables) : tables :=
  Tables LM (t_blocks s) (t_pows s) (t_accounts s) (t_accounts_ba s) (t_accounts_bh s) (t_outputs s) (t_spends s) (t_images s) (t_requests s) (t_webhooks s) (t_events s) (t_subaddress_ranges s) t.
End setters.

(** ** Agreement of the three account tables

    [accounts_bh] and [accounts_ba] index [accounts] by scan height and by
    address. While a loop moves several accounts to the height [nh], their
    entries [pending] are missing from [accounts_bh] until a final
    [bulk_insert]. *)
Section consistency.
Context {LM : Lmdb} {LL : LmdbLaws LM}.
Implicit Types (acc : tab accounts) (ba : tab accounts_by_address) (bh : tab accounts_by_height).

Definition has_account acc (st : account_status) (u : account) : Prop := u ∈ dups (d:=accounts) acc st.

Definition bh_agrees acc bh (nh : block_id) (pending : list account_lookup) : Prop :=
  forall h l, (l ∈ dups (d:=accounts_by_height) bh h \/ (h = nh /\ l ∈ pending)) <->
    exists u, has_account acc (al_status l) u /\ acc_id u = al_id l /\ acc_scan_height u = h.
Definition ba_agrees acc ba : Prop :=
  forall b, b ∈ dups (d:=accounts_by_address) ba by_address_version <->
    exists u, has_account acc (al_status (ab_lookup b)) u /\ acc_id u = al_id (ab_lookup b) /\ acc_address u = ab_address b.
Definition ids_unique acc : Prop :=
  forall st st' u u', has_account acc st u -> has_account acc st' u' -> acc_id u = acc_id u' -> st = st' /\ u = u'.

Record agree acc ba bh (nh : block_id) (pending : list account_lookup) : Prop := {
  agree_bh : bh_agrees acc bh nh pending;
  agree_ba : ba_agrees acc ba;
  agree_ids : ids_unique acc
}.
Definition consistent (s : tables) : Prop := agree (t_accounts s) (t_accounts_ba s) (t_accounts_bh s) 0 [].

Lemma agree_nil_any acc ba bh nh nh' : agree acc ba bh nh [] -> agree acc ba bh nh' [].
Proof.
  intros [H1 H2 H3]. split; [|done|done]. intros h l. specialize (H1 h l). rewrite elem_of_nil in *. rewrite <- H1. tauto.
Qed.

(** Replacing an account by one with the same id and address. *)
Lemma has_account_put acc st u u' st0 u0 :
  ids_unique acc -> has_account acc st u -> acc_id u' = acc_id u ->
  has_account (put (d:=accounts) st u' acc) st0 u0 <->
  (st0 = st /\ u0 = u') \/ (has_account acc st0 u0 /\ acc_id u0 <> acc_id u).
Proof.
  intros Hu Hin Hid. unfold has_account. rewrite (elem_put (d:=accounts)). cbn [td_proj accounts]. rewrite Hid. split.
  - intros [?|[H Hne]]; [by left|]. right. split; [done|]. intros E. destruct (Hu _ _ _ _ H Hin E) as [-> ->]. by apply Hne.
  - intros [?|[H Hne]]; [by left|]. right. split; [done|by intros _].
Qed.

Lemma ids_unique_put acc st u u' :
  ids_unique acc -> has_account acc st u -> acc_id u' = acc_id u -> ids_unique (put (d:=accounts) st u' acc).
Proof.
  intros Hu Hin Hid st1 st2 u1 u2 H1 H2 E.
  apply (has_account_put _ _ u) in H1, H2; [|done..].
  destruct H1 as [[-> ->]|[H1 N1]], H2 as [[-> ->]|[H2 N2]]; [done|congruence|congruence|eauto].
Qed.

Lemma ba_agrees_put acc ba st u u' :
  ids_unique acc -> ba_agrees acc ba -> has_account acc st u -> acc_id u' = acc_id u ->
  acc_address u' = acc_address u -> ba_agrees (put (d:=accounts) st u' acc) ba.
Proof.
  intros Hu Hba Hin Hid Ha b. unfold ba_agrees in Hba. rewrite Hba. split; intros (u0 & H0 & E1 & E2).
  - destruct (decide (acc_id u0 = acc_id u)) as [E|E].
    + destruct (Hu _ _ _ _ H0 Hin E) as [Hst ->]. exists u'.
      rewrite has_account_put by done. split_and!; [by left|congruence|congruence].
    + exists u0. rewrite has_account_put by done. split_and!; [by right|done|done].
  - apply (has_account_put _ _ u) in H0 as [[Hst ->]|[H0 _]]; [| |done..].
    + exists u. rewrite Hst. split_and!; [done|congruence|congruence].
    + by exists u0.
Qed.

(** A change that leaves the scan height alone. *)
Lemma agree_touch acc ba bh nh pending st u u' :
  agree acc ba bh nh pending -> has_account acc st u ->
  acc_id u' = acc_id u -> acc_address u' = acc_address u -> acc_scan_height u' = acc_scan_height u ->
  agree (put (d:=accounts) st u' acc) ba bh nh pending.
Proof.
  intros [Hbh Hba Hu] Hin Hid Ha Hs. split; [|by eapply ba_agrees_put|by eapply ids_unique_put].
  intros h l. unfold bh_agrees in Hbh. rewrite Hbh. split; intros (u0 & H0 & E1 & E2).
  - destruct (decide (acc_id u0 = acc_id u)) as [E|E].
    + destruct (Hu _ _ _ _ H0 Hin E) as [Hst ->]. exists u'.
      rewrite has_account_put by done. split_and!; [by left|congruence|congruence].
    + exists u0. rewrite has_account_put by done. split_and!; [by right|done|done].
  - apply (has_account_put _ _ u) in H0 as [[Hst ->]|[H0 _]]; [| |done..].
    + exists u. rewrite Hst. split_and!; [done|congruence|congruence].
    + by exists u0.
Qed.

(** A change of the scan height to [nh], with the old index entry removed. *)
Lemma agree_move acc ba bh nh pending st u u' :
  agree acc ba bh nh pending -> has_account acc st u ->
  acc_id u' = acc_id u -> acc_address u' = acc_address u -> acc_scan_height u' = nh ->
  agree (put (d:=accounts) st u' acc) ba (del (d:=accounts_by_height) (acc_scan_height u) (acc_id u) bh) nh
    (pending ++ [AccountLookup (acc_id u) st]).
Proof.
  intros [Hbh Hba Hu] Hin Hid Ha Hs. split; [|by eapply ba_agrees_put|by eapply ids_unique_put].
  intros h l. rewrite (elem_del (d:=accounts_by_height)), elem_of_app, list_elem_of_singleton. cbn [td_proj accounts_by_height]. split.
  - intros [[Hl Hne]|[-> [Hl| ->]]].
    + destruct (proj1 (Hbh h l) (or_introl Hl)) as (u0 & H0 & E1 & E2). exists u0.
      rewrite has_account_put by done. split_and!; [|done|done]. right. split; [done|]. intros E.
      destruct (Hu _ _ _ _ H0 Hin E) as [Hst ->]. apply Hne; congruence.
    + destruct (proj1 (Hbh nh l) (or_intror (conj eq_refl Hl))) as (u0 & H0 & E1 & E2).
      destruct (decide (acc_id u0 = acc_id u)) as [E|E].
      * destruct (Hu _ _ _ _ H0 Hin E) as [Hst ->]. exists u'.
        rewrite has_account_put by done. split_and!; [by left|congruence|congruence].
      * exists u0. rewrite has_account_put by done. split_and!; [by right|done|done].
    + exists u'. cbn [al_status al_id]. rewrite has_account_put by done. split_and!; [by left|done|done].
  - intros (u0 & H0 & E1 & E2). apply (has_account_put _ _ u) in H0 as [[Hst ->]|[H0 N0]]; [| |done..].
    + right. split; [congruence|]. right. destruct l; cbn in *. congruence.
    + destruct (proj2 (Hbh h l)) as [Hl|[Hh Hl]]; [by exists u0| |by right; split; [|left]].
      left. split; [done|]. intros _. congruence.
Qed.

(** The final [bulk_insert] of the pending entries. *)
Lemma bulk_insert_elem bh nh pending h l :
  (forall l' l'', (l' ∈ dups (d:=accounts_by_height) bh nh \/ l' ∈ pending) -> l'' ∈ pending -> al_id l' = al_id l'' -> l' = l'') ->
  l ∈ dups (bulk_insert (d:=accounts_by_height) nh pending bh) h <->
  l ∈ dups (d:=accounts_by_height) bh h \/ (h = nh /\ l ∈ pending).
Proof.
  revert bh. induction pending as [|p pending IH]; intros bh Hinj; cbn [bulk_insert].
  { rewrite elem_of_nil. tauto. }
  destruct (put_nodupdata nh p bh) as [bh'|] eqn:E.
  - apply put_nodupdata_some in E as [-> Hn]. rewrite IH.
    + rewrite (elem_put (d:=accounts_by_height)), elem_of_cons. cbn [td_proj accounts_by_height] in *. split; [naive_solver|].
      intros [Hl|[-> [-> |Hl]]]; [|by left; left|by right].
      left. right. split; [done|]. intros ->. by apply Hn.
    + intros l' l'' H1 H2. apply Hinj; [|by right]. rewrite (elem_put (d:=accounts_by_height)) in H1. rewrite elem_of_cons. naive_solver.
  - apply put_nodupdata_none in E as (x & Hx & Ep). cbn [td_proj accounts_by_height] in *.
    assert (x = p) as -> by (apply Hinj; [by left|by left|done]).
    rewrite IH; [rewrite elem_of_cons; naive_solver|].
    intros l' l'' H1 H2. apply Hinj; [|by right]. rewrite elem_of_cons. tauto.
Qed.

Lemma agree_finish acc ba bh nh pending :
  agree acc ba bh nh pending -> agree acc ba (bulk_insert (d:=accounts_by_height) nh pending bh) 0 [].
Proof.
  intros [Hbh Hba Hu]. split; [|done|done]. intros h l. rewrite bulk_insert_elem.
  - specialize (Hbh h l). rewrite elem_of_nil, <- Hbh. tauto.
  - intros l1 l2 H1 H2 E.
    destruct (proj1 (Hbh nh l1)) as (u1 & A1 & B1 & _); [tauto|].
    destruct (proj1 (Hbh nh l2)) as (u2 & A2 & B2 & _); [tauto|].
    destruct (Hu _ _ _ _ A1 A2) as [Hst _]; [congruence|]. destruct l1, l2; cbn in *; congruence.
Qed.

(** A new account, with an id and a view key that no other one has. *)
Lemma agree_add acc ba bh nh u st :
  agree acc ba bh nh [] ->
  (forall st' u', has_account acc st' u' -> acc_id u' <> acc_id u) ->
  (forall b, b ∈ dups (d:=accounts_by_address) ba by_address_version -> view_public (ab_address b) <> view_public (acc_address u)) ->
  let lookup := AccountLookup (acc_id u) st in
  agree (put (d:=accounts) st u acc)
    (put (d:=accounts_by_address) by_address_version (AccountByAddress (acc_address u) lookup) ba)
    (put (d:=accounts_by_height) (acc_scan_height u) lookup bh) nh [].
Proof.
  intros [Hbh Hba Hu] Hid Hview lookup.
  assert (forall st0 u0, has_account (put (d:=accounts) st u acc) st0 u0 <->
    (st0 = st /\ u0 = u) \/ has_account acc st0 u0) as Hhas.
  { intros st0 u0. unfold has_account. rewrite (elem_put (d:=accounts)). cbn [td_proj accounts].
    split; [tauto|]. intros [?|H]; [by left|]. right. split; [done|]. intros _. by eapply Hid. }
  split.
  - intros h l. rewrite (elem_put (d:=accounts_by_height)), elem_of_nil. cbn [td_proj accounts_by_height]. specialize (Hbh h l).
    rewrite elem_of_nil in Hbh. split.
    + intros [[[-> ->]|[Hl _]]|[_ []]].
      * exists u. rewrite Hhas. split_and!; [by left|done|done].
      * destruct (proj1 Hbh (or_introl Hl)) as (u0 & H0 & E). exists u0. rewrite Hhas. split; [by right|done].
    + intros (u0 & [[Hst ->]|H0]%Hhas & E1 & E2); left.
      * left. split; [done|]. destruct l; unfold lookup; cbn in *; congruence.
      * right. assert (acc_id u0 <> acc_id u) by by eapply Hid.
        destruct (proj2 Hbh) as [Hl|[_ []]]; [by exists u0|]. split; [done|]. intros _. cbn. congruence.
  - intros b. rewrite (elem_put (d:=accounts_by_address)). cbn [td_proj accounts_by_address]. specialize (Hba b). split.
    + intros [[_ ->]|[Hb _]].
      * exists u. rewrite Hhas. split_and!; [by left|done|done].
      * destruct (proj1 Hba Hb) as (u0 & H0 & E). exists u0. rewrite Hhas. split; [by right|done].
    + intros (u0 & [[Hst ->]|H0]%Hhas & E1 & E2).
      * left. split; [done|]. destruct b as [? []]; unfold lookup; cbn in *; congruence.
      * right. pose proof (proj2 Hba ltac:(by exists u0)) as Hb. split; [done|]. intros _. by apply Hview.
  - intros st1 st2 u1 u2 [[-> ->]|H1]%Hhas [[-> ->]|H2]%Hhas E; [done| | |eauto].
    + by destruct (Hid _ _ H2).
    + by destruct (Hid _ _ H1).
Qed.
End consistency.

(** A database with nothing in it, in the reference instance. *)
Definition empty_tables : tables := Tables Reference.reference [] [] [] [] [] [] [] [] [] [] [] [] [].
Lemma empty_consistent : consistent empty_tables.
Proof.
  split.
  - intros h l. cbn. rewrite !elem_of_nil. split; [tauto|]. intros (u & Hu & _). by apply elem_of_nil in Hu.
  - intros b. cbn. rewrite elem_of_nil. split; [tauto|]. intros (u & Hu & _). by apply elem_of_nil in Hu.
  - intros st st' u u' Hu. by apply elem_of_nil in Hu.
Qed.
