(* ===== verification/Chain.v ===== *)
(** src/db/storage.cpp, the chain of blocks: [get_blocks_tail] and the readers
    built on it, [sync_chain], [sync_pow], [rollback] and the rollback of
    everything that was found in the removed blocks. *)

From S2P Require Import Prelude Data Lmdb Tables.

(** [cryptonote::checkpoints], which the monero library compiles in: the
    points in order of height, and [get_max_height]. *)
Record checkpoints := Checkpoints { get_points : list (Z * hash); get_max_height : Z }.
Definition find_point (c : checkpoints) (h : Z) : option hash :=
  snd <$> List.find (fun p => p.1 =? h) (get_points c).

Section cursors.
Context {LM : Lmdb} {d : tdesc}.

(** [MDB_NEXT_DUP] after [MDB_GET_BOTH] of [s], and [MDB_PREV_DUP] likewise. *)
Definition next_dups (t : tab d) (k : td_key d) (s : td_sort d) : list (td_val d) :=
  both_range t k (fun a => negb (td_sort_lt d s a)).
(** [MDB_SET_RANGE], then [MDB_NEXT_DUP] and [MDB_NEXT_NODUP]. *)
Definition set_range (t : tab d) (k : td_key d) : list (td_key d * td_val d) :=
  List.filter (fun k' => negb (td_key_lt d k' k)) (keys t) ≫= fun k' => (fun v => (k', v)) <$> dups t k'.
(** [MDB_LAST], then [MDB_PREV]. *)
Definition last_first (t : tab d) : list (td_key d * td_val d) :=
  rev (keys t ≫= fun k' => (fun v => (k', v)) <$> dups t k').
(** [MDB_SET], then [MDB_LAST_DUP]. *)
Definition last_dup (t : tab d) (k : td_key d) : expect (td_val d) := lmdb_check (last (dups t k)).
End cursors.

Section chain.
Context {LM : Lmdb} (points : checkpoints).

(** ** Reading *)

Definition do_get_block_hash (t : tab blocks) (id : block_id) : expect hash :=
  let* b := lmdb_check (get_both t blocks_version id) in Ok (bi_hash b).

(** The ten blocks that end with [value]: [older] are the ones [MDB_PREV_DUP]
    visits from there. *)
Fixpoint tail_blocks (n : nat) (out : list block_info) (value : block_info) (older : list block_info)
    : expect (list block_info * bool) :=
  match n with
  | O => Ok (out, false)
  | S n =>
    let out := out ++ [value] in
    match older with
    | [] => if bi_id value =? 0 then Ok (out, true) else Err (lws_err bad_blockchain)
    | b :: older => tail_blocks n out b older
    end
  end.

Definition add_block (t : tab blocks) (out : list block_info) (id : block_id) : expect (list block_info) :=
  let* h := do_get_block_hash t id in Ok (out ++ [BlockInfo id h]).

Definition back_id (out : list block_info) : block_id := default 0 (bi_id <$> last out).

(** The loop over [i] from 1 to [max_internal]; [2 << i] is an [int]. *)
Fixpoint anchors (t : tab blocks) (anchor : Z) (fuel : nat) (i : Z) (out : list block_info) : expect (list block_info) :=
  match fuel with
  | O => Ok out
  | S fuel =>
    let offset := Z.shiftl 2 i in
    if (anchor <? offset) || (anchor - offset <? get_max_height points) then Ok out
    else let* out := add_block t out (anchor - offset) in anchors t anchor fuel (i + 1) out
  end.

Definition get_blocks_tail (t : tab blocks) (value : block_info) (older : list block_info) (max_internal : nat)
    : expect (list block_info) :=
  let* tl := tail_blocks 10 [] value older in
  let '(out, done) := tl in
  if done : bool then Ok out
  else
    let* out := anchors t (back_id out) max_internal 1 out in
    let* out := if get_max_height points <? back_id out then add_block t out (get_max_height points) else Ok out in
    if negb (back_id out =? 0) then add_block t out 0 else Ok out.

Definition get_blocks (t : tab blocks) (max_internal : nat) : expect (list block_info) :=
  match rev (dups t blocks_version) with
  | [] => Err (mdb_err MDB_NOTFOUND)
  | value :: older => get_blocks_tail t value older (Nat.min 64 max_internal)
  end.

Definition get_blocks_from_height (t : tab blocks) (max_internal : nat) (last_pow : block_id) : expect (list block_info) :=
  let* value := lmdb_check (get_both t blocks_version last_pow) in
  get_blocks_tail t value (rev (List.filter (fun b => bi_id b <? last_pow) (dups t blocks_version))) (Nat.min 64 max_internal).

Definition get_last_block (s : tables) : expect block_info := last_dup (t_blocks s) blocks_version.
Definition get_last_pow_block (s : tables) : expect block_pow := last_dup (t_pows s) pows_version.
Definition get_block_hash (s : tables) (height : block_id) : expect hash := do_get_block_hash (t_blocks s) height.
Definition get_chain_sync (s : tables) : expect (list hash) :=
  let* bs := get_blocks (t_blocks s) 64 in Ok (bi_hash <$> bs).
Definition get_pow_sync (s : tables) : expect (list hash) :=
  let* p := last_dup (t_pows s) pows_version in
  let* bs := get_blocks_from_height (t_blocks s) 64 (bp_id p) in Ok (bi_hash <$> bs).

(** ** A new database: [check_blockchain] and [check_pow] *)

Definition check_blockchain (t : tab blocks) : expect (tab blocks) :=
  match get_points points with
  | [] => Err (lws_err bad_blockchain)
  | (h0, genesis) :: more =>
    if negb (h0 =? 0) then Err (lws_err bad_blockchain)
    else match dups t blocks_version with
         | [] =>
           let* t := lmdb_check_put (put_nodupdata (d:=blocks) blocks_version (BlockInfo h0 genesis) t) in
           match last more with
           | Some (h, x) => lmdb_check_put (put_nodupdata (d:=blocks) blocks_version (BlockInfo h x) t)
           | None => Ok t
           end
         | _ :: _ =>
           let* stored := do_get_block_hash t 0 in
           if stored =? genesis then Ok t else Err (lws_err bad_blockchain)
         end
  end.

Definition check_pow (t : tab pows) : expect (tab pows) :=
  match dups t pows_version with
  | [] => lmdb_check_put (put_nodupdata (d:=pows) pows_version (BlockPow 0 0 (BlockDifficulty 0 1)) t)
  | _ :: _ => Ok t
  end.

(** ** Rollback *)

Definition rollback_spend (user : account_id) (st : tab spends * tab images) (s : spend) : expect (tab spends * tab images) :=
  let '(sp, im) := st in
  let* _ := lmdb_check (get_both im (sp_source s) (sp_image s)) in
  Ok (del (d:=spends) user (spend_sort s) sp, del (d:=images) (sp_source s) (sp_image s) im).
Definition rollback_spends (user : account_id) (height : block_id) (st : tab spends * tab images) : expect (tab spends * tab images) :=
  efold (rollback_spend user) st (both_range (d:=spends) st.1 user (fun k => tl_height k.1.1 <? height)).

Definition rollback_outputs (user : account_id) (height : block_id) (t : tab outputs) : tab outputs :=
  foldl (fun t (o : output) => del (d:=outputs) user (output_sort o) t) t
    (both_range (d:=outputs) t user (fun k => tl_height k.1 <? height)).

Definition set_heights (scan start : block_id) (u : account) : account :=
  Account (acc_id u) (acc_access u) (acc_address u) (acc_key u) scan start (acc_creation u) (acc_flags u)
    (acc_lookahead u) (acc_lookahead_fail u).

Definition rollback_account (height new_height : block_id) (st : tables * list account_lookup)
    (kv : block_id * account_lookup) : expect (tables * list account_lookup) :=
  let '(s, new_by_heights) := st in
  let lookup := kv.2 in
  let* user := lmdb_check (get_both (t_accounts s) (al_status lookup) (al_id lookup)) in
  let user := set_heights new_height (Z.min new_height (acc_start_height user)) user in
  let s := with_accounts (put (d:=accounts) (al_status lookup) user (t_accounts s)) s in
  let new_by_heights := new_by_heights ++ [AccountLookup (acc_id user) (al_status lookup)] in
  let s := with_outputs (rollback_outputs (acc_id user) height (t_outputs s)) s in
  let* si := rollback_spends (acc_id user) height (t_spends s, t_images s) in
  let s := with_images si.2 (with_spends si.1 s) in
  let s := with_accounts_bh (del (d:=accounts_by_height) kv.1 (al_id lookup) (t_accounts_bh s)) s in
  Ok (s, new_by_heights).

Definition rollback_accounts (height : block_id) (s : tables) : expect tables :=
  let new_height := Z.max height 1 - 1 in
  match set_range (t_accounts_bh s) height with
  | [] => Ok s
  | entries =>
    let* st := efold (rollback_account height new_height) (s, []) entries in
    Ok (with_accounts_bh (bulk_insert (d:=accounts_by_height) new_height st.2 (t_accounts_bh st.1)) st.1)
  end.

(** The two nested loops of [rollback_events]: after an event below [height]
    the rest of that user's events is passed over. *)
Fixpoint rollback_user_events (height : block_id) (skip : option account_id)
    (l : list (account_id * webhook_event)) (t : tab events_by_account_id) : tab events_by_account_id :=
  match l with
  | [] => t
  | (user, event) :: l =>
    if bool_decide (skip = Some user) then rollback_user_events height skip l t
    else if tl_height (wo_tx (we_link event)) <? height then rollback_user_events height (Some user) l t
    else rollback_user_events height None l (del (d:=events_by_account_id) user event t)
  end.
Definition rollback_events (height : block_id) (s : tables) : tables :=
  with_events (rollback_user_events height None (last_first (t_events s)) (t_events s)) s.

(** [rest]: the block under the cursor and those [MDB_NEXT_DUP] visits. *)
Definition rollback_chain (rest : list block_info) (height : block_id) (s : tables) : expect tables :=
  let s := with_blocks (foldl (fun t (b : block_info) => del (d:=blocks) blocks_version (bi_id b) t) (t_blocks s) rest) s in
  let s := with_pows
    (match get_both (t_pows s) pows_version height with
     | None => t_pows s
     | Some p => foldl (fun t (p : block_pow) => del (d:=pows) pows_version (bp_id p) t) (t_pows s)
                   (p :: next_dups (t_pows s) pows_version height)
     end) s in
  let* s := rollback_accounts height s in
  Ok (rollback_events height s).

Definition rollback (height : block_id) (s : tables) : expect tables :=
  match get_both (t_blocks s) blocks_version height with
  | None => Ok s
  | Some b => rollback_chain (b :: next_dups (t_blocks s) blocks_version height) height s
  end.

(** ** Appending *)

(** [static_vector]s of 25 and 31 elements are flushed when they are full. *)
Fixpoint append_block_hashes (chain : list hash) (height : Z) (hashes : list block_info) (t : tab blocks) : tab blocks :=
  match chain with
  | [] => bulk_overwrite (d:=blocks) blocks_version hashes t
  | current :: chain =>
    if bool_decide (length hashes = 25%nat) then
      append_block_hashes chain (u64 (height + 1)) [BlockInfo height current]
        (bulk_overwrite (d:=blocks) blocks_version hashes t)
    else append_block_hashes chain (u64 (height + 1)) (hashes ++ [BlockInfo height current]) t
  end.

Fixpoint append_pow (chain : list pow_sync) (height : Z) (buffer : list block_pow) (t : tab pows) : tab pows :=
  match chain with
  | [] => bulk_insert (d:=pows) pows_version buffer t
  | current :: chain =>
    let next := BlockPow height (ps_timestamp current) (ps_cumulative_diff current) in
    if bool_decide (length buffer = 31%nat) then
      append_pow chain (u64 (height + 1)) [next] (bulk_insert (d:=pows) pows_version buffer t)
    else append_pow chain (u64 (height + 1)) (buffer ++ [next]) t
  end.

(** ** Synchronising with the daemon *)

(** The loop over the chain: what is left of the stored blocks when they
    diverge ([None]: they do not), of the chain, and the height reached. *)
Fixpoint sync_chain_loop (regtest : bool) (stored : list block_info) (chain : list hash) (current : Z)
    : expect (option (list block_info) * list hash * Z) :=
  match chain, stored with
  | [], _ => Ok (None, chain, current)
  | _, [] => Ok (None, chain, current)
  | h :: chain', b :: stored' =>
    if negb (bi_hash b =? h) then
      if negb regtest && (current <=? get_max_height points) then Err (lws_err bad_blockchain)
      else Ok (Some stored, chain, current)
    else sync_chain_loop regtest stored' chain' (u64 (current + 1))
  end.

Definition sync_chain (height : block_id) (hashes : list hash) (regtest : bool) (s : tables) : expect tables :=
  match hashes with
  | [] => Err kInvalidArgument
  | first :: chain =>
    let* stored := do_get_block_hash (t_blocks s) height in
    if negb (stored =? first) then Err (lws_err bad_blockchain)
    else
      let* r := sync_chain_loop regtest (next_dups (t_blocks s) blocks_version height) chain (u64 (height + 1)) in
      let '(diverged, chain, current) := r in
      let* s := match diverged with Some rest => rollback_chain rest current s | None => Ok s end in
      Ok (with_blocks (append_block_hashes chain current [] (t_blocks s)) s)
  end.

Definition missed_checkpoint (current : Z) (h : hash) : bool :=
  match find_point points current with Some x => negb (x =? h) | None => false end.

Fixpoint sync_pow_loop (stored : list block_info) (chain : list hash) (current : Z)
    : expect (option (list block_info) * list hash * Z) :=
  match chain with
  | [] => Ok (None, chain, current)
  | h :: chain' =>
    if missed_checkpoint current h then Err (lws_err bad_blockchain)
    else match stored with
    | [] => Ok (None, chain, current)
    | b :: stored' =>
      if negb (bi_id b =? current) then Ok (None, chain, current)
      else if negb (bi_hash b =? h) then
        if current <=? get_max_height points then Err (lws_err bad_blockchain)
        else Ok (Some stored, chain, current)
      else sync_pow_loop stored' chain' (u64 (current + 1))
    end
  end.

Fixpoint scan_checkpoints (chain : list hash) (current : Z) : expect unit :=
  match chain with
  | [] => Ok tt
  | h :: chain => if missed_checkpoint current h then Err (lws_err bad_blockchain) else scan_checkpoints chain (u64 (current + 1))
  end.

Definition sync_pow (height : block_id) (hashes : list hash) (pow : list pow_sync) (s : tables) : expect tables :=
  match hashes with
  | [] => Err kInvalidArgument
  | first :: chain =>
    if negb (bool_decide (length hashes = length pow)) then Err kInvalidArgument
    else
      let* stored := do_get_block_hash (t_blocks s) height in
      if negb (stored =? first) then Err (lws_err bad_blockchain)
      else
        let* r := sync_pow_loop (next_dups (t_blocks s) blocks_version height) chain (u64 (height + 1)) in
        let '(diverged, chain, current) := r in
        let* s := match diverged with Some rest => rollback_chain rest current s | None => Ok s end in
        let* _ := scan_checkpoints chain current in
        let first_pow := drop (length hashes - length chain) pow in
        let s := with_blocks (append_block_hashes chain current [] (t_blocks s)) s in
        Ok (with_pows (append_pow first_pow current [] (t_pows s)) s)
  end.
End chain.

(** ** Appending is overwriting block by block *)
Section append.
Context {LM : Lmdb} {LL : LmdbLaws LM}.

Fixpoint block_infos (height : Z) (chain : list hash) : list block_info :=
  match chain with
  | [] => []
  | h :: chain => BlockInfo height h :: block_infos (u64 (height + 1)) chain
  end.

Lemma append_block_hashes_eq chain height buffer (t : tab blocks) :
  append_block_hashes chain height buffer t =
  bulk_overwrite (d:=blocks) blocks_version (buffer ++ block_infos height chain) t.
Proof.
  revert height buffer t. induction chain as [|h chain IH]; intros height buffer t; cbn [append_block_hashes block_infos].
  - by rewrite app_nil_r.
  - case_bool_decide; rewrite IH.
    + by rewrite <- bulk_overwrite_app.
    + by rewrite <- app_assoc.
Qed.

(** Without wrap-around the blocks have consecutive heights. *)
Lemma block_infos_elem height chain b :
  0 <= height -> height + Z.of_nat (length chain) <= u64_max ->
  b ∈ block_infos height chain <-> exists i h, chain !! i = Some h /\ b = BlockInfo (height + Z.of_nat i) h.
Proof.
  revert height. induction chain as [|x chain IH]; intros height H0 Hmax; cbn [block_infos length] in *.
  - rewrite elem_of_nil. split; [done|]. by intros (i & h & ? & _).
  - rewrite u64_small by (unfold in_u64; lia). rewrite elem_of_cons, IH by lia. split.
    + intros [->|(i & h & Hi & ->)]; [exists 0%nat, x; split; [done|]; f_equal; lia|].
      exists (S i), h. split; [done|]. f_equal; lia.
    + intros ([|i] & h & Hi & ->); [left; injection Hi as ->; f_equal; lia|].
      right. exists i, h. split; [done|]. f_equal; lia.
Qed.

Lemma block_infos_nodup height chain :
  0 <= height -> height + Z.of_nat (length chain) <= u64_max -> NoDup (td_proj blocks <$> block_infos height chain).
Proof.
  revert height. induction chain as [|x chain IH]; intros height H0 Hmax; cbn [block_infos length fmap list_fmap] in *; [constructor|].
  rewrite u64_small by (unfold in_u64; lia). constructor; [|apply IH; lia].
  intros (b & E & Hb)%list_elem_of_fmap. apply block_infos_elem in Hb as (i & h & _ & ->); [|lia..]. cbn in E. lia.
Qed.

(** What [append_block_hashes] stores. *)
Lemma append_elem chain height (t : tab blocks) b :
  0 <= height -> height + Z.of_nat (length chain) <= u64_max ->
  b ∈ dups (d:=blocks) (append_block_hashes chain height [] t) blocks_version <->
  (exists i h, chain !! i = Some h /\ b = BlockInfo (height + Z.of_nat i) h) \/
  (b ∈ dups (d:=blocks) t blocks_version /\ ~ (height <= bi_id b < height + Z.of_nat (length chain))).
Proof.
  intros H0 Hmax. rewrite append_block_hashes_eq, (bulk_overwrite_elem (d:=blocks)) by by apply block_infos_nodup.
  split.
  - intros [[_ H]|[Hb Hn]]; [left; by apply block_infos_elem|]. right. split; [done|]. intros Hr.
    destruct (lookup_lt_is_Some_2 chain (Z.to_nat (bi_id b - height))) as [h Hh]; [lia|].
    apply (Hn eq_refl (BlockInfo (bi_id b) h)); [|done]. apply block_infos_elem; [done..|].
    exists (Z.to_nat (bi_id b - height)), h. split; [done|]. f_equal. lia.
  - intros [H|[Hb Hn]]; [left; split; [done|]; by apply block_infos_elem|]. right. split; [done|]. intros _ v Hv E.
    apply block_infos_elem in Hv as (i & h & Hi & ->); [|done..]. apply lookup_lt_Some in Hi. cbn in E. lia.
Qed.
End append.

(** ** Rollback touches the chain tables only where it says *)
Section rollback.
Context {LM : Lmdb} {LL : LmdbLaws LM} (points : checkpoints).

Lemma rollback_account_blocks height nh st kv st' :
  rollback_account height nh st kv = Ok st' -> t_blocks st'.1 = t_blocks st.1 /\ t_pows st'.1 = t_pows st.1.
Proof.
  destruct st as [s l]. unfold rollback_account. intros H. inv_ok H. inv_ok H. by inversion H.
Qed.
Lemma rollback_accounts_blocks height s s' :
  rollback_accounts height s = Ok s' -> t_blocks s' = t_blocks s /\ t_pows s' = t_pows s.
Proof.
  unfold rollback_accounts. destruct (set_range _ _) as [|e l]; [by intros [= <-]|].
  intros H. inv_ok H. inversion H; subst. cbn.
  apply (efold_invariant (fun st => t_blocks st.1 = t_blocks s /\ t_pows st.1 = t_pows s)) in Hr; [done| |done].
  intros st kv st' _ [E1 E2] [E3 E4]%rollback_account_blocks. by rewrite E3, E4.
Qed.

Lemma rollback_chain_blocks rest height s s' b :
  rollback_chain rest height s = Ok s' ->
  b ∈ dups (d:=blocks) (t_blocks s') blocks_version <->
  b ∈ dups (d:=blocks) (t_blocks s) blocks_version /\ forall r, r ∈ rest -> bi_id b <> bi_id r.
Proof.
  unfold rollback_chain. intros H. inv_ok H. inversion H; subst. cbn [t_blocks rollback_events with_events].
  apply rollback_accounts_blocks in Hr as [-> _]. cbn [t_blocks with_pows with_blocks].
  rewrite (foldl_del_elem (d:=blocks)). naive_solver.
Qed.

(** The blocks after [height] have consecutive heights. *)
Fixpoint contiguous_from (c : Z) (l : list block_info) : Prop :=
  match l with [] => True | b :: l => bi_id b = c /\ contiguous_from (c + 1) l end.

Lemma contiguous_lookup c l i b : contiguous_from c l -> l !! i = Some b -> bi_id b = c + Z.of_nat i.
Proof.
  revert c i. induction l as [|x l IH]; intros c i Hc Hi; [done|]. destruct Hc as [Hx Hc].
  destruct i as [|i]; [injection Hi as ->; lia|]. rewrite (IH _ _ Hc Hi). lia.
Qed.
Lemma contiguous_app c l1 l2 : contiguous_from c (l1 ++ l2) <-> contiguous_from c l1 /\ contiguous_from (c + Z.of_nat (length l1)) l2.
Proof.
  revert c. induction l1 as [|x l1 IH]; intros c; cbn [app contiguous_from length].
  - rewrite Z.add_0_r. tauto.
  - rewrite IH. replace (c + 1 + Z.of_nat (length l1)) with (c + Z.of_nat (S (length l1))) by lia. tauto.
Qed.

(** The comparison loop splits both sequences after their common part. *)
Lemma sync_chain_loop_spec regtest stored chain current dv chain' current' :
  0 <= current -> current + Z.of_nat (length chain) <= u64_max ->
  sync_chain_loop points regtest stored chain current = Ok (dv, chain', current') ->
  exists same rest, stored = same ++ rest /\ chain = (bi_hash <$> same) ++ chain' /\
    current' = current + Z.of_nat (length same) /\
    match dv with
    | Some l => l = rest /\ chain' <> [] /\ (regtest = true \/ get_max_height points < current')
    | None => chain' = [] \/ rest = []
    end.
Proof.
  revert stored current. induction chain as [|h chain IH]; intros stored current H0 Hmax H.
  - exists [], stored. destruct stored; inversion H; subst; cbn; (split_and!; [done|done|lia|by left]).
  - destruct stored as [|b stored]; cbn [sync_chain_loop] in H.
    { exists [], []. inversion H; subst. cbn. split_and!; [done|done|lia|by right]. }
    destruct (Z.eqb_spec (bi_hash b) h) as [E|E]; cbn [negb] in H.
    + cbn [length] in Hmax. rewrite u64_small in H by (unfold in_u64; lia).
      destruct (IH stored (current + 1)) as (same & rest & -> & -> & -> & Hd); [lia|lia|done|].
      exists (b :: same), rest. split_and!; [done|by cbn; rewrite E|cbn [length]; lia|].
      destruct dv as [l|]; [|done]. done.
    + case_if H; [done|]. inversion H; subst. exists [], (b :: stored). cbn [length app fmap list_fmap].
      split_and!; [done|done|lia|done|done|]. apply andb_false_iff in Hc as [Hc|Hc]; [left|right; lia].
      by destruct regtest.
Qed.

Lemma next_dups_blocks (t : tab blocks) height b :
  b ∈ next_dups t blocks_version height <-> b ∈ dups t blocks_version /\ height < bi_id b.
Proof.
  unfold next_dups. rewrite (both_range_elem (d:=blocks)).
  - cbn. rewrite negb_false_iff, Z.ltb_lt. done.
  - cbn. intros a c Hac Hc. rewrite negb_true_iff, Z.ltb_ge in *. rewrite Z.ltb_lt in Hac. lia.
Qed.

(** The blocks that [rest] and those after it are the stored ones from there. *)
Lemma stored_from (t : tab blocks) height same rest b :
  contiguous_from (height + 1) (same ++ rest) -> next_dups t blocks_version height = same ++ rest ->
  b ∈ dups (d:=blocks) t blocks_version ->
  b ∈ rest <-> height + 1 + Z.of_nat (length same) <= bi_id b.
Proof.
  intros [Hc1 Hc2]%contiguous_app Hn Hb. split.
  - intros [i Hi]%list_elem_of_lookup. rewrite (contiguous_lookup _ _ _ _ Hc2 Hi). lia.
  - intros Hid. assert (b ∈ same ++ rest) as Hx by (rewrite <- Hn; apply next_dups_blocks; split; [done|lia]).
    apply elem_of_app in Hx as [Hx|]; [|done]. apply list_elem_of_lookup in Hx as [i Hi].
    pose proof (contiguous_lookup _ _ _ _ Hc1 Hi). apply lookup_lt_Some in Hi. lia.
Qed.

(** The state after [sync_chain], in terms of the common part. *)
Lemma sync_chain_blocks regtest height first chain s s' :
  0 <= height -> height + 1 + Z.of_nat (length chain) <= u64_max ->
  contiguous_from (height + 1) (next_dups (t_blocks s) blocks_version height) ->
  sync_chain points height (first :: chain) regtest s = Ok s' ->
  BlockInfo height first ∈ dups (d:=blocks) (t_blocks s) blocks_version /\
  exists same rest (removed : bool) chain', next_dups (t_blocks s) blocks_version height = same ++ rest /\
    chain = (bi_hash <$> same) ++ chain' /\
    (forall b, b ∈ dups (d:=blocks) (t_blocks s') blocks_version <->
      (exists i h, chain' !! i = Some h /\ b = BlockInfo (height + 1 + Z.of_nat (length same) + Z.of_nat i) h) \/
      (b ∈ dups (d:=blocks) (t_blocks s) blocks_version /\ (removed = true -> b ∉ rest))) /\
    (removed = true /\ chain' <> [] /\ (regtest = true \/ get_max_height points < height + 1 + Z.of_nat (length same)) \/
     removed = false /\ (chain' = [] \/ rest = [])).
Proof.
  intros H0 Hmax Hcont H. unfold sync_chain in H. inv_ok H.
  destruct (Z.eqb_spec r first) as [->|]; [|done]. cbn [negb] in H. split.
  { unfold do_get_block_hash in Hr. inv_ok Hr. unfold lmdb_check in Hr0. case_match eqn:Eg; [|done].
    inversion Hr0; subst. inversion Hr; subst. apply (get_both_some (d:=blocks)) in Eg as [Hin Hid].
    destruct r; cbn in *; by subst. }
  inv_ok H. destruct r as [[dv chain'] current']. inv_ok H. inversion H; subst s'; clear H.
  rewrite u64_small in Hr0 by (unfold in_u64; lia).
  apply sync_chain_loop_spec in Hr0 as (same & rest & Hn & -> & -> & Hd); [|lia|lia].
  rewrite length_app, length_fmap in Hmax. rewrite Hn in Hcont.
  exists same, rest, (is_some_b dv), chain'. split_and!; [done|done| |].
  - intros b. cbn [t_blocks with_blocks]. rewrite append_elem by lia.
    pose proof (stored_from _ _ _ _ b Hcont Hn) as Hrest. destruct dv as [l|]; cbn [is_some_b].
    + destruct Hd as [-> _]. rewrite (rollback_chain_blocks _ _ _ _ b Hr1). apply or_iff_compat_l. split.
      * intros [[Hb Hnr] _]. split; [done|]. intros _ Hin. by apply (Hnr b).
      * intros [Hb Hnr]. specialize (Hrest Hb). split; [split; [done|]|]; [|intros Hid; apply Hnr; [done|apply Hrest; lia]].
        intros x Hx E. apply Hnr; [done|]. apply Hrest. rewrite E. apply (stored_from (t_blocks s) height same rest x); [done..| |done].
        assert (x ∈ next_dups (t_blocks s) blocks_version height) as Hx2 by (rewrite Hn; apply elem_of_app; by right).
        by apply next_dups_blocks in Hx2 as [? _].
    + inversion Hr1; subst r. apply or_iff_compat_l. split; [intros [Hb _]; by split|]. intros [Hb _]. split; [done|].
      destruct Hd as [-> | ->]; [cbn [length]; lia|]. intros Hid.
      pose proof (proj2 (Hrest Hb) (proj1 Hid)) as Hb2. by apply elem_of_nil in Hb2.
  - destruct dv as [l|]; cbn [is_some_b]; [left|right]; tauto.
Qed.
End rollback.

(** ** Cursor walks over a whole table *)
Section walks.
Context {LM : Lmdb} {LL : LmdbLaws LM} {d : tdesc} `{!TdescOk d}.

Lemma strict_sorted_nodup {A B} (lt : B -> B -> bool) `{!TotalLt lt} (f : A -> B) (l : list A) :
  StronglySorted (fun x y => lt (f x) (f y) = true) l -> NoDup l.
Proof.
  induction 1 as [|x l Hl IH Hx]; constructor; [|done]. intros Hin. rewrite Forall_forall in Hx.
  pose proof (Hx _ Hin) as H. by rewrite tlt_irrefl in H.
Qed.

Lemma set_range_elem (t : tab d) k k' v :
  (k', v) ∈ set_range t k <-> v ∈ dups t k' /\ td_key_lt d k' k = false.
Proof.
  unfold set_range. rewrite list_elem_of_bind. split.
  - intros (k1 & Hv & Hk). apply list_elem_of_fmap in Hv as (v1 & [= -> ->] & Hv). split; [done|].
    apply list_elem_of_In, filter_In in Hk as [_ Hk]. by apply negb_true_iff.
  - intros [Hv Hk]. exists k'. split; [by apply list_elem_of_fmap_2|].
    apply list_elem_of_In, filter_In. split; [|by rewrite Hk].
    apply list_elem_of_In, keys_spec; [done|]. intros E. rewrite E in Hv. by apply elem_of_nil in Hv.
Qed.

Lemma set_range_nodup (t : tab d) k : NoDup (set_range t k).
Proof.
  unfold set_range. apply NoDup_bind.
  - intros x1 x2 y _ _ (v1 & -> & _)%list_elem_of_fmap (v2 & E & _)%list_elem_of_fmap. by inversion E.
  - intros k' _. apply NoDup_fmap_2; [intros ? ? E; by inversion E|].
    apply (strict_sorted_nodup (td_sort_lt d) (td_proj d)), dups_sorted. done.
  - apply NoDup_ListNoDup, List.NoDup_filter, NoDup_ListNoDup.
    apply (strict_sorted_nodup (td_key_lt d) id), keys_sorted. done.
Qed.

(** [last_first] visits the values of a key from the last to the first. *)
Definition key_desc (R : td_val d -> td_val d -> Prop) (a b : td_key d * td_val d) : Prop :=
  a.1 = b.1 -> R b.2 a.2.

Lemma sorted_rev {A} (R : A -> A -> Prop) (l : list A) : StronglySorted R l -> StronglySorted (fun x y => R y x) (rev l).
Proof.
  induction 1 as [|x l Hl IH Hx]; [constructor|]. cbn [rev].
  apply StronglySorted_app_2; [|done|repeat constructor].
  intros y z Hy Hz%list_elem_of_singleton. subst z. rewrite Forall_forall in Hx. apply Hx.
  apply list_elem_of_In. rewrite in_rev. by apply list_elem_of_In.
Qed.

Lemma last_first_desc (R : td_val d -> td_val d -> Prop) (t : tab d) :
  (forall x y, td_sort_lt d (td_proj d x) (td_proj d y) = true -> R x y) ->
  StronglySorted (key_desc R) (last_first t).
Proof.
  intros HR. unfold last_first. apply (sorted_rev (fun a b => key_desc R b a)).
  pose proof (keys_sorted d t TdescOk0) as Hk. induction Hk as [|k ks Hks IH Hk]; cbn; [constructor|].
  apply StronglySorted_app_2; [|clear IH|exact IH].
  - intros [k1 v1] [k2 v2] (x & [= -> ->] & _)%list_elem_of_fmap (k3 & (y & [= -> ->] & _)%list_elem_of_fmap & Hin)%list_elem_of_bind E.
    cbn in E. subst k3. rewrite Forall_forall in Hk. pose proof (Hk _ Hin) as H. by rewrite tlt_irrefl in H.
  - pose proof (dups_sorted d t k TdescOk0) as Hd. induction Hd as [|v l Hl IH Hv]; cbn; constructor; [done|].
    rewrite Forall_forall in Hv. apply Forall_forall. intros [k1 v1] (x & [= -> ->] & Hx)%list_elem_of_fmap _. cbn. auto.
Qed.

Lemma last_first_elem (t : tab d) k v : (k, v) ∈ last_first t <-> v ∈ dups t k.
Proof.
  unfold last_first. rewrite list_elem_of_In, <- in_rev, <- list_elem_of_In, list_elem_of_bind. split.
  - intros (k1 & (x & [= -> ->] & Hx)%list_elem_of_fmap & _). done.
  - intros Hv. exists k. split; [by apply list_elem_of_fmap_2|]. apply keys_spec; [done|].
    intros E. rewrite E in Hv. by apply elem_of_nil in Hv.
Qed.
End walks.

(** ** What a rollback leaves *)
Section rollback_spec.
Context {LM : Lmdb} {LL : LmdbLaws LM}.

Lemma link_height_mono (height : Z) (a b : transaction_link) :
  transaction_link_lt b a = false -> (tl_height b <? height) = true -> (tl_height a <? height) = true.
Proof.
  unfold transaction_link_lt. rewrite !Z.ltb_lt. destruct (Z.eqb_spec (tl_height b) (tl_height a)); [lia|].
  rewrite Z.ltb_ge. lia.
Qed.
Lemma output_height_mono (height : Z) (a b : transaction_link * output_id) :
  output_compare a b = true -> (tl_height b.1 <? height) = true -> (tl_height a.1 <? height) = true.
Proof. intros H. apply link_height_mono, (pair_lt_fst transaction_link_lt output_id_lt), H. Qed.
Lemma spend_height_mono (height : Z) (a b : transaction_link * key_image_t * output_id) :
  spend_compare a b = true -> (tl_height b.1.1 <? height) = true -> (tl_height a.1.1 <? height) = true.
Proof.
  intros H. apply (pair_lt_fst _ output_id_lt) in H. apply link_height_mono. unfold pair_lt in H. by apply orb_false_iff in H as [H _].
Qed.

Lemma rollback_outputs_elem user height (t : tab outputs) k o :
  o ∈ dups (d:=outputs) (rollback_outputs user height t) k <->
  o ∈ dups (d:=outputs) t k /\ (k = user -> tl_height (out_link o) < height).
Proof.
  unfold rollback_outputs. rewrite (foldl_del_elem (d:=outputs)).
  assert (forall x, x ∈ both_range (d:=outputs) t user (fun k => tl_height k.1 <? height) <->
    x ∈ dups (d:=outputs) t user /\ (tl_height (out_link x) <? height) = false) as Hr.
  { intros x. apply (both_range_elem (d:=outputs)). intros a b. apply output_height_mono. }
  split; intros [Ho Hn]; (split; [done|]); intros ->.
  - apply Z.nle_gt. intros Hle. apply (Hn eq_refl o); [|done]. apply Hr. split; [done|]. by apply Z.ltb_ge.
  - intros v [Hv Hv']%Hr E. assert (o = v) as -> by by apply (dups_inj (d:=outputs) t user).
    specialize (Hn eq_refl). lia.
Qed.

Lemma rollback_spends_spec user height (sp sp' : tab spends) (im im' : tab images) :
  rollback_spends user height (sp, im) = Ok (sp', im') ->
  forall k s, s ∈ dups (d:=spends) sp' k <->
    s ∈ dups (d:=spends) sp k /\ (k = user -> tl_height (sp_link s) < height).
Proof.
  unfold rollback_spends. cbn [fst]. intros H k s.
  assert (forall x, x ∈ both_range (d:=spends) sp user (fun k => tl_height k.1.1 <? height) <->
    x ∈ dups (d:=spends) sp user /\ (tl_height (sp_link x) <? height) = false) as Hr.
  { intros x. apply (both_range_elem (d:=spends)). intros a b. apply spend_height_mono. }
  assert (forall l st st', efold (rollback_spend user) st l = Ok st' ->
    st'.1 = foldl (fun t v => del (d:=spends) user (spend_sort v) t) st.1 l) as Hfold.
  { clear. induction l as [|x l IH]; intros st st'; cbn [efold foldl]; [by intros [= <-]|].
    intros H. inv_ok H. apply IH in H as ->. destruct st as [sp im]. unfold rollback_spend in Hr. inv_ok Hr. by inversion Hr. }
  apply Hfold in H. cbn [fst] in H. subst sp'. rewrite (foldl_del_elem (d:=spends)).
  split; intros [Ho Hn]; (split; [done|]); intros ->.
  - apply Z.nle_gt. intros Hle. apply (Hn eq_refl s); [|done]. apply Hr. split; [done|]. by apply Z.ltb_ge.
  - intros v [Hv Hv']%Hr E. assert (s = v) as -> by by apply (dups_inj (d:=spends) sp user).
    specialize (Hn eq_refl). lia.
Qed.

(** One account of [rollback_accounts]. *)
Lemma rollback_account_spec height nh s pend h l s' pend' :
  rollback_account height nh (s, pend) (h, l) = Ok (s', pend') ->
  agree (t_accounts s) (t_accounts_ba s) (t_accounts_bh s) nh pend ->
  l ∈ dups (d:=accounts_by_height) (t_accounts_bh s) h ->
  exists u, has_account (t_accounts s) (al_status l) u /\ acc_id u = al_id l /\ acc_scan_height u = h /\
    pend' = pend ++ [l] /\
    agree (t_accounts s') (t_accounts_ba s') (t_accounts_bh s') nh pend' /\
    t_accounts s' = put (d:=accounts) (al_status l) (set_heights nh (Z.min nh (acc_start_height u)) u) (t_accounts s) /\
    t_accounts_bh s' = del (d:=accounts_by_height) h (al_id l) (t_accounts_bh s) /\
    (forall k o, o ∈ dups (d:=outputs) (t_outputs s') k <->
      o ∈ dups (d:=outputs) (t_outputs s) k /\ (k = al_id l -> tl_height (out_link o) < height)) /\
    (forall k x, x ∈ dups (d:=spends) (t_spends s') k <->
      x ∈ dups (d:=spends) (t_spends s) k /\ (k = al_id l -> tl_height (sp_link x) < height)).
Proof.
  unfold rollback_account. intros H Ha Hl. inv_ok H. inv_ok H. inversion H; subst s' pend'; clear H.
  unfold lmdb_check in Hr. case_match eqn:Eg; [|done]. injection Hr as ->.
  apply (get_both_some (d:=accounts)) in Eg as [Hin Hid]. cbn [td_proj accounts snd] in *.
  destruct (proj1 (agree_bh _ _ _ _ _ Ha h l) (or_introl Hl)) as (u0 & Hu0 & E1 & E2).
  destruct (agree_ids _ _ _ _ _ Ha _ _ _ _ Hin Hu0) as [_ ->]; [congruence|].
  exists u0. cbn. rewrite Hid.
  assert (AccountLookup (al_id l) (al_status l) = l) as El by by destruct l.
  split_and!; [done|done|done|by rewrite El| |done|done| |].
  - rewrite <- E2, <- Hid. by eapply agree_move.
  - intros k o. by rewrite rollback_outputs_elem.
  - intros k x. destruct r0 as [sp' im']. cbn in *. rewrite Hid in Hr0. by eapply rollback_spends_spec.
Qed.

(** The loop over the accounts that scanned [height]. *)
Definition entry_id (e : block_id * account_lookup) : account_id := al_id e.2.

Lemma rollback_loop_spec height nh entries s pend s' pend' :
  efold (rollback_account height nh) (s, pend) entries = Ok (s', pend') ->
  agree (t_accounts s) (t_accounts_ba s) (t_accounts_bh s) nh pend ->
  (forall h l, (h, l) ∈ entries -> l ∈ dups (d:=accounts_by_height) (t_accounts_bh s) h) ->
  NoDup (entry_id <$> entries) ->
  agree (t_accounts s') (t_accounts_ba s') (t_accounts_bh s') nh pend' /\
  (forall st u', has_account (t_accounts s') st u' ->
    (has_account (t_accounts s) st u' /\ acc_id u' ∉ entry_id <$> entries) \/
    (acc_scan_height u' = nh /\ acc_id u' ∈ entry_id <$> entries)) /\
  (forall k o, o ∈ dups (d:=outputs) (t_outputs s') k <->
    o ∈ dups (d:=outputs) (t_outputs s) k /\ (k ∈ entry_id <$> entries -> tl_height (out_link o) < height)) /\
  (forall k x, x ∈ dups (d:=spends) (t_spends s') k <->
    x ∈ dups (d:=spends) (t_spends s) k /\ (k ∈ entry_id <$> entries -> tl_height (sp_link x) < height)).
Proof.
  revert s pend. induction entries as [|[h l] entries IH]; intros s pend H Ha Hin Hnd.
  { inversion H; subst. split_and!; [done| | |]; setoid_rewrite elem_of_nil; naive_solver. }
  cbn [efold] in H. inv_ok H. destruct r as [s1 pend1].
  destruct (rollback_account_spec _ _ _ _ _ _ _ _ Hr Ha) as (u & Hu & Eid & Esc & -> & Ha1 & Eacc & Ebh & Ho & Hs).
  { apply Hin. by apply list_elem_of_here. }
  cbn [fmap list_fmap] in Hnd. apply NoDup_cons in Hnd as [Hn Hnd].
  destruct (IH s1 _ H Ha1) as (Ha2 & Hacc2 & Ho2 & Hs2); [|done|].
  { intros h1 l1 Hl1. rewrite Ebh, (elem_del (d:=accounts_by_height)). split; [apply Hin; by apply list_elem_of_further|].
    intros _ E. apply Hn. rewrite list_elem_of_fmap. by exists (h1, l1). }
  cbn [fmap list_fmap]. setoid_rewrite elem_of_cons. change (entry_id (h, l)) with (al_id l). split_and!; [done| | |].
  - intros st u' [[Hu' Hni]|[Hsc Hi]]%Hacc2; [|right; tauto].
    rewrite Eacc in Hu'. apply (has_account_put _ _ u) in Hu' as [[-> ->]|[Hu' Hne]]; [| |by eapply agree_ids|done|done].
    + right. split; [done|]. by left.
    + left. split; [done|]. rewrite <- Eid. tauto.
  - intros k o. rewrite Ho2, Ho. tauto.
  - intros k x. rewrite Hs2, Hs. tauto.
Qed.

(** Found data of an account does not lie beyond what it scanned. *)
Definition found_below_scan (s : tables) : Prop :=
  forall st u, has_account (t_accounts s) st u ->
    (forall o, o ∈ dups (d:=outputs) (t_outputs s) (acc_id u) -> tl_height (out_link o) <= acc_scan_height u) /\
    (forall x, x ∈ dups (d:=spends) (t_spends s) (acc_id u) -> tl_height (sp_link x) <= acc_scan_height u).

Lemma set_range_ids acc ba (bh : tab accounts_by_height) nh height :
  agree acc ba bh nh [] -> NoDup (entry_id <$> set_range bh height).
Proof.
  intros Ha. apply NoDup_fmap_2_strong; [|apply (set_range_nodup (d:=accounts_by_height))].
  intros [h1 l1] [h2 l2] H1 H2 E. unfold entry_id in E; cbn in E.
  apply (set_range_elem (d:=accounts_by_height)) in H1 as [H1 _], H2 as [H2 _].
  destruct (proj1 (agree_bh _ _ _ _ _ Ha h1 l1) (or_introl H1)) as (u1 & A1 & B1 & C1).
  destruct (proj1 (agree_bh _ _ _ _ _ Ha h2 l2) (or_introl H2)) as (u2 & A2 & B2 & C2).
  destruct (agree_ids _ _ _ _ _ Ha _ _ _ _ A1 A2) as [Hst ->]; [congruence|].
  destruct l1, l2; cbn in *; congruence.
Qed.

Lemma rollback_accounts_spec height s s' :
  rollback_accounts height s = Ok s' -> consistent s -> found_below_scan s -> 1 <= height ->
  consistent s' /\ found_below_scan s' /\
  (forall st u, has_account (t_accounts s') st u -> acc_scan_height u < height) /\
  (forall st u o, has_account (t_accounts s') st u -> o ∈ dups (d:=outputs) (t_outputs s') (acc_id u) <->
    o ∈ dups (d:=outputs) (t_outputs s) (acc_id u) /\ tl_height (out_link o) < height) /\
  (forall st u x, has_account (t_accounts s') st u -> x ∈ dups (d:=spends) (t_spends s') (acc_id u) <->
    x ∈ dups (d:=spends) (t_spends s) (acc_id u) /\ tl_height (sp_link x) < height).
Proof.
  unfold rollback_accounts. intros H Hc Hf Hh. set (nh := Z.max height 1 - 1) in *. set (es := set_range (t_accounts_bh s) height) in *.
  assert (exists s1 pend1, efold (rollback_account height nh) (s, []) es = Ok (s1, pend1) /\
    t_accounts s' = t_accounts s1 /\ t_accounts_ba s' = t_accounts_ba s1 /\
    t_accounts_bh s' = bulk_insert (d:=accounts_by_height) nh pend1 (t_accounts_bh s1) /\
    t_outputs s' = t_outputs s1 /\ t_spends s' = t_spends s1) as (s1 & pend1 & Hl & E1 & E2 & E3 & E4 & E5).
  { destruct es as [|e es']; [inversion H; subst; by exists s', []|]. inv_ok H. destruct r as [s1 pend1].
    inversion H; subst. by exists s1, pend1. }
  pose proof (agree_nil_any _ _ _ _ nh Hc) as Ha.
  destruct (rollback_loop_spec _ _ _ _ _ _ _ Hl Ha) as (Ha1 & Hacc & Ho & Hs).
  { by intros h l [? _]%(set_range_elem (d:=accounts_by_height)). }
  { by eapply set_range_ids. }
  assert (forall st u, has_account (t_accounts s1) st u -> acc_scan_height u < height /\
    (acc_id u ∉ entry_id <$> es -> has_account (t_accounts s) st u)) as Hlow.
  { intros st u [[Hu Hni]|[Hsc Hi]]%Hacc; [|split; [lia|done]]. split; [|done].
    apply Z.nle_gt. intros Hge. apply Hni.
    assert ((acc_scan_height u, AccountLookup (acc_id u) st) ∈ es) as Hin.
    { apply (set_range_elem (d:=accounts_by_height)). split; [|by apply Z.ltb_ge].
      destruct (proj2 (agree_bh _ _ _ _ _ Hc (acc_scan_height u) (AccountLookup (acc_id u) st))) as [?|[_ []%elem_of_nil]];
        [by exists u|done]. }
    apply list_elem_of_fmap. by eexists; split; [|exact Hin]. }
  rewrite E1, E4, E5. split_and!.
  - unfold consistent. rewrite E1, E2, E3. by apply agree_finish.
  - intros st u Hu. rewrite E1 in Hu. rewrite E4, E5. pose proof (Hacc _ _ Hu) as [[Hu0 Hni]|[Hsc Hi]].
    + destruct (Hf _ _ Hu0) as [F1 F2]. split; intros x [Hx _]%Ho || intros x [Hx _]%Hs; auto.
    + split; intros x Hx; [apply Ho in Hx as [_ Hx]|apply Hs in Hx as [_ Hx]]; specialize (Hx Hi); lia.
  - intros st u Hu. by apply (Hlow st).
  - intros st u o Hu. rewrite Ho. destruct (Hlow _ _ Hu) as [Hsc Hold].
    destruct (decide (acc_id u ∈ entry_id <$> es)) as [Hi|Hi]; [tauto|].
    split; [|tauto]. intros [Hx _]. split; [done|]. apply (proj1 (Hf _ _ (Hold Hi))) in Hx. lia.
  - intros st u o Hu. rewrite Hs. destruct (Hlow _ _ Hu) as [Hsc Hold].
    destruct (decide (acc_id u ∈ entry_id <$> es)) as [Hi|Hi]; [tauto|].
    split; [|tauto]. intros [Hx _]. split; [done|]. apply (proj2 (Hf _ _ (Hold Hi))) in Hx. lia.
Qed.
End rollback_spec.

Section rollback_events_spec.
Context {LM : Lmdb} {LL : LmdbLaws LM}.

Definition event_height (e : webhook_event) : Z := tl_height (wo_tx (we_link e)).

Lemma event_height_mono (a b : webhook_event) : webhook_event_lt a b = true -> event_height a <= event_height b.
Proof.
  unfold webhook_event_lt, webhook_output_lt, event_height. intros H.
  destruct (webhook_output_eqb (we_link a) (we_link b)) eqn:E.
  { apply webhook_output_eqb_eq in E. rewrite E. lia. }
  destruct (transaction_link_eqb (wo_tx (we_link a)) (wo_tx (we_link b))) eqn:E'.
  { apply transaction_link_eqb_eq in E'. rewrite E'. lia. }
  unfold transaction_link_lt in H.
  destruct (Z.eqb_spec (tl_height (wo_tx (we_link a))) (tl_height (wo_tx (we_link b)))); lia.
Qed.

Lemma rollback_user_events_elem height skip l (t : tab events_by_account_id) k x :
  StronglySorted (key_desc (d:=events_by_account_id) (fun a b => event_height a <= event_height b)) l ->
  (forall u, skip = Some u -> forall e, (u, e) ∈ l -> event_height e < height) ->
  x ∈ dups (d:=events_by_account_id) (rollback_user_events height skip l t) k <->
  x ∈ dups (d:=events_by_account_id) t k /\ ~ ((k, x) ∈ l /\ height <= event_height x).
Proof.
  intros Hl. revert skip t. induction Hl as [|[u e] l Hl IH He]; intros skip t Hskip; cbn [rollback_user_events].
  { rewrite elem_of_nil. tauto. }
  rewrite Forall_forall in He. setoid_rewrite elem_of_cons. case_bool_decide as Hs.
  - assert (event_height e < height) by (eapply Hskip; [done|apply list_elem_of_here]).
    rewrite IH by (intros u' E e' Hin; eapply Hskip; [done|by apply list_elem_of_further]).
    split; intros [Hx Hn]; (split; [done|]); intros [Hin Hge]; [|tauto].
    destruct Hin as [[= -> ->]|Hin]; [lia|tauto].
  - change (tl_height (wo_tx (we_link e))) with (event_height e). destruct (Z.ltb_spec (event_height e) height).
    + rewrite IH.
      * split; intros [Hx Hn]; (split; [done|]); intros [Hin Hge]; [|tauto].
        destruct Hin as [[= -> ->]|Hin]; [lia|tauto].
      * intros u' [= <-] e' Hin. specialize (He _ Hin eq_refl). cbn in He. lia.
    + rewrite IH by done. rewrite (elem_del (d:=events_by_account_id)). cbn [td_proj events_by_account_id]. split.
      * intros [[Hx Hne] Hn]. split; [done|]. intros [[[= -> ->]|Hin] Hge]; [by apply Hne|tauto].
      * intros [Hx Hn]. split; [split; [done|]|tauto]. intros -> ->. apply Hn. split; [by left|done].
Qed.

Lemma rollback_events_elem height s k x :
  x ∈ dups (d:=events_by_account_id) (t_events (rollback_events height s)) k <->
  x ∈ dups (d:=events_by_account_id) (t_events s) k /\ event_height x < height.
Proof.
  cbn [rollback_events t_events with_events]. rewrite rollback_user_events_elem; [|apply last_first_desc|done].
  - rewrite (last_first_elem (d:=events_by_account_id)). split; [|intros [Hx Hlt]; split; [done|lia]].
    intros [Hx Hn]. split; [done|]. apply Z.nle_gt. tauto.
  - apply event_height_mono.
Qed.

Lemma rollback_accounts_events height s s' : rollback_accounts height s = Ok s' -> t_events s' = t_events s.
Proof.
  unfold rollback_accounts. destruct (set_range _ _) as [|e l]; [by intros [= <-]|].
  intros H. inv_ok H. inversion H; subst. cbn.
  apply (efold_invariant (fun st => t_events st.1 = t_events s)) in Hr; [done| |done].
  intros [s1 p1] kv st' _ E H1. unfold rollback_account in H1. inv_ok H1. inv_ok H1. by inversion H1.
Qed.
End rollback_events_spec.

(** ** Theorems about the chain *)
Section chain_theorems.
Context {LM : Lmdb} {LL : LmdbLaws LM} (points : checkpoints).

(** C33: after a successful [sync_chain] the stored chain is the one the daemon
    sent: every given hash is the one [get_block_hash] returns for its height;
    blocks at or below the starting height are as before; and when the given
    hashes are not a part of what was stored, no block above the last of them
    is left. The blocks stored after the starting height must have
    consecutive heights. *)
Theorem sync_chain_stores regtest height hashes (s s' : tables) :
  0 <= height -> height + Z.of_nat (length hashes) <= u64_max ->
  contiguous_from (height + 1) (next_dups (t_blocks s) blocks_version height) ->
  sync_chain points height hashes regtest s = Ok s' ->
  (forall i h, hashes !! i = Some h -> get_block_hash s' (height + Z.of_nat i) = Ok h) /\
  (forall b : block_info, bi_id b <= height ->
     b ∈ dups (d:=blocks) (t_blocks s') blocks_version <-> b ∈ dups (d:=blocks) (t_blocks s) blocks_version) /\
  ((exists b, b ∈ dups (d:=blocks) (t_blocks s') blocks_version /\ height + Z.of_nat (length hashes) - 1 < bi_id b) ->
   forall b, b ∈ dups (d:=blocks) (t_blocks s') blocks_version <-> b ∈ dups (d:=blocks) (t_blocks s) blocks_version).
Proof.
  intros H0 Hmax Hcont H. destruct hashes as [|first chain]; [done|]. cbn [length] in Hmax.
  destruct (sync_chain_blocks points regtest height first chain s s' ltac:(done) ltac:(lia) Hcont H)
    as (Hfirst & same & rest & removed & chain' & Hn & -> & Hb & Hcase).
  rewrite Hn in Hcont. pose proof (proj1 (contiguous_app _ _ _) Hcont) as [Hc1 Hc2].
  assert (forall b : block_info, b ∈ same ++ rest -> b ∈ dups (d:=blocks) (t_blocks s) blocks_version /\ height < bi_id b) as Hstored.
  { intros b Hin. rewrite <- Hn in Hin. by apply next_dups_blocks. }
  pose proof (fun b => stored_from (t_blocks s) height same rest b Hcont Hn) as Hrest. split_and!.
  - intros i h Hi. unfold get_block_hash, do_get_block_hash, lmdb_check.
    assert (BlockInfo (height + Z.of_nat i) h ∈ dups (d:=blocks) (t_blocks s') blocks_version) as Hin;
      [|by assert (get_both (t_blocks s') blocks_version (height + Z.of_nat i) = Some (BlockInfo (height + Z.of_nat i) h))
          as -> by by apply (get_both_some (d:=blocks))].
    apply Hb. destruct i as [|i].
    { injection Hi as ->. right. rewrite Z.add_0_r. split; [done|]. intros _ Hin. apply Hrest in Hin; [cbn in Hin; lia|done]. }
    cbn in Hi. apply lookup_app_Some in Hi as [Hi|[Hge Hi]].
    + apply list_lookup_fmap_Some in Hi as (b & -> & Hi). pose proof (contiguous_lookup _ _ _ _ Hc1 Hi) as Hid.
      right. replace (BlockInfo (height + Z.of_nat (S i)) (bi_hash b)) with b by (destruct b; cbn in *; f_equal; lia).
      pose proof (Hstored b ltac:(apply elem_of_app; left; by eapply list_elem_of_lookup_2)) as [Hin _].
      split; [done|]. intros _ Hr. apply Hrest in Hr; [|done]. apply lookup_lt_Some in Hi. lia.
    + left. rewrite length_fmap in Hge, Hi. exists (i - length same)%nat, h. split; [done|]. cbn in *. f_equal. lia.
  - intros b Hid. rewrite Hb. split; [|intros Hin; right; split; [done|]; intros _ Hr; apply Hrest in Hr; [lia|done]].
    intros [(i & h & _ & ->)|[Hin _]]; [cbn in Hid; lia|done].
  - intros (b & Hin & Hid). rewrite length_cons, length_app, length_fmap in Hid.
    destruct Hcase as [(-> & Hne & _)|(-> & Hcase)].
    + apply Hb in Hin as [(i & h & Hi & ->)|[Hin Hr]]; [apply lookup_lt_Some in Hi; cbn in Hid; lia|].
      exfalso. apply Hr; [done|]. apply Hrest; [done|]. lia.
    + intros x. rewrite Hb. destruct Hcase as [-> | ->].
      * split; [intros [(i & h & Hi & _)|[? _]]; done|]. intros Hx. right. by split.
      * exfalso. apply Hb in Hin as [(i & h & Hi & ->)|[Hin _]]; [apply lookup_lt_Some in Hi; cbn in Hid; lia|].
        assert (b ∈ []) as He by (apply (Hrest b Hin); cbn in *; lia). by apply elem_of_nil in He.
Qed.

(** C31: outside of regtest no daemon can make [sync_chain] change the blocks up
    to the last checkpoint, where the blocks stored after the starting height have
    consecutive heights (those of a new database have none between its
    checkpoints): whatever hashes it sends, the call fails or leaves every stored
    block at or below that height in place. *)
Theorem sync_chain_keeps_checkpointed height hashes (s s' : tables) (b : block_info) :
  0 <= height -> height + Z.of_nat (length hashes) <= u64_max ->
  contiguous_from (height + 1) (next_dups (t_blocks s) blocks_version height) ->
  sync_chain points height hashes false s = Ok s' ->
  b ∈ dups (d:=blocks) (t_blocks s) blocks_version -> bi_id b <= get_max_height points ->
  b ∈ dups (d:=blocks) (t_blocks s') blocks_version.
Proof.
  intros H0 Hmax Hcont H Hin Hid. destruct hashes as [|first chain]; [done|]. cbn [length] in Hmax.
  destruct (sync_chain_blocks points false height first chain s s' ltac:(done) ltac:(lia) Hcont H)
    as (_ & same & rest & removed & chain' & Hn & -> & Hb & Hcase).
  apply Hb. right. split; [done|]. intros -> Hr. rewrite Hn in Hcont.
  apply (stored_from (t_blocks s) height same rest b Hcont Hn Hin) in Hr.
  destruct Hcase as [(_ & _ & [?|Hlt])|[? _]]; [done|cbn in *; lia|done].
Qed.

(** C30: [rollback] to the height, 1 or more, of a block that is stored forgets
    everything from there on (without a block of that height it forgets nothing). The
    chain keeps exactly the blocks below; every account has scanned less, the
    account tables still agree; the outputs and spends kept for an account are
    exactly the older ones, and so are the pending webhook events. *)
Theorem rollback_forgets height (s s' : tables) :
  consistent s -> found_below_scan s -> 1 <= height ->
  (exists b, b ∈ dups (d:=blocks) (t_blocks s) blocks_version /\ bi_id b = height) ->
  rollback height s = Ok s' ->
  consistent s' /\ found_below_scan s' /\
  (forall b : block_info, b ∈ dups (d:=blocks) (t_blocks s') blocks_version <->
     b ∈ dups (d:=blocks) (t_blocks s) blocks_version /\ bi_id b < height) /\
  (forall st u, has_account (t_accounts s') st u ->
     acc_scan_height u < height /\
     (forall o, o ∈ dups (d:=outputs) (t_outputs s') (acc_id u) <->
        o ∈ dups (d:=outputs) (t_outputs s) (acc_id u) /\ tl_height (out_link o) < height) /\
     (forall x, x ∈ dups (d:=spends) (t_spends s') (acc_id u) <->
        x ∈ dups (d:=spends) (t_spends s) (acc_id u) /\ tl_height (sp_link x) < height)) /\
  (forall user e, e ∈ dups (d:=events_by_account_id) (t_events s') user <->
     e ∈ dups (d:=events_by_account_id) (t_events s) user /\ event_height e < height).
Proof.
  intros Hc Hf Hh (b0 & Hb0 & Hid) H. unfold rollback in H.
  destruct (get_both (t_blocks s) blocks_version height) as [b|] eqn:Eg.
  2: { by destruct (proj1 (get_both_none (d:=blocks) _ _ _) Eg b0 Hb0). }
  apply (get_both_some (d:=blocks)) in Eg as [Hb Hid'].
  pose proof (fun x => rollback_chain_blocks _ _ _ _ x H) as Hblocks.
  unfold rollback_chain in H. inv_ok H. inversion H; subst s'; clear H.
  match type of Hr with rollback_accounts _ ?s1 = _ =>
    destruct (rollback_accounts_spec height s1 r Hr Hc Hf Hh) as (C1 & C2 & C3 & C4 & C5) end.
  split_and!; [exact C1|exact C2| | |].
  - intros x. rewrite Hblocks. setoid_rewrite elem_of_cons. split.
    + intros [Hx Hn]. split; [done|]. apply Z.nle_gt. intros Hle.
      apply (Hn x); [|done]. destruct (decide (bi_id x = height)) as [E|E].
      * left. apply (dups_inj (d:=blocks) (t_blocks s) blocks_version); [done|done|]. cbn in *. congruence.
      * right. apply next_dups_blocks. split; [done|lia].
    + intros [Hx Hlt]. split; [done|]. intros r' [->|Hr']; [cbn in *; lia|]. apply next_dups_blocks in Hr' as [_ ?]. lia.
  - intros st u Hu. split_and!; [by eapply C3| |]; intros x; [by eapply C4|by eapply C5].
  - intros user e. rewrite rollback_events_elem. by rewrite (rollback_accounts_events _ _ _ Hr).
Qed.
End chain_theorems.

(** ** The list of hashes sent to the daemon *)
Section chain_sync.
Context {LM : Lmdb} {LL : LmdbLaws LM} (points : checkpoints) (t : tab blocks).
Hypothesis heights_nonneg : forall b : block_info, b ∈ dups (d:=blocks) t blocks_version -> 0 <= bi_id b.

Definition descending (l : list block_info) : Prop := StronglySorted (fun x y => bi_id y < bi_id x) l.
(** Stored blocks from the newest down to [low]. *)
Record partial (out : list block_info) (low : Z) : Prop := {
  part_desc : descending out;
  part_stored : forall b, b ∈ out -> b ∈ dups (d:=blocks) t blocks_version;
  part_back : exists l b, out = l ++ [b] /\ bi_id b = low
}.

Lemma partial_back out low : partial out low -> back_id out = low /\ 0 <= low.
Proof.
  intros [_ Hs (l & b & -> & Hb)]. unfold back_id. rewrite last_snoc. cbn. split; [done|].
  rewrite <- Hb. apply heights_nonneg, Hs, elem_of_app. right. by apply list_elem_of_singleton.
Qed.

Lemma add_block_partial out low id out' :
  partial out low -> id < low -> add_block t out id = Ok out' ->
  partial out' id /\ length out' = S (length out) /\ head out' = head out.
Proof.
  intros [Hd Hs (l & b & -> & Hb)] Hlt H. unfold add_block, do_get_block_hash in H. inv_ok H. inv_ok Hr.
  inversion H; subst out'. inversion Hr; subst. unfold lmdb_check in Hr0. case_match eqn:E; [|done]. injection Hr0 as ->.
  apply (get_both_some (d:=blocks)) in E as [Hin Hid]. cbn in Hid.
  assert (BlockInfo id (bi_hash r0) = r0) as -> by (destruct r0; cbn in *; congruence).
  split; [split| split].
  - apply StronglySorted_app_2; [|done|repeat constructor].
    intros x y Hx Hy%list_elem_of_singleton. subst y. apply elem_of_app in Hx as [Hx|Hx%list_elem_of_singleton].
    + pose proof (StronglySorted_app_1_elem_of _ _ _ x b Hd Hx ltac:(by apply list_elem_of_singleton)). cbn in *. lia.
    + subst. lia.
  - intros x Hx. apply elem_of_app in Hx as [Hx|Hx%list_elem_of_singleton]; [by apply Hs|by subst].
  - by eexists _, _.
  - rewrite !length_app. cbn. lia.
  - by destruct l.
Qed.

Lemma tail_blocks_spec n out value older out' fin :
  tail_blocks (S n) out value older = Ok (out', fin) ->
  exists pre post, value :: older = pre ++ post /\ out' = out ++ pre /\ (0 < length pre <= S n)%nat /\
    (fin = true -> exists l b, out' = l ++ [b] /\ bi_id b = 0).
Proof.
  revert out value older. induction n as [|n IH]; intros out value older H; cbn [tail_blocks] in H.
  - destruct older as [|b older].
    + case_if H; [|done]. inversion H; subst. exists [value], []. split_and!; cbn; try done; try lia.
      intros _. exists out, value. split; [done|lia].
    + inversion H; subst. exists [value], (b :: older). split_and!; cbn; (done || lia).
  - destruct older as [|b older].
    + case_if H; [|done]. inversion H; subst. exists [value], []. split_and!; cbn; try done; try lia.
      intros _. exists out, value. split; [done|lia].
    + apply IH in H as (pre & post & E & -> & Hl & Hf). exists (value :: pre), post. rewrite <- app_assoc in *.
      split_and!; [by cbn; rewrite E|done|cbn; lia|cbn; lia|done].
Qed.

Lemma anchors_partial anchor fuel i out low out' :
  0 <= i -> partial out low -> anchor - Z.shiftl 2 i < low -> anchors points t anchor fuel i out = Ok out' ->
  exists low', partial out' low' /\ (length out' <= length out + fuel)%nat /\ head out' = head out.
Proof.
  revert i out low. induction fuel as [|fuel IH]; intros i out low Hi Hp Hlt H; cbn [anchors] in H.
  { inversion H; subst. exists low. split_and!; [done|lia|done]. }
  case_if H; [inversion H; subst; exists low; split_and!; [done|lia|done]|]. inv_ok H.
  destruct (add_block_partial _ _ _ _ Hp Hlt Hr) as (Hp' & Hl & Hh).
  apply (IH _ _ (anchor - Z.shiftl 2 i)) in H as (low' & Hp'' & Hl' & Hh'); [|lia|done|].
  - exists low'. split_and!; [done|lia|congruence].
  - rewrite !Z.shiftl_mul_pow2, Z.pow_add_r by lia. assert (0 < 2 ^ i) by (apply Z.pow_pos_nonneg; lia). lia.
Qed.

(** the block list that [get_blocks] prepares for the daemon consists of
    stored blocks with strictly decreasing heights, starts at the newest one,
    ends at the genesis block, and has at most twelve blocks more than the
    [max_internal] (at most 64) it was asked for: the capacity reserved. *)
Theorem get_blocks_ends_at_genesis max_internal out :
  get_blocks points t max_internal = Ok out ->
  descending out /\
  (forall b, b ∈ out -> b ∈ dups (d:=blocks) t blocks_version) /\
  head out = last (dups (d:=blocks) t blocks_version) /\
  (exists l b, out = l ++ [b] /\ bi_id b = 0) /\
  (length out <= 12 + Nat.min 64 max_internal)%nat.
Proof.
  unfold get_blocks. rewrite <- head_reverse. unfold reverse. rewrite <- rev_alt.
  pose proof (sorted_rev _ _ (dups_sorted blocks t blocks_version _)) as Hd.
  assert (forall b : block_info, b ∈ rev (dups (d:=blocks) t blocks_version) -> b ∈ dups (d:=blocks) t blocks_version) as Hin.
  { intros b. by rewrite !list_elem_of_In, <- in_rev. }
  destruct (rev (dups t blocks_version)) as [|value older]; [done|]. intros H.
  change (td_val blocks) with block_info in *.
  unfold get_blocks_tail in H. inv_ok H. destruct r as [out1 fin].
  apply tail_blocks_spec in Hr as (pre & post & E & E1 & Hlen & Hfin). cbn [app] in E1. subst out1.
  assert (head pre = Some value) as Hhead by (destruct pre; [cbn in Hlen; lia|by inversion E]).
  assert (descending pre) as Hdp.
  { assert (StronglySorted (fun x y : block_info => (bi_id y <? bi_id x) = true) (pre ++ post)) as Hd' by (rewrite <- E; exact Hd).
    clear Hd. rename Hd' into Hd. apply StronglySorted_app_1_l in Hd. unfold descending.
    clear -Hd. induction Hd as [|x l Hl IH Hx]; constructor; [done|]. rewrite Forall_forall in Hx |- *.
    intros y Hy. apply Hx in Hy. cbn in Hy. by apply Z.ltb_lt. }
  assert (forall b, b ∈ pre -> b ∈ dups (d:=blocks) t blocks_version) as Hsp.
  { intros b Hb. apply Hin. assert (b ∈ value :: older) as Hv by (rewrite E; apply elem_of_app; by left). exact Hv. }
  destruct fin.
  { inversion H; subst. split_and!; [done|done|done|by apply Hfin|lia]. }
  destruct (exists_last (l := pre)) as (l & b & El); [by intros ->|].
  assert (partial pre (bi_id b)) as Hp by (split; [done|done|by exists l, b]).
  inv_ok H. rewrite (proj1 (partial_back _ _ Hp)) in Hr.
  apply (anchors_partial _ _ _ _ (bi_id b)) in Hr as (low1 & Hp1 & Hl1 & Hh1); [|first [done | lia | change (Z.shiftl 2 1) with 4; lia]..].
  inv_ok H. assert (exists low2, partial r0 low2 /\ (length r0 <= S (length r))%nat /\ head r0 = head r) as (low2 & Hp2 & Hl2 & Hh2).
  { rewrite (proj1 (partial_back _ _ Hp1)) in Hr. case_if Hr.
    - apply (add_block_partial _ low1) in Hr as (? & ? & ?); [|done|lia]. eexists. split_and!; [done|lia|congruence].
    - inversion Hr; subst. exists low1. split_and!; [done|lia|done]. }
  destruct (partial_back _ _ Hp2) as [Hb2 Hn2]. rewrite Hb2 in H.
  assert (exists low3, partial out low3 /\ low3 = 0 /\ (length out <= S (length r0))%nat /\ head out = head r0) as (low3 & [P1 P2 P3] & -> & Hl3 & Hh3).
  { case_if H; [|injection H as <-; exists low2; split_and!; [done|lia|lia|done]].
    apply (add_block_partial _ low2) in H as (? & ? & ?); [|done|lia]. eexists. split_and!; [done|done|lia|done]. }
  split_and!; [done|done|cbn; congruence|done|lia].
Qed.
End chain_sync.

(** ** A small database *)
Module ChainSample.
Import Reference.

Definition points : checkpoints := Checkpoints [(0, 100); (1, 101)] 1.
Definition link (h : Z) : transaction_link := TransactionLink h 9.
Definition out (h : Z) : output :=
  Output (link h) (SpendMeta (OutputId 0 h) 5 11 0 77) 0 0 0 h 0 0 0 0 address_index_primary.
Definition user : account := Account 1 0 (AccountAddress 55 56) 57 3 1 0 0 address_index_primary 0.
Definition lookup : account_lookup := AccountLookup 1 active.

(** Blocks 0 to 3 and one account with outputs in blocks 2 and 3. *)
Definition db : tables :=
  let s := with_blocks (foldl (fun t b => rput blocks 0 b t) [] (block_infos 0 [100; 101; 102; 103])) empty_tables in
  let s := with_accounts (put (d:=accounts) active user (t_accounts s)) s in
  let s := with_accounts_ba (put (d:=accounts_by_address) by_address_version (AccountByAddress (acc_address user) lookup) (t_accounts_ba s)) s in
  let s := with_accounts_bh (put (d:=accounts_by_height) 3 lookup (t_accounts_bh s)) s in
  with_outputs (put (d:=outputs) 1 (out 3) (put (d:=outputs) 1 (out 2) (t_outputs s))) s.

Lemma db_consistent : consistent db.
Proof.
  apply (agree_add _ _ _ 0 user active empty_consistent).
  - intros st u H. by apply elem_of_nil in H.
  - intros b H. by apply elem_of_nil in H.
Qed.
Lemma db_found : found_below_scan db.
Proof.
  intros st u Hu. apply (elem_put (d:=accounts)) in Hu as [[-> ->]|[Hu _]]; [|by apply elem_of_nil in Hu]. split.
  - intros o Ho. change (o ∈ [out 2; out 3]) in Ho. apply elem_of_cons in Ho as [->|Ho%list_elem_of_singleton]; [by cbn|]. by subst.
  - intros x Hx. by apply elem_of_nil in Hx.
Qed.

Lemma rollback_forgets_witness :
  exists s', rollback 3 db = Ok s' /\ consistent s' /\
    dups (d:=outputs) (t_outputs s') 1 = [out 2].
Proof.
  eexists. split; [vm_compute; reflexivity|]. split; [|reflexivity].
  eapply (rollback_forgets 3 db); [exact db_consistent|exact db_found|lia| |vm_compute; reflexivity].
  exists (BlockInfo 3 103). split; [|done]. change (BlockInfo 3 103 ∈ block_infos 0 [100; 101; 102; 103]).
  by repeat (apply list_elem_of_here || apply list_elem_of_further).
Defined.

(** The daemon replaces block 3 and adds one. *)
Lemma sync_chain_stores_witness :
  exists s', sync_chain points 1 [101; 102; 203; 204] false db = Ok s' /\
    forall i h, [101; 102; 203; 204] !! i = Some h -> get_block_hash s' (1 + Z.of_nat i) = Ok h.
Proof.
  eexists. split; [vm_compute; reflexivity|].
  eapply (sync_chain_stores points false 1 [101; 102; 203; 204] db); [lia|vm_compute; congruence|vm_compute; tauto|vm_compute; reflexivity].
Defined.

Lemma sync_chain_keeps_checkpointed_witness :
  exists s', sync_chain points 0 [100; 101; 202] false db = Ok s' /\
    BlockInfo 1 101 ∈ dups (d:=blocks) (t_blocks s') blocks_version.
Proof.
  eexists. split; [vm_compute; reflexivity|].
  eapply (sync_chain_keeps_checkpointed points 0 [100; 101; 202] db);
    [lia|vm_compute; congruence|vm_compute; tauto|vm_compute; reflexivity| |vm_compute; congruence].
  change (BlockInfo 1 101 ∈ block_infos 0 [100; 101; 102; 103]).
  by repeat (apply list_elem_of_here || apply list_elem_of_further).
Defined.

Lemma get_blocks_ends_at_genesis_witness :
  exists out, get_blocks points (t_blocks db) 64 = Ok out /\ exists l b, out = l ++ [b] /\ bi_id b = 0.
Proof.
  eexists. split; [vm_compute; reflexivity|].
  refine (proj1 (proj2 (proj2 (proj2 (get_blocks_ends_at_genesis points (t_blocks db) _ 64 _ _))))).
  - intros b Hb. change (b ∈ block_infos 0 [100; 101; 102; 103]) in Hb.
    repeat (apply elem_of_cons in Hb as [->|Hb]; [by cbn|]). by apply elem_of_nil in Hb.
  - vm_compute; reflexivity.
Defined.
End ChainSample.
