(* ===== verification/Subaddress.v ===== *)
(** src/db/storage.cpp: [do_upsert], [do_lookahead], [upsert_subaddresses],
    [update_lookahead]; src/db/data.cpp: [address_index::get_spend_public].

    [do_upsert] can fail half way. The tables it leaves are part of its result,
    because two of its callers go on after the error and commit them. *)

From S2P Require Import Prelude Data Lmdb Tables.

(** The monero functions that derive subaddress keys. *)
Class SubaddressCrypto := {
  HASH_KEY_SUBADDRESS : list Z;
  hash_to_scalar : list Z -> secret_key;
  base_point_times : secret_key -> public_key;
  add_keys : public_key -> public_key -> public_key
}.

Section subaddress.
Context {LM : Lmdb} {SC : SubaddressCrypto}.

Definition le_bytes (n : nat) (z : Z) : list Z := rev (be_bytes n z).

Definition get_subaddress_secret_key (a : secret_key) (major minor : Z) : secret_key :=
  hash_to_scalar (HASH_KEY_SUBADDRESS ++ be_bytes 32 a ++ le_bytes 4 major ++ le_bytes 4 minor).

Definition get_spend_public (base : account_address) (view : secret_key) (i : address_index) : public_key :=
  if is_zero i then spend_public base
  else add_keys (spend_public base) (base_point_times (get_subaddress_secret_key view (maj_i i) (min_i i))).

(** ** Counting against the limit; [subaddr_count] is a [size_t] *)

Definition check_max_range (max_subaddr : Z) (range : index_range) (count : Z) : option Z :=
  let more := u32 (range.2 - range.1) in
  if u64 (max_subaddr - count) <=? more then None else Some (u64 (count + u32 (more + 1))).

Fixpoint check_max_ranges (max_subaddr : Z) (ranges : index_ranges) (count : Z) : option Z :=
  match ranges with
  | [] => Some count
  | r :: ranges =>
    match check_max_range max_subaddr r count with
    | Some count => check_max_ranges max_subaddr ranges count
    | None => None
    end
  end.

(** [add_out]: the range joins the last entry when that has the same major. *)
Fixpoint add_out (out : list subaddress_dict) (major : Z) (minor : index_range) : list subaddress_dict :=
  match out with
  | [] => [(major, [minor])]
  | [(m, rs)] => if m =? major then [(m, rs ++ [minor])] else [(m, rs); (major, [minor])]
  | d :: out => d :: add_out out major minor
  end.

(** The loop that merges [new_range] into [old_range]; an overlap widens the
    old range in place. The state is [new_dict], [subaddr_count] and [out]. *)
Definition merge_state : Type := index_ranges * Z * list subaddress_dict.

Fixpoint merge_ranges (max_subaddr major : Z) (news : index_ranges) : index_ranges -> merge_state -> expect merge_state :=
  fix go (olds : index_ranges) (st : merge_state) : expect merge_state :=
    let '(new_dict, count, out) := st in
    match news, olds with
    | [], _ => Ok (new_dict ++ olds, count, out)
    | new :: news', [] =>
      match check_max_range max_subaddr new count with
      | None => Err (lws_err max_subaddresses)
      | Some count => merge_ranges max_subaddr major news' [] (new_dict ++ [new], count, add_out out major new)
      end
    | new :: news', old :: olds' =>
      if new.2 + 1 <? old.1 then
        match check_max_range max_subaddr new count with
        | None => Err (lws_err max_subaddresses)
        | Some count => merge_ranges max_subaddr major news' olds (new_dict ++ [new], count, add_out out major new)
        end
      else if old.2 + 1 <? new.1 then go olds' (new_dict ++ [old], count, out)
      else if (old.1 <=? new.1) && (new.2 <=? old.2) then merge_ranges max_subaddr major news' olds st
      else
        let before :=
          if new.1 <? old.1 then
            let r := (new.1, u32 (old.1 - 1)) in
            match check_max_range max_subaddr r count with
            | None => None
            | Some count => Some ((new.1, old.2), count, add_out out major r)
            end
          else Some (old, count, out) in
        match before with
        | None => Err (lws_err max_subaddresses)
        | Some (old, count, out) =>
          let after :=
            if old.2 <? new.2 then
              let r := (u32 (old.2 + 1), new.2) in
              match check_max_range max_subaddr r count with
              | None => None
              | Some count => Some ((old.1, new.2), count, add_out out major r)
              end
            else Some (old, count, out) in
          match after with
          | None => Err (lws_err max_subaddresses)
          | Some (old, count, out) => merge_ranges max_subaddr major news' (old :: olds') (new_dict, count, out)
          end
        end
    end.

(** ** [do_upsert] *)

Definition sub_tables : Type := tab subaddress_ranges * tab subaddress_indexes.

(** The subaddress keys of a range, from the first minor index to the last. *)
Definition range_indexes (r : index_range) : list Z := seqZ r.1 (r.2 + 1 - r.1).

Definition index_entries (address : account_address) (view : secret_key) (major : Z) (dict : index_ranges) : list subaddress_map :=
  dict ≫= fun r => (fun minor =>
    let i := AddressIndex major minor in SubaddressMap (get_spend_public address view i) i) <$> range_indexes r.

Definition upsert_major (id : account_id) (address : account_address) (view : secret_key) (max_subaddr : Z)
    (entry : subaddress_dict) (st : (Z * list subaddress_dict) * sub_tables)
    : expect (Z * list subaddress_dict) * sub_tables :=
  let '((count, out), (ranges, indexes)) := st in
  let major := entry.1 in
  if negb (check_subaddress_dict entry) then (Err (schema_err schema_array), (ranges, indexes))
  else
    let merged :=
      match get_both ranges id major with
      | None =>
        match check_max_ranges max_subaddr entry.2 count with
        | None => (Err (lws_err max_subaddresses), ranges)
        | Some count => (Ok (entry.2, count, out ++ [entry]), ranges)
        end
      | Some old => (merge_ranges max_subaddr major entry.2 old.2 ([], count, out), del (d:=subaddress_ranges) id major ranges)
      end in
    match merged with
    | (Err e, ranges) => (Err e, (ranges, indexes))
    | (Ok (new_dict, count, out), ranges) =>
      let indexes := bulk_insert (d:=subaddress_indexes) id (index_entries address view major new_dict) indexes in
      match put_nodupdata (d:=subaddress_ranges) id (major, new_dict) ranges with
      | None => (Err (mdb_err MDB_KEYEXIST), (ranges, indexes))
      | Some ranges => (Ok (count, out), (ranges, indexes))
      end
    end.

Fixpoint upsert_majors (id : account_id) (address : account_address) (view : secret_key) (max_subaddr : Z)
    (subaddrs : list subaddress_dict) (st : (Z * list subaddress_dict) * sub_tables)
    : expect (list subaddress_dict) * sub_tables :=
  match subaddrs with
  | [] => (Ok st.1.2, st.2)
  | entry :: subaddrs =>
    match upsert_major id address view max_subaddr entry st with
    | (Ok co, s) => upsert_majors id address view max_subaddr subaddrs (co, s)
    | (Err e, s) => (Err e, s)
    end
  end.

Definition do_upsert (id : account_id) (address : account_address) (view : secret_key)
    (subaddrs : list subaddress_dict) (max_subaddr : Z) (s : sub_tables) : expect (list subaddress_dict) * sub_tables :=
  let subaddr_count := Z.of_nat (length (dups (d:=subaddress_indexes) s.2 id)) in
  if max_subaddr <? subaddr_count then (Err (lws_err max_subaddresses), s)
  else upsert_majors id address view max_subaddr subaddrs ((subaddr_count, []), s).

(** ** Lookahead *)

(** [add_and_clamp] at 32 bits. *)
Definition add_and_clamp (start count : Z) : Z := if u32_max - count <? start then u32_max else start + count.

(** One received output in the first loop of [do_lookahead]. *)
Definition lookahead_received (major minor max_subaddresses_ : Z) (initial : list subaddress_dict) (o : output)
    : expect (list subaddress_dict) :=
  let recipient := out_recipient o in
  if is_zero recipient then Ok initial
  else
    let index := maj_i recipient in
    let needed := add_and_clamp index major in
    let this_minor := add_and_clamp (minor - 1) (min_i recipient) in
    if u32_max / minor <? needed then Err (lws_err max_subaddresses)
    else if max_subaddresses_ <? needed * minor then Err (lws_err max_subaddresses)
    else
      let initial := resize (Nat.max (length initial) (Z.to_nat needed)) (0, []) initial in
      match initial !! Z.to_nat index with
      | None => Err logic_error
      | Some (m, (lo, current) :: rest) => Ok (<[Z.to_nat index := (m, (lo, Z.max current this_minor) :: rest)]> initial)
      | Some (_, []) => Ok (<[Z.to_nat index := (major, [(0, this_minor)])]> initial)
      end.

(** The second loop: gaps are filled and the sizes are summed up. *)
Fixpoint lookahead_fill (minor max_subaddresses_ : Z) (i total_subs : Z) (initial : list subaddress_dict)
    : expect (list subaddress_dict) :=
  match initial with
  | [] => Ok []
  | (_, ranges) :: initial =>
    let '(ranges, this_minor) :=
      match ranges with
      | [] => ([(0, minor - 1)], minor)
      | (lo, current) :: rest => (ranges, current)
      end in
    if u32 (max_subaddresses_ - total_subs) <? this_minor then Err (lws_err max_subaddresses)
    else let* rest := lookahead_fill minor max_subaddresses_ (i + 1) (u32 (total_subs + this_minor)) initial in
         Ok ((i, ranges) :: rest)
  end.

Definition do_lookahead_tables (t_outputs : tab outputs) (id : account_id) (address : account_address) (view : secret_key)
    (lookahead : address_index) (max_subaddresses_ : Z) (s : sub_tables) : expect unit * sub_tables :=
  let major := maj_i lookahead in
  let minor := min_i lookahead in
  if (major =? 0) || (minor =? 0) then (Ok tt, s)
  else if u32_max / minor <? major then (Err (lws_err max_subaddresses), s)
  else if max_subaddresses_ <? major * minor then (Err (lws_err max_subaddresses), s)
  else
    match
      let* initial := efold (lookahead_received major minor max_subaddresses_) (replicate (Z.to_nat major) (0, []))
                        (dups (d:=outputs) t_outputs id) in
      lookahead_fill minor max_subaddresses_ 0 0 initial
    with
    | Err e => (Err e, s)
    | Ok initial =>
      match do_upsert id address view initial max_subaddresses_ s with
      | (Ok _, s) => (Ok tt, s)
      | (Err e, s) => (Err e, s)
      end
    end.

Definition set_lookahead (l : address_index) (fail : block_id) (u : account) : account :=
  Account (acc_id u) (acc_access u) (acc_address u) (acc_key u) (acc_scan_height u) (acc_start_height u)
    (acc_creation u) (acc_flags u) l fail.

(** [do_lookahead(account&, ...)]: running out of subaddresses is recorded in
    the account and is no error. *)
Definition do_lookahead (user : account) (t_outputs : tab outputs) (lookahead : address_index) (max_subaddresses_ : Z)
    (s : sub_tables) : expect account * sub_tables :=
  match do_lookahead_tables t_outputs (acc_id user) (acc_address user) (acc_key user) lookahead max_subaddresses_ s with
  | (Ok _, s) => (Ok (set_lookahead lookahead (acc_lookahead_fail user) user), s)
  | (Err e, s) =>
    if bool_decide (e = lws_err max_subaddresses) then
      (Ok (set_lookahead lookahead (Z.max 1 (acc_start_height user)) user), s)
    else (Err e, s)
  end.

(** ** The public operations *)

(** Lexicographic order of [std::vector<index_range>]. *)
Fixpoint index_ranges_lt (l r : index_ranges) : bool :=
  match l, r with
  | _, [] => false
  | [], _ :: _ => true
  | x :: l, y :: r => pair_lt Z.ltb Z.ltb x y || (negb (pair_lt Z.ltb Z.ltb y x) && index_ranges_lt l r)
  end.

(** [std::sort(subaddrs)] *)
Definition sort_dicts (l : list subaddress_dict) : list subaddress_dict :=
  std_sort (pair_lt Z.ltb index_ranges_lt) l.

Definition set_sub_tables (st : sub_tables) (s : tables) : tables :=
  with_subaddress_indexes st.2 (with_subaddress_ranges st.1 s).

Definition upsert_subaddresses (id : account_id) (address : account_address) (view : secret_key)
    (subaddrs : list subaddress_dict) (max_subaddr : Z) (s : tables) : expect (list subaddress_dict * tables) :=
  let subaddrs := sort_dicts subaddrs in
  match do_upsert id address view subaddrs max_subaddr (t_subaddress_ranges s, t_subaddress_indexes s) with
  | (Ok out, st) => Ok (out, set_sub_tables st s)
  | (Err e, _) => Err e
  end.

Definition get_subaddresses (id : account_id) (s : tables) : list subaddress_dict :=
  dups (d:=subaddress_ranges) (t_subaddress_ranges s) id.
Definition find_subaddress (id : account_id) (key : public_key) (s : tables) : expect address_index :=
  let* m := lmdb_check (get_both (t_subaddress_indexes s) id key) in Ok (sm_index m).

Definition upsertions (fresh end_ minor match_minor : Z) : list subaddress_dict :=
  (fun i => (i, [(0, if i =? fresh then add_and_clamp match_minor (minor - 1) else minor - 1)])) <$> seqZ 0 end_.

Definition update_lookahead (address : account_address) (height : block_id) (match_ : address_index)
    (max_subaddresses_ : Z) (s : tables) : expect (Z * tables) :=
  match get_both (t_accounts_ba s) by_address_version (view_public address) with
  | None => Err (lws_err account_not_found)
  | Some found =>
    let lookup := ab_lookup found in
    let* user := lmdb_check (get_both (t_accounts s) (al_status lookup) (al_id lookup)) in
    let major := maj_i (acc_lookahead user) in
    let minor := min_i (acc_lookahead user) in
    if (major =? 0) || (minor =? 0) then Ok (0, s)
    else
      let '(upserted, st) :=
        if (major <=? u32_max / minor) && (major * minor <=? max_subaddresses_) then
          let fresh := maj_i match_ in
          do_upsert (acc_id user) address (acc_key user)
            (upsertions fresh (add_and_clamp fresh major) minor (min_i match_)) max_subaddresses_
            (t_subaddress_ranges s, t_subaddress_indexes s)
        else (Err (lws_err max_subaddresses), (t_subaddress_ranges s, t_subaddress_indexes s)) in
      match upserted with
      | Err e =>
        if bool_decide (e = lws_err max_subaddresses) then
          let fail :=
            if acc_lookahead_fail user =? 0 then Z.max 1 height
            else Z.max 1 (Z.min (acc_lookahead_fail user) height) in
          let user := set_lookahead (acc_lookahead user) fail user in
          Ok (-1, with_accounts (put (d:=accounts) (al_status lookup) user (t_accounts s)) (set_sub_tables st s))
        else Err e
      | Ok out => Ok (Z.min u32_max (Z.of_nat (length out)), set_sub_tables st s)
      end
  end.
End subaddress.

(** ** Merging ranges *)

Definition covers (l : index_ranges) (i : Z) : Prop := exists r, r ∈ l /\ in_range i r.
Definition range_valid (r : index_range) : Prop := 0 <= r.1 <= r.2 /\ r.2 <= u32_max.
Fixpoint ranges_size (l : index_ranges) : Z :=
  match l with [] => 0 | r :: l => r.2 + 1 - r.1 + ranges_size l end.
Fixpoint dicts_size (l : list subaddress_dict) : Z :=
  match l with [] => 0 | d :: l => ranges_size d.2 + dicts_size l end.

Lemma covers_nil i : covers [] i <-> False.
Proof. split; [|done]. by intros (r & Hr%elem_of_nil & _). Qed.
Lemma covers_cons r l i : covers (r :: l) i <-> in_range i r \/ covers l i.
Proof.
  split.
  - intros (r' & [->|Hr]%elem_of_cons & Hi); [by left|right; by exists r'].
  - intros [H|(r' & Hr & Hi)]; [exists r|exists r']; rewrite elem_of_cons; auto.
Qed.
Lemma covers_app l1 l2 i : covers (l1 ++ l2) i <-> covers l1 i \/ covers l2 i.
Proof. induction l1 as [|r l1 IH]; cbn [app]; [rewrite covers_nil; tauto|]. rewrite !covers_cons, IH. tauto. Qed.
Create Rewrite HintDb covers.
#[local] Hint Rewrite covers_nil covers_cons covers_app : covers.

Lemma ranges_size_app l1 l2 : ranges_size (l1 ++ l2) = ranges_size l1 + ranges_size l2.
Proof. induction l1; cbn in *; lia. Qed.
Lemma dicts_size_app l1 l2 : dicts_size (l1 ++ l2) = dicts_size l1 + dicts_size l2.
Proof. induction l1; cbn in *; lia. Qed.
Lemma add_out_size out major r : dicts_size (add_out out major r) = dicts_size out + (r.2 + 1 - r.1).
Proof.
  induction out as [|[m rs] [|d out] IH]; cbn [add_out]; [cbn; lia| |].
  - destruct (m =? major); cbn; rewrite ?ranges_size_app; cbn; lia.
  - change (dicts_size ((m, rs) :: add_out (d :: out) major r) = dicts_size ((m, rs) :: d :: out) + (r.2 + 1 - r.1)).
    cbn [dicts_size] in *. rewrite IH. lia.
Qed.

Lemma check_max_range_spec max r count count' :
  in_u32 max -> 0 <= count <= max -> range_valid r ->
  check_max_range max r count = Some count' <-> count' = count + (r.2 + 1 - r.1) /\ count' <= max.
Proof.
  unfold check_max_range, range_valid, in_u32, u32_max. intros Hm Hc Hr.
  rewrite (u64_small (max - count)) by (unfold in_u64, u64_max; lia).
  rewrite (u32_small (r.2 - r.1)) by (unfold in_u32, u32_max; lia).
  destruct (Z.leb_spec (max - count) (r.2 - r.1)); [split; [done|lia]|].
  rewrite (u32_small (r.2 - r.1 + 1)) by (unfold in_u32, u32_max; lia).
  rewrite u64_small by (unfold in_u64, u64_max; lia). split; [intros [= <-]; lia|intros [-> _]; f_equal; lia].
Qed.

(** What [merge_ranges] makes of [new_dict], [subaddr_count] and [out]. *)
Record merged (max : Z) (news olds : index_ranges) (st st' : merge_state) : Prop := {
  merged_covers i : covers st'.1.1 i <-> covers st.1.1 i \/ covers news i \/ covers olds i;
  merged_valid : Forall range_valid st.1.1 -> Forall range_valid st'.1.1;
  merged_count : st'.1.2 - st.1.2 = dicts_size st'.2 - dicts_size st.2;
  merged_max : 0 <= st'.1.2 <= max
}.

(** Taking a range before the rest is merged. *)
Lemma merged_step max news olds news' olds' dict dict' count count' out out' st' :
  merged max news' olds' (dict', count', out') st' ->
  (forall i, covers dict' i \/ covers news' i \/ covers olds' i <-> covers dict i \/ covers news i \/ covers olds i) ->
  (Forall range_valid dict -> Forall range_valid dict') ->
  count' - count = dicts_size out' - dicts_size out ->
  merged max news olds (dict, count, out) st'.
Proof.
  intros [H1 H2 H3 H4] Hc Hv Hn. cbn [fst snd] in *. split; cbn [fst snd]; [|auto|lia|lia].
  intros i. by rewrite H1, Hc.
Qed.

Definition valid_app_1 (l : index_ranges) r : range_valid r -> Forall range_valid l -> Forall range_valid (l ++ [r]).
Proof. intros. apply Forall_app. split; [done|by constructor]. Qed.

Lemma merge_ranges_nil max major olds dict count out :
  merge_ranges max major [] olds (dict, count, out) = Ok (dict ++ olds, count, out).
Proof. by destruct olds. Qed.

(** A range that does not touch what is left of the old ones. *)
Lemma merged_fresh max major new news olds dict count count' out st' :
  in_u32 max -> range_valid new -> 0 <= count <= max ->
  check_max_range max new count = Some count' ->
  (0 <= count' <= max -> merged max news olds (dict ++ [new], count', add_out out major new) st') ->
  merged max (new :: news) olds (dict, count, out) st'.
Proof.
  intros Hm Hnew Hc Hk H. apply check_max_range_spec in Hk as [-> Hk]; [|done..].
  unfold range_valid in Hnew. eapply merged_step; [apply H; lia| |intros; by apply valid_app_1|rewrite add_out_size; lia].
  intros i. autorewrite with covers. tauto.
Qed.

(** The two ends of an overlap. *)
Lemma widen_before max major new old count out old' count' out' :
  in_u32 max -> 0 <= count <= max -> range_valid new -> range_valid old -> old.1 <= new.2 + 1 ->
  (if new.1 <? old.1 then
     match check_max_range max (new.1, u32 (old.1 - 1)) count with
     | None => None
     | Some count => Some ((new.1, old.2), count, add_out out major (new.1, u32 (old.1 - 1)))
     end
   else Some (old, count, out)) = Some (old', count', out') ->
  old' = (Z.min new.1 old.1, old.2) /\ 0 <= count' <= max /\ count' - count = dicts_size out' - dicts_size out.
Proof.
  unfold range_valid. intros Hm Hc Hnew Hold Ht. unfold u32_max in *. destruct (Z.ltb_spec new.1 old.1).
  - rewrite u32_small by (unfold in_u32, u32_max; lia).
    destruct (check_max_range _ _ _) as [c|] eqn:E; [|done]. intros [= <- <- <-].
    apply check_max_range_spec in E as [-> ?]; [|done..|unfold range_valid, u32_max; cbn; lia]. cbn [fst snd] in *.
    rewrite add_out_size. cbn [fst snd]. split; [f_equal; lia|lia].
  - intros [= <- <- <-]. split; [|lia]. destruct old; cbn [fst snd] in *; f_equal; lia.
Qed.
Lemma widen_after max major new old count out old' count' out' :
  in_u32 max -> 0 <= count <= max -> range_valid new -> range_valid old ->
  (if old.2 <? new.2 then
     match check_max_range max (u32 (old.2 + 1), new.2) count with
     | None => None
     | Some count => Some ((old.1, new.2), count, add_out out major (u32 (old.2 + 1), new.2))
     end
   else Some (old, count, out)) = Some (old', count', out') ->
  old' = (old.1, Z.max old.2 new.2) /\ 0 <= count' <= max /\ count' - count = dicts_size out' - dicts_size out.
Proof.
  unfold range_valid. intros Hm Hc Hnew Hold. unfold u32_max in *. destruct (Z.ltb_spec old.2 new.2).
  - rewrite u32_small by (unfold in_u32, u32_max; lia).
    destruct (check_max_range _ _ _) as [c|] eqn:E; [|done]. intros [= <- <- <-].
    apply check_max_range_spec in E as [-> ?]; [|done..|unfold range_valid, u32_max; cbn; lia]. cbn [fst snd] in *.
    rewrite add_out_size. cbn [fst snd]. split; [f_equal; lia|lia].
  - intros [= <- <- <-]. split; [|lia]. destruct old; cbn [fst snd] in *; f_equal; lia.
Qed.

Lemma merge_ranges_merged max major news :
  in_u32 max -> Forall range_valid news ->
  forall olds dict count out st', Forall range_valid olds -> 0 <= count <= max ->
  merge_ranges max major news olds (dict, count, out) = Ok st' ->
  merged max news olds (dict, count, out) st'.
Proof.
  intros Hm Hn. induction Hn as [|new news Hnew Hn IHn].
  { intros olds dict count out st' Ho Hc. rewrite merge_ranges_nil. intros [= <-].
    split; cbn [fst snd]; [|intros; by apply Forall_app|lia|lia]. intros i. autorewrite with covers. tauto. }
  induction olds as [|old olds IHo]; intros dict count out st' Ho Hc H; cbn [merge_ranges] in H.
  { destruct (check_max_range _ _ _) as [c|] eqn:E; [|done]. eapply merged_fresh; eauto. }
  inversion Ho as [|? ? Hold Hos]; subst.
  destruct (Z.ltb_spec (new.2 + 1) old.1).
  { destruct (check_max_range _ _ _) as [c|] eqn:E; [|done]. eapply merged_fresh; eauto. }
  destruct (Z.ltb_spec (old.2 + 1) new.1).
  { apply IHo in H; [|done..]. eapply merged_step; [exact H| |intros; by apply valid_app_1|lia].
    intros i. autorewrite with covers. tauto. }
  destruct ((old.1 <=? new.1) && (new.2 <=? old.2)) eqn:Hin.
  { apply andb_true_iff in Hin as [?%Z.leb_le ?%Z.leb_le]. apply IHn in H; [|done..].
    eapply merged_step; [exact H| |done|lia]. intros i. autorewrite with covers. unfold in_range.
    intuition lia. }
  destruct (if new.1 <? old.1 then _ else _) as [[[old1 c1] o1]|] eqn:E1; [|done].
  apply widen_before in E1 as (-> & Hc1 & Hd1); [|done..].
  destruct (if (Z.min new.1 old.1, old.2).2 <? new.2 then _ else _) as [[[old2 c2] o2]|] eqn:E2; [|done].
  unfold range_valid in Hnew, Hold.
  apply widen_after in E2 as (-> & Hc2 & Hd2); [|done..|unfold range_valid; cbn [fst snd]; lia]. cbn [fst snd] in *.
  apply IHn in H; [|constructor; [unfold range_valid; cbn [fst snd]; lia|done]|done].
  eapply merged_step; [exact H| |done|lia]. intros i. autorewrite with covers. unfold in_range. cbn [fst snd].
  assert (Z.min new.1 old.1 <= i <= Z.max old.2 new.2 <-> new.1 <= i <= new.2 \/ old.1 <= i <= old.2) as -> by lia. tauto.
Qed.

(** ** What the two tables of an account hold *)
Section upsert.
Context {LM : Lmdb} {LL : LmdbLaws LM} {SC : SubaddressCrypto}.
Context (id : account_id) (address : account_address) (view : secret_key) (max_subaddr : Z).
Hypothesis max_u32 : in_u32 max_subaddr.

#[local] Abbreviation key_of major minor := (get_spend_public address view (AddressIndex major minor)).

(** Every index of a stored range has an entry under its public key, and every
    entry is the public key of its index. *)
Record sub_wf (s : sub_tables) : Prop := {
  sub_valid d : d ∈ dups (d:=subaddress_ranges) s.1 id -> Forall range_valid d.2;
  sub_complete d i : d ∈ dups (d:=subaddress_ranges) s.1 id -> covers d.2 i ->
    exists m, m ∈ dups (d:=subaddress_indexes) s.2 id /\ sm_subaddress m = key_of d.1 i;
  sub_sound m : m ∈ dups (d:=subaddress_indexes) s.2 id -> sm_subaddress m = get_spend_public address view (sm_index m)
}.
Definition stored (s : sub_tables) (major i : Z) : Prop :=
  exists d, d ∈ dups (d:=subaddress_ranges) s.1 id /\ d.1 = major /\ covers d.2 i.
Definition same_others (s s' : sub_tables) : Prop :=
  forall id', id' <> id -> dups (d:=subaddress_ranges) s'.1 id' = dups (d:=subaddress_ranges) s.1 id' /\
    dups (d:=subaddress_indexes) s'.2 id' = dups (d:=subaddress_indexes) s.2 id'.

Lemma index_entries_elem major dict m :
  m ∈ index_entries address view major dict <->
  exists i, covers dict i /\ m = SubaddressMap (key_of major i) (AddressIndex major i).
Proof.
  unfold index_entries. rewrite list_elem_of_bind. setoid_rewrite list_elem_of_fmap. unfold range_indexes. setoid_rewrite elem_of_seqZ.
  split.
  - intros (r & (i & -> & Hi) & Hr). exists i. split; [exists r; split; [done|unfold in_range; lia]|done].
  - intros (i & (r & Hr & Hi) & ->). exists r. split; [exists i; split; [done|unfold in_range in Hi; lia]|done].
Qed.

Lemma bulk_insert_others (k k' : account_id) l (t : tab subaddress_indexes) :
  k <> k' -> dups (d:=subaddress_indexes) (bulk_insert (d:=subaddress_indexes) k l t) k' = dups (d:=subaddress_indexes) t k'.
Proof.
  intros Hk. revert t. induction l as [|v l IH]; intros t; cbn [bulk_insert]; [done|].
  destruct (put_nodupdata (d:=subaddress_indexes) k v t) eqn:E; rewrite IH; [|done].
  apply (put_nodupdata_some (d:=subaddress_indexes)) in E as [-> _]. by apply (dups_put_other (d:=subaddress_indexes)).
Qed.

Lemma check_dict_valid (d : subaddress_dict) :
  Forall range_wf d.2 -> check_subaddress_dict d = true -> Forall range_valid d.2.
Proof.
  intros Hw H. unfold check_subaddress_dict in H. apply check_ranges_spec in H as [[Hle _] _]; [|by vm_compute|done].
  rewrite Forall_forall in Hw, Hle |- *. intros r Hr. specialize (Hw r Hr) as [[? ?] [? ?]]. specialize (Hle r Hr). unfold range_valid. lia.
Qed.

(** Removing a ranges entry, then storing a new one with its indexes. *)
Lemma sub_wf_del major s : sub_wf s -> sub_wf (del (d:=subaddress_ranges) id major s.1, s.2).
Proof.
  intros [Hv Hc Hs]. split; cbn [fst snd]; [| |done].
  - intros d Hd. apply (elem_del (d:=subaddress_ranges)) in Hd as [Hd _]. by apply Hv.
  - intros d i Hd. apply (elem_del (d:=subaddress_ranges)) in Hd as [Hd _]. by apply Hc.
Qed.
Lemma sub_wf_indexes major dict s :
  sub_wf s -> sub_wf (s.1, bulk_insert (d:=subaddress_indexes) id (index_entries address view major dict) s.2).
Proof.
  intros [Hv Hc Hs]. split; cbn [fst snd]; [done| |].
  - intros d i Hd Hi. destruct (Hc d i Hd Hi) as (m & Hm & E). exists m. split; [by apply bulk_insert_keeps|done].
  - intros m Hm. apply bulk_insert_adds in Hm as [Hm|[_ Hm]]; [by apply Hs|].
    apply index_entries_elem in Hm as (i & _ & ->). done.
Qed.
Lemma sub_wf_put major dict s :
  sub_wf s -> Forall range_valid dict ->
  (forall i, covers dict i -> exists m, m ∈ dups (d:=subaddress_indexes) s.2 id /\ sm_subaddress m = key_of major i) ->
  sub_wf (put (d:=subaddress_ranges) id (major, dict) s.1, s.2).
Proof.
  intros [Hv Hc Hs] Hd He. split; cbn [fst snd]; [| |done].
  - intros d Hin. apply (elem_put (d:=subaddress_ranges)) in Hin as [[_ ->]|[Hin _]]; [done|by apply Hv].
  - intros d i Hin. apply (elem_put (d:=subaddress_ranges)) in Hin as [[_ ->]|[Hin _]]; [apply He|by apply Hc].
Qed.

(** The last part of an iteration: indexes, then the ranges entry. *)
Lemma store_major major dict s ranges' :
  sub_wf s -> Forall range_valid dict ->
  let indexes := bulk_insert (d:=subaddress_indexes) id (index_entries address view major dict) s.2 in
  put_nodupdata (d:=subaddress_ranges) id (major, dict) s.1 = Some ranges' ->
  sub_wf (ranges', indexes) /\ same_others s (ranges', indexes) /\
  forall maj i, stored (ranges', indexes) maj i <-> (maj = major /\ covers dict i) \/ stored s maj i.
Proof.
  intros Hw Hd indexes Hp. apply (put_nodupdata_some (d:=subaddress_ranges)) in Hp as [-> Hn]. split_and!.
  - apply (sub_wf_put major dict (s.1, indexes)); [by apply sub_wf_indexes|done|]. intros i Hi. cbn [snd].
    destruct (bulk_insert_stored (d:=subaddress_indexes) id (index_entries address view major dict) s.2
      (SubaddressMap (key_of major i) (AddressIndex major i))) as (m & Hm & E); [apply index_entries_elem; by exists i|].
    by exists m.
  - intros id' Hid. cbn [fst snd]. split; [by apply (dups_put_other (d:=subaddress_ranges))|by apply bulk_insert_others].
  - intros maj i. unfold stored. cbn [fst snd]. split.
    + intros (d & Hin & Hd1 & Hi). apply (elem_put (d:=subaddress_ranges)) in Hin as [[_ ->]|[Hin _]].
      * left. cbn in Hd1, Hi. by subst.
      * right. by exists d.
    + intros [[-> Hi]|(d & Hin & Hd1 & Hi)].
      * exists (major, dict). split; [|done]. apply (elem_put (d:=subaddress_ranges)). by left.
      * exists d. split; [|done]. apply (elem_put (d:=subaddress_ranges)). right. split; [done|]. intros _. by apply Hn.
Qed.

(** One iteration, whether or not it succeeds. *)
Definition upserted (entry : subaddress_dict) (st : (Z * list subaddress_dict) * sub_tables)
    (r : expect (Z * list subaddress_dict) * sub_tables) : Prop :=
  sub_wf r.2 /\ same_others st.2 r.2 /\
  match r.1 with
  | Ok (count, out) =>
    0 <= count <= max_subaddr /\ count - st.1.1 = dicts_size out - dicts_size st.1.2 /\
    forall major i, stored r.2 major i <-> stored st.2 major i \/ (major = entry.1 /\ covers entry.2 i)
  | Err _ => True
  end.

Lemma same_others_refl s : same_others s s.
Proof. by intros id' _. Qed.
Lemma same_others_trans s1 s2 s3 : same_others s1 s2 -> same_others s2 s3 -> same_others s1 s3.
Proof. intros H1 H2 id' Hid. destruct (H1 id' Hid), (H2 id' Hid). split; congruence. Qed.
Lemma same_others_del major s : same_others s (del (d:=subaddress_ranges) id major s.1, s.2).
Proof. intros id' Hid. cbn [fst snd]. split; [|done]. by apply (dups_del_other (d:=subaddress_ranges)). Qed.

Lemma check_max_ranges_spec ranges count count' :
  Forall range_valid ranges -> 0 <= count <= max_subaddr ->
  check_max_ranges max_subaddr ranges count = Some count' ->
  count' = count + ranges_size ranges /\ 0 <= count' <= max_subaddr.
Proof.
  intros Hr. revert count. induction Hr as [|r ranges Hr Hrs IH]; intros count Hc; cbn [check_max_ranges ranges_size].
  { intros [= <-]. lia. }
  destruct (check_max_range _ _ _) as [c|] eqn:E; [|done]. apply check_max_range_spec in E as [-> Hk]; [|done..].
  unfold range_valid in Hr. intros H. apply IH in H; lia.
Qed.

Lemma upsert_major_new (entry : subaddress_dict) count out s :
  sub_wf s -> Forall range_valid entry.2 -> 0 <= count <= max_subaddr ->
  get_both (d:=subaddress_ranges) s.1 id entry.1 = None -> check_subaddress_dict entry = true ->
  upserted entry ((count, out), s) (upsert_major id address view max_subaddr entry ((count, out), s)).
Proof.
  intros Hw Hv Hc Hg Hd. destruct s as [ranges indexes]. unfold upsert_major. rewrite Hd. cbn [fst snd negb] in *. rewrite Hg.
  destruct (check_max_ranges _ _ _) as [c|] eqn:E.
  2:{ split_and!; [done|apply same_others_refl|done]. }
  apply check_max_ranges_spec in E as [-> E]; [|done..]. cbv zeta.
  destruct (put_nodupdata _ _ _) as [ranges'|] eqn:Ep.
  - apply (store_major entry.1 entry.2 (ranges, indexes)) in Ep as (Hw' & Ho & Hs); [|done..].
    split; [exact Hw'|]. split; [exact Ho|]. split; [done|]. split.
    + cbn [fst snd]. rewrite dicts_size_app. cbn. lia.
    + intros major i. rewrite Hs. tauto.
  - split_and!; [by apply (sub_wf_indexes entry.1 entry.2 (ranges, indexes))| |done].
    intros id' Hid. cbn [fst snd]. split; [done|by apply bulk_insert_others].
Qed.

(** Taking the old entry out of the table and storing the merged one. *)
Lemma stored_merged (s : sub_tables) (old : subaddress_dict) dict news major i :
  old ∈ dups (d:=subaddress_ranges) s.1 id ->
  (forall j, covers dict j <-> covers news j \/ covers old.2 j) ->
  (major = old.1 /\ covers dict i) \/ stored (del (d:=subaddress_ranges) id old.1 s.1, s.2) major i <->
  stored s major i \/ (major = old.1 /\ covers news i).
Proof.
  intros Hold Hd. unfold stored. cbn [fst snd]. setoid_rewrite (elem_del (d:=subaddress_ranges)). cbn [td_proj subaddress_ranges]. split.
  - intros [[-> H]|(d & [Hin _] & E & H)]; [apply Hd in H as [H|H]; [by right|left; by exists old]|left; by exists d].
  - intros [(d & Hin & E & H)|[-> H]].
    + destruct (decide (d.1 = old.1)) as [Ed|Ed].
      * assert (d = old) as -> by (by eapply (dups_inj (d:=subaddress_ranges))). left. split; [done|]. apply Hd. by right.
      * right. exists d. split_and!; [done|by intros _|done|done].
    + left. split; [done|]. apply Hd. by left.
Qed.

Lemma upsert_major_merge (entry : subaddress_dict) count out s old :
  sub_wf s -> Forall range_valid entry.2 -> 0 <= count <= max_subaddr ->
  get_both (d:=subaddress_ranges) s.1 id entry.1 = Some old -> check_subaddress_dict entry = true ->
  upserted entry ((count, out), s) (upsert_major id address view max_subaddr entry ((count, out), s)).
Proof.
  intros Hw Hv Hc Hg Hd. pose proof Hg as Hold. apply (get_both_some (d:=subaddress_ranges)) in Hold as [Hold Hm].
  destruct s as [ranges indexes]. unfold upsert_major. rewrite Hd. cbn [fst snd negb] in *. rewrite Hg. change (old.1 = entry.1) in Hm.
  pose proof (sub_wf_del entry.1 _ Hw) as Hw1. cbn [fst snd] in Hw1.
  destruct (merge_ranges _ _ _ _ _) as [[[dict c] o]|e] eqn:E.
  2:{ split_and!; [done|apply same_others_del|done]. }
  apply merge_ranges_merged in E; [|done..|exact (sub_valid _ Hw old Hold)|done]. destruct E as [Hcov Hval Hcnt Hmax]. cbn [fst snd] in *.
  assert (Hdict : Forall range_valid dict) by by apply Hval. cbv zeta.
  destruct (put_nodupdata _ _ _) as [ranges'|] eqn:Ep.
  - apply (store_major entry.1 dict (del (d:=subaddress_ranges) id entry.1 ranges, indexes)) in Ep as (Hw' & Ho & Hs); [|done..].
    split; [exact Hw'|]. split; [eapply same_others_trans; [apply same_others_del|exact Ho]|].
    split; [done|]. split; [cbn [fst snd]; lia|].
    intros major i. rewrite Hs, <- Hm. apply (stored_merged (ranges, indexes)); [done|].
    intros j. rewrite Hcov, covers_nil. tauto.
  - split_and!; [by apply (sub_wf_indexes entry.1 dict (_, indexes))| |done].
    eapply same_others_trans; [apply same_others_del|]. intros id' Hid. cbn [fst snd]. split; [done|by apply bulk_insert_others].
Qed.

Lemma upsert_major_upserted (entry : subaddress_dict) count out s :
  sub_wf s -> Forall range_wf entry.2 -> 0 <= count <= max_subaddr ->
  upserted entry ((count, out), s) (upsert_major id address view max_subaddr entry ((count, out), s)).
Proof.
  intros Hw Hv Hc. destruct (check_subaddress_dict entry) eqn:Hd.
  - apply check_dict_valid in Hv as Hv'; [|done].
    destruct (get_both (d:=subaddress_ranges) s.1 id entry.1) as [old|] eqn:E; [by eapply upsert_major_merge|by apply upsert_major_new].
  - destruct s as [ranges indexes]. unfold upsert_major. rewrite Hd. split_and!; [done|apply same_others_refl|done].
Qed.

(** All of [do_upsert]. *)
Definition in_dicts (l : list subaddress_dict) (major i : Z) : Prop := exists d, d ∈ l /\ d.1 = major /\ covers d.2 i.
Definition upserted_all (subaddrs : list subaddress_dict) (count : Z) (size : Z) (s : sub_tables)
    (r : expect (list subaddress_dict) * sub_tables) : Prop :=
  sub_wf r.2 /\ same_others s r.2 /\
  match r.1 with
  | Ok out =>
    count + (dicts_size out - size) <= max_subaddr /\
    forall major i, stored r.2 major i <-> stored s major i \/ in_dicts subaddrs major i
  | Err _ => True
  end.

Lemma in_dicts_cons d l major i : in_dicts (d :: l) major i <-> (major = d.1 /\ covers d.2 i) \/ in_dicts l major i.
Proof.
  split.
  - intros (d' & [->|Hd]%elem_of_cons & E & H); [left; by split|right; by exists d'].
  - intros [[-> H]|(d' & Hd & E & H)]; [exists d|exists d']; rewrite elem_of_cons; auto.
Qed.

Lemma upsert_majors_upserted subaddrs count out s :
  sub_wf s -> Forall (fun d => Forall range_wf d.2) subaddrs -> 0 <= count <= max_subaddr ->
  upserted_all subaddrs count (dicts_size out) s (upsert_majors id address view max_subaddr subaddrs ((count, out), s)).
Proof.
  intros Hw Hv. revert count out s Hw. induction Hv as [|entry subaddrs He Hv IH]; intros count out s Hw Hc; cbn [upsert_majors].
  { split; [done|]. split; [apply same_others_refl|]. split; [cbn; lia|]. intros major i. cbn [fst snd].
    split; [by left|]. intros [H|(d & Hd%elem_of_nil & _)]; done. }
  pose proof (upsert_major_upserted entry count out s Hw He Hc) as H.
  destruct (upsert_major _ _ _ _ _ _) as [[[count' out']|e] s'].
  2:{ destruct H as (H1 & H2 & _). by split_and!. }
  destruct H as (Hw' & Ho & Hc' & Hn & Hs). cbn [fst snd] in *. specialize (IH count' out' s' Hw' Hc').
  destruct (upsert_majors _ _ _ _ _ _) as [[out2|e] s2]; destruct IH as (Hw2 & Ho2 & H2); cbn [fst snd] in *;
    (split_and!; [done|by eapply same_others_trans|]); [|done].
  destruct H2 as [Hle Hst]. split; [lia|]. intros major i. cbn [snd]. rewrite Hst, Hs, in_dicts_cons. tauto.
Qed.

Lemma do_upsert_upserted subaddrs s :
  sub_wf s -> Forall (fun d => Forall range_wf d.2) subaddrs ->
  upserted_all subaddrs (Z.of_nat (length (dups (d:=subaddress_indexes) s.2 id))) 0 s
    (do_upsert id address view subaddrs max_subaddr s).
Proof.
  intros Hw Hv. unfold do_upsert. destruct (Z.ltb_spec max_subaddr (Z.of_nat (length (dups (d:=subaddress_indexes) s.2 id)))).
  - split_and!; [done|apply same_others_refl|done].
  - apply (upsert_majors_upserted subaddrs _ []); [done..|lia].
Qed.
End upsert.

(** ** What the lookahead asks for *)
Section lookahead.
Context (major minor max_subs : Z).
Hypothesis Hmajor : 0 < major <= u32_max.
Hypothesis Hminor : 0 < minor <= u32_max.

(** Each entry is still empty, or one range from 0 that reaches the default. *)
Definition pending_entry (d : subaddress_dict) : Prop :=
  d.2 = [] \/ exists c, d.2 = [(0, c)] /\ minor - 1 <= c <= u32_max.
Definition entry_last (d : subaddress_dict) : Z :=
  match d.2 with [] => minor - 1 | (_, c) :: _ => c end.
(** The entry of index [i] exists and reaches [j]. *)
Definition asks (initial : list subaddress_dict) (i j : Z) : Prop :=
  exists d, initial !! Z.to_nat i = Some d /\ j <= entry_last d.

Definition wanted (r : address_index) (i j : Z) : Prop :=
  (i = maj_i r /\ 0 <= j <= Z.min u32_max (minor - 1 + min_i r)) \/
  (0 <= i < Z.min u32_max (maj_i r + major) /\ 0 <= j < minor).

Lemma add_and_clamp_min a b : 0 <= b -> add_and_clamp a b = Z.min u32_max (a + b).
Proof. unfold add_and_clamp. intros. destruct (Z.ltb_spec (u32_max - b) a); lia. Qed.

Lemma pending_last d : pending_entry d -> minor - 1 <= entry_last d <= u32_max.
Proof. unfold pending_entry, entry_last. intros [-> | (c & -> & Hc)]; lia. Qed.

Lemma asks_grow initial n i j :
  (length initial <= n)%nat -> asks initial i j -> asks (resize n (0, []) initial) i j.
Proof.
  intros Hn (d & Hd & Hj). exists d. split; [|done]. pose proof (lookup_lt_Some _ _ _ Hd).
  by rewrite lookup_resize by lia.
Qed.
Lemma pending_grow initial n :
  Forall pending_entry initial -> Forall pending_entry (resize n (0, []) initial).
Proof.
  intros H. apply Forall_forall. intros d Hd. apply list_elem_of_lookup in Hd as [i Hd].
  pose proof (lookup_lt_Some _ _ _ Hd) as Hi. rewrite length_resize in Hi.
  destruct (decide (i < length initial)%nat).
  - rewrite lookup_resize in Hd by lia. by eapply (proj1 (Forall_lookup _ _)).
  - rewrite lookup_resize_new in Hd by lia. injection Hd as <-. by left.
Qed.

Lemma asks_default initial i j :
  Forall pending_entry initial -> 0 <= i < Z.of_nat (length initial) -> j < minor -> asks initial i j.
Proof.
  intros Hp Hi Hj. destruct (lookup_lt_is_Some_2 initial (Z.to_nat i)) as [d Hd]; [lia|].
  exists d. split; [done|]. pose proof (proj1 (Forall_lookup _ _) Hp _ _ Hd) as Hpd. apply pending_last in Hpd. lia.
Qed.

(** Raising one entry. *)
Lemma asks_insert initial k d d' i j :
  initial !! k = Some d -> entry_last d <= entry_last d' -> asks initial i j -> asks (<[k := d']> initial) i j.
Proof.
  intros Hk Hle (d0 & Hd & Hj). pose proof (lookup_lt_Some _ _ _ Hk). destruct (decide (Z.to_nat i = k)) as [Ei|Ei].
  - exists d'. rewrite Ei, list_lookup_insert_eq by lia. split; [done|]. rewrite Ei in Hd. assert (d0 = d) by congruence. subst. lia.
  - exists d0. by rewrite list_lookup_insert_ne.
Qed.

Lemma asks_raise initial grown index d d' last :
  (forall i j, asks initial i j -> asks grown i j) -> Forall pending_entry grown ->
  grown !! Z.to_nat index = Some d -> pending_entry d' -> entry_last d <= entry_last d' -> last <= entry_last d' ->
  Forall pending_entry (<[Z.to_nat index := d']> grown) /\
  (forall i j, asks initial i j -> asks (<[Z.to_nat index := d']> grown) i j) /\
  (forall j, j <= last -> asks (<[Z.to_nat index := d']> grown) index j).
Proof.
  intros Hg Hp Hd Hd' Hle Hlast. pose proof (lookup_lt_Some _ _ _ Hd). split_and!.
  - by apply Forall_insert.
  - intros i j Hi. eapply asks_insert; eauto.
  - intros j Hj. exists d'. rewrite list_lookup_insert_eq by lia. split; [done|lia].
Qed.

Lemma lookahead_received_asks initial o initial' :
  Forall pending_entry initial -> in_u32 (maj_i (out_recipient o)) -> in_u32 (min_i (out_recipient o)) ->
  lookahead_received major minor max_subs initial o = Ok initial' ->
  Forall pending_entry initial' /\ (forall i j, asks initial i j -> asks initial' i j) /\
  (is_zero (out_recipient o) = false -> forall i j, wanted (out_recipient o) i j -> asks initial' i j).
Proof.
  intros Hp [Ha Ha'] [Hb Hb']. unfold lookahead_received, wanted. destruct (is_zero (out_recipient o)); [intros [= <-]; done|].
  rewrite !add_and_clamp_min by lia.
  destruct (_ <? _) eqn:E1; [done|]. destruct (max_subs <? _) eqn:E2; [done|].
  set (n := Nat.max _ _). set (index := maj_i _) in *. set (last := Z.min u32_max (minor - 1 + _)).
  pose proof (pending_grow initial n Hp) as Hp1. pose proof (fun i j => asks_grow initial n i j ltac:(lia)) as Hg.
  set (grown := resize n (0, []) initial) in *. assert (Hlen : length grown = n) by apply length_resize. cbv zeta.
  assert (Hdone : forall d d', grown !! Z.to_nat index = Some d -> pending_entry d' -> entry_last d <= entry_last d' -> last <= entry_last d' ->
    Ok (<[Z.to_nat index := d']> grown) = Ok initial' ->
    Forall pending_entry initial' /\ (forall i j, asks initial i j -> asks initial' i j) /\
    (false = false -> forall i j, (i = index /\ 0 <= j <= last) \/ (0 <= i < Z.min u32_max (index + major) /\ 0 <= j < minor) -> asks initial' i j)).
  { intros d d' Hd Hd' Hle Hlast [= <-]. destruct (asks_raise initial grown index d d' last Hg Hp1 Hd Hd' Hle Hlast) as (H1 & H2 & H3).
    split_and!; [done|done|]. intros _ i j [[-> Hj]|[Hi Hj]]; [apply H3; lia|].
    pose proof (length_insert grown (Z.to_nat index) d') as Hl. apply asks_default; [done|unfold subaddress_dict, index_ranges in *; lia|lia]. }
  destruct (grown !! Z.to_nat index) as [[m rs]|] eqn:Ed; [|done].
  pose proof (proj1 (Forall_lookup _ _) Hp1 _ _ Ed) as Hd.
  destruct Hd as [Hrs|(c & Hrs & Hc)]; cbn [snd] in Hrs; subst rs; eapply Hdone; try done; unfold pending_entry, entry_last; cbn [snd].
  - right. exists last. split; [done|lia].
  - lia.
  - right. exists (Z.max c last). split; [done|lia].
  - lia.
  - lia.
Qed.

Lemma lookahead_received_all os initial initial' :
  Forall pending_entry initial -> Forall (fun o => in_u32 (maj_i (out_recipient o)) /\ in_u32 (min_i (out_recipient o))) os ->
  efold (lookahead_received major minor max_subs) initial os = Ok initial' ->
  Forall pending_entry initial' /\ (forall i j, asks initial i j -> asks initial' i j) /\
  forall o i j, o ∈ os -> is_zero (out_recipient o) = false -> wanted (out_recipient o) i j -> asks initial' i j.
Proof.
  intros Hp Ho. revert initial Hp. induction Ho as [|o os [Ho1 Ho2] Hos IH]; intros initial Hp; cbn [efold].
  { intros [= <-]. split_and!; [done|done|]. intros o i j Ho%elem_of_nil. done. }
  intros H. inv_ok H. apply lookahead_received_asks in Hr as (H1 & H2 & H3); [|done..].
  apply IH in H as (H4 & H5 & H6); [|done]. split_and!; [done|auto|].
  intros o' i j [->|Hin]%elem_of_cons Hz Hw; [auto|by eapply H6].
Qed.

(** The dictionaries handed to [do_upsert] ask for the same. *)
Lemma lookahead_fill_asks initial i0 total dicts :
  Forall pending_entry initial -> lookahead_fill minor max_subs i0 total initial = Ok dicts ->
  forall i j, 0 <= i -> 0 <= j -> asks initial i j -> in_dicts dicts (i0 + i) j.
Proof.
  intros Hp. revert i0 total dicts. induction Hp as [|[m rs] initial Hd Hp IH]; intros i0 total dicts H i j Hi Hj (d & Hl & Hle); [done|].
  cbn [lookahead_fill] in H. destruct (match rs with [] => _ | _ => _ end) as [rs' this] eqn:Ers.
  destruct (_ <? this); [done|]. inv_ok H. injection H as <-. rewrite in_dicts_cons. cbn [fst snd].
  destruct (Z.eq_dec i 0) as [->|Hi0].
  - left. split; [lia|]. injection Hl as <-.
    destruct Hd as [Hrs|(c & Hrs & Hc)]; cbn [snd] in Hrs; subst rs; injection Ers as <- <-; unfold entry_last in Hle; cbn [snd] in Hle.
    + exists (0, minor - 1). split; [by apply list_elem_of_here|]. unfold in_range; cbn [fst snd]. lia.
    + exists (0, c). split; [by apply list_elem_of_here|]. unfold in_range; cbn [fst snd]. lia.
  - right. replace (i0 + i) with (i0 + 1 + (i - 1)) by lia. eapply IH; [exact Hr|lia|lia|].
    exists d. split; [|done]. replace (Z.to_nat i) with (S (Z.to_nat (i - 1))) in Hl by lia. done.
Qed.

Lemma lookahead_fill_wf initial i0 total dicts :
  Forall pending_entry initial -> lookahead_fill minor max_subs i0 total initial = Ok dicts ->
  Forall (fun d : subaddress_dict => Forall range_wf d.2) dicts.
Proof.
  intros Hp. revert i0 total dicts. induction Hp as [|[m rs] initial Hd Hp IH]; intros i0 total dicts H; cbn [lookahead_fill] in H.
  { injection H as <-. constructor. }
  destruct (match rs with [] => _ | _ => _ end) as [rs' this] eqn:Ers.
  destruct (_ <? this); [done|]. inv_ok H. injection H as <-. constructor; [|by eapply IH]. cbn [snd]. unfold range_wf, in_u32, u32_max in *.
  destruct Hd as [Hrs|(c & Hrs & Hc)]; cbn [snd] in Hrs; subst rs; injection Ers as <- <-; apply Forall_singleton; unfold u32_max in *; cbn [fst snd]; lia.
Qed.
End lookahead.

(** ** Properties *)
Section properties.
Context {LM : Lmdb} {LL : LmdbLaws LM} {SC : SubaddressCrypto}.

Definition sub_of (s : tables) : sub_tables := (t_subaddress_ranges s, t_subaddress_indexes s).

(** Whatever is asked for and however it ends, [do_upsert] only adds entries that
    are the public keys of their indexes, to the one account. *)
Lemma upsert_major_adds id address view max_subaddr entry st id' m :
  m ∈ dups (d:=subaddress_indexes) (upsert_major id address view max_subaddr entry st).2.2 id' ->
  m ∈ dups (d:=subaddress_indexes) st.2.2 id' \/ id' = id /\ exists i, m = SubaddressMap (get_spend_public address view i) i.
Proof.
  destruct st as [[count out] [ranges indexes]]. unfold upsert_major. cbn [fst snd].
  destruct (negb _); [by left|]. cbv zeta. destruct (match get_both ranges id entry.1 with Some _ => _ | None => _ end) as [[[[dict c] o]|e] ranges']; [|by left].
  intros Hm. assert (m ∈ dups (d:=subaddress_indexes) (bulk_insert (d:=subaddress_indexes) id (index_entries address view entry.1 dict) indexes) id') as Hm'
    by (by destruct (put_nodupdata _ _ _)).
  apply bulk_insert_adds in Hm' as [?|[-> Hm']]; [by left|]. right. split; [done|]. apply index_entries_elem in Hm' as (i & _ & ->). by eexists.
Qed.
Lemma do_upsert_adds id address view subaddrs max_subaddr s id' m :
  m ∈ dups (d:=subaddress_indexes) (do_upsert id address view subaddrs max_subaddr s).2.2 id' ->
  m ∈ dups (d:=subaddress_indexes) s.2 id' \/ id' = id /\ exists i, m = SubaddressMap (get_spend_public address view i) i.
Proof.
  unfold do_upsert. destruct (_ <? _); [by left|]. generalize (Z.of_nat (length (dups (d:=subaddress_indexes) s.2 id)), @nil subaddress_dict).
  revert s. induction subaddrs as [|entry subaddrs IH]; intros s co; cbn [upsert_majors]; [by left|].
  pose proof (upsert_major_adds id address view max_subaddr entry (co, s) id' m) as Ha.
  destruct (upsert_major _ _ _ _ _ _) as [[co'|e] s']; [|exact Ha]. intros [H|H]%IH; [by apply Ha|by right].
Qed.

(** C34: A successful [upsert_subaddresses] stores the union of the old and the
    requested ranges and nothing else; every subaddress of the union is then
    found by its public key, at an index with that key; the ranges reported as
    new and the entries that existed stay within the limit; the subaddresses of
    other accounts are untouched. *)
Theorem upsert_subaddresses_union id address view subaddrs max_subaddr (s s' : tables) out :
  in_u32 max_subaddr -> Forall (fun d : subaddress_dict => Forall range_wf d.2) subaddrs ->
  sub_wf id address view (sub_of s) ->
  upsert_subaddresses id address view subaddrs max_subaddr s = Ok (out, s') ->
  sub_wf id address view (sub_of s') /\ same_others id (sub_of s) (sub_of s') /\
  (forall major i, in_dicts (get_subaddresses id s') major i <->
     in_dicts (get_subaddresses id s) major i \/ in_dicts subaddrs major i) /\
  (forall major i, in_dicts (get_subaddresses id s') major i ->
     let key := get_spend_public address view (AddressIndex major i) in
     exists j, find_subaddress id key s' = Ok j /\ get_spend_public address view j = key) /\
  Z.of_nat (length (dups (d:=subaddress_indexes) (t_subaddress_indexes s) id)) + dicts_size out <= max_subaddr.
Proof.
  intros Hm Hv Hw H. unfold upsert_subaddresses in H. set (sorted := sort_dicts subaddrs) in H.
  assert (Hperm : sorted ≡ₚ subaddrs) by apply std_sort_perm.
  assert (Hv' : Forall (fun d : subaddress_dict => Forall range_wf d.2) sorted) by by rewrite Hperm.
  pose proof (do_upsert_upserted id address view max_subaddr Hm sorted (sub_of s) Hw Hv') as Hu.
  destruct (do_upsert _ _ _ _ _ _) as [[out'|e] st] eqn:E in H; [|done]. injection H as <- <-.
  apply (eq_ind _ (upserted_all id address view max_subaddr sorted _ 0 (sub_of s)) Hu) in E.
  destruct E as (Hw' & Ho & Hsize & Hst). cbn [fst snd] in *.
  assert (Hs' : sub_of (set_sub_tables st s) = st) by by destruct st. rewrite Hs'.
  assert (Hin : forall major i, in_dicts sorted major i <-> in_dicts subaddrs major i).
  { intros. unfold in_dicts. by setoid_rewrite Hperm. }
  assert (Hget : forall major i, in_dicts (get_subaddresses id (set_sub_tables st s)) major i <-> stored id st major i) by by destruct st.
  split_and!; [done|done| | |rewrite <- Z.add_0_r; unfold sub_of in Hsize; cbn [snd] in *; lia].
  - intros major i. rewrite Hget, Hst, Hin. done.
  - intros major i (d & Hd & Hd1 & Hi)%Hget. cbv zeta. set (key := get_spend_public _ _ _). destruct (sub_complete _ _ _ _ Hw' d i Hd Hi) as (m & Hm' & Ek).
    rewrite Hd1 in Ek. exists (sm_index m). unfold find_subaddress. replace (t_subaddress_indexes _) with st.2 by by destruct st.
    rewrite (proj2 (get_both_some (d:=subaddress_indexes) st.2 id key m)) by done. split; [done|].
    unfold key. by rewrite <- Ek, (sub_sound _ _ _ _ Hw' m Hm').
Qed.

(** [do_upsert] keeps the two tables of an account in agreement whether it
    succeeds or not, which matters because callers commit what a failed call
    leaves: every index of a stored range has an entry under its public key,
    and every entry is the public key of its index. *)
Theorem do_upsert_keeps_agreement id address view subaddrs max_subaddr (s s' : sub_tables) r :
  in_u32 max_subaddr -> Forall (fun d : subaddress_dict => Forall range_wf d.2) subaddrs ->
  sub_wf id address view s -> do_upsert id address view subaddrs max_subaddr s = (r, s') ->
  sub_wf id address view s' /\ same_others id s s'.
Proof.
  intros Hm Hv Hw H. destruct (do_upsert_upserted id address view max_subaddr Hm subaddrs s Hw Hv) as (H1 & H2 & _).
  by rewrite H in H1, H2.
Qed.

(** [do_lookahead_tables], whether or not it succeeds. *)
Lemma lookahead_stored t_outs id address view lookahead max_subs (s s' : sub_tables) res :
  in_u32 max_subs -> 0 < maj_i lookahead <= u32_max -> 0 < min_i lookahead <= u32_max ->
  (forall o, o ∈ dups (d:=outputs) t_outs id -> in_u32 (maj_i (out_recipient o)) /\ in_u32 (min_i (out_recipient o))) ->
  sub_wf id address view s ->
  do_lookahead_tables t_outs id address view lookahead max_subs s = (res, s') ->
  sub_wf id address view s' /\ same_others id s s' /\
  (is_ok res = true -> forall r i j,
    r = address_index_primary \/ (exists o, o ∈ dups (d:=outputs) t_outs id /\ out_recipient o = r) ->
    wanted (maj_i lookahead) (min_i lookahead) r i j -> stored id s' i j).
Proof.
  intros Hm Hmaj Hmin Ho Hw. unfold do_lookahead_tables.
  assert (forall e, (Err e : expect unit, s) = (res, s') -> sub_wf id address view s' /\ same_others id s s' /\
    (is_ok res = true -> forall r i j, r = address_index_primary \/ (exists o, o ∈ dups (d:=outputs) t_outs id /\ out_recipient o = r) ->
    wanted (maj_i lookahead) (min_i lookahead) r i j -> stored id s' i j)) as Herr.
  { intros e [= <- <-]. split_and!; [done|apply same_others_refl|done]. }
  destruct (Z.eqb_spec (maj_i lookahead) 0); [lia|]. destruct (Z.eqb_spec (min_i lookahead) 0); [lia|]. cbn [orb].
  destruct (_ <? maj_i lookahead); [apply Herr|]. destruct (max_subs <? _); [apply Herr|].
  set (start := replicate _ _). assert (Hp : Forall (pending_entry (min_i lookahead)) start) by (apply Forall_replicate; by left).
  destruct (ebind _ _) as [dicts|e] eqn:Ed; [|apply Herr]. inv_ok Ed. rename r into initial.
  apply (lookahead_received_all _ _ _ Hmaj Hmin) in Hr as (H1 & H2 & H3); [|done|by apply Forall_forall].
  pose proof (lookahead_fill_asks _ _ _ _ _ _ H1 Ed) as Hask.
  pose proof (do_upsert_upserted id address view max_subs Hm dicts s Hw) as Hu.
  destruct (do_upsert _ _ _ _ _ _) as [[out|e] s1] eqn:E; intros [= <- <-];
    (destruct Hu as (Hw1 & Ho1 & Hst); [by eapply lookahead_fill_wf|]; cbn [fst snd] in *; split_and!; [done|done|]); [|done].
  intros _ r i j Hr' Hwant. apply Hst. right.
  replace i with (0 + i) by lia.
  assert (0 <= i /\ 0 <= j) as [Hi Hj].
  { unfold wanted in Hwant. destruct Hr' as [->|(o & Hin & <-)]; [cbn in Hwant; lia|]. destruct (Ho o Hin) as [[? ?] ?]. lia. }
  apply Hask; [done|done|].
  destruct (is_zero r) eqn:Hz.
  - apply H2. assert (r = address_index_primary) as ->.
    { unfold is_zero in Hz. destruct r as [a b]. cbn in Hz. apply andb_true_iff in Hz as [->%Z.eqb_eq ->%Z.eqb_eq]. done. }
    assert (Hl : @length subaddress_dict start = Z.to_nat (maj_i lookahead)) by apply length_replicate.
    unfold wanted, u32_max in *. cbn in Hwant. apply asks_default; [done|done|lia|lia].
  - destruct Hr' as [->|(o & Hin & <-)]; [done|]. by eapply H3.
Qed.

(** [do_lookahead] records the lookahead in the account. Unless it also
    records a failure, at the start height and never at 0, the account then
    watches the whole lookahead: from the primary address, and from every
    subaddress that has received an output, the next [minor] addresses of the
    same major index and the first [minor] addresses of the next [major] major
    indexes (clamped to 32 bits). The subaddress tables agree in both cases. *)
Theorem do_lookahead_covers t_outs lookahead max_subs u u' (s s' : sub_tables) :
  in_u32 max_subs -> 0 < maj_i lookahead <= u32_max -> 0 < min_i lookahead <= u32_max ->
  (forall o, o ∈ dups (d:=outputs) t_outs (acc_id u) -> in_u32 (maj_i (out_recipient o)) /\ in_u32 (min_i (out_recipient o))) ->
  sub_wf (acc_id u) (acc_address u) (acc_key u) s -> acc_lookahead_fail u = 0 ->
  do_lookahead u t_outs lookahead max_subs s = (Ok u', s') ->
  sub_wf (acc_id u) (acc_address u) (acc_key u) s' /\ same_others (acc_id u) s s' /\ acc_lookahead u' = lookahead /\
  (acc_lookahead_fail u' <> 0 -> acc_lookahead_fail u' = Z.max 1 (acc_start_height u)) /\
  (acc_lookahead_fail u' = 0 -> forall r i j,
    r = address_index_primary \/ (exists o, o ∈ dups (d:=outputs) t_outs (acc_id u) /\ out_recipient o = r) ->
    wanted (maj_i lookahead) (min_i lookahead) r i j -> stored (acc_id u) s' i j).
Proof.
  intros Hm Hmaj Hmin Ho Hw Hf H. unfold do_lookahead in H.
  destruct (do_lookahead_tables _ _ _ _ _ _ _) as [res s1] eqn:E.
  destruct (lookahead_stored _ _ _ _ _ _ _ _ _ Hm Hmaj Hmin Ho Hw E) as (H1 & H2 & H3). destruct res as [[]|e].
  - injection H as <- <-. cbn. split_and!; [done|done|done|congruence|]. intros _. by apply H3.
  - destruct (bool_decide _); [|done]. injection H as <- <-. cbn. split_and!; [done|done|done|done|lia].
Qed.

(** When an account has used up its limit, [update_lookahead] loses what
    was stored: [do_upsert] has already deleted the ranges of the major index
    when it fails with [max_subaddresses], and the caller records the failure
    and commits. The ranges the account had under that index are gone, while
    its subaddress entries stay. *)
Theorem update_lookahead_drops_ranges address height match_min minor max_subs k found user (s : tables) :
  get_both (d:=accounts_by_address) (t_accounts_ba s) by_address_version (view_public address) = Some found ->
  get_both (d:=accounts) (t_accounts s) (al_status (ab_lookup found)) (al_id (ab_lookup found)) = Some user ->
  acc_lookahead user = AddressIndex 1 minor -> 0 < minor <= max_subs -> in_u32 max_subs ->
  get_both (d:=subaddress_ranges) (t_subaddress_ranges s) (acc_id user) 0 = Some (0, [(0, k)]) ->
  Z.of_nat (length (dups (d:=subaddress_indexes) (t_subaddress_indexes s) (acc_id user))) = max_subs ->
  0 <= k -> 0 <= match_min -> k < Z.min u32_max (match_min + (minor - 1)) ->
  exists s', update_lookahead address height (AddressIndex 0 match_min) max_subs s = Ok (-1, s') /\
    get_both (d:=subaddress_ranges) (t_subaddress_ranges s') (acc_id user) 0 = None /\
    t_subaddress_indexes s' = t_subaddress_indexes s.
Proof.
  intros Hba Hacc Hl [Hmin Hmin'] [Hm Hm'] Hold Hcount Hk Hmm Hlast. unfold update_lookahead. rewrite Hba. cbn zeta.
  unfold u32_max in *.
  unfold lmdb_check at 1. rewrite Hacc. cbn [ebind]. rewrite Hl. cbn [maj_i min_i].
  destruct (Z.eqb_spec minor 0); [lia|]. cbn [Z.eqb orb].
  assert (1 <= 4294967295 / minor) by (apply Z.div_le_lower_bound; lia).
  destruct (Z.leb_spec 1 (4294967295 / minor)); [|lia]. destruct (Z.leb_spec (1 * minor) max_subs); [|lia]. cbn [andb].
  change (add_and_clamp 0 1) with 1.
  change (upsertions 0 1 minor match_min) with ([(0, [(0, add_and_clamp match_min (minor - 1))])] : list subaddress_dict).
  rewrite add_and_clamp_min by lia. unfold u32_max. set (last := Z.min _ _) in *.
  unfold do_upsert. cbn [snd]. rewrite Hcount. rewrite Z.ltb_irrefl. cbn [upsert_majors]. unfold upsert_major. cbn [fst snd].
  assert (Hd : check_subaddress_dict (0, [(0, last)]) = true).
  { unfold check_subaddress_dict. cbn [snd check_ranges fst]. destruct (Z.ltb_spec last 0); [lia|].
    cbn [negb]. by rewrite andb_false_r. }
  rewrite Hd. cbn [negb]. rewrite Hold. cbn [snd fst merge_ranges].
  destruct (Z.ltb_spec (last + 1) 0); [lia|]. destruct (Z.ltb_spec (k + 1) 0); [lia|].
  destruct (Z.leb_spec last k); [lia|]. cbn [Z.leb Z.compare andb Z.ltb].
  unfold check_max_range. rewrite Z.sub_diag. cbn [snd fst].
  destruct (Z.leb_spec (u64 0) (u32 (last - u32 (k + 1)))) as [_|Hbad].
  2:{ pose proof (u32_range (last - u32 (k + 1))). unfold in_u32 in *. change (u64 0) with 0 in Hbad. lia. }
  rewrite (proj2 (Z.ltb_lt k last)) by lia. cbv beta iota zeta. rewrite bool_decide_true by done. eexists. split; [reflexivity|]. cbn [t_subaddress_ranges t_subaddress_indexes with_accounts set_sub_tables with_subaddress_indexes with_subaddress_ranges fst snd].
  split; [|done]. apply (get_both_none (d:=subaddress_ranges)). intros v Hv. apply (elem_del (d:=subaddress_ranges)) in Hv as [_ Hv]. by apply Hv.
Qed.

(** A new range that starts right after one stored range and runs past the
    next one is merged into the first only. The stored list then has a range
    inside another one, which the same check refuses in requests, and the
    subaddresses of the second range are counted and reported as new again. *)
Theorem bridging_range_overlaps max_subaddr major a b c d e count :
  in_u32 max_subaddr -> 0 <= a <= b -> b + 1 < c <= d -> d <= e <= u32_max -> 0 <= count -> count + (e - b) <= max_subaddr ->
  merge_ranges max_subaddr major [(b + 1, e)] [(a, b); (c, d)] ([], count, []) =
    Ok ([(a, e); (c, d)], count + (e - b), [(major, [(b + 1, e)])]) /\
  check_subaddress_dict (major, [(a, e); (c, d)]) = false /\
  forall i, in_range i (c, d) -> in_dicts [(major, [(b + 1, e)])] major i.
Proof.
  unfold in_u32, u32_max. intros Hm Hab Hc Hd Hn Hlim. cbn [merge_ranges fst snd].
  destruct (Z.ltb_spec (e + 1) a); [lia|]. destruct (Z.ltb_spec (b + 1) (b + 1)); [lia|].
  destruct (Z.leb_spec e b); [lia|]. rewrite andb_false_r. destruct (Z.ltb_spec (b + 1) a); [lia|]. cbn [fst snd].
  destruct (Z.ltb_spec b e); [|lia]. rewrite u32_small by (unfold in_u32, u32_max; lia).
  destruct (check_max_range _ _ _) as [n|] eqn:E.
  2:{ assert (check_max_range max_subaddr (b + 1, e) count = Some (count + (e - b))) as E'; [|congruence].
      apply check_max_range_spec; unfold in_u32, range_valid, u32_max; cbn [fst snd]; lia. }
  apply check_max_range_spec in E as [-> _]; [|unfold in_u32, range_valid, u32_max; cbn [fst snd]; lia..]. cbn [fst snd].
  split_and!.
  - cbn [app add_out]. do 3 f_equal. lia.
  - unfold check_subaddress_dict. cbn [snd fst check_ranges negb]. rewrite andb_false_r.
    destruct (Z.ltb_spec e a); [lia|]. destruct (Z.ltb_spec d c); [lia|].
    rewrite u64_small by (unfold in_u64, u64_max; lia). destruct (Z.leb_spec c (e + 1)); [done|lia].
  - intros i Hi. exists (major, [(b + 1, e)]). split_and!; [by apply list_elem_of_here|done|].
    exists (b + 1, e). split; [by apply list_elem_of_here|]. unfold in_range in *. cbn [fst snd] in *. lia.
Qed.
End properties.

(** ** An account with two subaddresses, and a toy key derivation *)
Module SubaddressSample.
Import Reference.

#[local] Instance crypto : SubaddressCrypto := {
  HASH_KEY_SUBADDRESS := [1; 2];
  hash_to_scalar l := be_decode l;
  base_point_times k := k;
  add_keys := Z.add
}.

Definition addr : account_address := AccountAddress 55 56.
Definition key (i : Z) : public_key := get_spend_public addr 57 (AddressIndex 0 i).
Definition user : account := Account 1 0 addr 57 3 1 0 0 (AddressIndex 1 3) 0.
Definition subs : sub_tables :=
  ([(1, (0, [(0, 1)]))], [(1, SubaddressMap (key 0) (AddressIndex 0 0)); (1, SubaddressMap (key 1) (AddressIndex 0 1))]).
Definition db : tables :=
  set_sub_tables subs
    (with_accounts [(active, user)]
      (with_accounts_ba [(by_address_version, AccountByAddress addr (AccountLookup 1 active))] empty_tables)).
Definition asked : list subaddress_dict := [(1, [(0, 0)]); (0, [(1, 2); (4, 4)])].

Lemma asked_wf : Forall (fun d : subaddress_dict => Forall range_wf d.2) asked.
Proof. repeat constructor; vm_compute; congruence. Qed.
Lemma subs_wf : sub_wf 1 addr 57 subs.
Proof.
  split.
  - intros d Hd. change (d ∈ [(0, [(0, 1)])]) in Hd. apply list_elem_of_singleton in Hd as ->. apply Forall_singleton. by vm_compute.
  - intros d i Hd (r & Hr & Hi). change (d ∈ [(0, [(0, 1)])]) in Hd. apply list_elem_of_singleton in Hd as ->.
    apply list_elem_of_singleton in Hr as ->. unfold in_range in Hi. cbn [fst snd] in *.
    assert (i = 0 \/ i = 1) as [-> | ->] by lia.
    + exists (SubaddressMap (key 0) (AddressIndex 0 0)). split; [|done]. vm_compute. by left.
    + exists (SubaddressMap (key 1) (AddressIndex 0 1)). split; [|done]. vm_compute. right. by left.
  - intros m Hm. change (m ∈ rdups subaddress_indexes subs.2 1) in Hm. vm_compute in Hm.
    apply elem_of_cons in Hm as [->|Hm]; [done|]. apply list_elem_of_singleton in Hm as ->. done.
Qed.

Definition after : tables := match upsert_subaddresses 1 addr 57 asked 6 db with Ok (_, s) => s | Err _ => db end.

Lemma upsert_subaddresses_union_witness :
  upsert_subaddresses 1 addr 57 asked 6 db = Ok ([(0, [(2, 2); (4, 4)]); (1, [(0, 0)])], after) /\
  get_subaddresses 1 after = [(0, [(0, 2); (4, 4)]); (1, [(0, 0)])] /\
  exists j, find_subaddress 1 (key 4) after = Ok j.
Proof.
  assert (upsert_subaddresses 1 addr 57 asked 6 db = Ok ([(0, [(2, 2); (4, 4)]); (1, [(0, 0)])], after)) as H by (vm_compute; reflexivity).
  split; [exact H|]. split; [vm_compute; reflexivity|].
  assert (in_u32 6) as H6 by (unfold in_u32, u32_max; lia).
  destruct (upsert_subaddresses_union 1 addr 57 asked 6 db after [(0, [(2, 2); (4, 4)]); (1, [(0, 0)])] H6 asked_wf subs_wf H) as (_ & _ & Hu & Hf & _).
  assert (in_dicts (get_subaddresses 1 after) 0 4) as H4.
  { apply Hu. right. exists (0, [(1, 2); (4, 4)]). split; [right; left|]. split; [reflexivity|].
    exists (4, 4). split; [right; left|]. unfold in_range; cbn [fst snd]; lia. }
  destruct (Hf 0 4 H4) as (j & Hj & _). exists j. exact Hj.
Defined.

(** The limit of four is hit after the first major index has been stored. *)
Definition cut_short : expect (list subaddress_dict) * sub_tables := do_upsert 1 addr 57 asked 3 subs.

Lemma do_upsert_keeps_agreement_witness :
  cut_short.1 = Err (lws_err max_subaddresses) /\ sub_wf 1 addr 57 cut_short.2.
Proof.
  split; [vm_compute; reflexivity|].
  assert (in_u32 3) as H3 by (unfold in_u32, u32_max; lia).
  apply (do_upsert_keeps_agreement 1 addr 57 asked 3 subs cut_short.2 cut_short.1 H3 asked_wf subs_wf).
  unfold cut_short. destruct (do_upsert _ _ _ _ _ _). reflexivity.
Defined.

Definition received : output :=
  Output (TransactionLink 2 9) (SpendMeta (OutputId 0 2) 5 11 0 77) 0 0 0 2 0 0 0 0 (AddressIndex 1 1).
Definition outs : tab outputs := [(1, received)].
Definition looked : expect account * sub_tables := do_lookahead user outs (AddressIndex 1 3) 20 subs.
Definition looked_user : account := match looked.1 with Ok u => u | Err _ => user end.

Lemma do_lookahead_covers_witness :
  looked.1 = Ok looked_user /\ stored 1 looked.2 1 3 /\ stored 1 looked.2 0 2.
Proof.
  assert (looked = (Ok looked_user, looked.2)) as E by (vm_compute; reflexivity).
  assert (in_u32 20) as H20 by (unfold in_u32, u32_max; lia).
  assert (forall o, o ∈ dups (d:=outputs) outs 1 -> in_u32 (maj_i (out_recipient o)) /\ in_u32 (min_i (out_recipient o))) as Ho.
  { intros o Ho. change (o ∈ [received]) in Ho. apply list_elem_of_singleton in Ho as ->. unfold in_u32, u32_max; cbn; lia. }
  destruct (do_lookahead_covers outs (AddressIndex 1 3) 20 user looked_user subs looked.2 H20
    ltac:(unfold u32_max; cbn; lia) ltac:(unfold u32_max; cbn; lia) Ho subs_wf eq_refl E) as (_ & _ & _ & _ & H).
  assert (acc_lookahead_fail looked_user = 0) as Hf by (vm_compute; reflexivity).
  split; [vm_compute; reflexivity|]. split.
  - apply (H Hf (AddressIndex 1 1)); [right; exists received; split; [left|reflexivity]|]. left. unfold u32_max; cbn. lia.
  - apply (H Hf address_index_primary); [left; reflexivity|]. left. unfold u32_max; cbn. lia.
Defined.

Definition user2 : account := set_lookahead (AddressIndex 1 2) 0 user.
Definition full_accounts : tab accounts := [(active, user2)].
Definition full_db : tables := with_accounts full_accounts db.

Lemma update_lookahead_drops_ranges_witness :
  get_subaddresses 1 db = [(0, [(0, 1)])] /\
  exists s', update_lookahead addr 7 (AddressIndex 0 1) 2 full_db = Ok (-1, s') /\
    get_both (d:=subaddress_ranges) (t_subaddress_ranges s') 1 0 = None.
Proof.
  split; [vm_compute; reflexivity|].
  destruct (update_lookahead_drops_ranges addr 7 1 2 2 1 (AccountByAddress addr (AccountLookup 1 active))
    user2 full_db) as (s' & H1 & H2 & _); try (vm_compute; reflexivity); try (unfold in_u32, u32_max; lia).
  exists s'. split; [exact H1|exact H2].
Defined.

Lemma bridging_range_overlaps_witness :
  merge_ranges 100 0 [(2, 10)] [(0, 1); (5, 6)] ([], 4, []) = Ok ([(0, 10); (5, 6)], 13, [(0, [(2, 10)])]) /\
  check_subaddress_dict (0, [(0, 10); (5, 6)]) = false.
Proof.
  destruct (bridging_range_overlaps 100 0 0 1 5 6 10 4) as (H1 & H2 & _); try (unfold in_u32, u32_max; lia).
  split; [exact H1|exact H2].
Defined.
End SubaddressSample.
