(* ===== verification/Accounts.v ===== *)
(** src/db/storage.cpp: the operations on accounts and on the request queue:
    [add_account], [change_status], [rescan], [creation_request],
    [import_request], [accept_requests], [reject_requests],
    [shrink_lookahead], [update_access_time], and the readers of accounts.

    Each operation runs inside [try_write] (Lmdb.v), so an error leaves the
    tables as they were; the tables are therefore part of a success only. The
    clock is an argument. *)

From S2P Require Import Prelude Data Account Lmdb Tables Chain Subaddress.

(** [crypto::secret_key_to_public_key] of monero. *)
Class ViewKeyCrypto := { secret_key_to_public_key : secret_key -> option public_key }.

(** [get_account_time]; [account_time] has 32 bits. *)
Definition get_account_time (now : Z) : expect account_time :=
  if now <? 0 then Err (lws_err system_clock_invalid_range)
  else if u32_max <? now then Err (lws_err system_clock_invalid_range)
  else Ok now.

Section accounts.
Context {LM : Lmdb} {VC : ViewKeyCrypto} {SC : SubaddressCrypto}.

Definition find_last_id (t : tab accounts) : expect account_id :=
  efold (fun best status =>
    let* u := lmdb_check (last (dups (d:=accounts) t status)) in Ok (Z.max best (acc_id u)))
    0 (keys t).

(** The lookup every operation on an address starts with. The index compares
    the view key only. *)
Definition find_lookup (address : account_address) (s : tables) : option account_by_address :=
  get_both (d:=accounts_by_address) (t_accounts_ba s) by_address_version (view_public address).
Definition find_user (lookup : account_lookup) (s : tables) : expect account :=
  lmdb_check (get_both (d:=accounts) (t_accounts s) (al_status lookup) (al_id lookup)).

(** ** Readers *)

Definition get_account_by_id (status : account_status) (id : account_id) (s : tables) : expect account :=
  match get_both (d:=accounts) (t_accounts s) status id with
  | None => Err (lws_err account_not_found)
  | Some u => Ok u
  end.
Definition get_account (address : account_address) (s : tables) : expect (account_status * account) :=
  match find_lookup address s with
  | None => Err (lws_err account_not_found)
  | Some found =>
    if negb (bool_decide (ab_address found = address)) then Err (lws_err account_not_found)
    else
      let* user := get_account_by_id (al_status (ab_lookup found)) (al_id (ab_lookup found)) s in
      Ok (al_status (ab_lookup found), user)
  end.
Definition get_accounts (status : account_status) (s : tables) : list account := dups (d:=accounts) (t_accounts s) status.
Definition get_outputs (id : account_id) (s : tables) : list output := dups (d:=outputs) (t_outputs s) id.
Definition get_full_account (address_string : account_address -> list Z) (u : account) (s : tables) : Account.state :=
  let os := get_outputs (acc_id u) s in
  Account.construct address_string u ((fun o => (sme_id (out_spend_meta o), out_recipient o)) <$> os) (out_pub <$> os).
Definition get_request (type : request) (address : account_address) (s : tables) : expect request_info :=
  lmdb_check (get_both (d:=requests) (t_requests s) type (spend_public address)).

(** ** Operations on one account *)

Definition set_access (time : account_time) (u : account) : account :=
  Account (acc_id u) time (acc_address u) (acc_key u) (acc_scan_height u) (acc_start_height u)
    (acc_creation u) (acc_flags u) (acc_lookahead u) (acc_lookahead_fail u).

Definition update_access_time (now : Z) (address : account_address) (s : tables) : expect tables :=
  let* current_time := get_account_time now in
  match find_lookup address s with
  | None => Err (lws_err account_not_found)
  | Some found =>
    let* user := find_user (ab_lookup found) s in
    Ok (with_accounts (put (d:=accounts) (al_status (ab_lookup found)) (set_access current_time user) (t_accounts s)) s)
  end.

(** An iteration of [change_status]: the addresses changed so far. *)
Definition change_one_status (status : account_status) (st : list account_address * tables) (address : account_address)
    : expect (list account_address * tables) :=
  let '(changed, s) := st in
  match find_lookup address s with
  | None => Ok (changed, s)
  | Some by_address =>
    let current := al_status (ab_lookup by_address) in
    if bool_decide (current = status) then Ok (changed ++ [address], s)
    else
      let lookup := AccountLookup (al_id (ab_lookup by_address)) status in
      let s := with_accounts_ba (put (d:=accounts_by_address) by_address_version
        (AccountByAddress (ab_address by_address) lookup) (t_accounts_ba s)) s in
      let* user := lmdb_check (get_both (d:=accounts) (t_accounts s) current (al_id lookup)) in
      let* acc := lmdb_check_put (put_nodupdata (d:=accounts) status user
        (del (d:=accounts) current (acc_id user) (t_accounts s))) in
      let* _ := lmdb_check (get_both (d:=accounts_by_height) (t_accounts_bh s) (acc_scan_height user) (acc_id user)) in
      Ok (changed ++ [address],
        with_accounts_bh (put (d:=accounts_by_height) (acc_scan_height user) lookup (t_accounts_bh s)) (with_accounts acc s))
  end.
Definition change_status (status : account_status) (addresses : list account_address) (s : tables)
    : expect (list account_address * tables) :=
  efold (change_one_status status) ([], s) addresses.

Definition do_add_account (user : account) (s : tables) : expect tables :=
  match secret_key_to_public_key (acc_key user) with
  | None => Err (lws_err bad_view_key)
  | Some verify =>
    if negb (verify =? view_public (acc_address user)) then Err (lws_err bad_view_key)
    else
      let status := if acc_flags user =? admin_account then hidden else active in
      let lookup := AccountLookup (acc_id user) status in
      match put_nodupdata (d:=accounts_by_address) by_address_version (AccountByAddress (acc_address user) lookup) (t_accounts_ba s) with
      | None => Err (lws_err account_exists)
      | Some ba =>
        let* bh := lmdb_check_put (put_nodupdata (d:=accounts_by_height) (acc_scan_height user) lookup (t_accounts_bh s)) in
        let* acc := lmdb_check_put (put_nodupdata (d:=accounts) status user (t_accounts s)) in
        Ok (with_accounts acc (with_accounts_bh bh (with_accounts_ba ba s)))
      end
  end.

Definition add_account (now : Z) (address : account_address) (key : secret_key) (flags : Z) (s : tables) : expect tables :=
  let* current_time := get_account_time now in
  let* last_id := find_last_id (t_accounts s) in
  let* block := last_dup (d:=blocks) (t_blocks s) blocks_version in
  let height := bi_id block in
  do_add_account (Account (u32 (last_id + 1)) current_time address key height height current_time flags
    address_index_primary 0) s.

(** [change_height]; [lookahead] is set by [import_accounts] only. *)
Definition reset_heights (height : block_id) (u : account) : account :=
  Account (acc_id u) (acc_access u) (acc_address u) (acc_key u)
    (Z.min height (acc_scan_height u)) (Z.min height (acc_start_height u)) (acc_creation u) (acc_flags u)
    (acc_lookahead u) (if height <=? acc_lookahead_fail u then 0 else acc_lookahead_fail u).

Definition change_height (height : block_id) (address : account_address)
    (lookahead : option (address_index * Z)) (s : tables) : expect tables :=
  match find_lookup address s with
  | None => Err (lws_err account_not_found)
  | Some found =>
    let lookup := ab_lookup found in
    let* old := find_user lookup s in
    let current_height := acc_scan_height old in
    let user := reset_heights height old in
    let s := with_outputs (rollback_outputs (acc_id user) height (t_outputs s)) s in
    let* sp := rollback_spends (acc_id user) height (t_spends s, t_images s) in
    let s := with_images sp.2 (with_spends sp.1 s) in
    let* us :=
      match lookahead with
      | Some (index, max_subaddresses_) =>
        if is_zero index then Ok (user, s)
        else
          let '(r, st) := do_lookahead user (t_outputs s) index max_subaddresses_ (t_subaddress_ranges s, t_subaddress_indexes s) in
          let* user := r in Ok (user, set_sub_tables st s)
      | None => Ok (user, s)
      end in
    let '(user, s) := us in
    let s := with_accounts (put (d:=accounts) (al_status lookup) user (t_accounts s)) s in
    let* _ := lmdb_check (get_both (d:=accounts_by_height) (t_accounts_bh s) current_height (acc_id user)) in
    let* bh := lmdb_check_put (put_nodupdata (d:=accounts_by_height) (acc_scan_height user) lookup
      (del (d:=accounts_by_height) current_height (acc_id user) (t_accounts_bh s))) in
    Ok (with_accounts_bh bh s)
  end.

(** Unknown addresses are passed over. *)
Definition change_one_height (height : block_id) (lookahead : option (address_index * Z))
    (st : list account_address * tables) (address : account_address) : expect (list account_address * tables) :=
  match change_height height address lookahead st.2 with
  | Ok s => Ok (st.1 ++ [address], s)
  | Err e => if bool_decide (e = lws_err account_not_found) then Ok st else Err e
  end.
Definition rescan (height : block_id) (addresses : list account_address) (s : tables) : expect (list account_address * tables) :=
  let* block := last_dup (d:=blocks) (t_blocks s) blocks_version in
  if bi_id block <? height then Err (lws_err bad_height)
  else efold (change_one_height height None) ([], s) addresses.

Definition shrink_lookahead (address : account_address) (lookahead : address_index) (s : tables) : expect tables :=
  match find_lookup address s with
  | None => Err (lws_err account_not_found)
  | Some found =>
    let* user := find_user (ab_lookup found) s in
    if negb (acc_lookahead_fail user =? 0) || (maj_i (acc_lookahead user) <? maj_i lookahead) ||
       (min_i (acc_lookahead user) <? min_i lookahead) then Err (lws_err max_subaddresses)
    else Ok (with_accounts (put (d:=accounts) (al_status (ab_lookup found))
      (set_lookahead lookahead (acc_lookahead_fail user) user) (t_accounts s)) s)
  end.

(** ** The request queue *)

Definition creation_request (now create_queue_max_ : Z) (address : account_address) (key : secret_key) (flags : Z)
    (lookahead : address_index) (s : tables) : expect (list webhook_new_account * tables) :=
  if create_queue_max_ =? 0 then Err (lws_err create_queue_max)
  else
    let* current_time := get_account_time now in
    match find_lookup address s with
    | Some _ => Err (lws_err account_exists)
    | None =>
      let queued := dups (d:=requests) (t_requests s) create in
      if negb (bool_decide (queued = [])) && (create_queue_max_ <=? Z.of_nat (length queued)) then Err (lws_err create_queue_max)
      else
        let* block := last_dup (d:=blocks) (t_blocks s) blocks_version in
        let info := RequestInfo address key (bi_id block) current_time flags lookahead in
        match put_nodupdata (d:=requests) create info (t_requests s) with
        | None => Err (lws_err duplicate_request)
        | Some t =>
          let hooks := (fun v => WebhookNewAccount v address) <$>
            dups (d:=webhooks) (t_webhooks s) (WebhookKey account_id_invalid new_account) in
          Ok (hooks, with_requests t s)
        end
    end.

Definition import_request (now : Z) (address : account_address) (height : block_id) (lookahead : address_index) (s : tables)
    : expect tables :=
  let* _ := get_account_time now in
  match find_lookup address s with
  | None => Err (lws_err account_not_found)
  | Some _ =>
    match put_nodupdata (d:=requests) import_scan (RequestInfo address 0 height 0 0 lookahead) (t_requests s) with
    | None => Err (lws_err duplicate_request)
    | Some t => Ok (with_requests t s)
    end
  end.

(** An iteration of [create_accounts]: the last id used, the addresses stored
    and the tables. *)
Definition create_one (current_time : account_time) (max_subaddresses_ : Z) (st : account_id * list account_address * tables)
    (address : account_address) : expect (account_id * list account_address * tables) :=
  let '(last_id, stored, s) := st in
  match get_both (d:=requests) (t_requests s) create (spend_public address) with
  | None => Ok st
  | Some info =>
    let s := with_requests (del (d:=requests) create (spend_public address) (t_requests s)) s in
    let next_id := u32 (last_id + 1) in
    if next_id =? account_id_invalid then Err (lws_err account_max)
    else
      let user := Account next_id current_time address (ri_key info) (ri_start_height info) (ri_start_height info)
        (ri_creation info) (ri_creation_flags info) address_index_primary 0 in
      let* us :=
        if is_zero (ri_lookahead info) then Ok (user, s)
        else
          let '(r, sub) := do_lookahead user (t_outputs s) (ri_lookahead info) max_subaddresses_ (t_subaddress_ranges s, t_subaddress_indexes s) in
          let* user := r in Ok (user, set_sub_tables sub s) in
      let '(user, s) := us in
      match do_add_account user s with
      | Ok s => Ok (next_id, stored ++ [address], s)
      | Err e =>
        if bool_decide (e = lws_err account_exists) || bool_decide (e = lws_err bad_view_key)
        then Ok (last_id, stored, s) else Err e
      end
  end.
Definition create_accounts (now : Z) (addresses : list account_address) (max_subaddresses_ : Z) (s : tables)
    : expect (list account_address * tables) :=
  let* current_time := get_account_time now in
  let* last_id := find_last_id (t_accounts s) in
  let* st := efold (create_one current_time max_subaddresses_) (last_id, [], s) addresses in
  Ok (st.1.2, st.2).

(** [import_accounts] reads the lookahead of a request through the memory that
    LMDB returned before the request was deleted. LMDB promises nothing about
    that memory: [deleted_value] is what is found there, given the table after
    the deletion and the value before it. *)
Section import.
Context (deleted_value : tab requests -> request_info -> request_info).

Definition import_one (max_subaddresses_ : Z) (st : list account_address * tables) (address : account_address)
    : expect (list account_address * tables) :=
  let '(updated, s) := st in
  match get_both (d:=requests) (t_requests s) import_scan (spend_public address) with
  | None => Ok st
  | Some info =>
    let new_height := ri_start_height info in
    let t := del (d:=requests) import_scan (spend_public address) (t_requests s) in
    let lookahead := ri_lookahead (deleted_value t info) in
    change_one_height new_height (Some (lookahead, max_subaddresses_)) (updated, with_requests t s) address
  end.
Definition import_accounts (addresses : list account_address) (max_subaddresses_ : Z) (s : tables)
    : expect (list account_address * tables) :=
  efold (import_one max_subaddresses_) ([], s) addresses.

Definition accept_requests (now : Z) (req : request) (addresses : list account_address) (max_subaddresses_ : Z) (s : tables)
    : expect (list account_address * tables) :=
  match addresses with
  | [] => Ok ([], s)
  | _ =>
    match req with
    | create => create_accounts now addresses max_subaddresses_ s
    | import_scan => import_accounts addresses max_subaddresses_ s
    end
  end.
End import.

Definition reject_one (req : request) (st : list account_address * tables) (address : account_address) : list account_address * tables :=
  match get_both (d:=requests) (t_requests st.2) req (spend_public address) with
  | None => st
  | Some _ => (st.1 ++ [address], with_requests (del (d:=requests) req (spend_public address) (t_requests st.2)) st.2)
  end.
Definition reject_requests (req : request) (addresses : list account_address) (s : tables)
    : list account_address * tables :=
  foldl (reject_one req) ([], s) addresses.
End accounts.

(** ** The invariant of the account tables *)
Section invariant.
Context {LM : Lmdb} {LL : LmdbLaws LM}.

(** What was found belongs to an account and is not beyond its scan height;
    [account_id::invalid] is not used. *)
Record storage_ok (s : tables) : Prop := {
  so_consistent : consistent s;
  so_ids st u : has_account (t_accounts s) st u -> 0 <= acc_id u < account_id_invalid;
  so_found : found_below_scan s;
  so_outputs k o : o ∈ dups (d:=outputs) (t_outputs s) k -> exists st u, has_account (t_accounts s) st u /\ acc_id u = k;
  so_spends k x : x ∈ dups (d:=spends) (t_spends s) k -> exists st u, has_account (t_accounts s) st u /\ acc_id u = k
}.

(** The account tables, outputs and spends are all that it depends on. *)
Lemma storage_ok_same (s s' : tables) :
  t_accounts s' = t_accounts s -> t_accounts_ba s' = t_accounts_ba s -> t_accounts_bh s' = t_accounts_bh s ->
  t_outputs s' = t_outputs s -> t_spends s' = t_spends s -> storage_ok s -> storage_ok s'.
Proof.
  intros E1 E2 E3 E4 E5 [H1 H2 H3 H4 H5]. unfold consistent, found_below_scan in *.
  split; unfold consistent, found_below_scan; rewrite ?E1, ?E2, ?E3, ?E4, ?E5; assumption.
Qed.

(** Tables that agree with the same address index hold the same accounts. *)
Lemma same_addresses acc acc' ba bh bh' nh nh' p p' st u :
  agree acc ba bh nh p -> agree acc' ba bh' nh' p' -> has_account acc st u ->
  exists u', has_account acc' st u' /\ acc_id u' = acc_id u /\ acc_address u' = acc_address u.
Proof.
  intros [_ H1 _] [_ H2 _] Hu.
  pose proof (proj2 (H1 (AccountByAddress (acc_address u) (AccountLookup (acc_id u) st)))) as Hb.
  specialize (Hb (ex_intro _ u (conj Hu (conj eq_refl eq_refl)))).
  destruct (proj1 (H2 _) Hb) as (u' & ? & ? & ?). by exists u'.
Qed.

Lemma find_lookup_account address (s : tables) found :
  consistent s -> find_lookup address s = Some found ->
  view_public (ab_address found) = view_public address /\
  exists u, find_user (ab_lookup found) s = Ok u /\ has_account (t_accounts s) (al_status (ab_lookup found)) u /\
    acc_id u = al_id (ab_lookup found) /\ acc_address u = ab_address found.
Proof.
  intros [_ Hba _] H. apply (get_both_some (d:=accounts_by_address)) in H as [Hin Hv]. split; [exact Hv|].
  destruct (proj1 (Hba found) Hin) as (u & Hu & E1 & E2). exists u. split_and!; [|done..].
  unfold find_user. rewrite (proj2 (get_both_some (d:=accounts) (t_accounts s) _ _ u)) by done. done.
Qed.

Lemma find_user_account lookup (s : tables) u :
  find_user lookup s = Ok u -> has_account (t_accounts s) (al_status lookup) u /\ acc_id u = al_id lookup.
Proof.
  unfold find_user, lmdb_check. destruct (get_both _ _ _) eqn:E; [|done]. intros [= ->].
  by apply (get_both_some (d:=accounts)) in E.
Qed.

(** A change to the other fields of an account. *)
Lemma storage_ok_touch (s : tables) st u u' :
  storage_ok s -> has_account (t_accounts s) st u ->
  acc_id u' = acc_id u -> acc_address u' = acc_address u -> acc_scan_height u' = acc_scan_height u ->
  storage_ok (with_accounts (put (d:=accounts) st u' (t_accounts s)) s).
Proof.
  intros [H1 H2 H3 H4 H5] Hu E1 E2 E3. pose proof (agree_ids _ _ _ _ _ H1) as Hids.
  pose proof (agree_touch _ _ _ _ _ _ _ u' H1 Hu E1 E2 E3) as Ha.
  assert (forall k, (exists st0 u0, has_account (t_accounts s) st0 u0 /\ acc_id u0 = k) ->
    exists st0 u0, has_account (put (d:=accounts) st u' (t_accounts s)) st0 u0 /\ acc_id u0 = k) as Hk.
  { intros k (st0 & u0 & Hu0 & <-). destruct (same_addresses _ _ _ _ _ _ _ _ _ _ _ H1 Ha Hu0) as (u1 & ? & ? & _). by exists st0, u1. }
  split; cbn.
  - exact Ha.
  - intros st0 u0 [[-> ->]|[H0 _]]%(has_account_put _ _ u); [rewrite E1|..]; eauto.
  - intros st0 u0 [[-> ->]|[H0 _]]%(has_account_put _ _ u); cbn; [rewrite E1, E3; eapply H3; eauto|eapply H3; eauto|done..].
  - eauto.
  - eauto.
Qed.

(** An account replaced by one with another status or scan height, its index
    entries along with it. *)
Lemma agree_replace acc ba bh acc' ba' bh' st u st' u' :
  agree acc ba bh 0 [] -> has_account acc st u -> acc_id u' = acc_id u -> acc_address u' = acc_address u ->
  let lookup := AccountLookup (acc_id u) st' in
  (forall st0 u0, has_account acc' st0 u0 <-> (st0 = st' /\ u0 = u') \/ (has_account acc st0 u0 /\ acc_id u0 <> acc_id u)) ->
  (forall b, b ∈ dups (d:=accounts_by_address) ba' by_address_version <->
     b = AccountByAddress (acc_address u) lookup \/ (b ∈ dups (d:=accounts_by_address) ba by_address_version /\ al_id (ab_lookup b) <> acc_id u)) ->
  (forall h l, l ∈ dups (d:=accounts_by_height) bh' h <->
     (h = acc_scan_height u' /\ l = lookup) \/ (l ∈ dups (d:=accounts_by_height) bh h /\ al_id l <> acc_id u)) ->
  agree acc' ba' bh' 0 [].
Proof.
  intros [Hbh Hba Hu] Hin Hid Ha lookup Hacc' Hba' Hbh'. split.
  - intros h l. specialize (Hbh h l). rewrite elem_of_nil in *. rewrite Hbh'. setoid_rewrite Hacc'. split.
    + intros [[[-> ->]|[Hl Hne]]|[_ []]]; [exists u'; cbn; split_and!; [by left|done|done]|].
      destruct (proj1 Hbh (or_introl Hl)) as (u0 & H0 & E1 & E2). exists u0. split_and!; [right; split; [done|congruence]|done|done].
    + intros (u0 & [[Hst ->]|[H0 Hne]] & E1 & E2); left.
      * left. split; [done|]. destruct l; unfold lookup; cbn in *; congruence.
      * right. destruct (proj2 Hbh) as [Hl|[_ []]]; [by exists u0|]. split; [done|congruence].
  - intros b. specialize (Hba b). rewrite Hba'. setoid_rewrite Hacc'. split.
    + intros [->|[Hb Hne]]; [exists u'; cbn; split_and!; [by left|done|done]|].
      destruct (proj1 Hba Hb) as (u0 & H0 & E1 & E2). exists u0. split_and!; [right; split; [done|congruence]|done|done].
    + intros (u0 & [[Hst ->]|[H0 Hne]] & E1 & E2).
      * left. destruct b as [? []]; unfold lookup; cbn in *; congruence.
      * right. split; [apply Hba; by exists u0|congruence].
  - intros st1 st2 u1 u2 [[-> ->]|[H1 N1]]%Hacc' [[-> ->]|[H2 N2]]%Hacc' E; [done|congruence|congruence|eauto].
Qed.

(** The address entries of the other accounts have other ids and view keys. *)
Lemma ba_put_other acc ba bh nh p st u lookup' b :
  agree acc ba bh nh p -> has_account acc st u -> al_id lookup' = acc_id u ->
  b ∈ dups (d:=accounts_by_address) (put (d:=accounts_by_address) by_address_version (AccountByAddress (acc_address u) lookup') ba) by_address_version <->
  b = AccountByAddress (acc_address u) lookup' \/
  (b ∈ dups (d:=accounts_by_address) ba by_address_version /\ al_id (ab_lookup b) <> acc_id u).
Proof.
  intros [_ Hba Hu] Hin Hl. rewrite (elem_put (d:=accounts_by_address)). cbn [td_proj accounts_by_address ab_address].
  pose proof (proj2 (Hba (AccountByAddress (acc_address u) (AccountLookup (acc_id u) st))) ltac:(by exists u)) as Hb0. split.
  - intros [[_ ->]|[Hb Hv]]; [by left|]. right. split; [done|]. intros E. apply (Hv eq_refl).
    destruct (proj1 (Hba b) Hb) as (u0 & H0 & E1 & E2). destruct (Hu _ _ _ _ H0 Hin) as [_ ->]; [congruence|]. by rewrite E2.
  - intros [->|[Hb Hne]]; [by left|]. right. split; [done|]. intros _ E. apply Hne.
    assert (b = AccountByAddress (acc_address u) (AccountLookup (acc_id u) st)) as -> by by eapply (dups_inj (d:=accounts_by_address)).
    done.
Qed.
End invariant.

(** ** Every operation keeps the invariant *)
Section preserved.
Context {LM : Lmdb} {LL : LmdbLaws LM} {VC : ViewKeyCrypto} {SC : SubaddressCrypto}.

Lemma storage_ok_replace (s s' : tables) st u st' u' :
  storage_ok s -> has_account (t_accounts s) st u -> acc_id u' = acc_id u -> acc_address u' = acc_address u ->
  let lookup := AccountLookup (acc_id u) st' in
  (forall st0 u0, has_account (t_accounts s') st0 u0 <-> (st0 = st' /\ u0 = u') \/ (has_account (t_accounts s) st0 u0 /\ acc_id u0 <> acc_id u)) ->
  (forall b, b ∈ dups (d:=accounts_by_address) (t_accounts_ba s') by_address_version <->
     b = AccountByAddress (acc_address u) lookup \/ (b ∈ dups (d:=accounts_by_address) (t_accounts_ba s) by_address_version /\ al_id (ab_lookup b) <> acc_id u)) ->
  (forall h l, l ∈ dups (d:=accounts_by_height) (t_accounts_bh s') h <->
     (h = acc_scan_height u' /\ l = lookup) \/ (l ∈ dups (d:=accounts_by_height) (t_accounts_bh s) h /\ al_id l <> acc_id u)) ->
  (forall k o, o ∈ dups (d:=outputs) (t_outputs s') k -> o ∈ dups (d:=outputs) (t_outputs s) k) ->
  (forall o, o ∈ dups (d:=outputs) (t_outputs s') (acc_id u) -> tl_height (out_link o) <= acc_scan_height u') ->
  (forall k x, x ∈ dups (d:=spends) (t_spends s') k -> x ∈ dups (d:=spends) (t_spends s) k) ->
  (forall x, x ∈ dups (d:=spends) (t_spends s') (acc_id u) -> tl_height (sp_link x) <= acc_scan_height u') ->
  storage_ok s'.
Proof.
  intros [H1 H2 H3 H4 H5] Hu Eid Ea lookup Hacc Hba Hbh Ho Ho' Hx Hx'.
  assert (forall k, (exists st0 u0, has_account (t_accounts s) st0 u0 /\ acc_id u0 = k) ->
    exists st0 u0, has_account (t_accounts s') st0 u0 /\ acc_id u0 = k) as Hk.
  { intros k (st0 & u0 & H0 & <-). destruct (decide (acc_id u0 = acc_id u)) as [E|E].
    - exists st', u'. rewrite Hacc, Eid. split; [by left|done].
    - exists st0, u0. rewrite Hacc. split; [by right|done]. }
  split.
  - by eapply agree_replace.
  - intros st0 u0 [[-> ->]|[H0 _]]%Hacc; [rewrite Eid|]; eauto.
  - intros st0 u0 [[-> ->]|[H0 _]]%Hacc; [rewrite Eid; split; eauto|].
    destruct (H3 _ _ H0) as [A B]. split; eauto.
  - eauto.
  - eauto.
Qed.

Lemma has_account_moved (acc : tab accounts) st st' u st0 u0 :
  ids_unique acc -> has_account acc st u ->
  has_account (put (d:=accounts) st' u (del (d:=accounts) st (acc_id u) acc)) st0 u0 <->
  (st0 = st' /\ u0 = u) \/ (has_account acc st0 u0 /\ acc_id u0 <> acc_id u).
Proof.
  intros Hu Hin. unfold has_account. rewrite (elem_put (d:=accounts)), (elem_del (d:=accounts)). cbn [td_proj accounts]. split.
  - intros [?|[[H Hd] _]]; [by left|]. right. split; [done|]. intros E. destruct (Hu _ _ _ _ H Hin E) as [-> ->]. by apply Hd.
  - intros [?|[H Hne]]; [by left|]. right. split; [split; [done|by intros _]|by intros _].
Qed.

(** The height entry of an account, and the others. *)
Lemma bh_entry acc ba bh u st :
  agree acc ba bh 0 [] -> has_account acc st u ->
  AccountLookup (acc_id u) st ∈ dups (d:=accounts_by_height) bh (acc_scan_height u).
Proof.
  intros [Hbh _ _] Hu. destruct (proj2 (Hbh (acc_scan_height u) (AccountLookup (acc_id u) st))) as [H|[_ H]]; [by exists u|done|].
  by apply elem_of_nil in H.
Qed.
Lemma bh_unique acc ba bh u st h l :
  agree acc ba bh 0 [] -> has_account acc st u -> l ∈ dups (d:=accounts_by_height) bh h -> al_id l = acc_id u ->
  h = acc_scan_height u /\ al_status l = st.
Proof.
  intros [Hbh _ Hids] Hu Hl E. destruct (proj1 (Hbh h l) (or_introl Hl)) as (u0 & H0 & E1 & E2).
  destruct (Hids _ _ _ _ H0 Hu) as [-> ->]; [congruence|]. done.
Qed.

Lemma change_one_status_ok status st address st' :
  storage_ok st.2 -> change_one_status status st address = Ok st' -> storage_ok st'.2.
Proof.
  destruct st as [changed s]. cbn [snd]. intros Hok. unfold change_one_status.
  destruct (find_lookup address s) as [found|] eqn:Ef; [|by intros [= <-]].
  case_bool_decide; [by intros [= <-]|]. intros H1. inv_ok H1. inv_ok H1. inv_ok H1. injection H1 as <-. cbn [snd].
  unfold lmdb_check in Hr. destruct (get_both _ _ _) as [u|] eqn:Eu in Hr; [|done]. injection Hr as <-.
  apply (get_both_some (d:=accounts)) in Eu as [Hu Eid]. cbn in Hu, Eid.
  unfold lmdb_check_put in Hr0. destruct (put_nodupdata _ _ _) as [acc|] eqn:Ep; [|done]. injection Hr0 as <-.
  apply (put_nodupdata_some (d:=accounts)) in Ep as [-> _].
  pose proof (so_consistent _ Hok) as Hc. pose proof (agree_ids _ _ _ _ _ Hc) as Hids.
  destruct (find_lookup_account _ _ _ Hc Ef) as (_ & u0 & _ & Hu0 & Eid0 & Ea0).
  destruct (Hids _ _ _ _ Hu Hu0) as [_ <-]; [congruence|]. destruct (so_found _ Hok _ _ Hu) as [Hfo Hfx].
  rewrite <- Eid, <- Ea0.
  eapply (storage_ok_replace s _ _ u status u Hok Hu eq_refl eq_refl); cbn; [| | |auto..].
  - intros. by apply has_account_moved.
  - intros b. by eapply ba_put_other.
  - intros h l. rewrite (elem_put (d:=accounts_by_height)). cbn [td_proj accounts_by_height al_id]. split.
    + intros [?|[Hl Hne]]; [by left|]. right. split; [done|]. intros E.
      destruct (bh_unique _ _ _ _ _ _ _ Hc Hu Hl E) as [-> _]. by apply Hne.
    + intros [?|[Hl Hne]]; [by left|]. right. by split.
Qed.

Lemma do_add_account_ok u (s s' : tables) :
  storage_ok s -> do_add_account u s = Ok s' -> 0 <= acc_id u < account_id_invalid ->
  (forall st u0, has_account (t_accounts s) st u0 -> acc_id u0 <> acc_id u) ->
  storage_ok s' /\ (forall st0 u0, has_account (t_accounts s') st0 u0 <->
     (st0 = (if acc_flags u =? admin_account then hidden else active) /\ u0 = u) \/ has_account (t_accounts s) st0 u0).
Proof.
  intros Hok H Hid Hfresh. unfold do_add_account in H. destruct (secret_key_to_public_key _) as [v|]; [|done].
  destruct (negb _); [done|]. set (st := if acc_flags u =? admin_account then hidden else active) in *.
  destruct (put_nodupdata (d:=accounts_by_address) _ _ _) as [ba|] eqn:Eba; [|done]. inv_ok H. inv_ok H. injection H as <-.
  unfold lmdb_check_put in *. destruct (put_nodupdata _ _ _) as [bh|] eqn:Ebh in Hr; [|done]. injection Hr as <-.
  destruct (put_nodupdata _ _ _) as [acc|] eqn:Eacc in Hr0; [|done]. injection Hr0 as <-.
  apply (put_nodupdata_some (d:=accounts_by_address)) in Eba as [-> Hview].
  apply (put_nodupdata_some (d:=accounts_by_height)) in Ebh as [-> _].
  apply (put_nodupdata_some (d:=accounts)) in Eacc as [-> _].
  assert (forall st0 u0, has_account (put (d:=accounts) st u (t_accounts s)) st0 u0 <-> (st0 = st /\ u0 = u) \/ has_account (t_accounts s) st0 u0) as Hacc.
  { intros st0 u0. unfold has_account. rewrite (elem_put (d:=accounts)). cbn [td_proj accounts].
    split; [tauto|]. intros [?|H0]; [by left|right; split; [done|intros _; by eapply Hfresh]]. }
  split; [|exact Hacc]. destruct Hok as [H1 H2 H3 H4 H5].
  assert (forall k, (exists st0 u0, has_account (t_accounts s) st0 u0 /\ acc_id u0 = k) ->
    exists st0 u0, has_account (put (d:=accounts) st u (t_accounts s)) st0 u0 /\ acc_id u0 = k) as Hk.
  { intros k (st0 & u0 & H0 & E). exists st0, u0. rewrite Hacc. by split; [right|]. }
  split; cbn.
  - apply agree_add; [done|done|]. intros b Hb. by apply Hview.
  - intros st0 u0 [[-> ->]|H0]%Hacc; eauto.
  - intros st0 u0 [[-> ->]|H0]%Hacc; [|by eapply H3].
    split; intros o Hin; [apply H4 in Hin|apply H5 in Hin]; destruct Hin as (st1 & u1 & Hu1 & E); by apply Hfresh in Hu1.
  - eauto.
  - eauto.
Qed.

Lemma ba_split acc ba bh nh p st u b :
  agree acc ba bh nh p -> has_account acc st u ->
  b ∈ dups (d:=accounts_by_address) ba by_address_version <->
  b = AccountByAddress (acc_address u) (AccountLookup (acc_id u) st) \/
  (b ∈ dups (d:=accounts_by_address) ba by_address_version /\ al_id (ab_lookup b) <> acc_id u).
Proof.
  intros [_ Hba Hids] Hu. split.
  - intros Hb. destruct (decide (al_id (ab_lookup b) = acc_id u)) as [E|]; [left|by right].
    destruct (proj1 (Hba b) Hb) as (u0 & H0 & E1 & E2). destruct (Hids _ _ _ _ H0 Hu) as [Est ->]; [congruence|].
    destruct b as [? []]; cbn in *; congruence.
  - intros [->|[? _]]; [|done]. apply Hba. by exists u.
Qed.

Lemma do_lookahead_user u t_outs l max_subs st u' st' :
  do_lookahead u t_outs l max_subs st = (Ok u', st') -> exists fail, u' = set_lookahead l fail u.
Proof.
  unfold do_lookahead. destruct (do_lookahead_tables _ _ _ _ _ _ _) as [[[]|e] st1].
  - intros [= <- _]. by eexists.
  - destruct (bool_decide _); [intros [= <- _]; by eexists|done].
Qed.

(** What [change_height] does to the account it finds. *)
Lemma change_height_changes height address lookahead (s s' : tables) :
  consistent s -> change_height height address lookahead s = Ok s' ->
  exists st u u', has_account (t_accounts s) st u /\ view_public (acc_address u) = view_public address /\
    acc_id u' = acc_id u /\ acc_address u' = acc_address u /\
    acc_scan_height u' = Z.min height (acc_scan_height u) /\ acc_start_height u' = Z.min height (acc_start_height u) /\
    t_accounts s' = put (d:=accounts) st u' (t_accounts s) /\ t_accounts_ba s' = t_accounts_ba s /\
    t_accounts_bh s' = put (d:=accounts_by_height) (acc_scan_height u') (AccountLookup (acc_id u) st)
      (del (d:=accounts_by_height) (acc_scan_height u) (acc_id u) (t_accounts_bh s)) /\
    (forall k o, o ∈ dups (d:=outputs) (t_outputs s') k <->
      o ∈ dups (d:=outputs) (t_outputs s) k /\ (k = acc_id u -> tl_height (out_link o) < height)) /\
    (forall k x, x ∈ dups (d:=spends) (t_spends s') k <->
      x ∈ dups (d:=spends) (t_spends s) k /\ (k = acc_id u -> tl_height (sp_link x) < height)) /\
    t_blocks s' = t_blocks s.
Proof.
  intros Hc H. unfold change_height in H. destruct (find_lookup address s) as [found|] eqn:Ef; [|done].
  destruct (find_lookup_account _ _ _ Hc Ef) as (Hv & u & Hu & Hin & Eid & Ea).
  rewrite Hu in H. cbn [ebind] in H. inv_ok H. destruct r as [sp im]. inv_ok H. destruct r as [u' s1].
  inv_ok H. inv_ok H. injection H as <-. cbn [acc_id reset_heights] in *.
  unfold lmdb_check_put in *. destruct (put_nodupdata _ _ _) as [bh|] eqn:Ep; [|done]. injection Hr2 as <-.
  apply (put_nodupdata_some (d:=accounts_by_height)) in Ep as [-> _].
  assert (exists l fail sub, u' = set_lookahead l fail (reset_heights height u) /\
    s1 = set_sub_tables sub (with_images im (with_spends sp (with_outputs (rollback_outputs (acc_id u) height (t_outputs s)) s)))) as (l & fail & sub & -> & ->).
  { destruct lookahead as [[index m]|]; [destruct (is_zero index)|].
    - injection Hr0 as <- <-. exists (acc_lookahead u), (if height <=? acc_lookahead_fail u then 0 else acc_lookahead_fail u), (t_subaddress_ranges s, t_subaddress_indexes s).
      done.
    - destruct (do_lookahead _ _ _ _ _) as [[u1|e] st1] eqn:Ed; [|done]. cbn in Hr0. injection Hr0 as <- <-.
      apply do_lookahead_user in Ed as [fail ->]. by exists index, fail, st1.
    - injection Hr0 as <- <-. exists (acc_lookahead u), (if height <=? acc_lookahead_fail u then 0 else acc_lookahead_fail u), (t_subaddress_ranges s, t_subaddress_indexes s).
      done. }
  exists (al_status (ab_lookup found)), u, (set_lookahead l fail (reset_heights height u)).
  assert (AccountLookup (acc_id u) (al_status (ab_lookup found)) = ab_lookup found) as El by (rewrite Eid; by destruct (ab_lookup found)).
  rewrite El. cbn. split_and!; try done.
  - by rewrite Ea.
  - intros. by rewrite rollback_outputs_elem.
  - intros k x. by eapply rollback_spends_spec.
Qed.

Lemma change_height_ok height address lookahead (s s' : tables) :
  storage_ok s -> change_height height address lookahead s = Ok s' -> storage_ok s'.
Proof.
  intros Hok H. pose proof (so_consistent _ Hok) as Hc. pose proof (agree_ids _ _ _ _ _ Hc) as Hids.
  destruct (change_height_changes _ _ _ _ _ Hc H) as (st & u & u' & Hu & _ & Eid & Ea & Esc & _ & Eacc & Eba & Ebh & Ho & Hx & _).
  destruct (so_found _ Hok _ _ Hu) as [Hfo Hfx].
  apply (storage_ok_replace s s' st u st u' Hok Hu Eid Ea).
  - intros st0 u0. rewrite Eacc. by apply has_account_put.
  - intros b. rewrite Eba. by eapply ba_split.
  - intros h l. rewrite Ebh, (elem_put (d:=accounts_by_height)), (elem_del (d:=accounts_by_height)). cbn [td_proj accounts_by_height al_id]. split.
    + intros [?|[[Hl Hne] _]]; [by left|]. right. split; [done|]. intros E.
      destruct (bh_unique _ _ _ _ _ _ _ Hc Hu Hl E) as [-> _]. by apply Hne.
    + intros [?|[Hl Hne]]; [by left|]. right. split; [split; [done|by intros _]|by intros _].
  - intros k o Hin%Ho. apply Hin.
  - intros o [Hin Hlt]%Ho. specialize (Hfo _ Hin). specialize (Hlt eq_refl). lia.
  - intros k x Hin%Hx. apply Hin.
  - intros x [Hin Hlt]%Hx. specialize (Hfx _ Hin). specialize (Hlt eq_refl). lia.
Qed.

(** The last id is the greatest one. *)
Lemma sorted_last_max (l : list account) x u :
  dup_sorted accounts l -> last l = Some x -> u ∈ l -> acc_id u <= acc_id x.
Proof.
  intros Hs Hl Hu. apply last_Some in Hl as [l' ->]. apply elem_of_app in Hu as [Hu|Hu%list_elem_of_singleton]; [|by subst].
  unfold dup_sorted in Hs. apply StronglySorted_app in Hs as (H & _ & _); [|..].
  specialize (H u x Hu ltac:(by apply list_elem_of_here)). cbn in H. lia.
Qed.

Lemma find_last_id_spec (t : tab accounts) :
  exists n, find_last_id t = Ok n /\ 0 <= n /\ (forall st u, has_account t st u -> acc_id u <= n) /\
    (n = 0 \/ exists st u, has_account t st u /\ acc_id u = n).
Proof.
  assert (forall ks best, (forall k, k ∈ ks -> dups (d:=accounts) t k <> []) -> exists n,
    efold (fun best status => let* u := lmdb_check (last (dups (d:=accounts) t status)) in Ok (Z.max best (acc_id u))) best ks = Ok n /\
    best <= n /\ (forall st u, st ∈ ks -> has_account t st u -> acc_id u <= n) /\
    (n = best \/ exists st u, has_account t st u /\ acc_id u = n)) as Hgen.
  { induction ks as [|k ks IH]; intros best Hne; cbn [efold].
    - exists best. split_and!; [done|lia| |by left]. intros st u Hst%elem_of_nil. done.
    - destruct (last (dups (d:=accounts) t k)) as [x|] eqn:El.
      2:{ apply last_None in El. destruct (Hne k ltac:(by apply list_elem_of_here) El). }
      cbn [lmdb_check ebind]. destruct (IH (Z.max best (acc_id x))) as (n & -> & Hb & Hall & Hatt).
      { intros k' Hk'. apply Hne. by apply list_elem_of_further. }
      exists n. split_and!; [done|lia| |].
      + intros st u [->|Hst]%elem_of_cons Hu; [|eauto].
        pose proof (sorted_last_max _ _ _ (dups_sorted accounts t k _) El Hu). lia.
      + destruct Hatt as [->|?]; [|by right]. destruct (Z.max_spec best (acc_id x)) as [[_ ->]|[_ ->]]; [|by left].
        right. exists k, x. split; [|done]. apply last_Some in El as [l' E]. unfold has_account. rewrite E. apply elem_of_app. right. by left. }
  destruct (Hgen (keys (d:=accounts) t) 0) as (n & H1 & H2 & H3 & H4).
  { intros k Hk. exact (proj1 (keys_spec accounts t k _) Hk). }
  exists n. split_and!; [done|done| |done]. intros st u Hu. apply (H3 st); [|done]. apply (proj2 (keys_spec accounts t st _)).
  intros E. unfold has_account in Hu. rewrite E in Hu. by apply elem_of_nil in Hu.
Qed.

(** [add_account] runs out of ids one before [account_id::invalid]. *)
Lemma add_account_ok now address key flags (s s' : tables) :
  storage_ok s -> (forall st u, has_account (t_accounts s) st u -> acc_id u + 1 < account_id_invalid) ->
  add_account now address key flags s = Ok s' ->
  exists b n, last_dup (d:=blocks) (t_blocks s) blocks_version = Ok b /\ find_last_id (t_accounts s) = Ok n /\
    storage_ok s' /\ (forall st u, has_account (t_accounts s) st u -> acc_id u <= n) /\
    forall st0 u0, has_account (t_accounts s') st0 u0 <->
      (st0 = (if flags =? admin_account then hidden else active) /\
       u0 = Account (n + 1) now address key (bi_id b) (bi_id b) now flags address_index_primary 0) \/
      has_account (t_accounts s) st0 u0.
Proof.
  intros Hok Hids H. unfold add_account in H. inv_ok H. inv_ok H. inv_ok H.
  assert (r = now) as -> by (unfold get_account_time in Hr; repeat case_match; congruence).
  destruct (find_last_id_spec (t_accounts s)) as (n & En & Hn & Hmax & Hatt). rewrite En in Hr0. injection Hr0 as <-.
  exists r1, n.
  assert (n + 1 < account_id_invalid) as Hlt.
  { destruct Hatt as [->|(st & u & Hu & <-)]; [unfold account_id_invalid, u32_max; lia|eauto]. }
  rewrite u32_small in H by (unfold in_u32, account_id_invalid in *; lia).
  apply do_add_account_ok in H as [H1 H2]; [|done|cbn; lia|].
  - split_and!; try done.
  - intros st u0 Hu0. cbn. specialize (Hmax _ _ Hu0). lia.
Qed.

(** The state of the loop of [create_accounts]. *)
Lemma create_one_ok time max_subs last_id stored (s : tables) address last_id' stored' s' :
  storage_ok s -> 0 <= last_id < account_id_invalid -> (forall st u, has_account (t_accounts s) st u -> acc_id u <= last_id) ->
  create_one time max_subs (last_id, stored, s) address = Ok (last_id', stored', s') ->
  storage_ok s' /\ 0 <= last_id' < account_id_invalid /\ (forall st u, has_account (t_accounts s') st u -> acc_id u <= last_id').
Proof.
  intros Hok Hl Hmax. unfold create_one. destruct (get_both _ _ _) as [info|]; [|intros [= <- <- <-]; split; [exact Hok|by split]].
  rewrite u32_small by (unfold in_u32, account_id_invalid in *; lia).
  destruct (Z.eqb_spec (last_id + 1) account_id_invalid); [done|].
  set (s1 := with_requests _ s). set (u := Account (last_id + 1) _ _ _ _ _ _ _ _ _).
  intros H. inv_ok H. destruct r as [u' s2].
  assert (acc_id u' = last_id + 1 /\ t_accounts s2 = t_accounts s /\ storage_ok s2) as (Eid & Eacc & Hok2).
  { destruct (is_zero _); [injection Hr as <- <-; split_and!; [done|done|by apply (storage_ok_same s)]|].
    destruct (do_lookahead _ _ _ _ _) as [[u1|e] st1] eqn:Ed; [|done]. cbn in Hr. injection Hr as <- <-.
    apply do_lookahead_user in Ed as [fail ->]. split_and!; [done|done|by apply (storage_ok_same s)]. }
  assert (forall st u0, has_account (t_accounts s2) st u0 -> acc_id u0 <> acc_id u') as Hfresh.
  { intros st u0. rewrite Eacc. intros Hu0. specialize (Hmax _ _ Hu0). lia. }
  destruct (do_add_account u' s2) as [s3|e] eqn:Ea.
  - injection H as <- <- <-. apply do_add_account_ok in Ea as [H1 H2]; [|done|lia|done]. split_and!; [done|lia..|].
    intros st u0 [[_ ->]|H0]%H2; [lia|]. rewrite Eacc in H0. specialize (Hmax _ _ H0). lia.
  - destruct (_ || _); [|done]. injection H as <- <- <-. split_and!; [done|lia..|]. by rewrite Eacc.
Qed.

Lemma create_accounts_ok now addresses max_subs (s s' : tables) stored :
  storage_ok s -> create_accounts now addresses max_subs s = Ok (stored, s') -> storage_ok s'.
Proof.
  intros Hok H. unfold create_accounts in H. inv_ok H. inv_ok H. inv_ok H. injection H as <- <-.
  destruct (find_last_id_spec (t_accounts s)) as (n & En & Hn & Hmax & Hatt). rewrite En in Hr0. injection Hr0 as <-.
  destruct r1 as [[last_id' stored'] s']. cbn [snd].
  apply (efold_invariant (fun st => storage_ok st.2 /\ 0 <= st.1.1 < account_id_invalid /\
    (forall st0 u, has_account (t_accounts st.2) st0 u -> acc_id u <= st.1.1))) in Hr1; [by destruct Hr1| |].
  - intros [[l1 st1] s1] a [[l2 st2] s2] _ (H1 & H2 & H3). by apply create_one_ok.
  - cbn. split_and!; [done|done| |done]. destruct Hatt as [->|(st & u & Hu & <-)]; [unfold account_id_invalid, u32_max; lia|].
    by apply (so_ids _ Hok _ _ Hu).
Qed.

Lemma change_one_height_ok height lookahead st address st' :
  storage_ok st.2 -> change_one_height height lookahead st address = Ok st' -> storage_ok st'.2.
Proof.
  intros Hok. unfold change_one_height. destruct (change_height _ _ _ _) as [s|e] eqn:E.
  - intros [= <-]. by eapply change_height_ok.
  - case_bool_decide; [by intros [= <-]|done].
Qed.
Lemma import_one_ok deleted_value max_subs st address st' :
  storage_ok st.2 -> import_one deleted_value max_subs st address = Ok st' -> storage_ok st'.2.
Proof.
  destruct st as [updated s]. unfold import_one. cbn [snd]. intros Hok.
  destruct (get_both _ _ _) as [info|]; [|by intros [= <-]]. apply change_one_height_ok. by apply (storage_ok_same s).
Qed.
Lemma reject_requests_same req addresses (s : tables) :
  storage_ok s -> storage_ok (reject_requests req addresses s).2.
Proof.
  unfold reject_requests. assert (forall st, storage_ok st.2 -> storage_ok (foldl (reject_one req) st addresses).2) as H.
  { induction addresses as [|a l IH]; intros st Hst; cbn [foldl]; [done|]. apply IH. unfold reject_one.
    destruct (get_both _ _ _); [|done]. by apply (storage_ok_same st.2). }
  exact (H ([], s)).
Qed.
End preserved.

(** ** Properties *)
Section properties.
Context {LM : Lmdb} {LL : LmdbLaws LM} {VC : ViewKeyCrypto} {SC : SubaddressCrypto}.

(** [find_lookup] in terms of the accounts. *)
Lemma find_lookup_iff address (s : tables) found :
  consistent s ->
  find_lookup address s = Some found <->
  view_public (ab_address found) = view_public address /\
  exists u, has_account (t_accounts s) (al_status (ab_lookup found)) u /\ acc_id u = al_id (ab_lookup found) /\ acc_address u = ab_address found.
Proof.
  intros [_ Hba _]. unfold find_lookup. rewrite (get_both_some (d:=accounts_by_address)). cbn [td_proj accounts_by_address].
  rewrite (Hba found). tauto.
Qed.

Lemma get_account_iff address (s : tables) st u :
  consistent s ->
  get_account address s = Ok (st, u) <-> has_account (t_accounts s) st u /\ acc_address u = address.
Proof.
  intros Hc. unfold get_account. split.
  - destruct (find_lookup address s) as [found|] eqn:Ef; [|done]. case_bool_decide as Ea; [|done]. cbn [negb].
    intros H. inv_ok H. injection H as <- <-. apply find_lookup_iff in Ef as (_ & u0 & H0 & E1 & E2); [|done].
    unfold get_account_by_id in Hr. destruct (get_both _ _ _) eqn:E; [|done]. injection Hr as <-.
    apply (get_both_some (d:=accounts)) in E as [Hin Hid]. cbn in Hid.
    destruct (agree_ids _ _ _ _ _ Hc _ _ _ _ Hin H0) as [_ ->]; [congruence|]. split; [done|congruence].
  - intros [Hu Ea].
    assert (find_lookup address s = Some (AccountByAddress address (AccountLookup (acc_id u) st))) as ->.
    { apply find_lookup_iff; [done|]. split; [done|]. by exists u. }
    cbn [ab_address ab_lookup al_status al_id]. rewrite bool_decide_true by done. cbn [negb].
    unfold get_account_by_id. by rewrite (proj2 (get_both_some (d:=accounts) (t_accounts s) st (acc_id u) u)).
Qed.

Lemma get_account_same address (s s' : tables) :
  consistent s -> consistent s' ->
  (forall st u, acc_address u = address -> has_account (t_accounts s) st u <-> has_account (t_accounts s') st u) ->
  get_account address s = get_account address s'.
Proof.
  intros Hc Hc' H.
  assert (forall t e, get_account address t = Err e -> consistent t -> e = lws_err account_not_found) as Herr.
  { intros t e He Ht. unfold get_account in He. destruct (find_lookup address t) as [found|] eqn:Ef; [|congruence].
    destruct (negb _); [congruence|]. apply ebind_err in He as [He|(? & _ & ?)]; [|done].
    unfold get_account_by_id in He. destruct (get_both _ _ _); congruence. }
  destruct (get_account address s) as [[st u]|e] eqn:E.
  - apply get_account_iff in E as [Hu Ea]; [|done]. symmetry. apply get_account_iff; [done|]. split; [by apply H|done].
  - destruct (get_account address s') as [[st u]|e'] eqn:E'.
    + apply get_account_iff in E' as [Hu Ea]; [|done]. apply H in Hu; [|done].
      rewrite (proj2 (get_account_iff address s st u Hc)) in E; done.
    + by rewrite (Herr s e E Hc), (Herr s' e' E' Hc').
Qed.

(** An account added by [add_account] is the one that [get_account] then
    finds under its address: with an id that no account had, active unless its
    flags are those of an admin account, starting at the newest block. Every
    other address gives what it gave before, and the account tables still
    agree. *)
Theorem add_account_then_get now address key flags (s s' : tables) :
  storage_ok s -> (forall st u, has_account (t_accounts s) st u -> acc_id u + 1 < account_id_invalid) ->
  add_account now address key flags s = Ok s' ->
  storage_ok s' /\
  (exists u b, get_account address s' = Ok (if flags =? admin_account then hidden else active, u) /\
    (forall st u0, has_account (t_accounts s) st u0 -> acc_id u0 < acc_id u) /\
    acc_key u = key /\ last_dup (d:=blocks) (t_blocks s) blocks_version = Ok b /\
    acc_scan_height u = bi_id b /\ acc_start_height u = bi_id b) /\
  forall address', address' <> address -> get_account address' s' = get_account address' s.
Proof.
  intros Hok Hids H. apply add_account_ok in H as (b & n & Hb & Hn & Hok' & Hmax & Hacc); [|done..].
  split; [done|]. split.
  - eexists _, b. split; [apply get_account_iff; [apply Hok'|]; split; [apply Hacc; by left|done]|]. cbn.
    split_and!; [|done..]. intros st u0 Hu0. specialize (Hmax _ _ Hu0). lia.
  - intros a Ha. symmetry. apply get_account_same; [apply Hok|apply Hok'|]. intros st u Hu. rewrite Hacc. split; [by right|].
    intros [[_ ->]|?]; [|done]. by cbn in Hu.
Qed.

(** [rescan] of an account that has scanned past [height] moves it back to
    [height] and forgets what it had found from that block on, the block at
    [height] included, and nothing below it. Scanning resumes with the block
    after the scan height (scanner.cpp passes over the first block of a reply),
    so what the account had found in the block at [height] is not found again. *)
Theorem rescan_forgets height address (s s' : tables) st u :
  storage_ok s -> get_account address s = Ok (st, u) -> height <= acc_scan_height u ->
  rescan height [address] s = Ok ([address], s') ->
  storage_ok s' /\
  exists u', get_account address s' = Ok (st, u') /\ acc_id u' = acc_id u /\
    acc_scan_height u' = height /\ acc_start_height u' = Z.min height (acc_start_height u) /\
    (forall o, o ∈ get_outputs (acc_id u) s' <-> o ∈ get_outputs (acc_id u) s /\ tl_height (out_link o) < height) /\
    (forall x, x ∈ dups (d:=spends) (t_spends s') (acc_id u) <->
       x ∈ dups (d:=spends) (t_spends s) (acc_id u) /\ tl_height (sp_link x) < height).
Proof.
  intros Hok Hget Hle H. pose proof (so_consistent _ Hok) as Hc. pose proof (agree_ids _ _ _ _ _ Hc) as Hids.
  unfold rescan in H. inv_ok H. destruct (_ <? height); [done|]. cbn [efold] in H. inv_ok H. injection H as ->.
  unfold change_one_height in Hr0. cbn [fst snd] in Hr0.
  destruct (change_height height address None s) as [s1|e] eqn:E; [|by case_bool_decide].
  injection Hr0 as <-. pose proof (change_height_ok _ _ _ _ _ Hok E) as Hok1. split; [done|].
  destruct (change_height_changes _ _ _ _ _ Hc E) as (st0 & u0 & u' & Hu & Hv & Eid & Ea & Esc & Est & Eacc & _ & _ & Ho & Hx & _).
  apply get_account_iff in Hget as [Hu1 Ea1]; [|done].
  assert (st0 = st /\ u0 = u) as [-> ->].
  { assert (find_lookup address s = Some (AccountByAddress (acc_address u) (AccountLookup (acc_id u) st))) as F1.
    { apply find_lookup_iff; [done|]. cbn. split; [congruence|]. by exists u. }
    assert (find_lookup address s = Some (AccountByAddress (acc_address u0) (AccountLookup (acc_id u0) st0))) as F2.
    { apply find_lookup_iff; [done|]. cbn. split; [congruence|]. by exists u0. }
    apply (Hids _ _ _ _ Hu Hu1). congruence. }
  exists u'. split_and!; [|done|lia|done| |].
  - apply get_account_iff; [apply Hok1|]. rewrite Eacc, has_account_put by done. split; [by left|congruence].
  - intros o. unfold get_outputs. rewrite Ho. tauto.
  - intros x. rewrite Hx. tauto.
Qed.

(** No two accounts share a view key. *)
Lemma view_unique (s : tables) st1 st2 u1 u2 :
  consistent s -> has_account (t_accounts s) st1 u1 -> has_account (t_accounts s) st2 u2 ->
  view_public (acc_address u1) = view_public (acc_address u2) -> st1 = st2 /\ u1 = u2.
Proof.
  intros Hc H1 H2 E. pose proof (agree_ids _ _ _ _ _ Hc) as Hids.
  assert (forall a st u, view_public (acc_address u) = view_public a -> has_account (t_accounts s) st u ->
    find_lookup a s = Some (AccountByAddress (acc_address u) (AccountLookup (acc_id u) st))) as F.
  { intros a st u Ea Hu. apply find_lookup_iff; [done|]. split; [done|]. by exists u. }
  pose proof (F (acc_address u1) _ _ eq_refl H1) as F1. pose proof (F (acc_address u1) _ _ (eq_sym E) H2) as F2.
  apply (Hids _ _ _ _ H1 H2). congruence.
Qed.

Definition listed (addresses : list account_address) (u : account) : bool :=
  existsb (fun a => view_public a =? view_public (acc_address u)) addresses.
Definition moved_to (status : account_status) (hit : bool) (st : account_status) : account_status :=
  if hit then status else st.

Lemma change_one_status_moves status address changed (s : tables) changed' s' :
  storage_ok s -> change_one_status status (changed, s) address = Ok (changed', s') ->
  changed' = changed ++ (if is_some_b (find_lookup address s) then [address] else []) /\
  (forall st u, has_account (t_accounts s') st u <->
     exists st0, has_account (t_accounts s) st0 u /\ st = moved_to status (view_public address =? view_public (acc_address u)) st0).
Proof.
  intros Hok. pose proof (so_consistent _ Hok) as Hc. pose proof (agree_ids _ _ _ _ _ Hc) as Hids. unfold change_one_status.
  destruct (find_lookup address s) as [found|] eqn:Ef.
  2:{ intros [= <- <-]. split; [by rewrite app_nil_r|]. intros st u. split.
    - intros Hu. exists st. split; [done|]. destruct (Z.eqb_spec (view_public address) (view_public (acc_address u))) as [E|]; [|done].
      rewrite (proj2 (find_lookup_iff address s (AccountByAddress (acc_address u) (AccountLookup (acc_id u) st)) Hc)) in Ef; [done|].
      split; [done|]. by exists u.
    - intros (st0 & Hu & ->). destruct (Z.eqb_spec (view_public address) (view_public (acc_address u))) as [E|]; [|done].
      rewrite (proj2 (find_lookup_iff address s (AccountByAddress (acc_address u) (AccountLookup (acc_id u) st0)) Hc)) in Ef; [done|].
      split; [done|]. by exists u. }
  apply find_lookup_iff in Ef as (Hv & u & Hu & Eid & Ea); [|done]. cbn [is_some_b].
  assert (forall st0 u0, has_account (t_accounts s) st0 u0 -> view_public address = view_public (acc_address u0) -> st0 = al_status (ab_lookup found) /\ u0 = u) as Huniq.
  { intros st0 u0 H0 E0. apply (view_unique s _ _ _ _ Hc H0 Hu). congruence. }
  assert (forall st1, (forall st0 u0, (st0 = status /\ u0 = u) \/ (has_account (t_accounts s) st0 u0 /\ acc_id u0 <> acc_id u) <-> st1 st0 u0) ->
    forall st0 u0, st1 st0 u0 <-> exists st2, has_account (t_accounts s) st2 u0 /\ st0 = moved_to status (view_public address =? view_public (acc_address u0)) st2) as Hshape.
  { intros P HP st0 u0. rewrite <- HP. split.
    - intros [[-> ->]|[H0 Hne]].
      + exists (al_status (ab_lookup found)). split; [done|]. by rewrite Ea, Hv, Z.eqb_refl.
      + exists st0. split; [done|]. destruct (Z.eqb_spec (view_public address) (view_public (acc_address u0))) as [E|]; [|done].
        by destruct (Huniq _ _ H0 E) as [_ ->].
    - intros (st2 & H2 & ->). destruct (Z.eqb_spec (view_public address) (view_public (acc_address u0))) as [E|E]; cbn.
      + left. by destruct (Huniq _ _ H2 E).
      + right. split; [done|]. intros E2. destruct (Hids _ _ _ _ H2 Hu E2) as [_ ->]. congruence. }
  case_bool_decide as Est.
  - intros [= <- <-]. split; [done|]. apply Hshape. intros st0 u0. split.
    + intros [[-> ->]|[? _]]; [by rewrite <- Est|done].
    + intros H0. destruct (decide (acc_id u0 = acc_id u)) as [E|]; [left|by right].
      destruct (Hids _ _ _ _ H0 Hu E) as [-> ->]. done.
  - intros H1. inv_ok H1. inv_ok H1. inv_ok H1. injection H1 as <- <-. split; [done|].
    unfold lmdb_check in Hr. destruct (get_both _ _ _) as [u1|] eqn:Eu in Hr; [|done]. injection Hr as <-.
    apply (get_both_some (d:=accounts)) in Eu as [Hu1 Eid1]. cbn in Hu1, Eid1.
    unfold lmdb_check_put in Hr0. destruct (put_nodupdata _ _ _) as [acc|] eqn:Ep; [|done]. injection Hr0 as <-.
    apply (put_nodupdata_some (d:=accounts)) in Ep as [-> _]. destruct (Hids _ _ _ _ Hu1 Hu) as [_ ->]; [congruence|].
    apply Hshape. intros st0 u0. cbn. by rewrite has_account_moved.
Qed.

(** [change_status] gives every account whose view key is listed the new
    status and leaves all other accounts, and everything else about the moved
    ones, as they were; it reports the listed addresses it knows, in order. *)
Theorem change_status_moves status addresses (s s' : tables) changed :
  storage_ok s -> change_status status addresses s = Ok (changed, s') ->
  storage_ok s' /\
  changed = List.filter (fun a => is_some_b (find_lookup a s)) addresses /\
  forall st u, has_account (t_accounts s') st u <->
    exists st0, has_account (t_accounts s) st0 u /\ st = moved_to status (listed addresses u) st0.
Proof.
  unfold change_status. intros Hok H.
  enough (forall l acc0 (s0 : tables), storage_ok s0 -> efold (change_one_status status) (acc0, s0) l = Ok (changed, s') ->
    storage_ok s' /\ changed = acc0 ++ List.filter (fun a => is_some_b (find_lookup a s0)) l /\
    forall st u, has_account (t_accounts s') st u <-> exists st0, has_account (t_accounts s0) st0 u /\ st = moved_to status (listed l u) st0) as Hgen.
  { by apply (Hgen addresses []). }
  clear s Hok H addresses. induction l as [|a l IH]; intros acc0 s0 Hok H; cbn [efold] in H.
  { injection H as <- <-. split; [done|]. split; [by rewrite app_nil_r|]. intros st u. cbn. naive_solver. }
  inv_ok H. destruct r as [acc1 s1]. pose proof (change_one_status_ok _ (acc0, s0) _ _ Hok Hr) as Hok1. cbn [snd] in Hok1.
  destruct (change_one_status_moves _ _ _ _ _ _ Hok Hr) as [-> Hm]. destruct (IH _ _ Hok1 H) as (Hok' & -> & Hacc). split; [done|].
  assert (forall a', is_some_b (find_lookup a' s1) = is_some_b (find_lookup a' s0)) as Hsome.
  { intros a'. apply eq_iff_eq_true.
    assert (forall t, consistent t -> is_some_b (find_lookup a' t) = true <-> exists st u, has_account (t_accounts t) st u /\ view_public (acc_address u) = view_public a') as Hiff.
    { intros t Ht. split.
      - destruct (find_lookup a' t) as [f|] eqn:E; [|done]. apply find_lookup_iff in E as (Ev & u & Hu & _ & Eu); [|done]. intros _. exists (al_status (ab_lookup f)), u. split; [done|congruence].
      - intros (st & u & Hu & E). by rewrite (proj2 (find_lookup_iff a' t (AccountByAddress (acc_address u) (AccountLookup (acc_id u) st)) Ht)) by (split; [done|by exists u]). }
    rewrite !Hiff by (by apply so_consistent). split; intros (st & u & Hu & E).
    - apply Hm in Hu as (st0 & Hu & _). by exists st0, u.
    - exists (moved_to status (view_public a =? view_public (acc_address u)) st), u. split; [|done]. apply Hm. by exists st. }
  split.
  - rewrite <- app_assoc. f_equal. cbn [List.filter]. rewrite (filter_ext _ _ Hsome). by destruct (is_some_b (find_lookup a s0)).
  - intros st u. rewrite Hacc. setoid_rewrite Hm. unfold listed. cbn [existsb]. unfold moved_to. split.
    + intros (st1 & (st0 & Hu & ->) & ->). exists st0. split; [done|]. by destruct (_ =? _), (existsb _ l).
    + intros (st0 & Hu & ->). eexists. split; [by exists st0|]. by destruct (_ =? _), (existsb _ l).
Qed.

(** A refused creation request, for a wrong view key or because the account
    has been added in the meantime, leaves its subaddresses behind.
    [create_accounts] writes the lookahead of the new account before
    [do_add_account] refuses it, and goes on to the next request with the same
    id: the tables then hold, under an id that no account has and that the next
    account gets, ranges and entries computed from the refused keys. *)
Theorem refused_request_leaves_subaddresses time max_subs last_id accepted (s : tables) address info user' sub i j :
  in_u32 max_subs -> 0 <= last_id -> last_id + 1 < account_id_invalid ->
  (forall st u, has_account (t_accounts s) st u -> acc_id u <= last_id) ->
  dups (d:=subaddress_ranges) (t_subaddress_ranges s) (last_id + 1) = [] ->
  dups (d:=subaddress_indexes) (t_subaddress_indexes s) (last_id + 1) = [] ->
  dups (d:=outputs) (t_outputs s) (last_id + 1) = [] ->
  get_both (d:=requests) (t_requests s) create (spend_public address) = Some info ->
  secret_key_to_public_key (ri_key info) <> Some (view_public address) \/ find_lookup address s <> None ->
  0 < maj_i (ri_lookahead info) <= u32_max -> 0 < min_i (ri_lookahead info) <= u32_max ->
  do_lookahead_tables (t_outputs s) (last_id + 1) address (ri_key info) (ri_lookahead info) max_subs
    (t_subaddress_ranges s, t_subaddress_indexes s) = (Ok user', sub) ->
  0 <= i < maj_i (ri_lookahead info) -> 0 <= j < min_i (ri_lookahead info) ->
  exists s', create_one time max_subs (last_id, accepted, s) address = Ok (last_id, accepted, s') /\
    (forall st u, has_account (t_accounts s') st u -> acc_id u <> last_id + 1) /\
    stored (last_id + 1) (sub_of s') i j /\
    exists m, m ∈ dups (d:=subaddress_indexes) (t_subaddress_indexes s') (last_id + 1) /\
      sm_subaddress m = get_spend_public address (ri_key info) (AddressIndex i j).
Proof.
  intros Hm Hl Hlt Hmax Hr0 Hi0 Ho0 Hreq Hkey Hmaj Hmin Hla Hi Hj.
  assert (sub_wf (last_id + 1) address (ri_key info) (t_subaddress_ranges s, t_subaddress_indexes s)) as Hwf.
  { split; cbn [fst snd]; rewrite ?Hr0, ?Hi0; [intros d Hd|intros d k Hd|intros m Hd]; by apply elem_of_nil in Hd. }
  destruct (lookahead_stored _ _ _ _ _ _ _ _ _ Hm Hmaj Hmin ltac:(intros o; rewrite Ho0; by intros ?%elem_of_nil) Hwf Hla) as (Hwf' & _ & Hst).
  specialize (Hst eq_refl address_index_primary i j ltac:(by left) ltac:(right; cbn; lia)).
  exists (set_sub_tables sub (with_requests (del (d:=requests) create (spend_public address) (t_requests s)) s)).
  split_and!.
  - unfold create_one. rewrite Hreq. rewrite u32_small by (unfold in_u32, account_id_invalid in *; lia).
    destruct (Z.eqb_spec (last_id + 1) account_id_invalid); [lia|].
    destruct (is_zero (ri_lookahead info)) eqn:Hz; [unfold is_zero in Hz; apply andb_true_iff in Hz as [?%Z.eqb_eq _]; lia|].
    unfold do_lookahead. cbn [acc_id acc_address acc_key t_outputs t_subaddress_ranges t_subaddress_indexes with_requests].
    rewrite Hla. cbn [ebind]. unfold do_add_account. cbn [acc_key acc_address set_lookahead].
    destruct (secret_key_to_public_key (ri_key info)) as [v|]; [|done].
    destruct (Z.eqb_spec v (view_public address)); [|done]. cbn [negb].
    destruct Hkey as [Hkey|Hkey]; [congruence|].
    rewrite (proj2 (put_nodupdata_none (d:=accounts_by_address) _ _ _)); [done|].
    destruct (find_lookup address s) as [f|] eqn:Ef; [|done]. exists f. by apply (get_both_some (d:=accounts_by_address)) in Ef.
  - intros st u Hu. cbn in Hu. specialize (Hmax _ _ Hu). lia.
  - unfold sub_of. cbn. by destruct sub.
  - cbn. destruct Hst as (d & Hd & <- & Hcov). by apply (sub_complete _ _ _ _ Hwf' d j).
Qed.
End properties.

(** ** One account with two outputs, and a request for another *)
Module AccountsSample.
Import Reference.

#[local] Instance sub_crypto : SubaddressCrypto := SubaddressSample.crypto.
#[local] Instance key_crypto : ViewKeyCrypto := { secret_key_to_public_key k := Some (k - 2) }.

Definition user : account := ChainSample.user.
Definition db : tables := ChainSample.db.
Definition other : account_address := AccountAddress 65 66.

Lemma db_accounts st u : has_account (t_accounts db) st u -> st = active /\ u = user.
Proof.
  intros Hu. change (u ∈ rdups accounts [(active, user)] st) in Hu. destruct st; vm_compute in Hu.
  - apply list_elem_of_singleton in Hu as ->. by split.
  - by apply elem_of_nil in Hu.
  - by apply elem_of_nil in Hu.
Qed.
Lemma user_stored : has_account (t_accounts db) active user.
Proof. apply list_elem_of_In. vm_compute. left. reflexivity. Qed.
Lemma db_ok : storage_ok db.
Proof.
  split.
  - exact ChainSample.db_consistent.
  - intros st u [_ ->]%db_accounts. unfold account_id_invalid, u32_max. cbn. lia.
  - exact ChainSample.db_found.
  - intros k o Ho. exists active, user. split; [exact user_stored|].
    apply (elem_put (d:=outputs)) in Ho as [[-> _]|[Ho _]]; [done|]. apply (elem_put (d:=outputs)) in Ho as [[-> _]|[Ho _]]; [done|].
    by apply elem_of_nil in Ho.
  - intros k o Ho. by apply elem_of_nil in Ho.
Qed.
Lemma db_ids st u : has_account (t_accounts db) st u -> acc_id u + 1 < account_id_invalid.
Proof. intros [_ ->]%db_accounts. unfold account_id_invalid, u32_max. cbn. lia. Qed.

Definition added : expect tables := add_account 9 other 67 1 db.
Definition db2 : tables := match added with Ok s => s | Err _ => db end.

Lemma add_account_then_get_witness :
  (exists u, get_account other db2 = Ok (hidden, u)) /\ get_account (acc_address user) db2 = Ok (active, user).
Proof.
  assert (acc_address user <> other) as Hne by (vm_compute; discriminate).
  assert (added = Ok db2) as E by (vm_compute; reflexivity).
  destruct (add_account_then_get 9 other 67 1 db db2 db_ok db_ids E) as (_ & (u & b & Hu & _) & Hsame).
  split; [exists u; exact Hu|]. rewrite (Hsame (acc_address user) Hne). vm_compute. reflexivity.
Defined.

Definition db3 : tables := match rescan 2 [acc_address user] db with Ok (_, s) => s | Err _ => db end.
Lemma db3_eq : rescan 2 [acc_address user] db = Ok ([acc_address user], db3).
Proof. vm_compute. reflexivity. Qed.
Lemma db_get : get_account (acc_address user) db = Ok (active, user).
Proof. vm_compute. reflexivity. Qed.
Lemma db_output : ChainSample.out 2 ∈ get_outputs (acc_id user) db.
Proof. apply list_elem_of_In. vm_compute. left. reflexivity. Qed.

(** The output in block 2 is lost by a scan from block 2. *)
Lemma rescan_forgets_witness :
  (exists u, get_account (acc_address user) db3 = Ok (active, u) /\ acc_scan_height u = 2) /\
  ChainSample.out 2 ∈ get_outputs (acc_id user) db /\ ChainSample.out 2 ∉ get_outputs (acc_id user) db3.
Proof.
  assert (2 <= acc_scan_height user) as Hle by (cbn; lia).
  destruct (rescan_forgets 2 (acc_address user) db db3 active user db_ok db_get Hle db3_eq) as (_ & u & Hu & _ & Hs & _ & Ho & _).
  split; [exists u; split; [exact Hu|exact Hs]|]. split; [exact db_output|].
  intros H. apply Ho in H as [_ H]. cbn in H. lia.
Defined.

Definition db4 : tables := match change_status hidden [other; acc_address user] db with Ok (_, s) => s | Err _ => db end.

Lemma change_status_moves_witness :
  change_status hidden [other; acc_address user] db = Ok ([acc_address user], db4) /\ has_account (t_accounts db4) hidden user.
Proof.
  assert (change_status hidden [other; acc_address user] db = Ok ([acc_address user], db4)) as E by (vm_compute; reflexivity).
  split; [exact E|]. destruct (change_status_moves hidden _ db db4 _ db_ok E) as (_ & _ & H). apply H.
  exists active. split; [exact user_stored|]. vm_compute. reflexivity.
Defined.

(** A request whose view key is not the key of its address. *)
Definition info : request_info := RequestInfo other 1000 3 0 0 (AddressIndex 1 2).
Definition requested : tab requests := [(create, info)].
Definition db5 : tables := with_requests requested db.
Definition written : expect unit * sub_tables :=
  do_lookahead_tables (t_outputs db5) 2 other 1000 (AddressIndex 1 2) 10 (t_subaddress_ranges db5, t_subaddress_indexes db5).

Lemma refused_request_leaves_subaddresses_witness :
  exists s', create_one 9 10 (1, [], db5) other = Ok (1, [], s') /\ stored 2 (sub_of s') 0 1.
Proof.
  assert (in_u32 10) as H10 by (unfold in_u32, u32_max; lia).
  assert (forall st u, has_account (t_accounts db5) st u -> acc_id u <= 1) as Hmax by (intros st u [_ ->]%db_accounts; by cbn).
  assert (written = (Ok tt, written.2)) as E by (vm_compute; reflexivity).
  destruct (refused_request_leaves_subaddresses 9 10 1 [] db5 other info tt written.2 0 1 H10) as (s' & H1 & _ & H2 & _);
    [lia|unfold account_id_invalid, u32_max; lia|exact Hmax|reflexivity|reflexivity|reflexivity|vm_compute; reflexivity
    |left; vm_compute; congruence|unfold u32_max; cbn; lia|unfold u32_max; cbn; lia|exact E|cbn; lia|cbn; lia|].
  exists s'. split; [exact H1|exact H2].
Defined.
End AccountsSample.
