(* ===== verification/Update.v ===== *)
(** src/db/storage.cpp: [update], which stores what the scanner found in a run
    of blocks, the webhook events it raises, and the operations on webhooks. *)

From S2P Require Import Prelude Data Account Lmdb Tables Chain Subaddress Accounts.

(** [storage::updated] *)
Record updated := Updated {
  spend_pubs : list webhook_tx_spend;
  confirm_pubs : list webhook_tx_confirmation;
  accounts_updated : Z
}.

Section update.
Context {LM : Lmdb} (points : checkpoints).

Definition add_spends (user : account_id) (values : list spend) (st : tab spends * tab images) : tab spends * tab images :=
  (bulk_insert (d:=spends) user values st.1,
   foldl (fun images_ entry =>
     match put_nodupdata (d:=images) (sp_source entry) (KeyImage (sp_image entry) (sp_link entry)) images_ with
     | Some t => t
     | None => images_
     end) st.2 values).

(** ** Webhook events *)

(** The webhooks of a key with one payment id, in the order of their ids. *)
Definition matching_hooks (key : webhook_key) (payment_id : Z) (t : tab webhooks) : list webhook_value :=
  take_while (fun v => wd_payment_id v.1 =? payment_id)
    (both_range (d:=webhooks) t key (fun d => webhook_dupsort_lt d (WebhookDupsort payment_id 0))).

Definition check_hooks (user : account_id) (outs : list output) (hooks : tab webhooks) (events : tab events_by_account_id)
    : tab events_by_account_id :=
  foldl (fun events out =>
    foldl (fun events hook =>
      put (d:=events_by_account_id) user
        (WebhookEvent (WebhookOutput (out_link out) (sme_id (out_spend_meta out))) hook.1) events)
      events (matching_hooks (WebhookKey user tx_confirmation) (u64_of_hash8 (payment_id_short (out_payment_id out))) hooks))
    events outs.

(** The confirmations reported for one event: the first, and one more for each
    of the next [n] blocks until enough are requested. *)
Fixpoint confirmations (n : nat) (requested current : Z) : list Z :=
  current ::
  match n with
  | O => []
  | S n => if requested <=? current then [] else confirmations n requested (u32 (current + 1))
  end.

Definition with_confirmations (c : Z) (v : webhook_value) : webhook_value :=
  (v.1, WebhookData (wh_url v.2) (wh_token v.2) c).

Definition ongoing_event (user : account_id) (begin_ end_ : Z) (hooks : tab webhooks) (outs : tab outputs)
    (st : list webhook_tx_confirmation * tab events_by_account_id) (event : webhook_event)
    : expect (list webhook_tx_confirmation * tab events_by_account_id) :=
  let '(pubs, events) := st in
  let key := WebhookKey user tx_confirmation in
  let height := tl_height (wo_tx (we_link event)) in
  let this_begin := Z.max begin_ height in
  if this_begin <? end_ then
    let* hook := lmdb_check (get_both (d:=webhooks) hooks key (we_link_webhook event)) in
    let* out := lmdb_check (get_both (d:=outputs) outs user (wo_tx (we_link event), wo_out (we_link event))) in
    let requested := wh_confirmations hook.2 in
    let cs := confirmations (Z.to_nat (end_ - (this_begin + 1))) requested (u32 (this_begin - height + 1)) in
    Ok (pubs ++ ((fun c => WebhookTxConfirmation key (with_confirmations c hook) out) <$> cs),
        if requested <=? List.last cs 0 then del (d:=events_by_account_id) user event events else events)
  else Ok st.
Definition add_ongoing_hooks (user : account_id) (begin_ end_ : Z) (hooks : tab webhooks) (outs : tab outputs)
    (pubs : list webhook_tx_confirmation) (events : tab events_by_account_id)
    : expect (list webhook_tx_confirmation * tab events_by_account_id) :=
  if begin_ =? end_ then Ok (pubs, events)
  else efold (ongoing_event user begin_ end_ hooks outs) (pubs, events) (dups (d:=events_by_account_id) events user).

(** The output that a spend refers to; the outputs are in order of height. *)
Fixpoint find_source (s : spend) (outs : list output) : expect spend_meta :=
  match outs with
  | [] => Err (mdb_err MDB_NOTFOUND)
  | o :: outs =>
    if output_id_eqb (sme_id (out_spend_meta o)) (sp_source s) then Ok (out_spend_meta o)
    else if tl_height (sp_link s) <? tl_height (out_link o) then Err (mdb_err MDB_NOTFOUND)
    else find_source s outs
  end.
Definition check_spends (user : account_id) (found : list spend) (hooks : tab webhooks) (outs : tab outputs)
    (pubs : list webhook_tx_spend) : expect (list webhook_tx_spend) :=
  match dups (d:=outputs) outs user with
  | [] => Ok pubs
  | stored =>
    let key := WebhookKey user tx_spend in
    efold (fun pubs hook =>
      efold (fun pubs s => let* meta := find_source s stored in Ok (pubs ++ [WebhookTxSpend key hook s meta])) pubs found)
      pubs (dups (d:=webhooks) hooks key)
  end.

(** ** [update] *)

(** An iteration of the loop over the accounts: what is reported, the entries
    that wait for the next [bulk_insert], and the tables. *)
Definition update_state : Type := updated * list account_lookup * tables.

(** The status under which an account is stored: active if it is there, else
    what the address index says; [None] passes over the account. *)
Definition find_scanned (user : Account.state) (s : tables) : expect (option (account_status * account)) :=
  match get_both (d:=accounts) (t_accounts s) active (Account.id user) with
  | Some u => Ok (Some (active, u))
  | None =>
    let* address := Account.db_address user in
    match find_lookup address s with
    | None => Ok None
    | Some found =>
      let status := al_status (ab_lookup found) in
      let* u := lmdb_check (get_both (d:=accounts) (t_accounts s) status (Account.id user)) in
      Ok (Some (status, u))
    end
  end.

Definition set_scan_height (h : block_id) (u : account) : account :=
  Account (acc_id u) (acc_access u) (acc_address u) (acc_key u) h (acc_start_height u)
    (acc_creation u) (acc_flags u) (acc_lookahead u) (acc_lookahead_fail u).

Definition store_scanned (first_new last_update : Z) (user : Account.state) (status : account_status) (existing : account)
    (st : update_state) : expect update_state :=
  let '(out, heights, s) := st in
  let id := Account.id user in
  let existing_height := acc_scan_height existing in
  let s := with_accounts (put (d:=accounts) status (set_scan_height last_update existing) (t_accounts s)) s in
  let heights := heights ++ [AccountLookup id status] in
  let* _ := lmdb_check (get_both (d:=accounts_by_height) (t_accounts_bh s) existing_height id) in
  let s := with_accounts_bh (del (d:=accounts_by_height) existing_height id (t_accounts_bh s)) s in
  let s := with_outputs (bulk_insert (d:=outputs) id (Account.outputs_ user) (t_outputs s)) s in
  let '(sp, im) := add_spends id (Account.spends_ user) (t_spends s, t_images s) in
  let s := with_images im (with_spends sp s) in
  let ongoing_start := Z.max first_new (u64 (existing_height + 1)) in
  let events := check_hooks id (Account.outputs_ user) (t_webhooks s) (t_events s) in
  let* pe := add_ongoing_hooks id ongoing_start (u64 (last_update + 1)) (t_webhooks s) (t_outputs s) (confirm_pubs out) events in
  let* sps := check_spends id (Account.spends_ user) (t_webhooks s) (t_outputs s) (spend_pubs out) in
  Ok (Updated sps pe.1 (accounts_updated out), heights, with_events pe.2 s).

Definition update_one (first_new last_update : Z) (st : update_state) (user : Account.state) : expect update_state :=
  let '(out, heights, s) := st in
  let* found := find_scanned user s in
  match found with
  | None => Ok st
  | Some (status, existing) =>
    if acc_scan_height existing <? Account.scan_height user then Ok st
    else
      let out := Updated (spend_pubs out) (confirm_pubs out) (accounts_updated out + 1) in
      if last_update <=? acc_scan_height existing then Ok (out, heights, s)
      else store_scanned first_new last_update user status existing (out, heights, s)
  end.

(** [heights] is a [static_vector] of 127 elements. *)
Definition flush_heights (last_update : Z) (st : update_state) : update_state :=
  let '(out, heights, s) := st in
  (out, [], with_accounts_bh (bulk_insert (d:=accounts_by_height) last_update heights (t_accounts_bh s)) s).
Definition update_step (first_new last_update : Z) (st : update_state) (user : Account.state) : expect update_state :=
  update_one first_new last_update (if bool_decide (length st.1.2 = 127%nat) then flush_heights last_update st else st) user.

Definition update_accounts (first_new last_update : Z) (users : list Account.state) (s : tables) : expect (updated * tables) :=
  let* st := efold (update_step first_new last_update) (Updated [] [] 0, [], s) users in
  let '(out, _, s) := flush_heights last_update st in Ok (out, s).

(** The part of [update] that stores the blocks. *)
Definition update_chain (height : block_id) (chain : list hash) (pow : list pow_sync) (regtest : bool) (s : tables) : expect tables :=
  let last_update := u64 (height + Z.of_nat (length chain) - 1) in
  if regtest || (get_max_height points <=? last_update) then
    let* last_block := last_dup (d:=blocks) (t_blocks s) blocks_version in
    if bi_id last_block <? height then Err (lws_err bad_blockchain)
    else
      let last_same := Z.min (bi_id last_block) last_update in
      let offset := Z.to_nat (u64 (last_same - height)) in
      let* stored := do_get_block_hash (t_blocks s) last_same in
      if negb (bool_decide (chain !! offset = Some stored)) then Err (lws_err blockchain_reorg)
      else
        let next := u64 (height + Z.of_nat offset + 1) in
        let s := with_blocks (append_block_hashes (drop (S offset) chain) next [] (t_blocks s)) s in
        Ok (match pow with [] => s | _ => with_pows (append_pow (drop (S offset) pow) next [] (t_pows s)) s end)
  else
    match get_both (d:=blocks) (t_blocks s) blocks_version last_update with
    | None => Ok s
    | Some b => if negb (bool_decide (last chain = Some (bi_hash b))) then Err (lws_err bad_blockchain) else Ok s
    end.

Definition update (height : block_id) (chain : list hash) (users : list Account.state) (pow : list pow_sync) (regtest : bool)
    (s : tables) : expect (updated * tables) :=
  match chain, users with
  | [], [] => Ok (Updated [] [] 0, s)
  | [], _ :: _ => Err kInvalidArgument
  | _ :: _, _ =>
    if negb (bool_decide (pow = [])) && negb (bool_decide (length chain = length pow)) then Err kInvalidArgument
    else
      let last_update := u64 (height + Z.of_nat (length chain) - 1) in
      let first_new := u64 (height + 1) in
      let* s := update_chain height chain pow regtest s in
      update_accounts first_new last_update users s
  end.
End update.

(** ** Webhooks *)
Section webhooks.
Context {LM : Lmdb}.
(** [epee::net_utils::parse_url]: the schema of an URL that can be parsed. *)
Context (parse_url : string -> option string).

Definition valid_url (url : string) : bool :=
  bool_decide (url = "zmq"%string) ||
  (negb (bool_decide (url = ""%string)) &&
   match parse_url url with
   | Some schema => bool_decide (schema = "http"%string) || bool_decide (schema = "https"%string)
   | None => false
   end).

Definition add_webhook (type : webhook_type) (address : option account_address) (event : webhook_value) (s : tables) : expect tables :=
  if negb (valid_url (wh_url event.2)) then Err (lws_err bad_url)
  else
    let user :=
      match address with
      | Some a => match find_lookup a s with Some found => al_id (ab_lookup found) | None => account_id_invalid end
      | None => account_id_invalid
      end in
    if (user =? account_id_invalid) && negb (bool_decide (type = new_account)) then Err (lws_err bad_webhook)
    else Ok (with_webhooks (put (d:=webhooks) (WebhookKey user type) event (t_webhooks s)) s).

(** [mdb_cursor_del] with [MDB_NODUPDATA]: every value of the key. *)
Definition del_all {d : tdesc} (k : td_key d) (t : tab d) : tab d :=
  foldl (fun t v => del k (td_proj d v) t) t (dups t k).

Definition clear_address (s : tables) (address : account_address) : expect tables :=
  let* found := lmdb_check (find_lookup address s) in
  let user := al_id (ab_lookup found) in
  Ok (with_events (del_all (d:=events_by_account_id) user (t_events s))
     (with_webhooks (del_all (d:=webhooks) (WebhookKey user tx_confirmation) (t_webhooks s)) s)).
Definition clear_webhooks (addresses : list account_address) (s : tables) : expect tables :=
  efold clear_address s addresses.

Definition del_where {d : tdesc} (p : td_val d -> bool) (t : tab d) : tab d :=
  foldl (fun t k => foldl (fun t v => if p v then del k (td_proj d v) t else t) t (dups t k)) t (keys t).

(** [clear_webhooks] by id; [std::binary_search] in the sorted ids. *)
Definition clear_webhook_ids (ids : list uuid) (s : tables) : tables :=
  let hit id := existsb (fun i => i =? id) ids in
  with_events (del_where (d:=events_by_account_id) (fun e => hit (wd_event_id (we_link_webhook e))) (t_events s))
    (with_webhooks (del_where (d:=webhooks) (fun v => hit (wd_event_id v.1)) (t_webhooks s)) s).

Definition find_webhook (key : webhook_key) (payment_id : hash8) (s : tables) : list webhook_value :=
  matching_hooks key (u64_of_hash8 payment_id) (t_webhooks s).
Definition get_webhooks (s : tables) : list (webhook_key * list webhook_value) :=
  (fun k => (k, dups (d:=webhooks) (t_webhooks s) k)) <$> keys (t_webhooks s).
End webhooks.

(** ** What the loop over the accounts keeps *)
Section loop.
Context {LM : Lmdb} {LL : LmdbLaws LM} (points : checkpoints).

(** [storage_ok] while the entries [pending] of the height [nh] wait to be
    inserted. *)
Record pending_ok (nh : block_id) (pending : list account_lookup) (s : tables) : Prop := {
  po_agree : agree (t_accounts s) (t_accounts_ba s) (t_accounts_bh s) nh pending;
  po_ids st u : has_account (t_accounts s) st u -> 0 <= acc_id u < account_id_invalid;
  po_found : found_below_scan s;
  po_outputs k o : o ∈ dups (d:=outputs) (t_outputs s) k -> exists st u, has_account (t_accounts s) st u /\ acc_id u = k;
  po_spends k x : x ∈ dups (d:=spends) (t_spends s) k -> exists st u, has_account (t_accounts s) st u /\ acc_id u = k
}.

Lemma storage_pending nh (s : tables) : storage_ok s -> pending_ok nh [] s.
Proof. intros [H1 H2 H3 H4 H5]. split; [by apply (agree_nil_any _ _ _ 0)|done..]. Qed.
Lemma pending_flush nh pending (s : tables) :
  pending_ok nh pending s ->
  storage_ok (with_accounts_bh (bulk_insert (d:=accounts_by_height) nh pending (t_accounts_bh s)) s).
Proof. intros [H1 H2 H3 H4 H5]. split; [by apply agree_finish|exact H2|exact H3|exact H4|exact H5]. Qed.

(** The accounts of a later state: the same, scanned at least as far. *)
Definition advances (last : block_id) (s s' : tables) : Prop :=
  (forall st u, has_account (t_accounts s) st u -> exists u', has_account (t_accounts s') st u' /\
     acc_id u' = acc_id u /\ acc_address u' = acc_address u /\
     (acc_scan_height u' = acc_scan_height u \/ (acc_scan_height u' = last /\ acc_scan_height u < last))) /\
  (forall k o, o ∈ dups (d:=outputs) (t_outputs s) k -> o ∈ dups (d:=outputs) (t_outputs s') k) /\
  (forall k x, x ∈ dups (d:=spends) (t_spends s) k -> x ∈ dups (d:=spends) (t_spends s') k).

Lemma advances_refl last s : advances last s s.
Proof. split_and!; [|done|done]. intros st u Hu. exists u. split_and!; [done|done|done|by left]. Qed.
Lemma advances_trans last s1 s2 s3 : advances last s1 s2 -> advances last s2 s3 -> advances last s1 s3.
Proof.
  intros (A1 & B1 & C1) (A2 & B2 & C2). split_and!; [|auto|auto]. intros st u Hu.
  destruct (A1 _ _ Hu) as (u1 & Hu1 & Ei1 & Ea1 & Es1). destruct (A2 _ _ Hu1) as (u2 & Hu2 & Ei2 & Ea2 & Es2).
  exists u2. split_and!; [done|congruence|congruence|].
  destruct Es1 as [E1|[E1 L1]], Es2 as [E2|[E2 L2]]; [left; congruence|right; split; [done|lia]|right; split; [congruence|done]|right; by split].
Qed.

Lemma find_scanned_account user (s : tables) st u :
  find_scanned user s = Ok (Some (st, u)) -> has_account (t_accounts s) st u /\ acc_id u = Account.id user.
Proof.
  unfold find_scanned. destruct (get_both (d:=accounts) (t_accounts s) active _) as [u0|] eqn:E.
  - intros [= <- <-]. by apply (get_both_some (d:=accounts)) in E.
  - intros H. inv_ok H. destruct (find_lookup r s) as [found|]; [|done]. inv_ok H. injection H as <- <-.
    unfold lmdb_check in Hr0. destruct (get_both _ _ _) eqn:E' in Hr0; [|done]. injection Hr0 as ->.
    by apply (get_both_some (d:=accounts)) in E'.
Qed.

(** What [store_scanned] does to the tables of [storage_ok]. *)
Lemma store_scanned_tables first_new last user st u out pending (s : tables) out' pending' s' :
  store_scanned first_new last user st u (out, pending, s) = Ok (out', pending', s') ->
  pending' = pending ++ [AccountLookup (Account.id user) st] /\
  t_accounts s' = put (d:=accounts) st (set_scan_height last u) (t_accounts s) /\
  t_accounts_ba s' = t_accounts_ba s /\
  t_accounts_bh s' = del (d:=accounts_by_height) (acc_scan_height u) (Account.id user) (t_accounts_bh s) /\
  t_outputs s' = bulk_insert (d:=outputs) (Account.id user) (Account.outputs_ user) (t_outputs s) /\
  t_spends s' = bulk_insert (d:=spends) (Account.id user) (Account.spends_ user) (t_spends s) /\
  t_blocks s' = t_blocks s.
Proof. intros H. unfold store_scanned in H. inv_ok H. inv_ok H. inv_ok H. by injection H as <- <- <-. Qed.

(** What was found lies in the blocks of the update. *)
Definition found_until (last : block_id) (user : Account.state) : Prop :=
  (forall o, o ∈ Account.outputs_ user -> tl_height (out_link o) <= last) /\
  (forall x, x ∈ Account.spends_ user -> tl_height (sp_link x) <= last).

Lemma store_scanned_ok first_new last user st u out pending (s : tables) out' pending' s' :
  pending_ok last pending s -> has_account (t_accounts s) st u -> acc_id u = Account.id user ->
  acc_scan_height u < last -> found_until last user ->
  store_scanned first_new last user st u (out, pending, s) = Ok (out', pending', s') ->
  pending_ok last pending' s' /\ advances last s s' /\
  has_account (t_accounts s') st (set_scan_height last u).
Proof.
  intros [H1 H2 H3 H4 H5] Hu Eid Hlt [Hfo Hfx] H.
  apply store_scanned_tables in H as (-> & Eacc & Eba & Ebh & Eout & Esp & _). rewrite <- Eid in *.
  pose proof (agree_ids _ _ _ _ _ H1) as Hids.
  assert (forall st0 u0, has_account (t_accounts s') st0 u0 <-> (st0 = st /\ u0 = set_scan_height last u) \/ (has_account (t_accounts s) st0 u0 /\ acc_id u0 <> acc_id u)) as Hacc.
  { intros st0 u0. rewrite Eacc. by apply has_account_put. }
  assert (forall st0 u0, has_account (t_accounts s) st0 u0 -> exists u', has_account (t_accounts s') st0 u' /\
     acc_id u' = acc_id u0 /\ acc_address u' = acc_address u0 /\
     (acc_scan_height u' = acc_scan_height u0 \/ (acc_scan_height u' = last /\ acc_scan_height u0 < last))) as Hadv.
  { intros st0 u0 H0. destruct (decide (acc_id u0 = acc_id u)) as [E|E].
    - destruct (Hids _ _ _ _ H0 Hu E) as [-> ->]. exists (set_scan_height last u). rewrite Hacc. split_and!; [by left|done|done|by right].
    - exists u0. rewrite Hacc. split_and!; [by right|done|done|by left]. }
  split; [split|split].
  - rewrite Eacc, Eba, Ebh. by eapply agree_move.
  - intros st0 u0 [[-> ->]|[H0 _]]%Hacc; [exact (H2 _ _ Hu)|eauto].
  - intros st0 u0 Hu0. rewrite Eout, Esp. destruct (proj1 (Hacc _ _) Hu0) as [[-> ->]|[H0 Hne]].
    + cbn. destruct (H3 _ _ Hu) as [A B]. split.
      * intros o [Ho|[_ Ho]]%(bulk_insert_adds (d:=outputs)); [specialize (A _ Ho); lia|by apply Hfo].
      * intros x [Hx|[_ Hx]]%(bulk_insert_adds (d:=spends)); [specialize (B _ Hx); lia|by apply Hfx].
    + destruct (H3 _ _ H0) as [A B]. split.
      * intros o [Ho|[E _]]%(bulk_insert_adds (d:=outputs)); [by apply A|done].
      * intros x [Hx|[E _]]%(bulk_insert_adds (d:=spends)); [by apply B|done].
  - intros k o. rewrite Eout. intros [Ho|[-> _]]%(bulk_insert_adds (d:=outputs)).
    + destruct (H4 _ _ Ho) as (st0 & u0 & H0 & <-). destruct (Hadv _ _ H0) as (u' & ? & ? & _). by exists st0, u'.
    + exists st, (set_scan_height last u). rewrite Hacc. split; [by left|done].
  - intros k x. rewrite Esp. intros [Hx|[-> _]]%(bulk_insert_adds (d:=spends)).
    + destruct (H5 _ _ Hx) as (st0 & u0 & H0 & <-). destruct (Hadv _ _ H0) as (u' & ? & ? & _). by exists st0, u'.
    + exists st, (set_scan_height last u). rewrite Hacc. split; [by left|done].
  - split_and!; [exact Hadv| |]; intros k x Hx; [rewrite Eout|rewrite Esp]; by apply bulk_insert_keeps.
  - rewrite Hacc. by left.
Qed.

Lemma find_scanned_same user (s s1 : tables) :
  t_accounts_ba s1 = t_accounts_ba s ->
  (forall st, get_both (d:=accounts) (t_accounts s1) st (Account.id user) = get_both (d:=accounts) (t_accounts s) st (Account.id user)) ->
  find_scanned user s1 = find_scanned user s.
Proof.
  intros Eba Hacc. unfold find_scanned, find_lookup. rewrite !Hacc, Eba. destruct (get_both (d:=accounts) _ active _); [done|].
  destruct (Account.db_address user); [|done]. cbn [ebind]. destruct (get_both _ _ _); [|done]. by rewrite Hacc.
Qed.
Lemma get_both_put_other (t : tab accounts) st st' u i :
  acc_id u <> i -> get_both (d:=accounts) (put (d:=accounts) st u t) st' i = get_both (d:=accounts) t st' i.
Proof.
  intros Hne. destruct (get_both (d:=accounts) t st' i) as [v|] eqn:E.
  - apply (get_both_some (d:=accounts)) in E as [Hv Ei]. apply (get_both_some (d:=accounts)). split; [|done].
    apply (elem_put (d:=accounts)). right. split; [done|]. intros _. cbn in *. congruence.
  - apply (get_both_none (d:=accounts)). intros v [[_ ->]|[Hv _]]%(elem_put (d:=accounts)); [done|].
    by apply (proj1 (get_both_none (d:=accounts) _ _ _) E).
Qed.

(** What the update promises to an account that it scanned. *)
Definition delivered (last : block_id) (user : Account.state) (s s' : tables) : Prop :=
  forall st u, find_scanned user s = Ok (Some (st, u)) -> Account.scan_height user <= acc_scan_height u < last ->
  (exists u', has_account (t_accounts s') st u' /\ acc_id u' = Account.id user /\ acc_scan_height u' = last) /\
  (forall o, o ∈ Account.outputs_ user -> exists o', o' ∈ dups (d:=outputs) (t_outputs s') (Account.id user) /\ output_sort o' = output_sort o) /\
  (forall x, x ∈ Account.spends_ user -> exists x', x' ∈ dups (d:=spends) (t_spends s') (Account.id user) /\ spend_sort x' = spend_sort x).

Lemma delivered_later last user s s1 s2 : delivered last user s s1 -> advances last s1 s2 -> delivered last user s s2.
Proof.
  intros Hd (A & B & C) st u Hf Hl. destruct (Hd st u Hf Hl) as ((u1 & Hu1 & E1 & Es1) & Ho & Hx). split_and!.
  - destruct (A _ _ Hu1) as (u2 & Hu2 & E2 & _ & Es2). exists u2. split_and!; [done|congruence|]. destruct Es2 as [->|[-> _]]; done.
  - intros o Hin. destruct (Ho o Hin) as (o' & Ho' & E). exists o'. split; [by apply B|done].
  - intros x Hin. destruct (Hx x Hin) as (x' & Hx' & E). exists x'. split; [by apply C|done].
Qed.

(** Nothing but the account of [user] is touched. *)
Definition only_touches (ids : list account_id) (s s' : tables) : Prop :=
  t_accounts_ba s' = t_accounts_ba s /\ t_blocks s' = t_blocks s /\
  forall st i, i ∉ ids -> get_both (d:=accounts) (t_accounts s') st i = get_both (d:=accounts) (t_accounts s) st i.

Lemma update_one_ok first_new last user out pending (s : tables) out' pending' s' :
  pending_ok last pending s -> found_until last user ->
  update_one first_new last (out, pending, s) user = Ok (out', pending', s') ->
  pending_ok last pending' s' /\ advances last s s' /\ delivered last user s s' /\ only_touches [Account.id user] s s'.
Proof.
  intros Hok Hf H. unfold update_one in H. inv_ok H.
  assert (forall st u, find_scanned user s = Ok (Some (st, u)) -> ~ (Account.scan_height user <= acc_scan_height u < last) ->
    pending_ok last pending s /\ advances last s s /\ delivered last user s s /\ only_touches [Account.id user] s s) as Hnone.
  { intros st u Hs Hn. split_and!; [done|apply advances_refl| |done]. intros st0 u0 H0 Hl. rewrite Hs in H0. injection H0 as <- <-. by destruct Hn. }
  destruct r as [[st u]|].
  2:{ injection H as <- <- <-. split_and!; [done|apply advances_refl| |done]. intros st u H0. congruence. }
  destruct (Z.ltb_spec (acc_scan_height u) (Account.scan_height user)); [injection H as <- <- <-; apply (Hnone st u Hr); lia|].
  destruct (Z.leb_spec last (acc_scan_height u)); [injection H as <- <- <-; apply (Hnone st u Hr); lia|].
  pose proof (find_scanned_account _ _ _ _ Hr) as [Hu Eid].
  pose proof (store_scanned_ok _ _ _ _ _ _ _ _ _ _ _ Hok Hu Eid ltac:(lia) Hf H) as (Hok' & Hadv & Hu').
  apply store_scanned_tables in H as (_ & Eacc & Eba & _ & Eout & Esp & Ebl). split_and!; [done|done| |].
  - intros st0 u0 Hs0 Hl. rewrite Hr in Hs0. injection Hs0 as <- <-. split_and!.
    + exists (set_scan_height last u). split_and!; [done|by cbn|done].
    + intros o Ho. rewrite Eout. by apply (bulk_insert_stored (d:=outputs)).
    + intros x Hx. rewrite Esp. by apply (bulk_insert_stored (d:=spends)).
  - split_and!; [done|done|]. intros st0 i Hi%not_elem_of_cons. rewrite Eacc. apply get_both_put_other. cbn. rewrite Eid. by destruct Hi.
Qed.

Lemma update_step_ok first_new last user out pending (s : tables) out' pending' s' :
  pending_ok last pending s -> found_until last user ->
  update_step first_new last (out, pending, s) user = Ok (out', pending', s') ->
  pending_ok last pending' s' /\ advances last s s' /\ delivered last user s s' /\ only_touches [Account.id user] s s'.
Proof.
  intros Hok Hf. unfold update_step. cbn [fst snd]. case_bool_decide; [|by apply update_one_ok].
  cbn [flush_heights]. intros Hs. apply pending_flush, (storage_pending last) in Hok.
  by apply (update_one_ok _ _ _ _ _ _ _ _ _ Hok Hf) in Hs.
Qed.

Lemma update_loop_ok first_new last users out pending (s : tables) out' pending' s' :
  pending_ok last pending s -> (forall user, user ∈ users -> found_until last user) -> NoDup (Account.id <$> users) ->
  efold (update_step first_new last) (out, pending, s) users = Ok (out', pending', s') ->
  pending_ok last pending' s' /\ advances last s s' /\ (forall user, user ∈ users -> delivered last user s s') /\
  t_blocks s' = t_blocks s.
Proof.
  intros Hok Hf Hnd. revert out pending s Hok. induction users as [|user users IH]; intros out pending s Hok H; cbn [efold] in H.
  { injection H as <- <- <-. split_and!; [done|apply advances_refl| |done]. by intros user ?%elem_of_nil. }
  cbn [fmap list_fmap] in Hnd. apply NoDup_cons in Hnd as [Hn Hnd]. inv_ok H. destruct r as [[out1 pending1] s1].
  destruct (update_step_ok _ _ _ _ _ _ _ _ _ Hok (Hf user ltac:(by apply list_elem_of_here)) Hr) as (Hok1 & Hadv1 & Hd1 & Eba & Ebl & Hacc).
  destruct (IH ltac:(intros; apply Hf; by apply list_elem_of_further) Hnd _ _ _ Hok1 H) as (Hok2 & Hadv2 & Hd2 & Ebl2).
  split_and!; [done|by eapply advances_trans| |congruence]. intros user' [->|Hin]%elem_of_cons; [by eapply delivered_later|].
  intros st u Hs. apply Hd2; [done|]. rewrite (find_scanned_same user' s s1); [done|done|]. intros st0. apply Hacc.
  intros E%list_elem_of_singleton. apply Hn. rewrite <- E. by apply list_elem_of_fmap_2.
Qed.

Lemma update_accounts_ok first_new last users (s : tables) out s' :
  storage_ok s -> (forall user, user ∈ users -> found_until last user) -> NoDup (Account.id <$> users) ->
  update_accounts first_new last users s = Ok (out, s') ->
  storage_ok s' /\ advances last s s' /\ (forall user, user ∈ users -> delivered last user s s') /\ t_blocks s' = t_blocks s.
Proof.
  intros Hok Hf Hnd H. unfold update_accounts in H. inv_ok H. destruct r as [[out1 pending1] s1]. cbn [flush_heights] in H.
  injection H as <- <-. apply (update_loop_ok _ _ _ _ _ _ _ _ _ (storage_pending last s Hok) Hf Hnd) in Hr as (H1 & H2 & H3 & H4).
  split_and!; [by apply pending_flush|exact H2|exact H3|exact H4].
Qed.

(** The blocks that [update_chain] stores; nothing else changes. *)
Lemma update_chain_tables height chain pow regtest (s s' : tables) :
  update_chain points height chain pow regtest s = Ok s' ->
  t_accounts s' = t_accounts s /\ t_accounts_ba s' = t_accounts_ba s /\ t_accounts_bh s' = t_accounts_bh s /\
  t_outputs s' = t_outputs s /\ t_spends s' = t_spends s.
Proof.
  unfold update_chain. destruct (_ || _).
  - intros H. inv_ok H. destruct (_ <? height); [done|]. inv_ok H. destruct (negb _); [done|]. injection H as <-. by destruct pow.
  - destruct (get_both _ _ _); [|by intros [= <-]]. destruct (negb _); [done|]. by intros [= <-].
Qed.

End loop.

(** ** An event whose output is gone *)
Section stuck.
Context {LM : Lmdb} {LL : LmdbLaws LM} {SC : SubaddressCrypto}.

(** A loop that can only fail in one way fails when one of its steps must. *)
Lemma efold_must_fail {A S} (f : S -> A -> expect S) e l x s :
  (forall s y e', f s y = Err e' -> e' = e) -> x ∈ l -> (forall s, exists e', f s x = Err e') -> efold f s l = Err e.
Proof.
  intros He Hx Hf. revert s. induction l as [|y l IH]; [by apply elem_of_nil in Hx|]. intros s. cbn [efold].
  destruct (f s y) as [s1|e1] eqn:E; cbn [ebind]; [|by rewrite (He _ _ _ E)].
  apply elem_of_cons in Hx as [<-|Hx]; [|by apply IH]. destruct (Hf s) as [e' He']. congruence.
Qed.

Lemma ongoing_event_error user b e hooks outs st event err :
  ongoing_event user b e hooks outs st event = Err err -> err = mdb_err MDB_NOTFOUND.
Proof.
  destruct st as [pubs events]. unfold ongoing_event. destruct (_ <? e); [|done]. unfold lmdb_check.
  destruct (get_both (d:=webhooks) _ _ _); cbn; [|congruence]. destruct (get_both (d:=outputs) _ _ _); cbn; congruence.
Qed.

Lemma missing_output_fails user b e hooks (outs : tab outputs) pubs events event :
  event ∈ dups (d:=events_by_account_id) events user -> b <> e -> Z.max b (event_height event) < e ->
  (forall o, o ∈ dups (d:=outputs) outs user -> out_link o <> wo_tx (we_link event)) ->
  add_ongoing_hooks user b e hooks outs pubs events = Err (mdb_err MDB_NOTFOUND).
Proof.
  intros Hev Hbe Hlt Hno. unfold add_ongoing_hooks. destruct (Z.eqb_spec b e); [done|].
  apply (efold_must_fail _ _ _ event); [|done|].
  - intros st y e' H. by eapply ongoing_event_error.
  - intros [pubs' events']. unfold ongoing_event. fold (event_height event). destruct (Z.ltb_spec (Z.max b (event_height event)) e); [|lia].
    destruct (lmdb_check (get_both (d:=webhooks) _ _ _)) as [hook|]; [|by eexists]. cbn [ebind].
    rewrite (proj2 (get_both_none (d:=outputs) _ _ _)); [by eexists|]. intros o Ho E. apply (Hno o Ho).
    cbn in E. unfold output_sort in E. congruence.
Qed.

Lemma put_event_keeps user event (t : tab events_by_account_id) k x :
  x ∈ dups (d:=events_by_account_id) t k -> x ∈ dups (d:=events_by_account_id) (put (d:=events_by_account_id) user event t) k.
Proof.
  intros Hx. apply (elem_put (d:=events_by_account_id)).
  destruct (sort_is events_by_account_id x event) eqn:E; [|right; split; [done|intros _; by apply (sort_is_neq events_by_account_id)]].
  apply (sort_is_eq events_by_account_id) in E. cbn in E. subst.
  destruct (key_is events_by_account_id k user) eqn:Ek.
  - apply (key_is_eq events_by_account_id) in Ek. by left.
  - apply (key_is_neq events_by_account_id) in Ek. by right.
Qed.
Lemma check_hooks_keeps user outs hooks events k x :
  x ∈ dups (d:=events_by_account_id) events k -> x ∈ dups (d:=events_by_account_id) (check_hooks user outs hooks events) k.
Proof.
  unfold check_hooks. revert events. induction outs as [|o outs IH]; intros events Hx; cbn [foldl]; [done|]. apply IH.
  generalize (matching_hooks (WebhookKey user tx_confirmation) (u64_of_hash8 (payment_id_short (out_payment_id o))) hooks). intros hs.
  revert events Hx. induction hs as [|h hs IHh]; intros events Hx; cbn [foldl]; [done|]. by apply IHh, put_event_keeps.
Qed.

Lemma change_height_events height address (s s' : tables) :
  change_height height address None s = Ok s' -> t_events s' = t_events s.
Proof.
  unfold change_height. destruct (find_lookup _ _); [|done]. intros H. inv_ok H. inv_ok H. cbn [ebind] in H. inv_ok H. inv_ok H.
  by injection H as <-.
Qed.

(** A rescan from the block of an output that still has a webhook event stops
    all later updates of the account. [rescan] removes the output and keeps the
    event; the block at [height] is not scanned again, so the output does not
    come back, and [update] fails with [MDB_NOTFOUND] when it looks it up. As
    the transaction is dropped, the next attempt meets the same event. *)
Theorem rescan_stops_updates height address (s s' : tables) u event user last :
  storage_ok s -> get_account address s = Ok (active, u) -> 0 <= height <= acc_scan_height u -> acc_scan_height u <= u64_max ->
  event ∈ dups (d:=events_by_account_id) (t_events s) (acc_id u) -> event_height event = height ->
  rescan height [address] s = Ok ([address], s') ->
  Account.id user = acc_id u -> Account.scan_height user = height -> height < last < u64_max ->
  (forall o, o ∈ Account.outputs_ user -> height < tl_height (out_link o)) ->
  update_accounts (u64 (height + 1)) last [user] s' = Err (mdb_err MDB_NOTFOUND).
Proof.
  intros Hok Hget Hh Hmax Hev Hevh Hres Hid Hsc Hlast Hout. pose proof (so_consistent _ Hok) as Hc.
  unfold rescan in Hres. inv_ok Hres. destruct (_ <? height); [done|]. cbn [efold] in Hres. inv_ok Hres. injection Hres as ->.
  unfold change_one_height in Hr0. cbn [fst snd] in Hr0.
  destruct (change_height height address None s) as [s1|e] eqn:E; [|by case_bool_decide]. injection Hr0 as <-.
  pose proof (change_height_ok _ _ _ _ _ Hok E) as Hok1. pose proof (change_height_events _ _ _ _ E) as Eev.
  destruct (change_height_changes _ _ _ _ _ Hc E) as (st0 & u0 & u' & Hu & Hv & Eid & Ea & Esc & _ & Eacc & _ & _ & Ho & _ & _).
  apply get_account_iff in Hget as [Hu1 Ea1]; [|done].
  destruct (view_unique s _ _ _ _ Hc Hu Hu1) as [-> ->]; [congruence|].
  assert (has_account (t_accounts s1) active u') as Hu'.
  { rewrite Eacc. apply (has_account_put _ active u); [by eapply agree_ids|done|done|by left]. }
  assert (get_both (d:=accounts) (t_accounts s1) active (Account.id user) = Some u') as Hfind.
  { apply (get_both_some (d:=accounts)). split; [done|]. cbn. congruence. }
  unfold update_accounts, update_step, update_one. cbn [efold length fst snd]. rewrite bool_decide_false by done.
  unfold find_scanned. rewrite Hfind. cbn [ebind]. rewrite Esc, Hsc, Z.min_l by lia.
  destruct (Z.ltb_spec height height); [lia|]. destruct (Z.leb_spec last height); [lia|].
  unfold store_scanned. cbn [t_accounts_bh t_accounts_ba t_outputs t_spends t_images t_webhooks t_events with_accounts with_accounts_bh with_outputs].
  assert (AccountLookup (acc_id u') active ∈ dups (d:=accounts_by_height) (t_accounts_bh s1) (acc_scan_height u')) as Hbh.
  { eapply bh_entry; [apply Hok1|done]. }
  rewrite (proj2 (get_both_some (d:=accounts_by_height) (t_accounts_bh s1) (acc_scan_height u') (Account.id user) (AccountLookup (acc_id u') active))).
  2:{ split; [done|]. cbn. congruence. }
  cbn [lmdb_check ebind add_spends].
  rewrite Esc, Z.min_l, !u64_small, Z.max_id by (unfold in_u64, u64_max in *; lia).
  erewrite (missing_output_fails _ _ _ _ _ _ _ event); [done|apply check_hooks_keeps|lia|rewrite Hevh; lia|].
  - cbn. rewrite Eev, Hid. done.
  - intros o Hin El. apply (bulk_insert_adds (d:=outputs)) in Hin as [Hin|[_ Hin]].
    + rewrite Hid in Hin. apply Ho in Hin as [_ Hlt]. specialize (Hlt eq_refl). unfold event_height in Hevh. rewrite El in Hlt. lia.
    + specialize (Hout o Hin). unfold event_height in Hevh. rewrite El in Hout. lia.
Qed.
End stuck.

(** ** A block with an output for the account of the samples *)
Module UpdateSample.
Import Reference.

#[local] Instance sub_crypto : SubaddressCrypto := SubaddressSample.crypto.

Definition no_string (a : account_address) : list Z := [].
Definition scanned : Account.state :=
  snd (Account.add_out (ChainSample.out 4) (get_full_account no_string AccountsSample.user AccountsSample.db)).
Definition updated_db : expect (updated * tables) := update ChainSample.points 3 [103; 104] [scanned] [] false AccountsSample.db.
Definition db : tables := match updated_db with Ok (_, s) => s | Err _ => AccountsSample.db end.

Lemma updated_eq :
  update ChainSample.points 3 [103; 104] [scanned] [] false AccountsSample.db = Ok (Updated [] [] 1, db).
Proof. vm_compute. reflexivity. Qed.
Lemma scanned_found : find_scanned scanned AccountsSample.db = Ok (Some (active, AccountsSample.user)).
Proof. vm_compute. reflexivity. Qed.
Lemma scanned_until : found_until 4 scanned.
Proof.
  split; intros o Ho.
  - change (o ∈ [ChainSample.out 4]) in Ho. apply list_elem_of_singleton in Ho as ->. cbn. lia.
  - by apply elem_of_nil in Ho.
Qed.
Lemma scanned_outputs : ChainSample.out 4 ∈ Account.outputs_ scanned.
Proof. apply list_elem_of_In. vm_compute. left. reflexivity. Qed.


(** An event for the output in block 2, and its webhook. *)
Definition event : webhook_event :=
  WebhookEvent (WebhookOutput (ChainSample.link 2) (OutputId 0 2)) (WebhookDupsort 0 5).
Definition hook : webhook_value := (WebhookDupsort 0 5, WebhookData "zmq" "" 10).
Definition hooks : tab webhooks := [(WebhookKey 1 tx_confirmation, hook)].
Definition events : tab events_by_account_id := [(1, event)].
Definition event_db : tables := with_events events (with_webhooks hooks AccountsSample.db).
Definition back : tables := match rescan 2 [acc_address AccountsSample.user] event_db with Ok (_, s) => s | Err _ => event_db end.
Definition rescanned : Account.state :=
  Account.State (Some (Account.Internal [] 1 (acc_address AccountsSample.user) 57)) [] [] [] [ChainSample.out 3] 2.

Lemma event_db_ok : storage_ok event_db.
Proof. exact (storage_ok_same AccountsSample.db event_db eq_refl eq_refl eq_refl eq_refl eq_refl AccountsSample.db_ok). Qed.
Lemma event_db_get : get_account (acc_address AccountsSample.user) event_db = Ok (active, AccountsSample.user).
Proof. vm_compute. reflexivity. Qed.
Lemma back_eq : rescan 2 [acc_address AccountsSample.user] event_db = Ok ([acc_address AccountsSample.user], back).
Proof. vm_compute. reflexivity. Qed.
Lemma event_stored : event ∈ dups (d:=events_by_account_id) (t_events event_db) (acc_id AccountsSample.user).
Proof. apply list_elem_of_In. vm_compute. left. reflexivity. Qed.

Lemma rescan_stops_updates_witness :
  update_accounts 3 3 [rescanned] back = Err (mdb_err MDB_NOTFOUND).
Proof.
  refine (rescan_stops_updates 2 (acc_address AccountsSample.user) event_db back AccountsSample.user event rescanned 3
    event_db_ok event_db_get _ _ event_stored eq_refl back_eq eq_refl eq_refl _ _).
  - cbn. lia.
  - unfold u64_max. cbn. lia.
  - unfold u64_max. lia.
  - intros o Ho. change (o ∈ [ChainSample.out 3]) in Ho. apply list_elem_of_singleton in Ho as ->. cbn. lia.
Defined.
End UpdateSample.
