(* ===== verification/Storage.v ===== *)
(** src/db/storage.cpp as a whole: the database as a transition system whose
    steps are the write transactions of [storage], and the invariant of its
    account tables in every reachable state.

    A transaction that fails leaves no trace (Lmdb.v, [try_write_atomic]), so
    only the successful ones are steps. *)

From S2P Require Import Prelude Data Account Lmdb Tables Chain Subaddress Accounts Update.

Section storage.
Context {LM : Lmdb} {VC : ViewKeyCrypto} {SC : SubaddressCrypto}.
Context (points : checkpoints) (deleted_value : tab requests -> request_info -> request_info).
Context (parse_url : string -> option string).

(** What the scanner promises of the accounts it hands to [update]: none twice,
    and only findings in the blocks of the update. *)
Definition scanned_ok (height : block_id) (chain : list hash) (users : list Account.state) : Prop :=
  NoDup (Account.id <$> users) /\
  forall user, user ∈ users -> found_until (u64 (height + Z.of_nat (length chain) - 1)) user.

(** There is room for another account id. *)
Definition ids_left (s : tables) : Prop :=
  forall st u, has_account (t_accounts s) st u -> acc_id u + 1 < account_id_invalid.

Inductive storage_step (s : tables) : tables -> Prop :=
| step_rollback height s' : 1 <= height -> rollback height s = Ok s' -> storage_step s s'
| step_sync_chain height hashes regtest s' :
    0 <= height -> height + Z.of_nat (length hashes) <= u64_max ->
    sync_chain points height hashes regtest s = Ok s' -> storage_step s s'
| step_sync_pow height hashes pow s' :
    0 <= height -> height + Z.of_nat (length hashes) <= u64_max ->
    sync_pow points height hashes pow s = Ok s' -> storage_step s s'
| step_update height chain users pow regtest out s' :
    scanned_ok height chain users -> update points height chain users pow regtest s = Ok (out, s') -> storage_step s s'
| step_add_account now address key flags s' :
    ids_left s -> add_account now address key flags s = Ok s' -> storage_step s s'
| step_update_access_time now address s' : update_access_time now address s = Ok s' -> storage_step s s'
| step_change_status status addresses changed s' : change_status status addresses s = Ok (changed, s') -> storage_step s s'
| step_rescan height addresses changed s' : rescan height addresses s = Ok (changed, s') -> storage_step s s'
| step_creation_request now queue address key flags lookahead hooks s' :
    creation_request now queue address key flags lookahead s = Ok (hooks, s') -> storage_step s s'
| step_import_request now address height lookahead s' :
    import_request now address height lookahead s = Ok s' -> storage_step s s'
| step_accept_requests now req addresses max_subs stored s' :
    accept_requests deleted_value now req addresses max_subs s = Ok (stored, s') -> storage_step s s'
| step_reject_requests req addresses : storage_step s (reject_requests req addresses s).2
| step_shrink_lookahead address lookahead s' : shrink_lookahead address lookahead s = Ok s' -> storage_step s s'
| step_upsert_subaddresses id address view subaddrs max_subs out s' :
    upsert_subaddresses id address view subaddrs max_subs s = Ok (out, s') -> storage_step s s'
| step_update_lookahead address height match_ max_subs n s' :
    update_lookahead address height match_ max_subs s = Ok (n, s') -> storage_step s s'
| step_add_webhook type address event s' : add_webhook parse_url type address event s = Ok s' -> storage_step s s'
| step_clear_webhooks addresses s' : clear_webhooks addresses s = Ok s' -> storage_step s s'
| step_clear_webhook_ids ids : storage_step s (clear_webhook_ids ids s).

Inductive reachable (s : tables) : tables -> Prop :=
| reachable_start : reachable s s
| reachable_step s1 s2 : reachable s s1 -> storage_step s1 s2 -> reachable s s2.
End storage.

(** ** Each step keeps the invariant *)
Section steps.
Context {LM : Lmdb} {LL : LmdbLaws LM} {VC : ViewKeyCrypto} {SC : SubaddressCrypto}.
Context (points : checkpoints) (deleted_value : tab requests -> request_info -> request_info).
Context (parse_url : string -> option string).

Lemma rollback_accounts_rest height (s s' : tables) :
  rollback_accounts height s = Ok s' -> consistent s ->
  t_accounts_ba s' = t_accounts_ba s /\
  (forall k o, o ∈ dups (d:=outputs) (t_outputs s') k -> o ∈ dups (d:=outputs) (t_outputs s) k) /\
  (forall k x, x ∈ dups (d:=spends) (t_spends s') k -> x ∈ dups (d:=spends) (t_spends s) k).
Proof.
  unfold rollback_accounts. intros H Hc. set (nh := Z.max height 1 - 1) in *. set (es := set_range (t_accounts_bh s) height) in *.
  destruct es as [|e es'] eqn:Ees; [injection H as <-; by split_and!|]. rewrite <- Ees in *. inv_ok H. injection H as <-. destruct r as [s1 pend1].
  pose proof (agree_nil_any _ _ _ _ nh Hc) as Ha. cbn [fst snd].
  assert (t_accounts_ba s1 = t_accounts_ba s) as Eba.
  { apply (efold_invariant (fun st => t_accounts_ba st.1 = t_accounts_ba s)) in Hr; [done| |done].
    intros [s2 p2] [h l] [s3 p3] _ Hs2 H2. cbn [fst] in *. unfold rollback_account in H2. inv_ok H2. inv_ok H2. by injection H2 as <- _. }
  destruct (rollback_loop_spec _ _ _ _ _ _ _ Hr Ha) as (_ & _ & Ho & Hs).
  { by intros h l [? _]%(set_range_elem (d:=accounts_by_height)). }
  { by eapply set_range_ids. }
  split_and!; [exact Eba| |]; intros k x Hx; [apply Ho in Hx|apply Hs in Hx]; by destruct Hx.
Qed.

Lemma rollback_accounts_ok height (s s' : tables) :
  storage_ok s -> 1 <= height -> rollback_accounts height s = Ok s' -> storage_ok s'.
Proof.
  intros [H1 H2 H3 H4 H5] Hh H. destruct (rollback_accounts_rest _ _ _ H H1) as (Eba & Ho & Hx).
  destruct (rollback_accounts_spec _ _ _ H H1 H3 Hh) as (C1 & C2 & _).
  assert (forall k, (exists st u, has_account (t_accounts s) st u /\ acc_id u = k) -> exists st u, has_account (t_accounts s') st u /\ acc_id u = k) as Hk.
  { intros k (st & u & Hu & <-). unfold consistent in C1. rewrite Eba in C1.
    destruct (same_addresses _ _ _ _ _ _ _ _ _ _ _ H1 C1 Hu) as (u' & ? & ? & _). by exists st, u'. }
  split; [done| |done|eauto|eauto].
  intros st u Hu. unfold consistent in C1. rewrite Eba in C1.
  destruct (same_addresses _ _ _ _ _ _ _ _ _ _ _ C1 H1 Hu) as (u' & Hu' & <- & _). eauto.
Qed.

Lemma rollback_chain_ok rest height (s s' : tables) :
  storage_ok s -> 1 <= height -> rollback_chain rest height s = Ok s' -> storage_ok s'.
Proof.
  intros Hok Hh H. unfold rollback_chain in H. inv_ok H. injection H as <-.
  apply rollback_accounts_ok in Hr; [by apply (storage_ok_same r)|by apply (storage_ok_same s)|done].
Qed.

Lemma sync_pow_loop_current stored chain current dv chain' current' :
  1 <= current -> current + Z.of_nat (length chain) <= u64_max ->
  sync_pow_loop points stored chain current = Ok (dv, chain', current') -> 1 <= current'.
Proof.
  revert stored current. induction chain as [|h chain IH]; intros stored current H1 Hmax H; destruct stored as [|b stored]; cbn [sync_pow_loop length] in *;
    try (inversion H; subst; done); (destruct (missed_checkpoint _ _ _); [done|]); [inversion H; subst; done|].
  destruct (negb _); [inversion H; subst; done|]. destruct (negb _).
  - destruct (current <=? _); [done|inversion H; subst; done].
  - rewrite u64_small in H by (unfold in_u64; lia). apply IH in H; lia.
Qed.

Lemma sync_chain_ok height hashes regtest (s s' : tables) :
  storage_ok s -> 0 <= height -> height + Z.of_nat (length hashes) <= u64_max ->
  sync_chain points height hashes regtest s = Ok s' -> storage_ok s'.
Proof.
  intros Hok Hh Hmax H. unfold sync_chain in H. destruct hashes as [|first chain]; [done|]. cbn [length] in Hmax. inv_ok H. destruct (negb _); [done|].
  inv_ok H. destruct r0 as [[dv chain'] current]. inv_ok H. injection H as <-. apply (storage_ok_same r0); [done..|].
  rewrite u64_small in Hr0 by (unfold in_u64; lia).
  apply sync_chain_loop_spec in Hr0 as (same & rest & _ & _ & -> & _); [|lia..].
  destruct dv as [rest'|]; [|by injection Hr1 as <-]. eapply rollback_chain_ok; [exact Hok| |exact Hr1]. lia.
Qed.
Lemma sync_pow_ok height hashes pow (s s' : tables) :
  storage_ok s -> 0 <= height -> height + Z.of_nat (length hashes) <= u64_max ->
  sync_pow points height hashes pow s = Ok s' -> storage_ok s'.
Proof.
  intros Hok Hh Hmax H. unfold sync_pow in H. destruct hashes as [|first chain]; [done|]. cbn [length] in Hmax. destruct (negb _); [done|].
  inv_ok H. destruct (negb _); [done|].
  inv_ok H. destruct r0 as [[dv chain'] current]. inv_ok H. inv_ok H. injection H as <-. apply (storage_ok_same r0); [done..|].
  rewrite u64_small in Hr0 by (unfold in_u64; lia). apply sync_pow_loop_current in Hr0; [|lia..].
  destruct dv as [rest'|]; [|by injection Hr1 as <-]. eapply rollback_chain_ok; [exact Hok|exact Hr0|exact Hr1].
Qed.

Lemma update_accounts_storage_ok height chain users pow regtest (s s' : tables) out :
  storage_ok s -> scanned_ok height chain users -> update points height chain users pow regtest s = Ok (out, s') -> storage_ok s'.
Proof.
  intros Hok [Hnd Hf] H. unfold update in H. destruct chain as [|h chain]; [destruct users; [by injection H as _ <-|done]|].
  destruct (_ && _); [done|]. inv_ok H. destruct (update_chain_tables _ _ _ _ _ _ _ Hr) as (E1 & E2 & E3 & E4 & E5).
  pose proof (storage_ok_same _ _ E1 E2 E3 E4 E5 Hok) as Hok1. by apply update_accounts_ok in H as (? & _); [|done..].
Qed.

Lemma update_lookahead_ok address height match_ max_subs n (s s' : tables) :
  storage_ok s -> update_lookahead address height match_ max_subs s = Ok (n, s') -> storage_ok s'.
Proof.
  intros Hok H. unfold update_lookahead in H. destruct (get_both (d:=accounts_by_address) _ _ _) as [found|]; [|done].
  inv_ok H. rename r into u. apply find_user_account in Hr as [Hu _].
  destruct (_ || _); [by injection H as _ <-|]. destruct (if _ && _ then _ else _) as [up st].
  destruct up as [o|e]; [injection H as _ <-; by apply (storage_ok_same s)|].
  destruct (bool_decide _); [|done]. injection H as _ <-.
  apply (storage_ok_same (with_accounts (put (d:=accounts) (al_status (ab_lookup found))
    (set_lookahead (acc_lookahead u) (if acc_lookahead_fail u =? 0 then Z.max 1 height else Z.max 1 (Z.min (acc_lookahead_fail u) height)) u) (t_accounts s)) s)); [done..|].
  by apply (storage_ok_touch s _ u).
Qed.

Lemma touch_address_ok address (s s' : tables) (f : account -> expect account) :
  (forall u u', f u = Ok u' -> acc_id u' = acc_id u /\ acc_address u' = acc_address u /\ acc_scan_height u' = acc_scan_height u) ->
  storage_ok s ->
  match find_lookup address s with
  | None => Err (lws_err account_not_found)
  | Some found =>
    let* user := find_user (ab_lookup found) s in
    let* user := f user in
    Ok (with_accounts (put (d:=accounts) (al_status (ab_lookup found)) user (t_accounts s)) s)
  end = Ok s' -> storage_ok s'.
Proof.
  intros Hf Hok H. destruct (find_lookup address s) as [found|]; [|done]. inv_ok H. inv_ok H. injection H as <-.
  apply find_user_account in Hr as [Hu _]. destruct (Hf _ _ Hr0) as (E1 & E2 & E3). by eapply storage_ok_touch.
Qed.

Lemma update_access_time_ok now address (s s' : tables) :
  storage_ok s -> update_access_time now address s = Ok s' -> storage_ok s'.
Proof.
  intros Hok H. unfold update_access_time in H. inv_ok H.
  apply (touch_address_ok address s s' (fun u => Ok (set_access r u))); [by intros u u' [= <-]|done|done].
Qed.
Lemma shrink_lookahead_ok address lookahead (s s' : tables) :
  storage_ok s -> shrink_lookahead address lookahead s = Ok s' -> storage_ok s'.
Proof.
  intros Hok H. apply (touch_address_ok address s s' (fun u =>
    if negb (acc_lookahead_fail u =? 0) || (maj_i (acc_lookahead u) <? maj_i lookahead) || (min_i (acc_lookahead u) <? min_i lookahead)
    then Err (lws_err max_subaddresses) else Ok (set_lookahead lookahead (acc_lookahead_fail u) u))).
  - intros u u' Hu. destruct (_ || _); [done|]. by injection Hu as <-.
  - done.
  - unfold shrink_lookahead in H. destruct (find_lookup address s) as [found|]; [|done]. destruct (find_user _ _); [|done].
    cbn [ebind] in *. by destruct (_ || _).
Qed.

Lemma heights_ok height lookahead addresses st st' :
  storage_ok st.2 -> efold (change_one_height height lookahead) st addresses = Ok st' -> storage_ok st'.2.
Proof. intros Hok. apply (efold_invariant (fun st => storage_ok st.2)); [|done]. intros s0 a s1 _. apply change_one_height_ok. Qed.

(** C1: In every state that the write transactions of [storage] can reach from
    a good one - a new database, for example - the accounts, the address index
    and the height index agree, ids are unique, and every output and spend
    belongs to an account that has scanned its block. *)
Theorem reachable_storage_ok (s s' : tables) :
  storage_ok s -> reachable points deleted_value parse_url s s' -> storage_ok s'.
Proof.
  intros Hok H. induction H as [|s1 s2 _ IH Hstep]; [done|]. destruct Hstep.
  - unfold rollback in H0. destruct (get_both _ _ _); [by eapply rollback_chain_ok|by injection H0 as <-].
  - by eapply sync_chain_ok.
  - by eapply sync_pow_ok.
  - by eapply update_accounts_storage_ok.
  - by apply add_account_ok in H0 as (? & ? & _ & _ & ? & _).
  - by eapply update_access_time_ok.
  - apply (efold_invariant (fun st => storage_ok st.2)) in H; [done| |done]. intros st a st' _. apply change_one_status_ok.
  - unfold rescan in H. inv_ok H. destruct (_ <? height); [done|]. by apply (heights_ok _ _ _ (_, _)) in H.
  - unfold creation_request in H. destruct (queue =? 0); [done|]. inv_ok H. destruct (find_lookup _ _); [done|].
    destruct (_ && _); [done|]. inv_ok H. destruct (put_nodupdata _ _ _); [|done]. injection H as _ <-. by apply (storage_ok_same s1).
  - unfold import_request in H. inv_ok H. destruct (find_lookup _ _); [|done]. destruct (put_nodupdata _ _ _); [|done].
    injection H as <-. by apply (storage_ok_same s1).
  - unfold accept_requests in H. destruct addresses; [by injection H as _ <-|]. destruct req; [by eapply create_accounts_ok|].
    apply (efold_invariant (fun st => storage_ok st.2)) in H; [done| |done]. intros st a' st' _. apply import_one_ok.
  - by apply reject_requests_same.
  - by eapply shrink_lookahead_ok.
  - unfold upsert_subaddresses in H. destruct (do_upsert _ _ _ _ _ _) as [[o|e] st]; [|done]. injection H as _ <-. by apply (storage_ok_same s1).
  - by eapply update_lookahead_ok.
  - unfold add_webhook in H. destruct (negb _); [done|]. destruct (_ && _); [done|]. injection H as <-. by apply (storage_ok_same s1).
  - apply (efold_invariant storage_ok) in H; [done| |done]. intros s0 a s3 _ Hs Hc. unfold clear_address in Hc. inv_ok Hc.
    injection Hc as <-. by apply (storage_ok_same s0).
  - by apply (storage_ok_same s1).
Qed.
End steps.

(** From an empty database: blocks, then an account. *)
Module StorageSample.
Import Reference.

#[local] Instance sub_crypto : SubaddressCrypto := SubaddressSample.crypto.
#[local] Instance key_crypto : ViewKeyCrypto := AccountsSample.key_crypto.

Definition no_url (url : string) : option string := None.
Definition same_value (t : tab requests) (r : request_info) : request_info := r.

Lemma empty_ok : storage_ok empty_tables.
Proof.
  split.
  - apply empty_consistent.
  - intros st u Hu. by apply elem_of_nil in Hu.
  - intros st u Hu. by apply elem_of_nil in Hu.
  - intros k o Ho. by apply elem_of_nil in Ho.
  - intros k x Hx. by apply elem_of_nil in Hx.
Qed.

Definition genesis : tab blocks := [(blocks_version, BlockInfo 0 100)].
Definition start : tables := with_blocks genesis empty_tables.
Definition one : tables := match add_account 9 AccountsSample.other 67 0 start with Ok s => s | Err _ => start end.
Definition two : tables :=
  match update ChainSample.points 0 [100; 101] [UpdateSample.scanned] [] false one with Ok (_, s) => s | Err _ => one end.

Lemma start_ok : storage_ok start.
Proof. by apply (storage_ok_same empty_tables); [..|exact empty_ok]. Qed.
Lemma one_eq : add_account 9 AccountsSample.other 67 0 start = Ok one.
Proof. vm_compute. reflexivity. Qed.
Lemma start_ids : ids_left start.
Proof. intros st u Hu. by apply elem_of_nil in Hu. Qed.

Lemma reachable_storage_ok_witness : storage_ok one.
Proof.
  apply (reachable_storage_ok ChainSample.points same_value no_url start one start_ok).
  eapply reachable_step; [apply reachable_start|]. exact (step_add_account _ _ _ start 9 _ 67 0 one start_ids one_eq).
Defined.
End StorageSample.
