(* ===== verification/RandomOutputs.v ===== *)
(** src/util/gamma_picker.cpp and src/util/random_outputs.cpp: the choice of
    decoy outputs for the rings of a wallet's transactions. Module [Gamma] picks
    one output by age, module [Rings] fills a ring for every amount with outputs
    whose keys the daemon reports as unlocked.

    Floating point numbers are only passed between operations of the language,
    so [double] is a parameter with those operations; the random sources and
    the daemon are functions of a world that every use changes. *)

From S2P Require Import Prelude.

Class Doubles := {
  double : Type;
  double_of : Z -> double;
  (** A decimal literal: its digits and the number of them after the point. *)
  double_lit : Z -> Z -> double;
  double_mul : double -> double -> double;
  double_div : double -> double -> double;
  double_sub : double -> double -> double;
  double_lt : double -> double -> bool;
  double_exp : double -> double;
  double_sqrt : double -> double;
  (** Conversion to [std::uint64_t]: towards zero, and never negative. *)
  u64_of_double : double -> Z;
  u64_of_double_range d : in_u64 (u64_of_double d)
}.

(** Constants of cryptonote_config.h with what the [static_assert]s demand. *)
Class MoneroConfig := {
  DIFFICULTY_TARGET_V2 : Z;
  CRYPTONOTE_DEFAULT_TX_SPENDABLE_AGE : nat;
  target_v2_positive : 0 < DIFFICULTY_TARGET_V2;
  spendable_age_positive : (0 < CRYPTONOTE_DEFAULT_TX_SPENDABLE_AGE)%nat
}.

(** The random sources: [std::gamma_distribution] with its shape and scale,
    [crypto::rand_idx] and [crypto::rand<std::uint64_t>]. *)
Class Random `{Doubles} (W : Type) := {
  gamma_draw : double -> double -> W -> double * W;
  rand_idx : Z -> W -> Z * W;
  rand_u64 : W -> Z * W;
  rand_idx_range n w : 0 < n -> 0 <= (rand_idx n w).1 < n
}.

(** ** [gamma_picker] *)
Module Gamma.
Section gamma.
Context {fp : Doubles} {config : MoneroConfig}.

Definition gamma_shape : double := double_lit 1928 2.
Definition gamma_scale : double := double_div (double_of 1) (double_lit 161 2).
Definition blocks_in_a_year : Z := 86400 * 365 / DIFFICULTY_TARGET_V2.
Definition default_unlock_time : Z := Z.of_nat CRYPTONOTE_DEFAULT_TX_SPENDABLE_AGE * DIFFICULTY_TARGET_V2.
Definition recent_spend_window : Z := 15 * DIFFICULTY_TARGET_V2.

(** [rct_offsets] counts the outputs up to and including each block. *)
Record gamma_picker := GammaPicker { rct_offsets : list Z; outputs_per_second : double }.

Definition make_picker (offsets : list Z) : gamma_picker :=
  match last offsets with
  | None => GammaPicker offsets (double_of 0)
  | Some back =>
    let n := Z.of_nat (length offsets) in
    let blocks_to_consider := Z.min n blocks_in_a_year in
    let initial :=
      if blocks_to_consider <? n then default 0 (offsets !! Z.to_nat (n - blocks_to_consider - 1)) else 0 in
    let outputs_to_consider := u64 (back - initial) in
    GammaPicker offsets
      (double_div (double_of outputs_to_consider) (double_of (DIFFICULTY_TARGET_V2 * blocks_to_consider)))
  end.

Definition is_valid (p : gamma_picker) : bool :=
  (CRYPTONOTE_DEFAULT_TX_SPENDABLE_AGE - 1 <? length (rct_offsets p))%nat &&
  double_lt (double_of 0) (outputs_per_second p).

Definition spendable_upper_bound (p : gamma_picker) : Z :=
  if negb (is_valid p) then 0
  else default 0 (rct_offsets p !! (length (rct_offsets p) - CRYPTONOTE_DEFAULT_TX_SPENDABLE_AGE)%nat).

Definition take_offsets (p : gamma_picker) : list Z * gamma_picker :=
  (rct_offsets p, GammaPicker [] (outputs_per_second p)).

(** The blocks an output may be picked from: up to [end]. *)
Definition spendable_blocks (p : gamma_picker) : list Z :=
  take (length (rct_offsets p) - CRYPTONOTE_DEFAULT_TX_SPENDABLE_AGE + 1) (rct_offsets p).

Section random.
Context {W : Type} `{!Random W}.

Definition output_age (w : W) : double * W :=
  let '(g, w) := gamma_draw gamma_shape gamma_scale w in
  let age := double_exp g in
  if double_lt (double_of default_unlock_time) age then (double_sub age (double_of default_unlock_time), w)
  else let '(r, w) := rand_idx recent_spend_window w in (double_of r, w).

Fixpoint pick_loop (p : gamma_picker) (tries : nat) (w : W) : expect Z * W :=
  match tries with
  | O => (Err runtime_error, w)
  | S tries =>
    let num_rct_outputs := spendable_upper_bound p in
    let '(age, w) := output_age w in
    let output_index := u64_of_double (double_mul age (outputs_per_second p)) in
    if num_rct_outputs <=? output_index then pick_loop p tries w
    else
      let output_index := u64 (num_rct_outputs - 1 - output_index) in
      let selection := lower_bound (fun o => o <? output_index) (spendable_blocks p) in
      match spendable_blocks p !! selection with
      | None => (Err logic_error, w)
      | Some last_rct =>
        let first_rct := match selection with O => 0 | S i => default 0 (spendable_blocks p !! i) end in
        let n_rct := u64 (last_rct - first_rct) in
        if n_rct =? 0 then pick_loop p tries w
        else let '(r, w) := rand_idx n_rct w in (Ok (u64 (first_rct + r)), w)
      end
  end.

(** [operator()] *)
Definition pick (p : gamma_picker) (w : W) : expect Z * W :=
  if negb (is_valid p) then (Err logic_error, w) else pick_loop p 100 w.
End random.

(** What the daemon's distribution is: a count that does not decrease. *)
Definition offsets_ok (p : gamma_picker) : Prop :=
  sorted_by Z.ltb (rct_offsets p) /\ Forall in_u64 (rct_offsets p).

(** Output [i] was created in block [b]: the count passes [i] there. *)
Definition in_block (p : gamma_picker) (i : Z) (b : nat) : Prop :=
  exists o, rct_offsets p !! b = Some o /\ i < o /\
    match b with O => 0 | S b => default 0 (rct_offsets p !! b) end <= i.

Section bounds.
Context {W : Type} `{!Random W} (p : gamma_picker).
Hypothesis valid : is_valid p = true.
Hypothesis offsets : offsets_ok p.

Lemma valid_length : (CRYPTONOTE_DEFAULT_TX_SPENDABLE_AGE <= length (rct_offsets p))%nat.
Proof.
  pose proof spendable_age_positive. unfold is_valid in valid.
  apply andb_true_iff in valid as [Hv _]. apply Nat.ltb_lt in Hv. lia.
Qed.

Lemma upper_bound_lookup :
  rct_offsets p !! (length (rct_offsets p) - CRYPTONOTE_DEFAULT_TX_SPENDABLE_AGE)%nat = Some (spendable_upper_bound p).
Proof.
  unfold spendable_upper_bound. rewrite valid; cbn [negb].
  pose proof valid_length. pose proof spendable_age_positive.
  destruct (lookup_lt_is_Some_2 (rct_offsets p) (length (rct_offsets p) - CRYPTONOTE_DEFAULT_TX_SPENDABLE_AGE)%nat) as [x E].
  - lia.
  - by rewrite E.
Qed.

Lemma spendable_lookup i :
  (i <= length (rct_offsets p) - CRYPTONOTE_DEFAULT_TX_SPENDABLE_AGE)%nat -> spendable_blocks p !! i = rct_offsets p !! i.
Proof. intros. unfold spendable_blocks. apply lookup_take_lt. lia. Qed.

Lemma offsets_mono i j x y :
  rct_offsets p !! i = Some x -> rct_offsets p !! j = Some y -> (i <= j)%nat -> x <= y.
Proof.
  intros Hx Hy Hij. destruct (decide (i = j)) as [->|]; [simplify_eq; lia|].
  destruct offsets as [Hs _]. apply Z.ltb_ge, (sorted_by_lookup _ _ i j _ _ Hs Hx Hy). lia.
Qed.

Lemma offset_range i x : rct_offsets p !! i = Some x -> in_u64 x.
Proof. intros Hx. destruct offsets as [_ Hf]. rewrite Forall_forall in Hf. by eapply Hf, list_elem_of_lookup_2. Qed.

(** The block of a selection exists, and the output drawn from it is in it. *)
Lemma pick_loop_spec tries w i w' :
  pick_loop p tries w = (Ok i, w') ->
  0 <= i < spendable_upper_bound p /\
  exists b, (b <= length (rct_offsets p) - CRYPTONOTE_DEFAULT_TX_SPENDABLE_AGE)%nat /\ in_block p i b.
Proof.
  revert w. induction tries as [|tries IH]; intros w; cbn [pick_loop]; [done|].
  destruct (output_age w) as [age w1].
  set (idx := u64_of_double _). destruct (_ <=? idx) eqn:Hidx; [by apply IH|]. apply Z.leb_gt in Hidx.
  set (sel := lower_bound _ _). destruct (spendable_blocks p !! sel) as [s|] eqn:Hsel; [|done].
  assert (sel <= length (rct_offsets p) - CRYPTONOTE_DEFAULT_TX_SPENDABLE_AGE)%nat as Hlen.
  { apply lookup_lt_Some in Hsel. unfold spendable_blocks in Hsel. rewrite length_take in Hsel. lia. }
  rewrite spendable_lookup in Hsel by done.
  set (first := match sel with O => 0 | S i => default 0 (spendable_blocks p !! i) end).
  assert (first = match sel with O => 0 | S i => default 0 (rct_offsets p !! i) end) as Hfirst.
  { unfold first. destruct sel; [done|]. rewrite spendable_lookup by lia. done. }
  assert (0 <= first <= s) as Hfs.
  { rewrite Hfirst. destruct sel as [|k]; [pose proof (offset_range _ _ Hsel) as [? _]; lia|].
    destruct (lookup_lt_is_Some_2 (rct_offsets p) k) as [f Hf]; [apply lookup_lt_Some in Hsel; lia|].
    rewrite Hf; cbn. pose proof (offset_range _ _ Hf) as [? _]. split; [done|].
    apply (offsets_mono k (S k)); auto. }
  assert (s <= spendable_upper_bound p) as Hs.
  { apply (offsets_mono sel (length (rct_offsets p) - CRYPTONOTE_DEFAULT_TX_SPENDABLE_AGE)); auto using upper_bound_lookup. }
  pose proof (offset_range _ _ Hsel) as [_ Hmax]. rewrite (u64_small (s - first)) by (unfold in_u64; lia).
  destruct (s - first =? 0) eqn:Hn; [by apply IH|]. apply Z.eqb_neq in Hn.
  destruct (rand_idx (s - first) w1) as [r w2] eqn:Hr. pose proof (rand_idx_range (s - first) w1) as Hrange.
  rewrite Hr in Hrange; cbn in Hrange. intros [= <- <-]. rewrite u64_small by (unfold in_u64; lia).
  split; [lia|]. exists sel. split; [done|]. exists s. split_and!; [done|lia|]. rewrite <- Hfirst. lia.
Qed.

(** The search for the block never runs out of the range. *)
Lemma pick_loop_finds tries w e w' : pick_loop p tries w = (Err e, w') -> e = runtime_error.
Proof.
  revert w. induction tries as [|tries IH]; intros w; cbn [pick_loop]; [by intros [= <- <-]|].
  destruct (output_age w) as [age w1].
  set (idx := u64_of_double _). destruct (_ <=? idx) eqn:Hidx; [by apply IH|].
  destruct (spendable_blocks p !! _) as [s|] eqn:Hsel.
  - destruct (u64 _ =? 0); [by apply IH|]. by destruct (rand_idx _ w1).
  - exfalso. pose proof valid_length as Hl. pose proof spendable_age_positive.
    set (last := (length (rct_offsets p) - CRYPTONOTE_DEFAULT_TX_SPENDABLE_AGE)%nat) in *.
    assert (spendable_blocks p !! last = Some (spendable_upper_bound p)) as E.
    { rewrite spendable_lookup by done. apply upper_bound_lookup. }
    apply lookup_ge_None in Hsel. pose proof (lookup_lt_Some _ _ _ E) as Hlt.
    match type of Hsel with (_ <= lower_bound ?f _)%nat =>
      assert (f (spendable_upper_bound p) = true) as Hin; [apply (lower_bound_before f (spendable_blocks p))|] end.
    { apply list_elem_of_lookup_2 with last. by rewrite lookup_take_lt by lia. }
    apply Z.ltb_lt in Hin. apply Z.leb_gt in Hidx.
    pose proof (u64_of_double_range (double_mul age (outputs_per_second p))) as Hu. fold idx in Hu.
    pose proof (offset_range _ _ upper_bound_lookup) as Hb. rewrite u64_small in Hin; unfold in_u64 in *; lia.
Qed.
End bounds.

(** a picked output is always one that can be spent: it lies below the
    upper bound, in a block at least the spendable age below the top. The
    search for its block never fails, so the only error a valid picker throws
    is that no attempt succeeded. *)
Theorem pick_is_spendable {W} `{!Random W} (p : gamma_picker) (w : W) :
  is_valid p = true -> offsets_ok p ->
  match (pick p w).1 with
  | Ok i => 0 <= i < spendable_upper_bound p /\
      exists b, (b <= length (rct_offsets p) - CRYPTONOTE_DEFAULT_TX_SPENDABLE_AGE)%nat /\ in_block p i b
  | Err e => e = runtime_error
  end.
Proof.
  intros Hv Ho. unfold pick. rewrite Hv; cbn [negb].
  destruct (pick_loop p 100 w) as [[i|e] w'] eqn:E; cbn.
  - by apply (pick_loop_spec p Hv Ho 100 w i w').
  - by apply (pick_loop_finds p Hv Ho 100 w e w').
Qed.
End gamma.
End Gamma.

(** ** [pick_random_outputs] *)
Module Rings.
Import Gamma.

(** [cryptonote::rpc::output_key_mask_unlocked] of the daemon's messages. *)
Class OutputKeys := {
  output_keys : Type;
  unlocked : output_keys -> bool;
  no_keys : output_keys;
  no_keys_locked : unlocked no_keys = false
}.

Record histogram := Histogram { h_amount : Z; h_total_count : Z; h_unlocked_count : Z }.
Record output_ref := OutputRef { or_amount : Z; or_index : Z }.

Section rings.
Context {fp : Doubles} {config : MoneroConfig} {keys_of_daemon : OutputKeys} {W : Type} {random : Random W}.

Record random_output := RandomOutput { ro_keys : output_keys; ro_index : Z }.
Record random_ring := RandomRing { rr_ring : list random_output; rr_amount : Z }.

(** A computation that may throw or return an error, and may not end. *)
Definition run (A : Type) : Type := W -> option (expect A * W).
Definition ret {A} (a : A) : run A := fun w => Some (Ok a, w).
Definition fail {A} (e : error) : run A := fun w => Some (Err e, w).
Definition bind {A B} (m : run A) (f : A -> run B) : run B := fun w =>
  match m w with
  | Some (Ok a, w) => f a w
  | Some (Err e, w) => Some (Err e, w)
  | None => None
  end.
Definition lift {A} (m : W -> expect A * W) : run A := fun w => Some (m w).

Definition by_index (l r : output_ref) : bool := or_index l <? or_index r.
Definition by_index_output (l r : random_output) : bool := ro_index l <? ro_index r.
Definition by_amount (l r : histogram) : bool := h_amount l <? h_amount r.

Definition pick_all (count : nat) (amount : Z) : list output_ref :=
  (fun i => OutputRef amount (Z.of_nat i)) <$> seq 0 count.

Definition max_draw : Z := 2 ^ 53.
Definition triangular_index (r : Z) (hist : histogram) : Z :=
  u64_of_double (double_mul (double_sqrt (double_div (double_of (r mod max_draw)) (double_of max_draw)))
    (double_of (h_total_count hist))).

(** The [do ... while] loop for one entry. *)
Fixpoint draw_index (fuel : nat) (hist : histogram) : run Z := fun w =>
  match fuel with
  | O => None
  | S fuel =>
    let '(r, w) := rand_u64 w in
    if h_unlocked_count hist <? triangular_index r hist then draw_index fuel hist w
    else Some (Ok (triangular_index r hist), w)
  end.

Fixpoint triangular_entries (fuel count : nat) (hist : histogram) : run (list output_ref) :=
  match count with
  | O => ret []
  | S count => bind (draw_index fuel hist) (fun i =>
      bind (triangular_entries fuel count hist) (fun rest => ret (OutputRef (h_amount hist) i :: rest)))
  end.

Definition triangular_pick (fuel count : nat) (hist : histogram) : run (list output_ref) :=
  if negb (h_unlocked_count hist <=? h_total_count hist) then fail kInvalidArgument
  else if h_unlocked_count hist <? Z.of_nat count then fail (lws_err not_enough_mixin)
  else if h_unlocked_count hist =? Z.of_nat count then ret (pick_all count (h_amount hist))
  else triangular_entries fuel count hist.

Fixpoint gamma_entries (count : nat) (p : gamma_picker) : run (list output_ref) :=
  match count with
  | O => ret []
  | S count => bind (lift (pick p)) (fun i =>
      bind (gamma_entries count p) (fun rest => ret (OutputRef 0 i :: rest)))
  end.

Definition gamma_pick (count : nat) (p : gamma_picker) : run (list output_ref) :=
  if negb (is_valid p) then fail (lws_err not_enough_mixin)
  else if spendable_upper_bound p <? Z.of_nat count then fail (lws_err not_enough_mixin)
  else if spendable_upper_bound p =? Z.of_nat count then ret (pick_all count 0)
  else gamma_entries count p.

(** [std::unique] with [same_index]. *)
Fixpoint unique_index (l : list output_ref) : list output_ref :=
  match l with
  | [] => []
  | x :: l =>
    x :: match unique_index l with
         | y :: l' => if or_index x =? or_index y then l' else y :: l'
         | [] => []
         end
  end.

Definition has_index (current : list random_output) (i : Z) : bool :=
  match current !! lower_bound (fun o => ro_index o <? i) current with
  | Some o => ro_index o =? i
  | None => false
  end.

Definition fresh_output (i : Z) : random_output := RandomOutput no_keys i.

Definition find_histogram (histograms : list histogram) (amount : Z) : option histogram :=
  match histograms !! lower_bound (fun h => h_amount h <? amount) histograms with
  | Some h => if h_amount h =? amount then Some h else None
  | None => None
  end.

(** The selection for one ring: [None] when its amount has not enough outputs
    and the ring is erased. *)
Definition select_ring (fuel mixin : nat) (p : gamma_picker) (histograms : list histogram) (ring : random_ring)
    : run (option (random_ring * list output_ref)) :=
  if negb (length (rr_ring ring) <? mixin)%nat then ret (Some (ring, []))
  else
    let diff := (mixin - length (rr_ring ring))%nat in
    let picked : run (list output_ref) :=
      if rr_amount ring =? 0 then gamma_pick diff p
      else
        match find_histogram histograms (rr_amount ring) with
        | None => fail kInvalidArgument
        | Some hist => triangular_pick fuel diff hist
        end in
    fun w =>
      match picked w with
      | None => None
      | Some (Err e, w) => if bool_decide (e = lws_err not_enough_mixin) then ret None w else fail e w
      | Some (Ok latest, w) =>
        let latest := unique_index (std_sort by_index latest) in
        let current := std_sort by_index_output (rr_ring ring) in
        let kept := List.filter (fun r => negb (has_index current (or_index r))) latest in
        ret (Some (RandomRing (current ++ ((fun r => fresh_output (or_index r)) <$> kept)) (rr_amount ring), kept)) w
      end.

Fixpoint select_rings (fuel mixin : nat) (p : gamma_picker) (histograms : list histogram) (rings : list random_ring)
    : run (list random_ring * list output_ref) :=
  match rings with
  | [] => ret ([], [])
  | ring :: rings =>
    bind (select_ring fuel mixin p histograms ring) (fun selected =>
    bind (select_rings fuel mixin p histograms rings) (fun rest =>
      match selected with
      | None => ret rest
      | Some (ring, kept) => ret (ring :: rest.1, kept ++ rest.2)
      end))
  end.

(** The keys the daemon returned, handed to the entries without keys in order;
    entries whose output is locked are erased. *)
Fixpoint take_keys (ring : list random_output) (result : list output_keys) (done : bool)
    : expect (list random_output * list output_keys * bool) :=
  match ring with
  | [] => Ok ([], result, done)
  | entry :: ring =>
    if unlocked (ro_keys entry) then
      let* r := take_keys ring result done in Ok (entry :: r.1.1, r.1.2, r.2)
    else
      match result with
      | [] => Err (lws_err bad_daemon_response)
      | keys :: result =>
        if unlocked keys then
          let* r := take_keys ring result done in Ok (RandomOutput keys (ro_index entry) :: r.1.1, r.1.2, r.2)
        else take_keys ring result false
      end
  end.

Fixpoint take_all_keys (mixin : nat) (rings : list random_ring) (result : list output_keys) (done : bool)
    : expect (list random_ring * bool) :=
  match rings with
  | [] => Ok ([], done)
  | ring :: rings =>
    let* r := take_keys (rr_ring ring) result (done && (mixin <=? length (rr_ring ring))%nat) in
    let* rest := take_all_keys mixin rings r.1.2 r.2 in
    Ok (RandomRing r.1.1 (rr_amount ring) :: rest.1, rest.2)
  end.

Section fetch.
Context (fetch : list output_ref -> W -> expect (list output_keys) * W).

Fixpoint fill_rings (tries fuel mixin : nat) (p : gamma_picker) (histograms : list histogram) (rings : list random_ring)
    : run (list random_ring) :=
  match tries with
  | O => fail (lws_err not_enough_mixin)
  | S tries =>
    bind (select_rings fuel mixin p histograms rings) (fun st =>
      match st.1 with
      | [] => ret []
      | rings =>
        bind (lift (fetch st.2)) (fun result =>
          if negb (length st.2 =? length result)%nat then fail (lws_err bad_daemon_response)
          else
            match take_all_keys mixin rings result true with
            | Err e => fail e
            | Ok (rings, done) => if done : bool then ret rings else fill_rings tries fuel mixin p histograms rings
            end)
      end)
  end.

Definition pick_random_outputs (fuel mixin : nat) (amounts : list Z) (p : gamma_picker) (histograms : list histogram)
    : run (list random_ring) :=
  match mixin, amounts with
  | O, _ | _, [] => ret (replicate (length amounts) (RandomRing [] 0))
  | _, _ =>
    if negb (Z.of_nat mixin <=? u64_max / Z.of_nat (length amounts)) then fail kInvalidArgument
    else fill_rings 64 fuel mixin p (std_sort by_amount histograms) (RandomRing [] <$> amounts)
  end.
End fetch.

(** ** Specification *)

(** Correctness with a postcondition for errors; when [ends] holds, total. *)
Context (ends : Prop).
Definition sat {A} (m : run A) (Q : A -> Prop) (E : error -> Prop) : Prop :=
  forall w, match m w with Some (Ok a, _) => Q a | Some (Err e, _) => E e | None => ~ ends end.

Lemma sat_ret {A} (a : A) (Q : A -> Prop) E : Q a -> sat (ret a) Q E.
Proof. by intros Hq w. Qed.
Lemma sat_fail {A} e (Q : A -> Prop) (E : error -> Prop) : E e -> sat (fail e) Q E.
Proof. by intros He w. Qed.
Lemma sat_lift {A} (m : W -> expect A * W) (Q : A -> Prop) (E : error -> Prop) :
  (forall w, match (m w).1 with Ok a => Q a | Err e => E e end) -> sat (lift m) Q E.
Proof. intros Hm w. unfold lift. specialize (Hm w). by destruct (m w) as [[a|e] w']. Qed.
Lemma sat_bind {A B} (m : run A) (f : A -> run B) P Q E :
  sat m P E -> (forall a, P a -> sat (f a) Q E) -> sat (bind m f) Q E.
Proof.
  intros Hm Hf w. specialize (Hm w). unfold bind. destruct (m w) as [[[a|e] w1]|]; [by apply Hf|done..].
Qed.
Lemma sat_weaken {A} (m : run A) (P Q : A -> Prop) (E F : error -> Prop) :
  sat m P E -> (forall a, P a -> Q a) -> (forall e, E e -> F e) -> sat m Q F.
Proof. intros Hm HP HE w. specialize (Hm w). destruct (m w) as [[[a|e] w1]|]; auto. Qed.

(** The [k]-th number the source gives from now on. *)
Fixpoint nth_draw (k : nat) (w : W) : Z :=
  match k with O => (rand_u64 w).1 | S k => nth_draw k (rand_u64 w).2 end.

(** One of the next [fuel] numbers gives an index the histogram accepts. *)
Definition accepts_within (fuel : nat) (hist : histogram) : Prop :=
  forall w, exists k, (k < fuel)%nat /\ triangular_index (nth_draw k w) hist <= h_unlocked_count hist.

(** What an output may be drawn from: for an amount of 0 the spendable ringct
    outputs, else the outputs the histogram counts as unlocked. *)
Definition in_supply (p : gamma_picker) (histograms : list histogram) (amount i : Z) : Prop :=
  if amount =? 0 then 0 <= i < spendable_upper_bound p
  else exists hist, hist ∈ histograms /\ h_amount hist = amount /\ 0 <= i <= h_unlocked_count hist.

(** Whether an amount has enough outputs for a ring. *)
Definition enough (p : gamma_picker) (histograms : list histogram) (mixin : nat) (amount : Z) : bool :=
  if amount =? 0 then is_valid p && (Z.of_nat mixin <=? spendable_upper_bound p)
  else match find_histogram histograms amount with
       | Some hist => Z.of_nat mixin <=? h_unlocked_count hist
       | None => false
       end.

Definition ref_ok (p : gamma_picker) (histograms : list histogram) (amount : Z) (r : output_ref) : Prop :=
  or_amount r = amount /\ in_supply p histograms amount (or_index r).

Section picks.
Context (p : gamma_picker) (histograms : list histogram) (fuel : nat).
Hypothesis offsets : offsets_ok p.
Hypothesis accepts : ends -> forall hist, hist ∈ histograms -> accepts_within fuel hist.

Lemma draw_index_none n hist w :
  draw_index n hist w = None -> forall k, (k < n)%nat -> h_unlocked_count hist < triangular_index (nth_draw k w) hist.
Proof.
  revert w. induction n as [|n IH]; intros w H k Hk; [lia|]. cbn [draw_index] in H. destruct (rand_u64 w) as [r w1] eqn:Er.
  destruct (Z.ltb_spec (h_unlocked_count hist) (triangular_index r hist)); [|done].
  destruct k as [|k]; cbn [nth_draw]; rewrite Er; [done|]. apply IH; [done|lia].
Qed.

Lemma draw_index_sat n hist :
  (ends -> accepts_within n hist) -> sat (draw_index n hist) (fun i => 0 <= i <= h_unlocked_count hist) (fun _ => False).
Proof.
  intros Ha w. destruct (draw_index n hist w) as [r|] eqn:E.
  - clear Ha. revert w r E. induction n as [|n IH]; intros w r E; [done|]. cbn [draw_index] in E. destruct (rand_u64 w) as [z w1].
    destruct (Z.ltb_spec (h_unlocked_count hist) (triangular_index z hist)); [by eapply IH|]. injection E as <-.
    pose proof (u64_of_double_range (double_mul (double_sqrt (double_div (double_of (z mod max_draw)) (double_of max_draw)))
      (double_of (h_total_count hist)))) as Hr. unfold triangular_index, in_u64 in *. lia.
  - intros He. destruct (Ha He w) as (k & Hk & Hacc). pose proof (draw_index_none _ _ _ E k Hk). lia.
Qed.

Lemma pick_all_ok count amount :
  (forall i, 0 <= i < Z.of_nat count -> in_supply p histograms amount i) ->
  Forall (ref_ok p histograms amount) (pick_all count amount) /\ length (pick_all count amount) = count.
Proof.
  intros Hi. unfold pick_all. rewrite length_fmap, length_seq. split; [|done].
  apply Forall_fmap, Forall_seq. intros j Hj. split; [done|]. apply Hi. cbn. lia.
Qed.

Lemma triangular_pick_sat count hist amount :
  amount <> 0 -> hist ∈ histograms -> h_amount hist = amount ->
  sat (triangular_pick fuel count hist)
    (fun l => Forall (ref_ok p histograms amount) l /\ length l = count)
    (fun e => e = lws_err not_enough_mixin -> h_unlocked_count hist < Z.of_nat count).
Proof.
  intros Hz Hin Ha. unfold triangular_pick.
  assert (forall i, 0 <= i <= h_unlocked_count hist -> in_supply p histograms amount i) as Hsup.
  { intros i Hi. unfold in_supply. rewrite (proj2 (Z.eqb_neq _ _) Hz). by exists hist. }
  destruct (negb _); [by apply sat_fail|]. destruct (_ <? _) eqn:Hlt; [apply sat_fail; by apply Z.ltb_lt in Hlt|].
  destruct (_ =? _) eqn:Heq.
  { apply sat_ret. rewrite Ha. apply pick_all_ok. intros i Hi. apply Hsup. apply Z.eqb_eq in Heq. lia. }
  clear Hlt Heq. apply (sat_weaken _ (fun l => Forall (ref_ok p histograms amount) l /\ length l = count) _ (fun _ => False)); [|done|done].
  induction count as [|count IH]; cbn [triangular_entries]; [apply sat_ret; by split|].
  eapply sat_bind; [apply draw_index_sat; intros He; by apply accepts|]. intros i Hi. cbn.
  eapply sat_bind; [apply IH|]. intros rest [Hf Hl]. apply sat_ret. split; [|cbn; lia].
  constructor; [|done]. split; [done|]. by apply Hsup.
Qed.

Lemma gamma_pick_sat count :
  sat (gamma_pick count p)
    (fun l => Forall (ref_ok p histograms 0) l /\ length l = count)
    (fun e => e = lws_err not_enough_mixin -> is_valid p = false \/ spendable_upper_bound p < Z.of_nat count).
Proof.
  unfold gamma_pick. destruct (is_valid p) eqn:Hv; cbn [negb]; [|apply sat_fail; auto].
  destruct (_ <? _) eqn:Hlt; [apply sat_fail; apply Z.ltb_lt in Hlt; auto|].
  destruct (_ =? _) eqn:Heq.
  { apply sat_ret, pick_all_ok. intros i Hi. apply Z.eqb_eq in Heq. unfold in_supply. cbn. lia. }
  clear Hlt Heq.
  apply (sat_weaken _ (fun l => Forall (ref_ok p histograms 0) l /\ length l = count) _ (fun e => e = runtime_error)); [|done|by intros e -> [=]].
  induction count as [|count IH]; cbn [gamma_entries]; [apply sat_ret; by split|].
  eapply (sat_bind _ _ (fun i => 0 <= i < spendable_upper_bound p)).
  { apply sat_lift. intros w. unfold pick. rewrite Hv; cbn [negb].
    destruct (pick_loop p 100 w) as [[i|e] w'] eqn:E; cbn.
    - by apply (pick_loop_spec p Hv offsets 100 w i w').
    - by apply (pick_loop_finds p Hv offsets 100 w e w'). }
  intros i Hi. eapply sat_bind; [apply IH|]. intros rest [Hf Hl]. apply sat_ret. split; [|cbn; lia].
  constructor; [|done]. by split.
Qed.
End picks.

#[local] Instance by_index_weak : WeakLt by_index.
Proof. apply (weak_on or_index Z.ltb), _. Qed.
#[local] Instance by_index_output_weak : WeakLt by_index_output.
Proof. apply (weak_on ro_index Z.ltb), _. Qed.

Lemma unique_index_sub l x : x ∈ unique_index l -> x ∈ l.
Proof.
  induction l as [|y l IH]; [done|]. cbn [unique_index]. intros [->|Hx]%elem_of_cons; [by apply list_elem_of_here|].
  apply list_elem_of_further, IH. destruct (unique_index l) as [|z l']; [done|].
  destruct (_ =? _); [by apply list_elem_of_further|done].
Qed.
Lemma unique_index_length l : (length (unique_index l) <= length l)%nat.
Proof.
  induction l as [|y l IH]; [done|]. cbn [unique_index length].
  destruct (unique_index l) as [|z l']; cbn in *; [lia|]. destruct (_ =? _); cbn in *; lia.
Qed.

Lemma unique_index_strict l :
  sorted_by by_index l -> StronglySorted (fun x y => or_index x < or_index y) (unique_index l).
Proof.
  induction 1 as [|y l Hl IH Hy]; [constructor|]. cbn [unique_index].
  assert (forall x, x ∈ unique_index l -> or_index y <= or_index x) as Hle.
  { intros x Hx%unique_index_sub. rewrite Forall_forall in Hy. apply Z.ltb_ge, (Hy x Hx). }
  destruct (unique_index l) as [|z l']; [repeat constructor|].
  inversion IH as [|? ? IH' Hz]; subst. rewrite Forall_forall in Hz.
  pose proof (Hle z (list_elem_of_here _ _)) as Hyz.
  destruct (or_index y =? or_index z) eqn:E.
  - apply Z.eqb_eq in E. constructor; [done|]. apply Forall_forall. intros x Hx. rewrite E. by apply Hz.
  - apply Z.eqb_neq in E. constructor; [done|]. apply Forall_forall.
    intros x [->|Hx]%elem_of_cons; [lia|]. specialize (Hz x Hx). lia.
Qed.

Lemma unique_index_nodup l : sorted_by by_index l -> NoDup (or_index <$> unique_index l).
Proof.
  intros Hs%unique_index_strict. induction Hs as [|x l' Hl IH Hx]; [constructor|].
  cbn. constructor; [|done]. intros (y & E & Hy)%list_elem_of_fmap. rewrite Forall_forall in Hx.
  specialize (Hx y Hy). lia.
Qed.

Lemma has_index_found current o :
  sorted_by by_index_output current -> o ∈ current -> has_index current (ro_index o) = true.
Proof.
  intros Hs Ho. unfold has_index. set (f := fun o' : random_output => ro_index o' <? ro_index o).
  rewrite <- (take_drop (lower_bound f current) current) in Ho. apply elem_of_app in Ho as [Ho|Ho].
  { apply lower_bound_before in Ho. unfold f in Ho. apply Z.ltb_lt in Ho. lia. }
  destruct (current !! lower_bound f current) as [z|] eqn:E.
  - pose proof (lower_bound_at _ _ _ E) as Hz. unfold f in Hz. apply Z.ltb_ge in Hz. apply Z.eqb_eq.
    apply list_elem_of_lookup in Ho as (k & Hk). rewrite lookup_drop in Hk.
    destruct k as [|k]; [rewrite Nat.add_0_r, E in Hk; by injection Hk as ->|].
    pose proof (sorted_by_lookup _ _ _ _ _ _ Hs E Hk ltac:(lia)) as Hlt. apply Z.ltb_ge in Hlt. lia.
  - apply lookup_ge_None in E. rewrite drop_ge in Ho by done. by apply elem_of_nil in Ho.
Qed.

Section selection.
Context (p : gamma_picker) (histograms : list histogram) (fuel mixin : nat) (key_of : output_ref -> output_keys).
Hypothesis offsets : offsets_ok p.
Hypothesis accepts : ends -> forall hist, hist ∈ histograms -> accepts_within fuel hist.

(** An entry with the keys the daemon gave for it. *)
Definition entry_ok (amount : Z) (o : random_output) : Prop :=
  unlocked (ro_keys o) = true /\ ro_keys o = key_of (OutputRef amount (ro_index o)) /\
  in_supply p histograms amount (ro_index o).

Definition ring_ok (ring : random_ring) : Prop :=
  (length (rr_ring ring) <= mixin)%nat /\ NoDup (ro_index <$> rr_ring ring) /\
  Forall (entry_ok (rr_amount ring)) (rr_ring ring).

(** A ring after the selection: complete entries, then those asked for. *)
Definition chosen (x : random_ring * list output_ref) : Prop :=
  exists dn, rr_ring x.1 = dn ++ ((fun r => fresh_output (or_index r)) <$> x.2) /\
    Forall (entry_ok (rr_amount x.1)) dn /\ Forall (ref_ok p histograms (rr_amount x.1)) x.2 /\
    NoDup ((ro_index <$> dn) ++ (or_index <$> x.2)) /\ (length dn + length x.2 <= mixin)%nat.

Lemma find_histogram_some amount hist :
  find_histogram histograms amount = Some hist -> hist ∈ histograms /\ h_amount hist = amount.
Proof.
  unfold find_histogram. destruct (histograms !! _) as [h|] eqn:E; [|done].
  destruct (h_amount h =? amount) eqn:Ea; [|done]. intros [= <-]. apply Z.eqb_eq in Ea.
  split; [by eapply list_elem_of_lookup_2|done].
Qed.

Lemma select_ring_chosen ring latest :
  ring_ok ring -> (length latest <= mixin - length (rr_ring ring))%nat ->
  Forall (ref_ok p histograms (rr_amount ring)) latest ->
  let current := std_sort by_index_output (rr_ring ring) in
  let kept := List.filter (fun r => negb (has_index current (or_index r))) (unique_index (std_sort by_index latest)) in
  chosen (RandomRing (current ++ ((fun r => fresh_output (or_index r)) <$> kept)) (rr_amount ring), kept).
Proof.
  intros (Hlen & Hnd & Hok) Hll Hrefs current kept. exists current. cbn [fst snd rr_ring rr_amount].
  pose proof (std_sort_perm by_index_output (rr_ring ring)) as Hperm. fold current in Hperm.
  assert (forall r, r ∈ kept -> r ∈ unique_index (std_sort by_index latest) /\ has_index current (or_index r) = false) as Hkept.
  { intros r Hr. apply list_elem_of_In, List.filter_In in Hr as [Hr Hf]. apply list_elem_of_In in Hr.
    apply negb_true_iff in Hf. done. }
  split_and!; [done|by rewrite Hperm| | |].
  - apply Forall_forall. intros r Hr. apply Hkept in Hr as [Hr%unique_index_sub _].
    rewrite (std_sort_perm by_index latest) in Hr. rewrite Forall_forall in Hrefs. by apply Hrefs.
  - apply NoDup_app. split_and!; [by rewrite Hperm| |].
    + intros i (o & -> & Ho)%list_elem_of_fmap (r & E & Hr)%list_elem_of_fmap. apply Hkept in Hr as [_ Hr].
      rewrite <- E in Hr. rewrite has_index_found in Hr; [done| |done]. apply (weak_sort_sorted by_index_output).
    + eapply sublist_NoDup; [apply (unique_index_nodup (std_sort by_index latest)), (weak_sort_sorted by_index)|].
      apply fmap_sublist, list_filter_sublist.
  - rewrite Hperm. assert (length kept <= length latest)%nat; [|lia].
    etransitivity; [apply List.filter_length_le|]. etransitivity; [apply unique_index_length|].
    by rewrite (std_sort_perm by_index latest).
Qed.

Lemma select_ring_sat ring :
  ring_ok ring ->
  sat (select_ring fuel mixin p histograms ring)
    (fun o => match o with
              | None => enough p histograms mixin (rr_amount ring) = false
              | Some x => rr_amount x.1 = rr_amount ring /\ chosen x
              end) (fun _ => True).
Proof.
  intros Hring. unfold select_ring. destruct (negb _) eqn:Hfull.
  { apply sat_ret. split; [done|]. exists (rr_ring ring). cbn. destruct Hring as (Hlen & Hnd & Hok).
    rewrite !app_nil_r. split_and!; [done|done|constructor|done|lia]. }
  apply negb_false_iff, Nat.ltb_lt in Hfull. set (diff := (mixin - length (rr_ring ring))%nat).
  match goal with |- sat (fun w => match ?m w with _ => _ end) _ _ => set (picked := m) end.
  assert (sat picked (fun l => Forall (ref_ok p histograms (rr_amount ring)) l /\ length l = diff)
    (fun e => e = lws_err not_enough_mixin -> enough p histograms mixin (rr_amount ring) = false)) as Hp.
  { unfold picked, enough. destruct (rr_amount ring =? 0) eqn:Hz.
    - apply Z.eqb_eq in Hz. rewrite Hz. eapply sat_weaken; [by apply (gamma_pick_sat p histograms)|done|].
      cbn. intros e He Hn. apply andb_false_iff. destruct (He Hn) as [Hv|Hlt]; [by left|right]. apply Z.leb_gt. lia.
    - apply Z.eqb_neq in Hz. destruct (find_histogram histograms (rr_amount ring)) as [hist|] eqn:Hf; [|by apply sat_fail].
      apply find_histogram_some in Hf as [Hin Ha].
      eapply sat_weaken; [by apply (triangular_pick_sat p histograms)|done|].
      cbn. intros e He Hn. apply Z.leb_gt. specialize (He Hn). lia. }
  intros w. specialize (Hp w). cbn beta. destruct (picked w) as [[[latest|e] w1]|]; [| |done].
  - destruct Hp as [Hrefs Hl]. split; [done|]. apply select_ring_chosen; [done|lia|done].
  - destruct (bool_decide _) eqn:Hb; [|done]. apply bool_decide_eq_true in Hb. cbn. auto.
Qed.

(** The rings kept, with what is asked for each of them. *)
Definition selection (rings : list random_ring) (l : list (random_ring * list output_ref)) : Prop :=
  Forall chosen l /\ (rr_amount <$> l.*1) `sublist_of` (rr_amount <$> rings) /\
  List.filter (enough p histograms mixin) (rr_amount <$> rings) `sublist_of` (rr_amount <$> l.*1).

Lemma select_rings_sat rings :
  Forall ring_ok rings ->
  sat (select_rings fuel mixin p histograms rings)
    (fun st => exists l, st = (l.*1, concat l.*2) /\ selection rings l) (fun _ => True).
Proof.
  induction 1 as [|ring rings Hring _ IH]; cbn [select_rings].
  { apply sat_ret. exists []. split; [done|]. split_and!; constructor. }
  eapply sat_bind; [by apply select_ring_sat|]. intros o Ho.
  eapply sat_bind; [apply IH|]. intros rest (l & -> & Hc & H1 & H2).
  destruct o as [[ring' kept]|]; apply sat_ret.
  - destruct Ho as [Ha Hch]. cbn in Ha. exists ((ring', kept) :: l). split; [done|]. split_and!.
    + by constructor.
    + cbn. rewrite Ha. by apply sublist_skip.
    + cbn. rewrite Ha. destruct (enough _ _ _ _); [by apply sublist_skip|by apply sublist_cons].
  - exists l. split; [done|]. split_and!; [done| |].
    + cbn. by apply sublist_cons.
    + cbn. by rewrite Ho.
Qed.

(** What the daemon answers for the entries of a ring. *)
Definition answered (kept : list output_ref) : list random_output :=
  (fun r => RandomOutput (key_of r) (or_index r)) <$> List.filter (fun r => unlocked (key_of r)) kept.

Lemma take_keys_done dn ring result d :
  Forall (fun o => unlocked (ro_keys o) = true) dn ->
  take_keys (dn ++ ring) result d = let* r := take_keys ring result d in Ok (dn ++ r.1.1, r.1.2, r.2).
Proof.
  induction 1 as [|o dn Ho _ IH]; cbn.
  - by destruct (take_keys ring result d) as [[[? ?] ?]|].
  - rewrite Ho, IH. by destruct (take_keys ring result d) as [[[? ?] ?]|].
Qed.

Lemma take_keys_asked kept rest d :
  take_keys ((fun r => fresh_output (or_index r)) <$> kept) ((key_of <$> kept) ++ rest) d =
    Ok (answered kept, rest, d && forallb (fun r => unlocked (key_of r)) kept).
Proof.
  revert d. induction kept as [|r kept IH]; intros d; cbn; [by rewrite andb_true_r|].
  rewrite no_keys_locked. unfold answered. cbn. destruct (unlocked (key_of r)) eqn:E; rewrite IH; cbn; [done|].
  by rewrite andb_false_r.
Qed.

Definition finish (x : random_ring * list output_ref) : random_ring :=
  RandomRing (List.filter (fun o => unlocked (ro_keys o)) (rr_ring x.1) ++ answered x.2) (rr_amount x.1).

Lemma finish_eq x dn :
  rr_ring x.1 = dn ++ ((fun r => fresh_output (or_index r)) <$> x.2) ->
  Forall (fun o => unlocked (ro_keys o) = true) dn ->
  finish x = RandomRing (dn ++ answered x.2) (rr_amount x.1).
Proof.
  intros E Hd. unfold finish. f_equal. rewrite E, List.filter_app. f_equal.
  assert (List.filter (fun o => unlocked (ro_keys o)) ((fun r => fresh_output (or_index r)) <$> x.2) = []) as ->.
  { clear. induction (x.2) as [|r kept IH]; [done|]. cbn. rewrite no_keys_locked. exact IH. }
  rewrite app_nil_r. clear E. induction Hd as [|o dn Ho _ IH]; cbn; [done|]. rewrite Ho. by f_equal.
Qed.

Lemma entries_unlocked amount dn : Forall (entry_ok amount) dn -> Forall (fun o => unlocked (ro_keys o) = true) dn.
Proof. intros Hd. eapply Forall_impl; [exact Hd|]. by intros o (? & _). Qed.

Lemma take_all_keys_chosen l d :
  Forall chosen l ->
  take_all_keys mixin l.*1 (key_of <$> concat l.*2) d =
    Ok (finish <$> l, d && forallb (fun x => (mixin <=? length (rr_ring x.1))%nat && forallb (fun r => unlocked (key_of r)) x.2) l).
Proof.
  intros Hl. revert d. induction Hl as [|[ring kept] l (dn & E & Hd & _) _ IH]; intros d; cbn; [by rewrite andb_true_r|].
  cbn in E, Hd. apply entries_unlocked in Hd as Hd'. rewrite E, fmap_app, take_keys_done, take_keys_asked by done. cbn.
  rewrite IH. cbn. rewrite <- E. rewrite (finish_eq (ring, kept) dn E Hd'). cbn. do 2 f_equal. by rewrite !andb_assoc.
Qed.

Lemma answered_index_sub kept i : i ∈ ro_index <$> answered kept -> i ∈ or_index <$> kept.
Proof.
  unfold answered. rewrite <- list_fmap_compose. intros (r & -> & Hr)%list_elem_of_fmap.
  apply list_elem_of_fmap. exists r. split; [done|]. apply list_elem_of_In, List.filter_In in Hr as [Hr _].
  by apply list_elem_of_In.
Qed.

Lemma answered_ok amount kept : Forall (ref_ok p histograms amount) kept -> Forall (entry_ok amount) (answered kept).
Proof.
  intros Hk. apply Forall_fmap, Forall_forall. intros r Hr.
  apply list_elem_of_In, List.filter_In in Hr as [Hr Hu]. apply list_elem_of_In in Hr.
  rewrite Forall_forall in Hk. destruct (Hk r Hr) as [<- Hin]. unfold entry_ok; cbn. by destruct r.
Qed.

Lemma finish_ok x : chosen x -> ring_ok (finish x).
Proof.
  intros (dn & E & Hd & Hk & Hnd & Hlen). rewrite (finish_eq x dn E) by (eapply entries_unlocked, Hd).
  unfold ring_ok; cbn. split_and!.
  - rewrite length_app. unfold answered. rewrite length_fmap.
    pose proof (List.filter_length_le (fun r => unlocked (key_of r)) x.2). lia.
  - rewrite fmap_app. apply NoDup_app in Hnd as (Hn1 & Hn2 & Hn3). apply NoDup_app. split_and!; [done| |].
    + intros i Hi Hi'%answered_index_sub. by apply (Hn2 i).
    + unfold answered. rewrite <- list_fmap_compose. eapply sublist_NoDup; [exact Hn3|].
      apply fmap_sublist, list_filter_sublist.
  - apply Forall_app. split; [done|]. by apply answered_ok.
Qed.

Lemma finish_length x :
  chosen x -> (mixin <=? length (rr_ring x.1))%nat && forallb (fun r => unlocked (key_of r)) x.2 = true ->
  length (rr_ring (finish x)) = mixin.
Proof.
  intros (dn & E & Hd & Hk & Hnd & Hlen) [Hm Hu]%andb_true_iff. apply Nat.leb_le in Hm.
  rewrite (finish_eq x dn E) by (eapply entries_unlocked, Hd). cbn. rewrite E, length_app, length_fmap in Hm.
  rewrite length_app. unfold answered. rewrite length_fmap.
  assert (List.filter (fun r => unlocked (key_of r)) x.2 = x.2) as ->; [|lia].
  clear -Hu. induction x.2 as [|r l IH]; [done|]. cbn in *. apply andb_true_iff in Hu as [-> Hu]. by rewrite IH.
Qed.

Section filling.
Context (fetch : list output_ref -> W -> expect (list output_keys) * W).
(** The daemon answers every output it is asked for, in order. *)
Hypothesis fetch_answers : forall refs w result w',
  fetch refs w = (Ok result, w') -> length result = length refs -> result = key_of <$> refs.

Definition filled (rings out : list random_ring) : Prop :=
  Forall (fun ring => ring_ok ring /\ length (rr_ring ring) = mixin) out /\
  (rr_amount <$> out) `sublist_of` (rr_amount <$> rings) /\
  List.filter (enough p histograms mixin) (rr_amount <$> rings) `sublist_of` (rr_amount <$> out).

Lemma filled_step rings l out :
  selection rings l -> filled (finish <$> l) out -> filled rings out.
Proof.
  intros (_ & H1 & H2) (Ho & H3 & H4).
  assert (rr_amount <$> (finish <$> l) = rr_amount <$> l.*1) as E by (rewrite <- !list_fmap_compose; done).
  rewrite E in H3, H4. split_and!; [done|by etransitivity|].
  etransitivity; [|exact H4]. rewrite <- (list_filter_idemp _ (rr_amount <$> rings)). by apply list_filter_mono.
Qed.

Lemma finished rings l :
  selection rings l ->
  forallb (fun x => (mixin <=? length (rr_ring x.1))%nat && forallb (fun r => unlocked (key_of r)) x.2) l = true ->
  filled rings (finish <$> l).
Proof.
  intros Hsel Hall. apply (filled_step rings l); [done|]. destruct Hsel as (Hc & _). split_and!; [|done|apply list_filter_sublist].
  apply Forall_fmap, Forall_forall. intros x Hx. rewrite Forall_forall in Hc. rewrite forallb_forall in Hall.
  split; [by apply finish_ok, Hc|]. apply finish_length; [by apply Hc|]. by apply Hall, list_elem_of_In.
Qed.

Lemma fill_rings_sat tries rings :
  Forall ring_ok rings -> sat (fill_rings fetch tries fuel mixin p histograms rings) (filled rings) (fun _ => True).
Proof.
  revert rings. induction tries as [|tries IH]; intros rings Hr; cbn [fill_rings]; [by apply sat_fail|].
  eapply sat_bind; [by apply select_rings_sat|]. intros st (l & -> & Hsel). cbn [fst snd].
  destruct (l.*1) as [|r0 rs] eqn:El.
  { apply sat_ret. destruct l as [|x l]; [|done]. destruct Hsel as (_ & H1 & H2). by split_and!. }
  rewrite <- El. clear r0 rs El.
  eapply (sat_bind _ _ (fun result => length result = length (concat l.*2) -> result = key_of <$> concat l.*2)).
  { apply sat_lift. intros w. destruct (fetch (concat l.*2) w) as [[result|e] w'] eqn:Ef; [|done].
    cbn. by apply fetch_answers with w w'. }
  intros result Hres. destruct (negb _) eqn:Hl; [by apply sat_fail|].
  apply negb_false_iff, Nat.eqb_eq in Hl. rewrite Hres by done.
  pose proof (proj1 Hsel) as Hc. rewrite take_all_keys_chosen by done. cbn [andb].
  destruct (forallb _ l) eqn:Hdone.
  - apply sat_ret. by apply finished.
  - eapply sat_weaken; [apply IH| |done].
    + apply Forall_fmap. eapply Forall_impl; [exact Hc|]. apply finish_ok.
    + intros out Hout. by apply (filled_step rings l).
Qed.
End filling.
End selection.
End rings.

(** What the rings for [amounts] satisfy. *)
Definition rings_ok {fp : Doubles} {config : MoneroConfig} {keys_of_daemon : OutputKeys} (key_of : output_ref -> output_keys)
    (mixin : nat) (amounts : list Z) (p : gamma_picker) (histograms : list histogram) (rings : list random_ring) : Prop :=
  (rr_amount <$> rings) `sublist_of` amounts /\
  List.filter (enough p (std_sort by_amount histograms) mixin) amounts `sublist_of` (rr_amount <$> rings) /\
  forall ring, ring ∈ rings ->
    length (rr_ring ring) = mixin /\ NoDup (ro_index <$> rr_ring ring) /\
    forall o, o ∈ rr_ring ring ->
      unlocked (ro_keys o) = true /\ ro_keys o = key_of (OutputRef (rr_amount ring) (ro_index o)) /\
      in_supply p histograms (rr_amount ring) (ro_index o).

Lemma pick_rings {fp : Doubles} {config : MoneroConfig} {keys_of_daemon : OutputKeys} {W : Type} {random : Random W}
    fetch (key_of : output_ref -> output_keys) fuel mixin amounts (p : gamma_picker) histograms (w : W) :
  offsets_ok p ->
  (forall refs w result w', fetch refs w = (Ok result, w') -> length result = length refs -> result = key_of <$> refs) ->
  (0 < mixin)%nat -> amounts <> [] ->
  match pick_random_outputs fetch fuel mixin amounts p histograms w with
  | Some (Ok rings, _) => rings_ok key_of mixin amounts p histograms rings
  | Some (Err _, _) => True
  | None => ~ forall hist, hist ∈ histograms -> accepts_within fuel hist
  end.
Proof.
  intros Ho Hf Hm Hne. unfold pick_random_outputs.
  destruct mixin as [|m]; [lia|]. destruct amounts as [|a0 am]; [done|].
  set (amounts := a0 :: am). set (mixin := S m). set (sorted := std_sort by_amount histograms).
  destruct (negb _); [done|].
  assert (forall hist, hist ∈ sorted <-> hist ∈ histograms) as Hin by (intros hist; unfold sorted; by rewrite (std_sort_perm by_amount histograms)).
  pose proof (fill_rings_sat (forall hist, hist ∈ histograms -> accepts_within fuel hist) p sorted fuel mixin key_of Ho
    ltac:(intros He hist Hh; by apply He, Hin) fetch Hf 64 (RandomRing [] <$> amounts)
    ltac:(apply Forall_fmap, Forall_forall; intros a _; split_and!; cbn; [lia|constructor|constructor]) w) as H.
  destruct (fill_rings _ _ _ _ _ _ _ w) as [[[rings|e] w']|]; [|done..]. destruct H as (Hr & H1 & H2).
  rewrite <- list_fmap_compose in H1, H2. assert ((rr_amount ∘ RandomRing []) <$> amounts = amounts) as Eam by (unfold amounts; cbn; f_equal; apply list_fmap_id).
  rewrite Eam in H1, H2. split_and!; [done|done|]. intros ring Hring. rewrite Forall_forall in Hr.
  destruct (Hr ring Hring) as [(_ & Hnd & Hok) Hlen]. split_and!; [done|done|]. intros o Hoo.
  rewrite Forall_forall in Hok. destruct (Hok o Hoo) as (Hu & Hk & Hs). split_and!; [done|done|].
  unfold in_supply in *. destruct (_ =? 0); [done|]. destruct Hs as (hist & Hh & Hs). exists hist. by rewrite <- Hin.
Qed.

(** [pick_random_outputs] returns, provided the random numbers let every
    triangular draw succeed within [fuel] attempts. When it succeeds, the rings
    are for a part of the amounts, in their order, and only amounts without
    enough outputs are missing. Every ring has exactly [mixin] outputs, no two
    the same; each was in the supply of its amount, and carries the keys the
    daemon gave for it, reported as unlocked. *)
Theorem pick_random_outputs_rings {fp : Doubles} {config : MoneroConfig} {keys_of_daemon : OutputKeys} {W : Type} {random : Random W}
    fetch (key_of : output_ref -> output_keys) fuel mixin amounts (p : gamma_picker) histograms (w : W) :
  offsets_ok p ->
  (forall hist, hist ∈ histograms -> accepts_within fuel hist) ->
  (forall refs w result w', fetch refs w = (Ok result, w') -> length result = length refs -> result = key_of <$> refs) ->
  (0 < mixin)%nat -> amounts <> [] ->
  exists r w', pick_random_outputs fetch fuel mixin amounts p histograms w = Some (r, w') /\
    forall rings, r = Ok rings ->
      (rr_amount <$> rings) `sublist_of` amounts /\
      List.filter (enough p (std_sort by_amount histograms) mixin) amounts `sublist_of` (rr_amount <$> rings) /\
      forall ring, ring ∈ rings ->
        length (rr_ring ring) = mixin /\ NoDup (ro_index <$> rr_ring ring) /\
        forall o, o ∈ rr_ring ring ->
          unlocked (ro_keys o) = true /\ ro_keys o = key_of (OutputRef (rr_amount ring) (ro_index o)) /\
          in_supply p histograms (rr_amount ring) (ro_index o).
Proof.
  intros Ho Ha Hf Hm Hne. pose proof (pick_rings fetch key_of fuel mixin amounts p histograms w Ho Hf Hm Hne) as H.
  destruct (pick_random_outputs _ _ _ _ _ _ w) as [[r w']|]; [|done]. exists r, w'. split; [done|]. by intros rings ->.
Qed.
End Rings.

(** ** A concrete run *)
Module RandomSample.
Import Gamma Rings.

(** Fixed-point numbers with three digits. *)
#[local] Instance fixed_point : Doubles := {
  double := Z;
  double_of n := n * 1000;
  double_lit d k := d * 1000 / 10 ^ k;
  double_mul a b := a * b / 1000;
  double_div a b := a * 1000 / b;
  double_sub a b := a - b;
  double_lt a b := a <? b;
  double_exp a := a;
  double_sqrt a := Z.sqrt (a * 1000);
  u64_of_double a := u64 (a / 1000);
  u64_of_double_range a := u64_range (a / 1000)
}.

#[local] Instance config : MoneroConfig :=
  { DIFFICULTY_TARGET_V2 := 120; CRYPTONOTE_DEFAULT_TX_SPENDABLE_AGE := 2;
    target_v2_positive := eq_refl; spendable_age_positive := Nat.lt_0_succ 1 }.

Lemma counter_range n w : 0 < n -> 0 <= (w mod n, w + 1).1 < n.
Proof. intros. cbn. by apply Z.mod_pos_bound. Qed.

(** The world is a counter that every draw moves on. *)
#[local] Instance counter : Random Z := {
  gamma_draw _ _ w := (w mod 7 * 100000, w + 1);
  rand_idx n w := (w mod n, w + 1);
  rand_u64 w := (w mod 4 * 2 ^ 51, w + 1);
  rand_idx_range := counter_range
}.

#[local] Instance keys : OutputKeys :=
  { output_keys := Z * bool; unlocked := snd; no_keys := (0, false); no_keys_locked := eq_refl }.

Definition picker : gamma_picker := make_picker [3; 6; 9; 12; 15].
Definition histograms : list histogram := [Histogram 9 5 1; Histogram 7 10 8].
Definition key_of (r : output_ref) : Z * bool := (or_amount r * 100 + or_index r, negb (or_index r mod 5 =? 4)).
Definition daemon (refs : list output_ref) (w : Z) : expect (list (Z * bool)) * Z := (Ok (key_of <$> refs), w).

Lemma picker_ok : is_valid picker = true /\ offsets_ok picker.
Proof. split; [reflexivity|]. split; repeat constructor; unfold in_u64, u64_max; lia. Qed.

Lemma nth_draw_counter k w : nth_draw k w = (w + Z.of_nat k) mod 4 * 2 ^ 51.
Proof.
  revert w. induction k as [|k IH]; intros w; cbn [nth_draw]; [by rewrite Z.add_0_r|].
  cbn [rand_u64 counter snd]. rewrite IH. do 2 f_equal. lia.
Qed.

Lemma histograms_accept hist : hist ∈ histograms -> accepts_within 4 hist.
Proof.
  intros Hh w. exists (Z.to_nat ((- w) mod 4)). pose proof (Z.mod_pos_bound (- w) 4 ltac:(lia)). split; [lia|].
  rewrite nth_draw_counter, Z2Nat.id by lia. rewrite Z.add_mod_idemp_r, Z.add_opp_diag_r by lia.
  unfold histograms in Hh. rewrite !elem_of_cons in Hh. destruct Hh as [->|[->|Hh]]; [vm_compute; discriminate..|by apply elem_of_nil in Hh].
Qed.

Lemma daemon_answers refs w result w' :
  daemon refs w = (Ok result, w') -> length result = length refs -> result = key_of <$> refs.
Proof. by intros [= <- _] _. Qed.

(** An applied instance of [pick_is_spendable]: the third attempt falls into
    the spendable range. *)
Lemma pick_is_spendable_witness :
  exists i b, (pick picker 1).1 = Ok i /\ 0 <= i < 12 /\ in_block picker i b.
Proof.
  destruct picker_ok as [Hv Ho]. pose proof (pick_is_spendable picker 1 Hv Ho) as H.
  destruct (pick picker 1).1 as [i|e] eqn:E.
  - destruct H as (Hi & b & _ & Hb). exists i, b. split; [reflexivity|]. split; [exact Hi|exact Hb].
  - vm_compute in E. discriminate.
Defined.

Definition filled_rings : option (expect (list random_ring) * Z) :=
  pick_random_outputs daemon 4 2 [0; 9; 7] picker histograms 1.
Definition sample_rings : list random_ring := match filled_rings with Some (Ok l, _) => l | _ => [] end.
Lemma filled_rings_eq : filled_rings = Some (Ok sample_rings, 11).
Proof. vm_compute. reflexivity. Qed.

(** An applied instance of [pick_random_outputs_rings]: the amount 9 has not
    enough outputs, and an output at the unlocked count itself is accepted. *)
Lemma pick_random_outputs_rings_witness :
  (rr_amount <$> sample_rings) = [0; 7] /\
  (forall ring, ring ∈ sample_rings -> length (rr_ring ring) = 2%nat /\ NoDup (ro_index <$> rr_ring ring) /\
    forall o, o ∈ rr_ring ring -> unlocked (ro_keys o) = true).
Proof.
  split; [vm_compute; reflexivity|].
  destruct (pick_random_outputs_rings (keys_of_daemon := keys) daemon key_of 4 2 [0; 9; 7] picker histograms 1
    (proj2 picker_ok) histograms_accept daemon_answers ltac:(lia) ltac:(discriminate)) as (r & w' & E & H).
  pose proof filled_rings_eq as E'. unfold filled_rings in E'. rewrite E' in E. injection E as <- <-.
  destruct (H sample_rings eq_refl) as (_ & _ & Hr). intros ring Hring. destruct (Hr ring Hring) as (H1 & H2 & H3).
  split; [exact H1|]. split; [exact H2|]. intros o Ho. exact (proj1 (H3 o Ho)).
Defined.
End RandomSample.
