(* ===== verification/OwnershipTest.v ===== *)
(** src/util/ownership_test.cpp and src/util/transactions.cpp: the test of a
    transaction against accounts. For every account it reports the key images
    that may spend one of its outputs and the outputs it receives, through two
    callbacks. Module [Crypto] holds the decryption of amounts and payment ids,
    module [Reader] the lookup of subaddresses, module [Ownership] the test, its
    specification, the refinement of one by the other where the test does not write,
    and what holds of every output that is reported. *)

From S2P Require Import Prelude Data Account Lmdb Tables Subaddress.

(** A ringct commitment opening, as the transaction carries it. *)
Record ecdh_tuple := EcdhTuple { ecdh_mask : rct_key; ecdh_amount : rct_key }.

Inductive txin : Type :=
| txin_gen
| txin_to_key (amount : Z) (key_offsets : list Z) (k_image : key_image_t)
| txin_other.

(** [cryptonote::transaction]: the parts that are read. An output's target is
    kept as the number that identifies it. *)
Record txout := TxOut { vout_amount : Z; vout_target : Z }.
Record transaction := Transaction {
  tx_version : Z;
  tx_unlock_time : Z;
  tx_vin : list txin;
  tx_vout : list txout;
  tx_extra : list Z;
  rct_type : Z;
  rct_out_pk : list rct_key;
  rct_ecdh_info : list ecdh_tuple
}.

(** The functions of the monero libraries the code calls. *)
Class WalletCrypto := {
  key_derivation : Type;
  derivation_bytes : key_derivation -> list Z;
  find_tx_pub_key : list Z -> option public_key;
  find_extra_nonce : list Z -> option (list Z);
  find_additional_pub_keys : list Z -> list public_key;
  get_payment_id : list Z -> option Z;
  get_encrypted_payment_id : list Z -> option hash8;
  generate_key_derivation : public_key -> secret_key -> option key_derivation;
  get_output_public_key : txout -> option public_key;
  get_output_view_tag : txout -> option Z;
  out_can_be_to_acc : option Z -> key_derivation -> nat -> bool;
  derive_subaddress_public_key : public_key -> key_derivation -> nat -> option public_key;
  get_transaction_hash : transaction -> hash;
  get_transaction_prefix_hash : transaction -> hash;
  get_tx_fee : transaction -> Z;
  HASH_KEY_ENCRYPTED_PAYMENT_ID : Z;
  cn_fast_hash : list Z -> hash;
  derivation_to_scalar : key_derivation -> nat -> secret_key;
  ecdhDecode : ecdh_tuple -> secret_key -> bool -> ecdh_tuple;
  addKeys2 : rct_key -> rct_key -> rct_key -> rct_key;
  rct_H : rct_key;
  rct_identity : rct_key;
  h2d : rct_key -> option Z;
  RCTTypeBulletproof2 : Z
}.

(** ** src/util/transactions.cpp *)
Module Crypto.
Section crypto.
Context {WC : WalletCrypto}.

Definition decrypt_payment_id (out : hash8) (key : key_derivation) : hash8 :=
  let hash := cn_fast_hash (derivation_bytes key ++ [HASH_KEY_ENCRYPTED_PAYMENT_ID]) in
  be_decode (zip_with Z.lxor (be_bytes 8 out) (take 8 (be_bytes 32 hash))).

Definition decode_amount (commitment : rct_key) (info : ecdh_tuple) (sk : key_derivation) (index : nat)
    (bulletproof2 : bool) : option (Z * rct_key) :=
  let scalar := derivation_to_scalar sk index in
  let copy := ecdhDecode info scalar bulletproof2 in
  let Ctmp := addKeys2 (ecdh_mask copy) (ecdh_amount copy) rct_H in
  if commitment =? Ctmp then
    match h2d (ecdh_amount copy) with
    | Some out => Some (out, ecdh_mask copy)
    | None => None
    end
  else None.

(** Encryption and decryption of a payment id are the same operation. *)
Lemma decrypt_payment_id_involutive out key :
  (forall l, 0 <= cn_fast_hash l < 256 ^ 32) -> 0 <= out < 256 ^ 8 ->
  decrypt_payment_id (decrypt_payment_id out key) key = out.
Proof.
  intros Hh Ho. unfold decrypt_payment_id. set (h := take 8 _).
  assert (Forall is_byte h) as Hb by (unfold h; apply Forall_take, be_bytes_byte).
  assert (length h = 8%nat) as Hl by (unfold h; rewrite length_take, length_be_bytes; done).
  rewrite be_bytes_decode.
  - rewrite <- (be_decode_bytes_small 8 out) at 2 by done. f_equal.
    pose proof (length_be_bytes 8 out) as Hlo. revert Hl Hlo. generalize (be_bytes 8 out). clear.
    generalize 8%nat. induction h as [|a h IH]; intros n [|b l]; cbn; try (intros; lia); [done|].
    intros Hl Hlo. rewrite Z.lxor_assoc, Z.lxor_nilpotent, Z.lxor_0_r. f_equal. apply (IH (pred n)); lia.
  - apply lxor_bytes; [apply be_bytes_byte|done].
  - rewrite length_zip_with, length_be_bytes. lia.
Qed.
End crypto.
End Crypto.

(** ** [subaddress_reader] *)
Module Reader.
Section reader.
Context {LM : Lmdb} {SC : SubaddressCrypto}.
(** Opening a read transaction gives the current content, or an error. *)
Context (start_read : tables -> expect tables).

(** [reader] and [borrowed] are read transactions: what the database held when
    they were opened. [disk] is set when the reader has a database of its own. *)
Record subaddress_reader := SubaddressReader {
  sr_reader : option tables;
  sr_borrowed : option tables;
  sr_disk : bool;
  sr_max_subaddresses : Z
}.

Definition get_reader (sr : subaddress_reader) : option tables :=
  match sr_borrowed sr with
  | Some t => Some t
  | None => sr_reader sr
  end.

Definition with_reader (r : option tables) (sr : subaddress_reader) : subaddress_reader :=
  SubaddressReader r (sr_borrowed sr) (sr_disk sr) (sr_max_subaddresses sr).

Definition update_reader (db : tables) (sr : subaddress_reader) : subaddress_reader :=
  with_reader (match start_read db with Ok t => Some t | Err _ => None end) sr.

(** The two constructors. *)
Definition make_reader (db : tables) (max_subaddresses_ : Z) : subaddress_reader :=
  update_reader db (SubaddressReader None None true max_subaddresses_).
Definition borrow_reader (borrowed : tables) : subaddress_reader := SubaddressReader None (Some borrowed) false 0.

Definition find_subaddress (user : Account.state) (pubkey : public_key) (sr : subaddress_reader) : expect address_index :=
  match get_reader sr with
  | None => Err (mdb_err MDB_NOTFOUND)
  | Some t => Subaddress.find_subaddress (Account.id user) pubkey t
  end.

Definition update_lookahead (user : Account.state) (match_ : address_index) (height : block_id)
    (sr : subaddress_reader) (db : tables) : expect unit * subaddress_reader * tables :=
  if is_zero match_ then (Ok tt, sr, db)
  else if negb (sr_disk sr) then (Ok tt, sr, db)
  else
    let height := if height =? block_id_txpool then Account.scan_height user else height in
    let sr := with_reader None sr in
    match Account.db_address user with
    | Err e => (Err e, sr, db)
    | Ok address =>
      match Subaddress.update_lookahead address height match_ (sr_max_subaddresses sr) db with
      | Err e => (Err e, update_reader db sr, db)
      | Ok (upserted, db) =>
        (if upserted <? 0 then Err (lws_err max_subaddresses) else Ok tt, update_reader db sr, db)
      end
    end.
End reader.
End Reader.

(** ** [ownership_test] *)
Module Ownership.
Import Crypto.

Section ownership.
Context {WC : WalletCrypto} {LM : Lmdb} {SC : SubaddressCrypto} (start_read : tables -> expect tables).

(** The callbacks may change the account they are given, and a state of their
    own. *)
Context {S : Type}.
Context (on_spend : Account.state -> spend -> S -> Account.state * S).
Context (on_output : Account.state -> output -> option tables -> S -> Account.state * S).

Record env := Env { e_subaddress : option Reader.subaddress_reader; e_db : tables; e_calls : S }.

Definition enable_subaddresses (max_subaddresses_ : Z) (e : env) : env :=
  Env (Some (Reader.make_reader start_read (e_db e) max_subaddresses_)) (e_db e) (e_calls e).
Definition enable_borrowed (reader : tables) (e : env) : env :=
  Env (Some (Reader.borrow_reader reader)) (e_db e) (e_calls e).
Definition disable_subaddresses (e : env) : env := Env None (e_db e) (e_calls e).
Definition get_reader (e : env) : option tables :=
  match e_subaddress e with Some sr => Reader.get_reader sr | None => None end.

(** A piece of the test: it may throw, and what it did before stays done. *)
Definition act (A : Type) : Type := env -> expect A * env.
Definition ret {A} (a : A) : act A := fun e => (Ok a, e).
Definition throw {A} (err : error) : act A := fun e => (Err err, e).
Definition bind {A B} (m : act A) (f : A -> act B) : act B := fun e =>
  match m e with
  | (Ok a, e) => f a e
  | (Err err, e) => (Err err, e)
  end.
Definition of_expect {A} (m : expect A) : act A := fun e => (m, e).
Definition at_ {A} (l : list A) (i : nat) : act A :=
  match l !! i with Some x => ret x | None => throw out_of_range end.

(** What is read from the transaction before the accounts are looked at. *)
Record parsed := Parsed {
  p_height : block_id;
  p_timestamp : Z;
  p_hash : hash;
  p_tx : transaction;
  p_out_ids : list Z;
  p_key : public_key;
  p_nonce : option (list Z);
  p_unencrypted : Z * Z;
  p_additional : list public_key
}.

Definition parse (height : block_id) (timestamp : Z) (tx_hash : option hash) (tx : transaction) (out_ids : list Z)
    (subaddress : bool) : option parsed :=
  match find_tx_pub_key (tx_extra tx) with
  | None => None
  | Some key =>
    let nonce := find_extra_nonce (tx_extra tx) in
    let unencrypted :=
      match nonce with
      | Some n => match get_payment_id n with Some long => (32, long) | None => (0, 0) end
      | None => (0, 0)
      end in
    let additional := if subaddress then find_additional_pub_keys (tx_extra tx) else [] in
    Some (Parsed height timestamp (default (get_transaction_hash tx) tx_hash) tx out_ids key nonce unencrypted additional)
  end.

(** ** Inputs *)

Definition make_spend (t : parsed) (amount : Z) (k_image : key_image_t) (goffset mixin : Z) (recipient : address_index) : spend :=
  Spend (TransactionLink (p_height t) (p_hash t)) k_image (OutputId amount goffset) (p_timestamp t)
    (tx_unlock_time (p_tx t)) mixin (p_unencrypted t).1 (p_unencrypted t).2 recipient.

Definition call_spend (user : Account.state) (s : spend) : act Account.state := fun e =>
  let '(user, c) := on_spend user s (e_calls e) in (Ok user, Env (e_subaddress e) (e_db e) c).

Fixpoint scan_offsets (t : parsed) (amount : Z) (k_image : key_image_t) (mixin goffset : Z) (offsets : list Z)
    (user : Account.state) : act Account.state :=
  match offsets with
  | [] => ret user
  | offset :: offsets =>
    let goffset := u64 (goffset + offset) in
    match Account.get_spendable (OutputId amount goffset) user with
    | None => scan_offsets t amount k_image mixin goffset offsets user
    | Some index =>
      bind (call_spend user (make_spend t amount k_image goffset mixin index))
        (scan_offsets t amount k_image mixin goffset offsets)
    end
  end.

Definition ring_mixin (offsets : list Z) : Z := Z.max 1 (Z.of_nat (length offsets)) - 1.

(** The state of the loop over the inputs: mixin, flags, account. *)
Fixpoint scan_inputs (t : parsed) (vin : list txin) (mixin ext : Z) (user : Account.state)
    : act (Z * Z * Account.state) :=
  match vin with
  | [] => ret (mixin, ext, user)
  | txin_to_key amount offsets k_image :: vin =>
    let mixin := ring_mixin offsets in
    if u32_max <? mixin then throw bad_numeric_cast
    else bind (scan_offsets t amount k_image mixin 0 offsets user) (scan_inputs t vin mixin ext)
  | txin_gen :: vin => scan_inputs t vin mixin (Z.lor ext coinbase_output) user
  | txin_other :: vin => scan_inputs t vin mixin ext user
  end.

(** ** Outputs *)

(** The derivations of the additional keys, or none when there is not one per
    output or one of them fails. *)
Definition additional_derivations (t : parsed) (view : secret_key) (subaddress : bool) : list key_derivation :=
  if subaddress && (length (p_additional t) =? length (tx_vout (p_tx t)))%nat then
    default [] (mapM (fun k => generate_key_derivation k view) (p_additional t))
  else [].

(** The loop of two attempts, with the derivation and key of each. *)
Fixpoint find_account (attempts : list (key_derivation * public_key)) (out_pub_key : public_key) (index : nat)
    (height : block_id) (user : Account.state) : act (option (key_derivation * public_key * address_index)) :=
  match attempts with
  | [] => ret None
  | (active_derivation, active_pub) :: attempts =>
    match derive_subaddress_public_key out_pub_key active_derivation index with
    | None => find_account attempts out_pub_key index height user
    | Some derived_pub =>
      bind (of_expect (Account.get_spend_public user)) (fun spend_public_ =>
      if spend_public_ =? derived_pub then ret (Some (active_derivation, active_pub, address_index_primary))
      else fun e =>
        match e_subaddress e with
        | None => find_account attempts out_pub_key index height user e
        | Some sr =>
          match Reader.find_subaddress user derived_pub sr with
          | Err _ => find_account attempts out_pub_key index height user e
          | Ok match_ =>
            let '(_, sr, db) := Reader.update_lookahead start_read user match_ height sr (e_db e) in
            (Ok (Some (active_derivation, active_pub, match_)), Env (Some sr) db (e_calls e))
          end
        end)
    end
  end.

Definition call_output (user : Account.state) (o : output) : act Account.state := fun e =>
  let '(user, c) := on_output user o (get_reader e) (e_calls e) in (Ok user, Env (e_subaddress e) (e_db e) c).

(** Amount and mask of an output, if it is in the clear or can be decrypted. *)
Definition output_amount (tx : transaction) (ext : Z) (derivation : key_derivation) (index : nat) (amount : Z)
    : act (option (Z * rct_key)) :=
  if (amount =? 0) && negb (has_flag ext coinbase_output) && (1 <? tx_version tx) then
    let bulletproof2 := RCTTypeBulletproof2 <=? rct_type tx in
    bind (at_ (rct_out_pk tx) index) (fun mask =>
    bind (at_ (rct_ecdh_info tx) index) (fun info => ret (decode_amount mask info derivation index bulletproof2)))
  else ret (Some (amount, rct_identity)).

Definition output_payment_id (t : parsed) (derivation : key_derivation) (payment_id : Z * Z) : Z * Z :=
  match p_nonce t with
  | Some nonce =>
    if payment_id.1 =? 0 then
      match get_encrypted_payment_id nonce with
      | Some short => (8, set_payment_id_short payment_id.2 (decrypt_payment_id short derivation))
      | None => payment_id
      end
    else payment_id
  | None => payment_id
  end.

Definition ringct_flags (tx : transaction) (ext : Z) : Z :=
  if 1 <? tx_version tx then Z.lor ext ringct_output else ext.

Definition make_output (t : parsed) (mixin ext : Z) (payment_id : Z * Z) (out_pub_key : public_key) (index : nat)
    (found : key_derivation * public_key * address_index) (vout : txout) (amount_mask : Z * rct_key) (out_id : Z) : output :=
  let tx := p_tx t in
  Output (TransactionLink (p_height t) (p_hash t))
    (SpendMeta (OutputId (if tx_version tx <? 2 then vout_amount vout else 0) out_id) amount_mask.1 mixin
      (Z.of_nat index) found.1.2)
    (p_timestamp t) (tx_unlock_time tx) (get_transaction_prefix_hash tx) out_pub_key amount_mask.2
    (pack ext payment_id.1) payment_id.2 (get_tx_fee tx) found.2.

(** The state of the loop over the outputs: flags, payment id, account. *)
Definition output_state : Type := Z * (Z * Z) * Account.state.

(** The body of the loop for output number [index]. *)
Definition scan_output (t : parsed) (derived : key_derivation) (additional : list key_derivation) (mixin : Z)
    (index : nat) (vout : txout) (st : output_state) : act output_state :=
  let '(ext, payment_id, user) := st in
  let tx := p_tx t in
  match get_output_public_key vout with
  | None => ret st
  | Some out_pub_key =>
    let view_tag := get_output_view_tag vout in
    let extra := match additional !! index, p_additional t !! index with Some d, Some k => [(d, k)] | _, _ => [] end in
    let matched :=
      existsb (fun d => out_can_be_to_acc view_tag d.1 index) extra || out_can_be_to_acc view_tag derived index in
    if negb matched then ret st
    else
      bind (find_account ((derived, p_key t) :: extra) out_pub_key index (p_height t) user) (fun found =>
      match found with
      | None => ret st
      | Some found =>
        bind (output_amount tx ext found.1.1 index (vout_amount vout)) (fun amount_mask =>
        match amount_mask with
        | None => ret st
        | Some amount_mask =>
          let ext := ringct_flags tx ext in
          let payment_id := output_payment_id t found.1.1 payment_id in
          bind (at_ (p_out_ids t) index) (fun out_id =>
          if u32_max <? Z.of_nat index then throw bad_numeric_cast
          else
            bind (call_output user (make_output t mixin ext payment_id out_pub_key index found vout amount_mask out_id))
              (fun user => ret (ext, payment_id, user)))
        end)
      end)
  end.

Fixpoint scan_outputs (t : parsed) (derived : key_derivation) (additional : list key_derivation) (mixin : Z)
    (index : nat) (vouts : list txout) (st : output_state) : act output_state :=
  match vouts with
  | [] => ret st
  | vout :: vouts =>
    bind (scan_output t derived additional mixin index vout st)
      (scan_outputs t derived additional mixin (Datatypes.S index) vouts)
  end.

(** ** The accounts *)

Definition scan_user (t : parsed) (user : Account.state) : act Account.state := fun e =>
  if p_height t <=? Account.scan_height user then ret user e
  else
    bind (of_expect (Account.get_view_key user)) (fun view =>
    match generate_key_derivation (p_key t) view with
    | None => ret user
    | Some derived =>
      let additional := additional_derivations t view (is_some_b (e_subaddress e)) in
      bind (scan_inputs t (tx_vin (p_tx t)) 0 0 user) (fun st =>
      let '(mixin, ext, user) := st in
      bind (scan_outputs t derived additional mixin 0 (tx_vout (p_tx t)) (ext, p_unencrypted t, user)) (fun st => ret st.2))
    end) e.

Fixpoint scan_users (t : parsed) (users : list Account.state) : act (list Account.state) :=
  match users with
  | [] => ret []
  | user :: users =>
    bind (scan_user t user) (fun user => bind (scan_users t users) (fun users => ret (user :: users)))
  end.

(** [operator()] *)
Definition scan_transaction (users : list Account.state) (height : block_id) (timestamp : Z) (tx_hash : option hash)
    (tx : transaction) (out_ids : list Z) : act (list Account.state) := fun e =>
  if 2 <? tx_version tx then throw runtime_error e
  else
    match parse height timestamp tx_hash tx out_ids (is_some_b (e_subaddress e)) with
    | None => ret users e
    | Some t => scan_users t users e
    end.

(** ** Specification

    What an account gets from a transaction, said without state. [lookup] finds
    the subaddress of a public key. *)

Inductive event : Type := spent (s : spend) | received (o : output).

(** The absolute output numbers of a ring. *)
Fixpoint absolute (start : Z) (offsets : list Z) : list Z :=
  match offsets with
  | [] => []
  | o :: offsets => u64 (start + o) :: absolute (u64 (start + o)) offsets
  end.

Definition spends_of_input (t : parsed) (user : Account.state) (i : txin) : list spend :=
  match i with
  | txin_to_key amount offsets k_image =>
    omap (fun g => (fun index => make_spend t amount k_image g (ring_mixin offsets) index) <$>
      Account.get_spendable (OutputId amount g) user) (absolute 0 offsets)
  | _ => []
  end.
Definition spends_of (t : parsed) (user : Account.state) : list spend :=
  concat (spends_of_input t user <$> tx_vin (p_tx t)).

Definition is_coinbase (vin : list txin) : bool :=
  existsb (fun i => match i with txin_gen => true | _ => false end) vin.
Definition flags_of (vin : list txin) : Z := if is_coinbase vin then coinbase_output else 0.
(** The mixin of the last ring. *)
Definition mixin_of (vin : list txin) : Z :=
  foldl (fun m i => match i with txin_to_key _ offsets _ => ring_mixin offsets | _ => m end) 0 vin.

Section reference.
Context (t : parsed) (lookup : public_key -> option address_index) (spend_public_ : public_key).
Context (derived : key_derivation) (additional : list key_derivation).

Definition owner (out_pub_key : public_key) (index : nat) (attempt : key_derivation * public_key)
    : option (key_derivation * public_key * address_index) :=
  match derive_subaddress_public_key out_pub_key attempt.1 index with
  | None => None
  | Some D => if spend_public_ =? D then Some (attempt, address_index_primary) else pair attempt <$> lookup D
  end.

Definition attempts (index : nat) : list (key_derivation * public_key) :=
  (derived, p_key t) :: match additional !! index, p_additional t !! index with Some d, Some k => [(d, k)] | _, _ => [] end.

Definition view_tag_matches (vout : txout) (index : nat) : bool :=
  existsb (fun a => out_can_be_to_acc (get_output_view_tag vout) a.1 index) (attempts index).

Definition amount_of (derivation : key_derivation) (index : nat) (amount : Z) : option (Z * rct_key) :=
  let tx := p_tx t in
  if (amount =? 0) && negb (is_coinbase (tx_vin tx)) && (1 <? tx_version tx) then
    match rct_out_pk tx !! index, rct_ecdh_info tx !! index with
    | Some mask, Some info => decode_amount mask info derivation index (RCTTypeBulletproof2 <=? rct_type tx)
    | _, _ => None
    end
  else Some (amount, rct_identity).

Record owned := Owned {
  ow_index : nat;
  ow_vout : txout;
  ow_pub : public_key;
  ow_found : key_derivation * public_key * address_index;
  ow_amount : Z * rct_key
}.

Definition owned_output (index : nat) (vout : txout) : option owned :=
  pub ← get_output_public_key vout;
  if view_tag_matches vout index then
    found ← head (omap (owner pub index) (attempts index));
    amount ← amount_of found.1.1 index (vout_amount vout);
    Some (Owned index vout pub found amount)
  else None.

Definition owned_from (index : nat) (vouts : list txout) : list owned :=
  omap (fun x => x) (imap (fun i => owned_output (index + i)) vouts).

(** The payment id is decrypted with the first output that is owned. *)
Definition payment_id_of (payment_id : Z * Z) (l : list owned) : Z * Z :=
  match l with
  | [] => payment_id
  | o :: _ => output_payment_id t (ow_found o).1.1 payment_id
  end.

Definition output_of (payment_id : Z * Z) (o : owned) : output :=
  make_output t (mixin_of (tx_vin (p_tx t))) (ringct_flags (p_tx t) (flags_of (tx_vin (p_tx t)))) payment_id
    (ow_pub o) (ow_index o) (ow_found o) (ow_vout o) (ow_amount o) (default 0 (p_out_ids t !! ow_index o)).

Definition outputs_of : list output :=
  let l := owned_from 0 (tx_vout (p_tx t)) in output_of (payment_id_of (p_unencrypted t) l) <$> l.
End reference.

(** The events of an account. *)
Definition events_of (t : parsed) (lookup : Account.state -> public_key -> option address_index) (subaddress : bool)
    (user : Account.state) : list event :=
  if p_height t <=? Account.scan_height user then []
  else
    match Account.get_view_key user, Account.get_spend_public user with
    | Ok view, Ok sp =>
      match generate_key_derivation (p_key t) view with
      | None => []
      | Some derived =>
        (spent <$> spends_of t user) ++
        (received <$> outputs_of t (lookup user) sp derived (additional_derivations t view subaddress))
      end
    | _, _ => []
    end.

Definition replay (reader : option tables) (st : Account.state * S) (ev : event) : Account.state * S :=
  match ev with
  | spent s => on_spend st.1 s st.2
  | received o => on_output st.1 o reader st.2
  end.

Fixpoint replay_users (reader : option tables) (events : Account.state -> list event) (users : list Account.state) (c : S)
    : list Account.state * S :=
  match users with
  | [] => ([], c)
  | user :: users =>
    let st := foldl (replay reader) (user, c) (events user) in
    let r := replay_users reader events users st.2 in (st.1 :: r.1, r.2)
  end.

(** ** Refinement *)

Definition with_calls (c : S) (e : env) : env := Env (e_subaddress e) (e_db e) c.

(** The callbacks of a list of events, one after the other. *)
Definition exec (l : list event) (user : Account.state) : act Account.state := fun e =>
  let st := foldl (replay (get_reader e)) (user, e_calls e) l in (Ok st.1, with_calls st.2 e).

Lemma with_calls_self e : with_calls (e_calls e) e = e.
Proof. by destruct e. Qed.

Lemma exec_nil user e : exec [] user e = ret user e.
Proof. unfold exec, ret. cbn. by rewrite with_calls_self. Qed.

Lemma exec_app l1 l2 user e : exec (l1 ++ l2) user e = bind (exec l1 user) (exec l2) e.
Proof. unfold exec, bind. rewrite foldl_app. cbn. by destruct (foldl _ _ l1) as [u c]. Qed.

Lemma exec_spent s l user e : exec (spent s :: l) user e = bind (call_spend user s) (exec l) e.
Proof. unfold exec, bind, call_spend. cbn. by destruct (on_spend user s (e_calls e)) as [u c]. Qed.

Lemma exec_received o l user e : exec (received o :: l) user e = bind (call_output user o) (exec l) e.
Proof. unfold exec, bind, call_output. cbn. by destruct (on_output user o (get_reader e) (e_calls e)) as [u c]. Qed.

Lemma bind_assoc {A B C} (m : act A) (f : A -> act B) (g : B -> act C) e :
  bind (bind m f) g e = bind m (fun a => bind (f a) g) e.
Proof. unfold bind. by destruct (m e) as [[a|err] e']. Qed.

Lemma bind_ext {A B} (m : act A) (f g : A -> act B) e :
  (forall a e', m e = (Ok a, e') -> f a e' = g a e') -> bind m f e = bind m g e.
Proof. intros Hf. unfold bind. destruct (m e) as [[a|err] e'] eqn:E; [by apply Hf|done]. Qed.

Lemma exec_bind {B} l user (f : Account.state -> act B) e :
  bind (exec l user) f e = let st := foldl (replay (get_reader e)) (user, e_calls e) l in f st.1 (with_calls st.2 e).
Proof. done. Qed.

(** A reader that never writes: none, or a borrowed one. *)
Definition quiet (e : env) : Prop :=
  match e_subaddress e with Some sr => Reader.sr_disk sr = false | None => True end.

Definition lookup_in (sub : option Reader.subaddress_reader) (user : Account.state) (key : public_key) : option address_index :=
  match sub with
  | Some sr => match Reader.find_subaddress user key sr with Ok i => Some i | Err _ => None end
  | None => None
  end.

Section refinement.
(** The callbacks leave alone what the test reads of an account. *)
Hypothesis spend_keeps : forall user s c,
  Account.immutable_ (on_spend user s c).1 = Account.immutable_ user /\
  Account.spendable_ (on_spend user s c).1 = Account.spendable_ user.
Hypothesis output_keeps : forall user o r c, Account.immutable_ (on_output user o r c).1 = Account.immutable_ user.

Definition alike (u1 u2 : Account.state) : Prop :=
  Account.immutable_ u1 = Account.immutable_ u2 /\ Account.spendable_ u1 = Account.spendable_ u2.

Lemma exec_spends_alike l user c reader :
  alike (foldl (replay reader) (user, c) (spent <$> l)).1 user.
Proof.
  revert user c. induction l as [|s l IH]; intros user c; cbn; [done|].
  destruct (on_spend user s c) as [u1 c1] eqn:E. pose proof (spend_keeps user s c) as [H1 H2]. rewrite E in H1, H2.
  destruct (IH u1 c1) as [H3 H4]. cbn in *. split; congruence.
Qed.

Lemma scan_offsets_exec t amount k_image mixin offsets g user0 user e :
  alike user user0 ->
  scan_offsets t amount k_image mixin g offsets user e =
    exec (spent <$> omap (fun g => (fun index => make_spend t amount k_image g mixin index) <$>
      Account.get_spendable (OutputId amount g) user0) (absolute g offsets)) user e.
Proof.
  revert g user e. induction offsets as [|o offsets IH]; intros g user e Ha; cbn [scan_offsets absolute omap list_omap]; [by rewrite exec_nil|].
  assert (Account.get_spendable (OutputId amount (u64 (g + o))) user = Account.get_spendable (OutputId amount (u64 (g + o))) user0) as ->.
  { unfold Account.get_spendable. by destruct Ha as [_ ->]. }
  destruct (Account.get_spendable _ user0) as [index|]; cbn; [|by apply IH].
  rewrite exec_spent. apply bind_ext. intros u1 e1 E. apply IH. unfold call_spend in E.
  destruct (on_spend _ _ _) as [u2 c2] eqn:E2. injection E as -> _.
  match type of E2 with on_spend ?u ?s ?c = _ => pose proof (spend_keeps u s c) as [H1 H2] end.
  rewrite E2 in H1, H2. destruct Ha as [H3 H4]. cbn in *. split; congruence.
Qed.

Definition rings_fit (vin : list txin) : Prop :=
  Forall (fun i => match i with txin_to_key _ offsets _ => ring_mixin offsets <= u32_max | _ => True end) vin.

Lemma scan_inputs_exec t vin mixin ext user0 user e :
  rings_fit vin -> alike user user0 ->
  scan_inputs t vin mixin ext user e =
    bind (exec (spent <$> concat (spends_of_input t user0 <$> vin)) user)
      (fun u => ret (foldl (fun m i => match i with txin_to_key _ offsets _ => ring_mixin offsets | _ => m end) mixin vin,
        if is_coinbase vin then Z.lor ext coinbase_output else ext, u)) e.
Proof.
  intros Hfit. revert mixin ext user e. induction Hfit as [|i vin Hi Hfit IH]; intros mixin ext user e Ha.
  { unfold bind. cbn [fmap list_fmap concat]. by rewrite exec_nil. }
  destruct i as [|amount offsets k_image|]; cbn [scan_inputs].
  - rewrite IH by done. cbn. destruct (is_coinbase vin) eqn:Ec; [|done].
    by rewrite <- Z.lor_assoc, Z.lor_diag.
  - destruct (u32_max <? ring_mixin offsets) eqn:Hm; [apply Z.ltb_lt in Hm; lia|].
    cbn [fmap list_fmap concat foldl is_coinbase existsb orb]. rewrite fmap_app. cbn [spends_of_input].
    unfold bind at 1. rewrite (scan_offsets_exec t amount k_image _ _ _ user0) by done.
    rewrite exec_bind, foldl_app. unfold exec at 1.
    match goal with |- context [spent <$> ?l] =>
      pose proof (exec_spends_alike l user (e_calls e) (get_reader e)) as [H1 H2] end.
    destruct (foldl _ _ (spent <$> _)) as [u1 c1]. cbn [fst snd] in *. destruct Ha as [H3 H4].
    rewrite IH by (split; cbn in *; congruence). rewrite exec_bind. done.
  - rewrite IH by done. done.
Qed.

(** The lists that are indexed are long enough, and the numbers fit. *)
Record fits (t : parsed) : Prop := {
  fit_rings : rings_fit (tx_vin (p_tx t));
  fit_index : Z.of_nat (length (tx_vout (p_tx t))) <= u32_max;
  fit_ids : (length (tx_vout (p_tx t)) <= length (p_out_ids t))%nat;
  fit_rct : 1 < tx_version (p_tx t) -> is_coinbase (tx_vin (p_tx t)) = false ->
    (length (tx_vout (p_tx t)) <= length (rct_out_pk (p_tx t)))%nat /\
    (length (tx_vout (p_tx t)) <= length (rct_ecdh_info (p_tx t)))%nat
}.

Section outputs.
Context (t : parsed) (e0 : env) (user0 : Account.state) (sp : public_key) (derived : key_derivation) (additional : list key_derivation).
Hypothesis fit : fits t.
Hypothesis is_quiet : quiet e0.
Hypothesis spend_pub : Account.get_spend_public user0 = Ok sp.

#[local] Abbreviation lookup := (lookup_in (e_subaddress e0) user0).
#[local] Abbreviation vin := (tx_vin (p_tx t)).
#[local] Abbreviation owned_at := (owned_output t lookup sp derived additional).

Lemma find_account_exec attempts pub index height user e :
  Account.immutable_ user = Account.immutable_ user0 -> e_subaddress e = e_subaddress e0 ->
  find_account attempts pub index height user e = (Ok (head (omap (owner lookup sp pub index) attempts)), e).
Proof.
  intros Hu He.
  assert (Account.get_spend_public user = Ok sp) as Hsp.
  { rewrite <- spend_pub. unfold Account.get_spend_public, Account.null_check. by rewrite Hu. }
  assert (Account.id user = Account.id user0) as Hid by (unfold Account.id; by rewrite Hu).
  induction attempts as [|[d k] attempts IH]; [done|]. cbn [find_account omap list_omap]. unfold owner at 1. cbn [fst].
  destruct (derive_subaddress_public_key pub d index) as [D|]; [|exact IH].
  unfold bind at 1, of_expect. rewrite Hsp. destruct (sp =? D); [done|].
  unfold lookup_in at 1. rewrite He. unfold quiet in is_quiet. clear spend_pub.
  revert He IH is_quiet. generalize (e_subaddress e0). intros [sr|] He IH Hq; [|exact IH].
  unfold Reader.find_subaddress. rewrite Hid. fold (Reader.find_subaddress user0 D sr).
  destruct (Reader.find_subaddress user0 D sr) as [i|err]; [|exact IH].
  unfold Reader.update_lookahead. rewrite Hq. cbn [negb].
  destruct e as [sub db calls]. cbn in He. subst sub. destruct (is_zero i); done.
Qed.

Lemma flag_coinbase ext :
  ext = flags_of vin \/ ext = ringct_flags (p_tx t) (flags_of vin) -> has_flag ext coinbase_output = is_coinbase vin.
Proof.
  unfold ringct_flags, flags_of. intros [-> | ->]; destruct (is_coinbase vin); try done; by destruct (1 <? tx_version _).
Qed.

Lemma output_amount_exec ext d index vout e :
  (index < length (tx_vout (p_tx t)))%nat -> has_flag ext coinbase_output = is_coinbase vin ->
  output_amount (p_tx t) ext d index (vout_amount vout) e = (Ok (amount_of t d index (vout_amount vout)), e).
Proof.
  intros Hi Hf. unfold output_amount, amount_of. rewrite Hf.
  destruct ((vout_amount vout =? 0) && negb (is_coinbase vin) && (1 <? tx_version (p_tx t))) eqn:Hc; [|done].
  apply andb_true_iff in Hc as [[_ Hc]%andb_true_iff Hv]. apply negb_true_iff in Hc. apply Z.ltb_lt in Hv.
  destruct (fit_rct t fit Hv Hc) as [H1 H2].
  destruct (lookup_lt_is_Some_2 (rct_out_pk (p_tx t)) index ltac:(lia)) as [mask Em].
  destruct (lookup_lt_is_Some_2 (rct_ecdh_info (p_tx t)) index ltac:(lia)) as [info Ei].
  unfold at_, bind, ret. by rewrite Em, Ei.
Qed.

Lemma ringct_flags_idem ext :
  ext = flags_of vin \/ ext = ringct_flags (p_tx t) (flags_of vin) ->
  ringct_flags (p_tx t) ext = ringct_flags (p_tx t) (flags_of vin).
Proof.
  intros [-> | ->]; [done|]. unfold ringct_flags. destruct (1 <? _); [|done]. by rewrite <- Z.lor_assoc, Z.lor_diag.
Qed.

Lemma scan_output_exec index vout ext pid user e :
  (index < length (tx_vout (p_tx t)))%nat -> ext = flags_of vin \/ ext = ringct_flags (p_tx t) (flags_of vin) ->
  Account.immutable_ user = Account.immutable_ user0 -> e_subaddress e = e_subaddress e0 ->
  scan_output t derived additional (mixin_of vin) index vout (ext, pid, user) e =
    match owned_at index vout with
    | None => ret (ext, pid, user) e
    | Some o =>
      let pid := output_payment_id t (ow_found o).1.1 pid in
      bind (call_output user (output_of t pid o)) (fun u => ret (ringct_flags (p_tx t) (flags_of vin), pid, u)) e
    end.
Proof.
  intros Hi Hext Hu He. unfold scan_output, owned_output.
  destruct (get_output_public_key vout) as [pub|]; cbn [mbind option_bind]; [|done].
  unfold view_tag_matches, attempts. cbn [existsb fst].
  rewrite (orb_comm (out_can_be_to_acc _ derived index)).
  destruct (_ || _); cbn [negb]; [|done].
  unfold bind at 1. rewrite find_account_exec by done.
  destruct (head _) as [found|]; cbn [mbind option_bind]; [|done].
  unfold bind at 1. rewrite output_amount_exec by (done || by apply flag_coinbase).
  destruct (amount_of _ _ _ _) as [am|]; cbn [mbind option_bind]; [|done].
  pose proof (fit_ids t fit) as Hids.
  destruct (lookup_lt_is_Some_2 (p_out_ids t) index ltac:(lia)) as [out_id Eid].
  unfold bind at 1, at_. rewrite Eid. cbn [ret].
  pose proof (fit_index t fit). destruct (u32_max <? Z.of_nat index) eqn:Hb; [apply Z.ltb_lt in Hb; lia|].
  cbn [ow_found]. unfold output_of. cbn [ow_pub ow_index ow_found ow_vout ow_amount]. rewrite Eid. cbn [default].
  by rewrite (ringct_flags_idem ext Hext).
Qed.

Lemma output_payment_id_idem d1 d2 pid : output_payment_id t d2 (output_payment_id t d1 pid) = output_payment_id t d1 pid.
Proof.
  unfold output_payment_id. destruct (p_nonce t) as [n|]; [|done]. destruct (pid.1 =? 0) eqn:E; [|by rewrite E].
  destruct (get_encrypted_payment_id n) as [s|] eqn:Es; [done|]. by rewrite E.
Qed.

Lemma scan_outputs_exec index vouts ext pid user e :
  (index + length vouts = length (tx_vout (p_tx t)))%nat ->
  ext = flags_of vin \/ ext = ringct_flags (p_tx t) (flags_of vin) ->
  Account.immutable_ user = Account.immutable_ user0 -> e_subaddress e = e_subaddress e0 ->
  bind (scan_outputs t derived additional (mixin_of vin) index vouts (ext, pid, user)) (fun st => ret st.2) e =
    let l := owned_from t lookup sp derived additional index vouts in
    exec (received <$> (output_of t (payment_id_of t pid l) <$> l)) user e.
Proof.
  revert index ext pid user e. induction vouts as [|vout vouts IH]; intros index ext pid user e Hlen Hext Hu He.
  { cbn. by rewrite exec_nil. }
  cbn [scan_outputs]. rewrite bind_assoc. unfold bind at 1. rewrite scan_output_exec by (done || cbn in Hlen; lia).
  unfold owned_from. cbn [imap omap list_omap]. rewrite Nat.add_0_r.
  assert (imap ((fun i => owned_at (index + i)) ∘ Datatypes.S) vouts = imap (fun i => owned_at (Datatypes.S index + i)) vouts) as ->.
  { apply imap_ext. intros i x _. cbn. by rewrite Nat.add_succ_r. }
  fold (owned_from t lookup sp derived additional (Datatypes.S index) vouts).
  destruct (owned_at index vout) as [o|].
  - cbn zeta. set (pid' := output_payment_id t (ow_found o).1.1 pid).
    cbn [payment_id_of fmap list_fmap]. fold pid'. rewrite exec_received. unfold bind.
    destruct (call_output user (output_of t pid' o) e) as [[u1|err] e1] eqn:Ec; [|done]. cbn [ret].
    assert (Account.immutable_ u1 = Account.immutable_ user0 /\ e_subaddress e1 = e_subaddress e0) as [Hu1 He1].
    { unfold call_output in Ec. destruct (on_output user _ _ _) as [u2 c2] eqn:Eo. injection Ec as -> <-.
      match type of Eo with on_output ?a ?b ?c ?d = _ => pose proof (output_keeps a b c d) as Hk end.
      rewrite Eo in Hk. cbn in *. split; congruence. }
    match goal with |- match scan_outputs ?a ?b ?c ?d ?f ?g ?h ?i with _ => _ end = _ =>
      change (bind (scan_outputs a b c d f g h) (fun st => ret st.2) i = exec (received <$> (output_of t pid' <$> owned_from t lookup sp derived additional f g)) u1 e1) end.
    rewrite IH by (cbn in Hlen; auto with lia). cbn zeta.
    do 2 f_equal. assert (payment_id_of t pid' (owned_from t lookup sp derived additional (Datatypes.S index) vouts) = pid') as ->; [|done].
    destruct (owned_from _ _ _ _ _ _ _) as [|o2 l]; [done|]. cbn. apply output_payment_id_idem.
  - unfold ret at 1. rewrite IH by (cbn in Hlen; auto with lia). done.
Qed.
End outputs.

Lemma scan_user_exec t user e :
  fits t -> quiet e -> Account.immutable_ user <> None ->
  scan_user t user e = exec (events_of t (lookup_in (e_subaddress e)) (is_some_b (e_subaddress e)) user) user e.
Proof.
  intros Hfit Hq Hu. unfold scan_user, events_of. destruct (p_height t <=? _); [by rewrite exec_nil|].
  destruct (Account.get_view_key user) as [view|] eqn:Ev; [|unfold Account.get_view_key, Account.null_check in Ev; by destruct (Account.immutable_ user)].
  destruct (Account.get_spend_public user) as [sp|] eqn:Ep; [|unfold Account.get_spend_public, Account.null_check in Ep; by destruct (Account.immutable_ user)].
  unfold bind at 1, of_expect. destruct (generate_key_derivation _ _) as [derived|]; [|by rewrite exec_nil].
  unfold bind at 1. rewrite (scan_inputs_exec t _ 0 0 user) by (done || by apply fit_rings).
  rewrite exec_app. unfold spends_of. set (sps := spent <$> concat _).
  unfold bind at 1 3. unfold exec at 1 2.
  pose proof (exec_spends_alike (concat (spends_of_input t user <$> tx_vin (p_tx t))) user (e_calls e) (get_reader e)) as [H1 _].
  fold sps in H1. destruct (foldl _ _ sps) as [u1 c1]. cbn [fst snd] in *. cbn [ret].
  assert ((if is_coinbase (tx_vin (p_tx t)) then Z.lor 0 coinbase_output else 0) = flags_of (tx_vin (p_tx t))) as -> by done.
  fold (mixin_of (tx_vin (p_tx t))).
  rewrite (scan_outputs_exec t e user sp derived _ Hfit Hq Ep 0); auto.
Qed.

Lemma scan_users_exec t users e :
  fits t -> quiet e -> Forall (fun u => Account.immutable_ u <> None) users ->
  scan_users t users e =
    let r := replay_users (get_reader e) (events_of t (lookup_in (e_subaddress e)) (is_some_b (e_subaddress e))) users (e_calls e) in
    (Ok r.1, with_calls r.2 e).
Proof.
  intros Hfit Hq Hu. revert e Hq. induction Hu as [|user users Hu _ IH]; intros e Hq.
  { cbn. by rewrite with_calls_self. }
  cbn [scan_users replay_users]. unfold bind. rewrite scan_user_exec by done. unfold exec.
  set (st := foldl _ _ _). rewrite IH by done. done.
Qed.
End refinement.
End ownership.

Lemma scan_transaction_exec {WC : WalletCrypto} {LM : Lmdb} {SC : SubaddressCrypto} start_read {S : Type}
    (on_spend : Account.state -> spend -> S -> Account.state * S)
    (on_output : Account.state -> output -> option tables -> S -> Account.state * S)
    users height timestamp tx_hash tx out_ids (e : env) :
  (forall user s c,
    Account.immutable_ (on_spend user s c).1 = Account.immutable_ user /\
    Account.spendable_ (on_spend user s c).1 = Account.spendable_ user) ->
  (forall user o r c, Account.immutable_ (on_output user o r c).1 = Account.immutable_ user) ->
  quiet e -> Forall (fun u => Account.immutable_ u <> None) users -> tx_version tx <= 2 ->
  let parsed_tx := parse height timestamp tx_hash tx out_ids (is_some_b (e_subaddress e)) in
  (forall t, parsed_tx = Some t -> fits t) ->
  scan_transaction start_read on_spend on_output users height timestamp tx_hash tx out_ids e =
    match parsed_tx with
    | None => (Ok users, e)
    | Some t =>
      let events := events_of t (lookup_in (e_subaddress e)) (is_some_b (e_subaddress e)) in
      let r := replay_users on_spend on_output (get_reader e) events users (e_calls e) in
      (Ok r.1, with_calls r.2 e)
    end.
Proof.
  intros Hs Ho Hq Hu Hv parsed_tx Hfit. unfold scan_transaction. fold parsed_tx.
  destruct (2 <? tx_version tx) eqn:E; [apply Z.ltb_lt in E; lia|].
  destruct parsed_tx as [t|]; [|done]. apply scan_users_exec; auto.
Qed.

(** C36: the test reports, for every account and in order, exactly what the
    account gets from the transaction: the spends of the rings that contain one
    of its outputs, then the outputs that are its own, with the payment id
    decrypted for this account alone. It holds when the test does not write
    ([quiet]: without subaddresses, or with a borrowed reader), for transactions of
    version 2 at most whose lists are as long as those that index them and whose
    numbers fit ([fits]), accounts that were not moved from, and callbacks that
    leave an account its keys and what it can spend. *)
Theorem scan_transaction_exact {WC : WalletCrypto} {LM : Lmdb} {SC : SubaddressCrypto} start_read {S : Type}
    (on_spend : Account.state -> spend -> S -> Account.state * S)
    (on_output : Account.state -> output -> option tables -> S -> Account.state * S)
    users height timestamp tx_hash tx out_ids (e : env) :
  (forall user s c,
    Account.immutable_ (on_spend user s c).1 = Account.immutable_ user /\
    Account.spendable_ (on_spend user s c).1 = Account.spendable_ user) ->
  (forall user o r c, Account.immutable_ (on_output user o r c).1 = Account.immutable_ user) ->
  quiet e -> Forall (fun u => Account.immutable_ u <> None) users -> tx_version tx <= 2 ->
  let parsed_tx := parse height timestamp tx_hash tx out_ids (is_some_b (e_subaddress e)) in
  (forall t, parsed_tx = Some t -> fits t) ->
  scan_transaction start_read on_spend on_output users height timestamp tx_hash tx out_ids e =
    match parsed_tx with
    | None => (Ok users, e)
    | Some t =>
      let events := events_of t (lookup_in (e_subaddress e)) (is_some_b (e_subaddress e)) in
      let r := replay_users on_spend on_output (get_reader e) events users (e_calls e) in
      (Ok r.1, with_calls r.2 e)
    end.
Proof. apply scan_transaction_exec. Qed.

(** ** What is reported is owned

    This holds whatever the environment does: the readers may write the subaddress
    tables, and any step may throw. *)
Section soundness.
Context {WC : WalletCrypto}.

(** The ways an output's public key was derived. *)
Definition derived_by (t : parsed) (view : secret_key) (tx_public : public_key) (d : key_derivation) : Prop :=
  generate_key_derivation tx_public view = Some d /\ (tx_public = p_key t \/ tx_public ∈ p_additional t).

Lemma attempts_derived t view subaddress derived index a :
  generate_key_derivation (p_key t) view = Some derived ->
  a ∈ attempts t derived (additional_derivations t view subaddress) index -> derived_by t view a.2 a.1.
Proof.
  intros Hd. unfold attempts. rewrite elem_of_cons. intros [->|Ha]; [split; [done|by left]|].
  unfold additional_derivations in Ha.
  destruct (_ && _); [|by apply elem_of_nil in Ha].
  destruct (mapM _ _) as [ds|] eqn:E; [|by apply elem_of_nil in Ha]. cbn in Ha.
  destruct (ds !! index) as [d|] eqn:E1; [|by apply elem_of_nil in Ha].
  destruct (p_additional t !! index) as [k|] eqn:E2; [|by apply elem_of_nil in Ha].
  apply list_elem_of_singleton in Ha as ->. split; [|right; by eapply list_elem_of_lookup_2].
  apply mapM_Some in E. exact (Forall2_lookup_lr _ _ _ _ _ _ E E2 E1).
Qed.

(** What the amount of an output was taken from. *)
Definition amount_checked (t : parsed) (d : key_derivation) (index : nat) (vout : txout) (o : output) : Prop :=
  (sme_amount (out_spend_meta o) = vout_amount vout /\
     (vout_amount vout = 0 -> is_coinbase (tx_vin (p_tx t)) = true \/ tx_version (p_tx t) <= 1)) \/
  (vout_amount vout = 0 /\ exists info opened,
    rct_ecdh_info (p_tx t) !! index = Some info /\
    opened = ecdhDecode info (derivation_to_scalar d index) (RCTTypeBulletproof2 <=? rct_type (p_tx t)) /\
    h2d (ecdh_amount opened) = Some (sme_amount (out_spend_meta o)) /\ out_ringct_mask o = ecdh_mask opened /\
    rct_out_pk (p_tx t) !! index = Some (addKeys2 (ecdh_mask opened) (ecdh_amount opened) rct_H)).

(** An output of the transaction that the keys of the account can spend. *)
Definition owns {SC : SubaddressCrypto} (t : parsed) (user : Account.state) (o : output) : Prop :=
  exists address view index vout d,
    Account.db_address user = Ok address /\ Account.get_view_key user = Ok view /\
    tx_vout (p_tx t) !! index = Some vout /\ sme_index (out_spend_meta o) = Z.of_nat index /\
    get_output_public_key vout = Some (out_pub o) /\
    derived_by t view (sme_tx_public (out_spend_meta o)) d /\
    derive_subaddress_public_key (out_pub o) d index = Some (get_spend_public address view (out_recipient o)) /\
    amount_checked t d index vout o.

Definition amount_from (t : parsed) (d : key_derivation) (index : nat) (amount : Z) (am : Z * rct_key) : Prop :=
  (am.1 = amount /\ (amount = 0 -> is_coinbase (tx_vin (p_tx t)) = true \/ tx_version (p_tx t) <= 1)) \/
  (amount = 0 /\ exists info opened,
    rct_ecdh_info (p_tx t) !! index = Some info /\
    opened = ecdhDecode info (derivation_to_scalar d index) (RCTTypeBulletproof2 <=? rct_type (p_tx t)) /\
    h2d (ecdh_amount opened) = Some am.1 /\ am.2 = ecdh_mask opened /\
    rct_out_pk (p_tx t) !! index = Some (addKeys2 (ecdh_mask opened) (ecdh_amount opened) rct_H)).

Lemma output_made t mixin ext pid pub index found vout am out_id :
  amount_from t found.1.1 index (vout_amount vout) am ->
  amount_checked t found.1.1 index vout (make_output t mixin ext pid pub index found vout am out_id).
Proof. done. Qed.
End soundness.

(** *** The subaddress tables of the accounts *)
Section tables_of_users.
Context {LM : Lmdb} {LL : LmdbLaws LM} {SC : SubaddressCrypto} (users : list Account.state).

Definition keys_of (user : Account.state) (address : account_address) (view : secret_key) : Prop :=
  Account.db_address user = Ok address /\ Account.get_view_key user = Ok view.
(** Every entry of an account is the public key of its index. *)
Definition keys_sound (s : tables) : Prop := forall user address view m,
  user ∈ users -> keys_of user address view -> m ∈ dups (d:=subaddress_indexes) (t_subaddress_indexes s) (Account.id user) ->
  sm_subaddress m = get_spend_public address view (sm_index m).
(** The account that is stored under the address has the id and the key of the one
    in memory. *)
Definition stored_accounts (s : tables) : Prop := forall user address view found u,
  user ∈ users -> keys_of user address view ->
  get_both (d:=accounts_by_address) (t_accounts_ba s) by_address_version (view_public address) = Some found ->
  get_both (d:=accounts) (t_accounts s) (al_status (ab_lookup found)) (al_id (ab_lookup found)) = Some u ->
  acc_id u = Account.id user /\ acc_key u = view.
Definition ids_differ : Prop := forall user user', user ∈ users -> user' ∈ users ->
  Account.id user = Account.id user' -> Account.immutable_ user = Account.immutable_ user'.

Lemma keys_of_same user user' address view :
  Account.immutable_ user = Account.immutable_ user' -> keys_of user address view -> keys_of user' address view.
Proof. unfold keys_of, Account.db_address, Account.get_view_key, Account.null_check. by intros ->. Qed.
Lemma keys_of_inj user address view address' view' :
  keys_of user address view -> keys_of user address' view' -> address = address' /\ view = view'.
Proof. intros [H1 H2] [H3 H4]. split; congruence. Qed.

Lemma keys_sound_upsert user address view l max (s : tables) st r :
  ids_differ -> user ∈ users -> keys_of user address view -> keys_sound s ->
  do_upsert (Account.id user) address view l max (t_subaddress_ranges s, t_subaddress_indexes s) = (r, st) ->
  keys_sound (set_sub_tables st s).
Proof.
  intros Hd Hin Hk Hs H user' address' view' m Hin' Hk' Hm.
  assert (m ∈ dups (d:=subaddress_indexes) st.2 (Account.id user')) as Hm' by (by destruct st).
  replace st with (r, st).2 in Hm' by done. rewrite <- H in Hm'.
  apply do_upsert_adds in Hm' as [Hm'|[Eid (i & ->)]]; [by eapply Hs|]. cbn.
  pose proof (keys_of_same _ _ _ _ (Hd _ _ Hin' Hin Eid) Hk') as Hk2.
  by destruct (keys_of_inj _ _ _ _ _ Hk Hk2) as [-> ->].
Qed.

Lemma update_lookahead_sound user address view height match_ max n (s s' : tables) :
  ids_differ -> user ∈ users -> keys_of user address view -> keys_sound s -> stored_accounts s ->
  Subaddress.update_lookahead address height match_ max s = Ok (n, s') -> keys_sound s' /\ stored_accounts s'.
Proof.
  intros Hd Hin Hk Hs Ha H. unfold Subaddress.update_lookahead in H.
  destruct (get_both (d:=accounts_by_address) _ _ _) as [found|] eqn:Ef; [|done]. inv_ok H. rename r into u.
  unfold lmdb_check in Hr. destruct (get_both (d:=accounts) _ _ _) as [u'|] eqn:Eu; [|done]. injection Hr as ->.
  destruct (Ha _ _ _ _ _ Hin Hk Ef Eu) as [Eid Ekey]. rewrite Eid, Ekey in H.
  destruct (_ || _); [by injection H as _ <-|].
  assert (exists up st, (if (maj_i (acc_lookahead u) <=? u32_max / min_i (acc_lookahead u)) && (maj_i (acc_lookahead u) * min_i (acc_lookahead u) <=? max)
    then do_upsert (Account.id user) address view (upsertions (maj_i match_) (add_and_clamp (maj_i match_) (maj_i (acc_lookahead u))) (min_i (acc_lookahead u)) (min_i match_)) max
           (t_subaddress_ranges s, t_subaddress_indexes s)
    else (Err (lws_err max_subaddresses), (t_subaddress_ranges s, t_subaddress_indexes s))) = (up, st) /\ keys_sound (set_sub_tables st s))
    as (up & st & E & Hst).
  { destruct (_ && _).
    - destruct (do_upsert _ _ _ _ _ _) as [up st] eqn:E. exists up, st. split; [done|]. by eapply keys_sound_upsert.
    - by exists (Err (lws_err max_subaddresses)), (t_subaddress_ranges s, t_subaddress_indexes s). }
  cbv zeta in H. rewrite E in H. destruct up as [o|e]; [by injection H as _ <-|].
  destruct (bool_decide _); [|done]. injection H as _ <-. split; [exact Hst|].
  intros user' address' view' found' v Hin' Hk' Hf' Hv. cbn in Hf'.
  apply (get_both_some (d:=accounts)) in Hv as [[[Est ->]|[Hv Hne]]%(elem_put (d:=accounts)) Ev].
  - apply (Ha user' address' view' found' u Hin' Hk' Hf'). apply (get_both_some (d:=accounts)) in Eu as [Eu1 Eu2].
    apply (get_both_some (d:=accounts)). rewrite Est. split; [exact Eu1|exact Ev].
  - apply (Ha user' address' view' found' v Hin' Hk' Hf'). by apply (get_both_some (d:=accounts)).
Qed.

Lemma find_subaddress_sound user address view D sr i :
  user ∈ users -> keys_of user address view -> (forall s, Reader.get_reader sr = Some s -> keys_sound s) ->
  Reader.find_subaddress user D sr = Ok i -> D = get_spend_public address view i.
Proof.
  intros Hin Hk Hw. unfold Reader.find_subaddress. destruct (Reader.get_reader sr) as [s|]; [|done].
  unfold find_subaddress. intros (m & Hm & [= <-])%ebind_ok. unfold lmdb_check in Hm.
  destruct (get_both (d:=subaddress_indexes) (t_subaddress_indexes s) (Account.id user) D) as [m'|] eqn:E; [|done].
  injection Hm as ->. apply get_both_some in E as [E1 E2]. rewrite <- E2. by eapply (Hw s eq_refl).
Qed.
End tables_of_users.

(** *** Every call of [on_output] *)
Section every_call.
Context {WC : WalletCrypto} {LM : Lmdb} {LL : LmdbLaws LM} {SC : SubaddressCrypto} (start_read : tables -> expect tables) {S : Type}.
Context (on_spend : Account.state -> spend -> S -> Account.state * S).
Context (on_output : Account.state -> output -> option tables -> S -> Account.state * S).
Context (users : list Account.state) (t : parsed) (I : S -> Prop).
(** A read transaction has the current content. *)
Hypothesis reads_current : forall db s, start_read db = Ok s -> s = db.
Hypothesis spend_keeps : forall user s c, Account.immutable_ (on_spend user s c).1 = Account.immutable_ user.
Hypothesis output_keeps : forall user o r c, Account.immutable_ (on_output user o r c).1 = Account.immutable_ user.
Hypothesis distinct : ids_differ users.
Hypothesis spend_holds : forall user s c, I c -> I (on_spend user s c).2.
Hypothesis output_holds : forall user0 user o r c, user0 ∈ users -> Account.immutable_ user = Account.immutable_ user0 ->
  owns t user o -> I c -> I (on_output user o r c).2.

Record holds (e : env (S := S)) : Prop := {
  holds_reader s : get_reader e = Some s -> keys_sound users s;
  holds_keys : keys_sound users (e_db e);
  holds_stored : stored_accounts users (e_db e);
  holds_calls : I (e_calls e)
}.
(** The piece keeps what holds, also when it throws; [Q]: of its result. *)
Definition keeps {A} (m : act A) (Q : A -> Prop) : Prop :=
  forall e, holds e -> holds (m e).2 /\ forall a, (m e).1 = Ok a -> Q a.

Lemma keeps_ret {A} (a : A) (Q : A -> Prop) : Q a -> keeps (ret a) Q.
Proof. intros Hq e He. split; [done|]. by intros a' [= <-]. Qed.
Lemma keeps_throw {A} err (Q : A -> Prop) : keeps (throw err) Q.
Proof. by intros e He. Qed.
Lemma keeps_of {A} (m : expect A) (Q : A -> Prop) : (forall a, m = Ok a -> Q a) -> keeps (of_expect m) Q.
Proof. by intros Hq e He. Qed.
Lemma keeps_at {A} (l : list A) i (Q : A -> Prop) : (forall a, l !! i = Some a -> Q a) -> keeps (at_ l i) Q.
Proof. intros Hq. unfold at_. destruct (l !! i) as [a|]; [by apply keeps_ret, Hq|apply keeps_throw]. Qed.
Lemma keeps_bind {A B} (m : act A) (f : A -> act B) (P : A -> Prop) (Q : B -> Prop) :
  keeps m P -> (forall a, P a -> keeps (f a) Q) -> keeps (bind m f) Q.
Proof.
  intros Hm Hf e He. destruct (Hm e He) as [He1 Hp]. unfold bind. destruct (m e) as [[a|err] e1]; [|done]. by apply Hf; [apply Hp|].
Qed.

Definition same_keys (user0 user : Account.state) : Prop := Account.immutable_ user = Account.immutable_ user0.

Lemma keeps_spend user0 user s : same_keys user0 user -> keeps (call_spend on_spend user s) (same_keys user0).
Proof.
  intros Hu e [H1 H2 H3 H4]. pose proof (spend_keeps user s (e_calls e)) as Hk. pose proof (spend_holds user s _ H4) as Hc. unfold call_spend, same_keys in *.
  destruct (on_spend user s (e_calls e)) as [u c]. split; [by split|]. intros a [= <-]. cbn in Hk. congruence.
Qed.
Lemma keeps_offsets amount k_image mixin goffset offsets user0 user :
  same_keys user0 user -> keeps (scan_offsets on_spend t amount k_image mixin goffset offsets user) (same_keys user0).
Proof.
  revert goffset user. induction offsets as [|offset offsets IH]; intros goffset user Hu; cbn [scan_offsets]; [by apply keeps_ret|].
  destruct (Account.get_spendable _ _); [|by apply IH]. eapply keeps_bind; [by apply keeps_spend|]. intros u. apply IH.
Qed.
Lemma keeps_inputs vin mixin ext user0 user : same_keys user0 user ->
  keeps (scan_inputs on_spend t vin mixin ext user) (fun st => same_keys user0 st.2 /\ st.1.2 = if is_coinbase vin then Z.lor ext coinbase_output else ext).
Proof.
  revert mixin ext user. induction vin as [|i vin IH]; intros mixin ext user Hu; cbn [scan_inputs]; [by apply keeps_ret|].
  destruct i as [|amount offsets k_image|]; [| |by apply IH].
  - intros e He. destruct (IH mixin (Z.lor ext coinbase_output) user Hu e He) as [H1 H2]. split; [done|]. intros st Hst. destruct (H2 st Hst) as [H3 H4].
    split; [done|]. rewrite H4. cbn. destruct (is_coinbase vin); [|done]. by rewrite <- Z.lor_assoc, Z.lor_diag.
  - destruct (u32_max <? ring_mixin offsets); [apply keeps_throw|]. eapply keeps_bind; [by apply keeps_offsets|]. intros u. apply IH.
Qed.

(** [find_account] may write, but what the tables promise stays. *)
Lemma keeps_lookahead user0 user match_ height sr db c r sr' db' :
  user0 ∈ users -> same_keys user0 user -> holds (Env (Some sr) db c) ->
  Reader.update_lookahead start_read user match_ height sr db = (r, sr', db') -> holds (Env (Some sr') db' c).
Proof.
  intros Hin Hu [H1 H2 H3 H4]. cbn in H1, H2, H3, H4. unfold Reader.update_lookahead.
  destruct (is_zero match_); [by intros [= _ <- <-]|]. destruct (negb (Reader.sr_disk sr)); [by intros [= _ <- <-]|].
  assert (forall db1 s, keys_sound users db1 -> Reader.get_reader (Reader.update_reader start_read db1 (Reader.with_reader None sr)) = Some s -> keys_sound users s) as Hr.
  { intros db1 s Hdb Hs. unfold Reader.get_reader, Reader.update_reader, Reader.with_reader in Hs. cbn in Hs.
    destruct (Reader.sr_borrowed sr) as [b|] eqn:Eb; [injection Hs as <-; apply H1; unfold Reader.get_reader; by rewrite Eb|].
    destruct (start_read db1) as [s1|] eqn:Es; [|done]. injection Hs as <-. by rewrite (reads_current _ _ Es). }
  assert (forall s, Reader.get_reader (Reader.with_reader None sr) = Some s -> keys_sound users s) as Hn.
  { intros s Hs. unfold Reader.get_reader, Reader.with_reader in Hs. cbn in Hs.
    destruct (Reader.sr_borrowed sr) as [b|] eqn:Eb; [|done]. injection Hs as <-. apply H1. unfold Reader.get_reader. by rewrite Eb. }
  destruct (Account.db_address user) as [address|e] eqn:Ea; [|intros [= _ <- <-]; by split].
  destruct (Subaddress.update_lookahead _ _ _ _ _) as [[n db1]|e] eqn:El; intros [= _ <- <-].
  - assert (exists view, keys_of user0 address view) as [view Hk].
    { unfold keys_of, Account.db_address, Account.get_view_key, Account.null_check in *. rewrite <- Hu. destruct (Account.immutable_ user) as [i|]; [|done].
      exists (Account.in_view_key i). done. }
    destruct (update_lookahead_sound users user0 address view _ _ _ _ _ _ distinct Hin Hk H2 H3 El) as [H5 H6].
    split; [intros s; by apply Hr|done..].
  - split; [intros s; by apply Hr|done..].
Qed.

Lemma keeps_find user0 user address view attempts pub index height :
  user0 ∈ users -> same_keys user0 user -> keys_of user0 address view ->
  keeps (find_account start_read attempts pub index height user) (fun found => forall f, found = Some f ->
    f.1 ∈ attempts /\ derive_subaddress_public_key pub f.1.1 index = Some (get_spend_public address view f.2)).
Proof.
  intros Hin Hu Hk. induction attempts as [|[d k] attempts IH]; cbn [find_account]; [by apply keeps_ret|].
  assert (keeps (find_account start_read attempts pub index height user) (fun found => forall f, found = Some f ->
    f.1 ∈ (d, k) :: attempts /\ derive_subaddress_public_key pub f.1.1 index = Some (get_spend_public address view f.2))) as IH'.
  { intros e He. destruct (IH e He) as [H1 H2]. split; [done|]. intros found Hf f Ef. destruct (H2 found Hf f Ef). split; [by right|done]. }
  destruct (derive_subaddress_public_key pub d index) as [D|] eqn:ED; [|exact IH'].
  eapply (keeps_bind _ _ (fun sp => sp = spend_public address)).
  { apply keeps_of. intros sp Hsp. destruct Hk as [Hk _]. unfold Account.get_spend_public, Account.db_address, Account.null_check in *. rewrite Hu in Hsp.
    destruct (Account.immutable_ user0); [|done]. cbn in *. congruence. }
  intros sp ->. destruct (Z.eqb_spec (spend_public address) D) as [<-|_].
  - apply keeps_ret. intros f [= <-]. split; [left|done].
  - intros e He. destruct (e_subaddress e) as [sr|] eqn:Esr; [|by apply IH'].
    destruct (Reader.find_subaddress user D sr) as [m|err] eqn:Em; [|by apply IH'].
    destruct (Reader.update_lookahead start_read user m height sr (e_db e)) as [[r sr'] db'] eqn:El.
    destruct e as [sub db c]. cbn in Esr, El |- *. subst sub. split; [by eapply keeps_lookahead|].
    intros found [= <-] f [= <-]. split; [left|]. cbn. rewrite ED. f_equal.
    eapply (find_subaddress_sound users user0); [done|done|exact (holds_reader _ He)|].
    rewrite <- Em. unfold Reader.find_subaddress, Account.id. by rewrite Hu.
Qed.

Lemma keeps_amount ext d index amount :
  ext = flags_of (tx_vin (p_tx t)) \/ ext = ringct_flags (p_tx t) (flags_of (tx_vin (p_tx t))) ->
  keeps (output_amount (p_tx t) ext d index amount) (fun r => forall am, r = Some am -> amount_from t d index amount am).
Proof.
  intros Hext. unfold output_amount. rewrite (flag_coinbase t ext Hext). destruct ((amount =? 0) && _ && _) eqn:E.
  - apply andb_true_iff in E as [[->%Z.eqb_eq _]%andb_true_iff _].
    eapply (keeps_bind _ _ (fun mask => rct_out_pk (p_tx t) !! index = Some mask)); [by apply keeps_at|]. intros mask Hm.
    eapply (keeps_bind _ _ (fun info => rct_ecdh_info (p_tx t) !! index = Some info)); [by apply keeps_at|]. intros info Hi.
    apply keeps_ret. intros am Ham. right. split; [done|]. unfold decode_amount in Ham. set (opened := ecdhDecode info _ _) in Ham.
    destruct (Z.eqb_spec mask (addKeys2 (ecdh_mask opened) (ecdh_amount opened) rct_H)) as [->|]; [|done].
    destruct (h2d _) as [a|] eqn:Eh; [|done]. injection Ham as <-. exists info, opened. by split_and!.
  - apply keeps_ret. intros am [= <-]. left. split; [done|]. intros ->. cbn in E. destruct (is_coinbase _); [by left|]. right. cbn in E.
    apply Z.ltb_ge in E. lia.
Qed.

Lemma keeps_call user0 user o : user0 ∈ users -> same_keys user0 user -> owns t user o -> keeps (call_output on_output user o) (same_keys user0).
Proof.
  intros Hin Hu Ho e [H1 H2 H3 H4]. pose proof (output_keeps user o (get_reader e) (e_calls e)) as Hk.
  pose proof (output_holds user0 user o (get_reader e) _ Hin Hu Ho H4) as Hc. unfold call_output, same_keys in *.
  destruct (on_output user o (get_reader e) (e_calls e)) as [u c]. split; [by split|]. intros a [= <-]. cbn in Hk. congruence.
Qed.

#[local] Abbreviation flags_ok ext := (ext = flags_of (tx_vin (p_tx t)) \/ ext = ringct_flags (p_tx t) (flags_of (tx_vin (p_tx t)))).

Lemma keeps_output user0 address view derived subaddress mixin index vout ext pid user :
  user0 ∈ users -> same_keys user0 user -> keys_of user0 address view -> generate_key_derivation (p_key t) view = Some derived ->
  tx_vout (p_tx t) !! index = Some vout -> flags_ok ext ->
  keeps (scan_output start_read on_output t derived (additional_derivations t view subaddress) mixin index vout (ext, pid, user))
    (fun st => same_keys user0 st.2 /\ flags_ok st.1.1).
Proof.
  intros Hin Hu Hk Hd Hv Hext. unfold scan_output.
  destruct (get_output_public_key vout) as [pub|] eqn:Epub; [|by apply keeps_ret]. cbv zeta. destruct (negb _); [by apply keeps_ret|].
  eapply keeps_bind; [by eapply keeps_find|]. intros [found|] Hf; [|by apply keeps_ret]. destruct (Hf found eq_refl) as [Hatt Hder].
  eapply keeps_bind; [by apply keeps_amount|]. intros [am|] Ham; [|by apply keeps_ret].
  eapply (keeps_bind _ _ (fun _ => True)); [by apply keeps_at|]. intros out_id _. destruct (u32_max <? _); [apply keeps_throw|].
  eapply keeps_bind.
  - apply (keeps_call user0); [done|done|]. destruct (keys_of_same _ _ _ _ (eq_sym Hu) Hk) as [Hk1 Hk2].
    exists address, view, index, vout, found.1.1. split_and!; try done; [by apply (attempts_derived t view subaddress derived index)|].
    apply output_made, Ham. done.
  - intros u Hu'. apply keeps_ret. split; [done|]. right. by apply ringct_flags_idem.
Qed.

Lemma keeps_outputs user0 address view derived subaddress mixin index vouts st :
  user0 ∈ users -> same_keys user0 st.2 -> keys_of user0 address view -> generate_key_derivation (p_key t) view = Some derived ->
  drop index (tx_vout (p_tx t)) = vouts -> flags_ok st.1.1 ->
  keeps (scan_outputs start_read on_output t derived (additional_derivations t view subaddress) mixin index vouts st) (fun st => same_keys user0 st.2).
Proof.
  intros Hin. revert index st. induction vouts as [|vout vouts IH]; intros index [[ext pid] user] Hu Hk Hd Hv Hext; cbn [scan_outputs]; [by apply keeps_ret|].
  assert (tx_vout (p_tx t) !! index = Some vout) as Hi by (rewrite <- (Nat.add_0_r index), <- lookup_drop, Hv; done).
  eapply keeps_bind; [by eapply keeps_output|]. intros st [H1 H2]. apply IH; try done. pose proof (drop_S _ _ index Hi) as E. rewrite Hv in E. by injection E.
Qed.

Lemma keeps_user user : user ∈ users -> keeps (scan_user start_read on_spend on_output t user) (fun _ => True).
Proof.
  intros Hin e He. unfold scan_user. destruct (_ <=? _); [by apply (keeps_ret user (fun _ => True))|].
  generalize (is_some_b (e_subaddress e)). intros subaddress. revert e He.
  change (keeps (bind (of_expect (Account.get_view_key user)) (fun view =>
    match generate_key_derivation (p_key t) view with
    | None => ret user
    | Some derived =>
      bind (scan_inputs on_spend t (tx_vin (p_tx t)) 0 0 user) (fun st => let '(mixin, ext, user) := st in
      bind (scan_outputs start_read on_output t derived (additional_derivations t view subaddress) mixin 0 (tx_vout (p_tx t)) (ext, p_unencrypted t, user)) (fun st => ret st.2))
    end)) (fun _ => True)).
  eapply (keeps_bind _ _ (fun view => Account.get_view_key user = Ok view)); [by apply keeps_of|]. intros view Hv.
  destruct (generate_key_derivation (p_key t) view) as [derived|] eqn:Ed; [|by apply keeps_ret].
  assert (exists address, keys_of user address view) as [address Hk].
  { unfold keys_of, Account.db_address, Account.get_view_key, Account.null_check in *. destruct (Account.immutable_ user) as [i|]; [|done]. by eexists. }
  eapply keeps_bind; [by apply (keeps_inputs _ _ _ user)|]. intros [[mixin ext] u] [Hu Hext]. cbn in Hu, Hext.
  eapply (keeps_bind _ _ (fun _ => True)); [|by intros; apply keeps_ret].
  intros e He. split; [|done]. eapply (keeps_outputs user address view); try done. left. by rewrite Hext.
Qed.
Lemma keeps_users l : l ⊆ users -> keeps (scan_users start_read on_spend on_output t l) (fun _ => True).
Proof.
  induction l as [|user l IH]; intros Hl; cbn [scan_users]; [by apply keeps_ret|].
  eapply keeps_bind; [apply keeps_user, Hl; left|]. intros u _. eapply keeps_bind; [apply IH; intros x Hx; apply Hl; by right|]. intros us _. by apply keeps_ret.
Qed.
End every_call.

(** C37: [on_output] is only ever given outputs that belong to the account, also
    when the test throws and whatever the readers write: any property of the
    callbacks' state [I] that spends keep and own outputs keep holds after scanning a
    transaction, if it held before. An own output ([owns]) is one of the
    transaction, under its number; its public key is derived, with the account's
    view key and one of the transaction's public keys, from the spend key of the
    subaddress it is reported for; its amount is the one in the clear (zero only
    in a coinbase or a transaction of version 1), or opens the commitment of the
    transaction. The tables must hold, for the accounts scanned, subaddress
    entries that are the public keys of their indexes (what [do_upsert] keeps),
    and the accounts themselves; callbacks leave an account its keys. *)
Theorem received_is_own {WC : WalletCrypto} {LM : Lmdb} {LL : LmdbLaws LM} {SC : SubaddressCrypto} start_read {S : Type}
    (on_spend : Account.state -> spend -> S -> Account.state * S)
    (on_output : Account.state -> output -> option tables -> S -> Account.state * S)
    users height timestamp tx_hash tx out_ids (e : env) (I : S -> Prop) :
  (forall db s, start_read db = Ok s -> s = db) ->
  (forall user s c, Account.immutable_ (on_spend user s c).1 = Account.immutable_ user) ->
  (forall user o r c, Account.immutable_ (on_output user o r c).1 = Account.immutable_ user) ->
  ids_differ users -> keys_sound users (e_db e) -> stored_accounts users (e_db e) ->
  (forall s, get_reader e = Some s -> keys_sound users s) ->
  (forall user s c, I c -> I (on_spend user s c).2) ->
  (forall t user0 user o r c, parse height timestamp tx_hash tx out_ids (is_some_b (e_subaddress e)) = Some t ->
     user0 ∈ users -> Account.immutable_ user = Account.immutable_ user0 -> owns t user o -> I c -> I (on_output user o r c).2) ->
  I (e_calls e) -> I (e_calls (scan_transaction start_read on_spend on_output users height timestamp tx_hash tx out_ids e).2).
Proof.
  intros Hr Hs Ho Hd Hk Ha Hg Hsp Hout Hc. unfold scan_transaction. destruct (_ <? _); [done|].
  destruct (parse _ _ _ _ _ _) as [t|]; [|done].
  apply (keeps_users start_read on_spend on_output users t I Hr Hs Ho Hd Hsp (fun u0 u o r c => Hout t u0 u o r c eq_refl) users ltac:(done) e).
  by split.
Qed.
End Ownership.

(** ** A transaction for the account of the subaddress samples *)
Module OwnershipSample.
Import Ownership Reference.

#[local] Instance sub_crypto : SubaddressCrypto := SubaddressSample.crypto.

(** Toy cryptography: a derivation is a sum of keys. *)
#[local] Instance wallet_crypto : WalletCrypto := {
  key_derivation := Z;
  derivation_bytes d := be_bytes 32 d;
  find_tx_pub_key extra := head extra;
  find_extra_nonce extra := match extra with _ :: n :: _ => Some [n] | _ => None end;
  find_additional_pub_keys extra := drop 2 extra;
  get_payment_id nonce := None;
  get_encrypted_payment_id nonce := head nonce;
  generate_key_derivation pub view := if pub =? 0 then None else Some (pub + view);
  get_output_public_key o := if vout_target o =? 0 then None else Some (vout_target o);
  get_output_view_tag o := Some (vout_target o mod 2);
  out_can_be_to_acc tag d index := true;
  derive_subaddress_public_key pub d index := Some (pub - d - Z.of_nat index);
  get_transaction_hash tx := 4000;
  get_transaction_prefix_hash tx := 5000;
  get_tx_fee tx := 12;
  HASH_KEY_ENCRYPTED_PAYMENT_ID := 141;
  cn_fast_hash l := be_decode l mod 256 ^ 32;
  derivation_to_scalar d index := d + Z.of_nat index;
  ecdhDecode info scalar bp2 := EcdhTuple (ecdh_mask info - scalar) (ecdh_amount info - scalar);
  addKeys2 mask amount h := mask + amount * h;
  rct_H := 1000;
  rct_identity := 1;
  h2d a := if a <? 0 then None else Some a;
  RCTTypeBulletproof2 := 4
}.

Definition no_string (a : account_address) : list Z := [].
Definition user : Account.state :=
  Account.construct no_string SubaddressSample.user [(OutputId 0 8, AddressIndex 0 1)] [].

(** It spends output 8 and pays the primary address (amount 30) and the
    subaddress 0/1 (amount 40, through the additional key 201). The middle
    output is for someone else. *)
Definition tx : transaction :=
  Transaction 2 0 [txin_to_key 0 [5; 3] 77]
    [TxOut 0 (56 + 257); TxOut 0 9999; TxOut 0 (SubaddressSample.key 1 + 258 + 2)]
    [200; 6; 199; 198; 201] 6
    [11 + 30 * 1000; 0; 13 + 40 * 1000]
    [EcdhTuple (11 + 257) (30 + 257); EcdhTuple 0 0; EcdhTuple (13 + 260) (40 + 260)].

Definition borrowed : tables := SubaddressSample.db.

(** Callbacks that record what they are given. *)
Definition note_spend (u : Account.state) (s : spend) (c : list event) := (u, c ++ [spent s]).
Definition note_output (u : Account.state) (o : output) (r : option tables) (c : list event) := (u, c ++ [received o]).

Definition start : env (S := list event) := enable_borrowed borrowed (Env None borrowed []).
Definition parsed_tx : parsed :=
  match parse 10 1234 None tx [70; 71; 72] true with Some t => t | None => Parsed 0 0 0 tx [] 0 None (0, 0) [] end.
Definition found : list event := events_of parsed_tx (lookup_in (e_subaddress start)) true user.

Lemma sample_fits t : parse 10 1234 None tx [70; 71; 72] true = Some t -> fits t.
Proof.
  intros [= <-]. split; cbn.
  - constructor; [|constructor]. vm_compute. discriminate.
  - vm_compute. discriminate.
  - lia.
  - intros _ _. lia.
Qed.
Lemma sample_users : Forall (fun u => Account.immutable_ u <> None) [user].
Proof. by repeat constructor. Qed.
Lemma found_eq : replay_users note_spend note_output (get_reader start)
  (events_of parsed_tx (lookup_in (e_subaddress start)) true) [user] [] = ([user], found).
Proof. vm_compute. reflexivity. Qed.
Lemma found_length : length found = 3%nat.
Proof. vm_compute. reflexivity. Qed.

Lemma scan_transaction_exact_witness :
  length found = 3%nat /\
  scan_transaction (fun t => Ok t) note_spend note_output [user] 10 1234 None tx [70; 71; 72] start =
    (Ok [user], with_calls found start).
Proof.
  split; [exact found_length|].
  rewrite (scan_transaction_exact (fun t => Ok t) note_spend note_output [user] 10 1234 None tx [70; 71; 72] start
    (fun _ _ _ => conj eq_refl eq_refl) (fun _ _ _ _ => eq_refl) eq_refl sample_users ltac:(discriminate) sample_fits).
  pose proof found_eq as E. unfold parsed_tx in E. cbv zeta.
  change (is_some_b (e_subaddress start)) with true. destruct (parse _ _ _ _ _ true) as [t|] eqn:Ep.
  - change (e_calls start) with (@nil event). rewrite E. reflexivity.
  - discriminate.
Defined.

Lemma user_listed u : u ∈ [user] -> u = user.
Proof. apply list_elem_of_singleton. Qed.
Lemma borrowed_sound : keys_sound [user] borrowed.
Proof.
  intros u address view m ->%user_listed [[= <-] [= <-]] Hm. exact (sub_sound _ _ _ _ SubaddressSample.subs_wf m Hm).
Qed.
Lemma borrowed_stored : stored_accounts [user] borrowed.
Proof. intros u address view found acct ->%user_listed [[= <-] [= <-]] Hf Ha. vm_compute in Hf. injection Hf as <-.
  vm_compute in Ha. injection Ha as <-. by vm_compute. Qed.
Definition last_output : output :=
  match last found with Some (received o) => o | _ => sample_output end.
Definition all_own (c : list event) : Prop := forall o, received o ∈ c -> owns parsed_tx user o.

Lemma received_is_own_witness : owns parsed_tx user last_output /\ out_recipient last_output = AddressIndex 0 1.
Proof.
  split; [|vm_compute; reflexivity].
  assert (all_own (e_calls (scan_transaction (fun t => Ok t) note_spend note_output [user] 10 1234 None tx [70; 71; 72] start).2)) as H.
  { apply (received_is_own (fun t => Ok t) note_spend note_output [user] 10 1234 None tx [70; 71; 72] start all_own).
    - by intros db s [= ->].
    - done.
    - done.
    - by intros u u' ->%user_listed ->%user_listed.
    - exact borrowed_sound.
    - exact borrowed_stored.
    - intros s [= <-]. exact borrowed_sound.
    - intros u s c Hc o. cbn. rewrite elem_of_app, list_elem_of_singleton. intros [Ho|[=]]. by apply Hc.
    - intros t u0 u o r c Ht ->%user_listed Hu Ho Hc o'. cbn. rewrite elem_of_app, list_elem_of_singleton. intros [Ho'|[= ->]]; [by apply Hc|].
      injection Ht as <-. unfold owns, Account.db_address, Account.get_view_key, Account.null_check in *. rewrite Hu in Ho. exact Ho.
    - by intros o ?%elem_of_nil. }
  apply H. vm_compute. right. right. left.
Defined.
End OwnershipSample.
