(* ===== verification/Mempool.v ===== *)
(** src/mempool.h and src/mempool.cpp: the transactions that are not in a block
    yet, and what an account gets from them. Module [Cache] is the cache of the
    transactions that do not belong to an address, [mempool::address_cache];
    module [Pool] the pool with its snapshots and [scan_account], whose two
    critical sections are steps of their own.

    [updates] of the pool by the daemon are the calls of [add_txs] and
    [reset_txs] that [pool_update_loop] makes; the loop itself is I/O. *)

From stdpp Require Import gmap.
From S2P Require Import Prelude Data Account Lmdb Tables Subaddress OwnershipTest.

#[export] Instance account_address_eq_dec : EqDecision account_address.
Proof. solve_decision. Defined.
#[export] Instance account_address_countable : Countable account_address.
Proof.
  apply (inj_countable' (fun a => (view_public a, spend_public a)) (fun p => AccountAddress p.1 p.2)).
  by intros [].
Defined.

(** ** [mempool::address_cache] *)
Module Cache.

Definition max_cache_size : nat := 1000.

(** [std::list] nodes have an identity that iterators refer to: [order] is the
    identity of the entry's node in [order_]. *)
Record entry := Entry { subaddrs : list subaddress_dict; txids : list hash; order : nat }.
Record address_cache := AddressCache {
  map_ : gmap account_address entry;
  order_ : list (nat * account_address);
  next_node : nat
}.

Definition empty_cache : address_cache := AddressCache ∅ [] 0.

Definition get (address : account_address) (subs : list subaddress_dict) (c : address_cache) : gset hash :=
  match map_ c !! address with
  | None => ∅
  | Some e => if bool_decide (subaddrs e = subs) then list_to_set (txids e) else ∅
  end.

(** [order_.splice(order_.begin(), order_, it)] *)
Definition to_front (node : nat) (l : list (nat * account_address)) : list (nat * account_address) :=
  List.filter (fun n => (n.1 =? node)%nat) l ++ List.filter (fun n => negb (n.1 =? node)%nat) l.

Definition set (address : account_address) (subs : list subaddress_dict) (ids : list hash) (c : address_cache)
    : address_cache :=
  match map_ c !! address with
  | Some e =>
    AddressCache (<[address := Entry subs ids (order e)]> (map_ c)) (to_front (order e) (order_ c)) (next_node c)
  | None =>
    let node := next_node c in
    let m := <[address := Entry subs ids node]> (map_ c) in
    let l := (node, address) :: order_ c in
    if (max_cache_size <=? size m)%nat then
      match last l with
      | Some evict_address => AddressCache (delete evict_address.2 m) (removelast l) (S node)
      | None => AddressCache m l (S node)
      end
    else AddressCache m l (S node)
  end.

(** The cached addresses, the most recently set first. *)
Definition addresses (c : address_cache) : list account_address := (order_ c).*2.

(** Every entry's iterator refers to the node of its own address, and there is
    one node per entry. *)
Record cache_ok (c : address_cache) : Prop := {
  ok_nodes : NoDup (order_ c).*1;
  ok_fresh n : n ∈ order_ c -> (n.1 < next_node c)%nat;
  ok_addresses : NoDup (addresses c);
  ok_keys a : a ∈ addresses c <-> is_Some (map_ c !! a);
  ok_iterators a e : map_ c !! a = Some e -> (order e, a) ∈ order_ c;
  ok_size : (length (order_ c) < max_cache_size)%nat
}.

Lemma empty_cache_ok : cache_ok empty_cache.
Proof.
  split; cbn.
  - constructor.
  - by intros n Hn%elem_of_nil.
  - constructor.
  - intros a. rewrite lookup_empty. split; [by intros Ha%elem_of_nil|by intros [? ?]].
  - intros a e. by rewrite lookup_empty.
  - unfold max_cache_size. lia.
Qed.

Lemma ok_length c : cache_ok c -> size (map_ c) = length (order_ c).
Proof.
  intros Hc. transitivity (length (addresses c)); [|apply length_fmap].
  rewrite <- (size_dom (map_ c)). rewrite <- (size_list_to_set (C:=gset account_address) (addresses c)) by apply (ok_addresses c Hc).
  f_equal. apply set_eq. intros a. rewrite elem_of_list_to_set, elem_of_dom. symmetry. apply (ok_keys c Hc).
Qed.

(** *** The cached addresses as a list that keeps the most recent ones *)

Lemma to_front_addresses node a l :
  NoDup l.*1 -> NoDup l.*2 -> (node, a) ∈ l ->
  (to_front node l).*2 = a :: List.filter (fun b => bool_decide (b <> a)) l.*2.
Proof.
  intros H1 H2 Hin. unfold to_front. rewrite fmap_app.
  assert (List.filter (fun n => (n.1 =? node)%nat) l = [(node, a)] /\
          (List.filter (fun n => negb (n.1 =? node)%nat) l).*2 = List.filter (fun b => bool_decide (b <> a)) l.*2) as [-> ->]; [|done].
  induction l as [|[n b] l IH]; [by apply elem_of_nil in Hin|]. cbn in *.
  apply NoDup_cons in H1 as [Hn H1]. apply NoDup_cons in H2 as [Hb H2].
  destruct (Nat.eqb_spec n node) as [->|Hne].
  - apply elem_of_cons in Hin as [[= <-]|Hin].
    2: { destruct Hn. apply list_elem_of_fmap. by exists (node, a). }
    assert (List.filter (fun n => (n.1 =? node)%nat) l = [] /\
      List.filter (fun n => negb (n.1 =? node)%nat) l = l /\ List.filter (fun b => bool_decide (b <> a)) l.*2 = l.*2) as (-> & -> & E).
    { clear IH H1 H2. induction l as [|[m b] l IHl]; [done|]. cbn in *. apply not_elem_of_cons in Hn as [Hn Hn'].
      apply not_elem_of_cons in Hb as [Hb Hb']. destruct (IHl Hn' Hb') as (-> & -> & ->).
      rewrite (proj2 (Nat.eqb_neq m node)) by congruence. rewrite bool_decide_eq_true_2 by congruence. done. }
    cbn. rewrite bool_decide_eq_false_2 by (intros ?; congruence). cbn. by rewrite E.
  - apply elem_of_cons in Hin as [[= -> ->]|Hin]; [done|]. destruct (IH H1 H2 Hin) as [-> E]. cbn. split; [done|].
    rewrite bool_decide_eq_true_2; [by rewrite E|]. intros ->. destruct Hb. apply list_elem_of_fmap. by exists (node, a).
Qed.

Lemma to_front_perm node l : to_front node l ≡ₚ l.
Proof.
  unfold to_front. induction l as [|n l IH]; [done|]. cbn. destruct (n.1 =? node)%nat; cbn; [by rewrite IH|].
  by rewrite <- Permutation_middle, IH.
Qed.

Lemma filter_all_absent (a : account_address) l : a ∉ l -> List.filter (fun b => bool_decide (b <> a)) l = l.
Proof.
  induction l as [|b l IH]; [done|]. intros [Hb Hl]%not_elem_of_cons. cbn.
  rewrite bool_decide_eq_true_2 by congruence. by rewrite IH.
Qed.

Lemma set_existing address subs ids c e :
  cache_ok c -> map_ c !! address = Some e ->
  let c' := set address subs ids c in
  cache_ok c' /\ addresses c' = address :: List.filter (fun b => bool_decide (b <> address)) (addresses c).
Proof.
  intros Hc He. pose proof (ok_iterators c Hc address e He) as Hin. unfold set. rewrite He.
  pose proof (to_front_perm (order e) (order_ c)) as Hp.
  assert (addresses (set address subs ids c) = address :: List.filter (fun b => bool_decide (b <> address)) (addresses c)) as Ha.
  { unfold set. rewrite He. unfold addresses. cbn [order_]. apply to_front_addresses; [apply (ok_nodes c Hc)|apply (ok_addresses c Hc)|done]. }
  unfold set in Ha. rewrite He in Ha. split; [|exact Ha]. split; unfold addresses; cbn [order_ map_ next_node].
  - rewrite Hp. apply (ok_nodes c Hc).
  - intros n. rewrite Hp. apply (ok_fresh c Hc).
  - rewrite Hp. apply (ok_addresses c Hc).
  - intros a. rewrite Hp. fold (addresses c). rewrite (ok_keys c Hc), lookup_insert_is_Some.
    destruct (decide (address = a)) as [<-|]; [rewrite He|]; naive_solver.
  - intros a e' Hl. rewrite Hp. apply lookup_insert_Some in Hl as [[<- <-]|[_ Hl]]; [done|]. by apply (ok_iterators c Hc).
  - rewrite Hp. apply (ok_size c Hc).
Qed.

(** The state of a new address before an old one is evicted. *)
Lemma set_new address subs ids c :
  cache_ok c -> map_ c !! address = None ->
  let m := <[address := Entry subs ids (next_node c)]> (map_ c) in
  let l := (next_node c, address) :: order_ c in
  size m = length l /\ NoDup l.*1 /\ NoDup l.*2 /\
  (forall n, n ∈ l -> (n.1 < S (next_node c))%nat) /\
  (forall a, a ∈ l.*2 <-> is_Some (m !! a)) /\ (forall a e, m !! a = Some e -> (order e, a) ∈ l).
Proof.
  intros Hc Hn m l. assert (address ∉ addresses c) as Ha by (rewrite (ok_keys c Hc), Hn; by intros [? ?]).
  split_and!.
  - unfold m. rewrite map_size_insert, Hn, (ok_length c Hc). done.
  - cbn. constructor; [|apply (ok_nodes c Hc)]. intros (n & E & Hin)%list_elem_of_fmap.
    pose proof (ok_fresh c Hc n Hin). lia.
  - cbn. constructor; [done|apply (ok_addresses c Hc)].
  - intros n [->|Hin]%elem_of_cons; cbn; [lia|]. pose proof (ok_fresh c Hc n Hin). lia.
  - intros a. cbn. rewrite elem_of_cons. fold (addresses c). rewrite (ok_keys c Hc). unfold m. rewrite lookup_insert_is_Some. destruct (decide (address = a)); naive_solver.
  - intros a e Hl. unfold m in Hl. apply lookup_insert_Some in Hl as [[<- <-]|[_ Hl]]; [by left|].
    right. by apply (ok_iterators c Hc).
Qed.

Lemma set_spec address subs ids c :
  cache_ok c ->
  let c' := set address subs ids c in
  cache_ok c' /\
  addresses c' = take (max_cache_size - 1) (address :: List.filter (fun b => bool_decide (b <> address)) (addresses c)) /\
  (forall subs', get address subs' c' = if bool_decide (subs' = subs) then list_to_set ids else ∅) /\
  forall a, a <> address -> a ∈ addresses c' -> map_ c' !! a = map_ c !! a.
Proof.
  intros Hc c'. pose proof (ok_size c Hc) as Hsize.
  assert (forall m, map_ c' !! address = Some (Entry subs ids m) ->
    forall subs', get address subs' c' = if bool_decide (subs' = subs) then list_to_set ids else ∅) as Hget.
  { intros m Hl subs'. unfold get. rewrite Hl. cbn. by destruct (bool_decide_reflect (subs = subs')), (bool_decide_reflect (subs' = subs)). }
  destruct (map_ c !! address) as [e|] eqn:He.
  - destruct (set_existing address subs ids c e Hc He) as [H1 H2]. fold c' in H1, H2. split_and!; [done| | |].
    + rewrite H2, firstn_all2; [done|]. rewrite <- H2. pose proof (ok_size c' H1) as Hs. unfold addresses. rewrite length_fmap. lia.
    + apply (Hget (order e)). unfold c', set. rewrite He. cbn. by rewrite lookup_insert_eq.
    + intros a Ha _. unfold c', set. rewrite He. cbn. by rewrite lookup_insert_ne.
  - pose proof (set_new address subs ids c Hc He) as (Hm & H1 & H2 & H3 & H4 & H5).
    assert (List.filter (fun b => bool_decide (b <> address)) (addresses c) = addresses c) as Hf.
    { apply filter_all_absent. rewrite (ok_keys c Hc), He. by intros [? ?]. }
    revert Hget. unfold c', set. rewrite He, Hm, Hf. cbn zeta. cbn [length].
    set (m := <[address := _]> (map_ c)) in *. set (l := (next_node c, address) :: order_ c) in *.
    assert (address :: addresses c = l.*2) as -> by done. assert (length l.*2 = S (length (order_ c))) as Hll by (rewrite length_fmap; done).
    destruct (max_cache_size <=? S (length (order_ c)))%nat eqn:Hfull; intros Hget.
    + apply Nat.leb_le in Hfull. assert (length l = max_cache_size) as Hlen by (cbn; lia).
      destruct (last l) as [[n b]|] eqn:El; [|by apply last_None in El].
      apply last_Some in El as [l' El]. rewrite El, removelast_last in *. rewrite (fmap_app fst) in H1. rewrite ?(fmap_app snd) in *. cbn in Hlen |- *.
      apply NoDup_app in H1 as (H1 & _ & _). apply NoDup_app in H2 as (H2 & Hb & _).
      assert (b ∉ l'.*2) as Hb' by (intros Hin; by apply (Hb b Hin), list_elem_of_singleton).
      rewrite length_app in Hlen. cbn in Hlen.
      assert (b <> address) as Hne.
      { intros ->. destruct l' as [|[n' b'] l']; [unfold max_cache_size in Hlen; cbn in Hlen; lia|]. unfold l in El. cbn in El.
        injection El as <- <- _. apply Hb'. by left. }
      split_and!.
      * split; unfold addresses; cbn [order_ map_ next_node].
        -- done.
        -- intros n' Hn'. apply H3, elem_of_app. by left.
        -- done.
        -- intros a. rewrite lookup_delete_is_Some, <- H4, elem_of_app. cbn. rewrite elem_of_cons. split; [|intros [? [?|[?|?%elem_of_nil]]]; by try congruence].
           intros Hin. split; [intros <-; by apply Hb'|by left].
        -- intros a e' Hl. apply lookup_delete_Some in Hl as [Hba Hl]. apply H5 in Hl. apply elem_of_app in Hl as [Hl|Hl]; [done|].
           apply list_elem_of_singleton in Hl as [= _ ->]. done.
        -- lia.
      * unfold addresses. cbn [order_]. rewrite take_app_length'; [done|]. rewrite length_fmap. unfold max_cache_size in Hlen. lia.
      * apply (Hget (next_node c)). cbn. rewrite lookup_delete_ne by done. unfold m. by rewrite lookup_insert_eq.
      * intros a Ha Hin. rewrite lookup_delete_ne; [unfold m; by rewrite lookup_insert_ne|]. intros ->. by apply Hb'.
    + apply Nat.leb_gt in Hfull. split_and!.
      * split; unfold addresses; cbn [order_ map_ next_node]; done.
      * unfold addresses. cbn [order_]. rewrite firstn_all2; [done|]. change (length l.*2 <= max_cache_size - 1)%nat. rewrite Hll. unfold max_cache_size in *. lia.
      * apply (Hget (next_node c)). cbn. unfold m. by rewrite lookup_insert_eq.
      * intros a Ha _. cbn. unfold m. by rewrite lookup_insert_ne.
Qed.
Lemma set_ok address subs ids c : cache_ok c -> cache_ok (set address subs ids c).
Proof. intros Hc. by apply (set_spec address subs ids c Hc). Qed.

(** [set] makes the cache a list of the most recently set addresses that
    never exceeds 999 entries, one below [max_cache_size]: the address moves to
    its front, and what falls off the end is evicted. The address' entry is
    the new one, valid for the given subaddresses only; the other entries that
    stay are as they were; every iterator still refers to its own node. *)
Theorem set_keeps_most_recent address subs ids c :
  cache_ok c ->
  let c' := set address subs ids c in
  cache_ok c' /\
  addresses c' = take (max_cache_size - 1) (address :: List.filter (fun b => bool_decide (b <> address)) (addresses c)) /\
  (forall subs', get address subs' c' = if bool_decide (subs' = subs) then list_to_set ids else ∅) /\
  forall a, a <> address -> a ∈ addresses c' -> map_ c' !! a = map_ c !! a.
Proof. apply set_spec. Qed.
End Cache.

(** ** [mempool] *)
Module Pool.
Import Cache Ownership.

Record pool_entry := PoolEntry { pe_tx : transaction; pe_timestamp : Z }.
Definition pool_table : Type := gmap hash pool_entry.

Record mempool := Mempool {
  state_ : pool_table;
  cache_ : address_cache;
  snapshot_ : option (list (hash * pool_entry))
}.

Record found_pool_tx := FoundPoolTx { fp_hash : hash; fp_spends : list spend; fp_outputs : list output }.

Section pool.
Context {WC : WalletCrypto} {LM : Lmdb} {SC : SubaddressCrypto}.
(** The order in which an [unordered_map] is walked. *)
Context (iterate : pool_table -> list (hash * pool_entry)).
Hypothesis iterate_all : forall m, iterate m ≡ₚ map_to_list m.

Definition add_tx (now : Z) (s : pool_table) (tx : transaction) : pool_table :=
  match s !! get_transaction_hash tx with
  | Some _ => s
  | None => <[get_transaction_hash tx := PoolEntry tx now]> s
  end.
Definition add_txs (now : Z) (txs : list transaction) (p : mempool) : mempool :=
  Mempool (foldl (add_tx now) (state_ p) txs) (cache_ p) None.
Definition reset_txs (txs : pool_table) (p : mempool) : mempool := Mempool txs (cache_ p) None.

(** The table the daemon's pool becomes; the hashes are the daemon's. *)
Definition pool_response (now : Z) (txs : list (hash * transaction)) : pool_table :=
  foldl (fun s e => match s !! e.1 with Some _ => s | None => <[e.1 := PoolEntry e.2 now]> s end) ∅ txs.

(** The first critical section of [scan_account]. *)
Definition begin_scan (address : account_address) (subs : list subaddress_dict) (p : mempool)
    : gset hash * list (hash * pool_entry) * mempool :=
  let skip := Cache.get address subs (cache_ p) in
  let snapshot := match snapshot_ p with Some l => l | None => iterate (state_ p) end in
  (skip, snapshot, Mempool (state_ p) (cache_ p) (Some snapshot)).

(** The second one. *)
Definition end_scan (address : account_address) (subs : list subaddress_dict) (skipped : list hash) (p : mempool) : mempool :=
  Mempool (state_ p) (Cache.set address subs skipped (cache_ p)) (snapshot_ p).

(** [if (found.empty() || found.back().hash != hash) found.push_back({hash})],
    then the change of the last element. *)
Definition on_last (h : hash) (f : found_pool_tx -> found_pool_tx) (found : list found_pool_tx) : list found_pool_tx :=
  match last found with
  | Some x => if fp_hash x =? h then removelast found ++ [f x] else found ++ [f (FoundPoolTx h [] [])]
  | None => [f (FoundPoolTx h [] [])]
  end.
Definition push_spend (s : spend) (x : found_pool_tx) : found_pool_tx :=
  FoundPoolTx (fp_hash x) (fp_spends x ++ [s]) (fp_outputs x).
Definition push_output (o : output) (x : found_pool_tx) : found_pool_tx :=
  FoundPoolTx (fp_hash x) (fp_spends x) (fp_outputs x ++ [o]).

Definition note_spend (user : Account.state) (s : spend) (found : list found_pool_tx) : Account.state * list found_pool_tx :=
  (user, on_last (tl_tx_hash (sp_link s)) (push_spend s) found).
Definition note_output (user : Account.state) (o : output) (reader : option tables) (found : list found_pool_tx)
    : Account.state * list found_pool_tx :=
  (user, on_last (tl_tx_hash (out_link o)) (push_output o) found).

Definition fake_outs : list Z := replicate 256 u64_max.

(** The last element of [found] is for this transaction. *)
Definition is_back (h : hash) (found : list found_pool_tx) : bool :=
  match last found with Some x => fp_hash x =? h | None => false end.

(** The loop over the snapshot. [ownership_test] only reads here, so the
    database it is given is the one of the caller's reader. *)
Fixpoint scan_snapshot (reader : tables) (skip : gset hash) (snapshot : list (hash * pool_entry)) (user : Account.state)
    (found : list found_pool_tx) (skipped : list hash) : expect (list found_pool_tx * list hash) :=
  match snapshot with
  | [] => Ok (found, skipped)
  | (h, entry) :: snapshot =>
    let* st :=
      if bool_decide (h ∈ skip) then Ok (user, found)
      else if pe_timestamp entry <? 0 then Err bad_numeric_cast
      else
        match scan_transaction Ok note_spend note_output [user] block_id_txpool (pe_timestamp entry) (Some h) (pe_tx entry)
                fake_outs (enable_borrowed reader (Env None reader found)) with
        | (Ok users, e) => Ok (default user (head users), e_calls e)
        | (Err err, _) => Err err
        end in
    let '(user, found) := st in
    scan_snapshot reader skip snapshot user found (if is_back h found then skipped else skipped ++ [h])
  end.

Definition scan_account (user : Account.state) (reader : tables) (p : mempool)
    : expect (list found_pool_tx) * mempool :=
  let subs := get_subaddresses (Account.id user) reader in
  match Account.db_address user with
  | Err err => (Err err, p)
  | Ok address =>
    let '(skip, snapshot, p) := begin_scan address subs p in
    match scan_snapshot reader skip snapshot user [] [] with
    | Err err => (Err err, p)
    | Ok (found, skipped) => (Ok found, end_scan address subs skipped p)
    end
  end.

(** ** Steps of concurrent threads *)

Inductive pool_step (p : mempool) : mempool -> Prop :=
| step_add now txs : pool_step p (add_txs now txs p)
| step_reset txs : pool_step p (reset_txs txs p)
| step_begin address subs : pool_step p (begin_scan address subs p).2
| step_end address subs skipped : pool_step p (end_scan address subs skipped p).

Record pool_ok (p : mempool) : Prop := {
  ok_cache : cache_ok (cache_ p);
  ok_snapshot l : snapshot_ p = Some l -> l ≡ₚ map_to_list (state_ p)
}.

(** ** Specification *)

(** What an account gets from a transaction of the pool. *)
Definition pool_events (reader : tables) (user : Account.state) (h : hash) (entry : pool_entry) : list event :=
  match parse block_id_txpool (pe_timestamp entry) (Some h) (pe_tx entry) fake_outs true with
  | None => []
  | Some t => events_of t (lookup_in (Some (Reader.borrow_reader reader))) true user
  end.

Definition event_spend (e : event) : option spend := match e with spent s => Some s | _ => None end.
Definition event_output (e : event) : option output := match e with received o => Some o | _ => None end.

Definition finds (reader : tables) (user : Account.state) (x : hash * pool_entry) : option found_pool_tx :=
  match pool_events reader user x.1 x.2 with
  | [] => None
  | evs => Some (FoundPoolTx x.1 (omap event_spend evs) (omap event_output evs))
  end.

(** The transactions the test can be run on. *)
Record entry_fits (entry : pool_entry) : Prop := {
  fits_time : 0 <= pe_timestamp entry;
  fits_version : tx_version (pe_tx entry) <= 2;
  fits_tx h t : parse block_id_txpool (pe_timestamp entry) (Some h) (pe_tx entry) fake_outs true = Some t -> fits t
}.

Definition event_hash (e : event) : hash :=
  match e with spent s => tl_tx_hash (sp_link s) | received o => tl_tx_hash (out_link o) end.

Lemma events_hash t lookup subaddress user e : e ∈ events_of t lookup subaddress user -> event_hash e = p_hash t.
Proof.
  unfold events_of. destruct (_ <=? _); [by intros ?%elem_of_nil|].
  destruct (Account.get_view_key user); [|by intros ?%elem_of_nil].
  destruct (Account.get_spend_public user); [|by intros ?%elem_of_nil].
  destruct (generate_key_derivation _ _); [|by intros ?%elem_of_nil].
  intros [(s & -> & Hs)%list_elem_of_fmap|(o & -> & Ho)%list_elem_of_fmap]%elem_of_app; cbn.
  - unfold spends_of in Hs. apply list_elem_of_In, in_concat in Hs as (l & Hl & Hs). apply list_elem_of_In in Hl, Hs.
    apply list_elem_of_fmap in Hl as (i & -> & _).
    unfold spends_of_input in Hs. destruct i; try by apply elem_of_nil in Hs.
    apply list_elem_of_omap in Hs as (g & _ & Hg). destruct (Account.get_spendable _ _); [|done]. cbn in Hg. by injection Hg as <-.
  - unfold outputs_of in Ho. by apply list_elem_of_fmap in Ho as (w & -> & _).
Qed.

Lemma on_last_new h f found :
  (forall x, x ∈ found -> fp_hash x <> h) -> on_last h f found = found ++ [f (FoundPoolTx h [] [])].
Proof.
  intros Hf. unfold on_last. destruct (last found) as [x|] eqn:E; [|by apply last_None in E as ->].
  rewrite (proj2 (Z.eqb_neq _ _)); [done|]. apply Hf. apply last_Some in E as [l ->]. apply elem_of_app. right. by left.
Qed.
Lemma on_last_same h f found x : fp_hash x = h -> on_last h f (found ++ [x]) = found ++ [f x].
Proof. intros <-. unfold on_last. rewrite last_snoc, Z.eqb_refl. by rewrite removelast_last. Qed.

Lemma replay_spent u f s r :
  replay note_spend note_output r (u, f) (spent s) = (u, on_last (tl_tx_hash (sp_link s)) (push_spend s) f).
Proof. done. Qed.
Lemma replay_received u f o r :
  replay note_spend note_output r (u, f) (received o) = (u, on_last (tl_tx_hash (out_link o)) (push_output o) f).
Proof. done. Qed.

Lemma replay_more h user found evs sp out :
  (forall e, e ∈ evs -> event_hash e = h) ->
  forall reader, foldl (replay note_spend note_output reader) (user, found ++ [FoundPoolTx h sp out]) evs =
    (user, found ++ [FoundPoolTx h (sp ++ omap event_spend evs) (out ++ omap event_output evs)]).
Proof.
  intros Hh reader. revert sp out. induction evs as [|e evs IH]; intros sp out; cbn [foldl].
  - cbn. by rewrite !app_nil_r.
  - assert (event_hash e = h) as He by (apply Hh; by left).
    destruct e as [s|o]; cbn [event_hash] in He; rewrite ?replay_spent, ?replay_received, He, on_last_same by done; unfold push_spend, push_output; cbn [fp_hash fp_spends fp_outputs].
    + rewrite IH by (intros e' ?; apply Hh; by right). cbn. by rewrite <- app_assoc.
    + rewrite IH by (intros e' ?; apply Hh; by right). cbn. by rewrite <- app_assoc.
Qed.

Lemma replay_found reader user h entry found r :
  (forall x, x ∈ found -> fp_hash x <> h) ->
  foldl (replay note_spend note_output r) (user, found) (pool_events reader user h entry) =
    (user, found ++ option_list (finds reader user (h, entry))).
Proof.
  intros Hf. unfold finds; cbn [fst snd].
  assert (forall e, e ∈ pool_events reader user h entry -> event_hash e = h) as Hh.
  { intros e. unfold pool_events. destruct (parse _ _ _ _ _ _) as [t|] eqn:E; [|by intros ?%elem_of_nil].
    intros ->%events_hash. unfold parse in E. destruct (find_tx_pub_key _); [|done]. by injection E as <-. }
  destruct (pool_events reader user h entry) as [|e evs]; cbn [foldl option_list]; [by rewrite app_nil_r|].
  assert (event_hash e = h) as He by (apply Hh; by left).
  assert (forall e', e' ∈ evs -> event_hash e' = h) as Hh' by (intros e' ?; apply Hh; by right).
  destruct e as [s|o]; cbn [event_hash] in He; rewrite ?replay_spent, ?replay_received, He, on_last_new by done.
  - unfold push_spend at 1. cbn [fp_hash fp_spends fp_outputs app]. rewrite replay_more by done. done.
  - unfold push_output at 1. cbn [fp_hash fp_spends fp_outputs app]. rewrite replay_more by done. done.
Qed.

Definition hits (reader : tables) (user : Account.state) (skip : gset hash) (x : hash * pool_entry) : option found_pool_tx :=
  if bool_decide (x.1 ∈ skip) then None else finds reader user x.
Definition misses (reader : tables) (user : Account.state) (skip : gset hash) (x : hash * pool_entry) : option hash :=
  match hits reader user skip x with Some _ => None | None => Some x.1 end.

Lemma scan_one_eq reader user h entry found :
  Account.immutable_ user <> None -> entry_fits entry -> (forall x, x ∈ found -> fp_hash x <> h) ->
  exists e, scan_transaction Ok note_spend note_output [user] block_id_txpool (pe_timestamp entry) (Some h) (pe_tx entry)
    fake_outs (enable_borrowed reader (Env None reader found)) = (Ok [user], e) /\
    e_calls e = found ++ option_list (finds reader user (h, entry)).
Proof.
  intros Hu Hfit Hf. rewrite scan_transaction_exec; [| | | | | |].
  - unfold enable_borrowed; cbn [e_subaddress e_calls is_some_b].
    destruct (parse block_id_txpool (pe_timestamp entry) (Some h) (pe_tx entry) fake_outs true) as [t|] eqn:Ep.
    + cbn [replay_users]. pose proof (replay_found reader user h entry found (get_reader (enable_borrowed reader (Env None reader found))) Hf) as Hr.
      unfold pool_events in Hr. rewrite Ep in Hr. unfold enable_borrowed in Hr; cbn [e_subaddress e_calls] in Hr.
      rewrite Hr. cbn [fst snd]. eexists. split; [done|]. done.
    + eexists. split; [done|]. unfold finds, pool_events. cbn [fst snd]. rewrite Ep. cbn. by rewrite app_nil_r.
  - done.
  - done.
  - done.
  - by constructor.
  - by apply fits_version.
  - intros t Ht. by apply (fits_tx entry Hfit h t).
Qed.

Lemma finds_hash reader user x f : finds reader user x = Some f -> fp_hash f = x.1.
Proof. unfold finds. destruct (pool_events _ _ _ _); [done|]. by intros [= <-]. Qed.

Lemma is_back_new h found : (forall x, x ∈ found -> fp_hash x <> h) -> is_back h found = false.
Proof.
  intros Hf. unfold is_back. destruct (last found) as [x|] eqn:E; [|done]. apply Z.eqb_neq, Hf.
  apply last_Some in E as [l ->]. apply elem_of_app. right. by left.
Qed.

Lemma scan_snapshot_eq reader skip user snapshot found skipped :
  Account.immutable_ user <> None -> NoDup snapshot.*1 ->
  (forall x, x ∈ snapshot -> x.1 ∉ skip -> entry_fits x.2) ->
  (forall x h, x ∈ found -> h ∈ snapshot.*1 -> fp_hash x <> h) ->
  scan_snapshot reader skip snapshot user found skipped =
    Ok (found ++ omap (hits reader user skip) snapshot, skipped ++ omap (misses reader user skip) snapshot).
Proof.
  intros Hu. revert found skipped. induction snapshot as [|[h entry] snapshot IH]; intros found skipped Hnd Hfit Hf; cbn [scan_snapshot].
  { cbn. by rewrite !app_nil_r. }
  cbn in Hnd. apply NoDup_cons in Hnd as [Hh Hnd].
  assert (forall x, x ∈ found -> fp_hash x <> h) as Hfh by (intros x Hx; apply (Hf x h Hx); by left).
  assert (exists found', (if bool_decide (h ∈ skip) then Ok (user, found)
      else if pe_timestamp entry <? 0 then Err bad_numeric_cast
      else match scan_transaction Ok note_spend note_output [user] block_id_txpool (pe_timestamp entry) (Some h) (pe_tx entry)
             fake_outs (enable_borrowed reader (Env None reader found)) with
           | (Ok users, e) => Ok (default user (head users), e_calls e)
           | (Err err, _) => Err err
           end) = Ok (user, found') /\ found' = found ++ option_list (hits reader user skip (h, entry))) as (found' & -> & Ef).
  { unfold hits; cbn [fst]. destruct (bool_decide_reflect (h ∈ skip)) as [Hin|Hin].
    - exists found. cbn. by rewrite app_nil_r.
    - pose proof (Hfit (h, entry) (list_elem_of_here _ _) Hin) as Hef. cbn in Hef.
      destruct (scan_one_eq reader user h entry found Hu Hef Hfh) as (e & -> & Ec).
      pose proof (fits_time entry Hef). destruct (pe_timestamp entry <? 0) eqn:Et; [apply Z.ltb_lt in Et; lia|].
      eexists. split; [done|]. exact Ec. }
  cbn [ebind].
  assert (is_back h found' = is_some_b (hits reader user skip (h, entry))) as ->.
  { rewrite Ef. destruct (hits reader user skip (h, entry)) as [f|] eqn:Eh; cbn.
    - unfold is_back. rewrite last_snoc. unfold hits in Eh. cbn in Eh. destruct (bool_decide _); [done|].
      apply finds_hash in Eh. cbn in Eh. by rewrite Eh, Z.eqb_refl.
    - rewrite app_nil_r. by apply is_back_new. }
  rewrite IH; [|done| |].
  - cbn [omap list_omap]. unfold misses at 2. rewrite Ef. destruct (hits reader user skip (h, entry)) as [f|]; cbn [is_some_b option_list].
    + by rewrite <- app_assoc.
    + by rewrite app_nil_r, <- app_assoc.
  - intros x Hx. apply Hfit. by right.
  - intros x h' Hx Hh'. rewrite Ef in Hx. apply elem_of_app in Hx as [Hx|Hx]; [apply Hf; [done|by right]|].
    destruct (hits reader user skip (h, entry)) as [f|] eqn:Eh; cbn in Hx; [|by apply elem_of_nil in Hx].
    apply list_elem_of_singleton in Hx as ->. unfold hits in Eh. cbn in Eh. destruct (bool_decide _); [done|].
    apply finds_hash in Eh. cbn in Eh. rewrite Eh. intros ->. done.
Qed.

Lemma begin_snapshot address subs p :
  pool_ok p -> (begin_scan address subs p).1.2 ≡ₚ map_to_list (state_ p).
Proof. intros Hp. cbn. destruct (snapshot_ p) as [l|] eqn:E; [by apply (ok_snapshot p Hp)|apply iterate_all]. Qed.

Lemma pool_step_ok p p' : pool_ok p -> pool_step p p' -> pool_ok p'.
Proof.
  intros Hp [now txs|txs|address subs|address subs skipped]; split; cbn [add_txs reset_txs begin_scan end_scan cache_ snapshot_ state_ snd].
  1,3,5: apply (ok_cache p Hp).
  - done.
  - done.
  - intros l [= <-]. apply (begin_snapshot address subs p Hp).
  - apply set_ok, (ok_cache p Hp).
  - apply (ok_snapshot p Hp).
Qed.

Lemma scan_account_run user reader p address :
  pool_ok p -> Account.immutable_ user <> None -> Account.db_address user = Ok address ->
  (forall h entry, state_ p !! h = Some entry -> entry_fits entry) ->
  let subs := get_subaddresses (Account.id user) reader in
  let skip := Cache.get address subs (cache_ p) in
  exists l p', l ≡ₚ map_to_list (state_ p) /\
    scan_account user reader p = (Ok (omap (hits reader user skip) l), p') /\
    state_ p' = state_ p /\ pool_ok p' /\
    forall h, h ∈ Cache.get address subs (cache_ p') <-> exists entry, state_ p !! h = Some entry /\ hits reader user skip (h, entry) = None.
Proof.
  intros Hp Hu Ha Hfit subs skip. pose proof (begin_snapshot address subs p Hp) as Hl.
  unfold scan_account. rewrite Ha. fold subs. destruct (begin_scan address subs p) as [[skip' l] p1] eqn:Eb.
  cbn [fst snd] in Hl. assert (skip' = skip /\ state_ p1 = state_ p /\ cache_ p1 = cache_ p /\ pool_ok p1) as (-> & Hs1 & Hc1 & Hp1).
  { pose proof (pool_step_ok p _ Hp (step_begin p address subs)) as Hp1. rewrite Eb in Hp1.
    unfold begin_scan in Eb. injection Eb as <- _ <-. done. }
  rewrite scan_snapshot_eq; [|done| | |by intros x h ?%elem_of_nil].
  - exists l. eexists. split; [exact Hl|]. split; [done|]. split; [done|].
    split; [apply (pool_step_ok p1); [done|apply step_end]|]. intros h. cbn [end_scan cache_].
    destruct (set_spec address subs ([] ++ omap (misses reader user skip) l) (cache_ p1) (ok_cache p1 Hp1)) as (_ & _ & Hg & _).
    rewrite Hg, bool_decide_eq_true_2 by done. rewrite elem_of_list_to_set. cbn [app].
    rewrite list_elem_of_omap. split.
    + intros ([h' entry] & Hin & Hm). unfold misses in Hm. destruct (hits reader user skip (h', entry)) eqn:E; [done|].
      cbn in Hm. injection Hm as ->. rewrite Hl in Hin. apply elem_of_map_to_list in Hin. by exists entry.
    + intros (entry & Hin & Hm). exists (h, entry). split; [by rewrite Hl; apply elem_of_map_to_list|].
      unfold misses. by rewrite Hm.
  - rewrite Hl. apply NoDup_fst_map_to_list.
  - intros [h entry] Hx _. rewrite Hl in Hx. apply elem_of_map_to_list in Hx. by eapply Hfit.
Qed.
End pool.

(** C38: [scan_account] finds exactly what the transactions of the pool hold for
    the account, if the transactions cached for its address and subaddresses hold
    nothing ([cached_spend_is_missed] has one that does) and the transactions of
    the pool fit. Afterwards the cached ones are precisely the
    transactions of the pool that hold nothing, so that the next scan of the
    same account finds everything again. *)
Theorem scan_account_finds {WC : WalletCrypto} {LM : Lmdb} {SC : SubaddressCrypto} iterate user reader p address :
  (forall m, iterate m ≡ₚ map_to_list m) ->
  pool_ok p -> Account.immutable_ user <> None -> Account.db_address user = Ok address ->
  (forall h entry, state_ p !! h = Some entry -> entry_fits entry) ->
  let cached := Cache.get address (get_subaddresses (Account.id user) reader) in
  (forall h entry, state_ p !! h = Some entry -> h ∈ cached (cache_ p) -> finds reader user (h, entry) = None) ->
  exists found p', scan_account iterate user reader p = (Ok found, p') /\
    found ≡ₚ omap (finds reader user) (map_to_list (state_ p)) /\
    state_ p' = state_ p /\ pool_ok p' /\
    forall h, h ∈ cached (cache_ p') <-> exists entry, state_ p !! h = Some entry /\ finds reader user (h, entry) = None.
Proof.
  intros Hit Hp Hu Ha Hfit cached Hsound.
  destruct (scan_account_run iterate Hit user reader p address Hp Hu Ha Hfit) as (l & p' & Hl & E & Hs & Hp' & Hc).
  assert (forall x, x ∈ map_to_list (state_ p) -> hits reader user (cached (cache_ p)) x = finds reader user x) as Heq.
  { intros [h entry] Hx%elem_of_map_to_list. unfold hits. cbn. destruct (bool_decide_reflect (h ∈ cached (cache_ p))); [|done].
    symmetry. by apply Hsound. }
  exists (omap (hits reader user (cached (cache_ p))) l), p'. split; [exact E|]. split.
  - rewrite Hl. generalize Heq. generalize (map_to_list (state_ p)). clear. intros l Heq.
    assert (omap (hits reader user (cached (cache_ p))) l = omap (finds reader user) l) as ->; [|done].
    apply list_omap_ext, Forall2_same_length_lookup. split; [done|]. intros i x y Hx Hy. rewrite Hx in Hy. injection Hy as <-.
    by eapply Heq, list_elem_of_lookup_2.
  - split; [done|]. split; [done|]. intros h. unfold cached in *. rewrite Hc. split; intros (entry & Hin & Hn); exists entry; split; try done.
    + by rewrite <- Heq by (by apply elem_of_map_to_list).
    + by rewrite Heq by (by apply elem_of_map_to_list).
Qed.

(** the cache does not know the outputs of an account. A transaction that
    holds nothing for it when the pool is first scanned is not looked at again,
    even when by then the account has received the output it spends. *)
Theorem cached_spend_is_missed {WC : WalletCrypto} {LM : Lmdb} {SC : SubaddressCrypto} iterate user user' reader p address h entry f :
  (forall m, iterate m ≡ₚ map_to_list m) ->
  pool_ok p -> Account.immutable_ user <> None -> Account.immutable_ user' = Account.immutable_ user ->
  Account.db_address user = Ok address ->
  (forall h entry, state_ p !! h = Some entry -> entry_fits entry) ->
  state_ p !! h = Some entry -> finds reader user (h, entry) = None -> finds reader user' (h, entry) = Some f ->
  exists found p1 found' p2,
    scan_account iterate user reader p = (Ok found, p1) /\
    scan_account iterate user' reader p1 = (Ok found', p2) /\ state_ p1 = state_ p /\
    (forall x, x ∈ found' -> fp_hash x <> h) /\
    exists found'' p3, scan_account iterate user' reader (Mempool (state_ p) empty_cache None) = (Ok found'', p3) /\ f ∈ found''.
Proof.
  intros Hit Hp Hu Hu' Ha Hfit Hin Hnone Hsome.
  destruct (scan_account_run iterate Hit user reader p address Hp Hu Ha Hfit) as (l & p1 & Hl & E1 & Hs1 & Hp1 & Hc1).
  assert (Account.db_address user' = Ok address /\ Account.id user' = Account.id user) as [Ha' Hid].
  { unfold Account.db_address, Account.null_check, Account.id in *. by rewrite Hu'. }
  destruct (scan_account_run iterate Hit user' reader p1 address) as (l2 & p2 & Hl2 & E2 & _); [done|by rewrite Hu'|done|by rewrite Hs1|].
  destruct (scan_account_run iterate Hit user' reader (Mempool (state_ p) empty_cache None) address) as (l3 & p3 & Hl3 & E3 & _);
    [split; [apply empty_cache_ok|done]|by rewrite Hu'|done|done|].
  eexists _, p1, _, p2. split; [exact E1|]. split; [exact E2|]. split; [done|]. split.
  2: { eexists _, p3. split; [exact E3|]. apply list_elem_of_omap. exists (h, entry).
    split; [rewrite Hl3; by apply elem_of_map_to_list|]. exact Hsome. }
  intros x (y & Hy & Hx)%list_elem_of_omap Hh. unfold hits in Hx. destruct (bool_decide_reflect (y.1 ∈ Cache.get address (get_subaddresses (Account.id user') reader) (cache_ p1))) as [|Hn]; [done|].
  apply Hn. apply finds_hash in Hx. rewrite <- Hx, Hh, Hid. apply Hc1. exists entry. split; [done|].
  unfold hits. by destruct (bool_decide _).
Qed.
End Pool.

(** ** A pool with one transaction *)
Module MempoolSample.
Import Cache Ownership Pool Reference OwnershipSample.

#[local] Instance sub_crypto : SubaddressCrypto := SubaddressSample.crypto.
#[local] Instance crypto : WalletCrypto := OwnershipSample.wallet_crypto.

(** It spends output 8 of the account and pays nobody here. *)
Definition sweep : transaction := Transaction 2 0 [txin_to_key 0 [5; 3] 77] [TxOut 0 9999] [200] 6 [0] [EcdhTuple 0 0].
Definition entry : pool_entry := PoolEntry sweep 1234.
Definition pool : mempool := Mempool {[ 4000 := entry ]} empty_cache None.
(** The account before it has received output 8. *)
Definition unaware : Account.state := Account.construct no_string SubaddressSample.user [] [].

Lemma pool_is_ok : pool_ok pool.
Proof. split; [apply empty_cache_ok|discriminate]. Qed.
Lemma pool_fits h e : state_ pool !! h = Some e -> entry_fits e.
Proof.
  unfold pool; cbn [state_]. intros [<- <-]%lookup_singleton_Some. split; cbn; [lia|lia|].
  intros h' t [= <-]. split; cbn.
  - constructor; [|constructor]. vm_compute. discriminate.
  - vm_compute. discriminate.
  - lia.
  - intros _ _. lia.
Qed.
Definition swept : found_pool_tx :=
  default (FoundPoolTx 0 [] []) (finds borrowed user (4000, entry)).
Lemma swept_found : finds borrowed user (4000, entry) = Some swept.
Proof. vm_compute. reflexivity. Qed.
Lemma unaware_finds : finds borrowed unaware (4000, entry) = None.
Proof. vm_compute. reflexivity. Qed.
Lemma pool_entry_eq : state_ pool !! 4000 = Some entry.
Proof. vm_compute. reflexivity. Qed.

Lemma set_keeps_most_recent_witness :
  let c := set SubaddressSample.addr [] [7] empty_cache in
  addresses c = [SubaddressSample.addr] /\ get SubaddressSample.addr [] c = list_to_set [7] /\ cache_ok c.
Proof.
  destruct (set_keeps_most_recent SubaddressSample.addr [] [7] empty_cache empty_cache_ok) as (H1 & H2 & H3 & _).
  split; [exact H2|]. split; [exact (H3 [])|exact H1].
Defined.

Lemma nothing_cached h e :
  state_ pool !! h = Some e -> h ∈ Cache.get SubaddressSample.addr (get_subaddresses 1 borrowed) (cache_ pool) ->
  finds borrowed user (h, e) = None.
Proof. intros _ Hh. by apply elem_of_empty in Hh. Qed.

Lemma pool_found : omap (finds borrowed user) (map_to_list (state_ pool)) = [swept].
Proof. vm_compute. reflexivity. Qed.

Lemma scan_account_finds_witness :
  exists found p', scan_account map_to_list user borrowed pool = (Ok found, p') /\ found ≡ₚ [swept].
Proof.
  destruct (scan_account_finds map_to_list user borrowed pool SubaddressSample.addr
    (fun m => Permutation_refl _) pool_is_ok ltac:(discriminate) eq_refl pool_fits nothing_cached)
    as (found & p' & E & Hf & _).
  exists found, p'. split; [exact E|]. exact (eq_ind _ (fun l => found ≡ₚ l) Hf _ pool_found).
Defined.

Lemma cached_spend_is_missed_witness :
  exists found p1 found' p2,
    scan_account map_to_list unaware borrowed pool = (Ok found, p1) /\
    scan_account map_to_list user borrowed p1 = (Ok found', p2) /\ forall x, x ∈ found' -> fp_hash x <> 4000.
Proof.
  destruct (cached_spend_is_missed map_to_list unaware user borrowed pool SubaddressSample.addr 4000 entry swept
    (fun m => Permutation_refl _) pool_is_ok ltac:(discriminate) eq_refl eq_refl pool_fits pool_entry_eq
    unaware_finds swept_found) as (found & p1 & found' & p2 & H1 & H2 & _ & H3 & _).
  exists found, p1, found', p2. split; [exact H1|]. split; [exact H2|exact H3].
Defined.
End MempoolSample.
