(* ===== verification/Threads.v ===== *)
(** The distribution of accounts over the local scanner threads: the queue each
    thread reads (src/rpc/scanner/queue.h, src/rpc/scanner/queue.cpp) and the
    first assignment, which [check_loop] (src/scanner.cpp) makes by the number
    of accounts or by the depth of the blocks that are left to scan. *)

From Stdlib Require Import SpecFloat.
From S2P Require Import Prelude Data Account.

(** ** The queue of a scanner thread

    Each member function holds [sync_] from its first to its last access, so it
    is one step. *)
Module Queue.

Record status := Status {
  st_replace : option (list Account.state);
  st_push : list Account.state;
  st_user_count : Z
}.

Record queue := MkQueue {
  replace_ : option (list Account.state);
  push_ : list Account.state;
  user_count_ : Z;
  current_min_height_ : block_id;
  stop_ : bool
}.

Definition construct : queue := MkQueue None [] 0 0 false.

Definition do_get_accounts (q : queue) : status * queue :=
  (Status (replace_ q) (push_ q) (user_count_ q),
   MkQueue None [] (user_count_ q) (current_min_height_ q) (stop_ q)).

Definition stop (q : queue) : queue :=
  MkQueue (replace_ q) (push_ q) (user_count_ q) (current_min_height_ q) true.

Definition user_count (q : queue) : Z := user_count_ q.
Definition current_min_height (q : queue) : block_id := current_min_height_ q.

Definition update_min_height (height : block_id) (q : queue) : queue :=
  MkQueue (replace_ q) (push_ q) (user_count_ q) (Z.max height (current_min_height_ q)) (stop_ q).

Definition has_accounts (q : queue) : bool := is_some_b (replace_ q) || negb (bool_decide (push_ q = [])).

Definition get_accounts (q : queue) : status * queue := do_get_accounts q.

(** [wait_for_accounts] waits on [poll_] while the result is [None]. *)
Definition wait_for_accounts (q : queue) : option (status * queue) :=
  if has_accounts q || stop_ q then Some (do_get_accounts q) else None.

(** [std::min_element] by [scan_height]: the first of the least. *)
Fixpoint min_element (best : Account.state) (users : list Account.state) : Account.state :=
  match users with
  | [] => best
  | u :: users => min_element (if Account.scan_height u <? Account.scan_height best then u else best) users
  end.

Definition replace_accounts (users : list Account.state) (q : queue) : queue :=
  MkQueue (Some users) [] (Z.of_nat (length users))
    (match users with [] => 0 | u :: users => Account.scan_height (min_element u users) end) (stop_ q).

Definition lower_min (m : block_id) (u : Account.state) : block_id :=
  if (m =? 0) || (Account.scan_height u <? m) then Account.scan_height u else m.

Definition push_accounts (users : list Account.state) (q : queue) : queue :=
  MkQueue (replace_ q) (push_ q ++ users) (u64 (user_count_ q + Z.of_nat (length users)))
    (foldl lower_min (current_min_height_ q) users) (stop_ q).

(** What the worker makes of a status, in [scanner::loop] and [do_scan_loop]. *)
Definition take_status (users : list Account.state) (s : status) : list Account.state :=
  default users (st_replace s) ++ st_push s.

(** *** The queue as a mailbox

    The producers replace and push accounts and the worker takes its work and
    reports its height, in any order. *)
Inductive op :=
| Replace (users : list Account.state)
| Push (users : list Account.state)
| Take
| Progress (height : block_id)
| Stop.

Definition exec (st : queue * list Account.state) (o : op) : queue * list Account.state :=
  let '(q, users) := st in
  match o with
  | Replace new => (replace_accounts new q, users)
  | Push new => (push_accounts new q, users)
  | Take => let '(s, q) := get_accounts q in (q, take_status users s)
  | Progress height => (update_min_height height q, users)
  | Stop => (stop q, users)
  end.
Definition run (ops : list op) (users : list Account.state) : queue * list Account.state :=
  foldl exec (construct, users) ops.

(** The specification: what the producers asked the worker to scan. *)
Definition wanted_step (users : list Account.state) (o : op) : list Account.state :=
  match o with Replace new => new | Push new => users ++ new | _ => users end.
Definition wanted (ops : list op) (users : list Account.state) : list Account.state := foldl wanted_step users ops.

Definition delivered (st : queue * list Account.state) : list Account.state := take_status st.2 (get_accounts st.1).1.

Lemma exec_delivers st o : delivered (exec st o) = wanted_step (delivered st) o.
Proof.
  destruct st as [[r p n m b] users], o; unfold delivered, take_status; cbn; rewrite ?app_assoc, ?app_nil_r; done.
Qed.

Lemma run_delivers ops st : delivered (foldl exec st ops) = wanted ops (delivered st).
Proof. revert st. induction ops as [|o ops IH]; intros st; [done|]. simpl. by rewrite IH, exec_delivers. Qed.

Definition count_step (n : Z) (o : op) : Z :=
  match o with Replace new => Z.of_nat (length new) | Push new => n + Z.of_nat (length new) | _ => n end.

Lemma exec_count st o : exists n, user_count (exec st o).1 = n /\ u64 n = u64 (count_step (user_count st.1) o).
Proof. destruct st as [[r p n m b] users], o; eexists; split; try reflexivity; cbn; unfold u64; by rewrite ?Zmod_mod. Qed.

Lemma count_wanted ops st n users :
  u64 (user_count st.1) = u64 n -> n = Z.of_nat (length users) ->
  u64 (user_count (foldl exec st ops).1) = u64 (Z.of_nat (length (wanted ops users))).
Proof.
  revert st n users. induction ops as [|o ops IH]; intros st n users Hu Hn; simpl; [by rewrite Hu, Hn|].
  apply (IH _ (count_step n o)).
  - destruct (exec_count st o) as (m & -> & ->). destruct o; cbn; try done.
    by rewrite <- (u64_add_l (user_count st.1)), Hu, u64_add_l.
  - subst n. destruct o; cbn; rewrite ?length_app; lia.
Qed.

Lemma min_element_spec users best :
  min_element best users ∈ best :: users /\
  forall u, u ∈ best :: users -> Account.scan_height (min_element best users) <= Account.scan_height u.
Proof.
  revert best. induction users as [|v users IH]; intros best; simpl.
  - split; [by left|]. intros u Hu. apply list_elem_of_singleton in Hu as ->. lia.
  - destruct (Account.scan_height v <? Account.scan_height best) eqn:E;
      [destruct (IH v) as [Hin Hle]|destruct (IH best) as [Hin Hle]].
    + split; [by right|]. intros u [->|Hu]%elem_of_cons; [|auto]. pose proof (Hle v ltac:(by left)). lia.
    + split; [apply elem_of_cons in Hin as [->|Hin]; [by left|by do 2 right]|].
      intros u [->|[->|Hu]%elem_of_cons]%elem_of_cons; [apply Hle; by left| |apply Hle; by right].
      pose proof (Hle best ltac:(by left)). lia.
Qed.

Lemma lower_min_one m u :
  m <> 0 -> 0 < Account.scan_height u -> lower_min m u <> 0 /\ lower_min m u <= m /\ lower_min m u <= Account.scan_height u.
Proof.
  unfold lower_min. intros Hm Hu. rewrite (proj2 (Z.eqb_neq m 0) Hm). simpl.
  destruct (Z.ltb_spec (Account.scan_height u) m); lia.
Qed.

Lemma lower_min_all users m :
  m <> 0 -> (forall v, v ∈ users -> 0 < Account.scan_height v) ->
  foldl lower_min m users <= m /\ forall u, u ∈ users -> foldl lower_min m users <= Account.scan_height u.
Proof.
  revert m. induction users as [|v users IH]; intros m Hm Hpos; simpl; [split; [lia|intros u Hu; by apply elem_of_nil in Hu]|].
  destruct (lower_min_one m v Hm ltac:(apply Hpos; by left)) as (H0 & H1 & H2).
  destruct (IH (lower_min m v) H0 ltac:(intros; apply Hpos; by right)) as [IH1 IH2].
  split; [lia|]. intros u [->|Hu]%elem_of_cons; [lia|auto].
Qed.

(** Until the worker reports its progress the recorded height bounds every
    account it was given. *)
Lemma handed_out_bounded u users new q v :
  (forall w, w ∈ (u :: users) ++ new -> 0 < Account.scan_height w) -> v ∈ (u :: users) ++ new ->
  current_min_height (push_accounts new (replace_accounts (u :: users) q)) <= Account.scan_height v.
Proof.
  intros Hpos Hv. destruct (min_element_spec users u) as [Hin Hle].
  assert (0 < Account.scan_height (min_element u users)) as Hm by (apply Hpos, elem_of_app; by left).
  destruct (lower_min_all new (Account.scan_height (min_element u users)) ltac:(lia)) as [H1 H2].
  { intros w Hw. apply Hpos, elem_of_app. by right. }
  cbn. apply elem_of_app in Hv as [Hv|Hv]; [etrans; [exact H1|by apply Hle]|by apply H2].
Qed.

(** The height of a pushed account is forgotten when the worker reports its
    progress before it takes the account. *)
Lemma progress_forgets_push q u height :
  current_min_height q <= height -> 0 < Account.scan_height u < height ->
  current_min_height (update_min_height height (push_accounts [u] q)) = height /\
  u ∈ st_push (get_accounts (update_min_height height (push_accounts [u] q))).1.
Proof.
  intros Hm Hu. split; [|cbn; apply elem_of_app; right; by left].
  cbn. unfold current_min_height in Hm. unfold lower_min. destruct (_ || _); lia.
Qed.

(** Whatever the interleaving of the producers and the worker, the worker
    that takes the queue next has exactly the accounts the producers asked for,
    in order: the last replacement, or the accounts the thread was created
    with, and everything pushed since. [user_count] counts the same accounts
    except the ones the thread was created with. *)
Theorem queue_delivers ops users :
  delivered (run ops users) = wanted ops users /\
  u64 (user_count (run ops users).1) = u64 (Z.of_nat (length (wanted ops []))).
Proof.
  split; [unfold run; rewrite run_delivers; unfold delivered, take_status; cbn; by rewrite app_nil_r|]. by apply (count_wanted ops (construct, users) 0 []).
Qed.

End Queue.

(** ** The first assignment of accounts to threads, in [check_loop] *)
Module Assign.

Record scanner_options := ScannerOptions {
  split_sync_threads : spec_float;
  split_sync_depth : Z;
  min_block_depth : Z;
  max_subaddresses : Z;
  untrusted_daemon : bool;
  regtest : bool;
  block_depth_threading : bool;
  balance_new_addresses : bool
}.

(** A [double] is a binary64 number of [SpecFloat]. *)
Definition double_of_size (n : Z) : spec_float := binary_normalize 53 1024 n 0 false.
Definition ceil_to_size (d : spec_float) : Z :=
  match d with
  | S754_finite s m e =>
    let v := if s then Z.neg m else Z.pos m in
    if 0 <=? e then v * 2 ^ e else - ((- v) / 2 ^ (- e))
  | _ => 0
  end.
Definition split_enabled (opts : scanner_options) : bool := SFltb (S754_zero false) (split_sync_threads opts).
Definition num_synced_threads (opts : scanner_options) (thread_count : Z) : Z :=
  Z.max 1 (ceil_to_size (SFmul 53 1024 (split_sync_threads opts) (double_of_size thread_count))).

Record account_depth := AccountDepth {
  ad_index : nat;
  blockdepth : Z;
  raw_blockdepth : Z
}.
Definition raw_depth (current_height : block_id) (u : Account.state) : Z := u64 (current_height - Account.scan_height u).
Definition depth (opts : scanner_options) (current_height : block_id) (u : Account.state) : Z :=
  Z.max (raw_depth current_height u) (min_block_depth opts).
Definition account_depths (opts : scanner_options) (current_height : block_id) (users : list Account.state) : list account_depth :=
  imap (fun i u => AccountDepth i (depth opts current_height u) (raw_depth current_height u)) users.
Definition by_raw_depth (a b : account_depth) : bool := raw_blockdepth a <? raw_blockdepth b.

(** [std::move(users[i])]: the account that stays in [users] is empty. *)
Definition moved_from (u : Account.state) : Account.state := Account.State None [] [] [] [] (Account.height_ u).

(** The vector of assignments and the vector the accounts are moved from. An
    index out of range, undefined in C++, is an error here. *)
Definition assignment : Type := list (list Account.state) * list Account.state.
Definition assign_account (thread : Z) (ad : account_depth) (st : assignment) : expect assignment :=
  match st.2 !! ad_index ad with
  | None => Err out_of_range
  | Some u =>
    if (0 <=? thread) && (thread <? Z.of_nat (length st.1))
    then Ok (alter (fun l => l ++ [u]) (Z.to_nat thread) st.1, <[ad_index ad := moved_from u]> st.2)
    else Err out_of_range
  end.

Fixpoint assign_synced (actual_synced_threads : Z) (i : Z) (synced : list account_depth) (st : assignment) : expect assignment :=
  match synced with
  | [] => Ok st
  | ad :: synced =>
    let* st := assign_account (i mod actual_synced_threads) ad st in
    assign_synced actual_synced_threads (i + 1) synced st
  end.

Definition should_move (start last blockdepth_per_thread current_thread current_depth : Z) (ad : account_depth) : bool :=
  if current_thread <? last then
    if (current_thread - start) mod 2 =? 0 then blockdepth_per_thread <=? current_depth
    else blockdepth_per_thread <? u64 (current_depth + blockdepth ad)
  else false.

Fixpoint assign_by_depth (start last blockdepth_per_thread current_thread current_depth : Z)
    (accounts : list account_depth) (st : assignment) : expect assignment :=
  match accounts with
  | [] => Ok st
  | ad :: accounts =>
    let '(current_thread, current_depth) :=
      if should_move start last blockdepth_per_thread current_thread current_depth ad
      then (current_thread + 1, 0) else (current_thread, current_depth) in
    let* st := assign_account current_thread ad st in
    assign_by_depth start last blockdepth_per_thread current_thread (u64 (current_depth + blockdepth ad)) accounts st
  end.

Definition total_blockdepth (accounts : list account_depth) : Z := foldl (fun n ad => u64 (n + blockdepth ad)) 0 accounts.

Definition distribute (start num_threads : Z) (accounts : list account_depth) (st : assignment) : expect assignment :=
  if negb (bool_decide (accounts = [])) && (0 <? num_threads)
  then assign_by_depth start (u64 (start + num_threads - 1)) (total_blockdepth accounts / num_threads) start 0 accounts st
  else Ok st.

Definition is_synced (opts : scanner_options) (ad : account_depth) : bool := raw_blockdepth ad <=? split_sync_depth opts.

Definition assign_block_depth (opts : scanner_options) (thread_count : Z) (current_height : block_id)
    (users : list Account.state) : expect assignment :=
  let accounts := std_sort by_raw_depth (account_depths opts current_height users) in
  let st : assignment := (replicate (Z.to_nat thread_count) [], users) in
  if split_enabled opts then
    let unsynced := List.filter (fun ad => negb (is_synced opts ad)) accounts in
    match List.filter (is_synced opts) accounts with
    | [] => distribute 0 thread_count unsynced st
    | synced =>
      let num_synced := num_synced_threads opts thread_count in
      let* st := assign_synced (Z.min num_synced (Z.of_nat (length synced))) 0 synced st in
      distribute num_synced (u64 (thread_count - num_synced)) unsynced st
    end
  else distribute 0 thread_count accounts st.

(** The original algorithm, once [users] is sorted: each queue takes its share
    from the end of what is left. *)
Fixpoint split_even (queues : nat) (users : list Account.state) : list (list Account.state) :=
  match queues with
  | O => []
  | S queues' =>
    let count := (length users / queues)%nat in
    drop (length users - count) users :: split_even queues' (take (length users - count) users)
  end.

Definition check_loop_assign (opts : scanner_options) (thread_count : Z) (current_height : block_id)
    (users : list Account.state) : expect (list (list Account.state)) :=
  if block_depth_threading opts
  then let* st := assign_block_depth opts thread_count current_height users in Ok st.1
  else Ok (split_even (Z.to_nat thread_count) (std_sort Account.by_height users)).

#[export] Instance by_raw_depth_weak : WeakLt by_raw_depth.
Proof. apply (weak_on raw_blockdepth Z.ltb), _. Qed.
#[export] Instance by_height_weak : WeakLt Account.by_height.
Proof. apply (weak_on Account.scan_height Z.ltb), _. Qed.

(** *** A plan: the thread of each account, in the order of the moves *)
Definition fetch (users : list Account.state) (ad : account_depth) : Account.state :=
  default Account.empty_account (users !! ad_index ad).
Definition put (users : list Account.state) (asg : list (list Account.state)) (p : Z * account_depth) : list (list Account.state) :=
  alter (fun l => l ++ [fetch users p.2]) (Z.to_nat p.1) asg.
Definition place (users : list Account.state) (plan : list (Z * account_depth)) (asg : list (list Account.state)) :=
  foldl (put users) asg plan.
Definition assign_plan (plan : list (Z * account_depth)) (st : assignment) : expect assignment :=
  efold (fun st p => assign_account p.1 p.2 st) st plan.

Fixpoint synced_plan (n i : Z) (synced : list account_depth) : list (Z * account_depth) :=
  match synced with [] => [] | ad :: synced => (i mod n, ad) :: synced_plan n (i + 1) synced end.
Fixpoint depth_plan (start last per_thread thread d : Z) (accounts : list account_depth) : list (Z * account_depth) :=
  match accounts with
  | [] => []
  | ad :: accounts =>
    let '(thread, d) := if should_move start last per_thread thread d ad then (thread + 1, 0) else (thread, d) in
    (thread, ad) :: depth_plan start last per_thread thread (u64 (d + blockdepth ad)) accounts
  end.

Lemma assign_synced_plan n i synced st : assign_synced n i synced st = assign_plan (synced_plan n i synced) st.
Proof. revert i st. induction synced as [|ad synced IH]; intros i st; [done|]. cbn. destruct (assign_account _ _ _); [apply IH|done]. Qed.

Lemma assign_by_depth_plan start last per t d accounts st :
  assign_by_depth start last per t d accounts st = assign_plan (depth_plan start last per t d accounts) st.
Proof.
  revert t d st. induction accounts as [|ad accounts IH]; intros t d st; [done|]. cbn.
  destruct (should_move _ _ _ _ _ _); cbn; destruct (assign_account _ _ _); try done; apply IH.
Qed.

Lemma synced_plan_accounts n i synced : (synced_plan n i synced).*2 = synced.
Proof. revert i. induction synced as [|ad synced IH]; intros i; cbn; [done|by rewrite IH]. Qed.
Lemma synced_plan_range n i synced : 0 < n -> Forall (fun p => 0 <= p.1 < n) (synced_plan n i synced).
Proof. intros Hn. revert i. induction synced; intros i; cbn; constructor; [apply Z.mod_pos_bound; lia|done]. Qed.
Lemma depth_plan_accounts start last per t d accounts : (depth_plan start last per t d accounts).*2 = accounts.
Proof.
  revert t d. induction accounts as [|ad accounts IH]; intros t d; cbn; [done|].
  destruct (should_move _ _ _ _ _ _); cbn; by rewrite IH.
Qed.
Lemma depth_plan_range start last per t d accounts :
  t <= last -> Forall (fun p => t <= p.1 <= last) (depth_plan start last per t d accounts).
Proof.
  revert t d. induction accounts as [|ad accounts IH]; intros t d Ht; cbn; [constructor|].
  destruct (should_move start last per t d ad) eqn:E; constructor; cbn; try lia.
  - unfold should_move in E. destruct (Z.ltb_spec t last); [lia|done].
  - unfold should_move in E. destruct (Z.ltb_spec t last); [|done].
    eapply Forall_impl; [apply IH; lia|]. cbn. lia.
  - apply IH, Ht.
Qed.

Lemma place_cons users p plan asg : place users (p :: plan) asg = place users plan (put users asg p).
Proof. done. Qed.
Lemma length_place users plan asg : length (place users plan asg) = length asg.
Proof. revert asg. induction plan as [|p plan IH]; intros asg; [done|]. rewrite place_cons, IH. unfold put. by rewrite length_alter. Qed.

Lemma place_app users plan1 plan2 asg : place users (plan1 ++ plan2) asg = place users plan2 (place users plan1 asg).
Proof. apply foldl_app. Qed.

Lemma concat_alter {A} (x : A) i (l : list (list A)) :
  (i < length l)%nat -> concat (alter (fun a => a ++ [x]) i l) ≡ₚ concat l ++ [x].
Proof.
  revert i. induction l as [|a l IH]; intros [|i] Hi; cbn in *; try lia.
  - rewrite <- !app_assoc. apply Permutation_app_head, Permutation_app_comm.
  - rewrite <- app_assoc. apply Permutation_app_head, IH. lia.
Qed.

Lemma concat_place users plan asg :
  Forall (fun p => 0 <= p.1 < Z.of_nat (length asg)) plan ->
  concat (place users plan asg) ≡ₚ concat asg ++ (fetch users <$> plan.*2).
Proof.
  revert asg. induction plan as [|p plan IH]; intros asg Hp; [cbn; by rewrite app_nil_r|].
  apply Forall_cons in Hp as [Hp Hr]. rewrite place_cons, IH.
  - unfold put. rewrite concat_alter by lia. by rewrite <- app_assoc.
  - unfold put. by rewrite length_alter.
Qed.

Lemma lookup_place users plan asg t :
  0 <= t -> Forall (fun p => 0 <= p.1) plan ->
  place users plan asg !! Z.to_nat t =
  (fun l => l ++ (fetch users <$> (List.filter (fun p => p.1 =? t) plan).*2)) <$> (asg !! Z.to_nat t).
Proof.
  intros Ht. revert asg. induction plan as [|p plan IH]; intros asg Hp.
  - cbn. destruct (asg !! _); cbn; [by rewrite app_nil_r|done].
  - apply Forall_cons in Hp as [Hp Hr]. rewrite place_cons, IH by done. cbn. unfold put. destruct (Z.eqb_spec p.1 t) as [->|Hne].
    + rewrite list_lookup_alter_eq. destruct (asg !! _); cbn; [|done]. by rewrite <- app_assoc.
    + by rewrite list_lookup_alter_ne by lia.
Qed.

Definition plan_ok (threads : nat) (users : list Account.state) (plan : list (Z * account_depth)) : Prop :=
  NoDup (ad_index <$> plan.*2) /\
  Forall (fun p => 0 <= p.1 < Z.of_nat threads /\ (ad_index p.2 < length users)%nat) plan.

Lemma assign_plan_places threads users plan asg :
  length asg = threads -> plan_ok threads users plan ->
  exists left, assign_plan plan (asg, users) = Ok (place users plan asg, left) /\ length left = length users /\
    forall i, i ∉ (ad_index <$> plan.*2) -> left !! i = users !! i.
Proof.
  intros Hl [Hnd Hr].
  assert (forall cur asg, length asg = threads -> length cur = length users ->
    (forall ad, ad ∈ plan.*2 -> cur !! ad_index ad = users !! ad_index ad) ->
    exists left, assign_plan plan (asg, cur) = Ok (place users plan asg, left) /\ length left = length cur /\
      forall i, i ∉ (ad_index <$> plan.*2) -> left !! i = cur !! i) as Hgen.
  { clear Hl asg. induction plan as [|[t ad] plan IH]; intros cur asg Hl Hc Hsame; [by exists cur|].
    cbn in Hnd. apply NoDup_cons in Hnd as [Hni Hnd]. apply Forall_cons in Hr as [[Ht Hi] Hr].
    unfold assign_plan. cbn. unfold assign_account at 1. cbn. cbn in Ht, Hi.
    destruct (lookup_lt_is_Some_2 users (ad_index ad) Hi) as [u Hu].
    rewrite (Hsame ad) by (by left). rewrite Hu.
    rewrite (proj2 (Z.leb_le 0 t)), (proj2 (Z.ltb_lt t _)) by lia. cbn.
    replace u with (fetch users ad) by (unfold fetch; by rewrite Hu).
    destruct (IH Hnd Hr (<[ad_index ad:=moved_from (fetch users ad)]> cur) (put users asg (t, ad))) as (left & Hleft & Hlen & Hrest).
    - unfold put. by rewrite length_alter.
    - by rewrite length_insert.
    - intros ad' Had. rewrite list_lookup_insert_ne; [apply Hsame; by right|].
      intros Heq. apply Hni. rewrite Heq. by apply list_elem_of_fmap_2.
    - exists left. split; [exact Hleft|]. rewrite length_insert in Hlen. split; [done|].
      intros i [Hne Hin]%not_elem_of_cons. rewrite Hrest by done. by rewrite list_lookup_insert_ne. }
  destruct (Hgen users asg Hl eq_refl ltac:(done)) as (left & ? & ? & ?). by exists left.
Qed.


(** *** Every account is in the plan once *)
Lemma account_depths_fetch opts cur users : fetch users <$> account_depths opts cur users = users.
Proof.
  apply list_eq. intros i. rewrite list_lookup_fmap. unfold account_depths. rewrite list_lookup_imap.
  destruct (users !! i) as [u|] eqn:E; cbn; [|done]. unfold fetch. cbn. by rewrite E.
Qed.

Lemma account_depths_elem opts cur users ad :
  ad ∈ account_depths opts cur users <->
  exists u, users !! ad_index ad = Some u /\ ad = AccountDepth (ad_index ad) (depth opts cur u) (raw_depth cur u).
Proof.
  unfold account_depths. split.
  - intros (i & Hi)%list_elem_of_lookup. rewrite list_lookup_imap in Hi.
    destruct (users !! i) as [u|] eqn:E; cbn in Hi; simplify_eq. cbn. by exists u.
  - intros (u & Hu & ->). cbn. apply list_elem_of_lookup. exists (ad_index ad). by rewrite list_lookup_imap, Hu.
Qed.

Lemma account_depths_indices opts cur users : NoDup (ad_index <$> account_depths opts cur users).
Proof.
  assert (ad_index <$> account_depths opts cur users = seq 0 (length users)) as ->; [|apply NoDup_seq].
  apply list_eq. intros i. rewrite list_lookup_fmap. unfold account_depths. rewrite list_lookup_imap.
  destruct (users !! i) as [u|] eqn:E; cbn.
  - symmetry. apply lookup_seq. apply lookup_lt_Some in E. lia.
  - symmetry. apply lookup_seq_ge. by apply lookup_ge_None.
Qed.

Definition accounts_of (opts : scanner_options) (cur : block_id) (users : list Account.state) : list account_depth :=
  std_sort by_raw_depth (account_depths opts cur users).
Definition depth_part (start num : Z) (accounts : list account_depth) : list (Z * account_depth) :=
  if negb (bool_decide (accounts = [])) && (0 <? num)
  then depth_plan start (u64 (start + num - 1)) (total_blockdepth accounts / num) start 0 accounts else [].
Definition block_depth_plan (opts : scanner_options) (tc : Z) (accounts : list account_depth) : list (Z * account_depth) :=
  if split_enabled opts then
    let unsynced := List.filter (fun ad => negb (is_synced opts ad)) accounts in
    match List.filter (is_synced opts) accounts with
    | [] => depth_part 0 tc unsynced
    | synced =>
      synced_plan (Z.min (num_synced_threads opts tc) (Z.of_nat (length synced))) 0 synced
      ++ depth_part (num_synced_threads opts tc) (u64 (tc - num_synced_threads opts tc)) unsynced
    end
  else depth_part 0 tc accounts.

Lemma distribute_plan start num accounts st : distribute start num accounts st = assign_plan (depth_part start num accounts) st.
Proof. unfold distribute, depth_part. destruct (_ && _); [apply assign_by_depth_plan|done]. Qed.

Lemma assign_block_depth_plan opts tc cur users :
  assign_block_depth opts tc cur users =
  assign_plan (block_depth_plan opts tc (accounts_of opts cur users)) (replicate (Z.to_nat tc) [], users).
Proof.
  unfold assign_block_depth, block_depth_plan. fold (accounts_of opts cur users).
  destruct (split_enabled opts); [|apply distribute_plan].
  destruct (List.filter (is_synced opts) _) as [|ad synced] eqn:E; [apply distribute_plan|].
  cbv zeta. rewrite assign_synced_plan. unfold assign_plan. rewrite efold_app. unfold ebind.
  destruct (efold _ _ _); [apply distribute_plan|done].
Qed.

Lemma depth_part_range start num accounts :
  0 <= start -> start + num <= u64_max -> Forall (fun p => start <= p.1 < start + num) (depth_part start num accounts).
Proof.
  intros Hs Hn. unfold depth_part. destruct (negb _ && _) eqn:E; [|constructor].
  apply andb_true_iff in E as [_ E]. apply Z.ltb_lt in E.
  rewrite u64_small by (unfold in_u64, u64_max in *; lia).
  eapply Forall_impl; [apply depth_plan_range; lia|]. cbn. lia.
Qed.

Lemma depth_part_accounts start num accounts : 0 < num -> (depth_part start num accounts).*2 = accounts.
Proof.
  intros Hn. unfold depth_part. destruct accounts as [|ad accounts]; [done|].
  rewrite (proj2 (Z.ltb_lt 0 num) Hn). cbn [negb andb bool_decide]. rewrite bool_decide_false by done.
  apply depth_plan_accounts.
Qed.

(** All accounts are planned, unless the threads for synced accounts leave none
    for the others. *)
Definition only_synced (opts : scanner_options) (tc : Z) (accounts : list account_depth) : bool :=
  split_enabled opts && existsb (is_synced opts) accounts && (tc <=? num_synced_threads opts tc).
Definition planned (opts : scanner_options) (tc : Z) (accounts : list account_depth) : list account_depth :=
  if only_synced opts tc accounts then List.filter (is_synced opts) accounts else accounts.

Lemma filter_split_perm {A} (f : A -> bool) l : List.filter f l ++ List.filter (fun x => negb (f x)) l ≡ₚ l.
Proof.
  induction l as [|x l IH]; cbn; [done|]. destruct (f x); cbn; [by rewrite IH|]. by rewrite <- Permutation_middle, IH.
Qed.

Lemma existsb_filter {A} (f : A -> bool) l : existsb f l = negb (match List.filter f l with [] => true | _ => false end).
Proof. induction l as [|x l IH]; cbn; [done|]. destruct (f x); [done|]. apply IH. Qed.

Lemma filter_all {A} (f : A -> bool) l : List.filter f l = [] -> List.filter (fun x => negb (f x)) l = l.
Proof. induction l as [|x l IH]; cbn; [done|]. destruct (f x); cbn; [done|]. intros H. by rewrite IH. Qed.

Lemma block_depth_plan_spec opts tc accounts :
  0 < tc <= u64_max -> num_synced_threads opts tc <= tc ->
  Forall (fun p => 0 <= p.1 < tc) (block_depth_plan opts tc accounts) /\
  (block_depth_plan opts tc accounts).*2 ≡ₚ planned opts tc accounts.
Proof.
  intros Htc Hns. unfold block_depth_plan, planned, only_synced. rewrite existsb_filter.
  assert (1 <= num_synced_threads opts tc) as H1 by (unfold num_synced_threads; lia).
  pose proof (filter_split_perm (is_synced opts) accounts) as Hperm. unfold u64_max in Htc.
  destruct (split_enabled opts); cbn.
  2:{ split; [|by rewrite depth_part_accounts by lia]. eapply Forall_impl; [apply depth_part_range|]; unfold u64_max; cbn; lia. }
  destruct (List.filter (is_synced opts) accounts) as [|ad synced] eqn:E; cbn.
  - rewrite filter_all by done. split; [|by rewrite depth_part_accounts by lia].
    eapply Forall_impl; [apply depth_part_range|]; unfold u64_max; cbn; lia.
  - rewrite u64_small by (unfold in_u64, u64_max; lia). rewrite Z.sub_diag || idtac.
    split.
    + apply Forall_cons; split; [|apply Forall_app; split].
      * cbn [fst]. pose proof (Z.mod_pos_bound 0 (Z.min (num_synced_threads opts tc) (Z.of_nat (length (ad :: synced)))) ltac:(cbn; lia)). cbn in *. lia.
      * eapply Forall_impl; [apply synced_plan_range; cbn; lia|]. cbn. lia.
      * eapply Forall_impl; [apply depth_part_range|]; unfold u64_max; cbn; lia.
    + rewrite fmap_app, synced_plan_accounts. destruct (Z.leb_spec tc (num_synced_threads opts tc)) as [Hle|Hlt].
      * replace (depth_part _ _ _) with (@nil (Z * account_depth)); [by rewrite app_nil_r|].
        unfold depth_part. replace (tc - num_synced_threads opts tc) with 0 by lia. by rewrite andb_false_r.
      * rewrite depth_part_accounts by lia. exact Hperm.
Qed.

Lemma accounts_of_perm opts cur users : accounts_of opts cur users ≡ₚ account_depths opts cur users.
Proof. apply std_sort_perm. Qed.

Lemma filter_sublist_nodup {A B} (g : A -> B) (f : A -> bool) l : NoDup (g <$> l) -> NoDup (g <$> List.filter f l).
Proof. intros Hl. eapply sublist_NoDup; [exact Hl|]. apply (fmap_sublist g), list_filter_sublist. Qed.

Lemma planned_ok opts tc cur users :
  0 < tc <= u64_max -> num_synced_threads opts tc <= tc ->
  plan_ok (Z.to_nat tc) users (block_depth_plan opts tc (accounts_of opts cur users)).
Proof.
  intros Htc Hns. destruct (block_depth_plan_spec opts tc (accounts_of opts cur users) Htc Hns) as [Hr Hp].
  assert (forall ad, ad ∈ accounts_of opts cur users -> (ad_index ad < length users)%nat) as Hidx.
  { intros ad Had. rewrite accounts_of_perm in Had. apply account_depths_elem in Had as (u & Hu & _). by eapply lookup_lt_Some. }
  assert (planned opts tc (accounts_of opts cur users) `sublist_of` accounts_of opts cur users) as Hsub.
  { unfold planned. destruct (only_synced _ _ _); [apply list_filter_sublist|done]. }
  split.
  - rewrite Hp. eapply sublist_NoDup; [|apply (fmap_sublist ad_index), Hsub].
    rewrite accounts_of_perm. apply account_depths_indices.
  - rewrite Forall_forall in Hr |- *. intros p Hp'. split; [specialize (Hr p Hp'); lia|].
    apply Hidx. eapply elem_of_sublist; [|exact Hsub]. rewrite <- Hp. by apply list_elem_of_fmap_2.
Qed.

Lemma concat_replicate {A} n : concat (replicate n []) = @nil A.
Proof. by induction n. Qed.

Lemma assign_block_depth_perm opts tc cur users :
  0 < tc <= u64_max -> num_synced_threads opts tc <= tc ->
  exists st, assign_block_depth opts tc cur users = Ok st /\ length st.1 = Z.to_nat tc /\
    concat st.1 ≡ₚ fetch users <$> planned opts tc (accounts_of opts cur users).
Proof.
  intros Htc Hns. rewrite assign_block_depth_plan.
  destruct (assign_plan_places (Z.to_nat tc) users _ (replicate (Z.to_nat tc) []) (length_replicate _ _) (planned_ok opts tc cur users Htc Hns))
    as (left & -> & _ & _).
  destruct (block_depth_plan_spec opts tc (accounts_of opts cur users) Htc Hns) as [Hr Hp].
  eexists. split; [done|]. cbn. rewrite length_place, length_replicate. split; [done|].
  rewrite concat_place, concat_replicate by (rewrite length_replicate, Z2Nat.id by lia; exact Hr). cbn. by rewrite Hp.
Qed.

Definition user_synced (opts : scanner_options) (cur : block_id) (u : Account.state) : bool := raw_depth cur u <=? split_sync_depth opts.

Lemma fetch_synced opts cur users ad :
  ad ∈ account_depths opts cur users -> is_synced opts ad = user_synced opts cur (fetch users ad).
Proof. intros (u & Hu & ->)%account_depths_elem. unfold is_synced, user_synced, fetch. cbn in *. by rewrite Hu. Qed.

Lemma filter_fmap {A B} (g : A -> B) (f : A -> bool) (h : B -> bool) l :
  (forall a, a ∈ l -> f a = h (g a)) -> g <$> List.filter f l = List.filter h (g <$> l).
Proof.
  induction l as [|a l IH]; intros H; cbn; [done|]. rewrite <- (H a) by (by left).
  destruct (f a); cbn; [f_equal|]; apply IH; intros; apply H; by right.
Qed.

Lemma filter_Permutation {A} (f : A -> bool) l1 l2 : l1 ≡ₚ l2 -> List.filter f l1 ≡ₚ List.filter f l2.
Proof.
  induction 1 as [|x l1 l2 _ IH|x y l|l1 l2 l3 _ IH1 _ IH2]; cbn; [done| | |by etrans].
  - destruct (f x); [by rewrite IH|done].
  - destruct (f x), (f y); try done. apply perm_swap.
Qed.

Lemma existsb_Permutation {A} (f : A -> bool) l1 l2 : l1 ≡ₚ l2 -> existsb f l1 = existsb f l2.
Proof.
  induction 1 as [|x l1 l2 _ IH|x y l|l1 l2 l3 _ IH1 _ IH2]; cbn; [done| | |congruence]; [by rewrite IH|].
  by destruct (f x), (f y).
Qed.

Lemma existsb_fmap {A B} (g : A -> B) (f : A -> bool) (h : B -> bool) l :
  (forall a, a ∈ l -> f a = h (g a)) -> existsb f l = existsb h (g <$> l).
Proof.
  induction l as [|a l IH]; intros H; cbn; [done|]. rewrite <- (H a) by (by left). f_equal. apply IH. intros. apply H. by right.
Qed.

Lemma planned_users opts tc cur users :
  fetch users <$> planned opts tc (accounts_of opts cur users) ≡ₚ
  if split_enabled opts && existsb (user_synced opts cur) users && (tc <=? num_synced_threads opts tc)
  then List.filter (user_synced opts cur) users else users.
Proof.
  assert (existsb (is_synced opts) (accounts_of opts cur users) = existsb (user_synced opts cur) users) as Hex.
  { rewrite (existsb_Permutation _ _ _ (accounts_of_perm opts cur users)).
    rewrite (existsb_fmap (fetch users) _ (user_synced opts cur)) by (apply fetch_synced). by rewrite account_depths_fetch. }
  unfold planned, only_synced. rewrite Hex. destruct (_ && _ && _).
  - rewrite (filter_Permutation _ _ _ (accounts_of_perm opts cur users)).
    rewrite (filter_fmap (fetch users) _ (user_synced opts cur)) by (apply fetch_synced). by rewrite account_depths_fetch.
  - rewrite accounts_of_perm. by rewrite account_depths_fetch.
Qed.

(** *** The original algorithm *)
Lemma split_even_concat n users : (0 < n)%nat -> concat (rev (split_even n users)) = users.
Proof.
  revert users. induction n as [|n IH]; intros users Hn; [lia|]. cbn [split_even rev].
  rewrite concat_app. cbn [concat]. rewrite app_nil_r.
  destruct n as [|n].
  - rewrite Nat.div_1_r, Nat.sub_diag. done.
  - rewrite IH by lia. apply take_drop.
Qed.

Lemma split_even_sizes n users q :
  (n * q <= length users <= n * (q + 1))%nat -> Forall (fun l => q <= length l <= q + 1)%nat (split_even n users).
Proof.
  revert users. induction n as [|n IH]; intros users H; [constructor|]. cbn [split_even].
  assert (q <= length users / S n <= q + 1)%nat as Hc.
  { split; [apply Nat.div_le_lower_bound; lia|]. apply Nat.lt_succ_r, Nat.Div0.div_lt_upper_bound. lia. }
  assert (length users / S n <= length users)%nat as Hle by (apply Nat.Div0.div_le_upper_bound; nia).
  pose proof (Nat.div_mod_eq (length users) (S n)) as Hdm. pose proof (Nat.mod_upper_bound (length users) (S n)).
  constructor; [rewrite length_drop; lia|]. apply IH. rewrite length_take.
  assert (length users / S n = q \/ length users / S n = q + 1)%nat as [Hq|Hq] by lia; rewrite Hq in *; nia.
Qed.

Lemma length_split_even n users : length (split_even n users) = n.
Proof. revert users. induction n as [|n IH]; intros users; cbn; [done|]. by rewrite IH. Qed.

Lemma concat_rev_perm {A} (l : list (list A)) : concat (rev l) ≡ₚ concat l.
Proof. induction l as [|a l IH]; cbn; [done|]. rewrite concat_app. cbn. rewrite app_nil_r, IH. apply Permutation_app_comm. Qed.

Lemma check_loop_assign_perm opts tc cur users :
  0 < tc <= u64_max -> num_synced_threads opts tc <= tc ->
  exists asg, check_loop_assign opts tc cur users = Ok asg /\ length asg = Z.to_nat tc /\
    concat asg ≡ₚ
    if block_depth_threading opts && split_enabled opts && existsb (user_synced opts cur) users && (tc <=? num_synced_threads opts tc)
    then List.filter (user_synced opts cur) users else users.
Proof.
  intros Htc Hns. unfold check_loop_assign. destruct (block_depth_threading opts); cbn [andb].
  - destruct (assign_block_depth_perm opts tc cur users Htc Hns) as (st & -> & Hl & Hp).
    exists st.1. split; [done|]. split; [done|]. by rewrite Hp, planned_users.
  - eexists. split; [done|]. split; [apply length_split_even|].
    rewrite <- concat_rev_perm, split_even_concat by lia. apply std_sort_perm.
Qed.

(** *** Balance of the assignment by depth *)
Definition sum_depth (l : list account_depth) : Z := foldr (fun ad n => blockdepth ad + n) 0 l.
Definition of_thread (t : Z) (plan : list (Z * account_depth)) : list account_depth := (List.filter (fun p => p.1 =? t) plan).*2.
Definition work (opts : scanner_options) (cur : block_id) (users : list Account.state) : Z :=
  foldr (fun u n => depth opts cur u + n) 0 users.

Lemma sum_depth_app l1 l2 : sum_depth (l1 ++ l2) = sum_depth l1 + sum_depth l2.
Proof. induction l1 as [|a l1 IH]; cbn; [done|]. unfold sum_depth in *. lia. Qed.
Lemma sum_depth_nonneg l : Forall (fun ad => 0 <= blockdepth ad) l -> 0 <= sum_depth l.
Proof. induction 1 as [|a l Ha _ IH]; cbn; [lia|]. unfold sum_depth in IH. lia. Qed.

Lemma of_thread_none t plan : Forall (fun p => t < p.1) plan -> of_thread t plan = [].
Proof.
  unfold of_thread. induction 1 as [|p plan Hp _ IH]; cbn; [done|].
  destruct (Z.eqb_spec p.1 t); [lia|done].
Qed.

Lemma removelast_last {A} (l : list A) x : removelast (l ++ [x]) = l.
Proof. apply List.removelast_last. Qed.

Lemma depth_plan_balanced start last per accounts t pre s :
  t <= last -> Forall (fun ad => 0 <= blockdepth ad) (pre ++ accounts) -> sum_depth (pre ++ accounts) <= u64_max ->
  (t < last -> sum_depth (removelast pre) <= per) -> t <= s < last ->
  0 <= per ->
  sum_depth (removelast ((if s =? t then pre else []) ++ of_thread s (depth_plan start last per t (sum_depth pre) accounts))) <= per.
Proof.
  intros Ht Hnn Hmax Hpre Hs Hper. revert t pre Ht Hnn Hmax Hpre Hs.
  induction accounts as [|ad accounts IH]; intros t pre Ht Hnn Hmax Hpre Hs.
  { cbn. rewrite app_nil_r. destruct (s =? t); cbn; [apply Hpre; lia|done]. }
  assert (0 <= sum_depth pre /\ 0 <= blockdepth ad /\ 0 <= sum_depth accounts) as (H1 & H2 & H3).
  { apply Forall_app in Hnn as [? [? ?]%Forall_cons]. split_and!; auto using sum_depth_nonneg. }
  rewrite sum_depth_app in Hmax. cbn in Hmax. fold (sum_depth accounts) in Hmax.
  cbn [depth_plan]. destruct (should_move start last per t (sum_depth pre) ad) eqn:E.
  - assert (t < last) as Hlt by (unfold should_move in E; destruct (Z.ltb_spec t last); [done|done]).
    assert (0 + blockdepth ad = sum_depth [ad]) as Had by (cbn; lia).
    rewrite u64_small by (unfold in_u64; lia). rewrite Had.
    unfold of_thread. cbn [List.filter fst]. destruct (Z.eqb_spec s t) as [->|Hne].
    + rewrite (proj2 (Z.eqb_neq (t + 1) t)) by lia. fold (of_thread t (depth_plan start last per (t + 1) (sum_depth [ad]) accounts)).
      rewrite of_thread_none, app_nil_r; [auto|].
      eapply Forall_impl; [apply depth_plan_range; lia|]. cbn. lia.
    + specialize (IH (t + 1) [ad] ltac:(lia)). cbn [app] in IH. rewrite (Z.eqb_sym (t + 1) s).
      assert (Forall (fun a => 0 <= blockdepth a) (ad :: accounts)) as Hf by (by apply Forall_app in Hnn as [_ ?]).
      specialize (IH Hf). cbn in IH. fold (sum_depth accounts) in IH.
      specialize (IH ltac:(lia) ltac:(lia) ltac:(lia)). unfold of_thread, sum_depth in *. cbn in *.
      by destruct (s =? t + 1).
  - rewrite u64_small by (unfold in_u64; lia).
    assert (sum_depth pre + blockdepth ad = sum_depth (pre ++ [ad])) as Had by (rewrite sum_depth_app; cbn; lia).
    rewrite Had. specialize (IH t (pre ++ [ad]) Ht). rewrite <- app_assoc in IH. specialize (IH Hnn).
    assert (sum_depth (pre ++ ad :: accounts) <= u64_max) as Hm2 by (rewrite sum_depth_app; cbn; fold (sum_depth accounts); lia).
    specialize (IH Hm2).
    assert (t < last -> sum_depth (removelast (pre ++ [ad])) <= per) as Hstep.
    { intros Hlt. rewrite removelast_last. unfold should_move in E. rewrite (proj2 (Z.ltb_lt t last) Hlt) in E.
      rewrite u64_small in E by (unfold in_u64; lia).
      destruct ((t - start) mod 2 =? 0); [apply Z.leb_gt in E|apply Z.ltb_ge in E]; lia. }
    specialize (IH Hstep Hs). unfold of_thread in *. cbn [List.filter fst]. rewrite (Z.eqb_sym s t) in *. destruct (t =? s); [|exact IH].
    rewrite <- app_assoc in IH. exact IH.
Qed.

Lemma total_blockdepth_sum l :
  Forall (fun ad => 0 <= blockdepth ad) l -> sum_depth l <= u64_max -> total_blockdepth l = sum_depth l.
Proof.
  intros Hnn Hmax. unfold total_blockdepth.
  assert (forall n, 0 <= n -> n + sum_depth l <= u64_max -> foldl (fun n ad => u64 (n + blockdepth ad)) n l = n + sum_depth l) as H.
  { clear Hmax. induction Hnn as [|ad l Had Hl IH]; intros n Hn Hmax; cbn in *; [lia|].
    fold (sum_depth l) in *. pose proof (sum_depth_nonneg l Hl).
    rewrite u64_small by (unfold in_u64; lia). rewrite IH by lia. lia. }
  rewrite H; [lia|lia|lia].
Qed.

Lemma depth_nonneg opts cur u : 0 <= depth opts cur u.
Proof. unfold depth, raw_depth. pose proof (u64_range (cur - Account.scan_height u)) as [? _]. lia. Qed.

Lemma sum_depth_work opts cur users l :
  (forall ad, ad ∈ l -> ad ∈ account_depths opts cur users) -> sum_depth l = work opts cur (fetch users <$> l).
Proof.
  induction l as [|ad l IH]; intros H; [done|].
  change (blockdepth ad + sum_depth l = depth opts cur (fetch users ad) + work opts cur (fetch users <$> l)).
  rewrite <- IH by (intros; apply H; by right).
  destruct (proj1 (account_depths_elem opts cur users ad) ltac:(apply H; by left)) as (u & Hu & ->).
  unfold fetch. cbn in *. by rewrite Hu.
Qed.

Lemma work_perm opts cur l1 l2 : l1 ≡ₚ l2 -> work opts cur l1 = work opts cur l2.
Proof. induction 1; cbn; unfold work in *; lia. Qed.

Lemma fmap_removelast {A B} (f : A -> B) l : f <$> removelast l = removelast (f <$> l).
Proof. induction l as [|a [|b l] IH]; cbn in *; [done|done|]. by f_equal. Qed.

Lemma removelast_elem {A} (l : list A) x : x ∈ removelast l -> x ∈ l.
Proof.
  induction l as [|a [|b l] IH]; cbn; [done|by intros ?%elem_of_nil|].
  intros [->|Hx]%elem_of_cons; [by left|right; by apply IH].
Qed.

Lemma by_depth_balanced opts tc cur users asg t us :
  0 < tc <= u64_max -> block_depth_threading opts = true -> split_enabled opts = false ->
  work opts cur users <= u64_max -> check_loop_assign opts tc cur users = Ok asg ->
  asg !! t = Some us -> Z.of_nat t + 1 < tc ->
  work opts cur (removelast us) <= work opts cur users / tc.
Proof.
  intros Htc Hmode Hsplit Hmax Hasg Hus Ht. unfold check_loop_assign in Hasg. rewrite Hmode in Hasg.
  apply ebind_ok in Hasg as (st & Hst & [= <-]). rewrite assign_block_depth_plan in Hst.
  unfold block_depth_plan in Hst. rewrite Hsplit in Hst.
  set (accs := accounts_of opts cur users) in *.
  assert (forall ad, ad ∈ accs -> ad ∈ account_depths opts cur users) as Hin.
  { intros ad. unfold accs. by rewrite accounts_of_perm. }
  assert (forall ad, ad ∈ accs -> 0 <= blockdepth ad) as Hnn.
  { intros ad Had. apply Hin, account_depths_elem in Had as (u & _ & ->). apply depth_nonneg. }
  assert (sum_depth accs = work opts cur users) as Hsum.
  { rewrite (sum_depth_work opts cur users) by done. rewrite <- (account_depths_fetch opts cur users) at 2.
    apply work_perm, fmap_Permutation, accounts_of_perm. }
  assert (Forall (fun p => 0 <= p.1 < tc) (depth_part 0 tc accs)) as Hr.
  { eapply Forall_impl; [apply depth_part_range; lia|]. cbn. lia. }
  assert (plan_ok (Z.to_nat tc) users (depth_part 0 tc accs)) as Hok.
  { split.
    - rewrite depth_part_accounts by lia. unfold accs. rewrite accounts_of_perm. apply account_depths_indices.
    - rewrite Forall_forall in Hr |- *. intros p Hp. split; [specialize (Hr p Hp); lia|].
      assert (p.2 ∈ accs) as Hp2 by (rewrite <- (depth_part_accounts 0 tc accs) by lia; by apply list_elem_of_fmap_2).
      apply Hin, account_depths_elem in Hp2 as (u & Hu & _). by eapply lookup_lt_Some. }
  destruct (assign_plan_places (Z.to_nat tc) users _ (replicate (Z.to_nat tc) []) (length_replicate _ _) Hok) as (left & Heq & _ & _).
  rewrite Heq in Hst. injection Hst as <-. cbn in Hus.
  rewrite <- (Nat2Z.id t) in Hus. rewrite lookup_place in Hus; [|lia|eapply Forall_impl; [exact Hr|]; cbn; lia].
  rewrite (lookup_replicate_2 (Z.to_nat tc)) in Hus by lia. cbn in Hus. injection Hus as <-.
  fold (of_thread (Z.of_nat t) (depth_part 0 tc accs)). rewrite <- fmap_removelast.
  rewrite <- (sum_depth_work opts cur users).
  2:{ intros ad Had%removelast_elem. apply Hin. rewrite <- (depth_part_accounts 0 tc accs) by lia.
      unfold of_thread in Had. eapply elem_of_sublist; [exact Had|]. apply (fmap_sublist snd), list_filter_sublist. }
  unfold depth_part. destruct (negb _ && _) eqn:E; [|cbn; rewrite <- Hsum; apply Z.div_pos; [apply sum_depth_nonneg, Forall_forall; done|lia]].
  rewrite u64_small by (unfold in_u64; lia).
  rewrite total_blockdepth_sum, Hsum; [|apply Forall_forall; done|by rewrite Hsum].
  assert (0 <= work opts cur users / tc) as Hper.
  { rewrite <- Hsum. apply Z.div_pos; [apply sum_depth_nonneg, Forall_forall; done|lia]. }
  assert (Forall (fun ad => 0 <= blockdepth ad) ([] ++ accs)) as Hall by (apply Forall_forall; done).
  pose proof (depth_plan_balanced 0 (0 + tc - 1) (work opts cur users / tc) accs 0 [] (Z.of_nat t)
    ltac:(lia) Hall ltac:(cbn; fold (sum_depth accs); lia) ltac:(done) ltac:(lia) Hper) as Hb.
  by destruct (Z.of_nat t =? 0).
Qed.

(** The first assignment hands every active account to exactly one thread,
    in both modes, as long as the threads reserved for synced accounts leave
    one for the others. *)
Theorem every_account_assigned_once opts tc cur users :
  0 < tc <= u64_max ->
  num_synced_threads opts tc < tc \/ block_depth_threading opts = false /\ num_synced_threads opts tc <= tc ->
  exists asg, check_loop_assign opts tc cur users = Ok asg /\ length asg = Z.to_nat tc /\ concat asg ≡ₚ users.
Proof.
  intros Htc Hns. destruct (check_loop_assign_perm opts tc cur users Htc ltac:(lia)) as (asg & Hasg & Hl & Hp).
  exists asg. split; [done|]. split; [done|]. rewrite Hp.
  destruct Hns as [Hns|[-> _]]; [|done]. by rewrite (proj2 (Z.leb_gt tc _) Hns), andb_false_r.
Qed.

(** When every thread is reserved for synced accounts, which one account
    close to the top of the chain is enough for, the accounts that are further
    behind are given to no thread. *)
Theorem unsynced_accounts_dropped opts tc cur users u v :
  0 < tc <= u64_max -> num_synced_threads opts tc = tc ->
  block_depth_threading opts = true -> split_enabled opts = true ->
  u ∈ users -> user_synced opts cur u = true -> v ∈ users -> user_synced opts cur v = false ->
  exists asg, check_loop_assign opts tc cur users = Ok asg /\
    concat asg ≡ₚ List.filter (user_synced opts cur) users /\ v ∉ concat asg.
Proof.
  intros Htc Hns Hmode Hsplit Hu Hsu Hv Hsv.
  destruct (check_loop_assign_perm opts tc cur users Htc ltac:(lia)) as (asg & Hasg & _ & Hp).
  assert (existsb (user_synced opts cur) users = true) as Hex.
  { apply existsb_exists. exists u. split; [by apply list_elem_of_In|done]. }
  rewrite Hmode, Hsplit, Hex, Hns, Z.leb_refl in Hp. cbn [andb] in Hp.
  exists asg. split; [done|]. split; [done|]. rewrite Hp. rewrite list_elem_of_In. intros [_ H]%filter_In. congruence.
Qed.

(** The original algorithm gives every thread its even share, up to one
    account, and the threads hold consecutive ranges of the accounts in order
    of height, the last thread the lowest. *)
Theorem shares_are_even opts tc cur users :
  0 < tc -> block_depth_threading opts = false ->
  exists asg, check_loop_assign opts tc cur users = Ok asg /\
    concat (rev asg) = std_sort Account.by_height users /\ sorted_by Account.by_height (concat (rev asg)) /\
    Forall (fun l => length users / Z.to_nat tc <= length l <= length users / Z.to_nat tc + 1)%nat asg.
Proof.
  intros Htc Hmode. unfold check_loop_assign. rewrite Hmode. eexists. split; [done|].
  rewrite split_even_concat by lia. split; [done|]. split; [apply (weak_sort_sorted Account.by_height)|].
  apply split_even_sizes. rewrite (Permutation_length (std_sort_perm Account.by_height users)).
  pose proof (Nat.div_mod_eq (length users) (Z.to_nat tc)). pose proof (Nat.mod_upper_bound (length users) (Z.to_nat tc)). nia.
Qed.

(** The assignment by depth is balanced: without its last account, no thread
    but the last one has more blocks to scan than an even share of all of
    them. *)
Theorem depth_is_balanced opts tc cur users asg t us :
  0 < tc <= u64_max -> block_depth_threading opts = true -> split_enabled opts = false ->
  work opts cur users <= u64_max -> check_loop_assign opts tc cur users = Ok asg ->
  asg !! t = Some us -> Z.of_nat t + 1 < tc ->
  work opts cur (removelast us) <= work opts cur users / tc.
Proof. apply by_depth_balanced. Qed.
End Assign.

(** ** Samples *)
Module ThreadsSample.
Import Assign.

Definition user (height : block_id) : Account.state := Account.State None [] [] [] [] height.
Definition height_of (u : Account.state) : block_id := Account.scan_height u.
Definition half : spec_float := S754_finite false 4503599627370496 (-53).
Definition quarter : spec_float := S754_finite false 4503599627370496 (-54).
Definition by_count : scanner_options := ScannerOptions (S754_zero false) 10 16 0 false false false false.
Definition by_depth : scanner_options := ScannerOptions (S754_zero false) 10 16 0 false false true false.
Definition split (d : spec_float) (synced : Z) : scanner_options := ScannerOptions d synced 16 0 false false true false.

(** The number of threads for [--split-sync-threads] 0.25, 0.5 and 1.0. *)
Example synced_threads :
  num_synced_threads (split quarter 10) 4 = 1 /\ num_synced_threads (split half 10) 5 = 3 /\
  num_synced_threads (split (S754_finite false 4503599627370496 (-52)) 10) 7 = 7.
Proof. vm_compute. done. Qed.

(** The accounts of the example of docs/scan/split_synced_threads.md: eight with
    16 blocks to scan, and four each with 100, 300 and 500. *)
Definition documented : list Account.state :=
  replicate 8 (user 984) ++ replicate 4 (user 900) ++ replicate 4 (user 700) ++ replicate 4 (user 500).
Definition counts (r : expect (list (list Account.state))) : list nat := match r with Ok asg => length <$> asg | Err _ => [] end.

(** Without the split the threads get what the document says; with it the
    document says 8, 5, 4 and 3. *)
Lemma documented_counts :
  counts (check_loop_assign by_depth 4 1000 documented) = [14; 2; 2; 2]%nat /\
  counts (check_loop_assign (split quarter 16) 4 1000 documented) = [8; 7; 2; 3]%nat.
Proof. vm_compute. done. Qed.

(** One synced account and four threads for synced ones: three of them idle,
    which the document says are used for the others. *)
Lemma reserved_threads_idle :
  counts (check_loop_assign (split half 16) 8 1000 (user 990 :: replicate 20 (user 100))) = [1; 0; 0; 0; 5; 5; 5; 5]%nat.
Proof. vm_compute. done. Qed.

Definition few : list Account.state := [user 990; user 100; user 500; user 995; user 300].

Lemma every_account_assigned_once_witness :
  exists asg, check_loop_assign (split half 16) 3 1000 few = Ok asg /\ length asg = 3%nat /\ concat asg ≡ₚ few.
Proof.
  apply (every_account_assigned_once (split half 16) 3 1000 few); [unfold u64_max; lia|]. left. vm_compute. done.
Defined.

Lemma unsynced_accounts_dropped_witness :
  exists asg, check_loop_assign (split half 16) 1 1000 few = Ok asg /\
    concat asg ≡ₚ List.filter (user_synced (split half 16) 1000) few /\ user 100 ∉ concat asg.
Proof.
  apply (unsynced_accounts_dropped (split half 16) 1 1000 few (user 990) (user 100));
    first [unfold u64_max; lia | reflexivity | (by left) | (right; by left)].
Defined.

Lemma shares_are_even_witness :
  exists asg, check_loop_assign by_count 3 1000 few = Ok asg /\
    concat (rev asg) = std_sort Account.by_height few /\ sorted_by Account.by_height (concat (rev asg)) /\
    Forall (fun l => length few / Z.to_nat 3 <= length l <= length few / Z.to_nat 3 + 1)%nat asg.
Proof. apply (shares_are_even by_count 3 1000 few); [lia|reflexivity]. Defined.

Lemma depth_is_balanced_witness :
  work by_depth 1000 (removelast [user 995; user 990; user 500; user 300]) <= work by_depth 1000 few / 3.
Proof.
  apply (depth_is_balanced by_depth 3 1000 few [[user 995; user 990; user 500; user 300]; [user 100]; []] 0
    [user 995; user 990; user 500; user 300]);
    first [unfold u64_max; lia | reflexivity | (vm_compute; discriminate) | lia].
Defined.
End ThreadsSample.
