(* ===== verification/ScanServer.v ===== *)
(** The scan server (src/rpc/scanner/server.h, src/rpc/scanner/server.cpp): the
    sessions of remote scanners, and the distribution of the active accounts of
    the database over local threads and remote scanners as accounts come and
    go. *)

From S2P Require Import Prelude Data Account Lmdb Tables Accounts Threads.

(** ** Sessions of remote scanners

    [server_connection], its two handlers, and the loop of [do_read_commands]
    (src/rpc/scanner/read_commands.h). *)
Module Connection.

Record header := Header { h_version : Z; h_id : Z; h_length : Z }.

(** A payload as [wire::msgpack::from_bytes] reads it. *)
Inductive message :=
| Initialize (pass : list Z) (threads : Z)
| UpdateAccounts (users : list Account.state) (blocks : list hash).

Record connection := MkConnection {
  next_ : header;
  threads_ : Z;
  authenticated_ : bool;
  cleanup_ : bool
}.

(** What a session asks of the rest of the program. *)
Inductive effect :=
| ReadBuffer (size : Z)
| ReplaceUsers
| Store (users : list Account.state) (blocks : list hash).

Definition header_size : Z := 6.
Definition initialize_id : Z := 0.
Definition update_accounts_id : Z := 1.
Definition max_unauthenticated : Z := 1 * 1024 * 1024.

Definition construct : connection := MkConnection (Header 0 0 0) 0 false false.
Definition with_next (h : header) (c : connection) : connection := MkConnection h (threads_ c) (authenticated_ c) (cleanup_ c).
Definition cleanup (c : connection) : connection := MkConnection (next_ c) (threads_ c) (authenticated_ c) true.

Definition next_size (c : connection) : Z :=
  let length := h_length (next_ c) in
  if authenticated_ c || ((h_id (next_ c) =? initialize_id) && (length <=? max_unauthenticated)) then length else 0.

Section session.
Context (from_bytes : Z -> list Z -> expect message) (check_pass : list Z -> bool).

Definition initialize_handle (c : connection) (pass : list Z) (threads : Z) : bool * connection * list effect :=
  if negb (threads_ c =? 0) then (false, c, [])
  else if threads =? 0 then (false, c, [])
  else if negb (check_pass pass) then (false, c, [])
  else (true, MkConnection (next_ c) threads true (cleanup_ c), [ReplaceUsers]).

Definition update_accounts_handle (c : connection) (users : list Account.state) (blocks : list hash)
    : bool * connection * list effect :=
  match users with
  | [] => (true, c, [])
  | _ => if negb (authenticated_ c) then (false, c, []) else (true, c, [Store users blocks])
  end.

(** [commands()[id]]: the handler reads the payload as its own input type. *)
Definition call (c : connection) (payload : list Z) : bool * connection * list effect :=
  match from_bytes (h_id (next_ c)) payload with
  | Err _ => (false, c, [])
  | Ok (Initialize pass threads) =>
    if h_id (next_ c) =? initialize_id then initialize_handle c pass threads else (false, c, [])
  | Ok (UpdateAccounts users blocks) =>
    if h_id (next_ c) =? update_accounts_id then update_accounts_handle c users blocks else (false, c, [])
  end.

(** One round of the loop: a header and, if [next_size] grants it, a payload. *)
Definition read_command (c : connection) (msg : header * list Z) : connection * list effect :=
  if cleanup_ c then (c, [])
  else
    let c := with_next msg.1 c in
    if next_size c =? 0 then (cleanup c, [ReadBuffer header_size])
    else
      let reads := [ReadBuffer header_size; ReadBuffer (next_size c)] in
      if 2 <=? h_id (next_ c) then (cleanup c, reads)
      else
        let '(ok, c, effects) := call c msg.2 in
        (if ok then c else cleanup c, reads ++ effects).

Definition step (st : connection * list effect) (msg : header * list Z) : connection * list effect :=
  let '(c, effects) := read_command st.1 msg in (c, st.2 ++ effects).
Definition run (msgs : list (header * list Z)) : connection * list effect := foldl step (construct, []) msgs.

(** A message that authenticates the peer. *)
Definition is_login (msg : header * list Z) : Prop :=
  exists pass threads, h_id msg.1 = initialize_id /\ h_length msg.1 <= max_unauthenticated /\
    from_bytes initialize_id msg.2 = Ok (Initialize pass threads) /\ threads <> 0 /\ check_pass pass = true.

Definition harmless (e : effect) : Prop :=
  match e with ReadBuffer size => size <= max_unauthenticated | _ => False end.

(** The state of a session that has not logged in. *)
Definition unknown (st : connection * list effect) : Prop :=
  authenticated_ st.1 = false /\ threads_ st.1 = 0 /\ Forall harmless st.2.

Lemma stays_unknown c effects es :
  authenticated_ c = false -> threads_ c = 0 -> Forall harmless effects -> Forall harmless es -> unknown (c, effects ++ es).
Proof. intros. split_and!; cbn; [done|done|by apply Forall_app]. Qed.

Lemma step_unknown st msg : unknown st -> unknown (step st msg) \/ is_login msg.
Proof.
  destruct st as [[nx th au cl] effects], msg as [[v id len] payload]. intros (Ha & Ht & He). cbn in Ha, Ht, He. subst.
  unfold step, read_command. cbn. destruct cl; [left; by rewrite app_nil_r|].
  unfold next_size. cbn. destruct (Z.eqb_spec id initialize_id) as [->|Hid]; cbn; [|left; apply stays_unknown; by repeat constructor].
  destruct (Z.leb_spec len max_unauthenticated) as [Hlen|_]; cbn; [|left; apply stays_unknown; by repeat constructor].
  destruct (len =? 0); [left; apply stays_unknown; by repeat constructor|].
  unfold call. cbn. destruct (from_bytes initialize_id payload) as [[pass threads|users blocks]|e] eqn:E; cbn;
    [|left; apply stays_unknown; by repeat constructor..].
  unfold initialize_handle. cbn. destruct (Z.eqb_spec threads 0) as [->|Hth]; cbn; [left; apply stays_unknown; by repeat constructor|].
  destruct (check_pass pass) eqn:Ep; cbn; [right; by exists pass, threads|left; apply stays_unknown; by repeat constructor].
Qed.

(** C40: What a peer sends that has not sent the password in a message of at most
    one MiB reaches nothing: its session stores no account, replaces no accounts
    and reads no larger buffer, whatever it sends. (That it was connected is noticed:
    when the connection is gone, [check_users] hands the accounts out again.) *)
Theorem stranger_is_harmless msgs :
  (forall msg, msg ∈ msgs -> ~ is_login msg) ->
  authenticated_ (run msgs).1 = false /\ Forall harmless (run msgs).2.
Proof.
  intros Hmsgs. assert (forall st, unknown st -> unknown (foldl step st msgs)) as H.
  { induction msgs as [|msg msgs IH]; intros st Hst; [done|]. cbn. apply IH.
    - intros m Hm. apply Hmsgs. by right.
    - destruct (step_unknown st msg Hst) as [?|Hl]; [done|]. exfalso. by apply (Hmsgs msg ltac:(by left)). }
  destruct (H (construct, [])) as (? & _ & ?); [by split_and!|done].
Qed.
End session.
End Connection.

(** ** The distribution of accounts *)
Module Server.

Definition remote_threshold : Z := 100.
Definition replace_threshold : Z := 10000.

(** A live remote connection: its identity and its [threads_]. *)
Record remote := Remote { r_id : Z; r_threads : Z }.

(** [remote_] holds weak pointers in owner order; [None] is one that has
    expired. *)
Record server := MkServer {
  remote_ : list (option remote);
  local_ : list Queue.queue;
  active_ : list account_id;
  next_thread_ : Z;
  balance_new_addresses_ : bool;
  stop_ : bool
}.

Inductive command :=
| PushAccounts (users : list Account.state)
| ReplaceAccounts (users : list Account.state).

(** The server after a call, the commands written to remote scanners, and
    whether local threads were notified. *)
Record outcome := Outcome { o_server : server; o_writes : list (Z * command); o_notify : bool }.
Definition unchanged (sv : server) : outcome := Outcome sv [] false.

Definition construct (local : list Queue.queue) (active : list account_id) (balance : bool) : server :=
  MkServer [] local (std_sort Z.ltb active) 0 balance false.
(** A new connection, at the place [i] its address gives it in the order. *)
Definition accept (i : nat) (id : Z) (sv : server) : server :=
  MkServer (insert_at i (Some (Remote id 0)) (remote_ sv)) (local_ sv) (active_ sv) (next_thread_ sv) (balance_new_addresses_ sv) (stop_ sv).
Definition do_stop (sv : server) : server :=
  MkServer (remote_ sv) (local_ sv) (active_ sv) (next_thread_ sv) (balance_new_addresses_ sv) true.

Definition add_threads (total : Z) (r : remote) : expect Z :=
  if u64_max - total <? r_threads r then Err (lws_err configuration) else Ok (total + r_threads r).
Definition live (remotes : list (option remote)) : list remote := omap (fun r => r) remotes.

Definition insert_id (active : list account_id) (id : account_id) : list account_id :=
  insert_at (lower_bound (fun i => i <? id) active) id active.
Definition db_by_height (l r : account) : bool := acc_scan_height l <? acc_scan_height r.
Definition insert_user (users : list account) (u : account) : list account :=
  insert_at (lower_bound (fun v => db_by_height v u) users) u users.

Section server.
Context {LM : Lmdb} (address_string : account_address -> list Z).

Section full.
Context (s : tables).

Definition full (u : account) : Account.state := get_full_account address_string u s.

(** The loops that move [user_count] accounts from the back of [users]. *)
Definition take_back (user_count : Z) (users : list account) : list Account.state * list account :=
  let n := (length users - Z.to_nat (Z.min user_count (Z.of_nat (length users))))%nat in
  (full <$> rev (drop n users), take n users).

Fixpoint give_local (remaining_threads : Z) (users : list account) (local : list Queue.queue)
    : list Queue.queue * list account * Z :=
  match local with
  | [] => ([], users, remaining_threads)
  | q :: local =>
    let '(next, users) := take_back (Z.of_nat (length users) / remaining_threads) users in
    let '(local, users, remaining_threads) := give_local (remaining_threads - 1) users local in
    (Queue.replace_accounts next q :: local, users, remaining_threads)
  end.

Fixpoint give_remotes (remaining_threads : Z) (users : list account) (remotes : list remote)
    : list (Z * command) * list account :=
  match remotes with
  | [] => ([], users)
  | r :: remotes =>
    let users_per_thread := Z.of_nat (length users) / Z.max 1 remaining_threads in
    let '(next, users) := take_back (u64 (Z.max 1 users_per_thread * r_threads r)) users in
    let '(writes, users) := give_remotes (remaining_threads - Z.min remaining_threads (r_threads r)) users remotes in
    ((r_id r, ReplaceAccounts next) :: writes, users)
  end.

End full.

Definition do_replace_users (reader : expect tables) (sv : server) : expect outcome :=
  let remotes := live (remote_ sv) in
  let sv := MkServer (Some <$> remotes) (local_ sv) (active_ sv) (next_thread_ sv) (balance_new_addresses_ sv) (stop_ sv) in
  let* remaining_threads := efold add_threads (Z.of_nat (length (local_ sv))) remotes in
  if remaining_threads =? 0 then Ok (unchanged sv)
  else
    let* s := reader in
    let ids := foldl insert_id [] (acc_id <$> get_accounts active s) in
    let users := foldl insert_user [] (get_accounts active s) in
    let locals := Z.of_nat (length (local_ sv)) in
    let remaining_threads :=
      if negb (locals =? 0) && (Z.of_nat (length users) / locals <? remote_threshold) then locals else remaining_threads in
    let '(local, users, remaining_threads) := give_local s remaining_threads users (local_ sv) in
    let '(writes, _) := give_remotes s remaining_threads users remotes in
    Ok (Outcome (MkServer (remote_ sv) local ids 0 (balance_new_addresses_ sv) (stop_ sv)) writes
         (negb (locals =? 0))).

(** *** New accounts, in [check_users] *)

(** The accounts that are not in [active_copy]; [None] when there are so many
    that everything is distributed again. *)
Fixpoint find_new (s : tables) (users : list account) (active_copy ids : list account_id) (new_accounts : list Account.state)
    : option (list account_id * list account_id * list Account.state) :=
  match users with
  | [] => Some (active_copy, ids, new_accounts)
  | u :: users =>
    let loc := lower_bound (fun i => i <? acc_id u) active_copy in
    if match active_copy !! loc with Some i => i =? acc_id u | None => false end
    then find_new s users (delete loc active_copy) ids new_accounts
    else
      let new_accounts := new_accounts ++ [full s u] in
      if replace_threshold <? Z.of_nat (length new_accounts) then None
      else find_new s users active_copy (insert_id ids (acc_id u)) new_accounts
  end.
End server.

(** *** New accounts by height *)
Record best := Best { best_thread : nat; best_height : block_id; best_count : Z; found_below_or_equal : bool }.
Definition no_best : best := Best 0 0 u64_max false.

Definition better (account_height : block_id) (i : nat) (q : Queue.queue) (b : best) : best :=
  let height := Queue.current_min_height q in
  let count := Queue.user_count q in
  if height <=? account_height then
    if negb (found_below_or_equal b) || (best_height b <? height) || ((height =? best_height b) && (count <? best_count b))
    then Best i height count true else b
  else if negb (found_below_or_equal b) then
    if (best_height b =? 0) || (height <? best_height b) || ((height =? best_height b) && (count <? best_count b))
    then Best i height count (found_below_or_equal b) else b
  else b.
Fixpoint find_best (account_height : block_id) (i : nat) (local : list Queue.queue) (b : best) : best :=
  match local with [] => b | q :: local => find_best account_height (S i) local (better account_height i q b) end.

(** The accounts are taken from the back of [new_accounts]; the argument is the
    reverse. *)
Fixpoint assign_balanced (new_accounts : list Account.state) (local : list Queue.queue) : list Queue.queue :=
  match new_accounts with
  | [] => local
  | u :: new_accounts =>
    let b := find_best (Account.scan_height u) 0 local no_best in
    assign_balanced new_accounts (alter (Queue.push_accounts [u]) (best_thread b) local)
  end.

(** *** New accounts in turn *)
Fixpoint pick_remote (next_thread offset : Z) (remotes : list remote) : nat :=
  match remotes with
  | [] => O
  | r :: remotes => if next_thread <=? offset then O else S (pick_remote next_thread (offset + r_threads r) remotes)
  end.

Record turn := Turn {
  t_new : list Account.state;
  t_local : list Queue.queue;
  t_next : Z;
  t_writes : list (Z * command);
  t_notify : bool
}.

(** One round of the loop; an index past the remotes, undefined in C++, is an
    error here. *)
Definition next_turn (total_threads : Z) (remotes : list remote) (t : turn) : expect turn :=
  if t_next t <? Z.of_nat (length (t_local t)) then
    match last (t_new t) with
    | None => Ok t
    | Some u =>
      Ok (Turn (removelast (t_new t)) (alter (Queue.push_accounts [u]) (Z.to_nat (t_next t)) (t_local t))
            ((t_next t + 1) mod total_threads) (t_writes t) true)
    end
  else
    match remotes !! pick_remote (t_next t) (Z.of_nat (length (t_local t))) remotes with
    | None => Err out_of_range
    | Some r =>
      let n := (length (t_new t) - Z.to_nat (Z.min (Z.of_nat (length (t_new t))) (r_threads r)))%nat in
      Ok (Turn (take n (t_new t)) (t_local t) (u64 (t_next t + r_threads r) mod total_threads)
            (t_writes t ++ [(r_id r, PushAccounts (drop n (t_new t)))]) (t_notify t))
    end.

Fixpoint round_robin (fuel : nat) (total_threads : Z) (remotes : list remote) (t : turn) : expect turn :=
  match t_new t, fuel with
  | [], _ => Ok t
  | _, O => Err logic_error
  | _, S fuel => let* t := next_turn total_threads remotes t in round_robin fuel total_threads remotes t
  end.

Section check.
Context {LM : Lmdb} (address_string : account_address -> list Z) (no_lock_available : error -> bool).

Fixpoint scan_remotes (total_threads : Z) (remotes : list (option remote)) : expect (option (Z * list remote)) :=
  match remotes with
  | [] => Ok (Some (total_threads, []))
  | None :: _ => Ok None
  | Some r :: remotes =>
    let* total_threads := add_threads total_threads r in
    let* found := scan_remotes total_threads remotes in
    Ok (match found with
        | Some (total_threads, remotes) => Some (total_threads, if r_threads r =? 0 then remotes else r :: remotes)
        | None => None
        end)
  end.

(** [replace_reader] is the transaction [do_replace_users] opens. *)
Definition check_users (reader replace_reader : expect tables) (sv : server) : expect outcome :=
  if stop_ sv then Ok (unchanged sv)
  else
    let* found := scan_remotes (Z.of_nat (length (local_ sv))) (remote_ sv) in
    match found with
    | None => do_replace_users address_string replace_reader sv
    | Some (total_threads, remotes) =>
      if total_threads =? 0 then Ok (unchanged sv)
      else
        match reader with
        | Err e => if no_lock_available e then Ok (unchanged sv) else Err e
        | Ok s =>
          let users := get_accounts active s in
          if (length users <? length (active_ sv))%nat then do_replace_users address_string replace_reader sv
          else
            match find_new address_string s users (active_ sv) (active_ sv) [] with
            | Some ([], ids, new_accounts) =>
              if balance_new_addresses_ sv && negb (bool_decide (local_ sv = [])) then
                Ok (Outcome (MkServer (remote_ sv) (assign_balanced (rev new_accounts) (local_ sv)) ids (next_thread_ sv)
                               (balance_new_addresses_ sv) (stop_ sv)) [] (negb (bool_decide (new_accounts = []))))
              else
                let* t := round_robin (length new_accounts) total_threads remotes
                  (Turn new_accounts (local_ sv) (next_thread_ sv mod total_threads) [] false) in
                Ok (Outcome (MkServer (remote_ sv) (t_local t) ids (t_next t) (balance_new_addresses_ sv) (stop_ sv))
                      (t_writes t) (t_notify t))
            | _ => do_replace_users address_string replace_reader sv
            end
        end
    end.
End check.

(** *** Everything handed out *)

(** What the local threads have to take, and what is written to remote ones. *)
Definition pending (local : list Queue.queue) : list Account.state := local ≫= fun q => Queue.delivered (q, []).
Definition carried (c : command) : list Account.state := match c with PushAccounts us | ReplaceAccounts us => us end.
Definition written (writes : list (Z * command)) : list Account.state := writes ≫= fun w => carried w.2.

Lemma delivered_replace next q : Queue.delivered (Queue.replace_accounts next q, []) = next.
Proof. unfold Queue.delivered, Queue.take_status. cbn. apply app_nil_r. Qed.
Lemma delivered_push next q : Queue.delivered (Queue.push_accounts next q, []) = Queue.delivered (q, []) ++ next.
Proof. unfold Queue.delivered, Queue.take_status. cbn. by rewrite app_assoc. Qed.

Lemma pending_cons q local : pending (q :: local) = Queue.delivered (q, []) ++ pending local.
Proof. done. Qed.
Lemma pending_push next i local :
  (i < length local)%nat -> pending (alter (Queue.push_accounts next) i local) ≡ₚ pending local ++ next.
Proof.
  revert i. induction local as [|q local IH]; intros [|i] Hi; cbn [length] in Hi; try lia.
  - change (alter ?f 0%nat (q :: local)) with (f q :: local).
    rewrite !pending_cons, delivered_push, <- !app_assoc. apply Permutation_app_head, Permutation_app_comm.
  - change (alter ?f (S i) (q :: local)) with (q :: alter f i local).
    by rewrite !pending_cons, IH, app_assoc by lia.
Qed.
Lemma written_cons w writes : written (w :: writes) = carried w.2 ++ written writes.
Proof. done. Qed.
Lemma written_app w1 w2 : written (w1 ++ w2) = written w1 ++ written w2.
Proof. unfold written. apply bind_app. Qed.

Section replace.
Context {LM : Lmdb} (address_string : account_address -> list Z) (s : tables).
Let full := full address_string s.

Lemma take_back_spec n users next rest :
  take_back address_string s n users = (next, rest) ->
  full <$> users ≡ₚ next ++ (full <$> rest) /\ (0 <= n -> length rest = (length users - Z.to_nat n)%nat) /\
  exists k, rest = take k users.
Proof.
  unfold take_back. intros [= <- <-]. split; [|split; [|by eexists]].
  - rewrite <- (take_drop (length users - Z.to_nat (Z.min n (Z.of_nat (length users)))) users) at 1.
    rewrite fmap_app. rewrite Permutation_app_comm. apply Permutation_app_tail, fmap_Permutation, Permutation_rev.
  - intros Hn. rewrite length_take. lia.
Qed.

Lemma give_local_spec remaining users local local' rest remaining' :
  Z.of_nat (length local) <= remaining ->
  give_local address_string s remaining users local = (local', rest, remaining') ->
  full <$> users ≡ₚ pending local' ++ (full <$> rest) /\ remaining' = remaining - Z.of_nat (length local) /\
  length local' = length local /\ (exists k, rest = take k users) /\
  (remaining = Z.of_nat (length local) -> local <> [] -> rest = []).
Proof.
  revert remaining users local' rest remaining'. induction local as [|q local IH]; intros remaining users local' rest remaining' Hr Hg.
  { injection Hg as <- <- <-. split_and!; cbn; [done|lia|done| |done]. exists (length users). by rewrite take_ge. }
  cbn [give_local] in Hg. destruct (take_back _ _ _ _) as [next users1] eqn:E.
  destruct (give_local _ _ _ _ _) as [[local1 users2] remaining1] eqn:Eg. injection Hg as <- <- <-.
  apply take_back_spec in E as (Hp & Hlen & k & Hk). cbn [length] in Hr.
  apply IH in Eg as (Hp1 & Hr1 & Hl1 & (k1 & Hk1) & Hnil); [|lia].
  split_and!; [|cbn [length]; lia|cbn; lia| |].
  - rewrite pending_cons, delivered_replace, <- app_assoc, <- Hp1. exact Hp.
  - exists (k1 `min` k)%nat. subst. by rewrite take_take.
  - intros Heq _. cbn [length] in Heq. destruct local as [|q' local].
    + cbn in Hk1. assert (length users1 = 0)%nat as H0.
      { rewrite Hlen by (apply Z.div_pos; lia). replace remaining with 1 by (cbn in Heq; lia). rewrite Z.div_1_r. lia. }
      apply nil_length_inv in H0. rewrite Hk1, H0. by destruct k1.
    + apply Hnil; [cbn [length] in *; lia|done].
Qed.

Definition threads (remotes : list remote) : Z := foldr (fun r n => r_threads r + n) 0 remotes.

Lemma threads_nonneg remotes : Forall (fun r => 0 <= r_threads r) remotes -> 0 <= threads remotes.
Proof. induction 1 as [|r remotes Hr _ IH]; cbn; [lia|]. unfold threads in IH. lia. Qed.

(** The number of accounts a remote with all the remaining threads leaves over is
    less than its threads. *)
Lemma give_remotes_spec remaining users remotes writes rest :
  Forall (fun r => 0 <= r_threads r) remotes -> Z.of_nat (length users) <= u64_max -> threads remotes <= u64_max ->
  0 <= remaining ->
  give_remotes address_string s remaining users remotes = (writes, rest) ->
  full <$> users ≡ₚ written writes ++ (full <$> rest) /\ (exists k, rest = take k users) /\ writes.*1 = r_id <$> remotes /\
  (remaining = threads remotes -> remotes <> [] -> 0 < threads remotes ->
    rest = [] \/ exists r, r ∈ remotes /\ Z.of_nat (length rest) < r_threads r).
Proof.
  revert remaining users writes rest. induction remotes as [|r remotes IH]; intros remaining users writes rest Hnn Hu Ht Hrem Hg.
  { injection Hg as <- <-. split_and!; cbn; [done| |done|done]. exists (length users). by rewrite take_ge. }
  apply Forall_cons in Hnn as [Hr0 Hnn]. pose proof (threads_nonneg _ Hnn) as H0. cbn in Ht. fold (threads remotes) in Ht.
  cbn [give_remotes] in Hg. destruct (take_back _ _ _ _) as [next users1] eqn:E.
  destruct (give_remotes _ _ _ _ _) as [writes1 rest1] eqn:Eg. injection Hg as <- <-.
  apply take_back_spec in E as (Hp & Hlen & k & Hk).
  apply IH in Eg as (Hp1 & (k1 & Hk1) & Hw & Hleft); [|done|subst users1; rewrite length_take; lia|lia|lia].
  split_and!; [|exists (k1 `min` k)%nat; subst; by rewrite take_take|cbn; by rewrite Hw|].
  { rewrite written_cons, <- app_assoc. cbn [carried snd]. rewrite <- Hp1. exact Hp. }
  intros Heq _ Hpos. cbn in Heq, Hpos. fold (threads remotes) in Heq, Hpos.
  destruct (Z.eq_dec (threads remotes) 0) as [Hz|Hnz].
  - assert (rest1 = take k1 users1) as _ by done.
    assert (length rest1 <= length users1)%nat as Hle by (rewrite Hk1, length_take; lia).
    right. exists r. split; [by left|]. rewrite Hlen in Hle by (apply u64_range).
    replace (Z.max 1 remaining) with (r_threads r) in Hle by lia.
    set (q := Z.of_nat (length users) / r_threads r) in *.
    pose proof (Z.div_mod (Z.of_nat (length users)) (r_threads r) ltac:(lia)) as Hdm.
    pose proof (Z.mod_pos_bound (Z.of_nat (length users)) (r_threads r) ltac:(lia)) as Hmod. fold q in Hdm.
    assert (0 <= q) by (apply Z.div_pos; lia).
    rewrite u64_small in Hle by (unfold in_u64; nia).
    nia.
  - destruct (decide (remotes = [])) as [->|Hne]; [done|].
    destruct (Hleft ltac:(lia) Hne ltac:(lia)) as [?|(r' & ? & ?)]; [by left|right]. exists r'. split; [by right|done].
Qed.
End replace.

(** *** Taking turns *)

(** [next_thread_] is a local thread or the first of a remote one. *)
Definition at_start (locals : Z) (remotes : list remote) (next : Z) : Prop :=
  0 <= next < locals \/ exists k, (k < length remotes)%nat /\ next = locals + threads (take k remotes).

Lemma pick_remote_start offset remotes k :
  Forall (fun r => 0 < r_threads r) remotes -> (k < length remotes)%nat ->
  pick_remote (offset + threads (take k remotes)) offset remotes = k.
Proof.
  intros Hp. revert offset k. induction Hp as [|r remotes Hr Hp IH]; intros offset [|k] Hk; cbn [length] in Hk; try lia.
  - cbn. by rewrite (proj2 (Z.leb_le (offset + 0) offset)) by lia.
  - assert (0 <= threads (take k remotes)) as H0.
    { apply threads_nonneg. apply Forall_take. eapply Forall_impl; [exact Hp|]. cbn. lia. }
    cbn. fold (threads (take k remotes)). rewrite (proj2 (Z.leb_gt _ offset)) by lia. f_equal.
    rewrite <- (IH (offset + r_threads r) k) at 2 by lia. f_equal. lia.
Qed.

Lemma threads_cons r remotes : threads (r :: remotes) = r_threads r + threads remotes.
Proof. done. Qed.

Lemma threads_step remotes k r : remotes !! k = Some r -> threads (take (S k) remotes) = threads (take k remotes) + r_threads r.
Proof.
  revert k. induction remotes as [|x remotes IH]; intros [|k] Hk; try done.
  - injection Hk as ->. cbn [take]. rewrite take_0. cbn. lia.
  - cbn [take]. rewrite !threads_cons, (IH k Hk). lia.
Qed.

Lemma threads_app l1 l2 : threads (l1 ++ l2) = threads l1 + threads l2.
Proof. induction l1 as [|r l1 IH]; [done|]. cbn [app]. rewrite !threads_cons, IH. lia. Qed.

Lemma threads_split remotes k r :
  remotes !! k = Some r -> threads remotes = threads (take k remotes) + r_threads r + threads (drop (S k) remotes).
Proof. intros Hk. rewrite <- (take_drop (S k) remotes) at 1. by rewrite threads_app, (threads_step _ _ _ Hk). Qed.

Lemma removelast_last_perm {A} (l : list A) x : last l = Some x -> removelast l ++ [x] = l.
Proof.
  induction l as [|a [|b l] IH]; [done| |]; cbn.
  - by intros [= ->].
  - intros H. f_equal. by apply IH.
Qed.

Section turns.
Context (locals : Z) (remotes : list remote).
Context (Hpos : Forall (fun r => 0 < r_threads r) remotes) (Hmax : locals + threads remotes <= u64_max).

Lemma start_range next : at_start locals remotes next -> 0 <= locals -> 0 <= next < locals + threads remotes.
Proof.
  assert (Forall (fun r => 0 <= r_threads r) remotes) as Hnn by (eapply Forall_impl; [exact Hpos|]; cbn; lia).
  pose proof (threads_nonneg _ Hnn) as H0.
  intros [?|(k & Hk & ->)] Hl; [lia|]. destruct (lookup_lt_is_Some_2 _ _ Hk) as [r Hr].
  rewrite (threads_split _ _ _ Hr). rewrite Forall_forall in Hpos. pose proof (Hpos r ltac:(by eapply list_elem_of_lookup_2)).
  pose proof (threads_nonneg (take k remotes) ltac:(by apply Forall_take)).
  pose proof (threads_nonneg (drop (S k) remotes) ltac:(by apply Forall_drop)). lia.
Qed.

(** One round hands out at least one account and goes on to the next thread. *)
Lemma next_turn_spec t :
  Z.of_nat (length (t_local t)) = locals -> at_start locals remotes (t_next t) -> t_new t <> [] ->
  exists t', next_turn (locals + threads remotes) remotes t = Ok t' /\
    Z.of_nat (length (t_local t')) = locals /\ at_start locals remotes (t_next t') /\
    (length (t_new t') < length (t_new t))%nat /\
    pending (t_local t') ++ written (t_writes t') ++ t_new t' ≡ₚ pending (t_local t) ++ written (t_writes t) ++ t_new t.
Proof.
  destruct t as [new local next writes notify]. cbn. intros Hl Hs Hnew.
  assert (0 <= locals) as Hl0 by lia. pose proof (start_range next Hs Hl0) as Hrange.
  unfold next_turn. cbn. rewrite Hl. destruct (Z.ltb_spec next locals) as [Hlt|Hge].
  - destruct (last new) as [u|] eqn:El; [|by apply last_None in El].
    pose proof (removelast_last_perm _ _ El) as Hrl. eexists. split; [done|]. cbn. rewrite length_alter.
    split; [done|]. split; [|split].
    + destruct (Z.eq_dec (next + 1) (locals + threads remotes)) as [Heq|Hne].
      * rewrite Heq, Z_mod_same_full. left. lia.
      * rewrite Z.mod_small by lia. destruct (Z.eq_dec (next + 1) locals) as [Heq|Hne2]; [|left; lia].
        right. exists 0%nat. rewrite take_0. cbn. split; [|lia]. destruct remotes; cbn in *; lia.
    + rewrite <- Hrl at 2. rewrite length_app. cbn. lia.
    + rewrite pending_push by lia. rewrite <- Hrl at 2. rewrite <- !app_assoc. apply Permutation_app_head.
      rewrite Permutation_app_comm, <- !app_assoc. done.
  - destruct Hs as [?|(k & Hk & ->)]; [lia|]. rewrite pick_remote_start by done.
    destruct (lookup_lt_is_Some_2 _ _ Hk) as [r Hr]. rewrite Hr.
    assert (0 < r_threads r) as Hr0 by (rewrite Forall_forall in Hpos; apply Hpos; by eapply list_elem_of_lookup_2).
    pose proof (threads_step _ _ _ Hr) as Hstep. pose proof (threads_split _ _ _ Hr) as Hsplit.
    assert (0 <= threads (drop (S k) remotes)) as Hd.
    { apply threads_nonneg, Forall_drop. eapply Forall_impl; [exact Hpos|]. cbn. lia. }
    eexists. split; [done|]. cbn. split; [done|]. split; [|split].
    + rewrite u64_small by (unfold in_u64; lia).
      destruct (Nat.eq_dec (S k) (length remotes)) as [Heq|Hne].
      * rewrite Heq, take_ge in Hstep by done. rewrite Hstep.
        replace (locals + threads (take k remotes) + r_threads r) with (locals + (threads (take k remotes) + r_threads r)) by lia.
        rewrite Z_mod_same_full. destruct (Z.eq_dec locals 0) as [->|]; [|left; lia].
        right. exists 0%nat. split; [lia|]. by rewrite take_0.
      * assert (S k < length remotes)%nat as Hk' by lia.
        right. exists (S k). split; [done|]. rewrite Hstep.
        destruct (lookup_lt_is_Some_2 _ _ Hk') as [r' Hr'].
        assert (0 < threads (drop (S k) remotes)) as Hd'.
        { rewrite (drop_S _ _ _ Hr'). cbn. rewrite Forall_forall in Hpos.
          pose proof (Hpos r' ltac:(by eapply list_elem_of_lookup_2)).
          pose proof (threads_nonneg (drop (S (S k)) remotes)) as Hdd. unfold threads in Hdd at 1.
          assert (0 <= foldr (fun r n => r_threads r + n) 0 (drop (S (S k)) remotes)); [|lia].
          apply Hdd, Forall_drop, Forall_forall. intros x Hx. pose proof (Hpos x Hx). cbn. lia. }
        rewrite Z.mod_small by lia. lia.
    + rewrite length_take. destruct new; [done|]. cbn [length]. lia.
    + rewrite written_app, written_cons. cbn. rewrite app_nil_r, <- !app_assoc.
      apply Permutation_app_head, Permutation_app_head. rewrite Permutation_app_comm. by rewrite take_drop.
Qed.

Lemma round_robin_spec t fuel :
  Z.of_nat (length (t_local t)) = locals -> at_start locals remotes (t_next t) -> (length (t_new t) <= fuel)%nat ->
  exists t', round_robin fuel (locals + threads remotes) remotes t = Ok t' /\ t_new t' = [] /\
    Z.of_nat (length (t_local t')) = locals /\ at_start locals remotes (t_next t') /\
    pending (t_local t') ++ written (t_writes t') ≡ₚ pending (t_local t) ++ written (t_writes t) ++ t_new t.
Proof.
  revert t. induction fuel as [|fuel IH]; intros t Hl Hs Hf.
  - destruct (t_new t) eqn:E; [|cbn in Hf; lia]. exists t. cbn. rewrite E. split_and!; try done. by rewrite app_nil_r.
  - destruct (decide (t_new t = [])) as [E|E].
    { exists t. cbn. rewrite E. split_and!; try done. by rewrite app_nil_r. }
    destruct (next_turn_spec t Hl Hs E) as (t1 & Ht1 & Hl1 & Hs1 & Hlen & Hp).
    destruct (IH t1 Hl1 Hs1 ltac:(lia)) as (t2 & Ht2 & Hn2 & Hl2 & Hs2 & Hp2).
    exists t2. cbn. destruct (t_new t) eqn:E'; [done|]. rewrite Ht1. cbn.
    split_and!; try done. rewrite Hp2. rewrite <- E' in Hp. by rewrite E' in Hp.
Qed.
End turns.

(** *** New accounts are the ones that are not in [active_] *)
Lemma sorted_by_sublist {A} (lt : A -> A -> bool) l1 l2 : l1 `sublist_of` l2 -> sorted_by lt l2 -> sorted_by lt l1.
Proof.
  unfold sorted_by. induction 1 as [|x l1 l2 Hs IH|x l1 l2 Hs IH]; intros H; [constructor| |]; inversion H; subst.
  - constructor; [auto|]. rewrite Forall_forall in *. intros y Hy. eauto using elem_of_sublist.
  - auto.
Qed.

Lemma insert_id_perm ids i : insert_id ids i ≡ₚ i :: ids.
Proof. apply insert_at_perm. Qed.
Lemma insert_id_sorted ids i : sorted_by Z.ltb ids -> sorted_by Z.ltb (insert_id ids i).
Proof. apply (sorted_insert Z.ltb). Qed.

Lemma insert_ids ids new :
  sorted_by Z.ltb ids -> sorted_by Z.ltb (foldl insert_id ids new) /\ foldl insert_id ids new ≡ₚ ids ++ new.
Proof.
  revert ids. induction new as [|i new IH]; intros ids Hs; cbn; [by rewrite app_nil_r|].
  destruct (IH (insert_id ids i) (insert_id_sorted _ _ Hs)) as [H1 H2]. split; [done|].
  rewrite H2, insert_id_perm. by rewrite <- Permutation_middle.
Qed.

Lemma insert_users users new : foldl insert_user users new ≡ₚ users ++ new.
Proof.
  revert users. induction new as [|u new IH]; intros users; cbn; [by rewrite app_nil_r|].
  rewrite IH. unfold insert_user. rewrite insert_at_perm. by rewrite <- Permutation_middle.
Qed.

Definition fresh (ids : list account_id) (users : list account) : list account :=
  List.filter (fun u => negb (bool_decide (acc_id u ∈ ids))) users.

Lemma fresh_same ids ids' users :
  (forall u, u ∈ users -> acc_id u ∈ ids <-> acc_id u ∈ ids') -> fresh ids users = fresh ids' users.
Proof.
  induction users as [|u users IH]; intros H; [done|]. cbn.
  fold (fresh ids users) (fresh ids' users). rewrite IH by (intros; apply H; by right).
  by rewrite (bool_decide_ext (acc_id u ∈ ids) (acc_id u ∈ ids') (H u ltac:(by left))).
Qed.

Section find.
Context {LM : Lmdb} (address_string : account_address -> list Z) (s : tables).

Lemma find_new_spec users copy ids new :
  sorted_by Z.ltb copy -> NoDup copy -> sorted_by Z.ltb ids -> NoDup (acc_id <$> users) ->
  Z.of_nat (length new + length (fresh copy users)) <= replace_threshold ->
  exists copy' ids',
    find_new address_string s users copy ids new = Some (copy', ids', new ++ (full address_string s <$> fresh copy users)) /\
    sorted_by Z.ltb ids' /\ ids' ≡ₚ ids ++ (acc_id <$> fresh copy users) /\
    forall i, i ∈ copy' <-> i ∈ copy /\ i ∉ (acc_id <$> users).
Proof.
  revert copy ids new. induction users as [|u users IH]; intros copy ids new Hc Hnd Hi Hu Hmax.
  { exists copy, ids. cbn. rewrite !app_nil_r. split_and!; try done. intros i. split; [|by intros []].
    intros ?. split; [done|]. apply not_elem_of_nil. }
  cbn in Hu. apply NoDup_cons in Hu as [Hnu Hu].
  set (loc := lower_bound (fun i => i <? acc_id u) copy).
  pose proof (lower_bound_found Z.ltb (acc_id u) copy Hc) as Hfound. fold loc in Hfound.
  cbn [find_new]. fold loc. destruct (decide (acc_id u ∈ copy)) as [Hin|Hni].
  - apply Hfound in Hin as Hloc.
        match goal with |- context [if ?c then find_new _ _ _ _ _ _ else _] => assert (c = true) as -> end.
    { assert (forall o : option Z, o = Some (acc_id u) -> match o with Some i => i =? acc_id u | None => false end = true) as Ho
        by (intros ? ->; apply Z.eqb_refl).
      exact (Ho _ Hloc). }
    pose proof (delete_Permutation copy loc (acc_id u) Hloc) as Hdel.
    assert (forall i, i ∈ copy <-> i = acc_id u \/ i ∈ delete loc copy) as Hmem.
    { assert (forall l : list Z, copy ≡ₚ acc_id u :: l -> forall i, i ∈ copy <-> i = acc_id u \/ i ∈ l) as Hl
        by (intros l Hl i; rewrite Hl; apply elem_of_cons). exact (Hl _ Hdel). }
    assert (NoDup (acc_id u :: delete loc copy)) as Hnd' by (by rewrite <- Hdel).
    apply NoDup_cons in Hnd' as [Hnotin Hnd'].
    assert (fresh (delete loc copy) users = fresh copy users) as Hfr.
    { apply fresh_same. intros v Hv. rewrite Hmem. split; [by right|]. intros [Heq|?]; [|done].
      exfalso. apply Hnu. rewrite <- Heq. by apply list_elem_of_fmap_2. }
    cbn in Hmax |- *. rewrite bool_decide_true in Hmax |- * by done. cbn in Hmax |- *. fold (fresh copy users) in Hmax |- *.
    destruct (IH (delete loc copy) ids new) as (copy' & ids' & Heq & Hs & Hp & Hleft); try done.
    + eapply sorted_by_sublist; [|exact Hc]. apply sublist_delete.
    + by rewrite Hfr.
    + rewrite Hfr in Heq, Hp. exists copy', ids'. split_and!; try done. intros i. rewrite Hleft, Hmem, elem_of_cons.
      split; [intros [H1 H2]; split; [by right|]; intros [->|?]; [by apply Hnotin|done]|].
      intros [[->|H1] H2]; [exfalso; apply H2; by left|]. split; [done|]. intros ?. apply H2. by right.
  - match goal with |- context [if ?c then find_new _ _ _ _ _ _ else _] => assert (c = false) as -> end.
    { assert (forall o : option Z, o = copy !! loc -> match o with Some i => i =? acc_id u | None => false end = false) as Ho.
      { intros [i|] Ho; [|done]. apply Z.eqb_neq. intros ->. by apply Hni, Hfound. }
      exact (Ho _ eq_refl). }
    cbn in Hmax |- *. rewrite bool_decide_false in Hmax |- * by done. cbn in Hmax |- *. fold (fresh copy users) in Hmax |- *.
    rewrite (proj2 (Z.ltb_ge _ _)) by (rewrite length_app; cbn; lia).
    destruct (IH copy (insert_id ids (acc_id u)) (new ++ [full address_string s u])) as (copy' & ids' & Heq & Hs & Hp & Hleft); try done.
    + by apply insert_id_sorted.
    + rewrite length_app. cbn. lia.
    + exists copy', ids'. split_and!; try done.
      * rewrite Heq, <- app_assoc. done.
      * rewrite Hp, insert_id_perm. by rewrite <- Permutation_middle.
      * intros i. rewrite Hleft, elem_of_cons. split; [|naive_solver].
        intros [H1 H2]. split; [done|]. intros [->|?]; [by apply Hni|done].
Qed.
End find.

(** *** The thread for a new account *)
Definition fits (account_height : block_id) (local : list Queue.queue) (i : nat) (q : Queue.queue) : Prop :=
  local !! i = Some q /\ Queue.current_min_height q <= account_height.

(** [q] is to be preferred to [q']: it is closer below the account, or has no
    more accounts. *)
Definition closer (q q' : Queue.queue) : Prop :=
  Queue.current_min_height q' < Queue.current_min_height q \/
  Queue.current_min_height q' = Queue.current_min_height q /\ Queue.user_count q <= Queue.user_count q'.
Definition nearer (q q' : Queue.queue) : Prop :=
  Queue.current_min_height q < Queue.current_min_height q' \/
  Queue.current_min_height q' = Queue.current_min_height q /\ Queue.user_count q <= Queue.user_count q'.

(** What the search knows after the queues of [seen]. *)
Definition best_of (account_height : block_id) (seen : list Queue.queue) (b : best) : Prop :=
  if found_below_or_equal b then
    exists q, fits account_height seen (best_thread b) q /\ best_height b = Queue.current_min_height q /\ best_count b = Queue.user_count q /\
      forall q', q' ∈ seen -> Queue.current_min_height q' <= account_height -> closer q q'
  else
    (forall q', q' ∈ seen -> account_height < Queue.current_min_height q') /\
    (seen = [] /\ b = no_best \/
     exists q, seen !! best_thread b = Some q /\ best_height b = Queue.current_min_height q /\ best_count b = Queue.user_count q /\
       forall q', q' ∈ seen -> nearer q q').

Lemma better_best account_height seen q b :
  0 <= account_height -> best_of account_height seen b -> best_of account_height (seen ++ [q]) (better account_height (length seen) q b).
Proof.
  intros Hh Hb. unfold better. unfold best_of in Hb.
  assert ((seen ++ [q]) !! length seen = Some q) as Hq by (rewrite lookup_app_r by lia; by rewrite Nat.sub_diag).
  assert (forall q', q' ∈ seen ++ [q] -> q' ∈ seen \/ q' = q) as Hsplit.
  { intros q' [?|Hx]%elem_of_app; [by left|right]. by apply list_elem_of_singleton in Hx. }
  destruct (Z.leb_spec (Queue.current_min_height q) account_height) as [Hle|Hgt].
  - destruct (found_below_or_equal b) eqn:Ef; cbn [negb orb].
    + destruct Hb as (p & [Hp Hpl] & Hbh & Hbc & Hbest).
      destruct ((best_height b <? _) || _) eqn:E; unfold best_of; [cbn|rewrite Ef].
      * exists q. split_and!; try done. intros q' [Hq'| ->]%Hsplit Hle'; [|unfold closer; lia].
        destruct (Hbest q' Hq' Hle'); unfold closer;
          apply orb_true_iff in E as [E|E]; rewrite ?andb_true_iff, ?Z.ltb_lt, ?Z.eqb_eq in E; lia.
      * exists p. split; [split; [by apply lookup_app_l_Some|done]|]. split_and!; try done.
        intros q' [Hq'| ->]%Hsplit Hle'; [by apply Hbest|]. unfold closer.
        apply orb_false_iff in E as [E1 E2]. apply Z.ltb_ge in E1.
        destruct (Z.eqb_spec (Queue.current_min_height q) (best_height b)); cbn in E2; [apply Z.ltb_ge in E2|]; lia.
    + unfold best_of. cbn. exists q. split_and!; try done. intros q' [Hq'| ->]%Hsplit Hle'; [|unfold closer; lia].
      destruct Hb as [Hb _]. pose proof (Hb q' Hq'). lia.
  - destruct (found_below_or_equal b) eqn:Ef; cbn [negb].
    + unfold best_of. rewrite Ef. destruct Hb as (p & [Hp Hpl] & Hbh & Hbc & Hbest).
      exists p. split; [split; [by apply lookup_app_l_Some|done]|]. split_and!; try done.
      intros q' [Hq'| ->]%Hsplit Hle'; [by apply Hbest|lia].
    + destruct Hb as [Hall Hb].
      assert (forall q', q' ∈ seen ++ [q] -> account_height < Queue.current_min_height q') as Hall'.
      { intros q' [Hq'| ->]%Hsplit; [by apply Hall|lia]. }
      destruct ((best_height b =? 0) || _ || _) eqn:E; unfold best_of; [cbn|]; rewrite ?Ef; (split; [done|]); right.
      * exists q. split_and!; try done. intros q' [Hq'| ->]%Hsplit; [|unfold nearer; lia].
        destruct Hb as [[-> _]|(p & Hp & Hbh & Hbc & Hbest)]; [by apply elem_of_nil in Hq'|].
        pose proof (Hall p ltac:(by eapply list_elem_of_lookup_2)). destruct (Hbest q' Hq'); unfold nearer;
          apply orb_true_iff in E as [[E|E]%orb_true_iff|E]; rewrite ?andb_true_iff, ?Z.ltb_lt, ?Z.eqb_eq in E; lia.
      * destruct Hb as [[-> ->]|(p & Hp & Hbh & Hbc & Hbest)]; [cbn in E; done|].
        exists p. split; [by apply lookup_app_l_Some|]. split_and!; try done. intros q' [Hq'| ->]%Hsplit; [by apply Hbest|].
        unfold nearer. apply orb_false_iff in E as [[_ E1]%orb_false_iff E2]. apply Z.ltb_ge in E1.
        destruct (Z.eqb_spec (Queue.current_min_height q) (best_height b)); cbn in E2; [apply Z.ltb_ge in E2|]; lia.
Qed.

Lemma find_best_spec account_height seen local b :
  0 <= account_height -> best_of account_height seen b ->
  best_of account_height (seen ++ local) (find_best account_height (length seen) local b).
Proof.
  intros Hh. revert seen b. induction local as [|q local IH]; intros seen b Hb; cbn; [by rewrite app_nil_r|].
  replace (seen ++ q :: local) with ((seen ++ [q]) ++ local) by (by rewrite <- app_assoc).
  replace (S (length seen)) with (length (seen ++ [q])) by (rewrite length_app; cbn; lia).
  apply IH. by apply better_best.
Qed.

Lemma no_best_of account_height : best_of account_height [] no_best.
Proof. split; [by intros ? ?%elem_of_nil|by left]. Qed.

Lemma best_in_range account_height local : 0 <= account_height -> local <> [] ->
  (best_thread (find_best account_height 0 local no_best) < length local)%nat.
Proof.
  intros Hh Hne. pose proof (find_best_spec account_height [] local no_best Hh (no_best_of _)) as Hb. cbn [app length] in Hb.
  unfold best_of in Hb. destruct (found_below_or_equal _).
  - destruct Hb as (q & [Hq _] & _). by eapply lookup_lt_Some.
  - destruct Hb as [_ [[-> _]|(q & Hq & _)]]; [done|]. by eapply lookup_lt_Some.
Qed.

Lemma assign_balanced_spec new local :
  local <> [] -> (forall u, u ∈ new -> 0 <= Account.scan_height u) ->
  pending (assign_balanced new local) ≡ₚ pending local ++ new /\ length (assign_balanced new local) = length local.
Proof.
  revert local. induction new as [|u new IH]; intros local Hl Hh; cbn; [by rewrite app_nil_r|].
  pose proof (best_in_range (Account.scan_height u) local ltac:(apply Hh; by left) Hl) as Hr.
  destruct (IH (alter (Queue.push_accounts [u]) (best_thread (find_best (Account.scan_height u) 0 local no_best)) local)) as [H1 H2].
  - intros E. apply (f_equal length) in E. rewrite length_alter in E. destruct local; [done|]. cbn in E. lia.
  - intros v Hv. apply Hh. by right.
  - rewrite H1, H2, length_alter. split; [|done]. rewrite pending_push by done. by rewrite <- app_assoc.
Qed.

(** ** What the server promises *)
Section promises.
Context {LM : Lmdb} {LL : LmdbLaws LM} (address_string : account_address -> list Z) (no_lock_available : error -> bool).
Implicit Types (s : tables) (sv : server).

Lemma active_ids_nodup s : NoDup (acc_id <$> get_accounts active s).
Proof.
  unfold get_accounts. pose proof (dups_sorted accounts (t_accounts s) active _) as Hs. unfold dup_sorted in Hs.
  induction Hs as [|u l Hl IH Hu]; cbn; [apply NoDup_nil_2|]. apply NoDup_cons_2; [|exact IH].
  intros (v & Hv & Hin)%list_elem_of_fmap. rewrite Forall_forall in Hu. specialize (Hu v Hin). cbn in Hu. apply Z.ltb_lt in Hu. lia.
Qed.

Lemma add_threads_sum total remotes :
  0 <= total -> Forall (fun r => 0 <= r_threads r) remotes -> total + threads remotes <= u64_max ->
  efold add_threads total remotes = Ok (total + threads remotes).
Proof.
  intros Ht Hnn. revert total Ht. induction Hnn as [|r remotes Hr Hnn IH]; intros total Ht Hmax.
  - cbn. f_equal. lia.
  - rewrite threads_cons in *. pose proof (threads_nonneg _ Hnn). cbn. unfold add_threads at 1.
    rewrite (proj2 (Z.ltb_ge _ _)) by lia. cbn. rewrite IH by lia. f_equal. lia.
Qed.

Lemma threads_filter remotes : threads (List.filter (fun r => negb (r_threads r =? 0)) remotes) = threads remotes.
Proof.
  induction remotes as [|r remotes IH]; [done|]. cbn [List.filter].
  destruct (Z.eqb_spec (r_threads r) 0); cbn [negb]; rewrite ?threads_cons; lia.
Qed.

Lemma scan_remotes_live total remotes :
  0 <= total -> Forall (fun r => 0 <= r_threads r) remotes -> total + threads remotes <= u64_max ->
  scan_remotes total (Some <$> remotes) =
  Ok (Some (total + threads remotes, List.filter (fun r => negb (r_threads r =? 0)) remotes)).
Proof.
  intros Ht Hnn. revert total Ht. induction Hnn as [|r remotes Hr Hnn IH]; intros total Ht Hmax.
  - cbn. do 3 f_equal. lia.
  - rewrite threads_cons in *. pose proof (threads_nonneg _ Hnn). cbn. unfold add_threads at 1.
    rewrite (proj2 (Z.ltb_ge _ _)) by lia. cbn. rewrite IH by lia. cbn.
    destruct (r_threads r =? 0); cbn; do 3 f_equal; lia.
Qed.

Lemma live_some remotes : live (Some <$> remotes) = remotes.
Proof.
  induction remotes as [|r remotes IH]; [done|].
  change (live (Some <$> r :: remotes)) with (r :: live (Some <$> remotes)). by rewrite IH.
Qed.

(** The whole of [do_replace_users]. *)
Lemma do_replace_spec s sv :
  let remotes := live (remote_ sv) in
  let locals := Z.of_nat (length (local_ sv)) in
  let users := get_accounts active s in
  Forall (fun r => 0 <= r_threads r) remotes -> 0 < locals + threads remotes <= u64_max ->
  Z.of_nat (length users) <= u64_max ->
  exists o left, do_replace_users address_string (Ok s) sv = Ok o /\
    pending (local_ (o_server o)) ++ written (o_writes o) ++ (full address_string s <$> left) ≡ₚ full address_string s <$> users /\
    (o_writes o).*1 = r_id <$> remotes /\ length (local_ (o_server o)) = length (local_ sv) /\
    active_ (o_server o) ≡ₚ acc_id <$> users /\ sorted_by Z.ltb (active_ (o_server o)) /\ next_thread_ (o_server o) = 0 /\
    remote_ (o_server o) = Some <$> remotes /\ stop_ (o_server o) = stop_ sv /\
    balance_new_addresses_ (o_server o) = balance_new_addresses_ sv /\
    (exists k, left = take k (foldl insert_user [] users)) /\
    (left = [] \/ exists r, r ∈ remotes /\ Z.of_nat (length left) < r_threads r) /\
    (threads remotes = 0 \/ 0 < locals /\ Z.of_nat (length users) / locals < remote_threshold -> left = []).
Proof.
  intros remotes locals users Hnn Htot Hmax. unfold do_replace_users. fold remotes. cbn [local_ remote_ active_ next_thread_ balance_new_addresses_ stop_].
  fold locals. rewrite add_threads_sum by (done || lia). cbn [ebind].
  rewrite (proj2 (Z.eqb_neq (locals + threads remotes) 0)) by lia.
  fold users. set (sorted := foldl insert_user [] users).
  pose proof (insert_users [] users) as Hperm. cbn in Hperm. fold sorted in Hperm.
  pose proof (Permutation_length Hperm) as Hlen. rewrite Hlen.
  destruct (insert_ids [] (acc_id <$> users) ltac:(constructor)) as [Hsrt Hids]. cbn in Hids.
  pose proof (threads_nonneg _ Hnn) as Ht0.
  set (over := negb (locals =? 0) && (Z.of_nat (length users) / locals <? remote_threshold)).
  set (remaining := if over then locals else locals + threads remotes).
  destruct (give_local address_string s remaining sorted (local_ sv)) as [[local rest] remaining1] eqn:Eg.
  apply give_local_spec in Eg as (Hp1 & Hr1 & Hl1 & (k1 & Hk1) & Hnil); [|fold locals; unfold remaining; destruct over; lia].
  fold locals in Hr1, Hnil.
  destruct (give_remotes address_string s remaining1 rest remotes) as [writes left] eqn:Er.
  apply give_remotes_spec in Er as (Hp2 & (k2 & Hk2) & Hw & Hleft); [|done| |lia|unfold remaining in Hr1; destruct over; lia].
  2:{ rewrite Hk1, length_take. lia. }
  eexists _, left. split; [done|]. cbn.
  assert (locals <> 0 -> local_ sv <> []) as Hloc by (intros H E; apply H; unfold locals; by rewrite E).
  assert (over = true -> 0 < locals) as Hover.
  { unfold over. intros [H _]%andb_true_iff. apply negb_true_iff, Z.eqb_neq in H. lia. }
  assert (over = true \/ threads remotes = 0 -> left = []) as Hempty.
  { intros H. assert (rest = []) as ->.
    { destruct (Z.eq_dec locals 0) as [Hz|Hnz]; [destruct H as [H|H]; [specialize (Hover H); lia|lia]|].
      apply Hnil; [unfold remaining; destruct over; [done|destruct H; [done|lia]]|auto]. }
    rewrite Hk2. by destruct k2. }
  split_and!; try done.
  - rewrite <- Hp2, <- Hp1. by apply fmap_Permutation.
  - exists (k2 `min` k1)%nat. rewrite Hk2, Hk1. by rewrite take_take.
  - destruct (bool_decide_reflect (over = true \/ threads remotes = 0)) as [H|H]; [left; by apply Hempty|].
    assert (over = false) as Hof by (destruct over; [exfalso; apply H; by left|done]).
    apply Hleft; [unfold remaining in Hr1; rewrite Hof in Hr1; lia| |].
    + intros Hn. apply H. right. by rewrite Hn.
    + assert (threads remotes <> 0) by (intros ?; apply H; by right). lia.
  - intros [H|[H1 H2]]; apply Hempty; [by right|left]. unfold over. apply andb_true_iff. split; [apply negb_true_iff, Z.eqb_neq; lia|by apply Z.ltb_lt].
Qed.

(** [do_replace_users] hands every active account of the database to exactly
    one thread, up to fewer accounts than one remote scanner has threads; none
    is left when there is no remote thread or so few accounts that only local
    threads are used. All of them are recorded as active. *)
Theorem replace_hands_out s sv :
  let remotes := live (remote_ sv) in
  let locals := Z.of_nat (length (local_ sv)) in
  let users := get_accounts active s in
  Forall (fun r => 0 <= r_threads r) remotes -> 0 < locals + threads remotes <= u64_max ->
  Z.of_nat (length users) <= u64_max ->
  exists o left, do_replace_users address_string (Ok s) sv = Ok o /\
    pending (local_ (o_server o)) ++ written (o_writes o) ++ (full address_string s <$> left) ≡ₚ full address_string s <$> users /\
    active_ (o_server o) ≡ₚ acc_id <$> users /\ sorted_by Z.ltb (active_ (o_server o)) /\
    (left = [] \/ exists r, r ∈ remotes /\ Z.of_nat (length left) < r_threads r) /\
    (threads remotes = 0 \/ 0 < locals /\ Z.of_nat (length users) / locals < remote_threshold -> left = []).
Proof.
  intros remotes locals users H1 H2 H3. destruct (do_replace_spec s sv H1 H2 H3) as (o & left & ? & ? & ? & ? & ? & ? & ? & ? & ? & ? & ? & ? & ?).
  by exists o, left.
Qed.

(** The first check after a redistribution finds nothing new. *)
Lemma check_after_replace s reader o remotes :
  stop_ (o_server o) = false -> remote_ (o_server o) = Some <$> remotes ->
  Forall (fun r => 0 <= r_threads r) remotes ->
  Z.of_nat (length (local_ (o_server o))) + threads remotes <= u64_max ->
  0 < Z.of_nat (length (local_ (o_server o))) + threads remotes ->
  active_ (o_server o) ≡ₚ acc_id <$> get_accounts active s -> sorted_by Z.ltb (active_ (o_server o)) ->
  exists o', check_users address_string no_lock_available (Ok s) reader (o_server o) = Ok o' /\
    o_writes o' = [] /\ local_ (o_server o') = local_ (o_server o).
Proof.
  intros Hstop Hrem Hnn Hmax Hpos Hact Hsort. unfold check_users. rewrite Hstop, Hrem, scan_remotes_live by (done || lia). cbn [ebind].
  rewrite (proj2 (Z.eqb_neq _ 0)) by lia. cbn zeta.
  assert (length (active_ (o_server o)) = length (get_accounts active s)) as Hlen by (by rewrite Hact, length_fmap).
  rewrite (proj2 (Nat.ltb_ge _ _)) by lia.
  assert (fresh (active_ (o_server o)) (get_accounts active s) = []) as Hfresh.
  { assert (forall l, (forall u, u ∈ l -> acc_id u ∈ active_ (o_server o)) -> fresh (active_ (o_server o)) l = []) as H.
    { induction l as [|u l IH]; intros Hl; [done|]. cbn. rewrite bool_decide_true by (apply Hl; by left). apply IH. intros. apply Hl. by right. }
    apply H. intros u Hu. rewrite Hact. by apply list_elem_of_fmap_2. }
  destruct (find_new_spec address_string s (get_accounts active s) (active_ (o_server o)) (active_ (o_server o)) []) as (copy & ids & Hf & _ & _ & Hcopy);
    [done|by rewrite Hact; apply active_ids_nodup|done|apply active_ids_nodup|by rewrite Hfresh|].
  rewrite Hf, Hfresh. cbn [fmap list_fmap app].
  destruct copy as [|i copy].
  - destruct (_ && _); [by eexists|]. cbn. by eexists.
  - exfalso. destruct (proj1 (Hcopy i) ltac:(by left)) as [H1 H2]. apply H2. by rewrite <- Hact.
Qed.

(** With a single remote scanner and no local thread, what does not divide by
    its number of threads is handed to nobody: these accounts, the ones furthest
    behind, count as active, so that the following checks do not find them
    either. *)
Theorem remote_remainder_unscanned s reader sv r :
  local_ sv = [] -> live (remote_ sv) = [r] -> stop_ sv = false -> 0 < r_threads r ->
  r_threads r <= Z.of_nat (length (get_accounts active s)) <= u64_max ->
  let n := Z.of_nat (length (get_accounts active s)) in
  exists o o' next, do_replace_users address_string (Ok s) sv = Ok o /\
    o_writes o = [(r_id r, ReplaceAccounts next)] /\ Z.of_nat (length next) = n - n mod r_threads r /\
    active_ (o_server o) ≡ₚ acc_id <$> get_accounts active s /\
    check_users address_string no_lock_available (Ok s) reader (o_server o) = Ok o' /\ o_writes o' = [].
Proof.
  intros Hlocal Hlive Hstop Hr Hn n.
  destruct (do_replace_spec s sv) as (o & left & Ho & Hp & Hw & Hl & Hact & Hsort & _ & Hrem & Hst & _ & _ & Hleft & _);
    rewrite ?Hlive, ?Hlocal; cbn; [by repeat constructor; lia|lia|lia|].
  rewrite Hlive in Hrem. rewrite Hlocal in Hl.
  destruct (check_after_replace s reader o [r]) as (o' & Ho' & Hw' & _);
    [by rewrite Hst|done|repeat constructor; lia|rewrite Hl; cbn; lia|rewrite Hl; cbn; lia|done|done|].
  pose proof Ho as Hresult. unfold do_replace_users in Ho. rewrite Hlive, Hlocal in Ho. cbn [local_ length] in Ho.
  unfold efold, add_threads in Ho. rewrite (proj2 (Z.ltb_ge _ _)) in Ho by lia. cbn [ebind Z.of_nat negb Z.eqb andb give_local] in Ho.
  replace (0 + r_threads r) with (r_threads r) in Ho by lia. rewrite (proj2 (Z.eqb_neq _ 0)) in Ho by lia.
  pose proof (Permutation_length (insert_users [] (get_accounts active s))) as Hlen. cbn [app] in Hlen.
  cbn [give_remotes] in Ho. destruct (take_back _ _ _ _) as [next rest] eqn:E. injection Ho as <-.
  apply take_back_spec in E as (Hperm & Hrest & _). specialize (Hrest (proj1 (u64_range _))).
  apply Permutation_length in Hperm. rewrite length_app, !length_fmap, Hlen in Hperm.
  eexists _, o', next. split_and!; try done.
  fold n in Hrest. rewrite Hlen in Hrest. fold n in Hrest.
  change (negb (Z.of_nat 0 =? 0)) with false in Hrest. cbn [andb] in Hrest.
  change (Z.of_nat 0 + r_threads r) with (r_threads r) in Hrest.
  pose proof (Z.div_mod n (r_threads r) ltac:(lia)) as Hdm. pose proof (Z.mod_pos_bound n (r_threads r) ltac:(lia)).
  assert (1 <= n / r_threads r) as Hq by (apply Z.div_le_lower_bound; lia).
  replace (Z.max 1 (r_threads r)) with (r_threads r) in Hrest by lia.
  replace (Z.max 1 (n / r_threads r)) with (n / r_threads r) in Hrest by lia.
    assert (0 < n <= u64_max) as Hnr by (unfold n; lia).
  replace (n / r_threads r * r_threads r) with (n - n mod r_threads r) in Hrest by lia.
      pose proof (Z.mod_le n (r_threads r) ltac:(lia) Hr). rewrite u64_small in Hrest by (unfold in_u64; lia). lia.
Qed.

Lemma filter_positive remotes :
  Forall (fun r => 0 <= r_threads r) remotes ->
  Forall (fun r => 0 < r_threads r) (List.filter (fun r => negb (r_threads r =? 0)) remotes).
Proof.
  induction 1 as [|r remotes Hr _ IH]; [constructor|]. cbn.
  destruct (Z.eqb_spec (r_threads r) 0); cbn; [done|]. constructor; [lia|done].
Qed.

Lemma fresh_elem ids users u : u ∈ fresh ids users <-> u ∈ users /\ acc_id u ∉ ids.
Proof.
  unfold fresh. by rewrite list_elem_of_In, filter_In, <- list_elem_of_In, negb_true_iff, bool_decide_eq_false.
Qed.

(** While no connection is lost, no account is removed and not too many are
    new, a check hands every account that became active to exactly one thread,
    by height or in turn, and records it; an account that is already assigned is
    left alone. Taking turns never goes past the last scanner, and ends where
    the next check can go on. *)
Theorem check_hands_out_new s reader sv remotes :
  let locals := Z.of_nat (length (local_ sv)) in
  let users := get_accounts active s in
  let scanners := List.filter (fun r => negb (r_threads r =? 0)) remotes in
  stop_ sv = false -> remote_ sv = Some <$> remotes -> Forall (fun r => 0 <= r_threads r) remotes ->
  0 < locals + threads remotes <= u64_max -> (forall u, u ∈ users -> 0 <= acc_scan_height u) ->
  sorted_by Z.ltb (active_ sv) -> NoDup (active_ sv) -> (forall i, i ∈ active_ sv -> i ∈ acc_id <$> users) ->
  Z.of_nat (length (fresh (active_ sv) users)) <= replace_threshold ->
  at_start locals scanners (next_thread_ sv) ->
  exists o, check_users address_string no_lock_available (Ok s) reader sv = Ok o /\
    pending (local_ (o_server o)) ++ written (o_writes o) ≡ₚ pending (local_ sv) ++ (full address_string s <$> fresh (active_ sv) users) /\
    active_ (o_server o) ≡ₚ acc_id <$> users /\ sorted_by Z.ltb (active_ (o_server o)) /\
    at_start locals scanners (next_thread_ (o_server o)).
Proof.
  intros locals users scanners Hstop Hrem Hnn Htot Hheights Hsort Hnd Hsub Hmax Hstart.
  assert (locals + threads scanners = locals + threads remotes) as Hthr by (unfold scanners; by rewrite threads_filter).
  pose proof (filter_positive _ Hnn) as Hpos. fold scanners in Hpos.
  pose proof (threads_nonneg _ Hnn) as Ht0. pose proof (active_ids_nodup s) as Hids. fold users in Hids.
  unfold check_users. rewrite Hstop, Hrem, scan_remotes_live by (done || lia). cbn [ebind].
  fold locals scanners users. rewrite (proj2 (Z.eqb_neq _ 0)) by lia. cbn zeta.
  assert (length (active_ sv) <= length users)%nat as Hlen.
  { rewrite <- (length_fmap acc_id users). apply submseteq_length, NoDup_submseteq; [done|]. intros i Hi. by apply Hsub. }
  rewrite (proj2 (Nat.ltb_ge _ _)) by done.
  destruct (find_new_spec address_string s users (active_ sv) (active_ sv) []) as (copy & ids & Hf & His & Hip & Hcopy); try done.
  rewrite Hf. assert (copy = []) as ->.
  { destruct copy as [|i copy]; [done|]. exfalso. destruct (proj1 (Hcopy i) ltac:(by left)) as [H1 H2]. apply H2. by apply Hsub. }
  assert (ids ≡ₚ acc_id <$> users) as Hidp.
  { rewrite Hip. apply NoDup_Permutation; [|done|].
    - apply NoDup_app. split; [done|]. split.
      + intros i Hi (u & -> & Hu)%list_elem_of_fmap. apply fresh_elem in Hu as [_ Hu]. done.
      + unfold fresh. eapply sublist_NoDup; [exact Hids|]. apply (fmap_sublist acc_id), list_filter_sublist.
    - intros i. rewrite elem_of_app. split.
      + intros [Hi|(u & -> & [Hu _]%fresh_elem)%list_elem_of_fmap]; [by apply Hsub|by apply list_elem_of_fmap_2].
      + intros (u & -> & Hu)%list_elem_of_fmap. destruct (decide (acc_id u ∈ active_ sv)); [by left|right].
        apply list_elem_of_fmap_2, fresh_elem. done. }
  cbn [app]. destruct (balance_new_addresses_ sv && negb (bool_decide (local_ sv = []))) eqn:Eb.
  - eexists. split; [done|]. cbn. split_and!; try done. rewrite app_nil_r.
    apply andb_true_iff in Eb as [_ Eb]. apply negb_true_iff, bool_decide_eq_false in Eb.
    assert (forall u, u ∈ rev (full address_string s <$> fresh (active_ sv) users) -> 0 <= Account.scan_height u) as Hrev.
    { intros u Hu. apply list_elem_of_In, in_rev, list_elem_of_In, list_elem_of_fmap in Hu as (v & -> & Hv).
      apply fresh_elem in Hv as [Hv _]. by apply Hheights. }
    rewrite (proj1 (assign_balanced_spec _ _ Eb Hrev)).
    by rewrite <- Permutation_rev.
  - assert (0 <= next_thread_ sv < locals + threads remotes) as Hr.
    { rewrite <- Hthr. apply start_range; [done|done|lia]. }
    rewrite Z.mod_small by done. rewrite <- Hthr.
    destruct (round_robin_spec locals scanners Hpos ltac:(lia)
      (Turn (full address_string s <$> fresh (active_ sv) users) (local_ sv) (next_thread_ sv) [] false)
      (length (full address_string s <$> fresh (active_ sv) users))) as (t & Ht & _ & _ & Hs & Hp); cbn; try done; try lia.
    rewrite Ht. cbn. eexists. split; [done|]. cbn. split_and!; try done.
Qed.

(** A new account goes to the local thread that is furthest along among those
    not past its height, and otherwise to the one least past it; between equals
    to the one with fewer accounts. *)
Theorem balanced_thread_is_nearest (account_height : block_id) local :
  0 <= account_height -> local <> [] ->
  exists q, local !! best_thread (find_best account_height 0 local no_best) = Some q /\
    if existsb (fun q' => Queue.current_min_height q' <=? account_height) local
    then Queue.current_min_height q <= account_height /\
         forall q', q' ∈ local -> Queue.current_min_height q' <= account_height -> closer q q'
    else forall q', q' ∈ local -> nearer q q'.
Proof.
  intros Hh Hne. pose proof (find_best_spec account_height [] local no_best Hh (no_best_of _)) as Hb. cbn [app length] in Hb.
  unfold best_of in Hb. destruct (found_below_or_equal _).
  - destruct Hb as (q & [Hq Hle] & _ & _ & Hbest). exists q. split; [done|].
    assert (existsb (fun q' => Queue.current_min_height q' <=? account_height) local = true) as ->; [|done].
    apply existsb_exists. exists q. split; [apply list_elem_of_In; by eapply list_elem_of_lookup_2|by apply Z.leb_le].
  - destruct Hb as [Hall [[-> _]|(q & Hq & _ & _ & Hbest)]]; [done|]. exists q. split; [done|].
    assert (existsb (fun q' => Queue.current_min_height q' <=? account_height) local = false) as ->; [|done].
    apply not_true_iff_false. intros (q' & Hq' & Hle)%existsb_exists. apply list_elem_of_In in Hq'.
    pose proof (Hall q' Hq'). apply Z.leb_le in Hle. lia.
Qed.
End promises.
End Server.

(** ** The other end: a remote scanner

    [client] (src/rpc/scanner/client.cpp) spreads what the server sends over its
    own threads. *)
Module Client.
Import Server.

Record client := MkClient { local_ : list Queue.queue; next_push_ : Z; connected_ : bool }.

Definition construct (local : list Queue.queue) : client := MkClient local 0 false.

(** An index past the threads, undefined in C++, is an error here. *)
Definition push_account (c : client) (u : Account.state) : expect client :=
  if next_push_ c <? Z.of_nat (length (local_ c))
  then Ok (MkClient (alter (Queue.push_accounts [u]) (Z.to_nat (next_push_ c)) (local_ c))
             ((next_push_ c + 1) mod Z.of_nat (length (local_ c))) (connected_ c))
  else Err out_of_range.
Definition push_accounts (users : list Account.state) (c : client) : expect client := efold push_account c users.

Definition replace_accounts (users : list Account.state) (c : client) : client :=
  MkClient (zip_with Queue.replace_accounts (Assign.split_even (length (local_ c)) users) (local_ c)) 0 (connected_ c).

(** [push_accounts_handler] and [replace_accounts_handler]. *)
Definition handle (cmd : command) (c : client) : expect client :=
  match cmd with
  | PushAccounts [] => Ok c
  | PushAccounts users => push_accounts users c
  | ReplaceAccounts users => Ok (replace_accounts users c)
  end.

Definition client_ok (c : client) : Prop := 0 <= next_push_ c < Z.of_nat (length (local_ c)).

Lemma push_accounts_spec users c :
  client_ok c -> exists c', push_accounts users c = Ok c' /\ client_ok c' /\ pending (local_ c') ≡ₚ pending (local_ c) ++ users.
Proof.
  revert c. induction users as [|u users IH]; intros c Hc; [exists c; by rewrite app_nil_r|].
  unfold client_ok in Hc. unfold push_accounts. cbn. unfold push_account at 1.
  rewrite (proj2 (Z.ltb_lt _ _)) by lia. cbn.
  destruct (IH (MkClient (alter (Queue.push_accounts [u]) (Z.to_nat (next_push_ c)) (local_ c))
    ((next_push_ c + 1) mod Z.of_nat (length (local_ c))) (connected_ c))) as (c' & Hc' & Hok & Hp).
  - unfold client_ok. cbn. rewrite length_alter. apply Z.mod_pos_bound. lia.
  - exists c'. split; [done|]. split; [done|]. rewrite Hp. cbn. rewrite pending_push by lia. by rewrite <- app_assoc.
Qed.

Lemma replace_accounts_spec users c :
  client_ok c -> client_ok (replace_accounts users c) /\ pending (local_ (replace_accounts users c)) ≡ₚ users.
Proof.
  intros Hc. unfold client_ok in Hc. unfold replace_accounts. cbn. split.
  - unfold client_ok. cbn. rewrite length_zip_with, Assign.length_split_even, Nat.min_id. lia.
  - rewrite <- (Assign.split_even_concat (length (local_ c)) users) at 2 by lia. rewrite Assign.concat_rev_perm.
    pose proof (Assign.length_split_even (length (local_ c)) users) as Hl. revert Hl.
    generalize (Assign.split_even (length (local_ c)) users). intros parts. clear. revert parts.
    induction (local_ c) as [|q local IH]; intros [|p parts] Hl; cbn in Hl; try lia; [done|].
    cbn [zip_with]. rewrite pending_cons, delivered_replace, IH by lia. done.
Qed.

(** A remote scanner hands every account of a command to exactly one of its
    threads, and a replacement leaves nothing of what was there before. *)
Theorem client_hands_on cmd c :
  client_ok c ->
  exists c', handle cmd c = Ok c' /\ client_ok c' /\
    pending (local_ c') ≡ₚ match cmd with PushAccounts users => pending (local_ c) ++ users | ReplaceAccounts users => users end.
Proof.
  intros Hc. destruct cmd as [[|u users]|users]; cbn [handle].
  - exists c. by rewrite app_nil_r.
  - by apply push_accounts_spec.
  - destruct (replace_accounts_spec users c Hc). by eexists.
Qed.
End Client.

(** ** Three active accounts, two local threads and a remote scanner *)
Module ScanServerSample.
Import Reference Server.

Definition account_at (id : account_id) (height : block_id) : account :=
  Data.Account id 0 (AccountAddress (50 + id) (60 + id)) 57 height 1 0 0 address_index_primary 0.
Definition three : tab accounts := [(active, account_at 1 30); (active, account_at 2 50); (active, account_at 3 90)].
Definition db : tables := with_accounts three empty_tables.
Definition no_string (a : account_address) : list Z := [].
Definition no_error (e : error) : bool := false.
Definition two_local : list Queue.queue := [Queue.construct; Queue.construct].
Definition scanner : list (option remote) := [Some (Remote 7 2)].
Definition sv (local : list Queue.queue) (ids : list account_id) (balance : bool) : server := MkServer scanner local ids 0 balance false.

Lemma db_users : get_accounts active db = [account_at 1 30; account_at 2 50; account_at 3 90].
Proof. vm_compute. reflexivity. Qed.

(** The accounts of a new connection's first distribution. *)
Example distributed :
  match do_replace_users no_string (Ok db) (sv [] [] false) with
  | Ok o => ((fun w => Account.id <$> carried w.2) <$> o_writes o, active_ (o_server o))
  | Err _ => ([], [])
  end = ([[3; 2]], [1; 2; 3]).
Proof. vm_compute. reflexivity. Qed.

Lemma stranger_is_harmless_witness :
  let from_bytes := fun (_ : Z) (_ : list Z) => Ok (Connection.Initialize [1] 2) in
  let msgs := [(Connection.Header 0 0 5, [1]); (Connection.Header 0 1 5, [])] in
  Connection.authenticated_ (Connection.run from_bytes (fun _ => false) msgs).1 = false /\
  Forall Connection.harmless (Connection.run from_bytes (fun _ => false) msgs).2.
Proof.
  apply (Connection.stranger_is_harmless (fun _ _ => Ok (Connection.Initialize [1] 2)) (fun _ => false)).
  intros msg _ (pass & threads & _ & _ & _ & _ & H). discriminate.
Defined.

Lemma replace_hands_out_witness :
  exists o left, do_replace_users no_string (Ok db) (sv two_local [] false) = Ok o /\
    pending (local_ (o_server o)) ++ written (o_writes o) ++ (full no_string db <$> left) ≡ₚ full no_string db <$> get_accounts active db /\
    active_ (o_server o) ≡ₚ acc_id <$> get_accounts active db /\ sorted_by Z.ltb (active_ (o_server o)) /\
    (left = [] \/ exists r, r ∈ live scanner /\ Z.of_nat (length left) < r_threads r) /\
    (threads (live scanner) = 0 \/ 0 < 2 /\ Z.of_nat (length (get_accounts active db)) / 2 < remote_threshold -> left = []).
Proof.
  apply (replace_hands_out no_string db (sv two_local [] false)).
  - repeat constructor; cbn; lia.
  - cbn. unfold u64_max. lia.
  - rewrite db_users. cbn. unfold u64_max. lia.
Defined.

Lemma remote_remainder_unscanned_witness :
  exists o o' next, do_replace_users no_string (Ok db) (sv [] [] false) = Ok o /\
    o_writes o = [(7, ReplaceAccounts next)] /\ Z.of_nat (length next) = 3 - 3 mod 2 /\
    active_ (o_server o) ≡ₚ acc_id <$> get_accounts active db /\
    check_users no_string no_error (Ok db) (Ok db) (o_server o) = Ok o' /\ o_writes o' = [].
Proof.
  apply (remote_remainder_unscanned no_string no_error db (Ok db) (sv [] [] false) (Remote 7 2));
    [reflexivity..|cbn; lia|rewrite db_users; cbn; unfold u64_max; lia].
Defined.

Lemma check_hands_out_new_witness :
  exists o, check_users no_string no_error (Ok db) (Ok db) (sv two_local [2] false) = Ok o /\
    pending (local_ (o_server o)) ++ written (o_writes o) ≡ₚ
      pending two_local ++ (full no_string db <$> fresh [2] (get_accounts active db)) /\
    active_ (o_server o) ≡ₚ acc_id <$> get_accounts active db /\ sorted_by Z.ltb (active_ (o_server o)) /\
    at_start 2 [Remote 7 2] (next_thread_ (o_server o)).
Proof.
  apply (check_hands_out_new no_string no_error db (Ok db) (sv two_local [2] false) [Remote 7 2]).
  - reflexivity.
  - reflexivity.
  - repeat constructor; cbn; lia.
  - cbn. unfold u64_max. lia.
  - intros u. rewrite db_users, !elem_of_cons, elem_of_nil. intros [->|[->|[->|[]]]]; cbn; lia.
  - repeat constructor.
  - apply NoDup_singleton.
  - intros i Hi. apply list_elem_of_singleton in Hi as ->. rewrite db_users. right. by left.
  - rewrite db_users. vm_compute. discriminate.
  - left. cbn. lia.
Defined.

Definition threads_at : list Queue.queue :=
  [Queue.update_min_height 40 Queue.construct; Queue.update_min_height 70 Queue.construct; Queue.update_min_height 90 Queue.construct].

Lemma balanced_thread_is_nearest_witness :
  exists q, threads_at !! best_thread (find_best 80 0 threads_at no_best) = Some q /\
    if existsb (fun q' => Queue.current_min_height q' <=? 80) threads_at
    then Queue.current_min_height q <= 80 /\
         forall q', q' ∈ threads_at -> Queue.current_min_height q' <= 80 -> closer q q'
    else forall q', q' ∈ threads_at -> nearer q q'.
Proof. apply (balanced_thread_is_nearest 80 threads_at); [lia|discriminate]. Defined.

Lemma client_hands_on_witness :
  exists c', Client.handle (PushAccounts (full no_string db <$> get_accounts active db)) (Client.construct two_local) = Ok c' /\
    Client.client_ok c' /\ pending (Client.local_ c') ≡ₚ pending two_local ++ (full no_string db <$> get_accounts active db).
Proof. apply (Client.client_hands_on (PushAccounts _) (Client.construct two_local)). unfold Client.client_ok. cbn. lia. Defined.
End ScanServerSample.
