(* ===== verification/Sync.v ===== *)
(** The chain of blocks as a daemon sends it: the hashing and timestamp rules of
    src/util/blocks.cpp, [get_pow_window] (src/db/storage.cpp), and the two ways
    to catch up with the daemon before scanning, [sync_quick] and [sync_full]
    (src/scanner.cpp). *)

From S2P Require Import Prelude Data Lmdb Tables Chain OwnershipTest.

(** [cryptonote::block]: the parts that are read. *)
Record block := Block {
  bk_major_version : Z;
  bk_timestamp : Z;
  bk_prev_id : hash;
  bk_miner_tx : transaction;
  bk_tx_hashes : list hash
}.

Inductive network_type := MAINNET | TESTNET | STAGENET | OTHER_NETWORK.

(** The consensus rules of the monero libraries and their constants. *)
Class Consensus := {
  RX_BLOCK_VERSION : Z;
  DIFFICULTY_BLOCKS_COUNT : Z;
  BLOCKCHAIN_TIMESTAMP_CHECK_WINDOW : Z;
  DIFFICULTY_TARGET_V1 : Z;
  DIFFICULTY_TARGET_V2 : Z;
  network : network_type;
  mainnet_hard_forks : list block_id;
  testnet_hard_forks : list block_id;
  stagenet_hard_forks : list block_id;
  get_block_hash : block -> option hash;
  get_block_hashing_blob : block -> list Z;
  rx_seedheight : Z -> Z;
  rx_slow_hash : hash -> list Z -> hash;
  cn_slow_hash : list Z -> Z -> Z -> hash;
  next_difficulty : list Z -> list Z -> Z -> Z;
  check_hash : hash -> Z -> bool;
  median : list Z -> Z
}.

Section blocks.
Context {CS : Consensus} {LM : Lmdb}.

(** ** src/util/blocks.cpp *)

Definition longhash_202612 : hash := 0x84f64766475d51837ac9efbef1926486e58563c95a19fef4aec3254f03000000.

Definition get_block_longhash (bd : list Z) (height : block_id) (major_version : Z) (disk : tables) (cached_start : block_id)
    (cached : list hash) : expect hash :=
  if height =? 202612 then Ok longhash_202612
  else if RX_BLOCK_VERSION <=? major_version then
    let* seed :=
      if negb (height =? 0) then
        let seed_height := rx_seedheight height in
        if cached_start <=? seed_height then
          match cached !! Z.to_nat (seed_height - cached_start) with
          | None => Err (lws_err bad_blockchain)
          | Some h => Ok h
          end
        else Chain.get_block_hash disk seed_height
      else Ok 0 in
    Ok (rx_slow_hash seed bd)
  else Ok (cn_slow_hash bd (if 7 <=? major_version then major_version - 6 else 0) height).

Definition verify_timestamp (check : Z) (timestamps : list Z) : bool :=
  match timestamps with [] => true | _ => negb (check <? median timestamps) end.

(** ** [get_pow_window] *)

Record pow_window := PowWindow {
  pow_timestamps : list Z;
  median_timestamps : list Z;
  cumulative_diffs : list Z
}.
Definition empty_window : pow_window := PowWindow [] [] [].

(** [MDB_GET_BOTH] of [next] and [MDB_NEXT_DUP] until [last]. *)
Definition read_pows (t : tab pows) (next last : Z) : expect (list block_pow) :=
  let* first := lmdb_check (get_both (d:=pows) t pows_version next) in
  let n := Z.to_nat (last + 1 - next) in
  let read := take n (first :: next_dups (d:=pows) t pows_version next) in
  if bool_decide (length read = n) then Ok read else Err (mdb_err MDB_NOTFOUND).

Definition get_pow_window (s : tables) (last : block_id) : expect pow_window :=
  if last =? 0 then Ok empty_window
  else
    let next := if DIFFICULTY_BLOCKS_COUNT <? last then last - (DIFFICULTY_BLOCKS_COUNT - 1) else 0 in
    let* window := read_pows (t_pows s) next last in
    let* medians :=
      if last <? BLOCKCHAIN_TIMESTAMP_CHECK_WINDOW then Ok []
      else read_pows (t_pows s) (last - (BLOCKCHAIN_TIMESTAMP_CHECK_WINDOW - 1)) last in
    Ok (PowWindow (bp_timestamp <$> window) (bp_timestamp <$> medians) ((fun b => get_difficulty (bp_cumulative_diff b)) <$> window)).

(** ** The checks of a block against its predecessors *)

Definition get_target_time (height : block_id) : expect Z :=
  let* forks :=
    match network with
    | MAINNET => Ok mainnet_hard_forks
    | TESTNET => Ok testnet_hard_forks
    | STAGENET => Ok stagenet_hard_forks
    | OTHER_NETWORK => Err (lws_err bad_blockchain)
    end in
  match forks with
  | _ :: fork :: _ => Ok (if height <? fork then DIFFICULTY_TARGET_V1 else DIFFICULTY_TARGET_V2)
  | _ => Err (lws_err bad_blockchain)
  end.

(** [update_window] and the loop for the medians drop what is too old. *)
Definition keep_last {A} (n : Z) (l : list A) : list A := drop (length l - Z.to_nat n) l.
Definition update_windows (w : pow_window) : pow_window :=
  PowWindow (keep_last DIFFICULTY_BLOCKS_COUNT (pow_timestamps w))
    (keep_last BLOCKCHAIN_TIMESTAMP_CHECK_WINDOW (median_timestamps w))
    (keep_last DIFFICULTY_BLOCKS_COUNT (cumulative_diffs w)).

Definition window_difficulty (w : pow_window) (height : block_id) : expect Z :=
  let* target := get_target_time height in
  Ok (next_difficulty (pow_timestamps w) (cumulative_diffs w) target).

Definition verify_pow (w : pow_window) (b : block) (height : block_id) (diff : Z) (disk : tables) (cached_start : block_id)
    (cached : list hash) : expect unit :=
  if negb (verify_timestamp (bk_timestamp b) (median_timestamps w)) then Err (lws_err bad_blockchain)
  else
    let* pow := get_block_longhash (get_block_hashing_blob b) height (bk_major_version b) disk cached_start cached in
    if negb (check_hash pow diff) then Err (lws_err bad_blockchain) else Ok tt.

Definition u128 (z : Z) : Z := z mod 2 ^ 128.

Definition push_block (b : block) (diff : Z) (w : pow_window) : pow_window :=
  PowWindow (pow_timestamps w ++ [bk_timestamp b]) (median_timestamps w ++ [bk_timestamp b])
    (cumulative_diffs w ++ [u128 (diff + default 0 (last (cumulative_diffs w)))]).
Definition window_pow (b : block) (w : pow_window) : pow_sync :=
  PowSync (bk_timestamp b) (set_difficulty (default 0 (last (cumulative_diffs w)))).

(** ** [sync_quick] *)
Context (points : checkpoints).

(** The loop that should remember the last hashes. *)
Fixpoint insert_known (n : nat) (hashes known_hashes : list hash) : list hash :=
  match n, last hashes with
  | S n, Some back => insert_known n hashes (removelast known_hashes ++ back :: drop (length known_hashes - 1) known_hashes)
  | _, _ => known_hashes
  end.

(** A round with the daemon's answer; [None] when the top is reached. *)
Definition quick_round (regtest : bool) (st : list hash * tables) (resp : expect (Z * list hash)) : expect (option (list hash * tables)) :=
  let '(known_hashes, s) := st in
  match head known_hashes with
  | None => Err (lws_err bad_blockchain)
  | Some front =>
    let* answer := resp in
    let '(start_height, hashes) := answer in
    if (length hashes <=? 1)%nat || bool_decide (last hashes = Some front) then Ok None
    else
      let* s := sync_chain points start_height hashes regtest s in
      Ok (Some (insert_known 10 hashes (drop (length known_hashes - 1) known_hashes), s))
  end.

(** [None] while the daemon has not answered. *)
Fixpoint quick_rounds (regtest : bool) (st : list hash * tables) (resps : list (expect (Z * list hash))) : option (expect tables) :=
  match resps with
  | [] => None
  | resp :: resps =>
    match quick_round regtest st resp with
    | Err e => Some (Err e)
    | Ok None => Some (Ok st.2)
    | Ok (Some st) => quick_rounds regtest st resps
    end
  end.
Definition sync_quick (regtest : bool) (s : tables) (resps : list (expect (Z * list hash))) : option (expect tables) :=
  match get_chain_sync points s with
  | Err e => Some (Err e)
  | Ok known_hashes => quick_rounds regtest (known_hashes, s) resps
  end.

(** ** [sync_full] *)

(** What a round accumulates: the hash of the last block, the ids for the next
    request, the windows, and the hashes and difficulties to store. *)
Record progress := Progress {
  p_hash : hash;
  p_block_ids : list hash;
  p_window : pow_window;
  p_hashes : list hash;
  p_pow : list pow_sync
}.

Definition full_block (disk : tables) (has_shutdown : block_id -> bool) (last_checkpoint start_height : block_id)
    (height : block_id) (b : block) (p : progress) : expect progress :=
  if negb (bk_prev_id b =? p_hash p) then Err (lws_err bad_blockchain)
  else
    match get_block_hash b with
    | None => Err (lws_err bad_blockchain)
    | Some h =>
      let w := update_windows (p_window p) in
      if has_shutdown height then Err (lws_err signal_abort_process)
      else
        let* diff := window_difficulty w height in
        let* _ := if last_checkpoint <? height then verify_pow w b height diff disk start_height (p_hashes p) else Ok tt in
        let w := push_block b diff w in
        Ok (Progress h (h :: p_block_ids p) w (p_hashes p ++ [h]) (p_pow p ++ [window_pow b w]))
    end.

Fixpoint full_blocks (disk : tables) (has_shutdown : block_id -> bool) (last_checkpoint start_height : block_id)
    (height : block_id) (blocks : list block) (p : progress) : expect progress :=
  match blocks with
  | [] => Ok p
  | b :: blocks =>
    let* p := full_block disk has_shutdown last_checkpoint start_height height b p in
    full_blocks disk has_shutdown last_checkpoint start_height (u64 (height + 1)) blocks p
  end.

Definition get_last_checkpoint : expect (block_id * hash) :=
  match last (get_points points) with Some p => Ok p | None => Err (lws_err bad_blockchain) end.

Definition full_round (has_shutdown : block_id -> bool) (st : list hash * tables) (resp : expect (Z * list block))
    : expect (option (list hash * tables)) :=
  let '(block_ids, s) := st in
  if bool_decide (block_ids = []) then Err (lws_err bad_blockchain)
  else
    let* answer := resp in
    let '(start_height, blocks) := answer in
    match blocks with
    | [] => Err (lws_err bad_daemon_response)
    | front :: rest =>
      match get_block_hash front with
      | None => Err (lws_err bad_blockchain)
      | Some h =>
        let* last_checkpoint := get_last_checkpoint in
        match rest with
        | [] =>
          match Chain.get_block_hash s start_height with
          | Err _ => Err (lws_err bad_daemon_response)
          | Ok expected_hash =>
            if negb (expected_hash =? h) || (start_height <? last_checkpoint.1) then Err (lws_err bad_daemon_response) else Ok None
          end
        | _ :: _ =>
          let* window := get_pow_window s start_height in
          let* p := full_blocks s has_shutdown last_checkpoint.1 start_height (u64 (start_height + 1)) rest
                      (Progress h (drop (length block_ids - 1) block_ids) window [h] [PowSync (bk_timestamp front) (set_difficulty 0)]) in
          let* s := sync_pow points start_height (p_hashes p) (p_pow p) s in
          Ok (Some (p_block_ids p, s))
        end
      end
    end.

Fixpoint full_rounds (has_shutdown : block_id -> bool) (st : list hash * tables) (resps : list (expect (Z * list block)))
    : option (expect tables) :=
  match resps with
  | [] => None
  | resp :: resps =>
    match full_round has_shutdown st resp with
    | Err e => Some (Err e)
    | Ok None => Some (Ok st.2)
    | Ok (Some st) => full_rounds has_shutdown st resps
    end
  end.
Definition sync_full (has_shutdown : block_id -> bool) (s : tables) (resps : list (expect (Z * list block))) : option (expect tables) :=
  match get_pow_sync points s with
  | Err e => Some (Err e)
  | Ok block_ids => full_rounds has_shutdown (block_ids, s) resps
  end.
End blocks.

(** ** Theorems *)
Section spec.
Context {CS : Consensus} {LM : Lmdb}.

(** The seed of a proof of work hash is the hash of the chain's block at the
    seed height, whether it is among the blocks just received or in the
    database. *)
Theorem longhash_uses_chain bd height version (disk : tables) cached_start cached (chain : block_id -> hash) :
  (forall i h, cached !! i = Some h -> h = chain (cached_start + Z.of_nat i)) ->
  (forall id, 0 <= id < cached_start -> Chain.get_block_hash disk id = Ok (chain id)) ->
  height <> 0 -> height <> 202612 -> RX_BLOCK_VERSION <= version ->
  0 <= rx_seedheight height < cached_start + Z.of_nat (length cached) ->
  get_block_longhash bd height version disk cached_start cached = Ok (rx_slow_hash (chain (rx_seedheight height)) bd).
Proof.
  intros Hc Hd H0 Hbug Hv Hs. unfold get_block_longhash.
  rewrite (proj2 (Z.eqb_neq _ _) Hbug), (proj2 (Z.leb_le _ _) Hv), (proj2 (Z.eqb_neq _ _) H0). cbn [negb].
  destruct (Z.leb_spec cached_start (rx_seedheight height)) as [Hle|Hlt].
  - destruct (lookup_lt_is_Some_2 cached (Z.to_nat (rx_seedheight height - cached_start))) as [h Hh]; [lia|].
    rewrite Hh. cbn. by rewrite (Hc _ _ Hh), Z2Nat.id, Zplus_minus by lia.
  - by rewrite Hd by lia.
Qed.

(** *** Sliding windows are the ends of the whole history *)
Lemma keep_last_app {A} n (l : list A) x : 0 < n -> keep_last n (keep_last n l ++ [x]) = keep_last n (l ++ [x]).
Proof.
  intros Hn. unfold keep_last. rewrite !length_app, length_drop. cbn [length].
  rewrite <- drop_app_le by lia. rewrite drop_drop. f_equal. lia.
Qed.

Lemma keep_last_last {A} n (l : list A) : 0 < n -> last (keep_last n l) = last l.
Proof.
  intros Hn. unfold keep_last. destruct (last l) as [x|] eqn:E; [|by apply last_None in E; subst; rewrite drop_nil].
  apply last_Some in E as [l' ->]. rewrite length_app. cbn [length]. rewrite drop_app_le by lia. apply last_snoc.
Qed.

Definition windows_ok : Prop := 0 < DIFFICULTY_BLOCKS_COUNT /\ 0 < BLOCKCHAIN_TIMESTAMP_CHECK_WINDOW.

(** The windows after the timestamps [ts] and the cumulative difficulties [cums]
    were added to [w]. *)
Definition window_after (w : pow_window) (ts cums : list Z) : pow_window :=
  PowWindow (keep_last DIFFICULTY_BLOCKS_COUNT (pow_timestamps w ++ ts))
    (keep_last BLOCKCHAIN_TIMESTAMP_CHECK_WINDOW (median_timestamps w ++ ts))
    (keep_last DIFFICULTY_BLOCKS_COUNT (cumulative_diffs w ++ cums)).

Lemma window_after_nil w : update_windows w = window_after w [] [].
Proof. unfold update_windows, window_after. by rewrite !app_nil_r. Qed.

Lemma window_push w ts cums b diff :
  windows_ok ->
  update_windows (push_block b diff (window_after w ts cums)) =
  window_after w (ts ++ [bk_timestamp b]) (cums ++ [u128 (diff + default 0 (last (cumulative_diffs (window_after w ts cums))))]).
Proof.
  intros [H1 H2]. unfold update_windows, push_block, window_after.
  cbn [pow_timestamps median_timestamps cumulative_diffs].
  by rewrite !keep_last_app, !app_assoc by done.
Qed.

(** *** A verified chain: every block hashes, points to its predecessor, and above
    the last checkpoint has a timestamp and enough work for the difficulty that
    follows from the whole history before it. [ts] and [cums] are the history
    since the window [w] was read, [cached] the hashes since [start_height]. *)
Definition verified (disk : tables) (last_checkpoint start_height : block_id) (w : pow_window) (ts cums : list Z)
    (cached : list hash) (prev : hash) (height : block_id) (blocks : list block) (hashes : list hash) (diffs : list Z) : Prop :=
  length hashes = length blocks /\ length diffs = length blocks /\
  forall i b, blocks !! i = Some b ->
    let before := window_after w (ts ++ (bk_timestamp <$> take i blocks)) (cums ++ take i diffs) in
    (prev :: hashes) !! i = Some (bk_prev_id b) /\
    hashes !! i = get_block_hash b /\
    exists diff, window_difficulty before (height + Z.of_nat i) = Ok diff /\
      diffs !! i = Some (u128 (diff + default 0 (last (cumulative_diffs before)))) /\
      (last_checkpoint < height + Z.of_nat i ->
        verify_pow before b (height + Z.of_nat i) diff disk start_height (cached ++ take i hashes) = Ok tt).

Definition pow_of (blocks : list block) (diffs : list Z) : list pow_sync :=
  zip_with (fun b c => PowSync (bk_timestamp b) (set_difficulty c)) blocks diffs.

Lemma full_block_verified disk has_shutdown last_checkpoint start_height height b p p' :
  full_block disk has_shutdown last_checkpoint start_height height b p = Ok p' ->
  exists h diff, bk_prev_id b = p_hash p /\ get_block_hash b = Some h /\
    let w := update_windows (p_window p) in
    window_difficulty w height = Ok diff /\
    (last_checkpoint < height -> verify_pow w b height diff disk start_height (p_hashes p) = Ok tt) /\
    p' = Progress h (h :: p_block_ids p) (push_block b diff w) (p_hashes p ++ [h]) (p_pow p ++ [window_pow b (push_block b diff w)]).
Proof.
  unfold full_block. destruct (Z.eqb_spec (bk_prev_id b) (p_hash p)) as [Hprev|]; [|done]. cbn [negb].
  destruct (get_block_hash b) as [h|]; [|done]. destruct (has_shutdown height); [done|].
  intros (diff & Hd & H)%ebind_ok. apply ebind_ok in H as ([] & Hv & [= <-]).
  exists h, diff. split_and!; try done. intros Hlt. by rewrite (proj2 (Z.ltb_lt _ _) Hlt) in Hv.
Qed.

Lemma window_pow_push b diff w :
  window_pow b (push_block b diff w) = PowSync (bk_timestamp b) (set_difficulty (u128 (diff + default 0 (last (cumulative_diffs w))))).
Proof. unfold window_pow, push_block. cbn [cumulative_diffs]. by rewrite last_snoc. Qed.

Lemma full_blocks_verified disk has_shutdown last_checkpoint start_height w blocks ts cums height p p' :
  windows_ok -> 0 <= height -> height + Z.of_nat (length blocks) <= u64_max ->
  update_windows (p_window p) = window_after w ts cums ->
  full_blocks disk has_shutdown last_checkpoint start_height height blocks p = Ok p' ->
  exists hashes diffs,
    verified disk last_checkpoint start_height w ts cums (p_hashes p) (p_hash p) height blocks hashes diffs /\
    p_hashes p' = p_hashes p ++ hashes /\ p_block_ids p' = rev hashes ++ p_block_ids p /\ p_pow p' = p_pow p ++ pow_of blocks diffs.
Proof.
  intros Hwin. revert ts cums height p. induction blocks as [|b blocks IH]; intros ts cums height p H0 Hmax Hw Hf.
  { injection Hf as <-. exists [], []. cbn. rewrite !app_nil_r. split_and!; try done. }
  cbn [full_blocks] in Hf. apply ebind_ok in Hf as (p1 & H1 & Hf). cbn [length] in Hmax.
  apply full_block_verified in H1 as (h & diff & Hprev & Hh & Hd & Hv & ->). rewrite Hw in Hd, Hv.
  rewrite u64_small in Hf by (unfold in_u64; lia).
  assert (exists c, c = u128 (diff + default 0 (last (cumulative_diffs (window_after w ts cums))))) as [c Hc] by eauto.
  assert (update_windows (push_block b diff (update_windows (p_window p))) = window_after w (ts ++ [bk_timestamp b]) (cums ++ [c])) as Hnext
    by (rewrite Hw, Hc; by apply window_push).
  match type of Hf with full_blocks _ _ _ _ _ _ ?q = _ =>
    destruct (IH (ts ++ [bk_timestamp b]) (cums ++ [c]) (height + 1) q ltac:(lia) ltac:(lia) Hnext Hf)
      as (hashes & diffs & (Hl1 & Hl2 & Hall) & Hp1 & Hp2 & Hp3)
  end.
  cbn [p_hashes p_block_ids p_pow p_hash] in *. exists (h :: hashes), (c :: diffs). split; [|split_and!].
  - split; [cbn; lia|]. split; [cbn; lia|]. intros [|i] b' Hb.
    + injection Hb as <-. cbn [take fmap list_fmap]. rewrite !app_nil_r, Z.add_0_r. cbn. rewrite Hprev.
      split; [done|]. split; [done|]. exists diff. by rewrite Hc.
    + cbn in Hb. destruct (Hall i b' Hb) as (Hx & Hy & d & Hd1 & Hd2 & Hd3).
      cbn [take fmap list_fmap]. rewrite <- !app_assoc in Hd1, Hd2. cbn [app] in Hd1, Hd2.
      replace (height + Z.of_nat (S i)) with (height + 1 + Z.of_nat i) by lia.
      split; [exact Hx|]. split; [exact Hy|]. exists d. split; [exact Hd1|]. split; [exact Hd2|].
      intros Hlt. specialize (Hd3 Hlt). rewrite <- !app_assoc in Hd3. exact Hd3.
  - by rewrite Hp1, <- app_assoc.
  - rewrite Hp2. cbn [rev]. by rewrite <- app_assoc.
  - rewrite Hp3, Hw, window_pow_push, <- app_assoc, Hc. done.
Qed.

(** C6: A round of [sync_full] stores a chain only when every block of it points
    to its predecessor, starting from a block that is already stored, and, above
    the last checkpoint, has a timestamp and a proof of work for the difficulty
    that follows from all blocks before it. What is stored are these blocks'
    hashes and difficulties, and the next request starts from them. *)
Theorem full_round_verifies points has_shutdown block_ids (s : tables) start_height blocks block_ids' s' :
  windows_ok -> 0 <= start_height -> start_height + Z.of_nat (length blocks) <= u64_max ->
  full_round points has_shutdown (block_ids, s) (Ok (start_height, blocks)) = Ok (Some (block_ids', s')) ->
  exists front rest h hashes diffs w last_checkpoint,
    blocks = front :: rest /\ get_block_hash front = Some h /\ last (get_points points) = Some last_checkpoint /\
    get_pow_window s start_height = Ok w /\
    verified s last_checkpoint.1 start_height w [] [] [h] h (start_height + 1) rest hashes diffs /\
    sync_pow points start_height (h :: hashes) (PowSync (bk_timestamp front) (set_difficulty 0) :: pow_of rest diffs) s = Ok s' /\
    Chain.get_block_hash s start_height = Ok h /\
    block_ids' = rev hashes ++ drop (length block_ids - 1) block_ids.
Proof.
  intros Hwin H0 Hmax H. unfold full_round in H. destruct (bool_decide _); [done|]. cbn [ebind] in H.
  destruct blocks as [|front rest]; [done|]. destruct (get_block_hash front) as [h|] eqn:Hh; [|done].
  apply ebind_ok in H as (cp & Hcp & H). unfold get_last_checkpoint in Hcp.
  destruct (last (get_points points)) as [cp'|] eqn:El; [|done]. injection Hcp as ->.
  destruct rest as [|b rest]; [repeat case_match; done|].
  apply ebind_ok in H as (w & Hw & H). apply ebind_ok in H as (p & Hp & H). apply ebind_ok in H as (s1 & Hs & [= <- <-]).
  cbn [length] in Hmax. rewrite u64_small in Hp by (unfold in_u64; lia).
  apply (full_blocks_verified _ _ _ _ w _ [] []) in Hp as (hashes & diffs & Hv & Hp1 & Hp2 & Hp3);
    [|done|lia|cbn [length]; lia|apply window_after_nil].
  cbn [p_hashes p_block_ids p_pow p_hash app] in *. rewrite Hp1, Hp3 in Hs.
  exists front, (b :: rest), h, hashes, diffs, w, cp. split_and!; try done.
  unfold sync_pow in Hs. destruct (negb _); [done|]. apply ebind_ok in Hs as (stored & Hst & Hs).
  destruct (Z.eqb_spec stored h) as [->|]; [exact Hst|done].
Qed.

(** The hashes for the next request of [sync_quick]: the loop inserts the last
    one of the answer each time. *)
Lemma known_hashes_repeat hashes h known :
  last hashes = Some h -> (0 < length known)%nat ->
  insert_known 10 hashes (drop (length known - 1) known) = replicate 10 h ++ drop (length known - 1) known.
Proof.
  intros Hl Hk. assert (exists g, drop (length known - 1) known = [g]) as (g & ->).
  { destruct (drop (length known - 1) known) as [|g [|x l]] eqn:E; apply (f_equal length) in E; rewrite length_drop in E; cbn in E; try lia.
    by exists g. }
  cbn. rewrite Hl. done.
Qed.
End spec.

(** ** A daemon that sends two blocks on top of the four that are stored *)
Module SyncSample.
Import Reference.

(** A block's hash is its timestamp; the work asked for grows with the window. *)
#[local] Instance consensus : Consensus := {
  RX_BLOCK_VERSION := 12;
  DIFFICULTY_BLOCKS_COUNT := 2;
  BLOCKCHAIN_TIMESTAMP_CHECK_WINDOW := 2;
  DIFFICULTY_TARGET_V1 := 60;
  DIFFICULTY_TARGET_V2 := 120;
  network := MAINNET;
  mainnet_hard_forks := [1; 2];
  testnet_hard_forks := [];
  stagenet_hard_forks := [];
  get_block_hash b := Some (bk_timestamp b);
  get_block_hashing_blob b := [bk_timestamp b];
  rx_seedheight h := Z.max 0 (h - 2);
  rx_slow_hash seed bd := seed;
  cn_slow_hash bd variant height := 7;
  next_difficulty ts cs target := target + Z.of_nat (length ts);
  check_hash h diff := h * diff <? 100000;
  median ts := default 0 (head ts)
}.

Definition made (version hash prev : Z) : block := Block version hash prev (Transaction 1 0 [] [] [] 0 [] []) [].
Definition pow_table : tab pows :=
  (fun h => (pows_version, BlockPow h (100 + h) (set_difficulty (1000 + h)))) <$> [0; 1; 2; 3].
Definition db : tables := with_pows pow_table ChainSample.db.
Definition sent : list block := [made 12 103 102; made 12 104 103; made 7 105 104].

Lemma windows : windows_ok.
Proof. split; vm_compute; done. Qed.

Definition answered : expect (option (list hash * tables)) :=
  full_round ChainSample.points (fun _ => false) ([103; 100], db) (Ok (3, sent)).
Definition next_state : list hash * tables := match answered with Ok (Some st) => st | _ => ([], db) end.
Lemma next_ids : next_state.1 = [105; 104; 100].
Proof. vm_compute. reflexivity. Qed.

Lemma full_round_verifies_witness :
  exists front rest h hashes diffs w last_checkpoint,
    sent = front :: rest /\ get_block_hash front = Some h /\ last (get_points ChainSample.points) = Some last_checkpoint /\
    get_pow_window db 3 = Ok w /\
    verified db last_checkpoint.1 3 w [] [] [h] h (3 + 1) rest hashes diffs /\
    sync_pow ChainSample.points 3 (h :: hashes) (PowSync (bk_timestamp front) (set_difficulty 0) :: pow_of rest diffs) db = Ok next_state.2 /\
    Chain.get_block_hash db 3 = Ok h /\
    [105; 104; 100] = rev hashes ++ drop (length [103; 100] - 1) [103; 100].
Proof.
  apply (full_round_verifies ChainSample.points (fun _ => false) [103; 100] db 3 sent [105; 104; 100] next_state.2).
  - exact windows.
  - lia.
  - unfold u64_max. cbn. lia.
  - vm_compute. reflexivity.
Defined.

Lemma longhash_uses_chain_witness :
  get_block_longhash [1] 5 12 db 3 [103; 104] = Ok (rx_slow_hash (100 + rx_seedheight 5) [1]).
Proof.
  apply (longhash_uses_chain [1] 5 12 db 3 [103; 104] (fun h => 100 + h)).
  - intros [|[|i]] h Hh; cbn in Hh; simplify_eq; reflexivity.
  - intros id Hid. assert (id = 0 \/ id = 1 \/ id = 2) as [->|[->| ->]] by lia; vm_compute; reflexivity.
  - discriminate.
  - discriminate.
  - vm_compute. discriminate.
  - cbn. lia.
Defined.

(** The request after an answer that ends with block 104. *)
Example repeated : insert_known 10 [103; 104] [100] = replicate 10 104 ++ [100].
Proof. vm_compute. reflexivity. Qed.
End SyncSample.
