(* ===== verification/Scanner.v ===== *)
(** The loop of a scanner thread (src/scanner.cpp): the scan of the blocks a
    daemon sends against the accounts of the thread, [user_data::store], which
    brings the results to the database, the exchange of accounts through the
    thread's queue, and the wait at the top of the chain. *)

From S2P Require Import Prelude Data Account Lmdb Tables Chain Subaddress Accounts Update OwnershipTest Threads Sync.

(** An answer to [get_blocks_fast]. *)
Record fetched_block := FetchedBlock { fb_block : block; fb_transactions : list transaction }.
Record fetched := Fetched {
  ft_start_height : Z;
  ft_blocks : list fetched_block;
  ft_output_indices : list (list (list Z))
}.

(** ** A batch of blocks *)
Module Batch.
Import Ownership.

Section batch.
Context {CS : Consensus} {WC : WalletCrypto} {LM : Lmdb} {SC : SubaddressCrypto} (start_read : tables -> expect tables).

Definition add_spend (user : Account.state) (s : spend) (c : unit) : Account.state * unit := (Account.add_spend s user, c).
Definition add_output (user : Account.state) (out : output) (reader : option tables) (c : unit) : Account.state * unit :=
  ((Account.add_out out user).2, c).

Definition act (A : Type) : Type := Ownership.act (S:=unit) A.
Definition scan_tx (users : list Account.state) (height : block_id) (timestamp : Z) (tx_hash : option hash) (tx : transaction)
    (out_ids : list Z) : act (list Account.state) :=
  scan_transaction start_read add_spend add_output users height timestamp tx_hash tx out_ids.

(** The options and the state of the thread that a batch depends on: whether it
    has the database, the last block with a verified proof of work, and when it
    is told to stop. *)
Record setting := Setting {
  se_disk : bool;
  se_untrusted : bool;
  se_max_subaddresses : Z;
  se_last_pow : block_id;
  se_stop : block_id -> bool
}.

Record batch := MkBatch {
  b_users : list Account.state;
  b_height : block_id;
  b_chain : list hash;
  b_new_pow : list pow_sync;
  b_window : pow_window
}.

Fixpoint scan_txes (untrusted : bool) (height : block_id) (timestamp : Z) (tx_data : list (hash * (transaction * list Z)))
    (users : list Account.state) : act (list Account.state) :=
  match tx_data with
  | [] => ret users
  | (h, (tx, out_ids)) :: tx_data =>
    if untrusted && negb (get_transaction_hash tx =? h) then throw (lws_err bad_blockchain)
    else bind (scan_tx users height timestamp (Some h) tx out_ids) (scan_txes untrusted height timestamp tx_data)
  end.

(** The checks of a block an untrusted daemon sent; [None] when told to stop. *)
Definition check_block (se : setting) (initial_height height : block_id) (b : block) (st : batch) : act (option (pow_window * Z)) := fun e =>
  if negb (bool_decide (last (b_chain st) = Some (bk_prev_id b))) then throw (lws_err bad_blockchain) e
  else
    let w := update_windows (b_window st) in
    if se_stop se height then ret None e
    else
      bind (of_expect (window_difficulty w height)) (fun diff =>
      bind (of_expect
        (if se_disk se && (se_last_pow se <? height)
         then let* disk := start_read (e_db e) in verify_pow w b height diff disk initial_height (b_chain st) else Ok tt)) (fun _ =>
      ret (Some (w, diff)))) e.

Definition scan_block (se : setting) (initial_height : block_id) (data : fetched_block * list (list Z)) (st : batch) : act (option batch) :=
  let height := u64 (b_height st + 1) in
  let b := fb_block data.1 in
  let txes := fb_transactions data.1 in
  if negb (bool_decide (length (bk_tx_hashes b) = length txes)) then throw runtime_error
  else
    match data.2 with
    | [] => throw runtime_error
    | coinbase :: indices =>
      bind (scan_tx (b_users st) height (bk_timestamp b) None (bk_miner_tx b) coinbase) (fun users =>
      bind (if se_untrusted se then check_block se initial_height height b st else ret (Some (b_window st, 0))) (fun checked =>
      match checked with
      | None => ret None
      | Some (w, diff) =>
        if negb (bool_decide (length txes = length indices)) then throw runtime_error
        else
          bind (scan_txes (se_untrusted se) height (bk_timestamp b) (zip (bk_tx_hashes b) (zip txes indices)) users) (fun users =>
          let w := if se_untrusted se then push_block b diff w else w in
          ret (Some (MkBatch users height (b_chain st ++ [default 0 (get_block_hash b)])
                       (if se_untrusted se then b_new_pow st ++ [window_pow b w] else b_new_pow st) w)))
      end))
    end.

Fixpoint scan_blocks (se : setting) (initial_height : block_id) (block_data : list (fetched_block * list (list Z))) (st : batch)
    : act (option batch) :=
  match block_data with
  | [] => ret (Some st)
  | data :: block_data =>
    bind (scan_block se initial_height data st) (fun st =>
    match st with
    | None => ret None
    | Some st => scan_blocks se initial_height block_data st
    end)
  end.

(** From the check of the answer's sizes to the end of the loop over its
    blocks. *)
Definition scan_batch (se : setting) (w : pow_window) (f : fetched) (users : list Account.state) : act (option batch) := fun e =>
  match ft_blocks f with
  | [] => throw runtime_error e
  | front :: _ =>
    if negb (bool_decide (length (ft_blocks f) = length (ft_output_indices f))) then throw runtime_error e
    else
      let data := zip (ft_blocks f) (ft_output_indices f) in
      let '(data, initial_height) := if negb (ft_start_height f =? 1) then (drop 1 data, ft_start_height f) else (data, 0) in
      match (if se_disk se && se_untrusted se then let* disk := start_read (e_db e) in get_pow_window disk initial_height else Ok w) with
      | Err err => throw err e
      | Ok w =>
        let e := if se_disk se && negb (se_max_subaddresses se =? 0) then enable_subaddresses start_read (se_max_subaddresses se) e else e in
        let '(r, e) :=
          scan_blocks se initial_height data
            (MkBatch users initial_height [default 0 (get_block_hash (fb_block front))]
               (if se_untrusted se then [PowSync (bk_timestamp (fb_block front)) (set_difficulty 0)] else []) w) e in
        (r, disable_subaddresses e)
      end
  end.
End batch.
End Batch.

(** ** [user_data::store] *)
Module Store.
Section store.
Context {LM : Lmdb} (points : checkpoints) (internal_pub : bool).

(** [client::push_updates] (src/rpc/client.cpp): what is published, and the
    accounts. *)
Fixpoint push_updates (users : list Account.state) (new_height : block_id) : list Account.update * list Account.state :=
  match users with
  | [] => ([], [])
  | user :: users =>
    let '(updates, users) := push_updates users new_height in
    if internal_pub && (new_height <? Account.scan_height user) then (updates, user :: users)
    else
      let '(u, user) := Account.updated new_height user in
      (if internal_pub then u :: updates else updates, user :: users)
  end.

Record published := Published {
  pb_confirmed : list webhook_tx_confirmation;
  pb_spent : list webhook_tx_spend;
  pb_updates : list Account.update;
  pb_scanned : option hash
}.
Definition nothing : published := Published [] [] [] None.

Definition is_sorted (users : list Account.state) : bool :=
  match users with
  | [] => true
  | u :: rest => forallb (fun p => negb (Account.by_height p.2 p.1)) (zip users rest)
  end.

Record stored := Stored { so_ok : bool; so_users : list Account.state; so_published : published; so_tables : tables }.

Definition store (chain : list hash) (users : list Account.state) (pow : list pow_sync) (regtest : bool) (s : tables) : expect stored :=
  match users with
  | [] => Ok (Stored true users nothing s)
  | first :: _ =>
    if bool_decide (chain = []) || negb (is_sorted users) then Err kInvalidArgument
    else
      let base_height := Account.scan_height first in
      match update points base_height chain users pow regtest s with
      | Err e => if bool_decide (e = lws_err blockchain_reorg) then Ok (Stored false users nothing s) else Err e
      | Ok (updated, s) =>
        let '(updates, users) := push_updates users (u64 (base_height + Z.of_nat (length chain) - 1)) in
        if negb (accounts_updated updated =? Z.of_nat (length users))
        then Ok (Stored false users (Published (confirm_pubs updated) (spend_pubs updated) updates None) s)
        else Ok (Stored true users (Published (confirm_pubs updated) (spend_pubs updated) updates (last chain)) s)
      end
  end.
End store.
End Store.

(** ** What a scan leaves alone

    Whatever a scan finds, the accounts stay in place and keep what the callbacks
    keep of them. *)
Module Keeps.
Import Ownership.
Section keeps.
Context {WC : WalletCrypto} {LM : Lmdb} {SC : SubaddressCrypto} (start_read : tables -> expect tables) {S : Type}.
Context (on_spend : Account.state -> spend -> S -> Account.state * S).
Context (on_output : Account.state -> output -> option tables -> S -> Account.state * S).
Context {B : Type} (key : Account.state -> B).
Hypothesis spend_keeps : forall user s c, key (on_spend user s c).1 = key user.
Hypothesis output_keeps : forall user o r c, key (on_output user o r c).1 = key user.

Definition yields {A} (m : Ownership.act (S:=S) A) (Q : A -> Prop) : Prop := forall e a e', m e = (Ok a, e') -> Q a.

Lemma yields_ret {A} (a : A) (Q : A -> Prop) : Q a -> yields (ret a) Q.
Proof. by intros HQ e a' e' [= <- _]. Qed.
Lemma yields_throw {A} err (Q : A -> Prop) : yields (throw err) Q.
Proof. by intros e a e'. Qed.
Lemma yields_bind {A C} (m : Ownership.act A) (f : A -> Ownership.act C) (P : A -> Prop) (Q : C -> Prop) :
  yields m P -> (forall a, P a -> yields (f a) Q) -> yields (bind m f) Q.
Proof. intros Hm Hf e c e' H. unfold bind in H. destruct (m e) as [[a|err] e1] eqn:E; [|done]. by apply (Hf a (Hm _ _ _ E) _ _ _ H). Qed.
Lemma yields_any {A} (m : Ownership.act A) : yields m (fun _ => True).
Proof. done. Qed.

Lemma scan_offsets_keeps t amount k_image mixin g offsets user :
  yields (scan_offsets on_spend t amount k_image mixin g offsets user) (fun u => key u = key user).
Proof.
  revert g user. induction offsets as [|o offsets IH]; intros g user; cbn; [by apply yields_ret|].
  destruct (Account.get_spendable _ user) as [i|]; [|apply IH].
  eapply (yields_bind _ _ (fun u => key u = key user)); [|intros u Hu; rewrite <- Hu; apply IH].
  intros e a e' H. unfold call_spend in H. pose proof (spend_keeps user (make_spend t amount k_image (u64 (g + o)) mixin i) (e_calls e)) as Hk.
  destruct (on_spend _ _ _). by injection H as <- _.
Qed.

Lemma scan_inputs_keeps t vin mixin ext user :
  yields (scan_inputs on_spend t vin mixin ext user) (fun r => key r.2 = key user).
Proof.
  revert mixin ext user. induction vin as [|[|amount offsets k_image|] vin IH]; intros mixin ext user; cbn; [by apply yields_ret|apply IH| |apply IH].
  destruct (u32_max <? _); [apply yields_throw|].
  eapply yields_bind; [apply scan_offsets_keeps|]. intros u Hu. rewrite <- Hu. apply IH.
Qed.

Lemma scan_output_keeps t derived additional mixin index vout st :
  yields (scan_output start_read on_output t derived additional mixin index vout st) (fun r => key r.2 = key st.2).
Proof.
  destruct st as [[ext payment_id] user]. unfold scan_output. destruct (get_output_public_key vout); [|by apply yields_ret].
  destruct (negb _); [by apply yields_ret|]. eapply yields_bind; [apply yields_any|]. intros [found|] _; [|by apply yields_ret].
  eapply yields_bind; [apply yields_any|]. intros [amount_mask|] _; [|by apply yields_ret].
  eapply yields_bind; [apply yields_any|]. intros out_id _. destruct (u32_max <? _); [apply yields_throw|].
  eapply (yields_bind _ _ (fun u => key u = key user)); [|intros u Hu; by apply yields_ret].
  intros e a e' H. unfold call_output in H.
  match type of H with (let '(_, _) := on_output ?u ?o ?r ?c in _) = _ => pose proof (output_keeps u o r c) as Hk; destruct (on_output u o r c) end.
  by injection H as <- _.
Qed.

Lemma scan_outputs_keeps t derived additional mixin index vouts st :
  yields (scan_outputs start_read on_output t derived additional mixin index vouts st) (fun r => key r.2 = key st.2).
Proof.
  revert index st. induction vouts as [|vout vouts IH]; intros index st; cbn; [by apply yields_ret|].
  eapply yields_bind; [apply scan_output_keeps|]. intros st' Hst. rewrite <- Hst. apply IH.
Qed.

Lemma scan_user_keeps t user : yields (scan_user start_read on_spend on_output t user) (fun u => key u = key user).
Proof.
  intros e u e' H. unfold scan_user in H. destruct (_ <=? _); [by injection H as <- _|].
  refine (yields_bind _ _ (fun _ => True) (fun u => key u = key user) (yields_any _) _ _ _ _ H). intros view _.
  destruct (generate_key_derivation _ _); [|by apply yields_ret].
  eapply yields_bind; [apply scan_inputs_keeps|]. intros [[mixin ext] u'] Hu. cbn in Hu.
  eapply yields_bind; [apply scan_outputs_keeps|]. intros st Hst. apply yields_ret. cbn in Hst. by rewrite Hst.
Qed.

Lemma scan_users_keeps t users : yields (scan_users start_read on_spend on_output t users) (fun us => key <$> us = key <$> users).
Proof.
  induction users as [|user users IH]; cbn; [by apply yields_ret|].
  eapply yields_bind; [apply scan_user_keeps|]. intros u Hu. eapply yields_bind; [apply IH|]. intros us Hus.
  apply yields_ret. cbn. by rewrite Hu, Hus.
Qed.

Lemma scan_transaction_keeps users height timestamp tx_hash tx out_ids :
  yields (scan_transaction start_read on_spend on_output users height timestamp tx_hash tx out_ids)
    (fun us => key <$> us = key <$> users).
Proof.
  intros e us e' H. unfold scan_transaction in H. destruct (2 <? _); [done|].
  destruct (parse _ _ _ _ _ _); [|by injection H as <- _]. by apply scan_users_keeps in H.
Qed.
End keeps.
End Keeps.

(** ** What a batch does *)
Module BatchSpec.
Import Ownership Batch.

(** A call of the ownership test. *)
Record call := Call {
  c_height : block_id;
  c_timestamp : Z;
  c_hash : option hash;
  c_tx : transaction;
  c_out_ids : list Z
}.

Section spec.
Context {CS : Consensus} {WC : WalletCrypto} {LM : Lmdb} {SC : SubaddressCrypto} (start_read : tables -> expect tables).

(** A block comes with its transactions, one list of output numbers for each of
    them and one for the coinbase. *)
Definition complete (data : fetched_block * list (list Z)) : bool :=
  bool_decide (length (bk_tx_hashes (fb_block data.1)) = length (fb_transactions data.1)) &&
  bool_decide (length data.2 = S (length (fb_transactions data.1))).

Definition calls_of_block (height : block_id) (data : fetched_block * list (list Z)) : list call :=
  let b := fb_block data.1 in
  Call height (bk_timestamp b) None (bk_miner_tx b) (default [] (head data.2)) ::
  ((fun x => Call height (bk_timestamp b) (Some x.1) x.2.1 x.2.2) <$> zip (bk_tx_hashes b) (zip (fb_transactions data.1) (tail data.2))).

Fixpoint calls_of (height : block_id) (data : list (fetched_block * list (list Z))) : list call :=
  match data with [] => [] | d :: data => calls_of_block (height + 1) d ++ calls_of (height + 1) data end.

Fixpoint run_calls (calls : list call) (users : list Account.state) : act (list Account.state) :=
  match calls with
  | [] => ret users
  | c :: calls => bind (scan_tx start_read users (c_height c) (c_timestamp c) (c_hash c) (c_tx c) (c_out_ids c)) (run_calls calls)
  end.

Definition hash_of (data : fetched_block * list (list Z)) : hash := default 0 (get_block_hash (fb_block data.1)).

Lemma bind_ok {A C} (m : act A) (f : A -> act C) e c e' :
  bind m f e = (Ok c, e') <-> exists a e1, m e = (Ok a, e1) /\ f a e1 = (Ok c, e').
Proof.
  unfold bind. destruct (m e) as [[a|err] e1]; split; intros H; try done.
  - by exists a, e1.
  - by destruct H as (? & ? & [= -> ->] & ?).
  - by destruct H as (? & ? & ? & ?).
Qed.

Lemma run_calls_app c1 c2 users e : run_calls (c1 ++ c2) users e = bind (run_calls c1 users) (run_calls c2) e.
Proof.
  revert users e. induction c1 as [|c c1 IH]; intros users e; [done|]. cbn. unfold bind at 1 2 3.
  destruct (scan_tx _ _ _ _ _ _ _ e) as [[us|err] e1]; [apply IH|done].
Qed.

Lemma run_calls_heights calls users e us e' :
  run_calls calls users e = (Ok us, e') -> Account.scan_height <$> us = Account.scan_height <$> users.
Proof.
  revert users e. induction calls as [|c calls IH]; intros users e H; [by injection H as <- _|].
  cbn in H. unfold bind in H. destruct (scan_tx _ _ _ _ _ _ _ e) as [[us1|err] e1] eqn:E; [|done].
  rewrite (IH _ _ H). eapply (Keeps.scan_transaction_keeps start_read add_spend add_output Account.scan_height); [done| |exact E].
  intros user o r c'. unfold add_output, Account.add_out. cbn. by case_match.
Qed.

Lemma scan_txes_calls height timestamp tx_data users e :
  scan_txes start_read false height timestamp tx_data users e =
  run_calls ((fun x => Call height timestamp (Some x.1) x.2.1 x.2.2) <$> tx_data) users e.
Proof.
  revert users e. induction tx_data as [|[h [tx ids]] tx_data IH]; intros users e; [done|]. cbn. unfold bind.
  destruct (scan_tx _ _ _ _ _ _ _ e) as [[us|err] e1]; [apply IH|done].
Qed.

Definition trusted (se : setting) : Prop := se_untrusted se = false.

Lemma scan_block_calls se initial_height data st e st' e' :
  trusted se -> b_height st + 1 <= u64_max -> 0 <= b_height st ->
  scan_block start_read se initial_height data st e = (Ok (Some st'), e') <->
  complete data = true /\ exists users,
    run_calls (calls_of_block (b_height st + 1) data) (b_users st) e = (Ok users, e') /\
    st' = MkBatch users (b_height st + 1) (b_chain st ++ [hash_of data]) (b_new_pow st) (b_window st).
Proof.
  intros Ht Hmax H0. unfold scan_block, complete, trusted in *. rewrite Ht, u64_small by (unfold in_u64; lia).
  destruct (bool_decide (length (bk_tx_hashes _) = _)) eqn:E1; cbn [negb andb]; [|split; [done|by intros [? _]]].
  destruct (data.2) as [|coinbase indices] eqn:E2; [split; [done|by intros [? _]]|].
  unfold calls_of_block. rewrite E2. cbn [head tail default from_option run_calls c_height c_timestamp c_hash c_tx c_out_ids].
  destruct (bool_decide (length (fb_transactions data.1) = length indices)) eqn:E3.
  - apply bool_decide_eq_true in E3. rewrite bool_decide_true by (cbn [length]; lia). rewrite bind_ok. split.
    + intros (us & e1 & Hs & H). apply bind_ok in H as (x & e2 & [= <- <-] & H). cbn [negb] in H.
      apply bind_ok in H as (us2 & e3 & Hr & [= <- <-]). rewrite scan_txes_calls in Hr.
      split; [done|]. exists us2. split; [apply bind_ok; by exists us, e1|done].
    + intros (_ & us2 & Hr & ->). apply bind_ok in Hr as (us & e1 & Hs & Hr). exists us, e1. split; [exact Hs|].
      apply bind_ok. eexists _, _. split; [done|]. cbn [negb]. apply bind_ok. exists us2, e'. rewrite scan_txes_calls. done.
  - apply bool_decide_eq_false in E3. rewrite bool_decide_false by (cbn [length]; lia). split; [|by intros [? _]].
    intros H. apply bind_ok in H as (us & e1 & _ & H). by apply bind_ok in H as (x & e2 & [= <- <-] & H).
Qed.

Lemma scan_blocks_calls se initial_height data st e st' e' :
  trusted se -> 0 <= b_height st -> b_height st + Z.of_nat (length data) <= u64_max ->
  scan_blocks start_read se initial_height data st e = (Ok (Some st'), e') <->
  forallb complete data = true /\ exists users,
    run_calls (calls_of (b_height st) data) (b_users st) e = (Ok users, e') /\
    st' = MkBatch users (b_height st + Z.of_nat (length data)) (b_chain st ++ (hash_of <$> data)) (b_new_pow st) (b_window st).
Proof.
  intros Ht. revert st e. induction data as [|d data IH]; intros st e H0 Hmax.
  { cbn. unfold ret. destruct st. cbn. rewrite Z.add_0_r, app_nil_r. split; [|by intros (_ & ? & [= -> ->] & ->)].
    intros [= <- <-]. split; [done|]. by eexists. }
  cbn [scan_blocks forallb calls_of length] in *. rewrite andb_true_iff, bind_ok.
  setoid_rewrite run_calls_app. setoid_rewrite bind_ok.
  replace (b_height st + Z.of_nat (S (length data))) with (b_height st + 1 + Z.of_nat (length data)) by lia. split.
  - intros ([st1|] & e1 & H1 & H2); [|done]. apply scan_block_calls in H1 as (Hc & us & Hr & ->); [|done|lia|done].
    apply IH in H2 as (Hcs & us2 & Hr2 & ->); [|cbn; lia|cbn; lia]. cbn [b_users b_height b_chain b_new_pow b_window] in *.
    split; [done|]. exists us2. split; [by exists us, e1|]. by rewrite <- app_assoc.
  - intros ([Hc Hcs] & us2 & (us & e1 & Hr & Hr2) & ->).
    exists (Some (MkBatch us (b_height st + 1) (b_chain st ++ [hash_of d]) (b_new_pow st) (b_window st))), e1. split.
    + apply scan_block_calls; [done|lia|done|]. split; [done|]. by exists us.
    + apply IH; [cbn; lia|cbn; lia|]. split; [done|]. exists us2. cbn [b_users b_height b_chain b_new_pow b_window].
      split; [done|]. by rewrite <- app_assoc.
Qed.

(** The blocks of an answer that are scanned: all but the first, which overlaps
    with what is stored, except at the start of the chain. *)
Definition initial (f : fetched) : block_id := if ft_start_height f =? 1 then 0 else ft_start_height f.
Definition scanned (f : fetched) : list (fetched_block * list (list Z)) :=
  drop (if ft_start_height f =? 1 then 0 else 1) (zip (ft_blocks f) (ft_output_indices f)).
Definition with_subaddresses (se : setting) (e : Ownership.env (S:=unit)) : Ownership.env :=
  if se_disk se && negb (se_max_subaddresses se =? 0) then enable_subaddresses start_read (se_max_subaddresses se) e else e.

Lemma scan_batch_calls se w f users e st' e2 :
  trusted se -> 0 <= ft_start_height f -> ft_start_height f + Z.of_nat (length (ft_blocks f)) <= u64_max ->
  scan_batch start_read se w f users e = (Ok (Some st'), e2) <->
  exists front rest, ft_blocks f = front :: rest /\ length (ft_blocks f) = length (ft_output_indices f) /\
    forallb complete (scanned f) = true /\
    exists users' e1, run_calls (calls_of (initial f) (scanned f)) users (with_subaddresses se e) = (Ok users', e1) /\
      e2 = disable_subaddresses e1 /\
      st' = MkBatch users' (initial f + Z.of_nat (length (scanned f)))
              (default 0 (get_block_hash (fb_block front)) :: (hash_of <$> scanned f)) [] w.
Proof.
  intros Ht H0 Hmax. unfold scan_batch. destruct (ft_blocks f) as [|front rest] eqn:Eb; [split; [done|by intros (? & ? & ? & _)]|].
  destruct (bool_decide (length (front :: rest) = _)) eqn:El; cbn [negb].
  2:{ apply bool_decide_eq_false in El. split; [done|]. by intros (? & ? & _ & ? & _). }
  apply bool_decide_eq_true in El.
  assert (length (scanned f) <= length (front :: rest))%nat as Hlen.
  { unfold scanned. rewrite length_drop, length_zip_with, Eb. lia. }
  assert ((if negb (ft_start_height f =? 1) then (drop 1 (zip (front :: rest) (ft_output_indices f)), ft_start_height f)
           else (zip (front :: rest) (ft_output_indices f), 0)) = (scanned f, initial f)) as ->.
  { unfold scanned, initial. rewrite Eb. by destruct (ft_start_height f =? 1). }
  unfold trusted in Ht. rewrite Ht, andb_false_r. cbn [b_users]. fold (with_subaddresses se e).
  assert (0 <= initial f <= ft_start_height f) as Hi by (unfold initial; destruct (Z.eqb_spec (ft_start_height f) 1); lia).
  pose proof (scan_blocks_calls se (initial f) (scanned f)
    (MkBatch users (initial f) [default 0 (get_block_hash (fb_block front))] [] w) (with_subaddresses se e)) as Hs.
  specialize (fun st e => Hs st e Ht ltac:(cbn; lia) ltac:(cbn in *; lia)) as Hs. cbn [b_users b_height b_chain b_new_pow b_window app] in Hs.
  destruct (scan_blocks _ _ _ _ _ _) as [r e1]. split.
  - intros [= -> <-]. destruct (proj1 (Hs st' e1) eq_refl) as (Hc & us & Hr & ->).
    exists front, rest. split_and!; try done. by exists us, e1.
  - intros (front' & rest' & [= <- <-] & _ & Hc & us & e1' & Hr & -> & ->).
    assert ((r, e1) = (Ok (Some (MkBatch us (initial f + Z.of_nat (length (scanned f)))
      (default 0 (get_block_hash (fb_block front)) :: (hash_of <$> scanned f)) [] w)), e1')) as [= -> ->]; [|done].
    apply Hs. split; [done|]. by exists us.
Qed.

(** C5: A batch succeeds exactly when the daemon's answer is complete and the
    ownership test does not fail; then every transaction of every new block,
    coinbase first, was tested at its own height, in order, and the batch holds
    the hashes of the blocks. *)
Theorem batch_scans_all se w f users e st' e2 :
  trusted se -> 0 <= ft_start_height f -> ft_start_height f + Z.of_nat (length (ft_blocks f)) <= u64_max ->
  scan_batch start_read se w f users e = (Ok (Some st'), e2) <->
  exists front rest, ft_blocks f = front :: rest /\ length (ft_blocks f) = length (ft_output_indices f) /\
    forallb complete (scanned f) = true /\
    exists users' e1, run_calls (calls_of (initial f) (scanned f)) users (with_subaddresses se e) = (Ok users', e1) /\
      e2 = disable_subaddresses e1 /\
      st' = MkBatch users' (initial f + Z.of_nat (length (scanned f)))
              (default 0 (get_block_hash (fb_block front)) :: (hash_of <$> scanned f)) [] w.
Proof. apply scan_batch_calls. Qed.

(** *** The heights of the calls *)
Lemma calls_of_heights height data c : c ∈ calls_of height data -> height < c_height c <= height + Z.of_nat (length data).
Proof.
  revert height. induction data as [|d data IH]; intros height; cbn [calls_of length]; [by intros ?%elem_of_nil|].
  intros [Hc|Hc]%elem_of_app; [|apply IH in Hc; lia].
  unfold calls_of_block in Hc. apply elem_of_cons in Hc as [->|(x & -> & _)%list_elem_of_fmap]; cbn; lia.
Qed.

Lemma calls_of_each height data i d :
  data !! i = Some d -> forall c, c ∈ calls_of_block (height + 1 + Z.of_nat i) d -> c ∈ calls_of height data.
Proof.
  revert height i. induction data as [|d' data IH]; intros height [|i] Hi c Hc; cbn in Hi; [done|done| |]; cbn [calls_of]; apply elem_of_app.
  - injection Hi as ->. left. by rewrite Z.add_0_r in Hc.
  - right. apply (IH (height + 1) i Hi). by replace (height + 1 + 1 + Z.of_nat i) with (height + 1 + Z.of_nat (S i)) by lia.
Qed.

(** *** Storing a batch *)
Lemma push_updates_heights pub users h :
  Account.scan_height <$> (Store.push_updates pub users h).2 = (fun u => Z.max (Account.scan_height u) h) <$> users.
Proof.
  induction users as [|u users IH]; [done|]. cbn. destruct (Store.push_updates pub users h) as [updates us]. cbn in IH.
  destruct (pub && (h <? Account.scan_height u)) eqn:E; cbn.
  - apply andb_true_iff in E as [_ E%Z.ltb_lt]. rewrite IH. f_equal. lia.
  - by rewrite IH.
Qed.

Lemma store_heights points pub chain first users pow regtest s r :
  0 <= Account.scan_height first -> Account.scan_height first + Z.of_nat (length chain) <= u64_max ->
  Store.store points pub chain (first :: users) pow regtest s = Ok r -> Store.so_ok r = true ->
  Account.scan_height <$> Store.so_users r =
  (fun u => Z.max (Account.scan_height u) (Account.scan_height first + Z.of_nat (length chain) - 1)) <$> (first :: users).
Proof.
  intros H0 Hmax H Hok. unfold Store.store in H. destruct (_ || _) eqn:Ec; [done|].
  destruct (update _ _ _ _ _ _ _) as [[updated s']|err]; [|destruct (bool_decide (err = _)); [by inversion H; subst|done]].
  assert (chain <> []) as Hne by (intros ->; done).
  rewrite u64_small in H by (destruct chain; [done|unfold in_u64; cbn [length] in *; lia]).
  pose proof (push_updates_heights pub (first :: users) (Account.scan_height first + Z.of_nat (length chain) - 1)) as Hp.
  destruct (Store.push_updates _ _ _) as [updates us]. cbn [snd] in Hp.
  destruct (accounts_updated updated =? Z.of_nat (length us)); cbn [negb] in H; injection H as <-; cbn in *; [exact Hp|done].
Qed.

Lemma same_heights (l l' : list Account.state) k :
  Account.scan_height <$> l = Account.scan_height <$> l' ->
  (fun u => Z.max (Account.scan_height u) k) <$> l = (fun u => Z.max (Account.scan_height u) k) <$> l'.
Proof.
  revert l'. induction l as [|u l IH]; intros [|u' l'] H; try done. cbn in H |- *. injection H as Hu Hl.
  by rewrite Hu, (IH l' Hl).
Qed.

Lemma heights_head us users first rest :
  Account.scan_height <$> us = Account.scan_height <$> users -> users = first :: rest ->
  exists first' rest', us = first' :: rest' /\ Account.scan_height first' = Account.scan_height first.
Proof. intros H ->. destruct us as [|first' rest']; [done|]. injection H as ? ?. by exists first', rest'. Qed.

(** A batch that was scanned and stored: the new heights, and what was tested. *)
Lemma stored_batch se w f first rest e st' e2 points pub regtest s r :
  trusted se -> 0 <= ft_start_height f -> ft_start_height f + Z.of_nat (length (ft_blocks f)) <= u64_max ->
  0 <= Account.scan_height first -> Account.scan_height first + 1 + Z.of_nat (length (ft_blocks f)) <= u64_max ->
  scan_batch start_read se w f (first :: rest) e = (Ok (Some st'), e2) ->
  Store.store points pub (b_chain st') (b_users st') (b_new_pow st') regtest s = Ok r -> Store.so_ok r = true ->
  Account.scan_height <$> Store.so_users r =
    (fun u => Z.max (Account.scan_height u) (Account.scan_height first + Z.of_nat (length (scanned f)))) <$> (first :: rest) /\
  b_height st' = initial f + Z.of_nat (length (scanned f)) /\
  exists e1, run_calls (calls_of (initial f) (scanned f)) (first :: rest) (with_subaddresses se e) = (Ok (b_users st'), e1).
Proof.
  intros Ht H0 Hmax Hf0 Hfmax Hb Hs Hok.
  apply scan_batch_calls in Hb as (front & rest' & Hblocks & Hlen & _ & us & e1 & Hr & _ & ->); [|done..].
  cbn [b_chain b_users b_new_pow b_height] in *. pose proof (run_calls_heights _ _ _ _ _ Hr) as Hh.
  destruct (heights_head _ _ _ _ Hh eq_refl) as (first' & rest2 & -> & Hfirst).
  assert (length (scanned f) <= length (ft_blocks f))%nat as Hle by (unfold scanned; rewrite length_drop, length_zip_with; lia).
  apply store_heights in Hs; [|lia|rewrite Hfirst; cbn [length]; rewrite length_fmap; lia|done].
  split; [|split; [done|by exists e1]]. rewrite Hs, Hfirst. cbn [length]. rewrite length_fmap.
  rewrite (same_heights _ _ _ Hh). apply list_fmap_ext. intros _ u _. cbn. lia.
Qed.

(** Nothing is marked as scanned that was not: when the first account is where
    the answer starts, every account ends at the last block of the batch or stays
    above it, and every transaction of every block above the first account's
    height was tested against all accounts. *)
Lemma stored_was_scanned se w f first rest e st' e2 points pub regtest s r :
  trusted se -> 0 <= ft_start_height f -> ft_start_height f + Z.of_nat (length (ft_blocks f)) < u64_max ->
  Account.scan_height first = initial f ->
  scan_batch start_read se w f (first :: rest) e = (Ok (Some st'), e2) ->
  Store.store points pub (b_chain st') (b_users st') (b_new_pow st') regtest s = Ok r -> Store.so_ok r = true ->
  Account.scan_height <$> Store.so_users r = (fun u => Z.max (Account.scan_height u) (b_height st')) <$> (first :: rest) /\
  exists calls e1, run_calls calls (first :: rest) (with_subaddresses se e) = (Ok (b_users st'), e1) /\
    forall h, Account.scan_height first < h <= b_height st' ->
      exists d, d ∈ scanned f /\ forall c, c ∈ calls_of_block h d -> c ∈ calls.
Proof.
  intros Ht H0 Hmax Hfirst Hb Hs Hok.
  assert (0 <= initial f <= ft_start_height f) as Hi by (unfold initial; destruct (Z.eqb_spec (ft_start_height f) 1); lia).
  destruct (stored_batch se w f first rest e st' e2 points pub regtest s r) as (Hh & Hbh & e1 & Hr); try done; try lia.
  rewrite Hh, Hbh, Hfirst. split; [done|]. exists (calls_of (initial f) (scanned f)), e1. split; [done|]. intros h Hrange.
  destruct (lookup_lt_is_Some_2 (scanned f) (Z.to_nat (h - initial f - 1))) as [d Hd]; [lia|].
  exists d. split; [by eapply list_elem_of_lookup_2|]. intros c Hc.
  apply (calls_of_each _ _ _ _ Hd). by replace (initial f + 1 + Z.of_nat (Z.to_nat (h - initial f - 1))) with h by lia.
Qed.

(** The hash of the first block is twice in the batch of a chain's start. *)
Lemma start_chain se w f users e st' e2 :
  trusted se -> ft_start_height f = 1 -> Z.of_nat (length (ft_blocks f)) < u64_max ->
  scan_batch start_read se w f users e = (Ok (Some st'), e2) ->
  length (b_chain st') = S (length (ft_blocks f)) /\
  forall i d, ft_blocks f !! i = Some d -> b_chain st' !! S i = Some (default 0 (get_block_hash (fb_block d))).
Proof.
  intros Ht Hstart Hmax Hb. apply scan_batch_calls in Hb as (front & rest & _ & Hlen & _ & us & e1 & _ & _ & ->); [|done|lia|lia].
  cbn [b_chain]. unfold scanned. rewrite Hstart. cbn [Z.eqb Pos.eqb]. rewrite drop_0. split.
  { cbn [length]. rewrite length_fmap, length_zip_with. lia. }
  intros i d Hd. etransitivity; [exact (list_lookup_fmap hash_of _ i)|].
  destruct (lookup_lt_is_Some_2 (ft_output_indices f) i) as [ix Hix]; [rewrite <- Hlen; by eapply lookup_lt_Some|].
  rewrite (proj2 (lookup_zip_with_Some pair (ft_blocks f) (ft_output_indices f) i (d, ix)) (ex_intro _ d (ex_intro _ ix (conj eq_refl (conj Hd Hix))))). done.
Qed.

(** A chain whose hashes after the first differ from the stored ones is not
    stored from height one. *)
Lemma update_chain_refused points chain pow (s : tables) last_block s' :
  (2 <= length chain)%nat -> Z.of_nat (length chain) <= u64_max ->
  last_dup (d:=blocks) (t_blocks s) blocks_version = Ok last_block -> 1 < bi_id last_block ->
  (forall i, (S i < length chain)%nat -> exists h, Chain.get_block_hash s (Z.of_nat i + 2) = Ok h /\ chain !! S i <> Some h) ->
  update_chain points 1 chain pow false s <> Ok s'.
Proof.
  intros Hlen Hmax Hlast Hid Hne H. unfold update_chain in H. rewrite u64_small in H by (unfold in_u64; lia). cbn [orb] in H.
  destruct (_ <=? _).
  - rewrite Hlast in H. cbn [ebind] in H. rewrite (proj2 (Z.ltb_ge _ _)) in H by lia.
    set (same := Z.min (bi_id last_block) (1 + Z.of_nat (length chain) - 1)) in H.
    assert (2 <= same <= Z.of_nat (length chain)) as Hsame by lia.
    destruct (Hne (Z.to_nat (same - 2))) as (h & Hh & Hneq); [lia|].
    replace (Z.of_nat (Z.to_nat (same - 2)) + 2) with same in Hh by lia. unfold Chain.get_block_hash in Hh. rewrite Hh in H. cbn [ebind] in H.
    rewrite u64_small in H by (unfold in_u64; lia).
    replace (Z.to_nat (same - 1)) with (S (Z.to_nat (same - 2))) in H by lia. by rewrite bool_decide_false in H.
  - destruct (Hne (length chain - 2)%nat) as (h & Hh & Hneq); [lia|]. unfold Chain.get_block_hash, do_get_block_hash, lmdb_check in Hh.
    replace (Z.of_nat (length chain - 2) + 2) with (1 + Z.of_nat (length chain) - 1) in Hh by lia.
    destruct (get_both _ _ _) as [b|]; [|done]. injection Hh as <-. rewrite last_lookup in H.
    replace (pred (length chain)) with (S (length chain - 2)) in H by lia. by rewrite bool_decide_false in H.
Qed.

(** An account at height one is never scanned once the chain is stored: the
    batch starts with the hash of block one twice, so every other hash is
    compared with the stored block one higher, and storing the batch fails. *)
Theorem height_one_never_stored se w f first rest e st' e2 points pub s last_block users pow r :
  trusted se -> ft_start_height f = 1 -> Z.of_nat (length (ft_blocks f)) + 2 <= u64_max ->
  scan_batch start_read se w f (first :: rest) e = (Ok (Some st'), e2) ->
  last_dup (d:=blocks) (t_blocks s) blocks_version = Ok last_block -> 1 < bi_id last_block ->
  (forall i d, ft_blocks f !! i = Some d ->
     exists h, Chain.get_block_hash s (Z.of_nat i + 2) = Ok h /\ default 0 (get_block_hash (fb_block d)) <> h) ->
  Account.scan_height <$> head users = Some 1 ->
  Store.store points pub (b_chain st') users pow false s = Ok r -> Store.so_ok r = false.
Proof.
  intros Ht Hstart Hmax Hb Hlast Hid Hdiff Hu Hs. destruct users as [|u us]; [done|]. injection Hu as Hu.
  assert (0 < length (ft_blocks f))%nat as Hpos.
  { apply scan_batch_calls in Hb as (? & ? & -> & _); [cbn; lia|done|lia|lia]. }
  destruct (start_chain _ _ _ _ _ _ _ Ht Hstart ltac:(lia) Hb) as [Hlen Hchain].
  unfold Store.store in Hs. destruct (_ || _); [done|]. rewrite Hu in Hs.
  destruct (update _ _ _ _ _ _ _) as [[updated s1]|err] eqn:E.
  - exfalso. unfold update in E. destruct (b_chain st') as [|h chain] eqn:Ec; [done|]. rewrite <- Ec in *.
    destruct (negb (bool_decide (pow = [])) && _); [done|]. apply ebind_ok in E as (s2 & E & _).
    apply (update_chain_refused points (b_chain st') pow s last_block s2); try done; [lia|lia|].
    intros i Hi. destruct (lookup_lt_is_Some_2 (ft_blocks f) i) as [d Hd]; [lia|].
    destruct (Hdiff i d Hd) as (x & Hx & Hneq). exists x. split; [done|]. intros Heq. apply Hneq.
    pose proof (eq_trans (eq_sym (Hchain i d Hd)) Heq) as Hsame. by injection Hsame.
  - destruct (bool_decide _); [|done]. by injection Hs as <-.
Qed.
End spec.
End BatchSpec.

(** ** The loop of a thread *)
Module Loop.
Import Ownership.

Section loop.
Context {CS : Consensus} {WC : WalletCrypto} {LM : Lmdb} {SC : SubaddressCrypto} (start_read : tables -> expect tables).
Context (points : checkpoints) (internal_pub : bool).

(** *** Accounts from the queue *)
Inductive taken :=
| NoWork
| Keep (users : list Account.state)
| Resorted (users : list Account.state).

Definition take_accounts (status : Queue.status) (users : list Account.state) : taken :=
  match Queue.st_replace status, Queue.st_push status with
  | Some [], [] => NoWork
  | None, [] => Keep users
  | _, _ => Resorted (std_sort Account.by_height (Queue.take_status users status))
  end.

(** *** The transactions of the pool *)

(** What [send_webhook] sends for a transaction in the pool. *)
Record pool_notice := PoolNotice { pn_events : list webhook_tx_confirmation; pn_user : account_id; pn_output : output }.

Definition null_spend (user : Account.state) (s : spend) (c : list pool_notice) : Account.state * list pool_notice := (user, c).
Definition send_webhook (disk : tables) (user : Account.state) (out : output) (reader : option tables) (c : list pool_notice)
    : Account.state * list pool_notice :=
  let key := WebhookKey (Account.id user) tx_confirmation in
  match (match reader with Some s => Ok s | None => start_read disk end) with
  | Err _ => (user, c)
  | Ok s =>
    let events := (fun hook => WebhookTxConfirmation key (with_confirmations 0 hook) out) <$> find_webhook key (payment_id_short (out_payment_id out)) s in
    (user, c ++ [PoolNotice events (Account.id user) out])
  end.

(** Output numbers are not known in the pool. *)
Definition fake_outs : list Z := replicate 256 u64_max.

Fixpoint scan_pool (disk : tables) (time : Z) (txes : list transaction) (users : list Account.state)
    : Ownership.act (S:=list pool_notice) (list Account.state) :=
  match txes with
  | [] => ret users
  | tx :: txes =>
    bind (scan_transaction start_read null_spend (send_webhook disk) users block_id_txpool time None tx fake_outs)
      (scan_pool disk time txes)
  end.

Definition scan_transactions (max_subaddresses : Z) (time : Z) (parsed : option (list transaction)) (users : list Account.state) (s : tables)
    : expect (list Account.state) * tables * list pool_notice :=
  match parsed with
  | None => (Ok users, s, [])
  | Some txes =>
    if time <? 0 then (Err bad_numeric_cast, s, [])
    else
      let e := Env None s [] in
      let e := if 0 <? max_subaddresses then enable_subaddresses start_read max_subaddresses e else e in
      let '(r, e) := scan_pool s time txes users e in (r, e_db e, e_calls e)
  end.

(** *** Blocks at the top of the chain *)
Definition is_new_block (chain : option (Z * hash)) (disk : option tables) (user : Account.state) : bool :=
  match chain with
  | None => false
  | Some (top_height, top_id) =>
    if Account.scan_height user <? top_height then true
    else
      match disk with
      | None => true
      | Some s =>
        match start_read s with
        | Err _ => true
        | Ok s =>
          match Chain.get_block_hash s top_height with
          | Err _ => true
          | Ok id =>
            if negb (id =? top_id) then true
            else
              match get_account_by_id active (Account.id user) s with
              | Err _ => true
              | Ok u => negb (acc_scan_height u =? Account.scan_height user)
              end
          end
        end
      end
  end.

(** What [client::wait_for_block] delivers; the messages come parsed and sorted,
    those of the pool first. *)
Inductive wakeup :=
| WaitInterrupted
| AccountsChanged
| WaitFailed
| Messages (time : Z) (pool : list (option (list transaction))) (blocks : list (option (Z * hash))).

Inductive waited := StopWaiting | Fetch | WaitOn.

Definition wait_round (opts : Assign.scanner_options) (disk : option tables) (queue_has_accounts : bool) (users : list Account.state)
    (w : wakeup) : expect (waited * list Account.state) * option tables * list pool_notice :=
  match w with
  | WaitInterrupted => (Ok (StopWaiting, users), disk, [])
  | AccountsChanged => (Ok (if queue_has_accounts then Fetch else WaitOn, users), disk, [])
  | WaitFailed => (Ok (Fetch, users), disk, [])
  | Messages time pool blocks =>
    let '(r, disk, notices) :=
      match disk with
      | None => (Ok users, None, [])
      | Some s =>
        foldl (fun st txes =>
          match st with
          | (Ok users, Some s, notices) =>
            let '(r, s, more) := scan_transactions (Assign.max_subaddresses opts) time txes users s in (r, Some s, notices ++ more)
          | _ => st
          end) (Ok users, Some s, []) pool
      end in
    match r with
    | Err e => (Err e, disk, notices)
    | Ok users =>
      (Ok (if existsb (fun chain => match head users with Some u => is_new_block chain disk u | None => false end) blocks
           then Fetch else WaitOn, users), disk, notices)
    end
  end.

(** Until a message ends the wait; [None] while there is none. *)
Fixpoint wait_for_block (opts : Assign.scanner_options) (disk : option tables) (users : list Account.state) (waits : list (bool * wakeup))
    : option (expect (bool * list Account.state) * option tables * list pool_notice) :=
  match waits with
  | [] => None
  | (queue_has_accounts, w) :: waits =>
    match wait_round opts disk queue_has_accounts users w with
    | (Err e, disk, notices) => Some (Err e, disk, notices)
    | (Ok (StopWaiting, users), disk, notices) => Some (Ok (false, users), disk, notices)
    | (Ok (Fetch, users), disk, notices) => Some (Ok (true, users), disk, notices)
    | (Ok (WaitOn, users), disk, notices) =>
      (fun r => (r.1, notices ++ r.2)) <$> wait_for_block opts disk users waits
    end
  end.

(** *** The loop *)

(** What the loop leaves outside of itself, in order. *)
Inductive loop_event :=
| Requested (start_height : Z)
| Noticed (n : pool_notice)
| Published (p : Store.published)
| MinHeight (height : block_id).

(** The variables of [loop] and the database behind [disk]. *)
Record loop_state := LoopState {
  ls_users : list Account.state;
  ls_start_height : Z;
  ls_window : pow_window;
  ls_db : tables;
  ls_events : list loop_event
}.

Inductive reply := TimedOut | Interrupted | Failed (e : error) | Unparsable | Answer (f : fetched).

(** What a turn of the loop meets: the daemon's reply, the accounts in the queue,
    the messages while it waits, and how sending the next request ends. *)
Record turn := Turn {
  tu_stop : bool;
  tu_reply : reply;
  tu_status : Queue.status;
  tu_waits : list (bool * wakeup);
  tu_sent : expect bool
}.

Inductive outcome := Leave (r : expect bool) | Continue | Waiting.

(** [send] of a request, and what follows. *)
Definition send_request (start_height : Z) (sent : expect bool) (st : loop_state) (next : loop_state -> outcome * loop_state)
    : outcome * loop_state :=
  match sent with
  | Err e => (Leave (Err e), st)
  | Ok false => (Leave (Ok false), st)
  | Ok true => next (LoopState (ls_users st) (ls_start_height st) (ls_window st) (ls_db st) (ls_events st ++ [Requested start_height]))
  end.

Definition with_start_height (start_height : Z) (st : loop_state) : loop_state :=
  LoopState (ls_users st) start_height (ls_window st) (ls_db st) (ls_events st).
Definition with_users (users : list Account.state) (st : loop_state) : loop_state :=
  LoopState users (ls_start_height st) (ls_window st) (ls_db st) (ls_events st).

(** [store_func]: [user_data::store], or the connection to a main process. *)
Context (store : list hash -> list Account.state -> list pow_sync -> bool -> tables -> expect Store.stored).

Definition loop_wait (se : Batch.setting) (opts : Assign.scanner_options) (tu : turn) (st : loop_state) : outcome * loop_state :=
  match wait_for_block opts (if Batch.se_disk se then Some (ls_db st) else None) (ls_users st) (tu_waits tu) with
  | None => (Waiting, st)
  | Some (r, disk, notices) =>
    let after users := LoopState users (ls_start_height st) (ls_window st) (default (ls_db st) disk) (ls_events st ++ (Noticed <$> notices)) in
    match r with
    | Err e => (Leave (Err e), after (ls_users st))
    | Ok (false, users) => (Leave (Ok false), after users)
    | Ok (true, users) => send_request (ls_start_height st) (tu_sent tu) (after users) (fun st => (Continue, st))
    end
  end.

Definition loop_store (opts : Assign.scanner_options) (b : Batch.batch) (st : loop_state) : outcome * loop_state :=
  match store (Batch.b_chain b) (Batch.b_users b) (Batch.b_new_pow b) (Assign.regtest opts) (ls_db st) with
  | Err e => (Leave (Err e), st)
  | Ok r =>
    let height := match head (Store.so_users r) with Some u => [MinHeight (Account.scan_height u)] | None => [] end in
    if Store.so_ok r
    then (Continue, LoopState (Store.so_users r) (ls_start_height st) (Batch.b_window b) (Store.so_tables r)
                      (ls_events st ++ Published (Store.so_published r) :: height))
    else (Leave (Ok false), LoopState (Store.so_users r) (ls_start_height st) (Batch.b_window b) (Store.so_tables r)
                      (ls_events st ++ [Published (Store.so_published r)]))
  end.

Definition loop_batch (se : Batch.setting) (opts : Assign.scanner_options) (f : fetched) (st : loop_state) : outcome * loop_state :=
  let '(r, e) := Batch.scan_batch start_read se (ls_window st) f (ls_users st) (Env None (ls_db st) tt) in
  let st := LoopState (ls_users st) (ls_start_height st) (ls_window st) (e_db e) (ls_events st) in
  match r with
  | Err e => (Leave (Err e), st)
  | Ok None => (Leave (Ok false), st)
  | Ok (Some b) => loop_store opts b st
  end.

Definition loop_fetched (se : Batch.setting) (opts : Assign.scanner_options) (tu : turn) (f : fetched) (st : loop_state)
    : outcome * loop_state :=
  let st := with_start_height (u64 (ft_start_height f + Z.of_nat (length (ft_blocks f)) - 1)) st in
  if (length (ft_blocks f) <=? 1)%nat then loop_wait se opts tu st
  else send_request (ls_start_height st) (tu_sent tu) st (loop_batch se opts f).

Definition loop_turn (se : Batch.setting) (opts : Assign.scanner_options) (tu : turn) (st : loop_state) : outcome * loop_state :=
  if tu_stop tu then (Leave (Ok false), st)
  else
    match tu_reply tu with
    | TimedOut | Interrupted => (Leave (Ok false), st)
    | Failed e => (Leave (Err e), st)
    | Unparsable => (Leave (Ok false), st)
    | Answer f =>
      if bool_decide (ft_blocks f = []) then (Leave (Err runtime_error), st)
      else if negb (ft_start_height f =? ls_start_height st) then (Leave (Ok false), st)
      else
        match take_accounts (tu_status tu) (ls_users st) with
        | NoWork => (Leave (Ok true), st)
        | Keep users => loop_fetched se opts tu f st
        | Resorted users =>
          let st := with_users users st in
          match head users with
          | Some oldest =>
            if Account.scan_height oldest <? ft_start_height f
            then let st := with_start_height (Account.scan_height oldest) st in
              send_request (ls_start_height st) (tu_sent tu) st (fun st => (Continue, st))
            else loop_fetched se opts tu f st
          | None => loop_fetched se opts tu f st
          end
        end
    end.

(** The start of [loop], and its turns until it leaves. *)
Definition loop_start (untrusted : bool) (disk : bool) (users : list Account.state) (sent : expect bool) (s : tables)
    : expect block_id * outcome * loop_state :=
  match std_sort Account.by_height users with
  | [] => (Ok 0, Leave (Ok true), LoopState [] 0 empty_window s [])
  | (first :: _) as users =>
    let st := LoopState users (Z.max 1 (Account.scan_height first)) empty_window s [] in
    let '(o, st) := send_request (ls_start_height st) sent st (fun st => (Continue, st)) in
    match o with
    | Continue =>
      match (if untrusted && disk then let* s := start_read s in let* b := Chain.get_last_pow_block s in Ok (bp_id b) else Ok 0) with
      | Err e => (Err e, Leave (Err e), st)
      | Ok last_pow => (Ok last_pow, Continue, st)
      end
    | _ => (Ok 0, o, st)
    end
  end.

Fixpoint loop_turns (se : Batch.setting) (opts : Assign.scanner_options) (turns : list turn) (st : loop_state) : outcome * loop_state :=
  match turns with
  | [] => (Waiting, st)
  | tu :: turns =>
    match loop_turn se opts tu st with
    | (Continue, st) => loop_turns se opts turns st
    | r => r
    end
  end.
Definition loop (disk : bool) (stop : block_id -> bool) (opts : Assign.scanner_options) (users : list Account.state)
    (sent : expect bool) (turns : list turn) (s : tables) : outcome * loop_state :=
  match loop_start (Assign.untrusted_daemon opts) disk users sent s with
  | (Ok last_pow, Continue, st) =>
    loop_turns (Batch.Setting disk (Assign.untrusted_daemon opts) (Assign.max_subaddresses opts) last_pow stop) opts turns st
  | (_, o, st) => (o, st)
  end.
End loop.
End Loop.

(** ** What the loop keeps *)
Module LoopSpec.
Import Ownership Batch BatchSpec Loop.

Section spec.
Context {CS : Consensus} {WC : WalletCrypto} {LM : Lmdb} {SC : SubaddressCrypto} (start_read : tables -> expect tables).
Context (points : checkpoints) (internal_pub : bool).

(** *** Waiting leaves the accounts alone *)
Lemma scan_pool_keeps disk time txes users : Keeps.yields (scan_pool start_read disk time txes users) (fun us => us = users).
Proof.
  revert users. induction txes as [|tx txes IH]; intros users; cbn; [by apply Keeps.yields_ret|].
  eapply (Keeps.yields_bind _ _ (fun us => us = users)); [|by intros us ->].
  intros e us e' H.
  pose proof (Keeps.scan_transaction_keeps start_read null_spend (send_webhook start_read disk) (fun u : Account.state => u)) as Hk.
  apply Hk in H; [by rewrite !list_fmap_id in H|done|]. intros user o r c. unfold send_webhook. by repeat case_match.
Qed.

Lemma scan_transactions_keeps max time parsed users s us s' n :
  scan_transactions start_read max time parsed users s = (Ok us, s', n) -> us = users.
Proof.
  unfold scan_transactions. destruct parsed as [txes|]; [|by intros [= <- _ _]]. destruct (time <? 0); [done|].
  cbv zeta. destruct (scan_pool _ _ _ _ _ _) as [r e] eqn:E. intros [= -> _ _]. by apply scan_pool_keeps in E.
Qed.

Lemma wait_round_keeps opts disk has users w r us disk' n :
  wait_round start_read opts disk has users w = (Ok (r, us), disk', n) -> us = users.
Proof.
  unfold wait_round. destruct w as [| | |time pool blocks]; try (by intros [= _ <- _ _]).
  destruct disk as [s|]; [|by intros [= _ <- _ _]].
  set (step := fun (st : expect (list Account.state) * option tables * list pool_notice) (txes : option (list transaction)) => _).
  assert (forall pool us0 st0 n0 us1 st1 n1, foldl step (us0, st0, n0) pool = (Ok us1, st1, n1) -> us0 = Ok us1) as Hfold.
  { clear. intros pool. induction pool as [|txes pool IH]; intros us0 st0 n0 us1 st1 n1 H; [by injection H|].
    cbn [foldl] in H. unfold step in H at 2. destruct us0 as [us0|err]; [|by apply IH in H].
    destruct st0 as [s|]; [|by apply IH in H].
    destruct (scan_transactions _ _ _ _ _ s) as [[r s'] more] eqn:E. apply IH in H. subst r.
    apply scan_transactions_keeps in E. by subst. }
  destruct (foldl step (Ok users, Some s, []) pool) as [[r0 st0] n0] eqn:E. destruct r0 as [us0|err]; [|done].
  apply Hfold in E as [= <-]. by intros [= _ <- _ _].
Qed.

Lemma wait_for_block_keeps opts disk users waits go us disk' n :
  wait_for_block start_read opts disk users waits = Some (Ok (go, us), disk', n) -> us = users.
Proof.
  revert disk users go us disk' n. induction waits as [|[has w] waits IH]; intros disk users go us disk' n H; [done|]. cbn in H.
  destruct (wait_round _ _ _ _ _ _) as [[[[r us0]|err] d0] n0] eqn:E; [|done]. apply wait_round_keeps in E as ->.
  destruct r; [by injection H as _ <- _ _|by injection H as _ <- _ _|].
  destruct (wait_for_block _ _ _ _ waits) as [[[r d] n1]|] eqn:E; [|done]. injection H as -> _ _. by eapply IH.
Qed.

(** *** The next request starts at the lowest account *)
Definition ordered (users : list Account.state) : Prop := StronglySorted Z.le (Account.scan_height <$> users).

Record aligned (st : loop_state) : Prop := {
  al_ordered : ordered (ls_users st);
  al_known : Forall (fun u => 0 <= Account.scan_height u) (ls_users st);
  al_start : exists first rest, ls_users st = first :: rest /\
    (ls_start_height st = Account.scan_height first \/ (Account.scan_height first = 0 /\ ls_start_height st = 1))
}.

Lemma ordered_sort users : ordered (std_sort Account.by_height users).
Proof.
  unfold ordered. assert (sorted_by Account.by_height (std_sort Account.by_height users)) as H.
  { apply weak_sort_sorted. apply (weak_on Account.scan_height Z.ltb). apply _. }
  induction H as [|u us _ IH Hu]; cbn; constructor; [done|]. rewrite Forall_forall in Hu. rewrite Forall_forall.
  intros ? (v & -> & Hv)%list_elem_of_fmap. specialize (Hu _ Hv). unfold Account.by_height in Hu. lia.
Qed.

Lemma ordered_max users k : ordered users -> StronglySorted Z.le ((fun u => Z.max (Account.scan_height u) k) <$> users).
Proof.
  unfold ordered. induction users as [|u us IH]; cbn; [constructor|]. intros H. apply StronglySorted_inv in H as [Hs Hu].
  constructor; [by apply IH|]. rewrite Forall_forall in Hu. rewrite Forall_forall. intros ? (v & -> & Hv)%list_elem_of_fmap.
  pose proof (Hu _ (list_elem_of_fmap_2 Account.scan_height _ _ Hv)) as Hle. cbn in *. lia.
Qed.

Lemma ordered_first first rest u : ordered (first :: rest) -> u ∈ first :: rest -> Account.scan_height first <= Account.scan_height u.
Proof.
  intros H [->|Hu]%elem_of_cons; [lia|]. apply StronglySorted_inv in H as [_ H]. rewrite Forall_forall in H. by apply H, (list_elem_of_fmap_2 Account.scan_height).
Qed.

(** The accounts after [take_accounts] without a replacement. *)
Lemma taken_aligned st status f :
  aligned st -> Queue.st_replace status = None -> Forall (fun u => 0 <= Account.scan_height u) (Queue.st_push status) ->
  ft_start_height f = ls_start_height st ->
  (Queue.st_push status = [] /\ take_accounts status (ls_users st) = Keep (ls_users st)) \/
  exists first rest, take_accounts status (ls_users st) = Resorted (first :: rest) /\
    first :: rest ≡ₚ ls_users st ++ Queue.st_push status /\ ordered (first :: rest) /\
    Forall (fun u => 0 <= Account.scan_height u) (first :: rest) /\
    (Account.scan_height first < ft_start_height f \/ Account.scan_height first = ft_start_height f).
Proof.
  intros [Ho Hk (a & us & Eu & Hs)] Hr Hp Hf. unfold take_accounts. rewrite Hr. destruct (Queue.st_push status) as [|p ps] eqn:Ep; [by left|right].
  unfold Queue.take_status. rewrite Hr, Ep. cbn [default from_option id].
  pose proof (ordered_sort (ls_users st ++ p :: ps)) as Hso.
  assert (std_sort Account.by_height (ls_users st ++ p :: ps) ≡ₚ ls_users st ++ p :: ps) as Hpe by apply merge_sort_Permutation.
  change (default (ls_users st) None) with (ls_users st).
  destruct (std_sort Account.by_height (ls_users st ++ p :: ps)) as [|first rest]; [by apply Permutation_nil in Hpe; destruct (ls_users st)|].
  assert (Forall (fun u => 0 <= Account.scan_height u) (first :: rest)) as Hall by (rewrite Hpe; by apply Forall_app).
  exists first, rest. split_and!; [done|done|done|done|].
  assert (Account.scan_height first <= Account.scan_height a) as Hle.
  { apply (ordered_first first rest); [done|]. rewrite Hpe, Eu. left. }
  apply Forall_inv in Hall. rewrite Hf. destruct Hs as [->|[? ->]]; lia.
Qed.

(** From [users] to [users']: every account is moved to [last] unless it is past
    it, and the transactions of every block it is moved over were tested. *)
Definition marks_tested (se : setting) (s : tables) (f : fetched) (users users' : list Account.state) : Prop :=
  exists last calls us e1,
    Account.scan_height <$> users' = (fun u => Z.max (Account.scan_height u) last) <$> users /\
    run_calls start_read calls users (with_subaddresses start_read se (Env None s tt)) = (Ok us, e1) /\
    forall u h, u ∈ users -> Account.scan_height u < h <= last ->
      exists d, d ∈ scanned f /\ forall c, c ∈ calls_of_block h d -> c ∈ calls.

Lemma marks_nothing se s f users : Forall (fun u => 0 <= Account.scan_height u) users -> marks_tested se s f users users.
Proof.
  intros Hk. exists 0, [], users, (with_subaddresses start_read se (Env None s tt)). split_and!; [|done|].
  - apply Forall_fmap_ext_1. eapply Forall_impl; [exact Hk|]. intros u Hu. cbn in Hu. lia.
  - intros u h Hu Hh. rewrite Forall_forall in Hk. specialize (Hk u Hu). cbn in Hk. lia.
Qed.

Definition store : list hash -> list Account.state -> list pow_sync -> bool -> tables -> expect Store.stored :=
  Store.store points internal_pub.

Lemma send_continues start sent st next st' :
  send_request start sent st next = (Continue, st') ->
  next (LoopState (ls_users st) (ls_start_height st) (ls_window st) (ls_db st) (ls_events st ++ [Requested start])) = (Continue, st').
Proof. unfold send_request. by destruct sent as [[|]|]. Qed.

Lemma wait_continues se opts tu st st' :
  loop_wait start_read se opts tu st = (Continue, st') -> ls_users st' = ls_users st /\ ls_start_height st' = ls_start_height st.
Proof.
  unfold loop_wait. destruct (wait_for_block _ _ _ _ _) as [[[[[[|] us]|err] d] n]|] eqn:E; try done.
  apply wait_for_block_keeps in E as ->. intros H. apply send_continues in H. by injection H as <-.
Qed.

Lemma store_continues opts b st st' :
  loop_store store opts b st = (Continue, st') ->
  exists r, store (b_chain b) (b_users b) (b_new_pow b) (Assign.regtest opts) (ls_db st) = Ok r /\ Store.so_ok r = true /\
    ls_users st' = Store.so_users r /\ ls_start_height st' = ls_start_height st.
Proof.
  unfold loop_store. destruct (store _ _ _ _ _) as [r|] eqn:E; [|done]. destruct (Store.so_ok r) eqn:Eo; [|done].
  intros [= <-]. by exists r.
Qed.

Lemma batch_continues se opts f st st' :
  loop_batch start_read store se opts f st = (Continue, st') ->
  exists b e2 r, scan_batch start_read se (ls_window st) f (ls_users st) (Env None (ls_db st) tt) = (Ok (Some b), e2) /\
    store (b_chain b) (b_users b) (b_new_pow b) (Assign.regtest opts) (e_db e2) = Ok r /\ Store.so_ok r = true /\
    ls_users st' = Store.so_users r /\ ls_start_height st' = ls_start_height st.
Proof.
  unfold loop_batch. destruct (scan_batch _ _ _ _ _ _) as [[[b|]|err] e2] eqn:E; try done.
  intros H. apply store_continues in H as (r & H1 & H2 & H3 & H4). by exists b, e2, r.
Qed.

(** The heights after a batch, all at the last block or above, and the request
    that goes with them. *)
Lemma advance_aligned users (st : loop_state) first last :
  ordered users -> head users = Some first -> Account.scan_height first <= last -> 0 <= last ->
  Account.scan_height <$> ls_users st = (fun u => Z.max (Account.scan_height u) last) <$> users ->
  ls_start_height st = last -> aligned st.
Proof.
  intros Ho Hh Hle H0 Hm Hs. destruct users as [|x rest]; [done|]. injection Hh as ->. cbn in Hm.
  assert (Forall (fun z => 0 <= z) (Account.scan_height <$> ls_users st)) as Hall.
  { rewrite Hm. constructor; [lia|]. rewrite Forall_forall. intros ? (u & -> & _)%list_elem_of_fmap. lia. }
  split.
  - unfold ordered. rewrite Hm. by apply (ordered_max (first :: rest)).
  - rewrite Forall_forall in Hall. rewrite Forall_forall. intros u Hu. by apply Hall, (list_elem_of_fmap_2 Account.scan_height).
  - destruct (ls_users st) as [|a us]; [done|]. exists a, us. split; [done|]. left. injection Hm as Ha _. lia.
Qed.

Lemma fetched_aligned se opts tu f st st' first rest :
  trusted se -> 0 <= ft_start_height f -> ft_start_height f + Z.of_nat (length (ft_blocks f)) < u64_max ->
  ft_blocks f <> [] -> ls_users st = first :: rest -> ordered (ls_users st) ->
  Forall (fun u => 0 <= Account.scan_height u) (ls_users st) -> Account.scan_height first <> 1 ->
  (ft_start_height f = Account.scan_height first \/ (Account.scan_height first = 0 /\ ft_start_height f = 1)) ->
  loop_fetched start_read store se opts tu f st = (Continue, st') ->
  aligned st' /\ marks_tested se (ls_db st) f (ls_users st) (ls_users st').
Proof.
  intros Ht H0 Hmax Hne Hu Ho Hk Hone Hstart H. unfold loop_fetched in H. cbn [with_start_height ls_start_height] in H.
  assert (0 < length (ft_blocks f))%nat as Hpos by (destruct (ft_blocks f); [done|cbn; lia]).
  rewrite u64_small in H by (unfold in_u64; lia).
  destruct (length (ft_blocks f) <=? 1)%nat eqn:El.
  - apply wait_continues in H as [Hus Hst]. cbn in Hus, Hst. rewrite Hus. split; [|by apply marks_nothing].
    apply Nat.leb_le in El. split; [by rewrite Hus|by rewrite Hus|]. exists first, rest. rewrite Hus, Hst. split; [done|].
    replace (ft_start_height f + Z.of_nat (length (ft_blocks f)) - 1) with (ft_start_height f) by lia. exact Hstart.
  - apply send_continues, batch_continues in H as (b & e2 & r & Hb & Hs & Hok & Hus & Hst). cbn in Hb, Hs, Hst.
    assert (Account.scan_height first = initial f) as Hfirst by (unfold initial; destruct (Z.eqb_spec (ft_start_height f) 1); lia).
    pose proof Hb as Hcalls. apply scan_batch_calls in Hcalls as (fr & rs & Hbl & Hlen & _ & us & e1 & _ & _ & Hb'); [|done..|lia].
    assert (b_height b = ft_start_height f + Z.of_nat (length (ft_blocks f)) - 1) as Hheight.
    { rewrite Hb'. cbn [b_height]. unfold scanned, initial. rewrite length_drop, length_zip_with.
      destruct (Z.eqb_spec (ft_start_height f) 1); lia. }
    rewrite Hu in Hb. destruct (stored_was_scanned start_read se (ls_window st) f first rest _ b e2 points internal_pub _ _ r Ht H0 Hmax Hfirst Hb Hs Hok)
      as (Hh & calls & e3 & Hr & Hall).
    rewrite <- Hus in Hh. rewrite Hheight in *. split.
    + apply (advance_aligned (first :: rest) st' first (ft_start_height f + Z.of_nat (length (ft_blocks f)) - 1));
        [by rewrite <- Hu|done| |lia|exact Hh|exact Hst].
      rewrite Hfirst. unfold initial. destruct (Z.eqb_spec (ft_start_height f) 1); lia.
    + exists (ft_start_height f + Z.of_nat (length (ft_blocks f)) - 1), calls, (b_users b), e3. rewrite Hu. split_and!; [exact Hh|exact Hr|].
      intros u h Hin Hrange. apply Hall. pose proof (ordered_first first rest u ltac:(by rewrite <- Hu) Hin). lia.
Qed.

(** C3: With a trusted daemon the loop never passes over a block in a turn that
    replaces no accounts and has none at height 1 (whose block would be taken for
    the genesis block), with heights below the end of their type. While the next
    request starts at the lowest account, which is kept by every such turn that goes
    on, the accounts of the thread and those pushed to it are only moved over blocks
    of the answer whose transactions were all tested against every one of them. *)
Theorem turn_marks_tested se opts tu st st' f :
  trusted se -> aligned st -> tu_reply tu = Answer f -> 0 <= ft_start_height f ->
  ft_start_height f + Z.of_nat (length (ft_blocks f)) < u64_max ->
  Queue.st_replace (tu_status tu) = None ->
  Forall (fun u => 0 <= Account.scan_height u) (Queue.st_push (tu_status tu)) ->
  (forall u, u ∈ ls_users st ++ Queue.st_push (tu_status tu) -> Account.scan_height u <> 1) ->
  loop_turn start_read store se opts tu st = (Continue, st') ->
  aligned st' /\ exists users, users ≡ₚ ls_users st ++ Queue.st_push (tu_status tu) /\
    marks_tested se (ls_db st) f users (ls_users st').
Proof.
  intros Ht Ha Hf H0 Hmax Hr Hp Hone H. unfold loop_turn in H. destruct (tu_stop tu); [done|]. rewrite Hf in H.
  destruct (bool_decide _) eqn:Eb; [done|]. apply bool_decide_eq_false in Eb.
  destruct (Z.eqb_spec (ft_start_height f) (ls_start_height st)) as [Es|]; [|done]. cbn [negb] in H.
  destruct (taken_aligned st (tu_status tu) f Ha Hr Hp Es) as [[Hnil Htake]|(first & rest & Htake & Hperm & Ho & Hk & Hle)]; rewrite Htake in H.
  - destruct Ha as [Ho Hk (first & rest & Hu & Hs)]. rewrite Hnil, app_nil_r in *.
    destruct (fetched_aligned se opts tu f st st' first rest) as [Ha' Hm]; try done.
    + apply Hone. rewrite Hu. left.
    + by rewrite Es.
    + split; [done|]. by exists (ls_users st).
  - cbn [head with_users ls_users ls_start_height ls_window ls_db ls_events with_start_height] in H.
    assert (Account.scan_height first <> 1) as Hone' by (apply Hone; rewrite <- Hperm; left).
    destruct (Z.ltb_spec (Account.scan_height first) (ft_start_height f)) as [Hlt|Hge].
    + apply send_continues in H. injection H as <-. cbn. split; [|exists (first :: rest); split; [done|by apply marks_nothing]].
      split; [done|done|]. exists first, rest. split; [done|]. by left.
    + destruct (fetched_aligned se opts tu f (with_users (first :: rest) st) st' first rest) as [Ha' Hm]; try done.
      * left. lia.
      * split; [done|]. by exists (first :: rest).
Qed.

(** An account at height zero that is pushed to a thread past it makes the
    thread request the blocks from zero, which daemons take as a request by block
    ids; the request that starts the loop is never below one. *)
Theorem pushed_account_requests_zero se opts tu st f u first rest :
  tu_stop tu = false -> tu_reply tu = Answer f -> ft_blocks f <> [] -> ft_start_height f = ls_start_height st -> 0 < ft_start_height f ->
  tu_sent tu = Ok true -> Queue.st_replace (tu_status tu) = None -> u ∈ Queue.st_push (tu_status tu) ->
  std_sort Account.by_height (ls_users st ++ Queue.st_push (tu_status tu)) = first :: rest -> Account.scan_height first = 0 ->
  exists st', loop_turn start_read store se opts tu st = (Continue, st') /\ last (ls_events st') = Some (Requested 0).
Proof.
  intros Hstop Hf Hb Hs Hpos Hsent Hr Hu Hsort Hfirst. unfold loop_turn. rewrite Hstop, Hf, Hs, Z.eqb_refl, bool_decide_false by done. cbn [negb].
  unfold take_accounts, Queue.take_status. rewrite Hr. destruct (Queue.st_push (tu_status tu)) as [|p ps]; [by apply elem_of_nil in Hu|].
  change (default (ls_users st) None) with (ls_users st). rewrite Hsort. cbn [head with_users]. rewrite Hfirst.
  rewrite (proj2 (Z.ltb_lt _ _)) by lia. unfold send_request. rewrite Hsent. eexists. split; [done|]. cbn. by rewrite last_snoc.
Qed.
End spec.
End LoopSpec.

(** ** A thread with one account, and a daemon that sends the next block *)
Module ScannerSample.
Import Reference Batch BatchSpec Loop LoopSpec.

#[local] Existing Instance SubaddressSample.crypto.
#[local] Existing Instance OwnershipTest.OwnershipSample.wallet_crypto.
#[local] Existing Instance Sync.SyncSample.consensus.

Definition start_read (s : tables) : expect tables := Ok s.
Definition se : setting := Setting true false 10 0 (fun _ => false).
Definition opts : Assign.scanner_options := Assign.ScannerOptions (SpecFloat.S754_zero false) 0 1 10 false false false false.

(** Block 104 has a transaction that pays the account. *)
Definition user : Account.state := get_full_account UpdateSample.no_string AccountsSample.user AccountsSample.db.
Definition block_103 : fetched_block := FetchedBlock (SyncSample.made 12 103 102) [].
Definition block_104 : fetched_block :=
  FetchedBlock (Block 12 104 103 (Transaction 1 0 [] [] [] 0 [] []) [4000]) [OwnershipSample.tx].
Definition answer : fetched := Fetched 3 [block_103; block_104] [[[7]]; [[8]; [70; 71; 72]]].
Definition env0 : Ownership.env (S:=unit) := Ownership.Env None AccountsSample.db tt.

Definition scan (f : fetched) (users : list Account.state) : expect (option batch) * Ownership.env :=
  scan_batch start_read se empty_window f users env0.
Definition scanned_batch (f : fetched) (users : list Account.state) : batch :=
  match (scan f users).1 with Ok (Some b) => b | _ => MkBatch [] 0 [] [] empty_window end.

Lemma batch_scans_all_witness :
  length (concat (Account.outputs_ <$> b_users (scanned_batch answer [user]))) = 1%nat /\
  exists front rest, ft_blocks answer = front :: rest /\ length (ft_blocks answer) = length (ft_output_indices answer) /\
    forallb complete (scanned answer) = true /\
    exists users' e1, run_calls start_read (calls_of (initial answer) (scanned answer)) [user] (with_subaddresses start_read se env0) = (Ok users', e1) /\
      (scan answer [user]).2 = Ownership.disable_subaddresses e1 /\
      scanned_batch answer [user] = MkBatch users' (initial answer + Z.of_nat (length (scanned answer)))
              (default 0 (Sync.get_block_hash (fb_block front)) :: (hash_of <$> scanned answer)) [] empty_window.
Proof.
  split; [vm_compute; reflexivity|].
  apply (batch_scans_all start_read se empty_window answer [user] env0 (scanned_batch answer [user]) (scan answer [user]).2).
  - reflexivity.
  - cbn. lia.
  - unfold u64_max. cbn. lia.
  - vm_compute. reflexivity.
Defined.

(** A turn of the loop that stores block 104. *)
Definition state : loop_state := LoopState [user] 3 empty_window AccountsSample.db [].
Definition turn_104 : turn := Turn false (Answer answer) (Queue.Status None [] 1) [] (Ok true).
Definition next : outcome * loop_state := loop_turn start_read (store ChainSample.points true) se opts turn_104 state.
Lemma next_heights : next.1 = Continue /\ Account.scan_height <$> ls_users next.2 = [4] /\ ls_start_height next.2 = 4.
Proof. vm_compute. done. Qed.

Lemma state_aligned : aligned state.
Proof.
  split.
  - repeat constructor.
  - constructor; [vm_compute; discriminate|constructor].
  - exists user, []. split; [reflexivity|]. left. vm_compute. reflexivity.
Qed.

Lemma turn_marks_tested_witness :
  aligned next.2 /\ exists users, users ≡ₚ [user] ++ [] /\ marks_tested start_read se AccountsSample.db answer users (ls_users next.2).
Proof.
  apply (turn_marks_tested start_read ChainSample.points true se opts turn_104 state next.2 answer).
  - reflexivity.
  - exact state_aligned.
  - reflexivity.
  - cbn. lia.
  - unfold u64_max. cbn. lia.
  - reflexivity.
  - constructor.
  - intros u Hu. change (u ∈ [user]) in Hu. apply list_elem_of_singleton in Hu as ->. vm_compute. discriminate.
  - rewrite (surjective_pairing next) at 1. vm_compute. reflexivity.
Defined.

(** An account at height one, and the blocks from there. *)
Definition low : Account.state := Account.State (Account.immutable_ user) [] [] [] [] 1.
Definition early : fetched :=
  Fetched 1 [FetchedBlock (SyncSample.made 12 101 100) []; FetchedBlock (SyncSample.made 12 102 101) []] [[[7]]; [[8]]].
Definition refused : Store.stored :=
  match Store.store ChainSample.points true (b_chain (scanned_batch early [low])) [low] [] false AccountsSample.db with
  | Ok r => r
  | Err _ => Store.Stored true [] Store.nothing AccountsSample.db
  end.

Lemma height_one_never_stored_witness : Store.so_ok refused = false.
Proof.
  apply (height_one_never_stored start_read se empty_window early low [] env0 (scanned_batch early [low]) (scan early [low]).2
    ChainSample.points true AccountsSample.db (BlockInfo 3 103) [low] [] refused).
  - reflexivity.
  - reflexivity.
  - unfold u64_max. cbn. lia.
  - vm_compute. reflexivity.
  - vm_compute. reflexivity.
  - cbn. lia.
  - intros [|[|i]] d Hd; cbn in Hd; simplify_eq.
    + exists 102. split; [vm_compute; reflexivity|]. vm_compute. discriminate.
    + exists 103. split; [vm_compute; reflexivity|]. vm_compute. discriminate.
  - reflexivity.
  - vm_compute. reflexivity.
Defined.

(** The thread is at block 3 when an account at height zero is pushed to it. *)
Definition young : Account.state := Account.State (Account.immutable_ user) [] [] [] [] 0.
Definition pushed : turn := Turn false (Answer answer) (Queue.Status None [young] 2) [] (Ok true).

Lemma pushed_account_requests_zero_witness :
  exists st', loop_turn start_read (store ChainSample.points true) se opts pushed state = (Continue, st') /\ last (ls_events st') = Some (Requested 0).
Proof.
  apply (pushed_account_requests_zero start_read ChainSample.points true se opts pushed state answer young young [user]); try reflexivity.
  - discriminate.
  - left.
Defined.
End ScannerSample.
