(* ===== verification/Transactions.v ===== *)
(** What a wallet is shown of its transactions (src/rpc/light_wallet.cpp):
    [merge_into_txes] walks the received outputs and the spends of an account
    side by side and groups them by transaction, then adds what the pool holds.
    The two [load] functions of [get_address_txs_response] feed it from the
    database and from a batch that was just scanned. *)

From stdpp Require Import gmap.
From S2P Require Import Prelude Data Account Lmdb Tables Chain Subaddress Accounts Update OwnershipTest Mempool.
Import Pool.

(** ** The response's records *)

Record transaction_spend := TransactionSpend { ts_meta : spend_meta; ts_possible_spend : spend }.

Record get_transaction := GetTransaction {
  gt_info : output;
  gt_receives : list output;
  gt_spends : list transaction_spend;
  gt_spent : Z
}.

Definition empty_meta : spend_meta := SpendMeta (OutputId 0 0) 0 0 0 0.
Definition empty_output : output :=
  Output (TransactionLink 0 0) empty_meta 0 0 0 0 0 0 0 0 address_index_primary.

Definition tx_link (tx : get_transaction) : transaction_link := out_link (gt_info tx).
Definition tx_amount (tx : get_transaction) : Z := sme_amount (out_spend_meta (gt_info tx)).

Definition with_amount (amount : Z) (o : output) : output :=
  Output (out_link o)
    (SpendMeta (sme_id (out_spend_meta o)) amount (sme_mixin_count (out_spend_meta o)) (sme_index (out_spend_meta o)) (sme_tx_public (out_spend_meta o)))
    (out_timestamp o) (out_unlock_time o) (out_tx_prefix_hash o) (out_pub o) (out_ringct_mask o) (out_extra o) (out_payment_id o) (out_fee o)
    (out_recipient o).

(** The info of a transaction that only spends. *)
Definition spend_info (link : transaction_link) (amount mixin_count timestamp unlock_time : Z) : output :=
  Output link (SpendMeta (OutputId 0 0) amount mixin_count 0 0) timestamp unlock_time 0 0 0 0 0 0 address_index_primary.

(** ** Spend metadata, sorted by output id *)

Definition find_metadata (metas : list spend_meta) (id : output_id) : nat :=
  lower_bound (fun m => output_id_lt (sme_id m) id) metas.
Definition found_meta (metas : list spend_meta) (id : output_id) : option spend_meta :=
  match metas !! find_metadata metas id with
  | Some m => if output_id_eqb (sme_id m) id then Some m else None
  | None => None
  end.
Definition add_meta (meta : spend_meta) (metas : list spend_meta) : list spend_meta :=
  match last metas with
  | None => metas ++ [meta]
  | Some back =>
    if output_id_lt (sme_id back) (sme_id meta) then metas ++ [meta]
    else insert_at (find_metadata metas (sme_id meta)) meta metas
  end.

(** ** [merge_into_txes] *)

Record merge_state := MergeState {
  ms_output : list output;
  ms_spend : list spend;
  ms_out : list get_transaction;
  ms_total : Z;
  ms_metas : list spend_meta;
  ms_receives : list (output_id * address_index);
  ms_txes_processed : list hash
}.

(** [out.back()] *)
Definition on_back {A} (f : A -> A) (l : list A) : list A :=
  match last l with Some x => removelast l ++ [f x] | None => l end.

Definition same_tx (h : hash) (out : list get_transaction) : bool :=
  match last out with Some tx => tl_tx_hash (tx_link tx) =? h | None => false end.

(** [LWS_VERIFY]: the last transaction is not after what comes next. *)
Definition in_order (st : merge_state) : bool :=
  match last (ms_out st) with
  | None => true
  | Some tx =>
    match ms_output st with [] => true | o :: _ => transaction_link_le (tx_link tx) (out_link o) end &&
    match ms_spend st with [] => true | s :: _ => transaction_link_le (tx_link tx) (sp_link s) end
  end.

Definition push_receive (o : output) (tx : get_transaction) : get_transaction :=
  GetTransaction (gt_info tx) (gt_receives tx ++ [o]) (gt_spends tx) (gt_spent tx).
Definition add_amount (amount : Z) (tx : get_transaction) : get_transaction :=
  GetTransaction (with_amount (u64 (tx_amount tx + amount)) (gt_info tx)) (gt_receives tx) (gt_spends tx) (gt_spent tx).
Definition push_spend (meta : spend_meta) (s : spend) (tx : get_transaction) : get_transaction :=
  GetTransaction (gt_info tx) (gt_receives tx) (gt_spends tx ++ [TransactionSpend meta s]) (gt_spent tx).
Definition add_spent (amount : Z) (tx : get_transaction) : get_transaction :=
  GetTransaction (gt_info tx) (gt_receives tx) (gt_spends tx) (u64 (gt_spent tx + amount)).

Section merge.
Context (has_pool all_outputs skip_spend_meta : bool).

Definition merge_output (o : output) (rest : list output) (st : merge_state) : merge_state :=
  let meta := out_spend_meta o in
  let amount := sme_amount meta in
  let h := tl_tx_hash (out_link o) in
  let old := same_tx h (ms_out st) in
  let out := if old then on_back (add_amount amount) (ms_out st) else ms_out st ++ [GetTransaction o [] [] 0] in
  let processed := if has_pool && negb old then ms_txes_processed st ++ [h] else ms_txes_processed st in
  let receives := if has_pool then ms_receives st ++ [(sme_id meta, out_recipient o)] else ms_receives st in
  let out := if all_outputs then on_back (push_receive o) out else out in
  MergeState rest (ms_spend st) out (u64 (ms_total st + amount)) (add_meta meta (ms_metas st)) receives processed.

Definition merge_spend (s : spend) (rest : list spend) (st : merge_state) : expect merge_state :=
  let meta := found_meta (ms_metas st) (sp_source s) in
  if negb (skip_spend_meta || is_some_b meta) then Err kInvalidArgument
  else
    let m := if skip_spend_meta then empty_meta else default empty_meta meta in
    let h := tl_tx_hash (sp_link s) in
    let old := same_tx h (ms_out st) in
    let out :=
      if old then on_back (push_spend m s) (ms_out st)
      else ms_out st ++ [GetTransaction (spend_info (sp_link s) 0 (sp_mixin_count s) (sp_timestamp s) (sp_unlock_time s)) []
                           [TransactionSpend m s] 0] in
    let processed := if has_pool && negb old then ms_txes_processed st ++ [h] else ms_txes_processed st in
    let out := if skip_spend_meta then out else on_back (add_spent (sme_amount m)) out in
    Ok (MergeState (ms_output st) rest out (ms_total st) (ms_metas st) (ms_receives st) processed).

Definition merge_step (st : merge_state) : expect merge_state :=
  if negb (in_order st) then Err kInvalidArgument
  else
    match ms_output st, ms_spend st with
    | o :: outs, [] => Ok (merge_output o outs st)
    | o :: outs, s :: spends =>
      if transaction_link_le (out_link o) (sp_link s) then Ok (merge_output o outs st) else merge_spend s spends st
    | [], s :: spends => merge_spend s spends st
    | [], [] => Ok st
    end.

(** Every round takes one output or one spend. *)
Fixpoint merge_rounds (n : nat) (st : merge_state) : expect merge_state :=
  match n with
  | O => Ok st
  | S n => let* st := merge_step st in merge_rounds n st
  end.

Definition merge_stored (output : list output) (spend : list spend) : expect merge_state :=
  merge_rounds (length output + length spend) (MergeState output spend [] 0 [] [] []).
End merge.

(** *** Transactions of the pool *)

(** The loop over the spends stops at the first one of an unknown output. *)
Fixpoint pool_spends (metas : list spend_meta) (spends : list spend) (tx : get_transaction) : get_transaction * bool :=
  match spends with
  | [] => (tx, false)
  | s :: spends =>
    match found_meta metas (sp_source s) with
    | None => (tx, true)
    | Some meta => pool_spends metas spends (add_spent (sme_amount meta) (push_spend meta s tx))
    end
  end.

Definition add_amounts (outputs : list output) (total : Z) : Z :=
  foldl (fun total o => u64 (total + sme_amount (out_spend_meta o))) total outputs.

Definition with_info (info : output) (tx : get_transaction) : get_transaction :=
  GetTransaction info (gt_receives tx) (gt_spends tx) (gt_spent tx).

(** The transaction for a row of [scan_account]. *)
Definition pool_tx (metas : list spend_meta) (row : found_pool_tx) : get_transaction :=
  let '(tx, from_future) := pool_spends metas (fp_spends row) (GetTransaction empty_output [] [] 0) in
  let tx := foldl (fun tx o => push_receive o tx) tx (fp_outputs row) in
  let tx_total := add_amounts (fp_outputs row) 0 in
  let link := TransactionLink block_id_txpool (fp_hash row) in
  with_info
    (match fp_outputs row, fp_spends row with
     | o :: _, _ => with_amount tx_total o
     | [], s :: _ =>
       if from_future then spend_info link tx_total 0 0 0
       else spend_info link tx_total (sp_mixin_count s) (sp_timestamp s) (sp_unlock_time s)
     | [], [] => spend_info link tx_total 0 0 0
     end) tx.

Definition pool_row (st : merge_state) (row : found_pool_tx) : merge_state :=
  if bool_decide (fp_hash row ∈ ms_txes_processed st) then st
  else
    MergeState (ms_output st) (ms_spend st) (ms_out st ++ [pool_tx (ms_metas st) row]) (add_amounts (fp_outputs row) (ms_total st))
      (ms_metas st) (ms_receives st) (ms_txes_processed st).

Section load.
Context {WC : WalletCrypto} {LM : Lmdb} {SC : SubaddressCrypto}.
Context (iterate : pool_table -> list (hash * pool_entry)) (address_string : account_address -> list Z).

Definition merge_into_txes (output : list output) (spend : list spend) (user : option (account * tables)) (pool : option mempool)
    (all_outputs skip_spend_meta : bool) : expect (list get_transaction * Z * option mempool) :=
  match user, pool with
  | Some (user, reader), Some p =>
    let* st := merge_stored true all_outputs skip_spend_meta output spend in
    let full_user := Account.construct address_string user (ms_receives st) [] in
    let '(pool_txs, p) := Pool.scan_account iterate full_user reader p in
    let* pool_txs := pool_txs in
    let st := foldl pool_row st pool_txs in
    Ok (ms_out st, ms_total st, Some p)
  | _, _ =>
    let* st := merge_stored false all_outputs skip_spend_meta output spend in
    Ok (ms_out st, ms_total st, pool)
  end.

(** [load] of the outputs and spends of an update. *)
Definition load_update (outputs : list output) (spends : list spend) : expect (list get_transaction) :=
  let outputs := std_sort (fun l r => transaction_link_lt (out_link l) (out_link r)) outputs in
  let spends := std_sort (fun l r => transaction_link_lt (sp_link l) (sp_link r)) spends in
  let* r := merge_into_txes outputs spends None None true true in Ok r.1.1.

Record get_address_txs_response := GetAddressTxsResponse {
  at_total_received : Z;
  at_scanned_height : Z;
  at_start_height : Z;
  at_blockchain_height : Z;
  at_lookahead_fail : Z;
  at_transactions : list get_transaction;
  at_lookahead : address_index;
  at_user_key : option secret_key
}.

Definition get_spends (id : account_id) (s : tables) : list spend := dups (d:=spends) (t_spends s) id.

Definition load (reader : tables) (acct : account) (pool : option mempool) (all_outputs : bool)
    : expect (get_address_txs_response * option mempool) :=
  let* last_block := get_last_block reader in
  let* r := merge_into_txes (get_outputs (acc_id acct) reader) (get_spends (acc_id acct) reader) (Some (acct, reader)) pool all_outputs false in
  Ok (GetAddressTxsResponse r.1.2 (acc_scan_height acct) (acc_start_height acct) (bi_id last_block) (acc_lookahead_fail acct) r.1.1
        (acc_lookahead acct) None, r.2).
End load.

(** ** The reference: grouping by transaction *)
Section reference.
Context (all_outputs skip_spend_meta : bool) (outs : list output).

Definition out_id (o : output) : output_id := sme_id (out_spend_meta o).
Definition amounts (os : list output) : Z := foldr (fun o n => sme_amount (out_spend_meta o) + n) 0 os.

(** The metadata of the output a spend refers to. *)
Definition source_meta (id : output_id) : spend_meta :=
  if skip_spend_meta then empty_meta else default empty_meta (out_spend_meta <$> head (filter (fun o => out_id o = id) outs)).
Definition shown_spend (s : spend) : transaction_spend := TransactionSpend (source_meta (sp_source s)) s.
Definition spent_amounts (ss : list spend) : Z := foldr (fun s n => sme_amount (source_meta (sp_source s)) + n) 0 ss.

Definition group_info (os : list output) (ss : list spend) : output :=
  match os, ss with
  | o :: _, _ => with_amount (u64 (amounts os)) o
  | [], s :: _ => spend_info (sp_link s) 0 (sp_mixin_count s) (sp_timestamp s) (sp_unlock_time s)
  | [], [] => empty_output
  end.

(** The transaction at [l] with everything the account received and spent in it. *)
Definition grouped (os : list output) (ss : list spend) (l : transaction_link) : get_transaction :=
  let os := filter (fun o => out_link o = l) os in
  let ss := filter (fun s => sp_link s = l) ss in
  GetTransaction (group_info os ss) (if all_outputs then os else []) (shown_spend <$> ss) (u64 (spent_amounts ss)).
End reference.

Lemma link_le_lt l r : transaction_link_le l r = negb (transaction_link_lt r l).
Proof. unfold transaction_link_le, transaction_link_lt. destruct (Z.eqb_spec (tl_height r) (tl_height l)); lia. Qed.

Lemma on_back_snoc {A} (f : A -> A) l x : on_back f (l ++ [x]) = l ++ [f x].
Proof. unfold on_back. by rewrite last_snoc, removelast_last. Qed.

Lemma amounts_app l1 l2 : amounts (l1 ++ l2) = amounts l1 + amounts l2.
Proof. induction l1 as [|o l1 IH]; [done|]. cbn. unfold amounts in IH |- *. rewrite IH. lia. Qed.

Lemma spent_amounts_app skip outs l1 l2 : spent_amounts skip outs (l1 ++ l2) = spent_amounts skip outs l1 + spent_amounts skip outs l2.
Proof. induction l1 as [|s l1 IH]; [done|]. cbn. unfold spent_amounts in IH |- *. rewrite IH. lia. Qed.

Lemma filter_snoc_yes {A} (P : A -> Prop) `{!forall x, Decision (P x)} l x : P x -> filter P (l ++ [x]) = filter P l ++ [x].
Proof. intros Hx. by rewrite filter_app, filter_cons_True, filter_nil. Qed.
Lemma filter_snoc_no {A} (P : A -> Prop) `{!forall x, Decision (P x)} l x : ~ P x -> filter P (l ++ [x]) = filter P l.
Proof. intros Hx. by rewrite filter_app, filter_cons_False, filter_nil, app_nil_r. Qed.

Lemma with_amount_same o : with_amount (sme_amount (out_spend_meta o)) o = o.
Proof. by destruct o as [? [] ]. Qed.
Lemma with_amount_twice a b o : with_amount a (with_amount b o) = with_amount a o.
Proof. by destruct o. Qed.

(** *** The sorted metadata *)
Definition metas_sorted (metas : list spend_meta) : Prop := sorted_by (fun l r => output_id_lt (sme_id l) (sme_id r)) metas.

Lemma add_meta_perm m metas : add_meta m metas ≡ₚ m :: metas.
Proof.
  unfold add_meta. destruct (last metas); [|by rewrite Permutation_app_comm].
  destruct (output_id_lt _ _); [by rewrite Permutation_app_comm|apply insert_at_perm].
Qed.

Lemma sorted_snoc {A} (lt : A -> A -> bool) `{!WeakLt lt} l x :
  sorted_by lt l -> (forall y, last l = Some y -> lt x y = false) -> sorted_by lt (l ++ [x]).
Proof.
  induction 1 as [|z l Hl IH Hz]; intros Hlast; [repeat constructor|]. cbn. constructor.
  - apply IH. intros y Hy. apply Hlast. by destruct l.
  - apply Forall_app. split; [done|]. constructor; [|constructor]. destruct l as [|y l]; [by apply Hlast|].
    destruct (last (y :: l)) as [w|] eqn:E; [|by apply last_None in E].
    rewrite Forall_forall in Hz. eapply (wlt_false_trans (lt:=lt)); [apply Hlast; exact E|apply Hz].
    apply last_Some in E as [l' ->]. apply elem_of_app. right. by left.
Qed.

Lemma add_meta_sorted m metas : metas_sorted metas -> metas_sorted (add_meta m metas).
Proof.
  intros H. assert (WeakLt (fun l r : spend_meta => output_id_lt (sme_id l) (sme_id r))) as Hw by (apply (weak_on sme_id output_id_lt), _).
  unfold add_meta, metas_sorted. destruct (last metas) as [back|] eqn:E.
  - destruct (output_id_lt (sme_id back) (sme_id m)) eqn:Elt.
    + apply sorted_snoc; [done|done|]. rewrite E. intros y [= <-]. by apply (tlt_asym output_id_lt).
    + unfold find_metadata. induction H as [|z l Hl IH Hz]; [done|]. unfold insert_at. cbn.
      destruct (output_id_lt (sme_id z) (sme_id m)) eqn:Ez; cbn.
      * constructor.
        -- destruct l as [|w l]; [cbn in E; injection E as ->; congruence|]. apply IH. done.
        -- rewrite Forall_forall in Hz |- *. intros y Hy. fold (insert_at (lower_bound (fun m0 => output_id_lt (sme_id m0) (sme_id m)) l) m l) in Hy.
           apply insert_at_elem in Hy as [->|Hy]; [by apply (tlt_asym output_id_lt)|by apply Hz].
      * constructor; [by constructor|]. constructor; [done|]. rewrite Forall_forall in Hz |- *. intros y Hy.
        eapply (tlt_false_trans output_id_lt); [by apply Hz|exact Ez].
  - apply last_None in E as ->. cbn. repeat constructor.
Qed.

Lemma found_meta_unique metas m :
  metas_sorted metas -> NoDup (sme_id <$> metas) -> m ∈ metas -> found_meta metas (sme_id m) = Some m.
Proof.
  intros Hs Hnd Hm. unfold found_meta, find_metadata. induction Hs as [|z l Hl IH Hz]; [by apply elem_of_nil in Hm|].
  cbn [fmap list_fmap] in Hnd. apply NoDup_cons in Hnd as [Hz' Hnd]. cbn [lower_bound].
  destruct (output_id_lt (sme_id z) (sme_id m)) eqn:E.
  - apply elem_of_cons in Hm as [->|Hm]; [by rewrite tlt_irrefl in E|]. by apply IH.
  - cbn. apply elem_of_cons in Hm as [->|Hm]; [by rewrite (proj2 (output_id_eqb_eq _ _) eq_refl)|].
    rewrite Forall_forall in Hz. pose proof (Hz m Hm) as Hle. cbn in Hle.
    destruct Hz'. rewrite (tlt_total (lt:=output_id_lt) (sme_id z) (sme_id m) E Hle). by apply list_elem_of_fmap_2.
Qed.

Lemma source_meta_unique outs o :
  NoDup (out_id <$> outs) -> o ∈ outs -> source_meta false outs (out_id o) = out_spend_meta o.
Proof.
  intros Hnd Ho. unfold source_meta. destruct (filter (fun o0 => out_id o0 = out_id o) outs) as [|o1 os] eqn:E.
  - assert (o ∈ filter (fun o0 => out_id o0 = out_id o) outs) as Hf by by apply list_elem_of_filter. rewrite E in Hf. by apply elem_of_nil in Hf.
  - cbn. f_equal. assert (o1 ∈ filter (fun o0 => out_id o0 = out_id o) outs) as Hf by (rewrite E; left). apply list_elem_of_filter in Hf as [E1 H1].
    apply list_elem_of_lookup in Ho as [i Hi], H1 as [j Hj].
    assert (i = j) as <-; [|congruence]. apply (NoDup_lookup (out_id <$> outs) i j (out_id o) Hnd); rewrite list_lookup_fmap; [by rewrite Hi|by rewrite Hj; cbn; rewrite E1].
Qed.

(** ** Merging is grouping *)
Section spec.
Context (has_pool all_outputs skip_spend_meta : bool) (outs : list output) (spds : list spend).

Definition by_link (l r : transaction_link) : Prop := transaction_link_lt l r = true.

(** A list of outputs and spends as the database holds it: in order, every
    transaction in one block, every output once with a 64-bit amount, and every
    spend of an output that comes before it. *)
Record mergeable : Prop := {
  me_outs : sorted_by (fun l r => transaction_link_lt (out_link l) (out_link r)) outs;
  me_spends : sorted_by (fun l r => transaction_link_lt (sp_link l) (sp_link r)) spds;
  me_block l r : l ∈ (out_link <$> outs) ++ (sp_link <$> spds) -> r ∈ (out_link <$> outs) ++ (sp_link <$> spds) ->
    tl_tx_hash l = tl_tx_hash r -> l = r;
  me_amounts o : o ∈ outs -> in_u64 (sme_amount (out_spend_meta o));
  me_ids : NoDup (out_id <$> outs);
  me_sources s : s ∈ spds -> skip_spend_meta = true \/
    exists o, o ∈ outs /\ out_id o = sp_source s /\ transaction_link_lt (sp_link s) (out_link o) = false
}.
Context (Hm : mergeable).

Let group := grouped all_outputs skip_spend_meta outs.

(** The state after the outputs [od] and the spends [sd]. *)
Record merged (od : list output) (sd : list spend) (ls : list transaction_link) (st : merge_state) : Prop := {
  m_outs : outs = od ++ ms_output st;
  m_spends : spds = sd ++ ms_spend st;
  m_before s o : s ∈ sd -> o ∈ ms_output st -> by_link (sp_link s) (out_link o);
  m_after o s : o ∈ od -> s ∈ ms_spend st -> transaction_link_lt (sp_link s) (out_link o) = false;
  m_links : StronglySorted by_link ls;
  m_all l : l ∈ ls <-> l ∈ (out_link <$> od) ++ (sp_link <$> sd);
  m_out : ms_out st = group od sd <$> ls;
  m_total : ms_total st = u64 (amounts od);
  m_metas : ms_metas st ≡ₚ out_spend_meta <$> od;
  m_sorted : metas_sorted (ms_metas st);
  m_pool : has_pool = true ->
    ms_receives st = (fun o => (out_id o, out_recipient o)) <$> od /\ ms_txes_processed st = tl_tx_hash <$> ls
}.

(** *** Facts about a state *)
Lemma done_outs od sd ls st o o' : merged od sd ls st -> o ∈ od -> o' ∈ ms_output st -> transaction_link_lt (out_link o') (out_link o) = false.
Proof.
  intros H Ho Ho'. pose proof (me_outs Hm) as Hs. rewrite (m_outs _ _ _ _ H) in Hs.
  by apply (StronglySorted_app_1_elem_of _ _ _ o o' Hs).
Qed.

Lemma done_spends od sd ls st s s' : merged od sd ls st -> s ∈ sd -> s' ∈ ms_spend st -> transaction_link_lt (sp_link s') (sp_link s) = false.
Proof.
  intros H Hs Hs'. pose proof (me_spends Hm) as Hso. rewrite (m_spends _ _ _ _ H) in Hso.
  by apply (StronglySorted_app_1_elem_of _ _ _ s s' Hso).
Qed.

(** What comes next is not before what is done. *)
Lemma links_before_output od sd ls st l o : merged od sd ls st -> l ∈ ls -> o ∈ ms_output st -> transaction_link_lt (out_link o) l = false.
Proof.
  intros H Hl Ho. apply (m_all _ _ _ _ H) in Hl. apply elem_of_app in Hl as [(o' & -> & Ho')%list_elem_of_fmap|(s & -> & Hs)%list_elem_of_fmap].
  - by apply (done_outs _ _ _ _ _ _ H).
  - apply (tlt_asym transaction_link_lt). by apply (m_before _ _ _ _ H).
Qed.
Lemma links_before_spend od sd ls st l s : merged od sd ls st -> l ∈ ls -> s ∈ ms_spend st -> transaction_link_lt (sp_link s) l = false.
Proof.
  intros H Hl Hs. apply (m_all _ _ _ _ H) in Hl. apply elem_of_app in Hl as [(o & -> & Ho)%list_elem_of_fmap|(s' & -> & Hs')%list_elem_of_fmap].
  - by apply (m_after _ _ _ _ H).
  - by apply (done_spends _ _ _ _ _ _ H).
Qed.

(** A group has the link it is for. *)
Lemma group_link od sd l : l ∈ (out_link <$> od) ++ (sp_link <$> sd) -> tx_link (group od sd l) = l.
Proof.
  intros Hl. unfold tx_link, group, grouped, group_info. cbn [gt_info].
  destruct (filter (fun o => out_link o = l) od) as [|o os] eqn:Eo.
  - destruct (filter (fun s => sp_link s = l) sd) as [|s ss] eqn:Es.
    + exfalso. apply elem_of_app in Hl as [(o & -> & Ho)%list_elem_of_fmap|(s & -> & Hs)%list_elem_of_fmap].
      * assert (o ∈ filter (fun o' => out_link o' = out_link o) od) as Hf by by apply list_elem_of_filter. rewrite Eo in Hf. by apply elem_of_nil in Hf.
      * assert (s ∈ filter (fun s' => sp_link s' = sp_link s) sd) as Hf by by apply list_elem_of_filter. rewrite Es in Hf. by apply elem_of_nil in Hf.
    + assert (s ∈ filter (fun s => sp_link s = l) sd) as Hf by (rewrite Es; left). by apply list_elem_of_filter in Hf as [<- _].
  - assert (o ∈ filter (fun o => out_link o = l) od) as Hf by (rewrite Eo; left). by apply list_elem_of_filter in Hf as [<- _].
Qed.

Lemma last_tx od sd ls st : merged od sd ls st -> last (ms_out st) = group od sd <$> last ls.
Proof. intros H. rewrite (m_out _ _ _ _ H). apply fmap_last. Qed.

Lemma merged_in_order od sd ls st : merged od sd ls st -> in_order st = true.
Proof.
  intros H. unfold in_order. rewrite (last_tx _ _ _ _ H). destruct (last ls) as [l|] eqn:E; [|done]. cbn.
  assert (l ∈ ls) as Hl by (apply last_Some in E as [l' ->]; apply elem_of_app; right; left).
  rewrite group_link by by apply (m_all _ _ _ _ H). rewrite andb_true_iff. split.
  - destruct (ms_output st) as [|o rest] eqn:Eo; [done|]. rewrite link_le_lt, (links_before_output _ _ _ _ l o H); [done|done|]. rewrite Eo. left.
  - destruct (ms_spend st) as [|s rest] eqn:Es; [done|]. rewrite link_le_lt, (links_before_spend _ _ _ _ l s H); [done|done|]. rewrite Es. left.
Qed.

(** The last group is for the next item, or the item opens a group of its own. *)
Lemma same_tx_link od sd ls st l :
  merged od sd ls st -> l ∈ (out_link <$> outs) ++ (sp_link <$> spds) -> (forall l', l' ∈ ls -> transaction_link_lt l l' = false) ->
  (same_tx (tl_tx_hash l) (ms_out st) = true /\ exists ls', ls = ls' ++ [l] /\ Forall (fun l' => l' <> l) ls') \/
  (same_tx (tl_tx_hash l) (ms_out st) = false /\ StronglySorted by_link (ls ++ [l]) /\ l ∉ ls).
Proof.
  intros H Hin Hle. unfold same_tx. rewrite (last_tx _ _ _ _ H). pose proof (m_links _ _ _ _ H) as Hs.
  assert (forall l', l' ∈ ls -> l' ∈ (out_link <$> outs) ++ (sp_link <$> spds)) as Hsub.
  { intros l' Hl'. apply (m_all _ _ _ _ H) in Hl'. rewrite (m_outs _ _ _ _ H), (m_spends _ _ _ _ H), !fmap_app, !elem_of_app.
    apply elem_of_app in Hl'. tauto. }
  destruct (last ls) as [l0|] eqn:E; cbn.
  2:{ right. apply last_None in E as ->. split; [done|]. split; [repeat constructor|by intros ?%elem_of_nil]. }
  apply last_Some in E as [ls' ->]. assert (l0 ∈ ls' ++ [l0]) as Hl0 by (apply elem_of_app; right; left).
  rewrite group_link by by apply (m_all _ _ _ _ H).
  assert (forall l', l' ∈ ls' -> by_link l' l0) as Hbefore.
  { intros l' Hl'. apply (StronglySorted_app_1_elem_of _ _ _ l' l0 Hs); [done|left]. }
  destruct (Z.eqb_spec (tl_tx_hash l0) (tl_tx_hash l)) as [Eh|Eh].
  - left. split; [done|]. exists ls'. pose proof (me_block Hm l0 l (Hsub _ Hl0) Hin Eh) as ->.
    split; [done|]. rewrite Forall_forall. intros l' Hl' ->. apply Hbefore in Hl'. unfold by_link in Hl'. by rewrite tlt_irrefl in Hl'.
  - right. split; [done|]. assert (by_link l0 l) as Hlt.
    { unfold by_link. destruct (transaction_link_lt l0 l) eqn:Elt; [done|]. destruct Eh. f_equal. apply (tlt_total (lt:=transaction_link_lt)); [done|by apply Hle]. }
    assert (forall l', l' ∈ ls' ++ [l0] -> by_link l' l) as Hall.
    { intros l' [Hl'|Hl'%list_elem_of_singleton]%elem_of_app; [|by subst]. unfold by_link in *. eapply tlt_trans; [by apply Hbefore|exact Hlt]. }
    split.
    + apply StronglySorted_app_2; [|done|repeat constructor]. by intros x1 x2 Hx1 ->%list_elem_of_singleton; apply Hall.
    + intros Hl. apply Hall in Hl. unfold by_link in Hl. by rewrite tlt_irrefl in Hl.
Qed.

(** *** One more item *)
Lemma filter_none {A} (f : A -> transaction_link) (l : list A) x : x ∉ f <$> l -> filter (fun a => f a = x) l = [].
Proof.
  intros Hx. destruct (filter _ l) as [|a as_] eqn:E; [done|]. destruct Hx. assert (a ∈ filter (fun a => f a = x) l) as Ha by (rewrite E; left).
  apply list_elem_of_filter in Ha as [<- Ha]. by apply list_elem_of_fmap_2.
Qed.

Lemma group_output_other od sd o l : l <> out_link o -> group (od ++ [o]) sd l = group od sd l.
Proof. intros Hl. unfold group, grouped. by rewrite filter_snoc_no by congruence. Qed.
Lemma group_spend_other od sd s l : l <> sp_link s -> group od (sd ++ [s]) l = group od sd l.
Proof. intros Hl. unfold group, grouped. by rewrite (filter_snoc_no (fun s => sp_link s = l)) by congruence. Qed.

Lemma group_output_more od sd o :
  (exists o', o' ∈ od /\ out_link o' = out_link o) ->
  group (od ++ [o]) sd (out_link o) =
  (if all_outputs then push_receive o else id) (add_amount (sme_amount (out_spend_meta o)) (group od sd (out_link o))).
Proof.
  intros (o' & Ho' & El). unfold group, grouped. rewrite filter_snoc_yes by done.
  destruct (filter (fun o0 => out_link o0 = out_link o) od) as [|o1 os] eqn:E.
  { assert (o' ∈ filter (fun o0 => out_link o0 = out_link o) od) as Hf by by apply list_elem_of_filter. rewrite E in Hf. by apply elem_of_nil in Hf. }
  assert (u64 (amounts (o1 :: os ++ [o])) = u64 (u64 (amounts (o1 :: os)) + sme_amount (out_spend_meta o))) as Hs.
  { rewrite u64_add_l. f_equal. change (o1 :: os ++ [o]) with ((o1 :: os) ++ [o]). rewrite amounts_app. cbn. lia. }
  cbn [app group_info]. rewrite Hs. unfold add_amount, tx_amount. cbn [gt_info gt_receives gt_spends gt_spent].
  by destruct all_outputs.
Qed.

Lemma group_output_first od sd o :
  out_link o ∉ (out_link <$> od) ++ (sp_link <$> sd) -> in_u64 (sme_amount (out_spend_meta o)) ->
  group (od ++ [o]) sd (out_link o) = (if all_outputs then push_receive o else id) (GetTransaction o [] [] 0).
Proof.
  intros [Ho Hs]%not_elem_of_app Hr. unfold group, grouped.
  rewrite filter_snoc_yes by done. rewrite (filter_none out_link od), (filter_none sp_link sd) by done. cbn. rewrite Z.add_0_r, u64_small by done.
  rewrite with_amount_same. by destruct all_outputs.
Qed.

Lemma group_spend_more od sd s :
  sp_link s ∈ (out_link <$> od) ++ (sp_link <$> sd) ->
  group od (sd ++ [s]) (sp_link s) =
  add_spent (sme_amount (source_meta skip_spend_meta outs (sp_source s)))
    (push_spend (source_meta skip_spend_meta outs (sp_source s)) s (group od sd (sp_link s))).
Proof.
  intros Hin. unfold group, grouped. rewrite (filter_snoc_yes (fun s0 => sp_link s0 = sp_link s)) by done.
  unfold add_spent, push_spend. cbn [gt_info gt_receives gt_spends gt_spent]. rewrite fmap_app, spent_amounts_app, u64_add_l. cbn. rewrite Z.add_0_r. f_equal.
  destruct (filter (fun o => out_link o = sp_link s) od) as [|o os] eqn:Eo; [|done]. cbn.
  destruct (filter (fun s0 => sp_link s0 = sp_link s) sd) as [|s1 ss] eqn:Es; [|done]. exfalso.
  apply elem_of_app in Hin as [(o & El & Ho)%list_elem_of_fmap|(s' & El & Hs)%list_elem_of_fmap].
  - assert (o ∈ filter (fun o => out_link o = sp_link s) od) as Hf by by apply list_elem_of_filter. rewrite Eo in Hf. by apply elem_of_nil in Hf.
  - assert (s' ∈ filter (fun s0 => sp_link s0 = sp_link s) sd) as Hf by by apply list_elem_of_filter. rewrite Es in Hf. by apply elem_of_nil in Hf.
Qed.

Lemma group_spend_first od sd s :
  sp_link s ∉ (out_link <$> od) ++ (sp_link <$> sd) ->
  group od (sd ++ [s]) (sp_link s) =
  add_spent (sme_amount (source_meta skip_spend_meta outs (sp_source s)))
    (GetTransaction (spend_info (sp_link s) 0 (sp_mixin_count s) (sp_timestamp s) (sp_unlock_time s)) []
       [shown_spend skip_spend_meta outs s] 0).
Proof.
  intros [Ho Hs]%not_elem_of_app. unfold group, grouped. rewrite (filter_snoc_yes (fun s0 => sp_link s0 = sp_link s)) by done.
  rewrite (filter_none out_link od), (filter_none sp_link sd) by done. unfold add_spent. cbn. rewrite Z.add_0_r. by destruct all_outputs.
Qed.

(** The groups of a longer list. *)
Lemma groups_on_back g g' (f : get_transaction -> get_transaction) ls l :
  Forall (fun l' => l' <> l) ls -> (forall l', l' <> l -> g' l' = g l') -> g' l = f (g l) ->
  on_back f (g <$> ls ++ [l]) = g' <$> (ls ++ [l] : list transaction_link).
Proof.
  intros Hne Ho Hl. rewrite !fmap_app. cbn. rewrite on_back_snoc, Hl. f_equal. apply list_fmap_ext. intros i l' Hi. symmetry. apply Ho.
  rewrite Forall_forall in Hne. apply Hne. by eapply list_elem_of_lookup_2.
Qed.
Lemma groups_snoc (g g' : transaction_link -> get_transaction) ls l :
  l ∉ ls -> (forall l', l' <> l -> g' l' = g l') -> (g <$> ls) ++ [g' l] = g' <$> (ls ++ [l] : list transaction_link).
Proof.
  intros Hne Ho. rewrite fmap_app. cbn. f_equal. apply list_fmap_ext. intros i l' Hi. symmetry. apply Ho. intros ->.
  apply Hne. by eapply list_elem_of_lookup_2.
Qed.

Lemma on_back_twice {A} (f g : A -> A) l : on_back f (on_back g l) = on_back (fun x => f (g x)) l.
Proof. destruct l as [|x l _] using rev_ind; [done|]. by rewrite !on_back_snoc. Qed.

Lemma on_back_if {A} (b : bool) (f g : A -> A) l :
  (if b then on_back f (on_back g l) else on_back g l) = on_back (fun x => (if b then f else id) (g x)) l.
Proof. destruct b; [apply on_back_twice|done]. Qed.
Lemma on_back_if_snoc {A} (b : bool) (f : A -> A) l x : (if b then on_back f (l ++ [x]) else l ++ [x]) = l ++ [(if b then f else id) x].
Proof. destruct b; [apply on_back_snoc|done]. Qed.

Lemma merge_output_ok od sd ls st o rest :
  merged od sd ls st -> ms_output st = o :: rest -> (forall s, s ∈ ms_spend st -> transaction_link_lt (sp_link s) (out_link o) = false) ->
  exists ls', merged (od ++ [o]) sd ls' (merge_output has_pool all_outputs o rest st).
Proof.
  intros H Eo Hle. assert (o ∈ ms_output st) as Hin by (rewrite Eo; left).
  assert (outs = (od ++ [o]) ++ rest) as Houts by (rewrite (m_outs _ _ _ _ H), Eo, <- app_assoc; done).
  destruct (same_tx_link od sd ls st (out_link o) H) as [(Eold & ls' & -> & Hne)|(Enew & Hsorted & Hnl)].
  { apply elem_of_app. left. apply list_elem_of_fmap_2. rewrite (m_outs _ _ _ _ H). apply elem_of_app. by right. }
  { intros l' Hl'. by apply (links_before_output _ _ _ _ _ _ H). }
  - exists (ls' ++ [out_link o]). unfold merge_output. rewrite Eold, andb_false_r. split; cbn [ms_output ms_spend ms_out ms_total ms_metas ms_receives ms_txes_processed].
    + done.
    + by apply (m_spends _ _ _ _ H).
    + intros s o' Hs Ho'. apply (m_before _ _ _ _ H); [done|]. rewrite Eo. by right.
    + intros o' s [Ho'| ->%list_elem_of_singleton]%elem_of_app Hs; [by apply (m_after _ _ _ _ H)|by apply Hle].
    + by apply (m_links _ _ _ _ H).
    + intros l. rewrite (m_all _ _ _ _ H), fmap_app, !elem_of_app. cbn. rewrite list_elem_of_singleton. split; [tauto|].
      intros [[Hl| ->]|Hl]; [tauto| |tauto]. apply elem_of_app, (m_all _ _ _ _ H), elem_of_app. right. by left.
    + rewrite (m_out _ _ _ _ H). rewrite <- (groups_on_back (group od sd) (group (od ++ [o]) sd)
        (fun tx => (if all_outputs then push_receive o else id) (add_amount (sme_amount (out_spend_meta o)) tx))); [|done|intros; by apply group_output_other|].
      * apply on_back_if.
      * apply group_output_more. assert (out_link o ∈ ls' ++ [out_link o]) as Hl by (apply elem_of_app; right; left).
        apply (m_all _ _ _ _ H), elem_of_app in Hl as [(o' & El & Ho')%list_elem_of_fmap|(s & El & Hs)%list_elem_of_fmap]; [by exists o'|].
        pose proof (m_before _ _ _ _ H s o Hs Hin) as Hlt. unfold by_link in Hlt. by rewrite El, tlt_irrefl in Hlt.
    + by rewrite (m_total _ _ _ _ H), amounts_app, u64_add_l; cbn; rewrite Z.add_0_r.
    + rewrite add_meta_perm, (m_metas _ _ _ _ H), fmap_app. cbn. by rewrite Permutation_app_comm.
    + by apply add_meta_sorted, (m_sorted _ _ _ _ H).
    + intros Hp. destruct (m_pool _ _ _ _ H Hp) as [-> ->]. rewrite Hp, !fmap_app. done.
  - exists (ls ++ [out_link o]). unfold merge_output. rewrite Enew, andb_true_r. split; cbn [ms_output ms_spend ms_out ms_total ms_metas ms_receives ms_txes_processed].
    + done.
    + by apply (m_spends _ _ _ _ H).
    + intros s o' Hs Ho'. apply (m_before _ _ _ _ H); [done|]. rewrite Eo. by right.
    + intros o' s [Ho'| ->%list_elem_of_singleton]%elem_of_app Hs; [by apply (m_after _ _ _ _ H)|by apply Hle].
    + done.
    + intros l. rewrite fmap_app, !elem_of_app, (m_all _ _ _ _ H), elem_of_app. cbn. rewrite list_elem_of_singleton. tauto.
    + rewrite (m_out _ _ _ _ H). rewrite <- (groups_snoc (group od sd) (group (od ++ [o]) sd)); [|done|intros; by apply group_output_other].
      rewrite on_back_if_snoc, group_output_first.
      * done.
      * intros Hl. by apply Hnl, (m_all _ _ _ _ H).
      * apply (me_amounts Hm). rewrite Houts. apply elem_of_app. left. apply elem_of_app. right. left.
    + by rewrite (m_total _ _ _ _ H), amounts_app, u64_add_l; cbn; rewrite Z.add_0_r.
    + rewrite add_meta_perm, (m_metas _ _ _ _ H), fmap_app. cbn. by rewrite Permutation_app_comm.
    + by apply add_meta_sorted, (m_sorted _ _ _ _ H).
    + intros Hp. destruct (m_pool _ _ _ _ H Hp) as [-> ->]. rewrite Hp, !fmap_app. done.
Qed.

(** The metadata the merge finds is the one of the source. *)
Lemma found_source od sd ls st s rest :
  merged od sd ls st -> ms_spend st = s :: rest -> (forall o, o ∈ ms_output st -> by_link (sp_link s) (out_link o)) ->
  negb (skip_spend_meta || is_some_b (found_meta (ms_metas st) (sp_source s))) = false /\
  (if skip_spend_meta then empty_meta else default empty_meta (found_meta (ms_metas st) (sp_source s))) = source_meta skip_spend_meta outs (sp_source s).
Proof.
  intros H Es Hlt. destruct (decide (skip_spend_meta = true)) as [Ek|Ek%not_true_is_false]; rewrite Ek; [done|]. cbn [orb].
  assert (s ∈ spds) as Hs by (rewrite (m_spends _ _ _ _ H), Es; apply elem_of_app; right; left).
  destruct (me_sources Hm s Hs) as [?|(o & Ho & Eid & Hle)]; [congruence|].
  assert (o ∈ od) as Hod.
  { rewrite (m_outs _ _ _ _ H) in Ho. apply elem_of_app in Ho as [|Ho]; [done|]. apply Hlt in Ho. unfold by_link in Ho. congruence. }
  assert (NoDup (out_id <$> od)) as Hnd.
  { pose proof (me_ids Hm) as Hnd. rewrite (m_outs _ _ _ _ H), fmap_app in Hnd. by apply NoDup_app in Hnd as (? & _). }
  assert (found_meta (ms_metas st) (sp_source s) = Some (out_spend_meta o)) as ->.
  { rewrite <- Eid. unfold out_id. apply found_meta_unique; [apply (m_sorted _ _ _ _ H)| |].
    - rewrite (m_metas _ _ _ _ H), <- list_fmap_compose. exact Hnd.
    - rewrite (m_metas _ _ _ _ H). by apply list_elem_of_fmap_2. }
  split; [done|]. rewrite <- Eid. symmetry. by apply source_meta_unique; [apply (me_ids Hm)|].
Qed.

Lemma shown_spent id out tx :
  in_u64 (gt_spent tx) ->
  (if skip_spend_meta then out ++ [tx] else on_back (add_spent (sme_amount (source_meta skip_spend_meta outs id))) (out ++ [tx])) =
  out ++ [add_spent (sme_amount (source_meta skip_spend_meta outs id)) tx].
Proof.
  intros Hr. unfold source_meta. destruct skip_spend_meta; [|by rewrite on_back_snoc]. unfold add_spent. cbn. rewrite Z.add_0_r, u64_small by done.
  by destruct tx.
Qed.
Lemma groups_same_but (g g' : transaction_link -> get_transaction) ls l :
  Forall (fun l' => l' <> l) ls -> (forall l', l' <> l -> g' l' = g l') -> (g <$> ls) ++ [g' l] = (g' <$> ls) ++ [g' l].
Proof.
  intros Hne Ho. f_equal. apply list_fmap_ext. intros i l' Hi. symmetry. apply Ho. rewrite Forall_forall in Hne.
  apply Hne. by eapply list_elem_of_lookup_2.
Qed.

Lemma merge_spend_ok od sd ls st s rest :
  merged od sd ls st -> ms_spend st = s :: rest -> (forall o, o ∈ ms_output st -> by_link (sp_link s) (out_link o)) ->
  exists ls' st', merge_spend has_pool skip_spend_meta s rest st = Ok st' /\ ms_output st' = ms_output st /\ ms_spend st' = rest /\ merged od (sd ++ [s]) ls' st'.
Proof.
  intros H Es Hlt. destruct (found_source _ _ _ _ _ _ H Es Hlt) as [Hfound Hmeta].
  assert (s ∈ ms_spend st) as Hin by (rewrite Es; left).
  assert (spds = (sd ++ [s]) ++ rest) as Hspds by (rewrite (m_spends _ _ _ _ H), Es, <- app_assoc; done).
  unfold merge_spend. rewrite Hfound, Hmeta.
  destruct (same_tx_link od sd ls st (sp_link s) H) as [(Eold & ls' & -> & Hne)|(Enew & Hsorted & Hnl)].
  { apply elem_of_app. right. apply list_elem_of_fmap_2. rewrite (m_spends _ _ _ _ H). apply elem_of_app. by right. }
  { intros l' Hl'. by apply (links_before_spend _ _ _ _ _ _ H). }
  - rewrite Eold, andb_false_r. exists (ls' ++ [sp_link s]). eexists. split; [done|]. split; [done|]. split; [done|].
    split; cbn [ms_output ms_spend ms_out ms_total ms_metas ms_receives ms_txes_processed].
    + by apply (m_outs _ _ _ _ H).
    + done.
    + intros s' o [Hs'| ->%list_elem_of_singleton]%elem_of_app Ho; [by apply (m_before _ _ _ _ H)|by apply Hlt].
    + intros o s' Ho Hs'. apply (m_after _ _ _ _ H); [done|]. rewrite Es. by right.
    + by apply (m_links _ _ _ _ H).
    + intros l. rewrite (m_all _ _ _ _ H), fmap_app, !elem_of_app. cbn. rewrite list_elem_of_singleton. split; [tauto|].
      intros [Hl|[Hl| ->]]; [tauto|tauto|]. apply elem_of_app, (m_all _ _ _ _ H), elem_of_app. right. by left.
    + rewrite (m_out _ _ _ _ H), !fmap_app. cbn. rewrite on_back_snoc, shown_spent, <- group_spend_more.
      * apply (groups_same_but (group od sd)); [done|]. intros; by apply group_spend_other.
      * apply (m_all _ _ _ _ H), elem_of_app. right. left.
      * apply u64_range.
    + by apply (m_total _ _ _ _ H).
    + by apply (m_metas _ _ _ _ H).
    + by apply (m_sorted _ _ _ _ H).
    + intros Hp. destruct (m_pool _ _ _ _ H Hp) as [-> ->]. by rewrite !fmap_app.
  - rewrite Enew, andb_true_r. exists (ls ++ [sp_link s]). eexists. split; [done|]. split; [done|]. split; [done|].
    split; cbn [ms_output ms_spend ms_out ms_total ms_metas ms_receives ms_txes_processed].
    + by apply (m_outs _ _ _ _ H).
    + done.
    + intros s' o [Hs'| ->%list_elem_of_singleton]%elem_of_app Ho; [by apply (m_before _ _ _ _ H)|by apply Hlt].
    + intros o s' Ho Hs'. apply (m_after _ _ _ _ H); [done|]. rewrite Es. by right.
    + done.
    + intros l. rewrite fmap_app, !elem_of_app, (m_all _ _ _ _ H), elem_of_app. cbn. rewrite list_elem_of_singleton. tauto.
    + assert (sp_link s ∉ (out_link <$> od) ++ (sp_link <$> sd)) as Hfirst by (intros Hl; by apply Hnl, (m_all _ _ _ _ H)).
      rewrite (m_out _ _ _ _ H), shown_spent by (cbn; unfold in_u64, u64_max; lia). rewrite fmap_app. cbn.
      change (TransactionSpend (source_meta skip_spend_meta outs (sp_source s)) s) with (shown_spend skip_spend_meta outs s).
      rewrite <- group_spend_first with (od:=od) (sd:=sd) by done.
      apply (groups_same_but (group od sd)); [|intros; by apply group_spend_other]. rewrite Forall_forall. by intros l' Hl' ->.
    + by apply (m_total _ _ _ _ H).
    + by apply (m_metas _ _ _ _ H).
    + by apply (m_sorted _ _ _ _ H).
    + intros Hp. destruct (m_pool _ _ _ _ H Hp) as [-> ->]. by rewrite Hp, !fmap_app.
Qed.

Lemma merge_step_ok od sd ls st :
  merged od sd ls st -> (0 < length (ms_output st) + length (ms_spend st))%nat ->
  exists od' sd' ls' st', merge_step has_pool all_outputs skip_spend_meta st = Ok st' /\ merged od' sd' ls' st' /\
    S (length (ms_output st') + length (ms_spend st')) = (length (ms_output st) + length (ms_spend st))%nat.
Proof.
  intros H Hpos. unfold merge_step. rewrite (merged_in_order _ _ _ _ H). cbn [negb].
  pose proof (me_spends Hm) as Hss. rewrite (m_spends _ _ _ _ H) in Hss.
  pose proof (me_outs Hm) as Hso. rewrite (m_outs _ _ _ _ H) in Hso.
  assert (forall o rest, ms_output st = o :: rest -> (forall s, s ∈ ms_spend st -> transaction_link_lt (sp_link s) (out_link o) = false) ->
    exists od' sd' ls' st', Ok (merge_output has_pool all_outputs o rest st) = Ok st' /\ merged od' sd' ls' st' /\
      S (length (ms_output st') + length (ms_spend st')) = (length (ms_output st) + length (ms_spend st))%nat) as Hout.
  { intros o rest Eo Hle. destruct (merge_output_ok _ _ _ _ _ _ H Eo Hle) as [ls' H'].
    eexists _, _, ls', _. split; [done|]. split; [exact H'|]. rewrite Eo. cbn. lia. }
  assert (forall s rest, ms_spend st = s :: rest -> (forall o, o ∈ ms_output st -> by_link (sp_link s) (out_link o)) ->
    exists od' sd' ls' st', merge_spend has_pool skip_spend_meta s rest st = Ok st' /\ merged od' sd' ls' st' /\
      S (length (ms_output st') + length (ms_spend st')) = (length (ms_output st) + length (ms_spend st))%nat) as Hspend.
  { intros s rest Es Hlt. destruct (merge_spend_ok _ _ _ _ _ _ H Es Hlt) as (ls' & st' & E & Eo' & Es' & H').
    eexists _, _, ls', st'. split; [exact E|]. split; [exact H'|]. rewrite Eo', Es', Es. cbn. lia. }
  destruct (ms_output st) as [|o rest] eqn:Eo, (ms_spend st) as [|s srest] eqn:Es; [cbn in Hpos; lia| | |].
  - apply (Hspend s srest); [done|]. by intros o ?%elem_of_nil.
  - apply (Hout o rest); [done|]. by intros s ?%elem_of_nil.
  - rewrite link_le_lt. apply StronglySorted_app in Hss as (_ & _ & Hss), Hso as (_ & _ & Hso). destruct (transaction_link_lt (sp_link s) (out_link o)) eqn:E; cbn [negb].
    + apply (Hspend s srest); [done|]. intros o' [->|Ho']%elem_of_cons; [done|]. unfold by_link.
      destruct (transaction_link_lt (sp_link s) (out_link o')) eqn:E'; [done|].
      apply StronglySorted_inv in Hso as [_ Hso]. rewrite Forall_forall in Hso.
      pose proof (tlt_false_trans transaction_link_lt _ _ _ E' (Hso o' Ho')). congruence.
    + apply (Hout o rest); [done|]. intros s' [->|Hs']%elem_of_cons; [done|].
      apply StronglySorted_inv in Hss as [_ Hss]. rewrite Forall_forall in Hss.
      exact (tlt_false_trans transaction_link_lt _ _ _ (Hss s' Hs') E).
Qed.

Lemma merge_rounds_ok n od sd ls st :
  merged od sd ls st -> n = (length (ms_output st) + length (ms_spend st))%nat ->
  exists ls' st', merge_rounds has_pool all_outputs skip_spend_meta n st = Ok st' /\ merged outs spds ls' st'.
Proof.
  revert od sd ls st. induction n as [|n IH]; intros od sd ls st H Hn.
  - exists ls, st. split; [done|]. pose proof (m_outs _ _ _ _ H) as Ho. pose proof (m_spends _ _ _ _ H) as Hs.
    destruct (ms_output st) eqn:Eo; [|done]. destruct (ms_spend st) eqn:Es; [|done]. rewrite app_nil_r in Ho, Hs. by subst od sd.
  - destruct (merge_step_ok _ _ _ _ H) as (od' & sd' & ls' & st' & E & H' & Hlen); [lia|]. cbn [merge_rounds]. rewrite E. cbn.
    apply (IH od' sd' ls' st' H'). lia.
Qed.

Lemma merged_start : merged [] [] [] (MergeState outs spds [] 0 [] [] []).
Proof.
  split; cbn [ms_output ms_spend ms_out ms_total ms_metas ms_receives ms_txes_processed fmap list_fmap]; try done.
  - by intros s o ?%elem_of_nil.
  - by intros o s ?%elem_of_nil.
  - constructor.
  - constructor.
Qed.

Lemma merge_stored_ok :
  exists ls st, merge_stored has_pool all_outputs skip_spend_meta outs spds = Ok st /\ merged outs spds ls st.
Proof. destruct (merge_rounds_ok _ _ _ _ _ merged_start eq_refl) as (ls & st & E & H). by exists ls, st. Qed.
End spec.

Lemma strongly_sorted_impl {A} (R R' : A -> A -> Prop) l : (forall x y, R x y -> R' x y) -> StronglySorted R l -> StronglySorted R' l.
Proof. intros HR. induction 1 as [|x l Hl IH Hx]; constructor; [done|]. by eapply Forall_impl; [exact Hx|apply HR]. Qed.

Lemma by_link_unique ls ls' :
  StronglySorted by_link ls -> StronglySorted by_link ls' -> (forall l, l ∈ ls <-> l ∈ ls') -> ls = ls'.
Proof.
  assert (forall l, StronglySorted by_link l -> NoDup l) as Hnd.
  { induction 1 as [|x l Hl IH Hx]; constructor; [|done]. rewrite Forall_forall in Hx. intros Hin. apply Hx in Hin. unfold by_link in Hin. by rewrite tlt_irrefl in Hin. }
  intros H H' Hall. apply (StronglySorted_unique_strong by_link); [|done|done|by apply NoDup_Permutation; auto].
  intros x y _ _ Hxy Hyx. unfold by_link in *. by rewrite (tlt_asym transaction_link_lt _ _ Hxy) in Hyx.
Qed.

Section load_spec.
Context {WC : WalletCrypto} {LM : Lmdb} {LL : LmdbLaws LM} {SC : SubaddressCrypto}.
Context (iterate : pool_table -> list (hash * pool_entry)) (address_string : account_address -> list Z).

Lemma outputs_in_order id (s : tables) : sorted_by (fun l r => transaction_link_lt (out_link l) (out_link r)) (get_outputs id s).
Proof.
  eapply strongly_sorted_impl; [|exact (dups_sorted outputs (t_outputs s) id _)]. intros x y H.
  exact (pair_lt_fst transaction_link_lt output_id_lt _ _ H).
Qed.
Lemma spends_in_order id (s : tables) : sorted_by (fun l r => transaction_link_lt (sp_link l) (sp_link r)) (get_spends id s).
Proof.
  eapply strongly_sorted_impl; [|exact (dups_sorted spends (t_spends s) id _)]. intros x y H.
  pose proof (pair_lt_fst (pair_lt transaction_link_lt Z.ltb) output_id_lt _ _ H) as H1. unfold pair_lt in H1.
  by apply orb_false_iff in H1 as [H1 _].
Qed.

(** What the database has to hold for the account: every transaction in one
    block, every output once, spends of outputs received before. *)
Definition history_ok (outs : list output) (spds : list spend) : Prop :=
  (forall l r, l ∈ (out_link <$> outs) ++ (sp_link <$> spds) -> r ∈ (out_link <$> outs) ++ (sp_link <$> spds) ->
    tl_tx_hash l = tl_tx_hash r -> l = r) /\
  (forall o, o ∈ outs -> in_u64 (sme_amount (out_spend_meta o))) /\
  NoDup (out_id <$> outs) /\
  (forall s, s ∈ spds -> exists o, o ∈ outs /\ out_id o = sp_source s /\ transaction_link_lt (sp_link s) (out_link o) = false).

Lemma history_mergeable id (s : tables) : history_ok (get_outputs id s) (get_spends id s) -> mergeable false (get_outputs id s) (get_spends id s).
Proof.
  intros (H1 & H2 & H3 & H4). split; [apply outputs_in_order|apply spends_in_order|exact H1|exact H2|exact H3|]. intros x Hx. right. by apply H4.
Qed.

Lemma pool_rows_out rows st :
  let st' := foldl pool_row st rows in
  ms_out st' = ms_out st ++ (pool_tx (ms_metas st) <$> filter (fun row => fp_hash row ∉ ms_txes_processed st) rows).
Proof.
  revert st. induction rows as [|row rows IH]; intros st; cbn [foldl]; [by rewrite app_nil_r|]. rewrite IH.
  unfold pool_row. destruct (bool_decide_reflect (fp_hash row ∈ ms_txes_processed st)) as [Hin|Hin].
  - rewrite filter_cons_False; [done|]. intros H. by apply H.
  - rewrite filter_cons_True by done. cbn. by rewrite <- app_assoc.
Qed.

(** C9: A wallet is shown one transaction for every transaction its account
    received or spent something in, in the order of the chain: with all outputs
    received in it and their sum, all its spends with the outputs they refer to
    and their sum. After these come the transactions of the pool that are not
    among them. *)
Theorem load_groups_transactions reader acct all_outputs last_block :
  let outs := get_outputs (acc_id acct) reader in
  let spds := get_spends (acc_id acct) reader in
  history_ok outs spds -> get_last_block reader = Ok last_block ->
  exists links, StronglySorted by_link links /\
    (forall l, l ∈ links <-> (exists o, o ∈ outs /\ out_link o = l) \/ (exists s, s ∈ spds /\ sp_link s = l)) /\
    load iterate address_string reader acct None all_outputs =
      Ok (GetAddressTxsResponse (u64 (amounts outs)) (acc_scan_height acct) (acc_start_height acct) (bi_id last_block)
            (acc_lookahead_fail acct) (grouped all_outputs false outs outs spds <$> links) (acc_lookahead acct) None, None) /\
    forall pool resp pool', load iterate address_string reader acct (Some pool) all_outputs = Ok (resp, pool') ->
      exists metas rows,
        (scan_account iterate (Account.construct address_string acct ((fun o => (out_id o, out_recipient o)) <$> outs) []) reader pool).1 = Ok rows /\
        metas ≡ₚ out_spend_meta <$> outs /\
        at_transactions resp = (grouped all_outputs false outs outs spds <$> links) ++
          (pool_tx metas <$> filter (fun row => fp_hash row ∉ tl_tx_hash <$> links) rows).
Proof.
  intros outs spds Hh Hlast. pose proof (history_mergeable _ _ Hh) as Hm. fold outs spds in Hm.
  destruct (merge_stored_ok false all_outputs false outs spds Hm) as (links & st & E & H).
  destruct (merge_stored_ok true all_outputs false outs spds Hm) as (links' & st' & E' & H').
  assert (forall l, l ∈ links <-> (exists o, o ∈ outs /\ out_link o = l) \/ (exists s, s ∈ spds /\ sp_link s = l)) as Hall.
  { intros l. rewrite (m_all _ _ _ _ _ _ _ _ _ H), elem_of_app, !list_elem_of_fmap. split; (intros [(x & H1 & H2)|(x & H1 & H2)]; [left|right]; by exists x). }
  assert (links' = links) as Hl.
  { apply by_link_unique; [by apply (m_links _ _ _ _ _ _ _ _ _ H')|by apply (m_links _ _ _ _ _ _ _ _ _ H)|].
    intros l. by rewrite (m_all _ _ _ _ _ _ _ _ _ H), (m_all _ _ _ _ _ _ _ _ _ H'). }
  exists links. split; [by apply (m_links _ _ _ _ _ _ _ _ _ H)|]. split; [exact Hall|]. split.
  - unfold load, merge_into_txes. rewrite Hlast. cbn [ebind]. fold outs spds. rewrite E. cbn.
    by rewrite (m_out _ _ _ _ _ _ _ _ _ H), (m_total _ _ _ _ _ _ _ _ _ H).
  - intros pool resp pool' Hload. unfold load, merge_into_txes in Hload. rewrite Hlast in Hload. cbn [ebind] in Hload. fold outs spds in Hload.
    rewrite E' in Hload. cbn [ebind] in Hload. destruct (m_pool _ _ _ _ _ _ _ _ _ H' eq_refl) as [Hrec Hproc]. rewrite Hrec in Hload.
    destruct (scan_account _ _ _ _) as [[rows|err] p]; [|done]. cbn in Hload. injection Hload as <- _. exists (ms_metas st'), rows. split; [done|].
    split; [by apply (m_metas _ _ _ _ _ _ _ _ _ H')|]. cbn.
    by rewrite pool_rows_out, Hproc, (m_out _ _ _ _ _ _ _ _ _ H'), Hl.
Qed.
End load_spec.

(** ** Two transactions, one of which spends an output of the other *)
Module TransactionsSample.
Import Reference.

#[local] Existing Instance SubaddressSample.crypto.
#[local] Existing Instance OwnershipTest.OwnershipSample.wallet_crypto.

Definition received (height tx_hash low amount : Z) : output :=
  Output (TransactionLink height tx_hash) (SpendMeta (OutputId 0 low) amount 11 0 77) 500 0 0 low 0 0 0 0 address_index_primary.
Definition spent (height tx_hash low : Z) : spend :=
  Spend (TransactionLink height tx_hash) 900 (OutputId 0 low) 600 0 11 0 0 address_index_primary.

Definition outs : list output := [received 1 20 5 100; received 1 20 6 50; received 3 30 7 90].
Definition spds : list spend := [spent 2 25 6; spent 3 30 5].
Definition user : account := ChainSample.user.
Definition db : tables :=
  with_spends (foldl (fun t s => put (d:=spends) 1 s t) (t_spends empty_tables) spds)
    (with_outputs (foldl (fun t o => put (d:=outputs) 1 o t) (t_outputs empty_tables) outs) ChainSample.db).

Lemma db_outs : get_outputs (acc_id user) db = outs.
Proof. vm_compute. reflexivity. Qed.
Lemma db_spends : get_spends (acc_id user) db = spds.
Proof. vm_compute. reflexivity. Qed.

Definition no_order (t : pool_table) : list (hash * pool_entry) := map_to_list t.
Definition shown : expect (list (Z * Z * Z)) :=
  let* r := load no_order UpdateSample.no_string db user None false in
  Ok ((fun tx => (tl_tx_hash (tx_link tx), tx_amount tx, gt_spent tx)) <$> at_transactions r.1).
Lemma shown_eq : shown = Ok [(20, 150, 0); (25, 0, 50); (30, 90, 100)].
Proof. vm_compute. reflexivity. Qed.

Lemma history : history_ok outs spds.
Proof.
  split_and!.
  - intros l r Hl Hr. unfold outs, spds in *. cbn in Hl, Hr. rewrite !elem_of_cons, elem_of_nil in Hl, Hr.
    destruct Hl as [->|[->|[->|[->|[->|[]]]]]], Hr as [->|[->|[->|[->|[->|[]]]]]]; cbn; intros E; first [reflexivity|discriminate].
  - intros o Ho. unfold outs in Ho. rewrite !elem_of_cons, elem_of_nil in Ho. unfold in_u64, u64_max.
    destruct Ho as [->|[->|[->|[]]]]; cbn; lia.
  - apply (bool_decide_unpack _). vm_compute. exact I.
  - intros x Hx. unfold spds in Hx. rewrite !elem_of_cons, elem_of_nil in Hx. unfold outs. destruct Hx as [->|[->|[]]].
    + exists (received 1 20 6 50). split; [right; left|]. done.
    + exists (received 1 20 5 100). split; [left|]. done.
Qed.

Lemma load_groups_transactions_witness :
  exists links, StronglySorted by_link links /\
    load no_order UpdateSample.no_string db user None true =
      Ok (GetAddressTxsResponse 240 3 1 3 0 (grouped true false outs outs spds <$> links) address_index_primary None, None).
Proof.
  destruct (load_groups_transactions no_order UpdateSample.no_string db user true (BlockInfo 3 103)) as (links & Hs & _ & Hload & _).
  - rewrite db_outs, db_spends. exact history.
  - vm_compute. reflexivity.
  - exists links. split; [exact Hs|]. rewrite db_outs, db_spends in Hload. exact Hload.
Defined.
End TransactionsSample.
