(* ===== verification/Rest.v ===== *)
(** The endpoints wallets call (src/rest_server.cpp), with the checks of
    src/rpc/login.cpp: what each handler does to the database and answers, from
    the parsed request on. The JSON of requests and responses is in WalletJson.v,
    HTTP in RestServer.v, and the
    requests that wait in queues are in RestQueue.v; module [Shared] is the
    protocol by which concurrent requests share one call to the daemon. *)

From stdpp Require Import gmap.
From S2P Require Import Prelude Data Account Lmdb Tables Chain Subaddress Accounts Update OwnershipTest Mempool Transactions.
Import Pool.

Record account_credentials := AccountCredentials { cr_address : account_address; cr_key : secret_key }.

Record runtime_options := RuntimeOptions {
  max_subaddresses_ : Z;
  disable_admin_auth : bool;
  auto_accept_creation : bool;
  auto_accept_import : bool
}.

(** The limits on unlocking of cryptonote_config.h. *)
Class UnlockRules := {
  CRYPTONOTE_MAX_BLOCK_NUMBER : Z;
  LOCKED_TX_ALLOWED_DELTA_SECONDS : Z;
  LOCKED_TX_ALLOWED_DELTA_BLOCKS : Z;
  DEFAULT_TX_SPENDABLE_AGE : Z
}.

(** [std::chrono::seconds] of an unsigned number: its count is signed. The
    product that makes nanoseconds of it is signed too; where C++ leaves its
    overflow undefined, it wraps here. *)
Definition s64 (z : Z) : Z := (z + 2 ^ 63) mod 2 ^ 64 - 2 ^ 63.
Definition nanoseconds (seconds : Z) : Z := s64 (seconds * 1000000000).

Definition is_locked `{UnlockRules} (now_ns unlock_time : Z) (last tx_height : block_id) : bool :=
  if CRYPTONOTE_MAX_BLOCK_NUMBER <? unlock_time then
    s64 (now_ns + nanoseconds LOCKED_TX_ALLOWED_DELTA_SECONDS) <? nanoseconds (s64 unlock_time)
  else if u64 (u64 (last - 1) + LOCKED_TX_ALLOWED_DELTA_BLOCKS) <? unlock_time then true
  else last <? u64 (tx_height + DEFAULT_TX_SPENDABLE_AGE).

(** [GetFeeEstimate::Response] *)
Record fee_estimate := FeeEstimate {
  fe_estimated_base_fee : Z;
  fe_fee_mask : Z;
  fe_size_scale : Z;
  fe_fees : list Z
}.

(** ** Requests *)
Record get_unspent_outs_request := GetUnspentOutsRequest {
  uo_amount : Z;
  uo_dust_threshold : option Z;
  uo_mixin : option Z;
  uo_use_dust : option bool;
  uo_creds : account_credentials
}.
Record import_request_ := ImportRequest {
  ir_creds : account_credentials;
  ir_from_height : Z;
  ir_lookahead : address_index
}.
Record login_request := LoginRequest {
  lr_creds : account_credentials;
  lr_lookahead : address_index;
  lr_create_account : bool;
  lr_generated_locally : bool
}.
Record provision_subaddrs_request := ProvisionSubaddrsRequest {
  ps_creds : account_credentials;
  ps_maj_i : option Z;
  ps_min_i : option Z;
  ps_n_maj : option Z;
  ps_n_min : option Z;
  ps_get_all : option bool
}.
Record upsert_subaddrs_request := UpsertSubaddrsRequest {
  us_creds : account_credentials;
  us_subaddrs : list subaddress_dict;
  us_get_all : option bool
}.

(** ** Responses *)
Record get_address_info_response := GetAddressInfoResponse {
  ai_locked_funds : Z;
  ai_total_received : Z;
  ai_total_sent : Z;
  ai_scanned_height : Z;
  ai_start_height : Z;
  ai_blockchain_height : Z;
  ai_lookahead_fail : Z;
  ai_spent_outputs : list transaction_spend;
  ai_lookahead : address_index
}.
Record get_unspent_outs_response := GetUnspentOutsResponse {
  uo_per_byte_fee : Z;
  uo_fee_mask : Z;
  uo_received : Z;
  uo_lookahead_fail : Z;
  uo_outputs : list (output * list key_image_t);
  uo_fees : list Z;
  uo_user_key : secret_key
}.
Record import_response := ImportResponse {
  ip_import_fee : Z;
  ip_status : string;
  ip_lookahead : address_index;
  ip_new_request : bool;
  ip_request_fulfilled : bool
}.
Record login_response := LoginResponse {
  lg_new_address : bool;
  lg_generated_locally : bool;
  lg_lookahead : address_index
}.
Record new_subaddrs_response := NewSubaddrsResponse {
  ns_new_subaddrs : list subaddress_dict;
  ns_all_subaddrs : list subaddress_dict
}.

(** [get_info] of the daemon, and what [daemon_status] makes of it. *)
Inductive daemon_state := daemon_ok | no_connections | synchronizing | unavailable.
Record daemon_info := DaemonInfo {
  di_outgoing_connections_count : Z;
  di_incoming_connections_count : Z;
  di_height : Z;
  di_target_height : Z
}.
Definition daemon_status_state (resp : daemon_info) : daemon_state :=
  if (di_outgoing_connections_count resp =? 0) && (di_incoming_connections_count resp =? 0) then no_connections
  else if negb (di_target_height resp =? 0) && (5 <=? u64 (di_target_height resp - di_height resp)) then synchronizing
  else daemon_ok.

(** The database behind a connection, and whether the connection has shown a
    valid view key. *)
Record connection {LM : Lmdb} := Connection { c_disk : tables; c_passed_login : bool }.
Arguments Connection {LM} _ _.
Arguments c_disk {LM} _.
Arguments c_passed_login {LM} _.

Section rest.
Context {WC : WalletCrypto} {LM : Lmdb} {VC : ViewKeyCrypto} {SC : SubaddressCrypto} {UR : UnlockRules}.
Context (start_read : tables -> expect tables) (deleted_value : tab requests -> request_info -> request_info).
Context (iterate : pool_table -> list (hash * pool_entry)) (address_string : account_address -> list Z).
Context (opts : runtime_options) (create_queue_max_ : Z).

(** ** src/rpc/login.cpp *)

Definition is_hidden (status : account_status) : bool :=
  match status with active | inactive => false | hidden => true end.

Definition key_check (creds : account_credentials) : bool :=
  match secret_key_to_public_key (cr_key creds) with
  | None => false
  | Some verify => verify =? view_public (cr_address creds)
  end.

(** The account, and the reader it was found with. *)
Definition open_account (creds : account_credentials) (disk : tables) : expect (account * tables) :=
  if negb (key_check creds) then Err (lws_err bad_view_key)
  else
    let* reader := start_read disk in
    let* user := get_account (cr_address creds) reader in
    if is_hidden user.1 then Err (lws_err account_not_found) else Ok (user.2, reader).

Definition check_lookahead (lookahead : address_index) : bool :=
  let minor := min_i lookahead in
  if negb (minor =? 0) then
    let major := maj_i lookahead in
    if u32_max / minor <? major then false else u32 (major * minor) <=? max_subaddresses_ opts
  else true.

(** ** Handlers

    A handler takes and returns the connection; an error keeps what was changed
    before it. *)
Definition handler (A : Type) : Type := connection -> expect A * connection.

Definition passed (c : connection) : connection := Connection (c_disk c) true.
Definition with_disk (disk : tables) (c : connection) : connection := Connection disk (c_passed_login c).

(** *** [get_address_info] *)
Definition info_output (now_ns : Z) (last : block_id) (st : list spend_meta * Z * Z) (o : output) : list spend_meta * Z * Z :=
  let '(metas, total_received, locked_funds) := st in
  let meta := out_spend_meta o in
  (add_meta meta metas, u64 (total_received + sme_amount meta),
   if is_locked now_ns (out_unlock_time o) last (tl_height (out_link o)) then u64 (locked_funds + sme_amount meta) else locked_funds).

Definition info_spend (metas : list spend_meta) (st : list transaction_spend * Z) (s : spend) : expect (list transaction_spend * Z) :=
  match found_meta metas (sp_source s) with
  | None => Err logic_error
  | Some meta => Ok (st.1 ++ [TransactionSpend meta s], u64 (st.2 + sme_amount meta))
  end.

Definition address_info (now_ns : Z) (user : account) (reader : tables) : expect get_address_info_response :=
  let* last := get_last_block reader in
  let '(metas, total_received, locked_funds) := foldl (info_output now_ns (bi_id last)) ([], 0, 0) (get_outputs (acc_id user) reader) in
  let* spent := efold (info_spend metas) ([], 0) (get_spends (acc_id user) reader) in
  Ok (GetAddressInfoResponse locked_funds total_received spent.2 (acc_scan_height user) (acc_start_height user) (bi_id last)
        (acc_lookahead_fail user) spent.1 (acc_lookahead user)).

Definition get_address_info (now_ns : Z) (req : account_credentials) : handler get_address_info_response := fun c =>
  match open_account req (c_disk c) with
  | Err e => (Err e, c)
  | Ok (user, reader) => (address_info now_ns user reader, passed c)
  end.

(** *** [get_address_txs] *)
Definition get_address_txs (creds : account_credentials) (receives : bool) (pool : option mempool)
    : handler (get_address_txs_response * option mempool) := fun c =>
  match open_account creds (c_disk c) with
  | Err e => (Err e, c)
  | Ok (user, reader) =>
    (let* r := load iterate address_string reader user pool receives in
     Ok (if receives
         then GetAddressTxsResponse (at_total_received r.1) (at_scanned_height r.1) (at_start_height r.1) (at_blockchain_height r.1)
                (at_lookahead_fail r.1) (at_transactions r.1) (at_lookahead r.1) (Some (cr_key creds))
         else r.1, r.2), passed c)
  end.

(** *** [get_subaddrs] *)
Definition get_subaddrs (req : account_credentials) : handler (list subaddress_dict) := fun c =>
  match open_account req (c_disk c) with
  | Err e => (Err e, c)
  | Ok (user, reader) => (Ok (get_subaddresses (acc_id user) reader), passed c)
  end.

(** *** [get_unspent_outs] *)
Definition get_images (id : output_id) (s : tables) : list key_image := dups (d:=images) (t_images s) id.

Definition unspent_output (dust_threshold mixin : Z) (reader : tables) (st : Z * list (output * list key_image_t)) (out : output)
    : Z * list (output * list key_image_t) :=
  if (sme_amount (out_spend_meta out) <? dust_threshold) || (sme_mixin_count (out_spend_meta out) <? mixin) then st
  else (u64 (st.1 + sme_amount (out_spend_meta out)), st.2 ++ [(out, ki_value <$> get_images (sme_id (out_spend_meta out)) reader)]).

(** [generate_response], with the daemon's estimate. *)
Definition unspent_response (req : get_unspent_outs_request) (rpc : expect fee_estimate) (disk : tables) : expect get_unspent_outs_response :=
  let* rpc := rpc in
  let* user := open_account (uo_creds req) disk in
  let dust_threshold := if default false (uo_use_dust req) then 0 else default 0 (uo_dust_threshold req) in
  let mixin := default 0 (uo_mixin req) in
  let '(received, unspent) := foldl (unspent_output dust_threshold mixin user.2) (0, []) (get_outputs (acc_id user.1) user.2) in
  if received <? uo_amount req then Err (lws_err not_enough_amount)
  else if (fe_size_scale rpc =? 0) || (1024 <? fe_size_scale rpc) || (fe_fee_mask rpc =? 0) then Err (lws_err bad_daemon_response)
  else Ok (GetUnspentOutsResponse (fe_estimated_base_fee rpc / fe_size_scale rpc) (fe_fee_mask rpc) received (acc_lookahead_fail user.1) unspent
             (fe_fees rpc) (cr_key (uo_creds req))).

(** *** [import_request] *)
Definition expanded_depth (req : import_request_) (record : account) : bool := ir_from_height req <? acc_start_height record.
Definition change_lookahead (req : import_request_) (record : account) : bool :=
  negb (maj_i (acc_lookahead record) =? maj_i (ir_lookahead req)) || negb (min_i (acc_lookahead record) =? min_i (ir_lookahead req)).

(** The part under the first reader: [new_request], [fulfilled], the lookahead to
    report, and the database. *)
Definition import_check (req : import_request_) (user : account) (reader disk : tables) : expect (bool * bool * address_index * tables) :=
  let lookahead := acc_lookahead user in
  let lookahead_fail := negb (acc_lookahead_fail user =? 0) in
  if negb (expanded_depth req user) && negb (change_lookahead req user) && negb lookahead_fail then Ok (false, true, lookahead, disk)
  else
    match get_request import_scan (cr_address (ir_creds req)) reader with
    | Ok _ => Ok (false, false, lookahead, disk)
    | Err e =>
      if negb (bool_decide (e = mdb_err MDB_NOTFOUND)) then Err e
      else if negb lookahead_fail && (maj_i (ir_lookahead req) <=? maj_i lookahead) && (min_i (ir_lookahead req) <=? min_i lookahead) then
        let fulfilled := negb (expanded_depth req user) in
        if negb (maj_i lookahead =? maj_i (ir_lookahead req)) && negb (min_i lookahead =? min_i (ir_lookahead req)) then
          let* disk := shrink_lookahead (cr_address (ir_creds req)) (ir_lookahead req) disk in
          Ok (negb fulfilled, fulfilled, ir_lookahead req, disk)
        else Ok (negb fulfilled, fulfilled, lookahead, disk)
      else Ok (true, false, lookahead, disk)
    end.

Definition import_status (new_request fulfilled : bool) : string :=
  if new_request then "Accepted, waiting for approval" else if fulfilled then "Approved" else "Waiting for Approval".

Definition import_handler (now : Z) (req : import_request_) : handler import_response := fun c =>
  match open_account (ir_creds req) (c_disk c) with
  | Err e => (Err e, c)
  | Ok (user, reader) =>
    let c := passed c in
    if negb (check_lookahead (ir_lookahead req)) then (Err (lws_err max_subaddresses), c)
    else
      match import_check req user reader (c_disk c) with
      | Err e => (Err e, c)
      | Ok (new_request, fulfilled, lookahead, disk) =>
        let respond fulfilled lookahead disk :=
          (Ok (ImportResponse 0 (import_status new_request fulfilled) lookahead new_request fulfilled), with_disk disk c) in
        if new_request then
          match import_request now (cr_address (ir_creds req)) (ir_from_height req) (ir_lookahead req) disk with
          | Err e => (Err e, with_disk disk c)
          | Ok disk =>
            if auto_accept_import opts then
              match accept_requests deleted_value now import_scan [cr_address (ir_creds req)] (max_subaddresses_ opts) disk with
              | Err _ => respond fulfilled address_index_primary disk
              | Ok (_, disk) => respond true (ir_lookahead req) disk
              end
            else respond fulfilled lookahead disk
          end
        else respond fulfilled lookahead disk
      end
  end.

(** *** [login] *)
Definition login (now : Z) (req : login_request) : handler (login_response * list webhook_new_account) := fun c =>
  let address := cr_address (lr_creds req) in
  if negb (key_check (lr_creds req)) then (Err (lws_err bad_view_key), c)
  else
    match start_read (c_disk c) with
    | Err e => (Err e, c)
    | Ok reader =>
      match get_account address reader with
      | Ok (status, user) =>
        if is_hidden status then (Err (lws_err account_not_found), c)
        else (Ok (LoginResponse false (negb (Z.land (acc_flags user) account_generated_locally =? 0)) (acc_lookahead user), []), passed c)
      | Err e =>
        if negb (lr_create_account req) || negb (bool_decide (e = lws_err account_not_found)) then (Err e, c)
        else if negb (check_lookahead (lr_lookahead req)) then (Err (lws_err max_subaddresses), c)
        else
          let flags := if lr_generated_locally req then account_generated_locally else default_account in
          match creation_request now create_queue_max_ address (cr_key (lr_creds req)) flags (lr_lookahead req) (c_disk c) with
          | Err e => (Err e, c)
          | Ok (hooks, disk) =>
            let c := with_disk disk c in
            if auto_accept_creation opts then
              match accept_requests deleted_value now create [address] (max_subaddresses_ opts) disk with
              | Err _ => (Ok (LoginResponse true (lr_generated_locally req) address_index_primary, hooks), c)
              | Ok (_, disk) => (Ok (LoginResponse true (lr_generated_locally req) (lr_lookahead req), hooks), passed (with_disk disk c))
              end
            else (Ok (LoginResponse true (lr_generated_locally req) address_index_primary, hooks), c)
          end
      end
    end.

(** *** Subaddresses *)
Definition all_ranges (get_all : option bool) (id : account_id) (disk : tables) : expect (list subaddress_dict) :=
  if default true get_all then let* reader := start_read disk in Ok (get_subaddresses id reader) else Ok [].

Definition provision_ranges (major_i minor_i n_major n_minor : Z) : list subaddress_dict :=
  (fun elem => (u32 elem, [(minor_i, u32 (minor_i + n_minor - 1))])) <$> seqZ major_i n_major.

Definition provision_subaddrs (req : provision_subaddrs_request) : handler new_subaddrs_response := fun c =>
  if bool_decide (ps_maj_i req = None) && bool_decide (ps_min_i req = None) && bool_decide (ps_n_min req = None) && bool_decide (ps_n_maj req = None)
  then (Err (lws_err invalid_range), c)
  else
    match open_account (ps_creds req) (c_disk c) with
    | Err e => (Err e, c)
    | Ok (user, _) =>
      let c := passed c in
      let id := acc_id user in
      let n_major := default 50 (ps_n_maj req) in
      let n_minor := default 500 (ps_n_min req) in
      let upserted :=
        if negb (n_major =? 0) && negb (n_minor =? 0) then
          if u32_max / n_major <? n_minor then Err (lws_err max_subaddresses)
          else if max_subaddresses_ opts <? u32 (n_major * n_minor) then Err (lws_err max_subaddresses)
          else upsert_subaddresses id (cr_address (ps_creds req)) (cr_key (ps_creds req))
                 (provision_ranges (default 0 (ps_maj_i req)) (default 0 (ps_min_i req)) n_major n_minor) (max_subaddresses_ opts) (c_disk c)
        else Ok ([], c_disk c) in
      match upserted with
      | Err e => (Err e, c)
      | Ok (new_ranges, disk) => (let* all := all_ranges (ps_get_all req) id disk in Ok (NewSubaddrsResponse new_ranges all), with_disk disk c)
      end
    end.

Definition upsert_subaddrs (req : upsert_subaddrs_request) : handler new_subaddrs_response := fun c =>
  if max_subaddresses_ opts =? 0 then (Err (lws_err max_subaddresses), c)
  else
    match open_account (us_creds req) (c_disk c) with
    | Err e => (Err e, c)
    | Ok (user, _) =>
      let c := passed c in
      match upsert_subaddresses (acc_id user) (cr_address (us_creds req)) (cr_key (us_creds req)) (us_subaddrs req) (max_subaddresses_ opts) (c_disk c) with
      | Err e => (Err e, c)
      | Ok (new_ranges, disk) =>
        (let* all := all_ranges (us_get_all req) (acc_id user) disk in Ok (NewSubaddrsResponse new_ranges all), with_disk disk c)
      end
    end.

(** *** Admin endpoints: the check of [call_admin] *)
Definition admin_allowed (auth : option secret_key) (disk : tables) : expect unit :=
  if disable_admin_auth opts then Ok tt
  else
    match auth with
    | None => Err (lws_err account_not_found)
    | Some key =>
      match secret_key_to_public_key key with
      | None => Err (lws_err crypto_failure)
      | Some view_public =>
        let* reader := start_read disk in
        let* user := get_account (AccountAddress view_public 0) reader in
        if bool_decide (user.1 = inactive) then Err (lws_err account_not_found)
        else if Z.land (acc_flags user.2) admin_account =? 0 then Err (lws_err account_not_found)
        else Ok tt
      end
    end.

(** *** [get_version] *)
Definition get_version (disk : tables) : block_id * Z :=
  (match (let* reader := start_read disk in get_last_block reader) with Ok b => bi_id b | Err _ => 0 end, max_subaddresses_ opts).

(** *** The endpoints as one *)
Inductive request_body :=
| AddressInfo (now_ns : Z) (creds : account_credentials)
| AddressTxs (creds : account_credentials) (receives : bool) (pool : option mempool)
| Subaddrs (creds : account_credentials)
| Import (now : Z) (req : import_request_)
| Login (now : Z) (req : login_request)
| Provision (req : provision_subaddrs_request)
| Upsert (req : upsert_subaddrs_request).

Inductive response_body :=
| AddressInfoIs (r : get_address_info_response)
| AddressTxsAre (r : get_address_txs_response)
| SubaddrsAre (r : list subaddress_dict)
| Imported (r : import_response)
| LoggedIn (r : login_response)
| NewSubaddrs (r : new_subaddrs_response).

Definition answer {A} (f : A -> response_body) (r : expect A * connection) : expect response_body * connection :=
  (let* a := r.1 in Ok (f a), r.2).

(** [call]: every one of them takes its request by POST. *)
Definition call (post : bool) (req : request_body) : handler response_body := fun c =>
  if negb post then (Err (lws_err bad_verb), c)
  else
    match req with
    | AddressInfo now_ns creds => answer AddressInfoIs (get_address_info now_ns creds c)
    | AddressTxs creds receives pool => answer (fun r => AddressTxsAre r.1) (get_address_txs creds receives pool c)
    | Subaddrs creds => answer SubaddrsAre (get_subaddrs creds c)
    | Import now req => answer Imported (import_handler now req c)
    | Login now req => answer (fun r => LoggedIn r.1) (login now req c)
    | Provision req => answer NewSubaddrs (provision_subaddrs req c)
    | Upsert req => answer NewSubaddrs (upsert_subaddrs req c)
    end.

Definition request_creds (req : request_body) : account_credentials :=
  match req with
  | AddressInfo _ creds | AddressTxs creds _ _ | Subaddrs creds => creds
  | Import _ req => ir_creds req
  | Login _ req => lr_creds req
  | Provision req => ps_creds req
  | Upsert req => us_creds req
  end.
End rest.

(** ** Theorems *)
Section spec.
Context {WC : WalletCrypto} {LM : Lmdb} {LL : LmdbLaws LM} {VC : ViewKeyCrypto} {SC : SubaddressCrypto} {UR : UnlockRules}.
Context (start_read : tables -> expect tables) (deleted_value : tab requests -> request_info -> request_info).
Context (iterate : pool_table -> list (hash * pool_entry)) (address_string : account_address -> list Z).
Context (opts : runtime_options) (create_queue_max_ : Z).

(** *** Who may ask *)

(** No account can be opened: the key is not the address's, or the account is
    hidden. *)
Definition stranger (creds : account_credentials) (disk : tables) : Prop :=
  key_check creds = false \/
  exists reader u, start_read disk = Ok reader /\ get_account (cr_address creds) reader = Ok (hidden, u).

Lemma stranger_not_opened creds disk : stranger creds disk -> exists e, open_account start_read creds disk = Err e.
Proof.
  unfold open_account. intros [->|(reader & u & Hr & Ha)]; [by eexists|]. destruct (negb _); [by eexists|].
  rewrite Hr. cbn. rewrite Ha. by eexists.
Qed.

(** C11: Without the view key of an address, or when its account is hidden, each
    endpoint of [request_body] answers with an error and leaves the database and
    the connection as they were. *)
Theorem strangers_change_nothing post req c :
  stranger (request_creds req) (c_disk c) ->
  exists e, call start_read deleted_value iterate address_string opts create_queue_max_ post req c = (Err e, c).
Proof.
  intros Hs. destruct (stranger_not_opened _ _ Hs) as [e He]. unfold call. destruct post; cbn [negb]; [|by eexists].
  destruct req as [now_ns creds|creds receives pool|creds|now req|now req|req|req]; cbn [request_creds] in *.
  - unfold get_address_info. rewrite He. by eexists.
  - unfold get_address_txs. rewrite He. by eexists.
  - unfold get_subaddrs. rewrite He. by eexists.
  - unfold import_handler. rewrite He. by eexists.
  - unfold login. destruct Hs as [->|(reader & u & Hr & Ha)]; [by eexists|]. destruct (negb (key_check _)); [by eexists|].
    rewrite Hr, Ha. by eexists.
  - unfold provision_subaddrs. destruct (_ && _); [by eexists|]. rewrite He. by eexists.
  - unfold upsert_subaddrs. destruct (_ =? _); [by eexists|]. rewrite He. by eexists.
Qed.

(** *** Login *)
Hypothesis reads : forall s, start_read s = Ok s.

Lemma open_account_intro creds (s : tables) st u :
  key_check creds = true -> get_account (cr_address creds) s = Ok (st, u) -> is_hidden st = false ->
  open_account start_read creds s = Ok (u, s).
Proof. intros Hk Ha Hh. unfold open_account. rewrite Hk, reads. cbn. rewrite Ha. cbn. by rewrite Hh. Qed.

(** With the right key and a new address only a clash of ids is left. *)
Lemma do_add_account_refused user (s : tables) e :
  do_add_account user s = Err e -> secret_key_to_public_key (acc_key user) = Some (view_public (acc_address user)) ->
  find_lookup (acc_address user) s = None -> e = mdb_err MDB_KEYEXIST.
Proof.
  intros H Hkey Hf. unfold do_add_account in H. rewrite Hkey, Z.eqb_refl in H. cbn [negb] in H.
  assert (forall A (o : option A) err, lmdb_check_put o = Err err -> err = mdb_err MDB_KEYEXIST) as Hput.
  { intros A [a|] err; [done|]. by intros [= <-]. }
  destruct (put_nodupdata (d:=accounts_by_address) _ _ _) as [ba|] eqn:Eput.
  - apply ebind_err in H as [H|(bh & _ & H)]; [by eapply Hput|]. apply ebind_err in H as [H|(acc & _ & H)]; [by eapply Hput|done].
  - rewrite put_nodupdata_spec in Eput by apply _. unfold find_lookup in Hf. rewrite get_both_spec in Hf by apply _.
    cbn in Eput, Hf. by rewrite Hf in Eput.
Qed.

(** The request just queued becomes an account. *)
Lemma accept_queued now address key flags lookahead max (s s1 s2 : tables) hooks stored :
  storage_ok s -> secret_key_to_public_key key = Some (view_public address) -> flags <> admin_account ->
  creation_request now create_queue_max_ address key flags lookahead s = Ok (hooks, s1) ->
  create_accounts now [address] max s1 = Ok (stored, s2) ->
  exists u, get_account address s2 = Ok (active, u) /\ acc_key u = key /\ acc_flags u = flags /\
    acc_lookahead u = lookahead.
Proof.
  intros Hok Hkey Hflags Hreq Hacc. unfold creation_request in Hreq. destruct (_ =? 0); [done|]. inv_ok Hreq.
  destruct (find_lookup address s) eqn:Ef; [done|]. destruct (_ && _); [done|]. inv_ok Hreq.
  set (info := RequestInfo address key (bi_id r0) r flags lookahead) in Hreq.
  destruct (put_nodupdata (d:=requests) create info (t_requests s)) as [t|] eqn:Ep; [|done]. injection Hreq as <- <-.
  apply (put_nodupdata_some (d:=requests)) in Ep as [-> _].
  unfold create_accounts in Hacc. inv_ok Hacc. inv_ok Hacc. inv_ok Hacc. injection Hacc as _ <-. cbn [efold] in Hr3.
  inv_ok Hr3. injection Hr3 as <-. rename r into time, r1 into time', r2 into last_id.
  set (s1 := with_requests _ s) in *. assert (storage_ok s1) as Hok1 by (by apply (storage_ok_same s)).
  destruct (find_last_id_spec (t_accounts s)) as (n & En & Hn & Hmax & Hatt). change (t_accounts s1) with (t_accounts s) in Hr2.
  rewrite En in Hr2. injection Hr2 as <-. assert (0 <= n < account_id_invalid) as Hnr.
  { destruct Hatt as [->|(st & u & Hu & <-)]; [unfold account_id_invalid, u32_max; lia|by apply (so_ids _ Hok _ _ Hu)]. }
  unfold create_one in Hr4.
  rewrite (proj2 (get_both_some (d:=requests) (t_requests s1) create (spend_public address) info)) in Hr4.
  2:{ split; [|done]. apply (elem_put (d:=requests)). by left. }
  rewrite u32_small in Hr4 by (unfold in_u32, account_id_invalid in *; lia).
  destruct (Z.eqb_spec (n + 1) account_id_invalid); [done|]. apply ebind_ok in Hr4 as ([user s3] & Hus & Hr4).
  assert (acc_id user = n + 1 /\ acc_address user = address /\ acc_key user = key /\ acc_flags user = flags /\ acc_lookahead user = lookahead /\
    t_accounts s3 = t_accounts s /\ t_accounts_ba s3 = t_accounts_ba s /\ storage_ok s3) as (Eid & Eaddr & Ekey & Eflags & El & Eacc & Eba & Hok3).
  { cbn [ri_lookahead info] in Hus. destruct (is_zero lookahead) eqn:Ez.
    - injection Hus as <- <-. unfold is_zero in Ez. destruct lookahead as [a b]. cbn in Ez. apply andb_true_iff in Ez as [->%Z.eqb_eq ->%Z.eqb_eq].
      split_and!; try done. by apply (storage_ok_same s).
    - destruct (do_lookahead _ _ _ _ _) as [[u1|e] st1] eqn:Ed; [|done]. cbn in Hus. injection Hus as <- <-.
      apply do_lookahead_user in Ed as [fail ->]. split_and!; try done. by apply (storage_ok_same s). }
  assert (forall st u0, has_account (t_accounts s3) st u0 -> acc_id u0 <> acc_id user) as Hfresh.
  { intros st u0. rewrite Eacc. intros Hu0. specialize (Hmax _ _ Hu0). lia. }
  destruct (do_add_account user s3) as [s4|e] eqn:Ea.
  - injection Hr4 as <-. apply do_add_account_ok in Ea as [H1 H2]; [|done|lia|done]. exists user. split; [|done].
    apply get_account_iff; [apply H1|]. split; [|done]. apply H2. left. split; [|done].
    rewrite Eflags. destruct (Z.eqb_spec flags admin_account); [done|done].
  - apply do_add_account_refused in Ea as ->; [discriminate Hr4|by rewrite Ekey, Eaddr|].
    unfold find_lookup in Ef |- *. by rewrite Eba, Eaddr.
Qed.

Lemma hidden_flags (b : bool) : (if b then account_generated_locally else default_account) <> admin_account.
Proof. by destruct b. Qed.

(** A login lets in: whenever the connection is marked as one with a valid
    view key, the account of the address can be opened with the same
    credentials, and has the key and the lookahead of the answer. *)
Theorem login_lets_in now req c r c' :
  storage_ok (c_disk c) -> c_passed_login c = false ->
  login start_read deleted_value opts create_queue_max_ now req c = (Ok r, c') -> c_passed_login c' = true ->
  exists u, open_account start_read (lr_creds req) (c_disk c') = Ok (u, c_disk c') /\
    acc_lookahead u = lg_lookahead r.1 /\ (lg_new_address r.1 = true -> acc_key u = cr_key (lr_creds req)).
Proof.
  intros Hok Hno H Hpass. unfold login in H. destruct (key_check (lr_creds req)) eqn:Hk; [|done]. cbn [negb] in H. rewrite reads in H.
  destruct (get_account _ (c_disk c)) as [[st u]|e] eqn:Ea.
  - destruct (is_hidden st) eqn:Eh; [done|]. injection H as <- <-. exists u. cbn. split; [by eapply open_account_intro|]. done.
  - destruct (_ || _); [done|]. destruct (negb (check_lookahead _ _)); [done|].
    destruct (creation_request _ _ _ _ _ _ _) as [[hooks s1]|] eqn:Er; [|done].
    destruct (auto_accept_creation opts).
    + destruct (accept_requests _ _ _ _ _ _) as [[stored s2]|] eqn:Eacc; [|injection H as <- <-; cbn in Hpass; congruence]. injection H as <- <-. cbn.
      cbn in Eacc. assert (secret_key_to_public_key (cr_key (lr_creds req)) = Some (view_public (cr_address (lr_creds req)))) as Hkey.
      { unfold key_check in Hk. destruct (secret_key_to_public_key _) as [v|]; [|done]. apply Z.eqb_eq in Hk. by subst. }
      destruct (accept_queued _ _ _ _ _ _ _ _ _ _ _ Hok Hkey (hidden_flags _) Er Eacc) as (u & Hu & Eu & _ & El).
      exists u. split; [by eapply open_account_intro|]. by split; [|intros _].
    + injection H as <- <-. cbn in Hpass. congruence.
Qed.
End spec.

(** ** What the answers say *)
Section answers.
Context {WC : WalletCrypto} {LM : Lmdb} {LL : LmdbLaws LM} {VC : ViewKeyCrypto} {SC : SubaddressCrypto} {UR : UnlockRules}.

Definition locked (now_ns : Z) (last : block_id) (o : output) : bool := is_locked now_ns (out_unlock_time o) last (tl_height (out_link o)).

Lemma info_outputs now_ns last os metas total lock :
  in_u64 total -> in_u64 lock -> metas_sorted metas ->
  exists metas', foldl (info_output now_ns last) (metas, total, lock) os =
      (metas', u64 (total + amounts os), u64 (lock + amounts (List.filter (locked now_ns last) os))) /\
    metas_sorted metas' /\ metas' ≡ₚ metas ++ (out_spend_meta <$> os).
Proof.
  revert metas total lock. induction os as [|o os IH]; intros metas total lock Ht Hl Hs.
  - exists metas. cbn. rewrite !Z.add_0_r, !u64_small, app_nil_r by done. by split_and!.
  - cbn [foldl info_output List.filter]. fold (locked now_ns last o). set (a := sme_amount (out_spend_meta o)).
    assert (in_u64 (if locked now_ns last o then u64 (lock + a) else lock)) as Hl' by (destruct (locked _ _ o); [apply u64_range|done]).
    destruct (IH (add_meta (out_spend_meta o) metas) (u64 (total + a)) _ (u64_range _) Hl' (add_meta_sorted _ _ Hs)) as (metas' & E & Hs' & Hp).
    exists metas'. rewrite E, u64_add_l. split; [|split; [done|]].
    + f_equal; [f_equal; f_equal; cbn; fold a; unfold amounts; lia|]. destruct (locked now_ns last o); [|done]. rewrite u64_add_l. f_equal. cbn. fold a. unfold amounts. lia.
    + rewrite Hp, add_meta_perm. cbn. by rewrite Permutation_middle.
Qed.

Lemma info_spends outs metas spds shown total :
  metas_sorted metas -> metas ≡ₚ out_spend_meta <$> outs -> NoDup (out_id <$> outs) -> in_u64 total ->
  (forall x, x ∈ spds -> exists o, o ∈ outs /\ out_id o = sp_source x) ->
  efold (info_spend metas) (shown, total) spds = Ok (shown ++ (shown_spend false outs <$> spds), u64 (total + spent_amounts false outs spds)).
Proof.
  intros Hs Hp Hnd. revert shown total. induction spds as [|x spds IH]; intros shown total Ht Hsrc.
  - cbn. by rewrite app_nil_r, Z.add_0_r, u64_small.
  - destruct (Hsrc x) as (o & Ho & Eo); [left|]. cbn [efold]. unfold info_spend at 1.
    assert (found_meta metas (sp_source x) = Some (out_spend_meta o)) as ->.
    { rewrite <- Eo. apply found_meta_unique; [done| |].
      - by rewrite Hp, <- list_fmap_compose.
      - rewrite Hp. by apply list_elem_of_fmap_2. }
    cbn [ebind fst snd]. rewrite IH; [|apply u64_range|intros y Hy; apply Hsrc; by right].
    pose proof (source_meta_unique outs o Hnd Ho) as Em. rewrite Eo in Em. rewrite u64_add_l, <- app_assoc. f_equal. f_equal.
    + by rewrite fmap_cons; unfold shown_spend at 2; rewrite Em.
    + f_equal. change (spent_amounts false outs (x :: spds)) with (sme_amount (source_meta false outs (sp_source x)) + spent_amounts false outs spds).
      rewrite Em. lia.
Qed.

(** [get_address_info] adds up the whole history: the amounts of all outputs,
    of those that are locked, and for every spend the amount of the output it
    refers to; it never fails on a database where spends refer to received
    outputs. *)
Theorem address_info_totals now_ns user reader last_block :
  let outs := get_outputs (acc_id user) reader in
  let spds := get_spends (acc_id user) reader in
  NoDup (out_id <$> outs) -> (forall x, x ∈ spds -> exists o, o ∈ outs /\ out_id o = sp_source x) ->
  get_last_block reader = Ok last_block ->
  address_info now_ns user reader =
    Ok (GetAddressInfoResponse (u64 (amounts (List.filter (locked now_ns (bi_id last_block)) outs))) (u64 (amounts outs))
          (u64 (spent_amounts false outs spds)) (acc_scan_height user) (acc_start_height user) (bi_id last_block) (acc_lookahead_fail user)
          (shown_spend false outs <$> spds) (acc_lookahead user)).
Proof.
  intros outs spds Hnd Hsrc Hlast. unfold address_info. rewrite Hlast. cbn [ebind]. fold outs spds.
  assert (in_u64 0) as H0 by (unfold in_u64, u64_max; lia).
  destruct (info_outputs now_ns (bi_id last_block) outs [] 0 0 H0 H0 ltac:(constructor)) as (metas & -> & Hs & Hp).
  cbn [app] in Hp. rewrite (info_spends outs metas spds [] 0 Hs Hp Hnd H0 Hsrc). by rewrite !Z.add_0_l.
Qed.

(** *** Unspent outputs *)
Definition wanted (dust_threshold mixin : Z) (o : output) : bool :=
  (dust_threshold <=? sme_amount (out_spend_meta o)) && (mixin <=? sme_mixin_count (out_spend_meta o)).

Lemma unspent_outputs dust mixin reader os received l :
  in_u64 received ->
  foldl (unspent_output dust mixin reader) (received, l) os =
  (u64 (received + amounts (List.filter (wanted dust mixin) os)),
   l ++ ((fun o => (o, ki_value <$> get_images (out_id o) reader)) <$> List.filter (wanted dust mixin) os)).
Proof.
  revert received l. induction os as [|o os IH]; intros received l Hr; cbn [foldl List.filter].
  { cbn. by rewrite Z.add_0_r, u64_small, app_nil_r. }
  assert ((sme_amount (out_spend_meta o) <? dust) || (sme_mixin_count (out_spend_meta o) <? mixin) = negb (wanted dust mixin o)) as Ew.
  { unfold wanted. by rewrite !Z.ltb_antisym, <- negb_andb. }
  unfold unspent_output at 2. rewrite Ew. destruct (wanted dust mixin o); cbn [negb fst snd]; [|by apply IH].
  rewrite IH by apply u64_range. rewrite u64_add_l, <- app_assoc. f_equal. f_equal. cbn. unfold amounts. lia.
Qed.

(** C12: [get_unspent_outs] offers exactly the outputs of the account that are not
    dust and have enough decoys, in the order of the chain, each with the key
    images that may have spent it; it answers only when their sum, modulo 2^64,
    covers the amount asked for and the daemon's fees make sense. *)
Theorem unspent_response_exact start_read req rpc disk r :
  unspent_response start_read req (Ok rpc) disk = Ok r <->
  exists user reader, open_account start_read (uo_creds req) disk = Ok (user, reader) /\
    let dust := if default false (uo_use_dust req) then 0 else default 0 (uo_dust_threshold req) in
    let offered := List.filter (wanted dust (default 0 (uo_mixin req))) (get_outputs (acc_id user) reader) in
    uo_amount req <= u64 (amounts offered) /\ 0 <> fe_size_scale rpc /\ fe_size_scale rpc <= 1024 /\ 0 <> fe_fee_mask rpc /\
    r = GetUnspentOutsResponse (fe_estimated_base_fee rpc / fe_size_scale rpc) (fe_fee_mask rpc) (u64 (amounts offered)) (acc_lookahead_fail user)
          ((fun o => (o, ki_value <$> get_images (out_id o) reader)) <$> offered) (fe_fees rpc) (cr_key (uo_creds req)).
Proof.
  assert (in_u64 0) as H0 by (unfold in_u64, u64_max; lia). unfold unspent_response. cbn [ebind]. split.
  - intros ([user reader] & Ho & H)%ebind_ok. exists user, reader. split; [done|]. cbn [fst snd] in H.
    rewrite unspent_outputs in H by done. cbv zeta. rewrite Z.add_0_l in H.
    destruct (Z.ltb_spec (u64 (amounts (List.filter (wanted (if default false (uo_use_dust req) then 0 else default 0 (uo_dust_threshold req)) (default 0 (uo_mixin req))) (get_outputs (acc_id user) reader)))) (uo_amount req)); [done|].
    destruct (_ || _) eqn:E; [done|]. injection H as <-. apply orb_false_iff in E as [[E1 E2]%orb_false_iff E3]. split_and!; [done|lia|lia|lia|done].
  - intros (user & reader & -> & H1 & H2 & H3 & H4 & ->). cbn [ebind fst snd]. rewrite unspent_outputs by done. rewrite Z.add_0_l.
    rewrite (proj2 (Z.ltb_ge _ _) H1). rewrite (proj2 (Z.eqb_neq _ _)) by congruence. rewrite (proj2 (Z.ltb_ge _ _) H3).
    by rewrite (proj2 (Z.eqb_neq _ _)) by congruence.
Qed.

(** *** Unlock times *)

(** The largest unlock time, with which an output is never to be spent, is taken
    as a second before 1970. *)
Lemma far_unlock_time_is_unlocked now_ns unlock_time last tx_height :
  CRYPTONOTE_MAX_BLOCK_NUMBER < unlock_time -> unlock_time = u64_max ->
  0 <= now_ns + LOCKED_TX_ALLOWED_DELTA_SECONDS * 1000000000 < 2 ^ 63 -> 0 <= LOCKED_TX_ALLOWED_DELTA_SECONDS < 1000000000 ->
  is_locked now_ns unlock_time last tx_height = false.
Proof.
  intros Hmax -> Hnow Hd. unfold is_locked. rewrite (proj2 (Z.ltb_lt _ _) Hmax).
  assert (nanoseconds (s64 u64_max) = -1000000000) as -> by reflexivity.
  unfold nanoseconds, s64. rewrite (Z.mod_small (LOCKED_TX_ALLOWED_DELTA_SECONDS * 1000000000 + 2 ^ 63)) by lia.
  rewrite Z.mod_small by lia. lia.
Qed.

(** *** The daemon's state *)

(** A daemon that has passed the height it was to reach is reported as
    synchronizing: the difference is unsigned. *)
Lemma passed_target_is_synchronizing outgoing incoming height target :
  0 < outgoing -> 0 < target < height -> height < 2 ^ 63 ->
  daemon_status_state (DaemonInfo outgoing incoming height target) = synchronizing.
Proof.
  intros Ho Ht Hh. unfold daemon_status_state. cbn [di_outgoing_connections_count di_incoming_connections_count di_height di_target_height].
  rewrite (proj2 (Z.eqb_neq outgoing 0)) by lia. rewrite (proj2 (Z.eqb_neq target 0)) by lia. cbn [andb negb].
  assert (u64 (target - height) = target - height + 2 ^ 64) as ->; [|by rewrite (proj2 (Z.leb_le _ _)) by lia].
  unfold u64. rewrite <- (Z.mod_add _ 1) by lia. rewrite Z.mod_small by lia. lia.
Qed.

(** *** Import requests *)

(** A request to shrink only one of the two indices of the lookahead is
    answered as approved, with the old lookahead, and changes nothing. *)
Theorem import_partial_shrink_ignored start_read deleted_value opts now req c user reader :
  open_account start_read (ir_creds req) (c_disk c) = Ok (user, reader) -> check_lookahead opts (ir_lookahead req) = true ->
  acc_lookahead_fail user = 0 -> acc_start_height user <= ir_from_height req ->
  maj_i (ir_lookahead req) = maj_i (acc_lookahead user) -> min_i (ir_lookahead req) < min_i (acc_lookahead user) ->
  get_request import_scan (cr_address (ir_creds req)) reader = Err (mdb_err MDB_NOTFOUND) ->
  import_handler start_read deleted_value opts now req c =
    (Ok (ImportResponse 0 "Approved" (acc_lookahead user) false true), passed c).
Proof.
  intros Ho Hc Hfail Hdepth Hmaj Hmin Hr. unfold import_handler. rewrite Ho, Hc. cbn [negb]. unfold import_check.
  rewrite Hfail, Hr, Hmaj, Z.eqb_refl, Z.leb_refl. unfold expanded_depth, change_lookahead. rewrite (proj2 (Z.ltb_ge _ _) Hdepth).
  rewrite Hmaj, Z.eqb_refl, (proj2 (Z.eqb_neq (min_i (acc_lookahead user)) (min_i (ir_lookahead req)))) by lia.
  rewrite (proj2 (Z.leb_le _ _)) by lia. by destruct c.
Qed.
End answers.

(** ** One call to the daemon for many requests

    [/daemon_status] and [/get_unspent_outs] keep the daemon's last answer for
    [daemon_cache_timeout] and let the requests that come while a call is under
    way wait for it. The lock of the cache makes every part a single step. *)
Module Shared.

Section shared.
Context {V : Type}.

(** [daemon_status] checks that there is a result, [get_unspent_outs] only its
    age; [empty] is the result before any. *)
Context (need_result : bool) (empty : V) (daemon_cache_timeout daemon_wait_queue_max : Z).

Record cached_result := CachedResult {
  status : option (list Z);
  result : option V;
  last_time : Z
}.
Definition initial_cache : cached_result := CachedResult None None 0.

(** What a waiting or asking request is told. *)
Inductive told := Got (v : V) | Refused (e : error) | DaemonFailed (e : error).

(** A request, with the error of [get_async_client] if it needs a client and gets
    none; or the end of the call. *)
Inductive event := Ask (id : Z) (client_error : option error) | Daemon (r : expect V).

Definition fresh (now : Z) (c : cached_result) : bool :=
  (negb need_result || is_some_b (result c)) && (now - last_time c <? daemon_cache_timeout).

Definition step (now : Z) (ev : event) (c : cached_result) : cached_result * list (Z * Z * told) :=
  match ev with
  | Ask id client_error =>
    if fresh now c then (c, [(id, now, Got (default empty (result c)))])
    else
      match status c with
      | Some resumers =>
        if daemon_wait_queue_max <? Z.of_nat (length resumers) then (c, [(id, now, Refused (lws_err Prelude.load))])
        else (CachedResult (Some (resumers ++ [id])) (result c) (last_time c), [])
      | None =>
        match client_error with
        | Some e => (c, [(id, now, Refused e)])
        | None => (CachedResult (Some [id]) None (last_time c), [])
        end
      end
  | Daemon r =>
    match status c with
    | None => (c, [])
    | Some resumers =>
      match r with
      | Ok v => (CachedResult None (Some v) now, (fun id => (id, now, Got v)) <$> resumers)
      | Err e => (CachedResult None None (last_time c), (fun id => (id, now, DaemonFailed e)) <$> resumers)
      end
    end
  end.

Fixpoint run (trace : list (Z * event)) (c : cached_result) : cached_result * list (Z * Z * told) :=
  match trace with
  | [] => (c, [])
  | (now, ev) :: trace =>
    let '(c, out) := step now ev c in
    let '(c, rest) := run trace c in (c, out ++ rest)
  end.

Definition asked (trace : list (Z * event)) : list Z :=
  omap (fun x => match x.2 with Ask id _ => Some id | Daemon _ => None end) trace.
Definition waiting (c : cached_result) : list Z := default [] (status c).

(** *** Every request is told once *)
Lemma step_tells now ev c :
  (step now ev c).2.*1.*1 ++ waiting (step now ev c).1 ≡ₚ waiting c ++ asked [(now, ev)].
Proof.
  unfold waiting, step. destruct ev as [id err|r]; cbn.
  - destruct (fresh now c); cbn; [by rewrite Permutation_app_comm|]. destruct (status c) as [rs|] eqn:E; cbn.
    + destruct (_ <? _); cbn; [|done]. rewrite E. cbn. by rewrite Permutation_app_comm.
    + destruct err; cbn; [by rewrite E|done].
  - destruct (status c) as [rs|] eqn:E; cbn; [|by rewrite E]. rewrite app_nil_r.
    destruct r; cbn; rewrite app_nil_r, <- !list_fmap_compose; cbn; by rewrite list_fmap_id.
Qed.

Lemma run_tells trace c : (run trace c).2.*1.*1 ++ waiting (run trace c).1 ≡ₚ waiting c ++ asked trace.
Proof.
  revert c. induction trace as [|[now ev] trace IH]; intros c; [by cbn; rewrite app_nil_r|].
  cbn [run]. pose proof (step_tells now ev c) as Hs. destruct (step now ev c) as [c1 out]. specialize (IH c1).
  destruct (run trace c1) as [c2 rest]. cbn [fst snd] in *. rewrite !fmap_app, <- app_assoc, IH, app_assoc, Hs, <- app_assoc.
  f_equiv. unfold asked. by rewrite <- omap_app.
Qed.

(** *** Bounded waiting *)
Lemma step_bounded now ev c :
  0 <= daemon_wait_queue_max -> Z.of_nat (length (waiting c)) <= daemon_wait_queue_max + 1 ->
  Z.of_nat (length (waiting (step now ev c).1)) <= daemon_wait_queue_max + 1.
Proof.
  intros H0 Hc. unfold waiting, step in *. destruct ev as [id err|r]; cbn.
  - destruct (fresh now c); cbn; [done|]. destruct (status c) as [rs|] eqn:E; cbn.
    + destruct (Z.ltb_spec daemon_wait_queue_max (Z.of_nat (length rs))); cbn; [by rewrite E|]. rewrite length_app. cbn. lia.
    + destruct err; cbn; [rewrite E; cbn|]; lia.
  - destruct (status c) as [rs|] eqn:E; cbn; [|rewrite E; cbn; lia]. destruct r; cbn; lia.
Qed.

(** *** Only recent values *)

(** The cache after [seen], at time [now]. *)
Record cache_ok (seen : list (Z * event)) (now : Z) (c : cached_result) : Prop := {
  co_value v : result c = Some v -> (last_time c, Daemon (Ok v)) ∈ seen /\ last_time c <= now;
  co_fresh : now < last_time c + daemon_cache_timeout -> is_Some (result c) /\ status c = None
}.

Definition recent (seen : list (Z * event)) (told_ : Z * Z * told) : Prop :=
  forall v, told_.2 = Got v -> exists t0, (t0, Daemon (Ok v)) ∈ seen /\ t0 <= told_.1.2 < t0 + daemon_cache_timeout.

Lemma step_recent seen before now ev c :
  0 < daemon_cache_timeout -> before <= now -> cache_ok seen before c ->
  cache_ok (seen ++ [(now, ev)]) now (step now ev c).1 /\ Forall (recent (seen ++ [(now, ev)])) (step now ev c).2.
Proof.
  intros Ht Hle [Hv Hf].
  assert (cache_ok (seen ++ [(now, ev)]) now c) as Hsame.
  { split; [|intros H; apply Hf; lia]. intros v Hr. destruct (Hv v Hr) as [H1 H2]. split; [apply elem_of_app; by left|lia]. }
  unfold step. destruct ev as [id err|r]; cbn [fst snd].
  - unfold fresh. destruct (Z.ltb_spec (now - last_time c) daemon_cache_timeout) as [Hlt|Hge]; [rewrite andb_true_r|rewrite andb_false_r].
    + destruct Hf as [[v Hr] Hs]; [lia|]. rewrite Hr. cbn [is_some_b default from_option]. rewrite orb_true_r. cbn. split; [done|].
      constructor; [|constructor]. intros w [= <-]. destruct (Hv v Hr) as [H1 H2]. exists (last_time c). cbn. split; [apply elem_of_app; by left|lia].
    + destruct (status c) as [rs|] eqn:Es; cbn.
      * destruct (_ <? _); cbn; split; try done; [by constructor|]. split; cbn; [by apply Hsame|lia].
      * destruct err; cbn; split; try done; [by constructor|]. split; cbn; [done|lia].
  - destruct (status c) as [rs|] eqn:Es; cbn; [|by split]. destruct r as [v|e]; cbn.
    + assert ((now, Daemon (Ok v)) ∈ seen ++ [(now, Daemon (Ok v))]) as Hin by (apply elem_of_app; right; left). split.
      * split; cbn; [|by intros _]. by intros w [= <-].
      * rewrite Forall_fmap, Forall_forall. intros id Hid w [= <-]. exists now. cbn. split; [done|lia].
    + split; [|rewrite Forall_fmap, Forall_forall; by intros id Hid w]. split; cbn; [done|]. intros H. destruct Hf as [_ Hs]; [lia|congruence].
Qed.

(** The clock does not go back. *)
Fixpoint clock_from (before : Z) (trace : list (Z * event)) : Prop :=
  match trace with [] => True | (now, _) :: trace => before <= now /\ clock_from now trace end.

Lemma run_recent seen before trace c :
  0 < daemon_cache_timeout -> clock_from before trace -> cache_ok seen before c ->
  Forall (recent (seen ++ trace)) (run trace c).2.
Proof.
  intros Ht. revert seen before c. induction trace as [|[now ev] trace IH]; intros seen before c Hc Hok; [constructor|].
  destruct Hc as [Hle Hc]. destruct (step_recent seen before now ev c Ht Hle Hok) as [Hok' Hout].
  cbn [run]. destruct (step now ev c) as [c1 out]. cbn [fst snd] in *. specialize (IH _ now c1 Hc Hok').
  destruct (run trace c1) as [c2 rest]. cbn [snd] in *. rewrite <- app_assoc in IH. cbn in IH. apply Forall_app. split; [|exact IH].
  eapply Forall_impl; [exact Hout|]. intros x Hx v Hxv. destruct (Hx v Hxv) as (t0 & Hin & Hr). exists t0. split; [|done].
  change ((now, ev) :: trace) with ([(now, ev)] ++ trace). rewrite app_assoc. apply elem_of_app. by left.
Qed.

Lemma run_bounded trace c :
  0 <= daemon_wait_queue_max -> Z.of_nat (length (waiting c)) <= daemon_wait_queue_max + 1 ->
  Z.of_nat (length (waiting (run trace c).1)) <= daemon_wait_queue_max + 1.
Proof.
  intros H0. revert c. induction trace as [|[now ev] trace IH]; intros c Hc; [done|]. cbn [run].
  pose proof (step_bounded now ev c H0 Hc) as Hs. destruct (step now ev c) as [c1 out]. specialize (IH c1 Hs).
  by destruct (run trace c1) as [c2 rest].
Qed.

(** C39: Whatever the order of requests and daemon answers, every request is told
    exactly one thing or is still waiting, at most one more than the limit waits
    at a time, and every value told is what a call to the daemon ended with less than the cache
    timeout before, on a clock that has run for at least that long. *)
Theorem shared_answers trace :
  0 < daemon_cache_timeout -> 0 <= daemon_wait_queue_max -> clock_from daemon_cache_timeout trace ->
  let '(c, told_) := run trace initial_cache in
  told_.*1.*1 ++ waiting c ≡ₚ asked trace /\
  Z.of_nat (length (waiting c)) <= daemon_wait_queue_max + 1 /\
  forall id t v, (id, t, Got v) ∈ told_ -> exists t0, (t0, Daemon (Ok v)) ∈ trace /\ t0 <= t < t0 + daemon_cache_timeout.
Proof.
  intros Ht H0 Hc. pose proof (run_tells trace initial_cache) as H1. pose proof (run_bounded trace initial_cache H0) as H2.
  pose proof (run_recent [] daemon_cache_timeout trace initial_cache Ht Hc) as H3. destruct (run trace initial_cache) as [c told_]. cbn in *.
  split; [exact H1|]. split; [apply H2; lia|]. intros id t v Hin.
  assert (cache_ok [] daemon_cache_timeout initial_cache) as Hok by (split; cbn; [done|lia]).
  specialize (H3 Hok). rewrite Forall_forall in H3. by apply (H3 _ Hin).
Qed.
End shared.
End Shared.

(** ** Witnesses *)
Module RestSample.
Import Reference.

#[local] Existing Instance SubaddressSample.crypto.
#[local] Existing Instance OwnershipTest.OwnershipSample.wallet_crypto.
#[local] Instance key_crypto : ViewKeyCrypto := { secret_key_to_public_key k := Some (k - 2) }.
#[local] Instance unlock_rules : UnlockRules := {
  CRYPTONOTE_MAX_BLOCK_NUMBER := 500000000;
  LOCKED_TX_ALLOWED_DELTA_SECONDS := 120;
  LOCKED_TX_ALLOWED_DELTA_BLOCKS := 1;
  DEFAULT_TX_SPENDABLE_AGE := 10
}.

Definition start_read (s : tables) : expect tables := Ok s.
Definition deleted_value (t : tab requests) (i : request_info) : request_info := i.
Definition opts : runtime_options := RuntimeOptions 1000 false true false.
Definition user : account := AccountsSample.user.
Definition db : tables := AccountsSample.db.
Definition known (key : secret_key) : account_credentials := AccountCredentials (acc_address user) key.
Definition fresh_connection : connection := Connection db false.

(** A key that is not the one of the address changes nothing. *)
Lemma strangers_change_nothing_witness :
  exists e, call start_read deleted_value TransactionsSample.no_order UpdateSample.no_string opts 10 true
    (Import 9 (ImportRequest (known 58) 0 (AddressIndex 2 2))) fresh_connection = (Err e, fresh_connection).
Proof. apply (strangers_change_nothing start_read deleted_value). left. reflexivity. Defined.

(** A new address logs in and is accepted at once. *)
Definition newcomer : login_request :=
  LoginRequest (AccountCredentials AccountsSample.other 67) address_index_primary true true.
Definition welcomed : expect (login_response * list webhook_new_account) * connection :=
  login start_read deleted_value opts 10 9 newcomer fresh_connection.
Definition welcome : login_response := LoginResponse true true address_index_primary.

Lemma login_lets_in_witness :
  exists u, open_account start_read (lr_creds newcomer) (c_disk welcomed.2) = Ok (u, c_disk welcomed.2) /\ acc_key u = 67.
Proof.
  destruct (login_lets_in start_read deleted_value opts 10 (fun s => eq_refl) 9 newcomer fresh_connection (welcome, []) welcomed.2)
    as (u & Hu & _ & Hk); [exact AccountsSample.db_ok|reflexivity|vm_compute; reflexivity|vm_compute; reflexivity|].
  exists u. split; [exact Hu|]. exact (Hk eq_refl).
Defined.

(** Three outputs, none of them old enough, and two that may be spent. *)
Lemma address_info_totals_witness :
  exists shown, address_info 0 TransactionsSample.user TransactionsSample.db =
    Ok (GetAddressInfoResponse 240 240 150 3 1 3 0 shown address_index_primary).
Proof.
  exists (shown_spend false TransactionsSample.outs <$> TransactionsSample.spds).
  rewrite (address_info_totals 0 TransactionsSample.user TransactionsSample.db (BlockInfo 3 103)).
  - rewrite TransactionsSample.db_outs, TransactionsSample.db_spends. vm_compute. reflexivity.
  - rewrite TransactionsSample.db_outs. apply (bool_decide_unpack _). vm_compute. exact I.
  - rewrite TransactionsSample.db_outs, TransactionsSample.db_spends. intros x Hx. destruct (proj2 (proj2 (proj2 TransactionsSample.history)) x Hx) as (o & Ho & Eo & _). exists o. split; [exact Ho|exact Eo].
  - vm_compute. reflexivity.
Defined.

(** A lookahead of 2 and 5 that is to become 2 and 3. *)
Definition ahead : account := set_lookahead (AddressIndex 2 5) 0 user.
Definition db_ahead : tables := with_accounts [(active, ahead)] db.
Definition shrink : import_request_ := ImportRequest (known 57) 5 (AddressIndex 2 3).

Lemma import_partial_shrink_ignored_witness :
  import_handler start_read deleted_value opts 9 shrink (Connection db_ahead false) =
    (Ok (ImportResponse 0 "Approved" (AddressIndex 2 5) false true), Connection db_ahead true).
Proof.
  apply (import_partial_shrink_ignored start_read deleted_value opts 9 shrink (Connection db_ahead false) ahead db_ahead);
    vm_compute; first [reflexivity|discriminate].
Defined.

(** Two requests share a call, a third gets the cached value, a fourth comes
    after it has expired. *)
Definition day : list (Z * Shared.event) :=
  [(10, Shared.Ask 1 None); (11, Shared.Ask 2 None); (12, Shared.Daemon (Ok 77)); (15, Shared.Ask 3 None); (22, Shared.Ask 4 None)].

Lemma shared_answers_witness :
  let '(c, told) := Shared.run true 0 10 1 day Shared.initial_cache in
  told = [(1, 12, Shared.Got 77); (2, 12, Shared.Got 77); (3, 15, Shared.Got 77)] /\ Shared.waiting c = [4] /\
  exists t0, (t0, Shared.Daemon (Ok 77)) ∈ day /\ t0 <= 15 < t0 + 10.
Proof.
  assert (Shared.clock_from 10 day) as Hc by (cbn; lia).
  pose proof (Shared.shared_answers true 0 10 1 day ltac:(lia) ltac:(lia) Hc) as H.
  destruct (Shared.run true 0 10 1 day Shared.initial_cache) as [c told] eqn:E. vm_compute in E. injection E as <- <-.
  split; [reflexivity|]. split; [reflexivity|]. destruct H as (_ & _ & H). apply (H 3).
  apply list_elem_of_In. right. right. left. reflexivity.
Defined.
End RestSample.
