(* ===== verification/RestQueue.v ===== *)
(** Requests to the daemon that wait in a queue (src/rest_server.cpp): transactions
    to relay (module [Submit]) and decoys for rings (module [Decoys]). One
    coroutine at a time serves the queue with a client of its own, and resumes every
    request when its answer is there; an exception in the coroutine of [Decoys]
    destroys the requests that wait.

    Requests arrive on any thread, under the lock of the queue; the coroutine runs
    in its strand. A step is one of these critical sections with what follows it
    up to the next wait. *)

From stdpp Require Import gmap.
From S2P Require Import Prelude Wire Data Account OwnershipTest Mempool RandomOutputs.

(** The clients for the daemon that are not in use, and whether a new one can be
    made. *)
Record client_pool := ClientPool { cp_free : nat; cp_make : expect unit }.
Definition get_async_client (p : client_pool) : expect client_pool :=
  match cp_free p with
  | S n => Ok (ClientPool n (cp_make p))
  | O => let* _ := cp_make p in Ok p
  end.
Definition store_async_client (p : client_pool) : client_pool := ClientPool (S (cp_free p)) (cp_make p).

(** ** Transactions to relay *)
Module Submit.

Record http_response := HttpResponse { hr_body : list Z; hr_status : Z }.
Definition status_ok : Z := 200.
Definition unprocessable_entity : Z := 422.

(** [submit_raw_tx_response] *)
Record submit_raw_tx_response := SubmitResponse { sr_status : list Z; sr_reason : list Z; sr_not_relayed : bool }.

Definition submit_tx_max : Z := 100 * 1024 * 1024.

(** What [parse_response] makes of the daemon's bytes: relayed or not, the error
    the daemon states, or another one. *)
Inductive reply := Answered (relayed : bool) | Status_failed (status details : list Z) | Bad_reply (e : error).

Record resumer := Resumer { rs_msg : list Z; rs_resume : nat; rs_tx : transaction }.

(** Where the coroutine waits. *)
Inductive phase := Head | Writing | Reading.
Record frame := Frame { resumers : list resumer; outstanding : Z; fr_phase : phase }.

(** [h_] are histories: who was accepted with which transaction, whose message was
    written to the daemon, and what everyone was told. *)
Record state := State {
  status : option frame;
  clients : client_pool;
  pool : option Pool.mempool;
  h_accepted : list resumer;
  h_sent : list (nat * list Z);
  h_told : list (nat * expect http_response)
}.

Section submit.
Context {WC : WalletCrypto}.
Context (parse_hexstr_to_binbuff : list Z -> option (list Z)) (parse_and_validate_tx_from_blob : list Z -> option transaction).
Context (make_message : list Z -> list Z) (json_response : submit_raw_tx_response -> expect (list Z)).
Context (parse_response : list Z -> reply).

Definition with_status (f : option frame) (s : state) : state := State f (clients s) (pool s) (h_accepted s) (h_sent s) (h_told s).
Definition with_clients (c : client_pool) (s : state) : state := State (status s) c (pool s) (h_accepted s) (h_sent s) (h_told s).
Definition accept (r : resumer) (s : state) : state := State (status s) (clients s) (pool s) (h_accepted s ++ [r]) (h_sent s) (h_told s).
Definition tell (told : list (nat * expect http_response)) (s : state) : state :=
  State (status s) (clients s) (pool s) (h_accepted s) (h_sent s) (h_told s ++ told).
Definition send (r : resumer) (s : state) : state :=
  State (status s) (clients s) (pool s) (h_accepted s) (h_sent s ++ [(rs_resume r, rs_msg r)]) (h_told s).
Definition with_pool (p : option Pool.mempool) (s : state) : state := State (status s) (clients s) p (h_accepted s) (h_sent s) (h_told s).

(** The end of [handle]: the first request makes a frame. *)
Definition start (msg tx_blob : list Z) (resume : nat) (s : state) : expect unit * state :=
  match get_async_client (clients s) with
  | Err e => (Err e, s)
  | Ok free =>
    let s := with_clients free s in
    match parse_and_validate_tx_from_blob tx_blob with
    | None => (Err (lws_err bad_client_tx), s)
    | Some tx =>
      let elem := Resumer msg resume tx in
      (Ok tt, accept elem (with_status (Some (Frame [elem] (Z.of_nat (length msg)) Head)) s))
    end
  end.

(** [handle]. What is added to [outstanding] is not taken back for a transaction
    that is refused. *)
Definition handle (tx_hex : list Z) (resume : nat) (s : state) : expect unit * state :=
  match parse_hexstr_to_binbuff tx_hex with
  | None => (Err (lws_err bad_client_tx), s)
  | Some tx_blob =>
    let msg := make_message tx_hex in
    let size := Z.of_nat (length msg) in
    match status s with
    | Some current =>
      if (u64_max - size <? outstanding current) || (submit_tx_max <? size + outstanding current) then (Err (lws_err load), s)
      else
        let outstanding := outstanding current + size in
        match parse_and_validate_tx_from_blob tx_blob with
        | None => (Err (lws_err bad_client_tx), with_status (Some (Frame (resumers current) outstanding (fr_phase current))) s)
        | Some tx =>
          let elem := Resumer msg resume tx in
          (Ok tt, accept elem (with_status (Some (Frame (resumers current ++ [elem]) outstanding (fr_phase current))) s))
        end
    | None => start msg tx_blob resume s
    end
  end.

(** [send_response] with an error: everyone in the queue is told, and the frame and
    its client are given up. *)
Definition fail_all (f : frame) (s : state) : state :=
  tell ((fun r => (rs_resume r, Err (lws_err daemon_timeout))) <$> resumers f) (with_status None s).

(** [send_response] without one. *)
Definition send_response (now : Z) (f : frame) (r : resumer) (rest : list resumer) (value : expect http_response) (relayed : bool) (s : state) : state :=
  let s := if relayed then with_pool (Pool.add_txs now [rs_tx r] <$> pool s) s else s in
  tell [(rs_resume r, value)] (with_status (Some (Frame rest (outstanding f) Head)) s).

Definition ok_response (r : submit_raw_tx_response) : expect http_response := let* body := json_response r in Ok (HttpResponse body status_ok).

(** The value for the daemon's reply, and whether the transaction was relayed. *)
Definition respond (r : reply) : expect http_response * bool :=
  match r with
  | Status_failed st details => (let* body := json_response (SubmitResponse st details false) in Ok (HttpResponse body unprocessable_entity), false)
  | Bad_reply e => (Err e, false)
  | Answered false => (ok_response (SubmitResponse (bytes_of_string "OK") (bytes_of_string "Not relayed") true), false)
  | Answered true => (ok_response (SubmitResponse (bytes_of_string "OK") [] false), true)
  end.

(** What ends a wait: an error of ZeroMQ (the timeout cancels the operation), or the
    end of the operation after the timeout had been queued. *)
Inductive wait := Failed | Late | Done.

Definition without_msg (r : resumer) : resumer := Resumer [] (rs_resume r) (rs_tx r).

Inductive event :=
| Request (tx_hex : list Z) (resume : nat)
| Loop
| Written (w : wait)
| Read (now : Z) (w : wait) (in_ : list Z).

Definition step (ev : event) (s : state) : option state :=
  match ev, status s with
  | Request tx_hex resume, _ => Some (handle tx_hex resume s).2
  | Loop, Some (Frame [] _ Head) => Some (with_clients (store_async_client (clients s)) (with_status None s))
  | Loop, Some (Frame (r :: rest) out Head) =>
    Some (send r (with_status (Some (Frame (without_msg r :: rest) (out - Z.min out (Z.of_nat (length (rs_msg r)))) Writing)) s))
  | Written w, Some (Frame l out Writing) =>
    match w with
    | Failed | Late => Some (fail_all (Frame l out Writing) s)
    | Done => Some (with_status (Some (Frame l out Reading)) s)
    end
  | Read now w in_, Some (Frame (r :: rest) out Reading) =>
    match w with
    | Failed | Late => Some (fail_all (Frame (r :: rest) out Reading) s)
    | Done =>
      let '(value, relayed) := respond (parse_response in_) in
      Some (send_response now (Frame (r :: rest) out Reading) r rest value relayed s)
    end
  | _, _ => None
  end.

Fixpoint run (evs : list event) (s : state) : option state :=
  match evs with
  | [] => Some s
  | ev :: evs => s ← step ev s; run evs s
  end.
Definition initial (free : nat) (make : expect unit) (p : option Pool.mempool) : state := State None (ClientPool free make) p [] [] [].


(** *** What every run keeps *)
Definition size (r : resumer) : nat := length (rs_msg r).
Definition unsent (f : frame) : Z := Z.of_nat (nat_sum (size <$> resumers f)).

(** The run that the invariant follows: its first state and its events. *)
Section history.
Context (begin : state).

(** The event that answered the [k]-th request that was accepted: the end of the
    read after its message was the last one written, or a wait that failed. *)
Definition answered_by (evs : list event) (k : nat) (r : resumer) (told : nat * expect http_response) : Prop :=
  told.1 = rs_resume r /\ exists evs1 ev evs2 s1,
    evs = evs1 ++ ev :: evs2 /\ run evs1 begin = Some s1 /\
    match ev with
    | Read _ Done in_ =>
      length (h_told s1) = k /\ last (h_sent s1) = Some (rs_resume r, rs_msg r) /\ told.2 = (respond (parse_response in_)).1
    | Read _ _ _ | Written Failed | Written Late => (length (h_told s1) <= k)%nat /\ told.2 = Err (lws_err daemon_timeout)
    | _ => False
    end.
Definition answers (evs : list event) (served : list resumer) (told : list (nat * expect http_response)) : Prop :=
  length served = length told /\ forall k r t, served !! k = Some r -> told !! k = Some t -> answered_by evs k r t.

Lemma run_snoc evs ev s s1 s2 : run evs s = Some s1 -> step ev s1 = Some s2 -> run (evs ++ [ev]) s = Some s2.
Proof.
  revert s. induction evs as [|e evs IH]; intros s H1 H2; cbn in *; [injection H1 as ->; by rewrite H2|].
  destruct (step e s) as [s'|]; [|done]. cbn in *. by apply IH.
Qed.
Lemma answered_more evs ev k r t : answered_by evs k r t -> answered_by (evs ++ [ev]) k r t.
Proof. intros (H1 & evs1 & e & evs2 & s1 & -> & H). split; [done|]. exists evs1, e, (evs2 ++ [ev]), s1. by rewrite <- app_assoc. Qed.
Lemma answers_more evs ev served told : answers evs served told -> answers (evs ++ [ev]) served told.
Proof. intros [Hl H]. split; [done|]. intros. by apply answered_more, H. Qed.
Lemma answers_app evs served told l lt : answers evs served told -> length l = length lt ->
  (forall k r t, l !! k = Some r -> lt !! k = Some t -> answered_by evs (length told + k) r t) -> answers evs (served ++ l) (told ++ lt).
Proof.
  intros [Hl H] Hll Hn. split; [rewrite !length_app; lia|]. intros k r t Hr Ht.
  apply lookup_app_Some in Hr as [Hr|[Hge Hr]].
  - rewrite lookup_app_l in Ht by (apply lookup_lt_Some in Hr; lia). by apply H.
  - rewrite lookup_app_r, <- Hl in Ht by lia. specialize (Hn _ r t Hr Ht). rewrite <- Hl in Hn. by replace (length served + (k - length served))%nat with k in Hn by lia.
Qed.

(** Who waits, with the messages they came with. *)
Definition frame_ok (valid : Prop) (f : frame) (waits : list resumer) (sent : list (nat * list Z)) : Prop :=
  match fr_phase f with
  | Head => resumers f = waits
  | _ => exists r rest, waits = r :: rest /\ resumers f = without_msg r :: rest /\ last sent = Some (rs_resume r, rs_msg r)
  end /\
  unsent f <= outstanding f /\ (valid -> outstanding f = unsent f) /\
  (outstanding f <= submit_tx_max \/ exists r, resumers f = [r] /\ outstanding f = Z.of_nat (size r)).

(** [valid]: no transaction so far was refused after its size had been counted. *)
Definition invariant (valid : Prop) (evs : list event) (s : state) : Prop :=
  run evs begin = Some s /\
  exists served waits, h_accepted s = served ++ waits /\ answers evs served (h_told s) /\
    match status s with Some f => frame_ok valid f waits (h_sent s) | None => waits = [] end.

Lemma unsent_app l l' out out' p p' : unsent (Frame (l ++ l') out p) = unsent (Frame l out' p') + Z.of_nat (nat_sum (size <$> l')).
Proof. unfold unsent. cbn. rewrite fmap_app, nat_sum_app. lia. Qed.

Lemma unsent_cons r rest out p out' p' : unsent (Frame (r :: rest) out p) = Z.of_nat (length (rs_msg r)) + unsent (Frame rest out' p').
Proof. unfold unsent, size. cbn. lia. Qed.

Definition parses (tx_hex : list Z) : Prop :=
  forall tx_blob, parse_hexstr_to_binbuff tx_hex = Some tx_blob -> is_Some (parse_and_validate_tx_from_blob tx_blob).

Lemma handle_ok (valid : Prop) evs tx_hex resume s :
  invariant valid evs s -> (valid -> parses tx_hex) -> invariant valid (evs ++ [Request tx_hex resume]) (handle tx_hex resume s).2.
Proof.
  intros (Hrun & served & waits & Ha & Ht%(answers_more _ (Request tx_hex resume)) & Hf) Hv.
  split; [eapply run_snoc; [exact Hrun|]; unfold step; by destruct (status s)|].
  unfold handle, start. destruct (parse_hexstr_to_binbuff tx_hex) as [blob|] eqn:Eh; [|by exists served, waits].
  set (msg := make_message tx_hex). destruct (status s) as [f|] eqn:Es.
  - destruct (Z.ltb_spec (u64_max - Z.of_nat (length msg)) (outstanding f)); [exists served, waits; cbn; by rewrite Es|].
    destruct (Z.ltb_spec submit_tx_max (Z.of_nat (length msg) + outstanding f)) as [|Hle]; [exists served, waits; cbn; by rewrite Es|]. cbn [orb].
    destruct Hf as (H1 & H2 & H3 & H4). destruct (parse_and_validate_tx_from_blob blob) as [tx|] eqn:Et.
    + exists served, (waits ++ [Resumer msg resume tx]). split_and!; [by cbn; rewrite Ha, <- app_assoc|done|]. cbn.
      assert (forall out p, unsent (Frame (resumers f ++ [Resumer msg resume tx]) out p) = unsent f + Z.of_nat (length msg)) as Hu.
      { intros out p. rewrite (unsent_app _ _ _ (outstanding f) _ (fr_phase f)). unfold unsent, size. cbn. lia. }
      split_and!; [| |intros Hva; specialize (H3 Hva)|left; cbn; lia]; cbn; rewrite ?Hu; try lia.
      destruct (fr_phase f); [by rewrite H1| |]; destruct H1 as (r & rest & -> & -> & E); by exists r, (rest ++ [Resumer msg resume tx]).
    + exists served, waits. split_and!; [done|done|]. cbn. split_and!; [done|cbn; unfold unsent in *; cbn in *; lia| |left; cbn; lia].
      intros Hva. destruct (Hv Hva blob Eh) as [tx Hx]. congruence.
  - subst waits. destruct (get_async_client (clients s)) as [free|e]; [|exists served, []; cbn; by rewrite Es].
    destruct (parse_and_validate_tx_from_blob blob) as [tx|]; [|exists served, []; cbn; by rewrite Es].
    exists served, [Resumer msg resume tx]. split_and!; [by cbn; rewrite Ha, app_nil_r|done|]. cbn.
    split_and!; [done|unfold unsent; cbn; lia|intros _; unfold unsent, size; cbn; lia|]. right. eexists. split; [reflexivity|done].
Qed.

(** A wait that fails answers everyone. *)
Lemma fail_all_ok (valid : Prop) evs ev f s served waits :
  run evs begin = Some s -> step ev s = Some (fail_all f s) ->
  match ev with Read _ Done _ | Written Done | Loop | Request _ _ => False | _ => True end ->
  h_accepted s = served ++ waits -> answers evs served (h_told s) -> rs_resume <$> resumers f = rs_resume <$> waits ->
  invariant valid (evs ++ [ev]) (fail_all f s).
Proof.
  intros Hrun Hstep Hev Ha Ht Hr. split; [by eapply run_snoc|]. exists (served ++ waits), []. cbn. rewrite app_nil_r. split_and!; [done| |done].
  apply answers_app; [by apply answers_more| |].
  - apply (f_equal length) in Hr. by rewrite !length_fmap in *.
  - intros k r t Hk Hkt. apply list_lookup_fmap_Some in Hkt as (x & -> & Hx).
    assert ((rs_resume <$> waits) !! k = Some (rs_resume x)) as E by (rewrite <- Hr, list_lookup_fmap; by rewrite Hx).
    rewrite list_lookup_fmap, Hk in E. injection E as E. split; [done|]. exists evs, ev, [], s.
    split; [done|]. split; [done|]. destruct ev as [| |[]|? []]; try done; split; try done; lia.
Qed.

Lemma submit_step_ok (valid : Prop) evs ev s s' :
  invariant valid evs s -> (valid -> forall tx_hex resume, ev = Request tx_hex resume -> parses tx_hex) -> step ev s = Some s' ->
  invariant valid (evs ++ [ev]) s'.
Proof.
  intros Hi Hv H. pose proof H as Hstep. destruct ev as [tx_hex resume| |w|now w in_].
  - assert (s' = (handle tx_hex resume s).2) as -> by (unfold step in H; by destruct (status s); injection H as <-).
    apply handle_ok; [done|]. intros Hva. by eapply Hv.
  - destruct Hi as (Hrun & served & waits & Ha & Ht%(answers_more _ Loop) & Hf). split; [by eapply run_snoc|].
    unfold step in H. destruct (status s) as [[[|r rest] out []]|] eqn:Es; try done; injection H as <-.
    + destruct Hf as [E _]. cbn in E. subst waits. by exists served, [].
    + destruct Hf as (E & H2 & H3 & H4). cbn [resumers outstanding fr_phase] in E, H2, H3, H4. subst waits.
      rewrite (unsent_cons _ _ _ _ 0 Head) in H2, H3. assert (0 <= unsent (Frame rest 0 Head)) as Hpos by (unfold unsent; lia).
      exists served, (r :: rest). split_and!; [done|done|]. cbn [status send with_status h_sent frame_ok fr_phase resumers outstanding].
      split_and!; [|rewrite (unsent_cons _ _ _ _ 0 Head); cbn [without_msg rs_msg length outstanding]; lia
        |intros Hva; specialize (H3 Hva); rewrite (unsent_cons _ _ _ _ 0 Head); cbn [without_msg rs_msg length outstanding]; lia|].
      * exists r, rest. cbn. by rewrite last_snoc.
      * destruct H4 as [H4|(r0 & [= <- ->] & ->)]; left; cbn [outstanding]; unfold size, submit_tx_max in *; lia.
  - destruct Hi as (Hrun & served & waits & Ha & Ht & Hf). unfold step in H. destruct (status s) as [[l out []]|] eqn:Es; try done.
    destruct Hf as ((r & rest & -> & E & El) & H2 & H3 & H4). cbn in E. subst l.
    destruct w; injection H as <-; [by apply (fail_all_ok _ _ _ (Frame (without_msg r :: rest) out Writing) s served (r :: rest))..|].
    split; [by eapply run_snoc|]. exists served, (r :: rest). split_and!; [done|by apply answers_more|]. cbn. split_and!; [by exists r, rest|done|done|done].
  - destruct Hi as (Hrun & served & waits & Ha & Ht & Hf). unfold step in H. destruct (status s) as [[l out []]|] eqn:Es; try done; try (by destruct l).
    destruct Hf as ((r & rest & -> & E & El) & H2 & H3 & H4). cbn in E. subst l.
    destruct w; [injection H as <-; by apply (fail_all_ok _ _ _ (Frame (without_msg r :: rest) out Reading) s served (r :: rest))..|].
    split; [by eapply run_snoc|].
    destruct (respond (parse_response in_)) as [value relayed] eqn:Er. injection H as <-.
    exists (served ++ [r]), rest. unfold send_response.
    rewrite (unsent_cons _ _ _ _ out Head) in H2, H3. cbn [without_msg rs_msg length outstanding] in H2, H3.
    assert (forall s0 : state, h_accepted s0 = h_accepted s -> h_told s0 = h_told s -> h_sent s0 = h_sent s ->
      h_accepted (tell [(rs_resume r, value)] (with_status (Some (Frame rest out Head)) s0)) = (served ++ [r]) ++ rest /\
      answers (evs ++ [Read now Done in_]) (served ++ [r]) (h_told (tell [(rs_resume r, value)] (with_status (Some (Frame rest out Head)) s0))) /\
      frame_ok valid (Frame rest out Head) rest (h_sent s0)) as Hend.
    { intros s0 Ea E1 E2. cbn. rewrite Ea, E1, Ha, <- app_assoc. split_and!; [done| |].
      - apply answers_app; [by apply answers_more|done|]. intros [|k] x t [= <-] [= <-]. split; [done|].
        exists evs, (Read now Done in_), [], s. rewrite Nat.add_0_r, Er. by split_and!.
      - split_and!; [done|cbn [outstanding]; lia|intros Hva; specialize (H3 Hva); cbn [outstanding]; lia|].
        cbn [outstanding resumers] in H4. destruct H4 as [H4|(r0 & [= <- E3] & E4)]; left; cbn [outstanding]; unfold size, submit_tx_max in *; cbn [without_msg rs_msg length] in *; lia. }
    destruct relayed; [exact (Hend (with_pool _ s) eq_refl eq_refl eq_refl)|exact (Hend s eq_refl eq_refl eq_refl)].
Qed.

Lemma run_ok (valid : Prop) before evs s s' :
  invariant valid before s -> (valid -> forall tx_hex resume, Request tx_hex resume ∈ evs -> parses tx_hex) -> run evs s = Some s' ->
  invariant valid (before ++ evs) s'.
Proof.
  revert before s. induction evs as [|ev evs IH]; intros before s Hi Hv H; cbn in H; [injection H as <-; by rewrite app_nil_r|].
  destruct (step ev s) as [s1|] eqn:E; [|done]. cbn in H. rewrite (app_assoc before [ev] evs : before ++ ev :: evs = _).
  eapply IH; [|intros Hva h r Hin; eapply Hv; [done|by right]|exact H].
  eapply submit_step_ok; [exact Hi| |exact E]. intros Hva h r ->. eapply Hv; [done|left].
Qed.
End history.

(** C21: Every transaction that is accepted is answered once, in the order of
    acceptance, or waits. The [k]-th is answered by an event of its own: the end of
    a read when [k] requests had been told and its message was the last one
    written to the daemon, with the response for the bytes of that read, or a wait
    for the daemon that failed or came too late, with [daemon_timeout]. What is
    counted for the limit is at least what waits to be written (exactly that, if
    no transaction was refused after it had been counted), and what waits is
    within the limit unless it is a single transaction. *)
Theorem submit_answers free make p evs s :
  run evs (initial free make p) = Some s ->
  exists served waits, h_accepted s = served ++ waits /\ answers (initial free make p) evs served (h_told s) /\
    match status s with
    | None => waits = []
    | Some f =>
      rs_resume <$> resumers f = rs_resume <$> waits /\ unsent f <= outstanding f /\
      (fr_phase f <> Head -> exists r rest, waits = r :: rest /\ last (h_sent s) = Some (rs_resume r, rs_msg r)) /\
      ((forall tx_hex resume, Request tx_hex resume ∈ evs -> parses tx_hex) -> outstanding f = unsent f) /\
      (unsent f <= submit_tx_max \/ exists r, resumers f = [r])
    end.
Proof.
  intros H. destruct (run_ok (initial free make p) (forall tx_hex resume, Request tx_hex resume ∈ evs -> parses tx_hex) [] evs (initial free make p) s)
    as (_ & served & waits & H1 & H2 & H3); [split; [done|]; exists [], []; split_and!; try done; split; done|done|done|].
  exists served, waits. split_and!; [done|done|]. destruct (status s) as [f|]; [|done]. destruct H3 as (H3 & H4 & H5 & H6). split_and!.
  - destruct (fr_phase f); [by rewrite H3| |]; destruct H3 as (r & rest & -> & -> & _); done.
  - done.
  - intros Hp. destruct (fr_phase f); [done| |]; destruct H3 as (r & rest & -> & _ & E); by exists r, rest.
  - done.
  - destruct H6 as [H6|(r & H6 & _)]; [left; lia|right; by exists r].
Qed.

(** Transactions that cannot be parsed use up the limit of a frame that is busy:
    after [n] of them nothing more waits, but as much more is counted. *)
Fixpoint refuse (n : nat) (tx_hex : list Z) (resume : nat) (s : state) : state :=
  match n with O => s | S n => refuse n tx_hex resume (handle tx_hex resume s).2 end.
Theorem refused_are_counted n tx_hex tx_blob resume s f :
  status s = Some f -> 0 <= outstanding f -> parse_hexstr_to_binbuff tx_hex = Some tx_blob -> parse_and_validate_tx_from_blob tx_blob = None ->
  outstanding f + Z.of_nat n * Z.of_nat (length (make_message tx_hex)) <= submit_tx_max ->
  status (refuse n tx_hex resume s) =
    Some (Frame (resumers f) (outstanding f + Z.of_nat n * Z.of_nat (length (make_message tx_hex))) (fr_phase f)) /\
  h_accepted (refuse n tx_hex resume s) = h_accepted s.
Proof.
  revert s f. induction n as [|n IH]; intros s f Hs Hpos Hh Hp Hn; cbn [refuse]; [rewrite Hs; destruct f; split; [by rewrite Z.add_0_r|done]|].
  assert ((handle tx_hex resume s).2 = with_status (Some (Frame (resumers f) (outstanding f + Z.of_nat (length (make_message tx_hex))) (fr_phase f))) s) as ->.
  { unfold handle. rewrite Hh, Hs, Hp.
    assert ((u64_max - Z.of_nat (length (make_message tx_hex)) <? outstanding f) = false) as -> by (apply Z.ltb_ge; unfold submit_tx_max, u64_max in *; lia).
    assert ((submit_tx_max <? Z.of_nat (length (make_message tx_hex)) + outstanding f) = false) as -> by (apply Z.ltb_ge; lia). done. }
  edestruct (IH (with_status (Some (Frame (resumers f) (outstanding f + Z.of_nat (length (make_message tx_hex))) (fr_phase f))) s))
    as [E1 E2]; [reflexivity|cbn; lia|done|done|cbn; lia|]. rewrite E1, E2. cbn [resumers outstanding fr_phase]. split; [|done]. by replace (outstanding f + Z.of_nat (length (make_message tx_hex)) + Z.of_nat n * Z.of_nat (length (make_message tx_hex))) with (outstanding f + Z.of_nat (S n) * Z.of_nat (length (make_message tx_hex))) by lia.
Qed.
End submit.
End Submit.

(** ** Decoys *)
Module Decoys.
Import Gamma Rings.

Definition get_random_outs_max : Z := 10000.
Definition max_ring_size : Z := 20.
Definition max_rings : Z := 150.
Definition daemon_cache_timeout : Z := 5 * 1000000000.

Record request := Request { rq_count : Z; rq_amounts : list Z }.

(** One call to the daemon: ZeroMQ failed or the timeout had been queued, or the
    reply was parsed. *)
Inductive call (A : Type) := Io_failed | Replied (r : expect A).
#[global] Arguments Io_failed {A}.
#[global] Arguments Replied {A} r.
Record distribution := Distribution { ds_amount : Z; ds_offsets : list Z }.

Section decoys.
Context {fp : Doubles} {config : MoneroConfig} {keys_of_daemon : OutputKeys} {W : Type} {random : Random W}.
(** The world with the daemon's answers, the random sources and the clock. *)
Context (get_output_histogram : list Z -> W -> call (list histogram) * W).
Context (get_output_distribution : W -> call (list distribution) * W).
Context (fetch : list output_ref -> W -> expect (list output_keys) * W).
Context (now : W -> Z) (fuel : nat).

(** What the coroutine keeps from one request to the next. *)
Record memory := Memory { distributions : list Z; last_fetch : Z }.

(** [send_response] with an error, and the value for everyone; an answer; or an
    exception that leaves the coroutine. *)
Inductive served := Gave_up (e : error) | Rings (r : list random_ring) | Thrown (e : error).
(** [std::logic_error] and [std::runtime_error] of [gamma_picker::operator()] are
    not error codes: nothing in the coroutine catches them. *)
Definition is_exception (e : error) : bool := bool_decide (e = logic_error) || bool_decide (e = runtime_error).

Definition await {A} (c : call A * W) (check : A -> bool) : (A + error) * W :=
  match c.1 with
  | Io_failed => (inr (lws_err daemon_timeout), c.2)
  | Replied (Err e) => (inr e, c.2)
  | Replied (Ok a) => (if check a then inl a else inr (lws_err bad_daemon_response), c.2)
  end.

(** How many of the sorted amounts are not zero, that is, not of RingCT outputs. *)
Definition visible (amounts : list Z) : nat := lower_bound (fun amount => 0 <? amount) amounts.

Definition histograms_for (amounts : list Z) (w : W) : (list histogram + error) * W :=
  match visible amounts with
  | O => (inl [], w)
  | S _ =>
    await (get_output_histogram (take (visible amounts) amounts) w)
      (fun hists => bool_decide (length hists = length (take (visible amounts) amounts)))
  end.

Definition distributions_for (amounts : list Z) (m : memory) (w : W) : (memory + error) * W :=
  if bool_decide (visible amounts = length amounts) then (inl m, w)
  else if negb (bool_decide (distributions m = []) || (daemon_cache_timeout <? now w - last_fetch m)) then (inl m, w)
  else
    let '(r, w) := await (get_output_distribution w) (fun l => match l with [d] => ds_amount d =? 0 | _ => false end) in
    (match r with
     | inr e => inr e
     | inl l => inl (Memory (match l with d :: _ => ds_offsets d | [] => [] end) (now w))
     end, w).

(** The round for one request; [None] when [fuel] did not do for the picker. *)
Definition serve (req : request) (m : memory) (w : W) : option (served * memory * W) :=
  let '(hists, w) := histograms_for (rq_amounts req) w in
  match hists with
  | inr e => Some (Gave_up e, m, w)
  | inl hists =>
    let '(m', w) := distributions_for (rq_amounts req) m w in
    match m' with
    | inr e => Some (Gave_up e, m, w)
    | inl m =>
      let pick_rct := make_picker (distributions m) in
      match pick_random_outputs fetch fuel (Z.to_nat (rq_count req)) (rq_amounts req) pick_rct hists w with
      | None => None
      | Some (rings, w) =>
        let m := Memory (take_offsets pick_rct).1 (last_fetch m) in
        match rings with
        | Err e => Some (if is_exception e then Thrown e else Gave_up e, m, w)
        | Ok rings => Some (Rings rings, m, w)
        end
      end
    end
  end.

(** *** The queue *)
Record resumer := Resumer { rs_request : request; rs_resume : nat }.
Record frame := Frame { resumers : list resumer; fr_memory : memory }.
(** What becomes of a request: it is resumed with a value, or it is destroyed with
    the frame and never resumed. *)
Inductive outcome := Told (value : expect (list random_ring)) | Dropped.
(** [raised]: an exception reached [run_io], which raised SIGINT and ended its
    thread. [h_told] is a history of what became of the requests. *)
Record state := State {
  status : option frame;
  clients : client_pool;
  world : W;
  raised : bool;
  h_accepted : list resumer;
  h_told : list (nat * outcome)
}.
Definition initial (free : nat) (make : expect unit) (w : W) : state := State None (ClientPool free make) w false [] [].

Definition sorted_request (req : request) : request := Request (rq_count req) (std_sort (fun l r => r <? l) (rq_amounts req)).

(** The end of [handle]: the first request makes a frame. *)
Definition start (elem : resumer) (s : state) : expect unit * state :=
  match get_async_client (clients s) with
  | Err e => (Err e, s)
  | Ok free => (Ok tt, State (Some (Frame [elem] (Memory [] 0))) free (world s) (raised s) (h_accepted s ++ [elem]) (h_told s))
  end.
Definition handle (req : request) (resume : nat) (s : state) : expect unit * state :=
  if (max_ring_size <? rq_count req) || (max_rings <? Z.of_nat (length (rq_amounts req)))
  then (Err (lws_err exceeded_rest_request_limit), s)
  else
    let elem := Resumer (sorted_request req) resume in
    match status s with
    | Some current =>
      if get_random_outs_max <? Z.of_nat (length (resumers current)) then (Err (lws_err load), s)
      else (Ok tt, State (Some (Frame (resumers current ++ [elem]) (fr_memory current))) (clients s) (world s) (raised s) (h_accepted s ++ [elem]) (h_told s))
    | None => start elem s
    end.

(** What happens next: a request, or the coroutine ends a round (or itself, when
    nobody waits). *)
Inductive event := Arrives (req : request) (resume : nat) | Round.

(** Everyone in the queue. *)
Definition all (o : outcome) (l : list resumer) : list (nat * outcome) := (fun r => (rs_resume r, o)) <$> l.

Lemma length_all o l : length (all o l) = length l.
Proof. apply length_fmap. Qed.

Definition round (s : state) : option state :=
  match status s with
  | None => None
  | Some (Frame [] m) => Some (State None (store_async_client (clients s)) (world s) (raised s) (h_accepted s) (h_told s))
  | Some (Frame (r :: rest) m) =>
    match serve (rs_request r) m (world s) with
    | None => None
    | Some (Gave_up e, _, w) => Some (State None (clients s) w (raised s) (h_accepted s) (h_told s ++ all (Told (Err e)) (r :: rest)))
    | Some (Rings rings, m, w) =>
      Some (State (Some (Frame rest m)) (clients s) w (raised s) (h_accepted s) (h_told s ++ [(rs_resume r, Told (Ok rings))]))
    | Some (Thrown _, _, w) => Some (State None (clients s) w true (h_accepted s) (h_told s ++ all Dropped (r :: rest)))
    end
  end.
Definition step (ev : event) (s : state) : option state :=
  match ev with Arrives req resume => Some (handle req resume s).2 | Round => round s end.
Fixpoint run (evs : list event) (s : state) : option state :=
  match evs with
  | [] => Some s
  | ev :: evs => s ← step ev s; run evs s
  end.

(** *** Every request is answered with rings of its own *)
Section answers.
Context (key_of : output_ref -> output_keys).
(** The daemon gives the keys of the outputs it is asked for, and cumulative
    counts. *)
Hypothesis keys_fetched :
  forall refs w result w', fetch refs w = (Ok result, w') -> length result = length refs -> result = key_of <$> refs.
Hypothesis offsets_sorted :
  forall w l d, (get_output_distribution w).1 = Replied (Ok l) -> d ∈ l -> sorted_by Z.ltb (ds_offsets d) /\ Forall in_u64 (ds_offsets d).

(** The random numbers let every draw for the daemon's histograms succeed within
    [fuel] attempts. *)
Definition draws_accepted : Prop :=
  forall amounts w l hist, (get_output_histogram amounts w).1 = Replied (Ok l) -> hist ∈ l -> accepts_within fuel hist.

Definition memory_ok (m : memory) : Prop := sorted_by Z.ltb (distributions m) /\ Forall in_u64 (distributions m).

(** The rings answer the request: they are picked from what the daemon said of its
    amounts in this round, or in an earlier one for the distribution. *)
Definition picked (req : request) (m : memory) (w : W) (rings : list random_ring) : Prop :=
  0 < rq_count req -> rq_amounts req <> [] ->
  exists hists w1 m1 w2, histograms_for (rq_amounts req) w = (inl hists, w1) /\ distributions_for (rq_amounts req) m w1 = (inl m1, w2) /\
    rings_ok key_of (Z.to_nat (rq_count req)) (rq_amounts req) (make_picker (distributions m1)) hists rings.

Lemma make_picker_offsets l : rct_offsets (make_picker l) = l.
Proof. unfold make_picker. by destruct (last l). Qed.

Lemma await_ok {A} (c : call A * W) check r w :
  await c check = (inl r, w) -> c.1 = Replied (Ok r) /\ check r = true /\ w = c.2.
Proof. unfold await. destruct c.1 as [|[a|e]]; try done. destruct (check a) eqn:E; [|done]. by intros [= <- <-]. Qed.

Lemma histograms_for_ok amounts w hists w' :
  draws_accepted -> histograms_for amounts w = (inl hists, w') -> forall hist, hist ∈ hists -> accepts_within fuel hist.
Proof.
  intros Hd. unfold histograms_for. destruct (visible amounts) as [|n] eqn:E; [by intros [= <- _] h ?%elem_of_nil|].
  rewrite <- E. intros (H1 & _ & _)%await_ok hist Hh. by eapply Hd.
Qed.

Lemma distributions_for_ok amounts m w m' w' : memory_ok m -> distributions_for amounts m w = (inl m', w') -> memory_ok m'.
Proof.
  intros Hm. unfold distributions_for. destruct (bool_decide _); [by intros [= <- _]|]. destruct (negb _); [by intros [= <- _]|].
  destruct (await _ _) as [[l|e] w1] eqn:E; [|done]. intros [= <- _]. apply await_ok in E as (H1 & H2 & _).
  destruct l as [|d [|]]; try done. eapply offsets_sorted; [exact H1|left].
Qed.

Lemma serve_ok req m w :
  memory_ok m ->
  match serve req m w with
  | Some (r, m', _) => memory_ok m' /\ forall rings, r = Rings rings -> picked req m w rings
  | None => ~ draws_accepted
  end.
Proof.
  intros Hm. unfold serve. destruct (histograms_for (rq_amounts req) w) as [[hists|e] w1] eqn:Eh; [|done].
  destruct (distributions_for (rq_amounts req) m w1) as [[m1|e] w2] eqn:Ed; [|done].
  pose proof (distributions_for_ok _ _ _ _ _ Hm Ed) as Hm1. pose proof Hm1 as [Hs Hu].
  assert (match pick_random_outputs fetch fuel (Z.to_nat (rq_count req)) (rq_amounts req) (make_picker (distributions m1)) hists w2 with
    | Some (Ok rings, _) => picked req m w rings | Some (Err _, _) => True | None => ~ draws_accepted end) as Hr.
  { destruct (decide (rq_amounts req = [])) as [E|Hne]; [|destruct (Z.to_nat (rq_count req)) as [|n] eqn:En].
    - rewrite E. unfold pick_random_outputs. destruct (Z.to_nat (rq_count req)); by intros _ ?.
    - unfold pick_random_outputs. intros Hc. lia.
    - pose proof (pick_rings fetch key_of fuel (S n) (rq_amounts req) (make_picker (distributions m1)) hists w2) as H.
      rewrite make_picker_offsets in H || unfold offsets_ok in H. rewrite ?make_picker_offsets in H.
      specialize (H (conj Hs Hu) keys_fetched ltac:(lia) Hne).
      destruct (pick_random_outputs _ _ _ _ _ _ _) as [[[rings|e] w3]|]; [|done|].
      + intros _ _. rewrite En. by eexists hists, w1, m1, w2.
      + intros Hd. apply H. intros hist. by eapply histograms_for_ok. }
  assert (memory_ok (Memory (take_offsets (make_picker (distributions m1))).1 (last_fetch m1))) as Hm' by (cbn; by rewrite make_picker_offsets).
  destruct (pick_random_outputs _ _ _ _ _ _ _) as [[[rings|e] w3]|]; [|split; [done|]; by destruct (is_exception e)|done].
  split; [done|]. by intros r' [= <-].
Qed.

Definition within_limits (r : resumer) : Prop :=
  rq_count (rs_request r) <= max_ring_size /\ Z.of_nat (length (rq_amounts (rs_request r))) <= max_rings.

Section history.
Context (begin : state).

(** The round that ended the [k]-th request that was accepted: its own, with rings
    for it, when [k] requests had ended; or one that gave up while it waited, or
    that an exception of the picker ended. *)
Definition answered_by (evs : list event) (k : nat) (r : resumer) (told : nat * outcome) : Prop :=
  told.1 = rs_resume r /\ exists evs1 evs2 s1 first rest m,
    evs = evs1 ++ Round :: evs2 /\ run evs1 begin = Some s1 /\ status s1 = Some (Frame (first :: rest) m) /\
    match serve (rs_request first) m (world s1) with
    | Some (Rings rings, _, _) =>
      length (h_told s1) = k /\ r = first /\ told.2 = Told (Ok rings) /\ picked (rs_request r) m (world s1) rings
    | Some (Gave_up e, _, _) => r ∈ first :: rest /\ told.2 = Told (Err e)
    | Some (Thrown _, _, _) => r ∈ first :: rest /\ told.2 = Dropped
    | None => False
    end.
Definition answers (evs : list event) (served : list resumer) (told : list (nat * outcome)) : Prop :=
  length served = length told /\ forall k r t, served !! k = Some r -> told !! k = Some t -> answered_by evs k r t.

Lemma rounds_snoc evs ev s s1 s2 : run evs s = Some s1 -> step ev s1 = Some s2 -> run (evs ++ [ev]) s = Some s2.
Proof.
  revert s. induction evs as [|e evs IH]; intros s H1 H2; cbn in *; [injection H1 as ->; by rewrite H2|].
  destruct (step e s) as [s'|]; [|done]. cbn in *. by apply IH.
Qed.
Lemma rounds_more evs ev served told : answers evs served told -> answers (evs ++ [ev]) served told.
Proof.
  intros [Hl H]. split; [done|]. intros k r t Hr Ht. destruct (H k r t Hr Ht) as (H1 & evs1 & evs2 & s1 & first & rest & m & -> & H2).
  split; [done|]. exists evs1, (evs2 ++ [ev]), s1, first, rest, m. by rewrite <- app_assoc.
Qed.
Lemma rounds_app evs served told l lt : answers evs served told -> length l = length lt ->
  (forall k r t, l !! k = Some r -> lt !! k = Some t -> answered_by evs (length told + k) r t) -> answers evs (served ++ l) (told ++ lt).
Proof.
  intros [Hl H] Hll Hn. split; [rewrite !length_app; lia|]. intros k r t Hr Ht.
  apply lookup_app_Some in Hr as [Hr|[Hge Hr]].
  - rewrite lookup_app_l in Ht by (apply lookup_lt_Some in Hr; lia). by apply H.
  - rewrite lookup_app_r, <- Hl in Ht by lia. specialize (Hn _ r t Hr Ht). rewrite <- Hl in Hn.
    by replace (length served + (k - length served))%nat with k in Hn by lia.
Qed.

Definition invariant (evs : list event) (s : state) : Prop :=
  run evs begin = Some s /\ Forall within_limits (h_accepted s) /\
  exists served waits, h_accepted s = served ++ waits /\ answers evs served (h_told s) /\
    match status s with
    | None => waits = []
    | Some f => resumers f = waits /\ memory_ok (fr_memory f) /\ Z.of_nat (length waits) <= get_random_outs_max + 1
    end.

Lemma arrival_ok evs req resume s : invariant evs s -> invariant (evs ++ [Arrives req resume]) (handle req resume s).2.
Proof.
  intros (Hrun & Hlim & served & waits & Ha & Ht%(rounds_more _ (Arrives req resume)) & Hf). split; [by eapply rounds_snoc|].
  unfold handle, start.
  destruct (Z.ltb_spec max_ring_size (rq_count req)); [by split; [|exists served, waits]|].
  destruct (Z.ltb_spec max_rings (Z.of_nat (length (rq_amounts req)))); [by split; [|exists served, waits]|]. cbn [orb].
  assert (within_limits (Resumer (sorted_request req) resume)) as Hw.
  { split; [done|]. cbn. by rewrite (Permutation_length (std_sort_perm _ _)). }
  assert (Forall within_limits (h_accepted s ++ [Resumer (sorted_request req) resume])) as Hlim' by (apply Forall_app; by split; [|constructor]).
  destruct (status s) as [f|] eqn:Es.
  - destruct Hf as (H1 & H2 & H3). destruct (Z.ltb_spec get_random_outs_max (Z.of_nat (length (resumers f)))); [split; [done|]; exists served, waits; cbn; by rewrite Es|].
    split; [exact Hlim'|].
    exists served, (waits ++ [Resumer (sorted_request req) resume]). cbn. rewrite Ha, <- app_assoc, H1.
    split_and!; try done. rewrite length_app. rewrite H1 in *. cbn. lia.
  - subst waits. destruct (get_async_client (clients s)); [|split; [done|]; exists served, []; cbn; by rewrite Es].
    split; [exact Hlim'|].
    exists served, [Resumer (sorted_request req) resume]. cbn. rewrite Ha, app_nil_r. split_and!; try done. split; constructor.
Qed.

Lemma round_ok evs s s' : invariant evs s -> round s = Some s' -> invariant (evs ++ [Round]) s'.
Proof.
  intros (Hrun & Hlim & served & waits & Ha & Ht & Hf) H. split; [by eapply rounds_snoc|]. unfold round in H.
  destruct (status s) as [[l m]|] eqn:Es; [|done]. destruct Hf as (H1 & H2 & H3). cbn in H1, H2. subst l.
  destruct waits as [|r rest]; [injection H as <-; split; [done|]; exists served, []; by split_and!; [|apply rounds_more|]|].
  pose proof (serve_ok (rs_request r) m (world s) H2) as Hserve.
  assert (forall k x t o, (r :: rest) !! k = Some x -> all o (r :: rest) !! k = Some t -> t = (rs_resume x, o) /\ x ∈ r :: rest) as Hall.
  { intros k x t o Hx Hk. unfold all in Hk. rewrite list_lookup_fmap, Hx in Hk. injection Hk as <-. split; [done|]. by eapply list_elem_of_lookup_2. }
  destruct (serve (rs_request r) m (world s)) as [[[[e|rings|e] m'] w']|] eqn:Eserve; [| | |done]; injection H as <-; (split; [done|]).
  - exists (served ++ r :: rest), []. cbn [h_accepted h_told status]. rewrite Ha, app_nil_r. split_and!; [done| |done].
    apply rounds_app; [by apply rounds_more|cbn [length]; by rewrite length_all|]. intros k x t Hx Hk. destruct (Hall _ _ _ _ Hx Hk) as [-> Hin].
    split; [done|]. exists evs, [], s, r, rest, m. by rewrite Eserve.
  - exists (served ++ [r]), rest. cbn [h_accepted h_told status]. rewrite Ha, <- app_assoc. split_and!; try done.
    + apply rounds_app; [by apply rounds_more|done|]. intros [|k] x t [= <-] [= <-]. split; [done|].
      exists evs, [], s, r, rest, m. rewrite Eserve, Nat.add_0_r. split_and!; try done. by apply Hserve.
    + by apply Hserve.
    + cbn in H3. lia.
  - exists (served ++ r :: rest), []. cbn [h_accepted h_told status]. rewrite Ha, app_nil_r. split_and!; [done| |done].
    apply rounds_app; [by apply rounds_more|cbn [length]; by rewrite length_all|]. intros k x t Hx Hk. destruct (Hall _ _ _ _ Hx Hk) as [-> Hin].
    split; [done|]. exists evs, [], s, r, rest, m. by rewrite Eserve.
Qed.

Lemma rounds_ok before evs s s' : invariant before s -> run evs s = Some s' -> invariant (before ++ evs) s'.
Proof.
  revert before s. induction evs as [|ev evs IH]; intros before s Hi H; cbn in H; [injection H as <-; by rewrite app_nil_r|].
  destruct (step ev s) as [s1|] eqn:E; [|done]. cbn in H. rewrite (app_assoc before [ev] evs : before ++ ev :: evs = _).
  apply (IH _ s1); [|done]. destruct ev as [req resume|]; cbn [step] in E; [|by apply (round_ok _ s)]. injection E as <-. by apply arrival_ok.
Qed.

Lemma round_ends evs s : invariant evs s -> draws_accepted -> is_Some (status s) -> is_Some (round s).
Proof.
  intros (_ & _ & served & waits & _ & _ & Hf) Hd [[[|r rest] m] Es]; unfold round; rewrite Es in *; [done|].
  pose proof (serve_ok (rs_request r) m (world s) ltac:(apply Hf)) as Hserve.
  by destruct (serve (rs_request r) m (world s)) as [[[[] ?] ?]|].
Qed.
End history.


(** An exception of the picker, for one request, takes all of them with it: none is
    resumed, and the process is told to stop. *)
Lemma exception_drops_all s r rest m e m' w' :
  status s = Some (Frame (r :: rest) m) -> serve (rs_request r) m (world s) = Some (Thrown e, m', w') ->
  exists s', round s = Some s' /\ raised s' = true /\ status s' = None /\ h_told s' = h_told s ++ all Dropped (r :: rest).
Proof. intros Hs He. unfold round. rewrite Hs, He. by eexists. Qed.
End answers.
End decoys.
End Decoys.

(** ** Samples *)

(** Two transactions and one that cannot be parsed. *)
Module SubmitSample.
Import Submit.
#[local] Existing Instance OwnershipTest.OwnershipSample.wallet_crypto.
Definition parse_hex (hex : list Z) : option (list Z) := Some hex.
Definition parse_tx (blob : list Z) : option transaction := match blob with 0 :: _ => None | _ => Some MempoolSample.sweep end.
Definition make_message (hex : list Z) : list Z := hex.
Definition json (r : submit_raw_tx_response) : expect (list Z) := Ok (sr_status r).
Definition parse_response (in_ : list Z) : reply :=
  match in_ with [1] => Answered true | [] => Bad_reply (lws_err bad_daemon_response) | _ => Status_failed in_ [] end.
Definition run := run parse_hex parse_tx make_message json parse_response.
Definition begin : state := initial 0 (Ok tt) (Some (Pool.Mempool ∅ Cache.empty_cache None)).

Definition evs : list event :=
  [Request [1; 1; 1] 1; Loop; Request [2; 2] 2; Request [0; 0; 0; 0] 3; Written Done; Read 5 Done [1]; Loop; Written Done].
Definition after (evs : list event) : state := default begin (run evs begin).

(** The second transaction is under way; the refused one is still counted. *)
Example relayed :
  (h_told (after evs), outstanding <$> status (after evs), (fun p => base.size (Pool.state_ p)) <$> pool (after evs)) =
  ([(1%nat, Ok (HttpResponse (bytes_of_string "OK") 200))], Some 4, Some 1%nat).
Proof. vm_compute. reflexivity. Qed.

Lemma submit_answers_witness :
  exists served waits, h_accepted (after evs) = served ++ waits /\
    answers parse_hex parse_tx make_message json parse_response begin evs served (h_told (after evs)) /\ length waits = 1%nat.
Proof.
  destruct (submit_answers parse_hex parse_tx make_message json parse_response 0 (Ok tt) (Some (Pool.Mempool ∅ Cache.empty_cache None)) evs (after evs))
    as (served & waits & H1 & H2 & _); [vm_compute; reflexivity|].
  exists served, waits. split; [exact H1|]. split; [exact H2|].
  destruct H2 as [El _]. pose proof (f_equal length H1) as Et. rewrite length_app, El in Et.
  assert (length (h_accepted (after evs)) = 2%nat) as Ea by (vm_compute; reflexivity).
  assert (length (h_told (after evs)) = 1%nat) as Eb by (vm_compute; reflexivity). rewrite Ea, Eb in Et. lia.
Defined.
End SubmitSample.

(** Two requests for rings of two. *)
Module DecoySample.
Import Gamma Rings Decoys.
#[local] Existing Instance RandomSample.fixed_point.
#[local] Existing Instance RandomSample.config.
#[local] Existing Instance RandomSample.counter.
#[local] Existing Instance RandomSample.keys.

Definition get_output_histogram (amounts : list Z) (w : Z) : call (list histogram) * Z :=
  (Replied (Ok ((fun amount => Histogram amount 10 8) <$> amounts)), w).
Definition get_output_distribution (w : Z) : call (list distribution) * Z := (Replied (Ok [Distribution 0 [3; 6; 9; 12; 15]]), w).
Definition now (w : Z) : Z := w.
Definition run := run get_output_histogram get_output_distribution RandomSample.daemon now 4.

Definition evs : list event := [Arrives (Request 2 [0; 7]) 1; Arrives (Request 2 [9]) 2; Round].
Definition begin : state := initial 0 (Ok tt) 1.
Definition after (evs : list event) : state := default begin (run evs begin).

Definition rings_of (o : outcome) : option (list (Z * nat)) :=
  match o with Told (Ok rings) => Some ((fun r => (rr_amount r, length (rr_ring r))) <$> rings) | _ => None end.
Example first_answered :
  (fun t => (t.1, rings_of t.2)) <$> h_told (after evs) = [(1%nat, Some [(7, 2%nat); (0, 2%nat)])].
Proof. vm_compute. reflexivity. Qed.

(** Three outputs can be spent, in a chain whose last blocks have many: a hundred
    draws are all too old, and the picker throws. The second request, which needs
    no ringct output, is lost as well. *)
Definition crowded (w : Z) : call (list distribution) * Z := (Replied (Ok [Distribution 0 [3; 3; 3; 1000000]]), w).
Example picker_throws :
  match Decoys.run get_output_histogram crowded RandomSample.daemon now 4 evs (initial 0 (Ok tt) 700) with
  | Some s => (h_told s, raised s, is_some_b (status s))
  | None => ([], false, true)
  end = ([(1%nat, Dropped); (2%nat, Dropped)], true, false).
Proof. vm_compute. reflexivity. Qed.

Lemma offsets_sorted w l d :
  (get_output_distribution w).1 = Replied (Ok l) -> d ∈ l -> sorted_by Z.ltb (ds_offsets d) /\ Forall in_u64 (ds_offsets d).
Proof. intros [= <-] ->%list_elem_of_singleton. split; repeat constructor; unfold in_u64, u64_max; lia. Qed.

End DecoySample.
