(* ===== verification/FeedConnection.v ===== *)
(** The connection of a websocket of /feed (src/rpc/feed.inl): its timer, its queue
    of writes, the loop that waits for the client's login and then for what the
    scanner publishes, and the ways it is closed. *)

From stdpp Require Import base list.
From S2P Require Import Prelude.


(** ** The connection

    Every handler runs in the connection's strand, so a handler is one step. An
    asynchronous operation is in [pending] from its start until its handler runs;
    a step names the operation that ends and its outcome. *)
Module Connection.

(** What waits for the timer: [force_close], or a copy of the loop that also
    waits for the login. *)
Inductive timer := Force_close | Notify (iteration : nat).

(** [Expired] is a wait that ended before it was cancelled. *)
Inductive op :=
| Accept
| Login_read (iteration : nat)
| Drain_read
| Zmq_read (iteration : nat)
| Write
| Close
| Ssl_shutdown
| Expired (t : timer).
#[export] Instance timer_eq_dec : EqDecision timer.
Proof. solve_decision. Defined.
#[export] Instance op_eq_dec : EqDecision op.
Proof. solve_decision. Defined.

Definition queue_max : Z := 100.

Section connection.
(** Messages; the state, the login buffer and the scanner's message of the three
    [prep_] functions. *)
Context {M S L U : Type} (error_message : error -> M).
Context (prep_login : L -> S -> expect (option M) * S) (prep_update : U -> S -> option (expect (option M) * S)).
(** Whether the socket has TLS. *)
Context (ssl : bool).

(** [cn_queued] and [cn_sent] are histories: what was put into the queue and what
    was written. *)
Record connection := Cn {
  write_queue_ : list M;
  sub_ : bool;
  timer_ : option timer;
  pull_iter_ : nat;
  sync_ : S;
  close_started_ : bool;
  cn_pending : list op;
  cn_cleaned : bool;
  cn_queued : list M;
  cn_sent : list M
}.
Definition initial (sync : S) : connection := Cn [] true None 0 sync false [Accept] false [] [].

Definition is_closing (c : connection) : bool := negb (sub_ c).

(** *** Setters *)
Definition with_pending (l : list op) (c : connection) : connection :=
  Cn (write_queue_ c) (sub_ c) (timer_ c) (pull_iter_ c) (sync_ c) (close_started_ c) l (cn_cleaned c) (cn_queued c) (cn_sent c).
Definition start_op (o : op) (c : connection) : connection := with_pending (cn_pending c ++ [o]) c.
Definition with_timer (t : option timer) (c : connection) : connection :=
  Cn (write_queue_ c) (sub_ c) t (pull_iter_ c) (sync_ c) (close_started_ c) (cn_pending c) (cn_cleaned c) (cn_queued c) (cn_sent c).
Definition shutdown_sub (c : connection) : connection :=
  Cn (write_queue_ c) false (timer_ c) (pull_iter_ c) (sync_ c) (close_started_ c) (cn_pending c) (cn_cleaned c) (cn_queued c) (cn_sent c).
Definition with_sync (s : S) (c : connection) : connection :=
  Cn (write_queue_ c) (sub_ c) (timer_ c) (pull_iter_ c) s (close_started_ c) (cn_pending c) (cn_cleaned c) (cn_queued c) (cn_sent c).
Definition set_close_started (c : connection) : connection :=
  Cn (write_queue_ c) (sub_ c) (timer_ c) (pull_iter_ c) (sync_ c) true (cn_pending c) (cn_cleaned c) (cn_queued c) (cn_sent c).
Definition push_back (m : M) (c : connection) : connection :=
  Cn (write_queue_ c ++ [m]) (sub_ c) (timer_ c) (pull_iter_ c) (sync_ c) (close_started_ c) (cn_pending c) (cn_cleaned c)
    (cn_queued c ++ [m]) (cn_sent c).
Definition pop_front (c : connection) : connection :=
  Cn (drop 1 (write_queue_ c)) (sub_ c) (timer_ c) (pull_iter_ c) (sync_ c) (close_started_ c) (cn_pending c) (cn_cleaned c)
    (cn_queued c) (cn_sent c ++ take 1 (write_queue_ c)).
Definition next_iter (c : connection) : connection :=
  Cn (write_queue_ c) (sub_ c) (timer_ c) (Datatypes.S (pull_iter_ c)) (sync_ c) (close_started_ c) (cn_pending c) (cn_cleaned c) (cn_queued c) (cn_sent c).
Definition set_cleaned (c : connection) : connection :=
  Cn (write_queue_ c) (sub_ c) (timer_ c) (pull_iter_ c) (sync_ c) (close_started_ c) (cn_pending c) true (cn_queued c) (cn_sent c).

(** *** Member functions *)
Definition start_timeout (t : timer) (c : connection) : connection := with_timer (Some t) c.
Definition do_cleanup (c : connection) : connection := set_cleaned (with_timer None (shutdown_sub c)).
Definition do_async_close (c : connection) : connection :=
  if close_started_ c then c
  else start_op Close (start_timeout Force_close (shutdown_sub (set_close_started c))).
Definition do_async_shutdown (c : connection) : connection :=
  if ssl then start_op Ssl_shutdown (start_timeout Force_close (shutdown_sub c)) else do_cleanup c.
Definition client_close (c : connection) : connection := shutdown_sub (with_timer None c).
Definition close_check (c : connection) : connection :=
  match write_queue_ c with [] => do_async_close c | _ :: _ => client_close c end.
Definition do_stop_reads (c : connection) : connection := start_op Drain_read c.

Definition async_write_queue (first : M) (c : connection) : connection := start_op Write (push_back first c).
Definition enqueue (m : M) (c : connection) : connection :=
  match write_queue_ c with [] => async_write_queue m c | _ :: _ => push_back m c end.
Definition do_write (message : expect (option M)) (c : connection) : bool * connection :=
  match message with
  | Err e => (false, enqueue (error_message e) c)
  | Ok None => (true, c)
  | Ok (Some m) => (true, enqueue m c)
  end.
Definition login (buffer : L) (c : connection) : bool * connection :=
  let '(message, sync) := prep_login buffer (sync_ c) in do_write message (with_sync sync c).
Definition push (sub_buffer : U) (c : connection) : option (bool * connection) :=
  if queue_max <? Z.of_nat (length (write_queue_ c)) then Some (false, push_back (error_message (feed_err Prelude.queue_max)) c)
  else
    r ← prep_update sub_buffer (sync_ c);
    let '(message, sync) := (r : expect (option M) * S) in
    Some (do_write message (with_sync sync c)).

(** *** [zmq_loop], at its three points of resumption

    [sync_pull] lets one copy of the loop through for every iteration. *)
Definition sync_pull (iter : nat) (c : connection) : option connection :=
  if Nat.eqb (pull_iter_ c) iter then Some (next_iter c) else None.

Definition async_zmq_wait (iteration : nat) (c : connection) : connection :=
  if is_closing c then
    match sync_pull iteration c with Some c => close_check c | None => c end
  else start_op (Zmq_read iteration) c.

Definition loop_zmq (iteration : nat) (r : option U) (c : connection) : option connection :=
  match sync_pull iteration c with
  | None => Some c
  | Some c =>
    match r with
    | None => Some (close_check c)
    | Some sub_buffer =>
      r ← push sub_buffer c;
      let '(rc, c) := (r : bool * connection) in
      Some (if rc then async_zmq_wait (Datatypes.S iteration) c else close_check c)
    end
  end.

Definition loop_login (iteration : nat) (r : option L) (c : connection) : connection :=
  match sync_pull iteration c with
  | None => c
  | Some c =>
    match r with
    | None => do_async_close c
    | Some buffer =>
      let '(rc, c) := login buffer (do_stop_reads c) in
      if rc then async_zmq_wait (Datatypes.S iteration) c else client_close c
    end
  end.

Definition do_async_read (iteration : nat) (c : connection) : connection :=
  if is_closing c then loop_login iteration None c
  else start_op (Login_read iteration) (start_timeout (Notify iteration) c).

Definition loop_accept (error : bool) (c : connection) : connection :=
  match sync_pull 0 c with
  | None => c
  | Some c => if error then do_async_close c else do_async_read 1 c
  end.

(** The handler of a write. *)
Definition wrote (error : bool) (c : connection) : connection :=
  if error then do_async_close c
  else
    let c := pop_front c in
    match write_queue_ c with
    | _ :: _ => start_op Write c
    | [] => if is_closing c then do_async_close c else c
    end.

Definition expired (t : timer) (c : connection) : connection :=
  match t with
  | Force_close => do_cleanup c
  | Notify iteration => loop_login iteration None c
  end.

(** *** Events *)
Inductive event :=
| Accepted (error : bool)
| Login_arrived (iteration : nat) (r : option L)
| Drained
| Published (iteration : nat) (r : option U)
| Wrote (error : bool)
| Closed
| Ssl_done
| Timer_expires
| Timer_handler (t : timer)
| Control (is_close : bool).

Fixpoint take_op (o : op) (l : list op) : option (list op) :=
  match l with
  | [] => None
  | x :: l => if decide (x = o) then Some l else (x ::.) <$> take_op o l
  end.

Definition ended (o : op) (c : connection) : option connection := l ← take_op o (cn_pending c); Some (with_pending l c).
Definition ending (o : op) (f : connection -> connection) (c : connection) : option connection := f <$> ended o c.

Definition is_websocket_read (o : op) : bool := match o with Login_read _ | Drain_read => true | _ => false end.

(** [None] when the event is not due, or its handler throws. *)
Definition step (ev : event) (c : connection) : option connection :=
  match ev with
  | Accepted error => ending Accept (loop_accept error) c
  | Login_arrived i r => ending (Login_read i) (loop_login i r) c
  | Drained => ending Drain_read close_check c
  | Published i r => c ← ended (Zmq_read i) c; loop_zmq i r c
  | Wrote error => ending Write (wrote error) c
  | Closed => ending Close do_async_shutdown c
  | Ssl_done => ending Ssl_shutdown do_cleanup c
  | Timer_expires => t ← timer_ c; Some (start_op (Expired t) (with_timer None c))
  | Timer_handler t => ending (Expired t) (expired t) c
  | Control is_close =>
    if existsb is_websocket_read (cn_pending c) then Some (if is_close then close_check c else c) else None
  end.

Fixpoint run (evs : list event) (c : connection) : option connection :=
  match evs with
  | [] => Some c
  | ev :: evs => c ← step ev c; run evs c
  end.
Definition reachable (c : connection) : Prop := exists sync evs, run evs (initial sync) = Some c.

(** *** What every reachable connection satisfies *)
Definition cnt (p : op -> bool) (l : list op) : nat := length (List.filter p l).
#[local] Arguments cnt : simpl never.
Definition is_accept (o : op) : bool := match o with Accept => true | _ => false end.
Definition is_login (o : op) : bool := match o with Login_read _ => true | _ => false end.
Definition is_other_login (o : op) : bool :=
  match o with Login_read i | Expired (Notify i) => negb (Nat.eqb i 1) | _ => false end.
Definition is_drain (o : op) : bool := match o with Drain_read => true | _ => false end.
Definition is_zmq (o : op) : bool := match o with Zmq_read _ => true | _ => false end.
Definition is_other_zmq (iter : nat) (o : op) : bool := match o with Zmq_read i => negb (Nat.eqb i iter) | _ => false end.
Definition is_write (o : op) : bool := match o with Write => true | _ => false end.
Definition is_close (o : op) : bool := match o with Close => true | _ => false end.
Definition is_ssl (o : op) : bool := match o with Ssl_shutdown => true | _ => false end.
Definition is_force (o : op) : bool := match o with Expired Force_close => true | _ => false end.
Definition force_waits (t : option timer) : bool := match t with Some Force_close => true | _ => false end.
Definition other_login_waits (t : option timer) : bool := match t with Some (Notify i) => negb (Nat.eqb i 1) | _ => false end.

(** Between two handlers also [live]: an open connection is waited for by one
    copy of the loop. *)
Record core (c : connection) : Prop := {
  inv_queue : cn_queued c = cn_sent c ++ write_queue_ c;
  inv_start : pull_iter_ c = 0%nat ->
    cnt is_accept (cn_pending c) = 1%nat /\ cnt is_login (cn_pending c) = 0%nat /\ cnt is_drain (cn_pending c) = 0%nat /\
    length (write_queue_ c) = 0%nat /\ sub_ c = true;
  inv_accept : (cnt is_accept (cn_pending c) <= 1)%nat /\ (cnt is_accept (cn_pending c) = 1%nat -> pull_iter_ c = 0%nat);
  inv_login : pull_iter_ c = 1%nat -> cnt is_drain (cn_pending c) = 0%nat /\ length (write_queue_ c) = 0%nat;
  inv_iter : cnt is_other_login (cn_pending c) = 0%nat /\ other_login_waits (timer_ c) = false /\
    cnt (is_other_zmq (pull_iter_ c)) (cn_pending c) = 0%nat;
  inv_reads : (cnt is_login (cn_pending c) + cnt is_drain (cn_pending c) <= 1)%nat;
  inv_zmq : (cnt is_zmq (cn_pending c) <= 1)%nat /\ ((pull_iter_ c <= 1)%nat -> cnt is_zmq (cn_pending c) = 0%nat);
  inv_write : (cnt is_write (cn_pending c) <= 1)%nat /\
    (cnt is_write (cn_pending c) = 1%nat -> (0 < length (write_queue_ c))%nat) /\
    ((0 < length (write_queue_ c))%nat -> cnt is_write (cn_pending c) = 1%nat \/ close_started_ c = true);
  inv_close : (cnt is_close (cn_pending c) + cnt is_ssl (cn_pending c) <= 1)%nat;
  inv_open : close_started_ c = false ->
    cnt is_close (cn_pending c) = 0%nat /\ cnt is_ssl (cn_pending c) = 0%nat /\ cnt is_force (cn_pending c) = 0%nat /\
    force_waits (timer_ c) = false /\ cn_cleaned c = false;
  inv_started : close_started_ c = true ->
    sub_ c = false /\ (cn_cleaned c = true \/ (cnt is_close (cn_pending c) + cnt is_ssl (cn_pending c) = 1)%nat);
  inv_closing : sub_ c = false -> cnt is_write (cn_pending c) = 1%nat \/ close_started_ c = true;
  inv_bound : (length (write_queue_ c) <= 102)%nat /\ (cnt is_zmq (cn_pending c) = 1%nat -> (length (write_queue_ c) <= 101)%nat)
}.

Lemma cnt_app p l o : cnt p (l ++ [o]) = (cnt p l + (if p o then 1 else 0))%nat.
Proof. unfold cnt. rewrite List.filter_app, length_app. cbn. by destruct (p o). Qed.

Lemma take_op_cnt o l l' p : take_op o l = Some l' -> cnt p l = (cnt p l' + (if p o then 1 else 0))%nat.
Proof.
  revert l'. induction l as [|x l IH]; intros l' H; [done|]. cbn in H. destruct (decide (x = o)) as [->|Hne].
  - injection H as ->. unfold cnt. cbn. destruct (p o); cbn; lia.
  - destruct (take_op o l) as [l1|]; [|done]. injection H as <-. specialize (IH l1 eq_refl). unfold cnt in *. cbn.
    destruct (p x); cbn; lia.
Qed.

Definition live (c : connection) : Prop :=
  sub_ c = true -> pull_iter_ c = 0%nat \/ (pull_iter_ c = 1%nat /\ cnt is_login (cn_pending c) = 1%nat) \/ cnt is_zmq (cn_pending c) = 1%nat.
Definition invariant (c : connection) : Prop := core c /\ live c.

Lemma invariant_initial sync : invariant (initial sync).
Proof. split; [|by left]. by constructor; cbn; repeat split; intros; try lia; auto. Qed.

(** Operations of an older iteration have none of the current one. *)
Lemma other_zmq_next i l : cnt is_zmq l = 0%nat -> cnt (is_other_zmq i) l = 0%nat.
Proof.
  unfold cnt. induction l as [|o l IH]; [done|]. cbn. destruct o; cbn; auto. intros; lia.
Qed.

Ltac numbers :=
  repeat match goal with
  | H : take_op ?o (cn_pending ?c) = Some ?l' |- _ =>
    let l := constr:(cn_pending c) in
    pose proof (take_op_cnt o l l' is_accept H); pose proof (take_op_cnt o l l' is_login H);
    pose proof (take_op_cnt o l l' is_other_login H); pose proof (take_op_cnt o l l' is_drain H);
    pose proof (take_op_cnt o l l' is_zmq H); pose proof (take_op_cnt o l l' (is_other_zmq (pull_iter_ c)) H);
    pose proof (take_op_cnt o l l' is_write H); pose proof (take_op_cnt o l l' is_close H);
    pose proof (take_op_cnt o l l' is_ssl H); pose proof (take_op_cnt o l l' is_force H); clear H
  end.

Ltac forward :=
  repeat match goal with
  | H : ?P -> _ |- _ =>
    match type of P with Prop => idtac end; let Hp := fresh in
    assert P as Hp by first [assumption | reflexivity | lazymatch P with @eq bool _ _ => fail | _ => lia end]; specialize (H Hp); clear Hp
  end; destruct_and?.
Ltac fold_lengths :=
  repeat match goal with
  | H : context [length (?l ++ [?x])] |- _ => rewrite length_app in H; cbn in H
  | |- context [length (?l ++ [?x])] => rewrite length_app; cbn
  end.
#[local] Arguments drop : simpl never.
#[local] Arguments take : simpl never.
Ltac close_field :=
  first [done | lia | congruence | (cbn in *; congruence) | (rewrite ?Nat.add_0_r; apply other_zmq_next; lia)
    | match goal with H : cn_queued _ = _ |- _ => by rewrite H, <- ?app_assoc, ?take_drop end
    | (by left) | (by right) | (left; lia) | (right; lia)
    | (destruct_or?; first [done | lia | (by left) | (by right) | (left; lia) | (right; lia)]) | idtac].
Ltac solve_field :=
  cbn in *; rewrite ?cnt_app, ?length_drop in *; fold_lengths; cbn in *; rewrite ?Nat.eqb_refl in *; cbn in *;
  intros; try done; forward; try done; repeat split; intros; try done; forward; close_field.

(** Closing is always fine. *)
Lemma do_async_close_core c :
  core c -> (pull_iter_ c <> 0)%nat -> core (do_async_close c) /\ sub_ (do_async_close c) = false.
Proof.
  intros Hc Hp. unfold do_async_close. destruct (close_started_ c) eqn:E; [split; [exact Hc|by apply Hc]|]. destruct Hc.
  split; [|done]. constructor; solve_field.
Qed.

Lemma client_close_core c :
  core c -> (pull_iter_ c <> 0)%nat -> (0 < length (write_queue_ c))%nat -> core (client_close c) /\ sub_ (client_close c) = false.
Proof. intros [] Hp Hq. split; [|done]. constructor; solve_field. Qed.

Lemma close_check_core c :
  core c -> (pull_iter_ c <> 0)%nat -> core (close_check c) /\ sub_ (close_check c) = false.
Proof.
  intros Hc Hp. unfold close_check. destruct (write_queue_ c) eqn:E; [by apply do_async_close_core|].
  apply client_close_core; [done|done|]. rewrite E. cbn. lia.
Qed.

Lemma do_cleanup_core c : core c -> close_started_ c = true -> core (do_cleanup c) /\ sub_ (do_cleanup c) = false.
Proof. intros [] Hs. split; [|done]. constructor; solve_field. Qed.

(** The loop is at work: it has no wait of its own pending. *)
Definition at_work (c : connection) : Prop :=
  core c /\ (2 <= pull_iter_ c)%nat /\ cnt is_zmq (cn_pending c) = 0%nat /\ (length (write_queue_ c) <= 101)%nat.

Lemma enqueue_alt m c : enqueue m c = if Nat.eqb (length (write_queue_ c)) 0 then async_write_queue m c else push_back m c.
Proof. unfold enqueue. by destruct (write_queue_ c). Qed.

Lemma enqueue_core m c :
  at_work c -> core (enqueue m c) /\ pull_iter_ (enqueue m c) = pull_iter_ c /\ cnt is_zmq (cn_pending (enqueue m c)) = 0%nat /\
    length (write_queue_ (enqueue m c)) = (length (write_queue_ c) + 1)%nat.
Proof.
  intros (Hc & Hp & Hz & Hq). rewrite enqueue_alt. destruct Hc.
  destruct (Nat.eqb_spec (length (write_queue_ c)) 0); (split; [constructor; solve_field|solve_field]).
Qed.

Lemma do_write_core message c :
  at_work c -> let '(rc, c') := do_write message c in
  core c' /\ pull_iter_ c' = pull_iter_ c /\ cnt is_zmq (cn_pending c') = 0%nat /\
    (length (write_queue_ c) <= length (write_queue_ c') <= length (write_queue_ c) + 1)%nat /\ (rc = false -> (0 < length (write_queue_ c'))%nat).
Proof.
  intros Hw. unfold do_write. destruct message as [[m|]|e].
  - destruct (enqueue_core m c Hw) as (H1 & H2 & H3 & H4). split_and!; try done; lia.
  - destruct Hw as (H1 & H2 & H3 & H4). split_and!; try done; lia.
  - destruct (enqueue_core (error_message e) c Hw) as (H1 & H2 & H3 & H4). split_and!; try done; lia.
Qed.

Lemma with_sync_work s c : at_work c -> at_work (with_sync s c).
Proof. intros ([] & Hp & Hz & Hq). split; [by constructor|done]. Qed.

Lemma push_core u c rc c' :
  at_work c -> push u c = Some (rc, c') ->
  core c' /\ pull_iter_ c' = pull_iter_ c /\ cnt is_zmq (cn_pending c') = 0%nat /\
    (rc = true -> (length (write_queue_ c') <= 101)%nat).
Proof.
  intros Hw. unfold push. destruct (Z.ltb_spec queue_max (Z.of_nat (length (write_queue_ c)))) as [Hfull|Hfree].
  - intros [= <- <-]. destruct Hw as ([] & Hp & Hz & Hq). unfold queue_max in Hfull. split_and!; [|done|done|done]. constructor; solve_field.
  - destruct (prep_update u (sync_ c)) as [[message sync]|]; [|done]. cbn [mbind option_bind]. intros [= E].
    pose proof (do_write_core message _ (with_sync_work sync c Hw)) as H.
    rewrite E in H. cbn in H. unfold queue_max in Hfree.
    destruct H as (H1 & H2 & H3 & H4 & _). split_and!; try done. lia.
Qed.

Lemma async_zmq_wait_invariant c : at_work c -> invariant (async_zmq_wait (pull_iter_ c) c).
Proof.
  intros (Hc & Hp & Hz & Hq). unfold async_zmq_wait, is_closing, sync_pull. rewrite Nat.eqb_refl. destruct (sub_ c) eqn:E; cbn.
  - destruct Hc. split; [constructor; solve_field|]. intros _. right. right. cbn. rewrite cnt_app. cbn. lia.
  - assert (core (next_iter c)) as Hn by (destruct Hc; constructor; solve_field).
    destruct (close_check_core _ Hn) as [H1 H2]; [cbn; lia|]. split; [exact H1|]. intros H. congruence.
Qed.

(** A running copy of the loop. *)
Lemma next_iter_work c :
  core c -> (1 <= pull_iter_ c)%nat -> cnt is_zmq (cn_pending c) = 0%nat -> (length (write_queue_ c) <= 101)%nat -> at_work (next_iter c).
Proof.
  intros [] Hp Hz Hq. split_and!; [|cbn; lia|done|done]. constructor; solve_field.
Qed.

(** A pending operation that ends. *)
Lemma ended_core o l c :
  core c -> take_op o (cn_pending c) = Some l -> o <> Accept -> o <> Write -> o <> Close -> o <> Ssl_shutdown -> core (with_pending l c).
Proof.
  intros [] H Ha Hw Hc Hs. numbers.
  destruct o; try done; constructor; solve_field.
Qed.

Lemma loop_login_invariant r c :
  core c -> (pull_iter_ c <> 0)%nat -> (pull_iter_ c = 1%nat -> cnt is_login (cn_pending c) = 0%nat) -> (pull_iter_ c <> 1%nat -> live c) ->
  invariant (loop_login 1 r c).
Proof.
  intros Hc Hp Hl Hlive. unfold loop_login, sync_pull. destruct (Nat.eqb_spec (pull_iter_ c) 1) as [E|E]; [|split; [done|by apply Hlive]].
  specialize (Hl E). assert (length (write_queue_ c) = 0%nat) as E0 by (apply (inv_login c Hc E)).
  assert (at_work (next_iter c)) as Hw by (apply next_iter_work; [done|lia|apply (inv_zmq c Hc); lia|lia]).
  destruct r as [buffer|].
  - assert (at_work (do_stop_reads (next_iter c))) as Hw1.
    { destruct Hw as (Hn & H1 & H2 & H3). cbn in H1, H2, H3. split_and!; cbn; rewrite ?cnt_app; cbn; try lia; try done.
      clear Hn. destruct Hc. constructor; solve_field. }
    unfold login. destruct (prep_login buffer _) as [message sync].
    pose proof (do_write_core message _ (with_sync_work sync _ Hw1)) as Hd. destruct (do_write message _) as [rc c'].
    destruct Hd as (H1 & H2 & H3 & H4 & H5). cbn in H2, H4.
    destruct rc.
    + rewrite E in H2. rewrite <- H2. apply async_zmq_wait_invariant. split_and!; [done|lia|done|lia].
    + destruct (client_close_core _ H1) as [H6 H7]; [lia|by apply H5|]. split; [done|]. intros H. congruence.
  - destruct (do_async_close_core _ (proj1 Hw)) as [H6 H7]; [cbn; lia|]. split; [done|]. intros H. congruence.
Qed.

(** An event ends its operation. *)
Lemma ending_inv o f c c' : ending o f c = Some c' -> exists l, take_op o (cn_pending c) = Some l /\ c' = f (with_pending l c).
Proof. unfold ending, ended. destruct (take_op o (cn_pending c)) as [l|]; [|done]. intros [= <-]. by exists l. Qed.
Lemma published_inv i r c c' :
  step (Published i r) c = Some c' -> exists l, take_op (Zmq_read i) (cn_pending c) = Some l /\ loop_zmq i r (with_pending l c) = Some c'.
Proof. cbn [step]. unfold ended. destruct (take_op _ (cn_pending c)) as [l|]; [|done]. cbn. intros H. by exists l. Qed.

Lemma step_accepted error c c' : invariant c -> step (Accepted error) c = Some c' -> invariant c'.
Proof.
  intros [Hc Hl] (l & E & ->)%ending_inv.
  assert (pull_iter_ c = 0%nat) as E0.
  { apply (inv_accept c Hc). pose proof (take_op_cnt _ _ _ is_accept E). pose proof (proj1 (inv_accept c Hc)). cbn in *. lia. }
  destruct (inv_start c Hc E0) as (_ & _ & _ & _ & Hs).
  assert (core (next_iter (with_pending l c))) as Hn.
  { numbers. destruct Hc. constructor; solve_field. }
  unfold loop_accept, sync_pull. cbn [with_pending pull_iter_]. rewrite E0. cbn [Nat.eqb]. destruct error.
  - destruct (do_async_close_core _ Hn) as [H9 H10]; [done|]. split; [done|]. intros H11. congruence.
  - unfold do_async_read, is_closing. cbn [next_iter with_pending sub_]. rewrite Hs. cbn [negb].
    numbers. clear Hn. destruct Hc. split; [constructor; solve_field|]. intros _. right. left. cbn. rewrite cnt_app. solve_field.
Qed.

Lemma step_login_arrived i r c c' : invariant c -> step (Login_arrived i r) c = Some c' -> invariant c'.
Proof.
  intros [Hc Hl] (l & E & ->)%ending_inv. pose proof (ended_core _ _ _ Hc E) as He.
  assert (i = 1%nat) as ->.
  { pose proof (take_op_cnt _ _ _ is_other_login E) as H. pose proof (proj1 (inv_iter c Hc)). cbn in H.
    destruct (Nat.eqb_spec i 1); [done|cbn in H; lia]. }
  assert (pull_iter_ c <> 0%nat) as Hp.
  { intros E0. pose proof (inv_start c Hc E0). pose proof (take_op_cnt _ _ _ is_login E). cbn in *. lia. }
  apply loop_login_invariant; [by apply He|done| |].
  - intros E1. cbn in *. pose proof (inv_reads c Hc). pose proof (take_op_cnt _ _ _ is_login E). cbn in *. lia.
  - intros E1 Hs. cbn in *. destruct (Hl Hs) as [H|[[H _]|H]]; [lia|lia|]. right. right.
    pose proof (take_op_cnt _ _ _ is_zmq E). cbn in *. lia.
Qed.

Lemma step_drained c c' : invariant c -> step Drained c = Some c' -> invariant c'.
Proof.
  intros [Hc Hl] (l & E & ->)%ending_inv. pose proof (ended_core _ _ _ Hc E) as He.
  destruct (close_check_core (with_pending l c)) as [H1 H2]; [by apply He| |split; [done|intros H; congruence]].
  intros E0. pose proof (inv_start c Hc E0). pose proof (take_op_cnt _ _ _ is_drain E). cbn in *. lia.
Qed.

Lemma step_published i r c c' : invariant c -> step (Published i r) c = Some c' -> invariant c'.
Proof.
  intros [Hc Hl] (l & E & Hloop)%published_inv. pose proof (ended_core _ _ _ Hc E) as He.
  pose proof (take_op_cnt _ _ _ is_zmq E) as Hz. pose proof (take_op_cnt _ _ _ (is_other_zmq (pull_iter_ c)) E) as Ho. cbn in Hz, Ho.
  pose proof (inv_iter c Hc) as (_ & _ & H0). pose proof (inv_zmq c Hc) as [Hz1 Hz2].
  assert (i = pull_iter_ c) as -> by (destruct (Nat.eqb_spec i (pull_iter_ c)); [done|cbn in Ho; lia]).
  unfold loop_zmq, sync_pull in Hloop. cbn [with_pending pull_iter_] in Hloop. rewrite Nat.eqb_refl in Hloop.
  assert (at_work (next_iter (with_pending l c))) as Hw.
  { apply next_iter_work; cbn; [by apply He|lia|lia|]. apply (inv_bound c Hc). lia. }
  destruct r as [u|].
  - destruct (push u _) as [[rc c1]|] eqn:Ep; [|done]. cbn in Hloop. injection Hloop as <-.
    destruct (push_core u _ rc c1 Hw Ep) as (H1 & H2 & H3 & H4). cbn in H2. destruct rc.
    + rewrite <- H2. apply async_zmq_wait_invariant. split_and!; [done|lia|done|by apply H4].
    + destruct (close_check_core _ H1) as [H5 H6]; [lia|]. split; [done|]. intros H. congruence.
  - injection Hloop as <-. destruct (close_check_core _ (proj1 Hw)) as [H5 H6]; [cbn; lia|]. split; [done|]. intros H. congruence.
Qed.

Lemma wrote_alt c :
  wrote false c =
  if Nat.eqb (length (write_queue_ (pop_front c))) 0 then if sub_ c then pop_front c else do_async_close (pop_front c)
  else start_op Write (pop_front c).
Proof. unfold wrote, is_closing. cbn [sub_ pop_front]. destruct (write_queue_ (pop_front c)); [by destruct (sub_ c)|done]. Qed.

Lemma step_wrote error c c' : invariant c -> step (Wrote error) c = Some c' -> invariant c'.
Proof.
  intros [Hc Hl] (l & E & ->)%ending_inv. pose proof (inv_write c Hc) as (H1 & H2 & H3).
  assert (pull_iter_ c <> 0%nat) as Hp.
  { intros E0. pose proof (inv_start c Hc E0). pose proof (take_op_cnt _ _ _ is_write E). cbn in *. lia. }
  assert (live (with_pending l c)) as Hl'.
  { intros Hs. pose proof (take_op_cnt _ _ _ is_login E). pose proof (take_op_cnt _ _ _ is_zmq E).
    destruct (Hl Hs) as [H4|[H4|H4]]; [by left|right; left|right; right]; cbn in *; lia. }
  destruct error.
  - unfold wrote, do_async_close. cbn [with_pending close_started_]. destruct (close_started_ c) eqn:Ec.
    + split; [|done]. numbers. destruct Hc. constructor; solve_field.
    + split; [|by intros]. numbers. destruct Hc. constructor; solve_field.
  - rewrite wrote_alt. numbers. destruct Hc. cbn [pop_front with_pending write_queue_ sub_]. rewrite length_drop.
    destruct (Nat.eqb_spec (length (write_queue_ c) - 1) 0) as [E0|E0].
    + destruct (sub_ c) eqn:Es.
      * split; [constructor; solve_field|]. intros Hs. apply (Hl' Es).
      * unfold do_async_close. cbn [pop_front with_pending close_started_].
        destruct (close_started_ c) eqn:Ecs; (split; [constructor; solve_field|intros Hs; cbn in Hs; congruence]).
    + split; [constructor; solve_field|]. intros Hs. cbn in *. rewrite !cnt_app. cbn. rewrite !Nat.add_0_r. by apply Hl'.
Qed.

Lemma step_closed c c' : invariant c -> step Closed c = Some c' -> invariant c'.
Proof.
  intros [Hc Hl] (l & E & ->)%ending_inv.
  assert (close_started_ c = true) as Hcs.
  { pose proof (take_op_cnt _ _ _ is_close E). pose proof (inv_open c Hc). destruct (close_started_ c); [done|]. cbn in *. lia. }
  destruct (inv_started c Hc Hcs) as [Hs _]. numbers. destruct Hc. unfold do_async_shutdown.
  destruct ssl; (split; [constructor; solve_field|intros Hs'; cbn in Hs'; congruence]).
Qed.

Lemma step_ssl_done c c' : invariant c -> step Ssl_done c = Some c' -> invariant c'.
Proof.
  intros [Hc Hl] (l & E & ->)%ending_inv.
  assert (close_started_ c = true) as Hcs.
  { pose proof (take_op_cnt _ _ _ is_ssl E). pose proof (inv_open c Hc). destruct (close_started_ c); [done|]. cbn in *. lia. }
  destruct (inv_started c Hc Hcs) as [Hs _]. numbers. destruct Hc.
  split; [constructor; solve_field|intros Hs'; cbn in Hs'; congruence].
Qed.

Lemma step_timer_expires c c' : invariant c -> step Timer_expires c = Some c' -> invariant c'.
Proof.
  intros [Hc Hl] H. cbn in H. destruct (timer_ c) as [t|] eqn:Et; [|done]. injection H as <-.
  split.
  - pose proof (inv_iter c Hc) as (_ & Hi & _). destruct Hc. rewrite Et in *. destruct t as [|i].
    + constructor; solve_field.
    + assert (i = 1%nat) as -> by (cbn in Hi; destruct (Nat.eqb_spec i 1); [done|discriminate Hi]). constructor; solve_field.
  - intros Hs. destruct (Hl Hs) as [H1|[H1|H1]]; [by left|right; left|right; right]; cbn; rewrite !cnt_app; cbn; lia.
Qed.

Lemma step_timer_handler t c c' : invariant c -> step (Timer_handler t) c = Some c' -> invariant c'.
Proof.
  intros [Hc Hl] (l & E & ->)%ending_inv. pose proof (ended_core _ _ _ Hc E) as He. destruct t as [|i]; cbn [expired].
  - assert (close_started_ c = true) as Hcs.
    { pose proof (take_op_cnt _ _ _ is_force E). pose proof (inv_open c Hc). destruct (close_started_ c); [done|]. cbn in *. lia. }
    destruct (do_cleanup_core (with_pending l c)) as [H1 H2]; [by apply He|done|]. split; [done|]. intros H. congruence.
  - assert (i = 1%nat) as ->.
    { pose proof (take_op_cnt _ _ _ is_other_login E) as H. pose proof (proj1 (inv_iter c Hc)). cbn in H.
      destruct (Nat.eqb_spec i 1); [done|cbn in H; lia]. }
    unfold loop_login, sync_pull. cbn [with_pending pull_iter_]. destruct (Nat.eqb_spec (pull_iter_ c) 1) as [E1|E1].
    + assert (core (next_iter (with_pending l c))) as Hn.
      { numbers. destruct Hc. constructor; solve_field. }
      destruct (do_async_close_core _ Hn) as [H1 H2]; [done|]. split; [done|]. intros H. congruence.
    + split; [by apply He|]. intros Hs. pose proof (take_op_cnt _ _ _ is_login E). pose proof (take_op_cnt _ _ _ is_zmq E).
      destruct (Hl Hs) as [H1|[H1|H1]]; [by left|right; left|right; right]; cbn in *; lia.
Qed.

Lemma existsb_cnt l : existsb is_websocket_read l = true -> (0 < cnt is_login l + cnt is_drain l)%nat.
Proof.
  unfold cnt. induction l as [|o l IH]; [done|]. cbn [existsb List.filter]. intros H.
  destruct o; cbn in H |- *; try (specialize (IH H)); lia.
Qed.

Lemma step_control b c c' : invariant c -> step (Control b) c = Some c' -> invariant c'.
Proof.
  intros [Hc Hl] H. cbn [step] in H. destruct (existsb _ _) eqn:E; [|done]. injection H as <-. destruct b; [|done].
  apply existsb_cnt in E. destruct (close_check_core _ Hc) as [H1 H2]; [|split; [done|intros H; congruence]].
  intros E0. pose proof (inv_start c Hc E0). lia.
Qed.

Lemma step_invariant ev c c' : invariant c -> step ev c = Some c' -> invariant c'.
Proof.
  destruct ev; [apply step_accepted|apply step_login_arrived|apply step_drained|apply step_published|apply step_wrote|apply step_closed
    |apply step_ssl_done|apply step_timer_expires|apply step_timer_handler|apply step_control].
Qed.

Lemma run_invariant evs c c' : invariant c -> run evs c = Some c' -> invariant c'.
Proof.
  revert c. induction evs as [|ev evs IH]; intros c Hc H; cbn in H; [by injection H as <-|].
  destruct (step ev c) as [c1|] eqn:E; [|done]. cbn in H. by eapply IH, H; eapply step_invariant.
Qed.

Lemma reachable_invariant c : reachable c -> invariant c.
Proof. intros (sync & evs & H). eapply run_invariant, H. apply invariant_initial. Qed.

(** *** Theorems *)

(** C19: A connection never has two operations of a kind at work (beast allows one
    read and one write at a time, and one close), writes only what it has queued,
    in the order of the queue and nothing twice, and never queues more than two
    messages beyond the limit; it starts a write whenever there is something to
    send, unless it has begun to close. *)
Theorem operations_exclusive c :
  reachable c ->
  (cnt is_websocket_read (cn_pending c) <= 1)%nat /\ (cnt is_write (cn_pending c) <= 1)%nat /\ (cnt is_zmq (cn_pending c) <= 1)%nat /\
  (cnt is_close (cn_pending c) + cnt is_ssl (cn_pending c) <= 1)%nat /\
  cn_queued c = cn_sent c ++ write_queue_ c /\ Z.of_nat (length (write_queue_ c)) <= queue_max + 2 /\
  (write_queue_ c <> [] -> Write ∈ cn_pending c \/ close_started_ c = true).
Proof.
  intros [Hc _]%reachable_invariant. destruct Hc.
  assert (cnt is_websocket_read (cn_pending c) = cnt is_login (cn_pending c) + cnt is_drain (cn_pending c))%nat as E.
  { unfold cnt. clear. induction (cn_pending c) as [|o l IH]; [done|]. destruct o; cbn; lia. }
  destruct inv_write0 as (H1 & H2 & H3). split_and!; [lia|done|by destruct inv_zmq0|done|done|unfold queue_max; lia|].
  intros Hq. destruct H3 as [H|H]; [destruct (write_queue_ c); [done|cbn; lia]| |by right].
  left. clear -H. induction (cn_pending c) as [|o l IH]; [done|]. unfold cnt in *. cbn in H.
  destruct o; cbn in H; try (right; by apply IH). left.
Qed.

(** **** The end of a connection *)

Definition weight (o : op) : nat :=
  match o with Accept => 0 | Login_read _ => 5 | Drain_read => 1 | Zmq_read _ => 4 | Write => 1 | Close => 4 | Ssl_shutdown => 1 | Expired _ => 1 end.
Definition weights (l : list op) : nat := nat_sum (map weight l).
#[local] Arguments weights : simpl never.
Definition timer_weight (t : option timer) : nat := match t with Some _ => 2 | None => 0 end.
(** The most a closing connection can still do. *)
Definition left_to_do (c : connection) : nat :=
  (weights (cn_pending c) + timer_weight (timer_ c) + 2 * length (write_queue_ c) + (if close_started_ c then 0 else 6))%nat.

Lemma weights_app l o : weights (l ++ [o]) = (weights l + weight o)%nat.
Proof. unfold weights. rewrite map_app, nat_sum_app. cbn. lia. Qed.
Lemma take_op_weights o l l' : take_op o l = Some l' -> weights l = (weights l' + weight o)%nat.
Proof.
  revert l'. induction l as [|x l IH]; intros l' H; [done|]. cbn in H. destruct (decide (x = o)) as [->|Hne].
  - injection H as ->. unfold weights. cbn. lia.
  - destruct (take_op o l) as [l1|]; [|done]. injection H as <-. specialize (IH l1 eq_refl). unfold weights in *. cbn. lia.
Qed.

Lemma do_async_close_left c : (left_to_do (do_async_close c) <= left_to_do c)%nat.
Proof.
  unfold do_async_close, left_to_do. destruct (close_started_ c) eqn:E; [by rewrite E|]. cbn. rewrite weights_app. cbn. lia.
Qed.
Lemma client_close_left c : (left_to_do (client_close c) <= left_to_do c)%nat.
Proof. unfold left_to_do. cbn. lia. Qed.
Lemma close_check_left c : (left_to_do (close_check c) <= left_to_do c)%nat.
Proof. unfold close_check. destruct (write_queue_ c); [apply do_async_close_left|apply client_close_left]. Qed.
Lemma do_cleanup_left c : (left_to_do (do_cleanup c) <= left_to_do c)%nat.
Proof. unfold left_to_do. cbn. lia. Qed.
Lemma enqueue_left m c : (left_to_do (enqueue m c) <= left_to_do c + 3)%nat.
Proof.
  rewrite enqueue_alt. unfold left_to_do. destruct (Nat.eqb _ _); cbn; rewrite ?weights_app, ?length_app; cbn; lia.
Qed.
Lemma do_write_left message c : (left_to_do (do_write message c).2 <= left_to_do c + 3)%nat.
Proof. destruct message as [[m|]|e]; cbn; [apply enqueue_left|lia|apply enqueue_left]. Qed.
Lemma push_left u c rc c' : push u c = Some (rc, c') -> (left_to_do c' <= left_to_do c + 3)%nat.
Proof.
  unfold push. destruct (_ <? _); [intros [= <- <-]; unfold left_to_do; cbn; rewrite length_app; cbn; lia|].
  destruct (prep_update u (sync_ c)) as [[message s]|]; [|done]. cbn [mbind option_bind]. intros [= E].
  pose proof (do_write_left message (with_sync s c)) as H. by rewrite E in H.
Qed.
Lemma login_left b c : (left_to_do (login b c).2 <= left_to_do c + 3)%nat.
Proof. unfold login. destruct (prep_login b (sync_ c)) as [message s]. apply (do_write_left message (with_sync s c)). Qed.

(** Nothing opens the subscription again. *)
Lemma do_write_sub message c : sub_ (do_write message c).2 = sub_ c.
Proof. by destruct message as [[m|]|e]; cbn; [|done|]; unfold enqueue; destruct (write_queue_ c). Qed.
Lemma push_sub u c rc c' : push u c = Some (rc, c') -> sub_ c' = sub_ c.
Proof.
  unfold push. destruct (_ <? _); [by intros [= <- <-]|].
  destruct (prep_update u (sync_ c)) as [[message s]|]; [|done]. cbn [mbind option_bind]. intros [= E].
  pose proof (do_write_sub message (with_sync s c)) as H. by rewrite E in H.
Qed.
Lemma login_sub b c : sub_ (login b c).2 = sub_ c.
Proof. unfold login. destruct (prep_login b (sync_ c)) as [message s]. by rewrite (do_write_sub message (with_sync s c)). Qed.
Lemma do_async_close_sub c : sub_ c = false -> sub_ (do_async_close c) = false.
Proof. unfold do_async_close. by destruct (close_started_ c). Qed.
Lemma close_check_sub c : sub_ c = false -> sub_ (close_check c) = false.
Proof. unfold close_check. by destruct (write_queue_ c); [apply do_async_close_sub|]. Qed.

Lemma async_zmq_wait_closing i c : sub_ c = false -> (left_to_do (async_zmq_wait i c) <= left_to_do c)%nat /\ sub_ (async_zmq_wait i c) = false.
Proof.
  intros Hs. unfold async_zmq_wait, is_closing, sync_pull. rewrite Hs. cbn. destruct (Nat.eqb _ _); [|by split].
  split; [apply (close_check_left (next_iter c))|by apply close_check_sub].
Qed.

Lemma loop_zmq_closing i r c c' :
  sub_ c = false -> loop_zmq i r c = Some c' -> (left_to_do c' <= left_to_do c + 3)%nat /\ sub_ c' = false.
Proof.
  intros Hs. unfold loop_zmq, sync_pull. destruct (Nat.eqb _ _); [|intros [= <-]; split; [lia|done]]. destruct r as [u|].
  - destruct (push u (next_iter c)) as [[rc c1]|] eqn:Ep; [|done]. cbn [mbind option_bind]. intros [= <-].
    pose proof (push_left u (next_iter c) _ _ Ep) as H1. pose proof (push_sub u (next_iter c) _ _ Ep) as H2.
    cbn in H1, H2. change (left_to_do (next_iter c)) with (left_to_do c) in H1. rewrite Hs in H2. destruct rc.
    + destruct (async_zmq_wait_closing (Datatypes.S i) c1 H2). split; [lia|done].
    + pose proof (close_check_left c1). split; [lia|by apply close_check_sub].
  - intros [= <-]. pose proof (close_check_left (next_iter c)). change (left_to_do (next_iter c)) with (left_to_do c) in *. split; [lia|by apply close_check_sub].
Qed.

Lemma loop_login_closing i r c :
  sub_ c = false -> (left_to_do (loop_login i r c) <= left_to_do c + match r with Some _ => 4 | None => 0 end)%nat /\ sub_ (loop_login i r c) = false.
Proof.
  intros Hs. unfold loop_login, sync_pull. destruct (Nat.eqb _ _); [|split; [lia|done]]. destruct r as [b|].
  - pose proof (login_left b (do_stop_reads (next_iter c))) as H1. pose proof (login_sub b (do_stop_reads (next_iter c))) as H2.
    assert (left_to_do (do_stop_reads (next_iter c)) = left_to_do c + 1)%nat as E by (unfold left_to_do; cbn; rewrite weights_app; cbn; lia).
    destruct (login b _) as [rc c1]. cbn in H1, H2. rewrite Hs in H2. destruct rc.
    + destruct (async_zmq_wait_closing (Datatypes.S i) c1 H2). split; [lia|done].
    + pose proof (client_close_left c1). split; [lia|done].
  - pose proof (do_async_close_left (next_iter c)). change (left_to_do (next_iter c)) with (left_to_do c) in *. split; [lia|by apply do_async_close_sub].
Qed.

Definition is_control (ev : event) : bool := match ev with Control _ => true | _ => false end.

Lemma ended_left o l c : take_op o (cn_pending c) = Some l -> left_to_do c = (left_to_do (with_pending l c) + weight o)%nat.
Proof. intros H. unfold left_to_do. cbn. rewrite (take_op_weights _ _ _ H). lia. Qed.

Lemma step_closing ev c c' :
  invariant c -> sub_ c = false -> step ev c = Some c' ->
  (left_to_do c' + (if is_control ev then 0 else 1) <= left_to_do c)%nat /\ sub_ c' = false.
Proof.
  intros Hi Hs H. destruct ev as [e|i r| |i r|e| | | |t|b]; cbn [is_control]; [..|].
  4: { apply published_inv in H as (l & E & H). pose proof (ended_left _ _ _ E) as El. cbn [weight] in El.
    destruct (loop_zmq_closing i r (with_pending l c) c' Hs H). split; [lia|done]. }
  all: cbn [step] in H; try (apply ending_inv in H as (l & E & ->); pose proof (ended_left _ _ _ E) as El; cbn [weight] in El).
  - pose proof (take_op_cnt _ _ _ is_accept E) as Ha. destruct Hi as [Hc _]. pose proof (inv_accept c Hc) as [H1 H2]. cbn in Ha.
    pose proof (inv_start c Hc ltac:(apply H2; lia)). destruct_and?. congruence.
  - destruct (loop_login_closing i r (with_pending l c) Hs). split; [destruct r; lia|done].
  - pose proof (close_check_left (with_pending l c)). split; [lia|by apply close_check_sub].
  - unfold wrote. destruct e; [pose proof (do_async_close_left (with_pending l c)); split; [lia|by apply do_async_close_sub]|].
    unfold is_closing. cbn [pop_front sub_ with_pending]. rewrite Hs. cbn [negb].
    pose proof (take_op_cnt _ _ _ is_write E) as Hw. destruct Hi as [Hc _]. destruct (inv_write c Hc) as (_ & H2 & _).
    assert (left_to_do (pop_front (with_pending l c)) + 3 <= left_to_do c)%nat as Hl.
    { rewrite El. unfold left_to_do. cbn. rewrite length_drop. cbn in Hw. pose proof (proj1 (inv_write c Hc)). assert (0 < length (write_queue_ c))%nat by (apply H2; lia). lia. }
    destruct (write_queue_ (pop_front (with_pending l c))).
    + pose proof (do_async_close_left (pop_front (with_pending l c))). split; [lia|by apply do_async_close_sub].
    + split; [|done]. unfold left_to_do in *. cbn [start_op with_pending cn_pending] in *. rewrite weights_app. cbn in *. lia.
  - unfold do_async_shutdown. destruct ssl; [|pose proof (do_cleanup_left (with_pending l c)); split; [lia|done]].
    split; [|done]. rewrite El. unfold left_to_do. cbn. rewrite weights_app. cbn. lia.
  - pose proof (do_cleanup_left (with_pending l c)). split; [lia|done].
  - destruct (timer_ c) as [t|] eqn:Et; [|done]. injection H as <-. split; [|done]. unfold left_to_do. rewrite Et. cbn. rewrite weights_app. cbn. lia.
  - destruct t as [|i]; cbn [expired]; [pose proof (do_cleanup_left (with_pending l c)); split; [lia|done]|].
    destruct (loop_login_closing i None (with_pending l c) Hs). split; [lia|done].
  - destruct (existsb _ _); [|done]. injection H as <-. destruct b; [|split; [lia|done]].
    pose proof (close_check_left c). split; [lia|by apply close_check_sub].
Qed.

Definition others (evs : list event) : list event := List.filter (fun ev => negb (is_control ev)) evs.

(** C17: A connection that has started to close ends: whatever happens next, the
    number of handlers that still run (control frames of the peer apart) is
    bounded, the connection is never opened again, and when no operation is left
    its socket has been shut down. *)
Theorem closing_ends c evs c' :
  reachable c -> sub_ c = false -> run evs c = Some c' ->
  (length (others evs) <= left_to_do c)%nat /\ sub_ c' = false /\ (cn_pending c' = [] -> cn_cleaned c' = true).
Proof.
  intros Hi%reachable_invariant Hs H. assert (invariant c' /\ sub_ c' = false /\ length (others evs) + left_to_do c' <= left_to_do c)%nat as (Hi' & Hs' & Hl).
  { revert c Hi Hs H. induction evs as [|ev evs IH]; intros c Hi Hs H; cbn in H; [injection H as <-; split_and!; [done|done|cbn; lia]|].
    destruct (step ev c) as [c1|] eqn:E; [|done]. cbn in H. destruct (step_closing _ _ _ Hi Hs E) as [H1 H2].
    destruct (IH c1 (step_invariant _ _ _ Hi E) H2 H) as (H3 & H4 & H5). split_and!; [done|done|]. unfold others in *. cbn [List.filter].
    destruct (is_control ev); cbn; lia. }
  split_and!; [lia|done|]. intros Hp. destruct Hi' as [Hc _]. destruct (inv_closing c' Hc Hs') as [H1|H1]; [by rewrite Hp in H1|].
  destruct (inv_started c' Hc H1) as [_ [H2|H2]]; [done|by rewrite Hp in H2].
Qed.

(** **** What is sent *)

(** [c'] has queued nothing that [c] had not, and waits for no more of the
    scanner or the client. *)
Definition silent (c c' : connection) : Prop :=
  cn_queued c' = cn_queued c /\ sync_ c' = sync_ c /\ (pull_iter_ c <= pull_iter_ c')%nat /\
  (cnt is_zmq (cn_pending c') <= cnt is_zmq (cn_pending c))%nat /\ (cnt is_login (cn_pending c') <= cnt is_login (cn_pending c))%nat.

Lemma silent_trans c1 c2 c3 : silent c1 c2 -> silent c2 c3 -> silent c1 c3.
Proof. intros (H1 & H2 & H3 & H4 & H5) (H6 & H7 & H8 & H9 & H10). split_and!; [congruence|congruence|lia|lia|lia]. Qed.
Ltac silently := split_and!; try done; cbn; rewrite ?cnt_app; cbn; lia.
Lemma do_async_close_silent c : silent c (do_async_close c).
Proof. unfold do_async_close. destruct (close_started_ c); silently. Qed.
Lemma close_check_silent c : silent c (close_check c).
Proof. unfold close_check. destruct (write_queue_ c); [apply do_async_close_silent|silently]. Qed.
Lemma next_iter_silent c : silent c (next_iter c).
Proof. silently. Qed.
Lemma ended_silent o l c : take_op o (cn_pending c) = Some l -> silent c (with_pending l c).
Proof. intros H. split_and!; try done; cbn; [rewrite (take_op_cnt _ _ _ is_zmq H)|rewrite (take_op_cnt _ _ _ is_login H)]; lia. Qed.

(** An answer: the message for a login or for what the scanner published. *)
Definition answer (i : L + U) (s : S) : option (expect (option M) * S) :=
  match i with inl buffer => Some (prep_login buffer s) | inr u => prep_update u s end.
Definition to_send (m : option M) : list M := match m with Some m => [m] | None => [] end.

(** The session as the client sees it: every input is answered with one message or
    none, in order, up to the first error, which is the last message; the session
    may also be ended by [queue_max]. The boolean says whether it goes on. *)
Inductive session (s0 : S) : list (L + U) -> list M -> S -> bool -> Prop :=
| session_start : session s0 [] [] s0 true
| session_answer ins ms s i m s' :
    session s0 ins ms s true -> answer i s = Some (Ok m, s') -> session s0 (ins ++ [i]) (ms ++ to_send m) s' true
| session_error ins ms s i e s' :
    session s0 ins ms s true -> answer i s = Some (Err e, s') -> session s0 (ins ++ [i]) (ms ++ [error_message e]) s' false
| session_full ins ms s u :
    session s0 ins ms s true -> session s0 (ins ++ [inr u]) (ms ++ [error_message (feed_err Prelude.queue_max)]) s false.

Lemma do_write_answers i message s c rc c' :
  answer i (sync_ c) = Some (message, s) -> do_write message (with_sync s c) = (rc, c') ->
  (forall s0 ins, session s0 ins (cn_queued c) (sync_ c) true -> session s0 (ins ++ [i]) (cn_queued c') (sync_ c') rc) /\
  pull_iter_ c' = pull_iter_ c /\ cnt is_zmq (cn_pending c') = cnt is_zmq (cn_pending c) /\ cnt is_login (cn_pending c') = cnt is_login (cn_pending c) /\
  sub_ c' = sub_ c.
Proof.
  intros Ha E. assert (forall m, cn_queued (enqueue m (with_sync s c)) = cn_queued c ++ [m] /\ sync_ (enqueue m (with_sync s c)) = s /\
    pull_iter_ (enqueue m (with_sync s c)) = pull_iter_ c /\ cnt is_zmq (cn_pending (enqueue m (with_sync s c))) = cnt is_zmq (cn_pending c) /\
    cnt is_login (cn_pending (enqueue m (with_sync s c))) = cnt is_login (cn_pending c) /\ sub_ (enqueue m (with_sync s c)) = sub_ c) as Hq.
  { intros m. rewrite enqueue_alt. destruct (Nat.eqb _ _); split_and!; try done; cbn; rewrite ?cnt_app; cbn; lia. }
  destruct message as [[m|]|e]; cbn in E; injection E as <- <-.
  - destruct (Hq m) as (-> & -> & H1 & H2 & H3 & H4). split_and!; try done. intros s0 ins Hs. by eapply (session_answer _ _ _ _ _ (Some m)).
  - split_and!; try done. intros s0 ins Hs. cbn. rewrite <- (app_nil_r (cn_queued c)). by eapply (session_answer _ _ _ _ _ None).
  - destruct (Hq (error_message e)) as (-> & -> & H1 & H2 & H3 & H4). split_and!; try done. intros s0 ins Hs. by eapply session_error.
Qed.

(** The step from [c] to [c'] answers [i]. *)
Definition answers (i : L + U) (c c' : connection) : Prop :=
  (2 <= pull_iter_ c')%nat /\ (sub_ c = false -> sub_ c' = false) /\
  (cnt is_login (cn_pending c') <= cnt is_login (cn_pending c))%nat /\
  exists b, (forall s0 ins, session s0 ins (cn_queued c) (sync_ c) true -> session s0 (ins ++ [i]) (cn_queued c') (sync_ c') b) /\
    (b = false -> sub_ c' = false /\ cnt is_zmq (cn_pending c') = 0%nat).

Lemma answers_from i c0 c c' : silent c0 c -> sub_ c = sub_ c0 -> answers i c c' -> answers i c0 c'.
Proof.
  intros (H1 & H2 & H3 & H4 & H5) Hs (H6 & H7 & H8 & b & H9 & H10). rewrite H1, H2, Hs in *. split_and!; [lia|done|lia|].
  by exists b.
Qed.

(** What follows the answer. *)
Lemma answers_then i (f g : connection -> connection) message s c :
  answer i (sync_ c) = Some (message, s) -> at_work c ->
  (forall c1, core c1 -> (2 <= pull_iter_ c1)%nat -> silent c1 (g c1) /\ sub_ (g c1) = false) ->
  (forall c1, cn_queued (f c1) = cn_queued c1 /\ sync_ (f c1) = sync_ c1 /\ (pull_iter_ c1 <= pull_iter_ (f c1))%nat /\
    (cnt is_login (cn_pending (f c1)) <= cnt is_login (cn_pending c1))%nat /\ (sub_ c1 = false -> sub_ (f c1) = false)) ->
  forall rc c1, do_write message (with_sync s c) = (rc, c1) -> answers i c (if rc then f c1 else g c1).
Proof.
  intros Ha Hw Hg Hf rc c1 E. pose proof (do_write_core message _ (with_sync_work s c Hw)) as Hc. rewrite E in Hc.
  destruct Hc as (Hc & _). destruct Hw as (_ & Hp & Hz & _).
  destruct (do_write_answers _ _ _ _ _ _ Ha E) as (H1 & H2 & H3 & H4 & H5). destruct rc.
  - destruct (Hf c1) as (H6 & H7 & H8 & H9 & H10). split_and!; [lia|intros; apply H10; congruence|lia|]. exists true.
    rewrite H6, H7. by split.
  - destruct (Hg c1 Hc) as ((H6 & H7 & H8 & H9 & H10) & H11); [lia|]. split_and!; [lia|done|lia|]. exists false. rewrite H6, H7.
    split; [done|]. intros _. split; [done|lia].
Qed.

Lemma async_zmq_wait_after n c :
  cn_queued (async_zmq_wait n c) = cn_queued c /\ sync_ (async_zmq_wait n c) = sync_ c /\ (pull_iter_ c <= pull_iter_ (async_zmq_wait n c))%nat /\
  (cnt is_login (cn_pending (async_zmq_wait n c)) <= cnt is_login (cn_pending c))%nat /\ (sub_ c = false -> sub_ (async_zmq_wait n c) = false).
Proof.
  unfold async_zmq_wait, is_closing, sync_pull. destruct (sub_ c) eqn:Es; cbn [negb].
  - silently.
  - destruct (Nat.eqb _ _); [|by rewrite Es]. destruct (silent_trans _ _ _ (next_iter_silent c) (close_check_silent (next_iter c))) as (H1 & H2 & H3 & _ & H4).
    split_and!; [done|done|done|done|]. intros _. by apply close_check_sub.
Qed.

Lemma closes_quietly c : core c -> (2 <= pull_iter_ c)%nat -> silent c (close_check c) /\ sub_ (close_check c) = false.
Proof. intros Hc Hp. split; [apply close_check_silent|]. apply close_check_core; [done|lia]. Qed.

Lemma published_answers i u c c' :
  invariant c -> step (Published i (Some u)) c = Some c' -> answers (inr u) c c' /\ (0 < cnt is_zmq (cn_pending c))%nat.
Proof.
  intros [Hc Hl] (l & E & Hloop)%published_inv. pose proof (ended_core _ _ _ Hc E) as He.
  pose proof (take_op_cnt _ _ _ is_zmq E) as Hz. pose proof (take_op_cnt _ _ _ (is_other_zmq (pull_iter_ c)) E) as Ho. cbn in Hz, Ho.
  pose proof (inv_iter c Hc) as (_ & _ & H0). pose proof (inv_zmq c Hc) as [Hz1 Hz2].
  assert (i = pull_iter_ c) as -> by (destruct (Nat.eqb_spec i (pull_iter_ c)); [done|cbn in Ho; lia]).
  unfold loop_zmq, sync_pull in Hloop. cbn [with_pending pull_iter_] in Hloop. rewrite Nat.eqb_refl in Hloop.
  assert (at_work (next_iter (with_pending l c))) as Hw.
  { apply next_iter_work; cbn; [by apply He|lia|lia|]. apply (inv_bound c Hc). lia. }
  split; [|lia]. eapply (answers_from _ _ (next_iter (with_pending l c)));
    [eapply silent_trans; [by eapply ended_silent|apply next_iter_silent]|done|].
  destruct (push u (next_iter (with_pending l c))) as [[rc c1]|] eqn:Ep; [|done]. cbn [mbind option_bind] in Hloop. injection Hloop as <-.
  destruct (push_core u _ rc c1 Hw Ep) as (H1 & H2 & Hz0 & _). unfold push in Ep. destruct (_ <? _).
  - injection Ep as <- <-. destruct (closes_quietly _ H1) as [(H3 & H4 & H5 & H6 & H7) H8]; [cbn in *; lia|].
    split_and!; [cbn in *; lia|done|done|]. exists false. rewrite H3, H4.
    split; [intros s0 ins; apply session_full|]. intros _. split; [done|cbn in *; lia].
  - destruct (prep_update u _) as [[message s]|] eqn:Ea; [|done]. cbn [mbind option_bind] in Ep. injection Ep as Ep.
    by eapply (answers_then (inr u) _ _ message s); [exact Ea|exact Hw|apply closes_quietly|apply async_zmq_wait_after|].
Qed.

(** The login, unless it comes too late. *)
Lemma login_answers b c c' :
  invariant c -> step (Login_arrived 1 (Some b)) c = Some c' ->
  if Nat.eqb (pull_iter_ c) 1 then answers (inl b) c c' /\ cnt is_login (cn_pending c') = 0%nat else silent c c' /\ sub_ c' = sub_ c.
Proof.
  intros [Hc Hl] (l & E & ->)%ending_inv. pose proof (ended_core _ _ _ Hc E) as He. unfold loop_login, sync_pull.
  change (pull_iter_ (with_pending l c)) with (pull_iter_ c). destruct (Nat.eqb_spec (pull_iter_ c) 1) as [E1|E1]; [|split; [by eapply ended_silent|done]].
  assert (at_work (do_stop_reads (next_iter (with_pending l c)))) as Hw.
  { pose proof (inv_login c Hc E1) as [Hd Hq]. pose proof (inv_zmq c Hc) as [_ Hz]. numbers. destruct Hc. split_and!; cbn; rewrite ?cnt_app; cbn; try lia.
    constructor; solve_field. }
  assert (cnt is_login l = 0%nat) as Hlog by (pose proof (take_op_cnt _ _ _ is_login E); pose proof (inv_reads c Hc); cbn in *; lia).
  unfold login. destruct (prep_login b (sync_ (do_stop_reads (next_iter (with_pending l c))))) as [message s] eqn:Ep.
  destruct (do_write message (with_sync s (do_stop_reads (next_iter (with_pending l c))))) as [rc c1] eqn:Ed.
  assert (answers (inl b) (do_stop_reads (next_iter (with_pending l c))) (if rc then async_zmq_wait 2 c1 else client_close c1)) as Ha.
  { eapply (answers_then (inl b) _ _ message s); [unfold answer; by rewrite Ep|exact Hw|split; [silently|done]|apply async_zmq_wait_after|exact Ed]. }
  split; [|destruct Ha as (_ & _ & Ha & _); cbn in Ha; rewrite cnt_app in Ha; cbn in Ha; destruct rc; lia].
  apply (answers_from _ _ (do_stop_reads (next_iter (with_pending l c)))); [|done|destruct rc; exact Ha].
  eapply silent_trans; [by eapply ended_silent|]. silently.
Qed.

(** *** Inputs of a run *)
Definition input (ev : event) : list (L + U) :=
  match ev with Login_arrived _ (Some b) => [inl b] | Published _ (Some u) => [inr u] | _ => [] end.
Definition inputs (evs : list event) : list (L + U) := concat (map input evs).
Lemma inputs_app evs ev : inputs (evs ++ [ev]) = inputs evs ++ input ev.
Proof. unfold inputs. rewrite map_app, concat_app. cbn. by rewrite app_nil_r. Qed.

(** One login, and then updates. *)
Definition in_turn (ins : list (L + U)) : Prop := ins = [] \/ exists b us, ins = inl b :: (inr <$> us).

(** After [evs]: what has been answered, and whether the session goes on. *)
Definition serving (s0 : S) (evs : list event) (c : connection) (ins : list (L + U)) (b : bool) : Prop :=
  session s0 ins (cn_queued c) (sync_ c) b /\ (b = false -> sub_ c = false) /\
  ((pull_iter_ c <= 1)%nat -> ins = []) /\ ((0 < cnt is_zmq (cn_pending c))%nat -> b = true /\ ins <> []) /\ in_turn ins /\
  ((2 <= pull_iter_ c)%nat -> (0 < cnt is_login (cn_pending c))%nat -> sub_ c = false) /\
  ins `sublist_of` inputs evs /\ (sub_ c = true -> ins = inputs evs).

Lemma serving_silent s0 evs ev c c' ins b :
  serving s0 evs c ins b -> cn_queued c' = cn_queued c -> sync_ c' = sync_ c -> (pull_iter_ c <= pull_iter_ c')%nat ->
  (cnt is_zmq (cn_pending c') <= cnt is_zmq (cn_pending c))%nat -> (sub_ c = false -> sub_ c' = false) ->
  ((2 <= pull_iter_ c')%nat -> (0 < cnt is_login (cn_pending c'))%nat -> sub_ c' = false) ->
  (sub_ c' = true -> input ev = []) -> serving s0 (evs ++ [ev]) c' ins b.
Proof.
  intros (H1 & H2 & H3 & H4 & H5 & H6 & H7 & H8) Eq Es Hp Hz Hs Hl Hi. unfold serving. rewrite Eq, Es, inputs_app.
  split_and!; [done|auto|intros; apply H3; lia|intros; apply H4; lia|done|done|by apply sublist_inserts_r|].
  intros Hs'. rewrite (Hi Hs'), app_nil_r. apply H8. destruct (sub_ c); [done|]. rewrite Hs in Hs'; done.
Qed.

Lemma session_nil s0 ms s b : session s0 [] ms s b -> ms = [] /\ s = s0 /\ b = true.
Proof.
  intros H. remember [] as ins eqn:E. destruct H as [|ins ms s i m s' _ _|ins ms s i e s' _ _|ins ms s u _]; [done| | |];
    by apply app_eq_nil in E as [_ E].
Qed.

Lemma serving_answered s0 evs ev c c' ins b i :
  serving s0 evs c ins b -> answers i c c' -> input ev = [i] ->
  match i with inl _ => pull_iter_ c = 1%nat | inr _ => (0 < cnt is_zmq (cn_pending c))%nat end ->
  ((0 < cnt is_login (cn_pending c'))%nat -> sub_ c' = false) ->
  exists b', serving s0 (evs ++ [ev]) c' (ins ++ [i]) b'.
Proof.
  intros (H1 & H2 & H3 & H4 & H5 & H6 & H7 & H8) (H9 & H10 & H11 & b' & H12 & H13) Hi Hph Hl.
  assert (b = true) as ->.
  { destruct i as [buf|u]; [|by apply H4]. rewrite H3 in H1 by lia. by apply session_nil in H1 as (_ & _ & ->). }
  exists b'. unfold serving. rewrite inputs_app, Hi. split_and!; [by apply H12|by intros [? _]%H13|lia| | |auto| |].
  - intros Hz. split; [|by destruct ins]. destruct b'; [done|]. destruct (H13 eq_refl). lia.
  - right. destruct i as [buf|u]; [rewrite H3 by lia; by exists buf, []|]. destruct H5 as [->|(buf & us & ->)]; [by destruct (H4 Hph)|].
    exists buf, (us ++ [u]). by rewrite fmap_app.
  - by apply sublist_app.
  - intros Hs. rewrite H8; [done|]. destruct (sub_ c); [done|]. by rewrite H10 in Hs.
Qed.

Lemma step_sub ev c c' : invariant c -> step ev c = Some c' -> sub_ c = false -> sub_ c' = false.
Proof. intros Hi H Hs. by destruct (step_closing ev c c' Hi Hs H). Qed.

(** The loop that waits for the login, when it ends without one. *)
Lemma login_ends c o l :
  core c -> take_op o (cn_pending c) = Some l -> o <> Accept -> o <> Write -> o <> Close -> o <> Ssl_shutdown ->
  silent c (loop_login 1 None (with_pending l c)) /\
  ((2 <= pull_iter_ (loop_login 1 None (with_pending l c)))%nat -> (pull_iter_ c <= 1)%nat -> sub_ (loop_login 1 None (with_pending l c)) = false).
Proof.
  intros Hc E Ha Hw Hcl Hs. pose proof (ended_core _ _ _ Hc E Ha Hw Hcl Hs) as He.
  unfold loop_login, sync_pull. change (pull_iter_ (with_pending l c)) with (pull_iter_ c).
  destruct (Nat.eqb_spec (pull_iter_ c) 1) as [E1|E1].
  - split; [eapply silent_trans; [by eapply ended_silent|]; eapply silent_trans; [apply next_iter_silent|apply do_async_close_silent]|].
    intros _ _. unfold do_async_close. destruct (close_started_ (next_iter (with_pending l c))) eqn:Ec; [|done].
    by apply (inv_started (with_pending l c) He).
  - split; [by eapply ended_silent|]. intros Hp Hp1. cbn in Hp. lia.
Qed.

Lemma login_iteration c o l :
  core c -> take_op o (cn_pending c) = Some l -> match o with Login_read i | Expired (Notify i) => i = 1%nat | _ => True end.
Proof.
  intros Hc E. pose proof (take_op_cnt _ _ _ is_other_login E) as H. pose proof (proj1 (inv_iter c Hc)). cbn in H.
  destruct o as [|i| | | | | |[|i]]; try done; cbn in H; destruct (Nat.eqb_spec i 1); try done; cbn in H; lia.
Qed.

(** Whatever is not an answer. *)
Definition unanswered (c c' : connection) : Prop :=
  cn_queued c' = cn_queued c /\ sync_ c' = sync_ c /\ (pull_iter_ c <= pull_iter_ c')%nat /\
  (cnt is_zmq (cn_pending c') <= cnt is_zmq (cn_pending c))%nat /\
  ((2 <= pull_iter_ c')%nat -> (0 < cnt is_login (cn_pending c'))%nat -> sub_ c' = false \/
    ((2 <= pull_iter_ c)%nat /\ (0 < cnt is_login (cn_pending c))%nat)).

Lemma silent_unanswered c c' :
  silent c c' -> ((2 <= pull_iter_ c')%nat -> (pull_iter_ c <= 1)%nat -> sub_ c' = false) -> unanswered c c'.
Proof.
  intros (H1 & H2 & H3 & H4 & H5) H6. split_and!; [done|done|done|done|]. intros Hp Hn.
  destruct (decide (pull_iter_ c <= 1)%nat); [left; auto|right; lia].
Qed.

Lemma pull_iter_closed c : pull_iter_ (close_check c) = pull_iter_ c /\ pull_iter_ (do_async_close c) = pull_iter_ c.
Proof. unfold close_check, do_async_close. by destruct (write_queue_ c), (close_started_ c). Qed.

Lemma step_silent ev c c' : invariant c -> step ev c = Some c' -> input ev = [] -> unanswered c c'.
Proof.
  intros [Hc Hl] H Hin. destruct ev as [e|i r| |i r|e| | | |t|b].
  4: { destruct r; [done|]. apply published_inv in H as (l & E & H). unfold loop_zmq in H.
    assert (2 <= pull_iter_ c)%nat as Hp.
    { pose proof (take_op_cnt _ _ _ is_zmq E). pose proof (inv_zmq c Hc) as [_ Hz]. cbn in *. lia. }
    apply silent_unanswered; [|lia]. destruct (sync_pull i (with_pending l c)) as [c1|] eqn:Es; injection H as <-; [|by eapply ended_silent].
    unfold sync_pull in Es. destruct (Nat.eqb _ _); [|done]. injection Es as <-.
    eapply silent_trans; [by eapply ended_silent|]. eapply silent_trans; [apply next_iter_silent|apply close_check_silent]. }
  all: cbn [step] in H; try (apply ending_inv in H as (l & E & ->)).
  - assert (pull_iter_ c = 0%nat) as E0.
    { apply (inv_accept c Hc). pose proof (take_op_cnt _ _ _ is_accept E). pose proof (proj1 (inv_accept c Hc)). cbn in *. lia. }
    destruct (inv_start c Hc E0) as (_ & _ & _ & _ & Hs).
    pose proof (take_op_cnt _ _ _ is_zmq E) as Hz. cbn in Hz.
    unfold loop_accept, sync_pull. cbn [with_pending pull_iter_]. rewrite E0. cbn [Nat.eqb]. destruct e.
    + destruct (do_async_close_silent (next_iter (with_pending l c))) as (H1 & H2 & H3 & H4 & H5).
      split_and!; [done|done|lia|cbn in *; lia|]. rewrite (proj2 (pull_iter_closed _)). cbn. lia.
    + unfold do_async_read, is_closing. cbn [next_iter with_pending sub_]. rewrite Hs. cbn [negb].
      split_and!; [done|done|lia|cbn; rewrite cnt_app; cbn; lia|cbn; lia].
  - destruct r; [done|]. pose proof (login_iteration _ _ _ Hc E) as ->.
    destruct (login_ends c (Login_read 1) l Hc E) as [H1 H2]; [done..|]. by apply silent_unanswered.
  - apply silent_unanswered; [eapply silent_trans; [by eapply ended_silent|apply close_check_silent]|]. rewrite (proj1 (pull_iter_closed _)). cbn. lia.
  - apply silent_unanswered.
    + eapply silent_trans; [by eapply ended_silent|]. destruct e; [apply do_async_close_silent|]. rewrite wrote_alt.
      apply (silent_trans _ (pop_front (with_pending l c))); [silently|].
      destruct (Nat.eqb _ _); [destruct (sub_ _); [silently|apply do_async_close_silent]|silently].
    + unfold wrote. destruct e; [rewrite (proj2 (pull_iter_closed _)); cbn; lia|].
      destruct (write_queue_ _); [destruct (is_closing _); [rewrite (proj2 (pull_iter_closed _))|]|]; cbn; lia.
  - apply silent_unanswered; [eapply silent_trans; [by eapply ended_silent|]|]; unfold do_async_shutdown; destruct ssl; try silently; cbn; lia.
  - apply silent_unanswered; [eapply silent_trans; [by eapply ended_silent|silently]|cbn; lia].
  - destruct (timer_ c) as [t|]; [|done]. injection H as <-. apply silent_unanswered; [silently|cbn; lia].
  - destruct t as [|i]; cbn [expired].
    + apply silent_unanswered; [eapply silent_trans; [by eapply ended_silent|silently]|cbn; lia].
    + pose proof (login_iteration _ _ _ Hc E) as ->. destruct (login_ends c (Expired (Notify 1)) l Hc E) as [H1 H2]; [done..|].
      by apply silent_unanswered.
  - destruct (existsb _ _); [|done]. injection H as <-. apply silent_unanswered; destruct b; [apply close_check_silent|silently| |lia].
    rewrite (proj1 (pull_iter_closed _)). lia.
Qed.

Lemma run_app evs evs' c : run (evs ++ evs') c = c ← run evs c; run evs' c.
Proof. revert c. induction evs as [|ev evs IH]; intros c; [done|]. cbn. destruct (step ev c); [apply IH|done]. Qed.

Lemma serving_step s0 evs ev c c' ins b :
  invariant c -> step ev c = Some c' -> serving s0 evs c ins b -> exists ins' b', serving s0 (evs ++ [ev]) c' ins' b'.
Proof.
  intros Hi H Hs. pose proof (step_sub _ _ _ Hi H) as Hsub. pose proof Hs as (_ & _ & _ & _ & _ & Hlate & _).
  destruct (input ev) as [|i [|]] eqn:Ei; [| |by destruct ev as [|? []| |? []| | | | | |]].
  - destruct (step_silent _ _ _ Hi H Ei) as (H1 & H2 & H3 & H4 & H5). exists ins, b. eapply serving_silent; try done.
    intros Hp Hn. destruct (H5 Hp Hn) as [|[Hp' Hn']]; auto.
  - destruct ev as [|n [buf|]| |n [u|]| | | | | |]; try done; injection Ei as <-.
    + assert (n = 1%nat) as ->.
      { pose proof H as (l & E & _)%ending_inv. exact (login_iteration _ _ _ (proj1 Hi) E). }
      pose proof (login_answers _ _ _ Hi H) as Ha. destruct (Nat.eqb_spec (pull_iter_ c) 1) as [E1|E1].
      * destruct Ha as [Ha Hn]. destruct (serving_answered s0 evs (Login_arrived 1 (Some buf)) c c' ins b (inl buf) Hs Ha) as [b' Hb]; [done|done|lia|].
        by eexists _, b'.
      * destruct Ha as [(H1 & H2 & H3 & H4 & H5) H6].
        assert (sub_ c = false) as Hc.
        { pose proof H as (l & E & _)%ending_inv. pose proof (take_op_cnt _ _ _ is_login E) as Hn. cbn in Hn.
          apply Hlate; [|lia]. assert (pull_iter_ c <> 0%nat) as Hp; [|lia].
          intros E0. pose proof (inv_start c (proj1 Hi) E0). lia. }
        exists ins, b. eapply serving_silent; try done; [intros _ _; by apply Hsub|]. rewrite Hsub; done.
    + destruct (published_answers _ _ _ _ Hi H) as [Ha Hz].
      destruct (serving_answered s0 evs (Published n (Some u)) c c' ins b (inr u) Hs Ha) as [b' Hb]; [done|done| |by eexists _, b'].
      intros Hn. destruct Ha as (_ & _ & Hn' & _). apply Hsub, Hlate; [|lia]. pose proof (inv_zmq c (proj1 Hi)) as [_ Hp]. lia.
Qed.

(** A session that goes on, from its first input. *)
Lemma session_cons s0 i ins ms s :
  session s0 (i :: ins) ms s true ->
  exists m s1 ms', answer i s0 = Some (Ok m, s1) /\ ms = to_send m ++ ms' /\ session s1 ins ms' s true.
Proof.
  revert ms s. induction ins as [|j ins IH] using rev_ind; intros ms s H; inversion H as [|ins0 ms0 sa i0 m s' H1 H2 E| |]; subst.
  - destruct ins0 as [|k ins0]; [|by destruct ins0]. injection E as ->. apply session_nil in H1 as (-> & -> & _).
    exists m, s, []. rewrite app_nil_r. split_and!; [done|done|constructor].
  - rewrite app_comm_cons in E. apply app_inj_tail in E as [-> ->]. destruct (IH _ _ H1) as (m1 & s1 & ms' & E1 & -> & Hs).
    exists m1, s1, (ms' ++ to_send m). rewrite app_assoc. split_and!; [done|done|]. by eapply session_answer.
Qed.

Lemma run_session s0 evs c :
  run evs (initial s0) = Some c ->
  exists ins b, session s0 ins (cn_queued c) (sync_ c) b /\ in_turn ins /\ ins `sublist_of` inputs evs /\
    (sub_ c = true -> ins = inputs evs /\ b = true).
Proof.
  intros H. assert (exists ins b, serving s0 evs c ins b) as (ins & b & H1 & H2 & _ & _ & H3 & _ & H4 & H5).
  { revert c H. induction evs as [|ev evs IH] using rev_ind; intros c H.
    - injection H as <-. exists [], true. split_and!; try done; [exact (session_start s0)|unfold cnt; cbn; lia|by left|unfold cnt; cbn; lia].
    - rewrite run_app in H. destruct (run evs (initial s0)) as [c1|] eqn:E; [|done]. cbn in H.
      destruct (step ev c1) as [c2|] eqn:Es; [|done]. cbn in H. injection H as <-. destruct (IH c1 eq_refl) as (ins & b & Hs).
      eapply serving_step; [|exact Es|exact Hs]. apply reachable_invariant. by exists s0, evs. }
  exists ins, b. split_and!; [done|done|done|]. intros Hs. split; [auto|]. destruct b; [done|]. rewrite H2 in Hs; done.
Qed.

(** C13: What is queued for the client is what a session sends: one login, then the
    updates, each answered with its message in the order they came, up to the
    first error, which is the last message. As long as the connection is not
    closing every login and update that arrived has been answered. *)
Theorem session_refines s0 evs c :
  run evs (initial s0) = Some c ->
  exists ins b, session s0 ins (cn_queued c) (sync_ c) b /\ in_turn ins /\ ins `sublist_of` inputs evs /\
    (sub_ c = true -> ins = inputs evs /\ b = true).
Proof. apply run_session. Qed.

(** A failed write leaves the queue as it is. When the wait for the scanner ends
    after it, the timeout of the close is cancelled. *)
Lemma write_error_drops_close_timeout c l1 l2 i :
  reachable c -> close_started_ c = false -> take_op Write (cn_pending c) = Some l1 ->
  take_op (Zmq_read i) (l1 ++ [Close]) = Some l2 -> i = pull_iter_ c ->
  exists c', run [Wrote true; Published i None] c = Some c' /\ Close ∈ cn_pending c' /\ timer_ c' = None.
Proof.
  intros [Hc _]%reachable_invariant Hs H1 H2 ->.
  assert (step (Wrote true) c = Some (do_async_close (with_pending l1 c))) as E1 by (cbn [step]; unfold ending, ended; by rewrite H1).
  assert (do_async_close (with_pending l1 c) = start_op Close (start_timeout Force_close (shutdown_sub (set_close_started (with_pending l1 c))))) as E2
    by (unfold do_async_close; cbn [with_pending close_started_]; by rewrite Hs).
  cbn [run]. rewrite E1, E2. cbn [mbind option_bind step]. unfold ended.
  cbn [cn_pending start_op start_timeout shutdown_sub set_close_started with_timer with_pending].
  rewrite H2. cbn [mbind option_bind]. unfold loop_zmq, sync_pull, close_check. cbn. rewrite Nat.eqb_refl. cbn.
  destruct (inv_write c Hc) as (_ & Hq & _).
  assert (0 < length (write_queue_ c))%nat as Hq0.
  { apply Hq. pose proof (take_op_cnt _ _ _ is_write H1). pose proof (proj1 (inv_write c Hc)). cbn in *. lia. }
  destruct (write_queue_ c); [cbn in Hq0; lia|]. eexists. split; [reflexivity|]. cbn. split; [|done].
  pose proof (take_op_cnt _ _ _ is_close H2) as Hcl. rewrite cnt_app in Hcl. cbn in Hcl.
  assert (0 < cnt is_close l2)%nat as Hl by lia. clear -Hl. unfold cnt in *. induction l2 as [|o l IH]; [cbn in Hl; lia|].
  cbn in Hl. destruct o; cbn in Hl; try (right; by apply IH). left.
Qed.
End connection.
End Connection.

(** ** A sample: a session of two updates, one of them refused *)
Module ConnectionSample.
Import Connection.

(** Messages are numbers; an update below zero is refused. *)
Definition error_message (e : error) : Z := -1.
Definition prep_login (b : Z) (s : nat) : expect (option Z) * nat := (Ok (Some b), s).
Definition prep_update (u : Z) (s : nat) : option (expect (option Z) * nat) :=
  Some (if u <? 0 then Err (feed_err missed_messages) else if u =? 0 then Ok None else Ok (Some u), Datatypes.S s).

Definition run := run error_message prep_login prep_update.
Definition step := step error_message prep_login prep_update.
Definition initial : connection (M:=Z) (S:=nat) := initial 0%nat.

(** Open, with two messages queued and an update without one. *)
Definition opening : list (event (L:=Z) (U:=Z)) :=
  [Accepted false; Login_arrived 1 (Some 7); Published 2 (Some 0); Published 3 (Some 8); Wrote false].
(** Its end after an update that is refused: both messages left are sent, and a
    late reply of the scanner is not awaited. *)
Definition refused : event (L:=Z) (U:=Z) := Published 4 (Some (-5)).
Definition ending : list (event (L:=Z) (U:=Z)) := [Wrote false; Wrote false; Closed; Drained; Timer_expires; Ssl_done].

Definition after (ssl : bool) (evs : list (event (L:=Z) (U:=Z))) : connection := default initial (run ssl evs initial).

Example opened : (sub_ (after true opening), write_queue_ (after true opening), cn_sent (after true opening)) = (true, [8], [7]).
Proof. reflexivity. Qed.
Example ended_well :
  (cn_sent (after true (opening ++ refused :: ending)), cn_cleaned (after true (opening ++ refused :: ending)),
   cn_pending (after true (opening ++ refused :: ending))) = ([7; 8; -1], true, [Expired Force_close]).
Proof. reflexivity. Qed.

Lemma operations_exclusive_witness :
  let c := after true (opening ++ [refused]) in
  (write_queue_ c = [8; -1] /\ sub_ c = false) /\
  (cnt is_websocket_read (cn_pending c) <= 1)%nat /\ (cnt is_write (cn_pending c) <= 1)%nat.
Proof.
  split; [by split|]. assert (reachable error_message prep_login prep_update true (after true (opening ++ [refused]))) as Hr.
  { exists 0%nat, (opening ++ [refused]). vm_compute. reflexivity. }
  pose proof (operations_exclusive error_message prep_login prep_update true _ Hr) as H. split; apply H.
Defined.

Lemma closing_ends_witness :
  let c := after true (opening ++ [refused]) in let c' := after true (opening ++ refused :: ending) in
  left_to_do c = 12%nat /\ (length (others ending) <= left_to_do c)%nat /\ sub_ c' = false.
Proof.
  split; [vm_compute; reflexivity|]. assert (reachable error_message prep_login prep_update true (after true (opening ++ [refused]))) as Hr.
  { exists 0%nat, (opening ++ [refused]). vm_compute. reflexivity. }
  destruct (closing_ends error_message prep_login prep_update true _ ending (after true (opening ++ refused :: ending)) Hr) as (H1 & H2 & _);
    [vm_compute; reflexivity..|by split].
Defined.

Lemma session_refines_witness :
  exists ins b, session error_message prep_login prep_update 0%nat ins [7; 8] 2%nat b /\ ins = [inl 7; inr 0; inr 8] /\ b = true.
Proof.
  destruct (session_refines error_message prep_login prep_update true 0%nat opening (after true opening)) as (ins & b & H1 & _ & _ & H2); [vm_compute; reflexivity|].
  exists ins, b. split; [exact H1|]. by apply H2.
Defined.
End ConnectionSample.
