(* ===== verification/Feed.v ===== *)
(** The websocket of /feed (src/rpc/feed.h, feed.inl, feed_tcp.cpp): the messages
    a session makes of what the scanner publishes (module [Messages]), and the
    connection that carries them: its timer, its queue of writes, the loop that
    waits for the scanner and the ways it is closed (module [Connection]). *)

From stdpp Require Import gmap.
From S2P Require Import Prelude Wire Data Account Lmdb Tables Chain Subaddress Accounts Update OwnershipTest Mempool Transactions Rest FeedConnection.
Import Pool.

(** ** src/rpc/feed.h *)

Inductive feed_status :=
| unspecified_error | status_account_not_found | status_bad_address | status_bad_view_key | status_blockchain_reorg
| daemon_unresponsive | parse_error | protocol_error | queue_error | status_schema_error.
#[export] Instance feed_status_eq_dec : EqDecision feed_status.
Proof. solve_decision. Defined.

Definition map_error (e : error) : feed_status :=
  match e with
  | lws_err blockchain_reorg => status_blockchain_reorg
  | lws_err daemon_timeout => daemon_unresponsive
  | feed_err queue_max => queue_error
  | feed_err missed_messages => queue_error
  | lws_err bad_address => status_bad_address
  | lws_err bad_view_key => status_bad_view_key
  | lws_err account_not_found => status_account_not_found
  | feed_err feed_protocol => protocol_error
  | schema_err _ => status_schema_error
  | msgpack_err _ => parse_error
  | rapidjson_err _ => parse_error
  | _ => unspecified_error
  end.

(** ** Messages *)
Module Messages.

Inductive protocol := invalid | v0_json | v0_msgpack.
Definition get_string (proto : protocol) : string :=
  match proto with v0_json => "lws.feed.v0.json" | v0_msgpack => "lws.feed.v0.msgpack" | invalid => "unsupported" end.
Definition is_binary (proto : protocol) : bool := match proto with v0_msgpack => true | _ => false end.

(** The tokens of [Sec-WebSocket-Protocol], in the client's order. *)
Definition supported : list protocol := [v0_msgpack; v0_json].
Fixpoint get_protocol (tokens : list string) : protocol :=
  match tokens with
  | [] => invalid
  | token :: tokens =>
    match List.find (fun p => String.eqb (get_string p) token) supported with
    | Some p => p
    | None => get_protocol tokens
    end
  end.

Record feed_login := FeedLogin { fl_account : account_credentials; fl_tx_sync : bool; fl_receives_only : bool }.
Record feed_warning := FeedWarning {
  fw_msg : list Z;
  fw_code : feed_status;
  fw_counter : Z;
  fw_height : block_id
}.
Record feed_blocks := FeedBlocks {
  fb_scan_start : block_id;
  fb_scan_end : block_id;
  fb_blockchain_height : block_id;
  fb_lookahead_fail : block_id;
  fb_lookahead : address_index;
  fb_transactions : list get_transaction
}.

(** What is sent to the client. The text of an error is left to its code. *)
Inductive feed_message :=
| Blocks (b : feed_blocks)
| Error (code : feed_status)
| Mempool (received : output)
| TxSync (info : get_address_txs_response)
| Warning (w : feed_warning).

Definition prefix (m : feed_message) : string :=
  match m with Blocks _ => "blocks:" | Error _ => "error:" | Mempool _ => "mempool:" | TxSync _ => "tx_sync:" | Warning _ => "warning:" end.
Definition login_prefix : string := "login:".
Definition warning_prefix : string := "warning:".

(** An [epee::byte_slice]: a message in place of the bytes that are written for it,
    or nothing. *)
Definition byte_slice : Type := option feed_message.
Definition prep (m : feed_message) : expect byte_slice := Ok (Some m).
Definition prep_error (e : error) : expect byte_slice := prep (Error (map_error e)).

(** Up to and with the first ':'. *)
Fixpoint get_prefix (buf : list Z) : list Z :=
  match buf with
  | [] => []
  | b :: buf =>
    if b =? 58 then [b]
    else match get_prefix buf with [] => [] | p => b :: p end
  end.

Record connection_sync := ConnectionSync {
  cs_height : block_id;
  cs_last_reported : block_id;
  cs_last_update : Z;
  cs_id : account_id;
  cs_warnings : Z;
  cs_on_tip : bool;
  cs_receives_only : bool
}.
Definition initial_sync : connection_sync :=
  ConnectionSync block_id_txpool block_id_txpool 0 account_id_invalid u32_max false false.

Definition scanner_busy : Z := 10 * 1000000000.
Definition on_tip : Z := 10.

Section messages.
Context {WC : WalletCrypto} {LM : Lmdb} {VC : ViewKeyCrypto} {SC : SubaddressCrypto}.
Context (start_read : tables -> expect tables).
Context (iterate : pool_table -> list (hash * pool_entry)) (address_string : account_address -> list Z).
(** [from_bytes] of src/wire for the three messages that are read (for a warning
    with the object it has read into, which is also used after an error), and the
    subscription to an account and to warnings, with their count. *)
Context (login_from_bytes : protocol -> list Z -> expect feed_login).
Context (warning_from_bytes : list Z -> option error * feed_warning).
Context (update_from_bytes : list Z -> expect Account.update).
Context (watch : list Z -> expect Z).

Definition logged_in (login : feed_login) (id : account_id) (warnings : Z) (sync : connection_sync) : connection_sync :=
  ConnectionSync (cs_height sync) (cs_last_reported sync) (cs_last_update sync) id warnings (cs_on_tip sync) (fl_receives_only login).

Definition prep_login (disk : tables) (pool : option mempool) (sync : connection_sync) (buffer : list Z) (proto : protocol)
    : expect byte_slice * connection_sync * option mempool :=
  let prefix := get_prefix buffer in
  if negb (bool_decide (prefix = bytes_of_string login_prefix)) then (Err (feed_err feed_protocol), sync, pool)
  else
    match login_from_bytes proto (drop (length prefix) buffer) with
    | Err e => (Err e, sync, pool)
    | Ok login =>
      match watch (address_string (cr_address (fl_account login))) with
      | Err e => (Err e, sync, pool)
      | Ok watcher =>
        match open_account start_read (fl_account login) disk with
        | Err e => (Err e, sync, pool)
        | Ok (acct, reader) =>
          let sync := logged_in login (acc_id acct) watcher sync in
          if negb (fl_tx_sync login) then
            (let* block := get_last_block reader in
             prep (Blocks (FeedBlocks (acc_start_height acct) (acc_scan_height acct) (bi_id block) (acc_lookahead_fail acct)
                             (acc_lookahead acct) [])), sync, pool)
          else
            match load iterate address_string reader acct pool true with
            | Err e => (Err e, sync, pool)
            | Ok (txs, pool) => (prep (TxSync txs), sync, pool)
            end
        end
      end
    end.

(** [prep_update] for a warning: the test of [error] is inverted, so a message
    that was read is returned as a null error. *)
Definition prep_warning (source : list Z) (sync : connection_sync) : expect byte_slice * connection_sync :=
  if cs_receives_only sync then (Ok None, sync)
  else
    match warning_from_bytes source with
    | (None, _) => (Err kInvalidErrorCode, sync)
    | (Some _, the_warning) =>
      if negb (cs_warnings sync =? fw_counter the_warning) then (prep_error (feed_err missed_messages), sync)
      else
        let height :=
          if bool_decide (fw_code the_warning = status_blockchain_reorg) && negb (cs_height sync =? block_id_txpool)
          then Z.min (cs_height sync) (fw_height the_warning) else cs_height sync in
        (prep (Warning the_warning),
         ConnectionSync height (cs_last_reported sync) (cs_last_update sync) (cs_id sync) (u32 (cs_warnings sync + 1))
           (cs_on_tip sync) (cs_receives_only sync))
    end.

Definition at_height (height : block_id) (sync : connection_sync) : connection_sync :=
  ConnectionSync height (cs_last_reported sync) (cs_last_update sync) (cs_id sync) (cs_warnings sync) (cs_on_tip sync) (cs_receives_only sync).
Definition reported (height : block_id) (now : Z) (tip : bool) (sync : connection_sync) : connection_sync :=
  ConnectionSync (cs_height sync) height now (cs_id sync) (cs_warnings sync) tip (cs_receives_only sync).

Definition is_nil {A} (l : list A) : bool := match l with [] => true | _ => false end.

(** The account, active or inactive. *)
Definition followed (id : account_id) (reader : tables) : expect account :=
  match get_account_by_id active id reader with
  | Ok u => Ok u
  | Err e => if bool_decide (e = lws_err account_not_found) then get_account_by_id inactive id reader else Err e
  end.

(** [prep_update] for blocks; [now] is the steady clock at both calls. *)
Definition prep_blocks (disk : tables) (now now' : Z) (u : Account.update) (sync : connection_sync) : expect byte_slice * connection_sync :=
  if negb (cs_height sync =? block_id_txpool) && negb (cs_height sync =? Account.u_old_height u)
  then (prep_error (feed_err missed_messages), sync)
  else
    let sync := at_height (Account.u_new_height u) sync in
    if cs_receives_only sync && is_nil (Account.u_outputs u) then (Ok None, sync)
    else if negb (cs_on_tip sync) && is_nil (Account.u_outputs u) && is_nil (Account.u_spends u) && (now - cs_last_update sync <=? scanner_busy)
    then (Ok None, sync)
    else
      match
        (let* reader := start_read disk in
         let* last_block := get_last_block reader in
         let* acct := followed (cs_id sync) reader in
         let* txs := load_update iterate address_string (Account.u_outputs u) (Account.u_spends u) in
         Ok (last_block, acct, txs))
      with
      | Err e => (Err e, sync)
      | Ok (last_block, acct, txs) =>
        let tip := bi_id last_block - Z.min (bi_id last_block) (Account.u_new_height u) <=? on_tip in
        (prep (Blocks (FeedBlocks (Z.min (cs_last_reported sync) (Account.u_old_height u)) (Account.u_new_height u) (bi_id last_block)
                         (acc_lookahead_fail acct) (acc_lookahead acct) txs)),
         reported (Account.u_new_height u) now' tip sync)
      end.

(** [None] is the exception of [LWS_VERIFY] for a pool update that has not one
    output; nothing catches it, and the server ends. *)
Definition prep_update (disk : tables) (now now' : Z) (source : list Z) (sync : connection_sync) : option (expect byte_slice * connection_sync) :=
  let prefix := get_prefix source in
  let slice := drop (length prefix) source in
  if bool_decide (prefix = bytes_of_string warning_prefix) then Some (prep_warning slice sync)
  else
    match update_from_bytes slice with
    | Err e => Some (Err e, sync)
    | Ok from_scanner =>
      if negb (Account.u_new_height from_scanner =? block_id_txpool) then Some (prep_blocks disk now now' from_scanner sync)
      else
        match Account.u_outputs from_scanner with
        | [o] => Some (prep (Mempool o), sync)
        | _ => None
        end
    end.
End messages.

(** *** Merging never fails for sorted outputs and spends *)
Section merging.
Context (all_outputs : bool).

(** What is merged last is not after what comes. *)
Definition below (st : merge_state) : Prop :=
  sorted_by (fun l r => transaction_link_lt (out_link l) (out_link r)) (ms_output st) /\
  sorted_by (fun l r => transaction_link_lt (sp_link l) (sp_link r)) (ms_spend st) /\
  forall tx, last (ms_out st) = Some tx ->
    (forall o, o ∈ ms_output st -> transaction_link_lt (out_link o) (tx_link tx) = false) /\
    (forall s, s ∈ ms_spend st -> transaction_link_lt (sp_link s) (tx_link tx) = false).

Lemma below_in_order st : below st -> in_order st = true.
Proof.
  intros (_ & _ & H). unfold in_order. destruct (last (ms_out st)) as [tx|]; [|done]. destruct (H tx eq_refl) as [Ho Hs]. apply andb_true_iff.
  split; [destruct (ms_output st) as [|o outs]; [done|]; rewrite link_le_lt, Ho; [done|left]|].
  destruct (ms_spend st) as [|s spds]; [done|]. rewrite link_le_lt, Hs; [done|left].
Qed.

(** The link of the last transaction after one more item with link [l]. *)
Lemma on_back_last {A} (f : A -> A) l : last (on_back f l) = f <$> last l.
Proof. unfold on_back. destruct (last l) as [x|] eqn:E; [by rewrite last_snoc|by rewrite E]. Qed.

Lemma last_link (b c : bool) (f g : get_transaction -> get_transaction) out new tx :
  (forall t, tx_link (f t) = tx_link t) -> (forall t, tx_link (g t) = tx_link t) -> (b = true -> is_Some (last out)) ->
  last (let out := if b then on_back f out else out ++ [new] in if c then on_back g out else out) = Some tx ->
  tx_link tx = tx_link new \/ exists tx0, last out = Some tx0 /\ tx_link tx = tx_link tx0.
Proof.
  intros Hf Hg Hb. cbn. assert (forall t, last (if b then on_back f out else out ++ [new]) = Some t ->
    tx_link t = tx_link new \/ exists tx0, last out = Some tx0 /\ tx_link t = tx_link tx0) as H1.
  { intros t Ht. destruct b.
    - rewrite on_back_last in Ht. destruct (last out) as [t0|]; [|done]. injection Ht as <-. right. exists t0. by rewrite Hf.
    - rewrite last_snoc in Ht. injection Ht as <-. by left. }
  intros Ht. destruct c; [|by apply H1]. rewrite on_back_last in Ht. destruct (last (if b then _ else _)) as [t0|]; [|done]. injection Ht as <-. rewrite Hg. by apply H1.
Qed.

Lemma same_tx_last h out : same_tx h out = true -> is_Some (last out).
Proof. unfold same_tx. by destruct (last out). Qed.

Lemma merge_output_below o outs st :
  below st -> ms_output st = o :: outs -> (forall s, s ∈ ms_spend st -> transaction_link_lt (sp_link s) (out_link o) = false) ->
  below (merge_output false all_outputs o outs st).
Proof.
  intros (H1 & H2 & H3) Eo Hs. rewrite Eo in *. apply StronglySorted_inv in H1 as [H1 Hall]. rewrite Forall_forall in Hall.
  split_and!; [done|done|]. intros tx Htx. cbn [merge_output ms_out ms_output ms_spend] in *.
  apply last_link in Htx as [->|(tx0 & E & ->)]; [| |done|done|apply same_tx_last].
  - split; [exact Hall|exact Hs].
  - destruct (H3 tx0 E) as [H4 H5]. split; [intros o' Ho'; apply H4; by right|exact H5].
Qed.

Lemma merge_spend_below s spds st :
  below st -> ms_spend st = s :: spds -> (forall o, o ∈ ms_output st -> transaction_link_lt (out_link o) (sp_link s) = false) ->
  exists st', merge_spend false true s spds st = Ok st' /\ below st' /\ ms_output st' = ms_output st /\ ms_spend st' = spds.
Proof.
  intros (H1 & H2 & H3) Es Ho. rewrite Es in *. apply StronglySorted_inv in H2 as [H2 Hall]. rewrite Forall_forall in Hall.
  unfold merge_spend. cbn [negb orb]. eexists. split_and!; [reflexivity| |done|done]. split_and!; [done|done|]. intros tx Htx.
  cbn [ms_out ms_output ms_spend] in *. apply (last_link _ false _ id) in Htx as [->|(tx0 & E & ->)]; [| |done|done|apply same_tx_last].
  - split; [exact Ho|exact Hall].
  - destruct (H3 tx0 E) as [H4 H5]. split; [exact H4|intros s' Hs'; apply H5; by right].
Qed.

Lemma merge_rounds_total n st :
  below st -> (length (ms_output st) + length (ms_spend st) <= n)%nat -> exists st', merge_rounds false all_outputs true n st = Ok st'.
Proof.
  revert st. induction n as [|n IH]; intros st Hb Hn; [by exists st|]. cbn [merge_rounds]. unfold merge_step. rewrite (below_in_order _ Hb). cbn [negb].
  destruct (ms_output st) as [|o outs] eqn:Eo, (ms_spend st) as [|s spds] eqn:Es.
  - apply IH; [done|rewrite Eo, Es; cbn; lia].
  - destruct (merge_spend_below s spds st Hb Es) as (st' & -> & Hb' & E1 & E2); [rewrite Eo; by intros ? ?%elem_of_nil|].
    apply IH; [done|]. rewrite E1, E2, Eo. cbn in *. lia.
  - apply IH; [apply merge_output_below; [done|done|rewrite Es; by intros ? ?%elem_of_nil]|]. cbn. rewrite Es. cbn in *. lia.
  - rewrite link_le_lt. pose proof Hb as (H1 & H2 & _). rewrite Eo in H1. rewrite Es in H2.
    apply StronglySorted_inv in H1 as [_ H1], H2 as [_ H2]. rewrite Forall_forall in H1. rewrite Forall_forall in H2.
    destruct (transaction_link_lt (sp_link s) (out_link o)) eqn:E; cbn [negb].
    + destruct (merge_spend_below s spds st Hb Es) as (st' & -> & Hb' & E1 & E2).
      { rewrite Eo. pose proof (tlt_asym transaction_link_lt _ _ E) as Hlt. intros o' [->|Ho']%elem_of_cons; [done|].
        eapply (tlt_false_trans transaction_link_lt); [by apply H1|exact Hlt]. }
      apply IH; [done|]. rewrite E1, E2, Eo. cbn in *. lia.
    + apply IH; [apply merge_output_below; [done|done|]|cbn; rewrite Es; cbn in *; lia].
      rewrite Es. intros s' [->|Hs']%elem_of_cons; [done|]. eapply (tlt_false_trans transaction_link_lt); [by apply H2|exact E].
Qed.
End merging.

(** *** Updates *)
Section updates.
Context {WC : WalletCrypto} {LM : Lmdb} {VC : ViewKeyCrypto} {SC : SubaddressCrypto}.
Context (start_read : tables -> expect tables).
Context (iterate : pool_table -> list (hash * pool_entry)) (address_string : account_address -> list Z).

Lemma load_update_total outs spds : exists txs, load_update iterate address_string outs spds = Ok txs.
Proof.
  unfold load_update, merge_into_txes, merge_stored.
  set (sorted_outs := std_sort _ outs). set (sorted_spds := std_sort _ spds).
  destruct (merge_rounds_total true (length sorted_outs + length sorted_spds) (MergeState sorted_outs sorted_spds [] 0 [] [] [])) as [st E].
  - split_and!; [apply weak_sort_sorted, (weak_on out_link transaction_link_lt), _|apply weak_sort_sorted, (weak_on sp_link transaction_link_lt), _|done].
  - done.
  - rewrite E. by eexists.
Qed.

(** A disk the session can read its account from. *)
Definition readable (id : account_id) (disk : tables) : Prop :=
  exists reader b acct, start_read disk = Ok reader /\ get_last_block reader = Ok b /\ followed id reader = Ok acct.

(** What the scanner publishes for an account: every update goes on where the one
    before ended. Each comes with the disk and the clock at its arrival. *)
Record arrival := Arrival { ar_disk : tables; ar_now : Z; ar_now' : Z; ar_update : Account.update }.
Fixpoint chained (h : block_id) (l : list arrival) : Prop :=
  match l with
  | [] => True
  | a :: l =>
    Account.u_old_height (ar_update a) = h /\ h <= Account.u_new_height (ar_update a) < block_id_txpool /\
    chained (Account.u_new_height (ar_update a)) l
  end.

(** The session's answers to updates of blocks. *)
Fixpoint prep_all (l : list arrival) (sync : connection_sync) : list (expect byte_slice) * connection_sync :=
  match l with
  | [] => ([], sync)
  | a :: l =>
    let '(m, sync) := prep_blocks start_read iterate address_string (ar_disk a) (ar_now a) (ar_now' a) (ar_update a) sync in
    let '(ms, sync) := prep_all l sync in (m :: ms, sync)
  end.

(** [last] is where the last range ended, once there was one. *)
Definition starts_at (last : option block_id) (u : Account.update) (start : block_id) : Prop :=
  match last with None => start = Account.u_old_height u | Some h => start = h /\ h <= Account.u_old_height u end.
Inductive covered (receives_only : bool) : option block_id -> list Account.update -> list (expect byte_slice) -> Prop :=
| covered_none last : covered receives_only last [] []
| covered_silent last u us ms :
    Account.u_outputs u = [] -> Account.u_spends u = [] \/ receives_only = true ->
    covered receives_only last us ms -> covered receives_only last (u :: us) (Ok None :: ms)
| covered_blocks last u us b ms :
    starts_at last u (fb_scan_start b) -> fb_scan_end b = Account.u_new_height u ->
    load_update iterate address_string (Account.u_outputs u) (Account.u_spends u) = Ok (fb_transactions b) ->
    covered receives_only (Some (Account.u_new_height u)) us ms ->
    covered receives_only last (u :: us) (Ok (Some (Blocks b)) :: ms).

(** What the session has reported, at height [h]. *)
Definition reported_to (last : option block_id) (h : block_id) (sync : connection_sync) : Prop :=
  match last with None => cs_last_reported sync = block_id_txpool | Some h0 => cs_last_reported sync = h0 /\ h0 <= h end.

Lemma is_nil_true {A} (l : list A) : is_nil l = true -> l = [].
Proof. by destruct l. Qed.

Lemma prep_blocks_step disk now now' u sync h last :
  Account.u_old_height u = h -> h <= Account.u_new_height u < block_id_txpool -> cs_height sync = block_id_txpool \/ cs_height sync = h ->
  reported_to last h sync ->
  let '(r, sync') := prep_blocks start_read iterate address_string disk now now' u sync in
  cs_height sync' = Account.u_new_height u /\ cs_id sync' = cs_id sync /\ cs_receives_only sync' = cs_receives_only sync /\
  ((r = Ok None /\ Account.u_outputs u = [] /\ (Account.u_spends u = [] \/ cs_receives_only sync = true) /\ reported_to last (Account.u_new_height u) sync') \/
   (exists b, r = Ok (Some (Blocks b)) /\ starts_at last u (fb_scan_start b) /\ fb_scan_end b = Account.u_new_height u /\
     load_update iterate address_string (Account.u_outputs u) (Account.u_spends u) = Ok (fb_transactions b) /\
     reported_to (Some (Account.u_new_height u)) (Account.u_new_height u) sync') \/
   (exists e, r = Err e /\ ~ readable (cs_id sync) disk)).
Proof.
  intros Ho Hn Hh Hr. unfold prep_blocks.
  assert (negb (cs_height sync =? block_id_txpool) && negb (cs_height sync =? Account.u_old_height u) = false) as ->.
  { destruct (Z.eqb_spec (cs_height sync) block_id_txpool), (Z.eqb_spec (cs_height sync) (Account.u_old_height u)); try done. destruct Hh; congruence. }
  assert (reported_to last (Account.u_new_height u) (at_height (Account.u_new_height u) sync)) as Hr1.
  { destruct last as [h0|]; [|exact Hr]. destruct Hr as [Hr Hle]. split; [exact Hr|lia]. }
  destruct (cs_receives_only _ && is_nil _) eqn:E1.
  { apply andb_true_iff in E1 as [E1 E2]. split_and!; [done|done|done|]. left. split_and!; [done|by apply is_nil_true|by right|done]. }
  destruct (negb _ && is_nil _ && is_nil _ && _) eqn:E2.
  { apply andb_true_iff in E2 as [E2 _]. apply andb_true_iff in E2 as [E2 E4]. apply andb_true_iff in E2 as [_ E2].
    split_and!; [done|done|done|]. left. split_and!; [done|by apply is_nil_true|left; by apply is_nil_true|done]. }
  destruct (load_update_total (Account.u_outputs u) (Account.u_spends u)) as [txs Etx].
  destruct (start_read disk) as [reader|e] eqn:Er; cbn [ebind]; [|split_and!; try done; right; right; exists e; split; [done|]; by intros (? & ? & ? & ? & _); congruence].
  destruct (get_last_block reader) as [blk|e] eqn:Eb; cbn [ebind];
    [|split_and!; try done; right; right; exists e; split; [done|]; intros (? & ? & ? & ? & ? & _); congruence].
  destruct (followed (cs_id _) reader) as [acct|e] eqn:Ea; cbn [ebind];
    [|split_and!; try done; right; right; exists e; split; [done|]; intros (? & ? & ? & ? & ? & ?); cbn in Ea; congruence].
  rewrite Etx. cbn [ebind]. split_and!; [done|done|done|]. right. left. eexists. split_and!; [done| |done|done|split; [done|lia]].
  cbn [fb_scan_start at_height cs_last_reported]. destruct last as [h0|]; cbn in Hr |- *.
  - destruct Hr as [-> Hle]. lia.
  - rewrite Hr. lia.
Qed.

(** The blocks messages of a session cover the chain: when the scanner's
    updates go on one from the other and the account can be read, every update is
    answered without an error; the range of each message starts where the one
    before ended, its transactions are those of its update, and only updates
    without outputs (and, unless the session asked for receives only, without
    spends) are passed over. *)
Theorem updates_cover l sync h last :
  chained h l -> (forall a, a ∈ l -> readable (cs_id sync) (ar_disk a)) ->
  cs_height sync = block_id_txpool \/ cs_height sync = h -> reported_to last h sync ->
  covered (cs_receives_only sync) last (ar_update <$> l) (prep_all l sync).1.
Proof.
  revert sync h last. induction l as [|a l IH]; intros sync h last Hc Hd Hh Hr; [constructor|]. cbn [prep_all fmap list_fmap].
  destruct Hc as (H1 & H2 & Hc).
  pose proof (prep_blocks_step (ar_disk a) (ar_now a) (ar_now' a) (ar_update a) sync h last H1 H2 Hh Hr) as H.
  destruct (prep_blocks _ _ _ _ _ _ _ _) as [r sync1]. destruct H as (H3 & H4 & H5 & H).
  assert (forall last, reported_to last (Account.u_new_height (ar_update a)) sync1 ->
    covered (cs_receives_only sync) last (ar_update <$> l) (prep_all l sync1).1) as IH'.
  { intros last' Hr'. rewrite <- H5. eapply IH; [exact Hc|intros a' Ha'; rewrite H4; apply Hd; by right|by right|exact Hr']. }
  destruct (prep_all l sync1) as [ms sync2].
  destruct H as [(-> & H6 & H7 & H8)|[(b & -> & H6 & H7 & H8 & H9)|(e & _ & H6)]].
  - apply covered_silent; [done|done|by apply IH'].
  - apply covered_blocks; [done|done|done|by apply IH'].
  - destruct H6. apply Hd. left.
Qed.
End updates.
End Messages.

(** ** The messages on their connection *)
Module Stream.
Import Messages Connection.

Section stream.
Context {WC : WalletCrypto} {LM : Lmdb} {VC : ViewKeyCrypto} {SC : SubaddressCrypto}.
Context (start_read : tables -> expect tables).
Context (iterate : pool_table -> list (hash * pool_entry)) (address_string : account_address -> list Z).
Context (login_from_bytes : protocol -> list Z -> expect feed_login) (warning_from_bytes : list Z -> option error * feed_warning).
Context (update_from_bytes : list Z -> expect Account.update) (watch : list Z -> expect Z).
Context (proto : protocol) (ssl : bool).

(** What a handler reads beside the bytes: the database, the pool and the clock. *)
Record login_bytes := LoginBytes { lb_disk : tables; lb_pool : option mempool; lb_buffer : list Z }.
Record update_bytes := UpdateBytes { ub_disk : tables; ub_now : Z; ub_now' : Z; ub_source : list Z }.

Definition error_message (e : error) : feed_message := Error (map_error e).
Definition on_login (b : login_bytes) (sync : connection_sync) : expect byte_slice * connection_sync :=
  (prep_login start_read iterate address_string login_from_bytes watch (lb_disk b) (lb_pool b) sync (lb_buffer b) proto).1.
Definition on_update (u : update_bytes) (sync : connection_sync) : option (expect byte_slice * connection_sync) :=
  prep_update start_read iterate address_string warning_from_bytes update_from_bytes (ub_disk u) (ub_now u) (ub_now' u) (ub_source u) sync.

Definition feed_connection : Type := connection (M:=feed_message) (S:=connection_sync).
Definition feed_event : Type := event (L:=login_bytes) (U:=update_bytes).
Definition feed_run (evs : list feed_event) : option feed_connection :=
  run error_message on_login on_update ssl evs (initial initial_sync).

(** A message of the scanner with an update of blocks. *)
Definition carries (u : update_bytes) (a : arrival) : Prop :=
  ub_disk u = ar_disk a /\ ub_now u = ar_now a /\ ub_now' u = ar_now' a /\
  get_prefix (ub_source u) <> bytes_of_string warning_prefix /\
  update_from_bytes (drop (length (get_prefix (ub_source u))) (ub_source u)) = Ok (ar_update a).

Lemma on_update_blocks u a sync :
  carries u a -> Account.u_new_height (ar_update a) < block_id_txpool ->
  on_update u sync = Some (prep_blocks start_read iterate address_string (ar_disk a) (ar_now a) (ar_now' a) (ar_update a) sync).
Proof.
  unfold on_update, prep_update. intros (-> & -> & -> & Hp & E) Hn. rewrite bool_decide_false by done. rewrite E.
  by destruct (Z.eqb_spec (Account.u_new_height (ar_update a)) block_id_txpool); [lia|].
Qed.

Lemma session_covers us l h last sync ms sync' :
  Forall2 carries us l -> chained h l -> cs_height sync = block_id_txpool \/ cs_height sync = h -> reported_to last h sync ->
  session error_message on_login on_update sync (inr <$> us) ms sync' true ->
  exists answers, ms = concat (to_send <$> answers) /\ covered iterate address_string (cs_receives_only sync) last (ar_update <$> l) (Ok <$> answers) /\
    cs_receives_only sync' = cs_receives_only sync.
Proof.
  intros Hl. revert h last sync ms. induction Hl as [|u a us l Hu Hl IH]; intros h last sync ms Hc Hh Hr H; cbn [fmap list_fmap] in H |- *.
  - apply session_nil in H as (-> & -> & _). exists []. split_and!; [done|constructor|done].
  - apply session_cons in H as (m & sync1 & ms' & Ea & -> & H). destruct Hc as (H1 & H2 & Hc). cbn [answer] in Ea.
    rewrite (on_update_blocks u a sync Hu) in Ea by lia. injection Ea as Ea.
    pose proof (prep_blocks_step start_read iterate address_string (ar_disk a) (ar_now a) (ar_now' a) (ar_update a) sync h last H1 H2 Hh Hr) as Hstep.
    rewrite Ea in Hstep. destruct Hstep as (H3 & _ & H5 & Hstep).
    destruct Hstep as [(E & H6 & H7 & H8)|[(b & E & H6 & H7 & H8 & H9)|(e & E & _)]]; [| |done]; injection E as ->.
    + destruct (IH _ last sync1 ms' Hc (or_intror H3) H8 H) as (answers & -> & Hcov & Hro). exists (None :: answers). rewrite <- H5.
      split_and!; [done| |congruence]. by apply covered_silent; [|rewrite H5|].
    + destruct (IH _ (Some (Account.u_new_height (ar_update a))) sync1 ms' Hc (or_intror H3) H9 H) as (answers & -> & Hcov & Hro).
      exists (Some (Blocks b) :: answers). rewrite <- H5. split_and!; [done| |congruence]. by apply covered_blocks.
Qed.

(** The login leaves the heights as they are. *)
Lemma on_login_heights b sync :
  cs_height (on_login b sync).2 = cs_height sync /\ cs_last_reported (on_login b sync).2 = cs_last_reported sync.
Proof.
  unfold on_login, prep_login. destruct (negb _); [done|]. destruct (login_from_bytes _ _) as [login|e]; [|done].
  destruct (watch _) as [watcher|e]; [|done]. destruct (open_account _ _ _) as [[acct reader]|e]; [|done].
  destruct (negb _); [done|]. by destruct (load _ _ _ _ _ _) as [[txs pool]|e].
Qed.

(** C15: What an open connection has queued: after the reply to the login, when the
    scanner published updates that go on one from the other, a blocks message for
    every update that has something for the client, with its transactions and with
    ranges that join; and nothing else. *)
Theorem open_stream_covers evs c b us l h :
  feed_run evs = Some c -> sub_ c = true -> inputs evs = inl b :: (inr <$> us) -> Forall2 carries us l -> chained h l ->
  exists reply answers, cn_queued c = to_send reply ++ concat (to_send <$> answers) /\
    (on_login b initial_sync).1 = Ok reply /\
    covered iterate address_string (cs_receives_only (sync_ c)) None (ar_update <$> l) (Ok <$> answers).
Proof.
  intros H Hs Hi Hl Hc. destruct (run_session _ _ _ _ _ _ _ H) as (ins & go & Hses & _ & _ & Hopen).
  destruct (Hopen Hs) as [-> ->]. rewrite Hi in Hses. apply session_cons in Hses as (reply & sync & ms & Ea & -> & Hses).
  cbn [answer] in Ea. injection Ea as Ea. pose proof (on_login_heights b initial_sync) as [H1 H2]. rewrite Ea in H1, H2. cbn in H1, H2.
  destruct (session_covers us l h None sync ms (sync_ c) Hl Hc (or_introl H1) H2 Hses) as (answers & -> & Hcov & Hro).
  exists reply, answers. split_and!; [done|by rewrite Ea|by rewrite Hro].
Qed.

(** A warning that is read ends the session with an unspecified error: its text is
    never sent. *)
Theorem warnings_end_session u sync w :
  get_prefix (ub_source u) = bytes_of_string warning_prefix -> cs_receives_only sync = false ->
  warning_from_bytes (drop (length (get_prefix (ub_source u))) (ub_source u)) = (None, w) ->
  on_update u sync = Some (Err kInvalidErrorCode, sync) /\ error_message kInvalidErrorCode = Error unspecified_error.
Proof.
  intros Hp Hr Hw. split; [|done]. unfold on_update, prep_update. rewrite bool_decide_true by done. unfold prep_warning. by rewrite Hr, Hw.
Qed.

(** A missed message is reported as a value, so the session goes on after it. *)
Theorem missed_messages_go_on u a sync :
  carries u a -> Account.u_new_height (ar_update a) < block_id_txpool -> cs_height sync <> block_id_txpool ->
  cs_height sync <> Account.u_old_height (ar_update a) ->
  on_update u sync = Some (Ok (Some (Error queue_error)), sync).
Proof.
  intros Hu Hn H1 H2. rewrite (on_update_blocks u a sync Hu Hn). unfold prep_blocks.
  destruct (Z.eqb_spec (cs_height sync) block_id_txpool); [done|]. by destruct (Z.eqb_spec (cs_height sync) (Account.u_old_height (ar_update a))).
Qed.
End stream.
End Stream.

(** ** A sample: a session of an account that receives an output *)
Module FeedSample.
Import Messages Connection Stream Reference.

#[local] Existing Instance SubaddressSample.crypto.
#[local] Existing Instance OwnershipTest.OwnershipSample.wallet_crypto.
#[local] Instance key_crypto : ViewKeyCrypto := { secret_key_to_public_key k := Some (k - 2) }.

Definition db : tables := AccountsSample.db.
Definition start_read (s : tables) : expect tables := Ok s.
Definition login_from_bytes (proto : protocol) (bytes : list Z) : expect feed_login :=
  match bytes with [key] => Ok (FeedLogin (RestSample.known key) false false) | _ => Err kInvalidErrorCode end.
(** The old height, and the number of an output received in the next block. *)
Definition update_from_bytes (bytes : list Z) : expect Account.update :=
  match bytes with
  | [h] => Ok (Account.Update [] [] h (h + 1))
  | [h; n] => Ok (Account.Update [] [TransactionsSample.received (h + 1) n n 100] h (h + 1))
  | _ => Err kInvalidErrorCode
  end.
Definition warning_from_bytes (bytes : list Z) : option error * feed_warning := (None, FeedWarning bytes daemon_unresponsive 0 0).
Definition watch (address : list Z) : expect Z := Ok 4.

Definition on_login := on_login start_read TransactionsSample.no_order UpdateSample.no_string login_from_bytes watch v0_json.
Definition on_update := on_update start_read TransactionsSample.no_order UpdateSample.no_string warning_from_bytes update_from_bytes.
Definition feed_run (evs : list feed_event) : option feed_connection :=
  feed_run start_read TransactionsSample.no_order UpdateSample.no_string login_from_bytes warning_from_bytes update_from_bytes watch v0_json true evs.

(** Nanoseconds: a server that has run for an hour. *)
Definition uptime : Z := 3600 * 1000000000.
Definition hello : login_bytes := LoginBytes db None (bytes_of_string "login:" ++ [57]).
Definition published (bytes : list Z) : update_bytes := UpdateBytes db uptime uptime (bytes_of_string "feed:" ++ bytes).
Definition us : list update_bytes := [published [3]; published [4; 20]; published [5]].
Definition l : list arrival :=
  [Arrival db uptime uptime (Account.Update [] [] 3 4); Arrival db uptime uptime (Account.Update [] [TransactionsSample.received 5 20 20 100] 4 5);
   Arrival db uptime uptime (Account.Update [] [] 5 6)].
Definition opening : list feed_event := [Accepted false; Login_arrived 1 (Some hello)].
Definition evs : list feed_event :=
  opening ++ [Published 2 (Some (published [3])); Wrote false; Published 3 (Some (published [4; 20])); Published 4 (Some (published [5]))].

(** The range of a message and its transactions, or its code. *)
Definition shown (m : feed_message) : Z * Z * nat + feed_status :=
  match m with Error code => inr code | Blocks b => inl (fb_scan_start b, fb_scan_end b, length (fb_transactions b)) | _ => inl (0, 0, 0%nat) end.
Definition after (evs : list feed_event) : option (list (Z * Z * nat + feed_status) * bool) :=
  c ← feed_run evs; Some (shown <$> cn_queued c, sub_ c).

Example updates_shown : after evs = Some ([inl (1, 3, 0%nat); inl (3, 4, 0%nat); inl (4, 5, 1%nat); inl (5, 6, 0%nat)], true).
Proof. vm_compute. reflexivity. Qed.
(** After a gap the client gets an error, and the session goes on. *)
Example gap_shown :
  after (opening ++ [Published 2 (Some (published [3])); Published 3 (Some (published [7; 20])); Published 4 (Some (published [4]))]) =
  Some ([inl (1, 3, 0%nat); inl (3, 4, 0%nat); inr queue_error; inl (4, 5, 0%nat)], true).
Proof. vm_compute. reflexivity. Qed.
(** A warning that can be read. *)
Definition warned : update_bytes := UpdateBytes db uptime uptime (bytes_of_string "warning:" ++ [1]).
Example warning_shown : after (opening ++ [Published 2 (Some warned)]) = Some ([inl (1, 3, 0%nat); inr unspecified_error], false).
Proof. vm_compute. reflexivity. Qed.

Lemma us_carry : Forall2 (carries update_from_bytes) us l.
Proof. repeat constructor; intros H; vm_compute in H; discriminate H. Qed.
Lemma l_chained : chained 3 l.
Proof. vm_compute. repeat split; intros H; discriminate H. Qed.
Lemma db_readable : readable start_read (acc_id AccountsSample.user) db.
Proof. eexists _, _, _. split_and!; vm_compute; reflexivity. Qed.

(** The session after its login. *)
Definition logged : connection_sync := (on_login hello initial_sync).2.
Lemma updates_cover_witness :
  covered TransactionsSample.no_order UpdateSample.no_string false None (ar_update <$> l)
    (prep_all start_read TransactionsSample.no_order UpdateSample.no_string l logged).1.
Proof.
  apply (updates_cover start_read TransactionsSample.no_order UpdateSample.no_string l logged 3 None).
  - exact l_chained.
  - intros a Ha. assert (cs_id logged = acc_id AccountsSample.user) as -> by (vm_compute; reflexivity).
    unfold l in Ha. rewrite !elem_of_cons, elem_of_nil in Ha. destruct Ha as [->|[->|[->|[]]]]; exact db_readable.
  - left. vm_compute. reflexivity.
  - vm_compute. reflexivity.
Defined.

Definition open : feed_connection := default (initial initial_sync) (feed_run evs).
Lemma open_stream_covers_witness :
  length (cn_queued open) = 4%nat /\
  exists reply answers, cn_queued open = to_send reply ++ concat (to_send <$> answers) /\ (on_login hello initial_sync).1 = Ok reply /\
    covered TransactionsSample.no_order UpdateSample.no_string (cs_receives_only (sync_ open)) None (ar_update <$> l) (Ok <$> answers).
Proof.
  split; [vm_compute; reflexivity|].
  apply (open_stream_covers start_read TransactionsSample.no_order UpdateSample.no_string login_from_bytes warning_from_bytes update_from_bytes watch
    v0_json true evs open hello us l 3); [vm_compute; reflexivity|vm_compute; reflexivity|reflexivity|exact us_carry|exact l_chained].
Defined.
End FeedSample.
