(* ===== verification/HttpClient.v ===== *)
(** The HTTP client of webhooks and exchange rates (src/net/http/client.cpp): one
    queue of messages and the coroutine [client_loop] that sends them over one
    socket, keeping a connection for the next message when it can.

    The connection, TLS and the parser of responses are boost's; a step names the
    outcome of the operation that is under way. A timeout cancels that operation,
    which then fails. *)

From stdpp Require Import base list pretty.
From S2P Require Import Prelude Wire.

Definition max_port : Z := 65535.

(** The text of a URL is parsed by epee. *)
Record url_content := UrlContent { uc_schema : string; uc_host : list Z; uc_port : Z; uc_uri : list Z }.

Record message := Message {
  msg_json_body : list Z;
  msg_host : list Z;
  msg_target : list Z;
  msg_port : Z;
  msg_https : bool;
  msg_notifier : option nat
}.

(** What is written for a message. *)
Record request := Request {
  rq_get : bool;
  rq_target : list Z;
  rq_body : list Z;
  rq_json : bool;
  rq_host : list Z
}.

(** What a notifier is called with. *)
Inductive response := Failed | Not_supported | Body (body : list Z).

(** Where the loop waits. *)
Inductive phase := Posted | Resolving | Connecting | Handshaking | Writing | Reading | Closing.
#[export] Instance phase_eq_dec : EqDecision phase.
Proof. solve_decision. Defined.

Inductive outcome := Fails | Completes | Responds (status : Z) (keep_alive : bool) (body : list Z).

(** Who the socket is connected to, and whether TLS is up on it. *)
Definition peer : Type := (list Z * Z) * bool.

(** [h_] are histories: what was queued, what the loop is done with, what the
    notifiers were told and what was written to whom. *)
Record client_state := ClientState {
  outgoing : list message;
  endpoint : option (list Z * Z);
  sock : option peer;
  loops : list phase;
  h_queued : list message;
  h_done : list message;
  h_notified : list (nat * response);
  h_sent : list (option peer * request)
}.
Definition initial : client_state := ClientState [] None None [] [] [] [] [].

Section client.
Context (make_address_v6 : list Z -> bool).

Definition to_string (n : Z) : list Z := bytes_of_string (pretty n).
Definition brackets (host : list Z) : list Z := bytes_of_string "[" ++ host ++ bytes_of_string "]".
Definition is_nil {A} (l : list A) : bool := match l with [] => true | _ => false end.
Definition is_get (m : message) : bool := match msg_notifier m with Some _ => true | None => false end.

Definition host_field (m : message) : list Z :=
  if make_address_v6 (msg_host m) then brackets (msg_host m) ++ bytes_of_string ":" ++ to_string (msg_port m)
  else if (msg_https m && (msg_port m =? 443)) || (negb (msg_https m) && (msg_port m =? 80)) then msg_host m
  else msg_host m ++ bytes_of_string ":" ++ to_string (msg_port m).
Definition make_request (m : message) : request :=
  Request (is_get m) (msg_target m) (msg_json_body m) (negb (is_nil (msg_json_body m))) (host_field m).

(** The body is moved into the request. *)
Definition without_body (m : message) : message :=
  Message [] (msg_host m) (msg_target m) (msg_port m) (msg_https m) (msg_notifier m).

(** *** Changes of the state *)
Definition with_endpoint (e : list Z * Z) (s : client_state) : client_state :=
  ClientState (outgoing s) (Some e) (sock s) (loops s) (h_queued s) (h_done s) (h_notified s) (h_sent s).
Definition with_sock (p : option peer) (s : client_state) : client_state :=
  ClientState (outgoing s) (endpoint s) p (loops s) (h_queued s) (h_done s) (h_notified s) (h_sent s).
Definition with_loops (l : list phase) (s : client_state) : client_state :=
  ClientState (outgoing s) (endpoint s) (sock s) l (h_queued s) (h_done s) (h_notified s) (h_sent s).
Definition notify (m : message) (r : response) (s : client_state) : client_state :=
  match msg_notifier m with
  | Some f => ClientState (outgoing s) (endpoint s) (sock s) (loops s) (h_queued s) (h_done s) (h_notified s ++ [(f, r)]) (h_sent s)
  | None => s
  end.
Definition pop_front (m : message) (ms : list message) (s : client_state) : client_state :=
  ClientState ms (endpoint s) (sock s) (loops s) (h_queued s) (h_done s ++ [m]) (h_notified s) (h_sent s).

(** *** The loop

    [None] is an access to the front of an empty queue. *)
Definition async_write (s : client_state) : option (option phase * client_state) :=
  match outgoing s with
  | [] => None
  | m :: ms =>
    Some (Some Writing,
      ClientState (without_body m :: ms) (endpoint s) (sock s) (loops s) (h_queued s) (h_done s) (h_notified s)
        (h_sent s ++ [(sock s, make_request m)]))
  end.

(** The condition of the loop, up to the next wait. *)
Definition next_message (reuse : bool) (s : client_state) : option (option phase * client_state) :=
  match outgoing s with
  | [] => Some (None, s)
  | _ :: _ => if reuse then async_write s else Some (Some Resolving, s)
  end.

(** The end of a message. *)
Definition finish (failed reuse : bool) (s : client_state) : option (option phase * client_state) :=
  match outgoing s with
  | [] => None
  | m :: ms =>
    let s := if failed then notify m Failed s else s in
    let s := pop_front m ms s in
    let reuse := reuse && match ms with
      | [] => false
      | next :: _ => bool_decide (msg_host m = msg_host next) && (msg_port m =? msg_port next)
      end in
    if reuse then next_message true s
    else if msg_https m then Some (Some Closing, s)
    else next_message false (with_sock None s)
  end.

Definition connected (s : client_state) : option (option phase * client_state) :=
  match outgoing s with
  | [] => None
  | m :: _ =>
    let s := with_sock ((fun e => (e, false)) <$> endpoint s) s in
    if msg_https m then Some (Some Handshaking, s) else async_write s
  end.

Definition resume (p : phase) (o : outcome) (s : client_state) : option (option phase * client_state) :=
  match p, o with
  | Posted, Completes => next_message false s
  | Resolving, Completes =>
    match outgoing s with [] => None | m :: _ => Some (Some Connecting, with_endpoint (msg_host m, msg_port m) s) end
  | Connecting, Completes => connected s
  | Handshaking, Completes => async_write (with_sock ((fun p => (p.1, true)) <$> sock s) s)
  | Writing, Completes => match outgoing s with [] => None | _ :: _ => Some (Some Reading, s) end
  | Reading, Responds status keep_alive body =>
    match outgoing s with
    | [] => None
    | m :: _ =>
      if negb (status =? 200) && negb (status =? 201) then finish false false (notify m Not_supported s)
      else finish false keep_alive (notify m (Body body) s)
    end
  | Closing, Completes | Closing, Fails => next_message false (with_sock None s)
  | Resolving, Fails | Connecting, Fails | Handshaking, Fails | Writing, Fails | Reading, Fails => finish true false s
  | _, _ => None
  end.

(** *** Steps *)
Inductive event := Queued (m : message) | Resumed (i : nat) (o : outcome).

Definition queue (m : message) (s : client_state) : client_state :=
  let loops := if is_nil (outgoing s) then loops s ++ [Posted] else loops s in
  ClientState (outgoing s ++ [m]) (endpoint s) (sock s) loops (h_queued s ++ [m]) (h_done s) (h_notified s) (h_sent s).

Definition step (ev : event) (s : client_state) : option client_state :=
  match ev with
  | Queued m => Some (queue m s)
  | Resumed i o =>
    p ← loops s !! i;
    r ← resume p o s;
    let '(next, s) := (r : option phase * client_state) in
    Some (with_loops (match next with Some p => <[i := p]> (loops s) | None => delete i (loops s) end) s)
  end.

Fixpoint run (evs : list event) (s : client_state) : option client_state :=
  match evs with
  | [] => Some s
  | ev :: evs => s ← step ev s; run evs s
  end.

(** [queue_async] up to the queue. *)
Section url.
Context (parse_url : list Z -> option url_content).
Definition queue_async (url json_body : list Z) (notifier : option nat) (s : client_state) : expect unit * client_state :=
  match parse_url url with
  | None => (Err (lws_err bad_url), s)
  | Some parsed =>
    if max_port <? uc_port parsed then (Err (lws_err bad_url), s)
    else if negb (bool_decide (uc_schema parsed = "http"%string)) && negb (bool_decide (uc_schema parsed = "https"%string))
    then (Err (lws_err bad_url), s)
    else
      let port := if uc_port parsed =? 0 then (if bool_decide (uc_schema parsed = "http"%string) then 80 else 443) else uc_port parsed in
      let uri := if is_nil (uc_uri parsed) then bytes_of_string "/" else uc_uri parsed in
      (Ok tt, queue (Message json_body (uc_host parsed) uri port (bool_decide (uc_schema parsed = "https"%string)) notifier) s)
  end.
Definition post_async (url json_body : list Z) (s : client_state) : expect unit * client_state := queue_async url json_body None s.
Definition get_async (url : list Z) (notifier : nat) (s : client_state) : expect unit * client_state := queue_async url [] (Some notifier) s.
End url.

(** ** One loop, every message once *)

(** The peer a message is for, and what it gets. *)
Definition sent_to (m : message) : option peer * request := (Some ((msg_host m, msg_port m), msg_https m), make_request m).

Definition to_tell (m : message) : list nat := match msg_notifier m with Some f => [f] | None => [] end.

(** The outcomes an operation can have. *)
Definition fits (p : phase) (o : outcome) : bool :=
  match p, o with
  | Posted, Completes => true
  | Posted, _ => false
  | Reading, Completes => false
  | Reading, _ => true
  | _, Responds _ _ _ => false
  | _, _ => true
  end.

(** Nothing is queued while a connection with TLS is shut down and the queue is
    empty. *)
Fixpoint calm (evs : list event) (s : client_state) : Prop :=
  match evs with
  | [] => True
  | ev :: evs =>
    match ev with Queued _ => outgoing s = [] -> loops s = [] | Resumed _ _ => True end /\
    match step ev s with Some s => calm evs s | None => True end
  end.

Section known.
(** The messages of a run; those for one host and port are all for https, or all
    for http. *)
Context (known : message -> Prop).
Hypothesis one_scheme : forall m m', known m -> known m' -> msg_host m = msg_host m' -> msg_port m = msg_port m' -> msg_https m = msg_https m'.

Definition at_phase (p : option phase) (s : client_state) (dn og sub : list message) : Prop :=
  match p with
  | None => og = [] /\ outgoing s = [] /\ sub `sublist_of` dn
  | Some Closing => outgoing s = og /\ sub `sublist_of` dn
  | Some Writing | Some Reading =>
    exists m rest, og = m :: rest /\ outgoing s = without_body m :: rest /\ sub `sublist_of` dn ++ [m] /\
      sock s = Some ((msg_host m, msg_port m), msg_https m)
  | Some p =>
    exists m rest, og = m :: rest /\ outgoing s = og /\ sub `sublist_of` dn /\
      (p = Connecting -> endpoint s = Some (msg_host m, msg_port m)) /\
      (p = Handshaking -> msg_https m = true /\ sock s = Some ((msg_host m, msg_port m), false))
  end.
Definition inv_at (p : option phase) (s : client_state) : Prop :=
  exists dn og sub, h_queued s = dn ++ og /\ without_body <$> h_done s = without_body <$> dn /\
    (h_notified s).*1 = omap msg_notifier (h_done s) /\ h_sent s = sent_to <$> sub /\ Forall known (h_queued s) /\ at_phase p s dn og sub.
Definition invariant (s : client_state) : Prop :=
  (loops s = [] /\ inv_at None s) \/ exists p, loops s = [p] /\ inv_at (Some p) s.

(** A message whose connection stands is written. *)
Lemma async_write_ok s m rest dn sub :
  outgoing s = m :: rest -> h_queued s = dn ++ m :: rest -> without_body <$> h_done s = without_body <$> dn ->
  (h_notified s).*1 = omap msg_notifier (h_done s) -> h_sent s = sent_to <$> sub -> Forall known (h_queued s) -> sub `sublist_of` dn ->
  sock s = Some ((msg_host m, msg_port m), msg_https m) ->
  exists s', async_write s = Some (Some Writing, s') /\ loops s' = loops s /\ inv_at (Some Writing) s'.
Proof.
  intros Eo Hq Hd Hn Hs Hk Hsub Hp. unfold async_write. rewrite Eo. eexists. split_and!; [reflexivity|done|].
  exists dn, (m :: rest), (sub ++ [m]). split_and!; try done; [by rewrite fmap_app; cbn; rewrite Hs, Hp|].
  exists m, rest. split_and!; [done|done|by apply sublist_app|done].
Qed.

Lemma next_message_ok s dn og sub :
  outgoing s = og -> h_queued s = dn ++ og -> without_body <$> h_done s = without_body <$> dn ->
  (h_notified s).*1 = omap msg_notifier (h_done s) -> h_sent s = sent_to <$> sub -> Forall known (h_queued s) -> sub `sublist_of` dn ->
  exists p s', next_message false s = Some (p, s') /\ loops s' = loops s /\ inv_at p s'.
Proof.
  intros Eo Hq Hd Hn Hs Hk Hsub. unfold next_message. rewrite Eo. destruct og as [|m rest].
  - eexists _, _. split_and!; [reflexivity|done|]. by exists dn, [], sub.
  - eexists _, _. split_and!; [reflexivity|done|]. exists dn, (m :: rest), sub. split_and!; try done. by exists m, rest.
Qed.

(** The front [m'] is [m], with or without its body. *)
Lemma finish_inv s (failed reuse : bool) m m' rest dn sub :
  outgoing s = m' :: rest -> without_body m' = without_body m -> h_queued s = dn ++ m :: rest -> without_body <$> h_done s = without_body <$> dn ->
  (h_notified s).*1 = omap msg_notifier (h_done s) ++ (if failed then [] else to_tell m) ->
  h_sent s = sent_to <$> sub -> Forall known (h_queued s) -> sub `sublist_of` dn ++ [m] ->
  (reuse = true -> sock s = Some ((msg_host m, msg_port m), msg_https m)) ->
  exists p s', finish failed reuse s = Some (p, s') /\ loops s' = loops s /\ inv_at p s'.
Proof.
  intros Eo Hm Hq Hd Hn Hs Hk Hsub Hp. unfold finish. rewrite Eo. injection Hm as Eh Et Ep Es En.
  set (s1 := pop_front m' rest (if failed then notify m' Failed s else s)).
  assert (outgoing s1 = rest /\ loops s1 = loops s /\ sock s1 = sock s /\ h_queued s1 = h_queued s /\ h_sent s1 = h_sent s /\ h_done s1 = h_done s ++ [m'] /\
    (h_notified s1).*1 = omap msg_notifier (h_done s1)) as (H1 & H2 & H3 & H4 & H5 & H6 & H7).
  { unfold s1, pop_front, notify. destruct failed; [destruct (msg_notifier m') eqn:E1|]; split_and!; try done; cbn;
      rewrite omap_app, ?fmap_app, Hn, ?app_nil_r; cbn; rewrite ?E1, ?En; cbn; rewrite ?app_nil_r; try done. }
  assert (h_queued s1 = (dn ++ [m]) ++ rest) as Hq1 by (rewrite H4, Hq, <- app_assoc; done).
  assert (without_body <$> h_done s1 = without_body <$> (dn ++ [m])) as Hd1.
  { rewrite H6, !fmap_app, Hd. unfold without_body at 2 4. cbn. by rewrite Eh, Et, Ep, Es, En. }
  destruct (reuse && _) eqn:Er.
  - apply andb_true_iff in Er as [Er Enext]. destruct rest as [|next rest]; [done|]. apply andb_true_iff in Enext as [E1 E2].
    apply bool_decide_eq_true in E1. apply Z.eqb_eq in E2.
    assert (msg_https m = msg_https next) as E3.
    { rewrite Hq, Forall_app, !Forall_cons in Hk. destruct Hk as (_ & Hk1 & Hk2 & _). apply one_scheme; [done|done|congruence|congruence]. }
    unfold next_message. rewrite H1. destruct (async_write_ok s1 next rest (dn ++ [m]) sub) as (s2 & E4 & E5 & E6);
      [done|done|done|done|by rewrite H5|by rewrite H4|done|rewrite H3, (Hp Er); congruence|].
    eexists _, s2. split_and!; [exact E4|congruence|done].
  - destruct (msg_https m').
    + eexists _, s1. split_and!; [reflexivity|done|]. exists (dn ++ [m]), rest, sub. split_and!; try done; [by rewrite H5|by rewrite H4].
    + destruct (next_message_ok (with_sock None s1) (dn ++ [m]) rest sub) as (p & s2 & E4 & E5 & E6); [done|done|done|done|exact (eq_trans H5 Hs)|by change (Forall known (h_queued s1)); rewrite H4|done|].
      eexists p, s2. split_and!; [exact E4|by rewrite E5|done].
Qed.

Ltac facts H := destruct H as (dn & og & sub & Hq & Hd & Hn & Hs & Hk & Hat).

Lemma resume_ok p o s :
  inv_at (Some p) s -> fits p o = true -> exists next s', resume p o s = Some (next, s') /\ loops s' = loops s /\ inv_at next s'.
Proof.
  intros H Hf. facts H. destruct p; cbn [at_phase] in Hat.
  - destruct Hat as (m & rest & -> & Eo & Hsub & _). destruct o; try done. cbn [resume]. by eapply next_message_ok.
  - destruct Hat as (m & rest & -> & Eo & Hsub & _). destruct o; try done; cbn [resume].
    + eapply (finish_inv s true false m m rest dn sub); try done; [by rewrite app_nil_r|by apply sublist_inserts_r].
    + rewrite Eo. eexists _, _. split_and!; [reflexivity|done|]. exists dn, (m :: rest), sub. split_and!; try done.
      exists m, rest. by split_and!.
  - destruct Hat as (m & rest & -> & Eo & Hsub & He & _). destruct o; try done; cbn [resume].
    + eapply (finish_inv s true false m m rest dn sub); try done; [by rewrite app_nil_r|by apply sublist_inserts_r].
    + unfold connected. rewrite Eo, (He eq_refl). cbn [fmap option_fmap option_map]. destruct (msg_https m) eqn:Eh.
      * eexists _, _. split_and!; [reflexivity|done|]. exists dn, (m :: rest), sub. split_and!; try done. exists m, rest. by split_and!.
      * destruct (async_write_ok (with_sock (Some ((msg_host m, msg_port m), false)) s) m rest dn sub) as (s' & E1 & E2 & E3); try done;
          [by rewrite Eh|]. eexists _, s'. by split_and!.
  - destruct Hat as (m & rest & -> & Eo & Hsub & _ & Hh). destruct (Hh eq_refl) as [Eh Ep]. destruct o; try done; cbn [resume].
    + eapply (finish_inv s true false m m rest dn sub); try done; [by rewrite app_nil_r|by apply sublist_inserts_r].
    + rewrite Ep. cbn [fmap option_fmap option_map].
      destruct (async_write_ok (with_sock (Some ((msg_host m, msg_port m), true)) s) m rest dn sub) as (s' & E1 & E2 & E3); try done;
        [by rewrite Eh|]. eexists _, s'. by split_and!.
  - destruct Hat as (m & rest & -> & Eo & Hsub & Ep). destruct o; try done; cbn [resume].
    + eapply (finish_inv s true false m _ rest dn sub); try done. by rewrite app_nil_r.
    + rewrite Eo. eexists _, _. split_and!; [reflexivity|done|]. exists dn, (m :: rest), sub. split_and!; try done. by exists m, rest.
  - destruct Hat as (m & rest & -> & Eo & Hsub & Ep). destruct o as [| |status keep_alive body]; try done; cbn [resume].
    + eapply (finish_inv s true false m _ rest dn sub); try done. by rewrite app_nil_r.
    + rewrite Eo. assert (forall r, (h_notified (notify (without_body m) r s)).*1 = omap msg_notifier (h_done s) ++ to_tell m /\
        outgoing (notify (without_body m) r s) = without_body m :: rest /\ h_queued (notify (without_body m) r s) = h_queued s /\
        h_done (notify (without_body m) r s) = h_done s /\ h_sent (notify (without_body m) r s) = h_sent s /\
        sock (notify (without_body m) r s) = sock s /\ loops (notify (without_body m) r s) = loops s) as Hnot.
      { intros r. unfold notify, to_tell. cbn [without_body msg_notifier]. destruct (msg_notifier m); split_and!; try done; cbn;
          [by rewrite fmap_app, Hn|by rewrite app_nil_r]. }
      destruct (negb _ && negb _).
      * destruct (Hnot Not_supported) as (H1 & H2 & H3 & H4 & H5 & H6 & H7). rewrite <- H7.
        eapply (finish_inv _ false false m (without_body m) rest dn sub); try done; [congruence|by rewrite H4|by rewrite H4|congruence|congruence].
      * destruct (Hnot (Body body)) as (H1 & H2 & H3 & H4 & H5 & H6 & H7). rewrite <- H7.
        eapply (finish_inv _ false keep_alive m (without_body m) rest dn sub); try done; [congruence|by rewrite H4|by rewrite H4|congruence|congruence|].
        intros _. congruence.
  - destruct Hat as (Eo & Hsub). destruct o; try done; exact (next_message_ok (with_sock None s) dn og sub Eo Hq Hd Hn Hs Hk Hsub).
Qed.

Lemma resume_fits p o s r : resume p o s = Some r -> fits p o = true.
Proof. by destruct p, o. Qed.

Lemma queue_ok m s :
  invariant s -> known m -> (outgoing s = [] -> loops s = []) -> invariant (queue m s).
Proof.
  intros Hi Hm Hc. destruct Hi as [[El H]|(p & El & H)]; facts H.
  - destruct Hat as (-> & Eo & Hsub). right. exists Posted. unfold queue. rewrite Eo, El. cbn. split; [done|].
    exists dn, [m], sub. rewrite app_nil_r in Hq. split_and!; try done; [by cbn; rewrite Hq|by apply Forall_app; split; [|constructor]|].
    cbn. exists m, []. by split_and!.
  - right. exists p. unfold queue. destruct (outgoing s) as [|m0 ms] eqn:Eo; [by rewrite Hc in El|]. cbn. split; [done|].
    exists dn, (og ++ [m]), sub. split_and!; try done; [by cbn; rewrite Hq, <- app_assoc|by apply Forall_app; split; [|constructor]|].
    destruct p; cbn in Hat |- *; rewrite Eo in Hat;
      try (destruct Hat as (m1 & rest & -> & E & Hsub & Hrest); injection E as -> ->; exists m1, (rest ++ [m]); split; [done|split; [done|split; [done|exact Hrest]]]).
    destruct Hat as [<- Hsub]. by split.
Qed.

Lemma loop_step_ok ev s s' :
  invariant s -> match ev with Queued m => known m /\ (outgoing s = [] -> loops s = []) | Resumed _ _ => True end ->
  step ev s = Some s' -> invariant s'.
Proof.
  intros Hi Hev H. destruct ev as [m|i o]; cbn [step] in H; [injection H as <-; destruct Hev; by apply queue_ok|].
  destruct Hi as [[El _]|(p & El & Hp)]; rewrite El in H; [done|]. destruct i as [|i]; [|by cbn in H]. change ([p] !! 0%nat) with (Some p) in H. cbn [mbind option_bind] in H.
  destruct (resume p o s) as [r|] eqn:Er; [|done]. cbn [mbind option_bind] in H.
  destruct (resume_ok p o s Hp (resume_fits _ _ _ _ Er)) as (next & s1 & E1 & E2 & H1). rewrite Er in E1. injection E1 as ->. injection H as <-.
  destruct next as [p'|]; [right; exists p'; split|left; split]; try (cbn; by rewrite E2, El);
    destruct H1 as (dn & og & sub & H1 & H2 & H3 & H4 & H5 & H6); exists dn, og, sub; split_and!; try done.
Qed.
End known.

(** *** The loop ends *)
Definition weight (p : phase) : nat :=
  match p with Posted => 7 | Resolving => 6 | Connecting => 5 | Handshaking => 4 | Writing => 3 | Reading => 2 | Closing => 7 end.
Definition weight_of (p : option phase) : nat := match p with Some p => weight p | None => 0 end.
Definition left_to_do (s : client_state) : nat := (6 * length (outgoing s) + nat_sum (map weight (loops s)))%nat.
Definition is_resumed (ev : event) : bool := match ev with Resumed _ _ => true | Queued _ => false end.
Definition resumed (evs : list event) : nat := length (List.filter is_resumed evs).

Lemma async_write_left s r : async_write s = Some r -> (6 * length (outgoing r.2) + weight_of r.1 = 6 * length (outgoing s) + 3)%nat /\ loops r.2 = loops s.
Proof. unfold async_write. destruct (outgoing s); [done|]. intros [= <-]. cbn. split; [lia|done]. Qed.

Lemma next_message_left b s r :
  next_message b s = Some r -> (6 * length (outgoing r.2) + weight_of r.1 <= 6 * length (outgoing s) + 6)%nat /\ loops r.2 = loops s.
Proof.
  unfold next_message. destruct (outgoing s) eqn:E; [intros [= <-]; cbn; rewrite E; split; [cbn; lia|done]|]. destruct b.
  - intros [H H']%async_write_left. rewrite E in H. cbn in *. split; [lia|exact H'].
  - intros [= <-]. cbn. rewrite E. split; [cbn; lia|done].
Qed.

Lemma finish_left failed reuse s r :
  finish failed reuse s = Some r -> (6 * length (outgoing r.2) + weight_of r.1 < 6 * length (outgoing s) + 2)%nat /\ loops r.2 = loops s.
Proof.
  unfold finish. destruct (outgoing s) as [|m ms] eqn:E; [done|]. set (s1 := pop_front _ _ _).
  assert (outgoing s1 = ms /\ loops s1 = loops s) as [E1 E2] by (unfold s1, notify; by destruct failed, (msg_notifier m)).
  destruct (reuse && _); [intros [H H']%next_message_left|destruct (msg_https m); [intros [= <-]|intros [H H']%next_message_left]].
  - rewrite E1, E2 in *. split; [cbn; lia|done].
  - cbn [fst snd weight_of weight]. rewrite E1, E2. split; [cbn; lia|done].
  - change (outgoing (with_sock None s1)) with (outgoing s1) in H. change (loops (with_sock None s1)) with (loops s1) in H'.
    rewrite E1, E2 in *. split; [cbn; lia|done].
Qed.

Lemma notify_left m r s : outgoing (notify m r s) = outgoing s /\ loops (notify m r s) = loops s.
Proof. unfold notify. by destruct (msg_notifier m). Qed.

Lemma resume_left p o s r :
  resume p o s = Some r -> (6 * length (outgoing r.2) + weight_of r.1 < 6 * length (outgoing s) + weight p)%nat /\ loops r.2 = loops s.
Proof.
  intros H. destruct p, o; cbn [resume weight] in *; try done;
    try (apply finish_left in H as [H H']; split; [lia|exact H']); try (apply next_message_left in H as [H H']; cbn in H, H'; split; [lia|exact H']).
  - destruct (outgoing s) eqn:E; [done|]. injection H as <-. cbn. rewrite E. split; [cbn; lia|done].
  - unfold connected in H. destruct (outgoing s) as [|m ms] eqn:E; [done|]. destruct (msg_https m).
    + injection H as <-. cbn. rewrite E. split; [cbn; lia|done].
    + apply async_write_left in H as [H H']. cbn in H, H'. rewrite E in H. cbn in *. split; [lia|exact H'].
  - apply async_write_left in H as [H H']. cbn in H, H'. split; [lia|exact H'].
  - destruct (outgoing s) eqn:E; [done|]. injection H as <-. cbn. rewrite E. split; [cbn; lia|done].
  - destruct (outgoing s) as [|m ms] eqn:E; [done|].
    destruct (negb _ && negb _); apply finish_left in H as [H H']; destruct (notify_left m Not_supported s) as [N1 N2];
      destruct (notify_left m (Body body) s) as [N3 N4]; rewrite ?N1, ?N2, ?N3, ?N4, ?E in *; (split; [lia|exact H']).
Qed.

Lemma step_left ev s s' :
  step ev s = Some s' -> (left_to_do s' + (if is_resumed ev then 1 else 0) <= left_to_do s + (if is_resumed ev then 0 else 13))%nat.
Proof.
  destruct ev as [m|i o]; cbn [step is_resumed].
  - intros [= <-]. unfold left_to_do, queue. cbn. rewrite length_app. destruct (is_nil (outgoing s)); [rewrite map_app, nat_sum_app|]; cbn; lia.
  - destruct (loops s !! i) as [p|] eqn:Ei; [|done]. cbn [mbind option_bind]. destruct (resume p o s) as [[next s1]|] eqn:Er; [|done].
    cbn [mbind option_bind]. intros [= <-]. destruct (resume_left _ _ _ _ Er) as [H1 H2]. cbn in H1, H2. unfold left_to_do. cbn. rewrite H2.
    assert (nat_sum (map weight (match next with Some p => <[i:=p]> (loops s) | None => delete i (loops s) end)) + weight p =
      nat_sum (map weight (loops s)) + weight_of next)%nat as Hsum; [|lia]. clear -Ei. revert i Ei.
    induction (loops s) as [|q l IH]; intros i Ei; [done|]. destruct i as [|i].
    + injection Ei as ->. destruct next; cbn; lia.
    + specialize (IH i Ei). destruct next as [p'|];
        [change (<[S i:=p']> (q :: l)) with (q :: <[i:=p']> l)|change (delete (S i) (q :: l)) with (q :: delete i l)];
        cbn [map nat_sum weight_of] in *; lia.
Qed.

Lemma run_left evs s s' :
  run evs s = Some s' -> (resumed evs + left_to_do s' <= 13 * (length evs - resumed evs) + left_to_do s)%nat /\ (resumed evs <= length evs)%nat.
Proof.
  revert s. induction evs as [|ev evs IH]; intros s H; cbn in H; [injection H as <-; cbn; lia|].
  destruct (step ev s) as [s1|] eqn:E; [|done]. cbn in H. apply step_left in E. destruct (IH s1 H) as [H1 H2]. unfold resumed in *.
  cbn [List.filter length]. destruct ev; cbn [is_resumed length] in *; lia.
Qed.

(** C20: As long as no message is queued while TLS is shut down after the last one,
    and all messages for one host and port have one scheme ([scheme_ignored] has a
    message that goes out with another's), there is one loop, it never looks at an
    empty queue, and it ends; every message is taken once and in order, every
    notifier of a finished message has been called once, and what is written goes,
    in order and at most once, to the host and port of its message, with TLS if the
    message wants it. *)
Theorem each_message_once evs s :
  run evs initial = Some s -> calm evs initial ->
  (forall m m', Queued m ∈ evs -> Queued m' ∈ evs -> msg_host m = msg_host m' -> msg_port m = msg_port m' -> msg_https m = msg_https m') ->
  (length (loops s) <= 1)%nat /\ (loops s = [] -> outgoing s = []) /\
  (forall i p o, loops s !! i = Some p -> fits p o = true -> is_Some (step (Resumed i o) s)) /\
  without_body <$> h_queued s = without_body <$> (h_done s ++ outgoing s) /\
  (h_notified s).*1 = omap msg_notifier (h_done s) /\
  (exists sub, sub `sublist_of` h_queued s /\ h_sent s = sent_to <$> sub) /\
  (resumed evs <= 13 * (length evs - resumed evs))%nat.
Proof.
  intros H Hc Hone. assert (invariant (fun m => Queued m ∈ evs) s) as Hi.
  { assert (forall evs' s0, run evs' s0 = Some s -> calm evs' s0 -> (forall m, Queued m ∈ evs' -> Queued m ∈ evs) ->
      invariant (fun m => Queued m ∈ evs) s0 -> invariant (fun m => Queued m ∈ evs) s) as Hgen.
    { induction evs' as [|ev evs' IH]; intros s0 H0 Hc0 Hin Hi; cbn in H0; [by injection H0 as <-|].
      destruct (step ev s0) as [s1|] eqn:E; [|done]. cbn in H0, Hc0. rewrite E in Hc0. destruct Hc0 as [Hev Hc0].
      apply (IH s1 H0 Hc0); [intros m Hm; apply Hin; by right|]. eapply loop_step_ok; [exact Hone|exact Hi| |exact E].
      destruct ev as [m|]; [|done]. split; [apply Hin; left|exact Hev]. }
    apply (Hgen evs initial H Hc); [done|]. left. split; [done|]. exists [], [], []. by split_and!. }
  destruct (run_left _ _ _ H) as [Hleft _]. cbn in Hleft.
  assert (resumed evs <= 13 * (length evs - resumed evs))%nat as Hend by lia.
  destruct Hi as [[El Hp]|(p & El & Hp)].
  - destruct Hp as (dn & og & sub & Hq & Hd & Hn & Hs & Hk & -> & Eo & Hsub). rewrite app_nil_r in Hq. rewrite El, Eo, Hq, app_nil_r, Hd.
    split_and!; try done; [cbn; lia|by exists sub].
  - pose proof Hp as (dn & og & sub & Hq & Hd & Hn & Hs & Hk & Hat). rewrite El, Hq.
    split_and!; try done.
    + intros i q o Hi Hf. destruct i as [|i]; [|done]. injection Hi as <-. destruct (resume_ok _ Hone p o s Hp Hf) as (next & s1 & E1 & _).
      cbn [step]. rewrite El. change ([p] !! 0%nat) with (Some p). cbn [mbind option_bind]. rewrite E1. by eexists.
    + rewrite !fmap_app, Hd. f_equal. destruct p; cbn in Hat; try (destruct Hat as (m & rest & -> & -> & _); done). by destruct Hat as [-> _].
    + exists sub. split; [|done]. destruct p; cbn in Hat.
      all: try (destruct Hat as (m & rest & -> & _ & Hsub & _); by apply sublist_inserts_r).
      1,2: destruct Hat as (m & rest & -> & _ & Hsub & _); rewrite (cons_middle m dn rest), app_assoc; by apply sublist_inserts_r.
      destruct Hat as [_ Hsub]. by apply sublist_inserts_r.
Qed.

(** Without TLS every run is calm. *)
Lemma async_write_closing s s' : async_write s <> Some (Some Closing, s').
Proof. unfold async_write. by destruct (outgoing s). Qed.
Lemma next_message_closing b s s' : next_message b s <> Some (Some Closing, s').
Proof. unfold next_message. destruct (outgoing s); [done|]. destruct b; [apply async_write_closing|done]. Qed.
Lemma finish_closing failed reuse s s' :
  finish failed reuse s = Some (Some Closing, s') -> exists m ms, outgoing s = m :: ms /\ msg_https m = true.
Proof.
  unfold finish. destruct (outgoing s) as [|m ms]; [done|]. intros H. exists m, ms. split; [done|].
  destruct (reuse && _); [by apply next_message_closing in H|]. destruct (msg_https m); [done|]. by apply next_message_closing in H.
Qed.
Lemma resume_closing p o s s' :
  resume p o s = Some (Some Closing, s') -> exists m ms, outgoing s = m :: ms /\ msg_https m = true.
Proof.
  intros H. destruct p, o; cbn [resume] in H; try done; try (by apply finish_closing in H); try (by apply next_message_closing in H);
    try (by apply async_write_closing in H); unfold connected in H; destruct (outgoing s) as [|m ms] eqn:E; try done.
  - destruct (msg_https m); [done|]. by apply async_write_closing in H.
  - destruct (negb _ && negb _); apply finish_closing in H as (m' & ms' & H1 & H2).
    + rewrite (proj1 (notify_left m Not_supported s)), E in H1. injection H1 as -> ->. by exists m', ms'.
    + rewrite (proj1 (notify_left m (Body body) s)), E in H1. injection H1 as -> ->. by exists m', ms'.
Qed.

Definition plain (m : message) : Prop := msg_https m = false.
Lemma plain_one_scheme m m' : plain m -> plain m' -> msg_host m = msg_host m' -> msg_port m = msg_port m' -> msg_https m = msg_https m'.
Proof. unfold plain. congruence. Qed.

Lemma plain_calm_from evs s :
  (forall m, Queued m ∈ evs -> plain m) -> invariant plain s -> Closing ∉ loops s -> calm evs s.
Proof.
  revert s. induction evs as [|ev evs IH]; intros s Hm Hi Hn; [done|]. cbn [calm].
  assert (outgoing s = [] -> loops s = []) as Hcalm.
  { intros Eo. destruct Hi as [[El _]|(p & El & dn & og & sub & _ & _ & _ & _ & _ & Hat)]; [done|].
    rewrite El in Hn. destruct p; cbn in Hat; try (destruct Hat as (m & rest & -> & E & _); congruence). destruct Hn. left. }
  split; [by destruct ev|]. destruct (step ev s) as [s1|] eqn:E; [|done].
  assert (invariant plain s1) as Hi1.
  { eapply loop_step_ok; [exact plain_one_scheme|exact Hi| |exact E]. destruct ev as [m|]; [|done]. split; [apply Hm; left|exact Hcalm]. }
  apply IH; [intros m Hin; apply Hm; by right|exact Hi1|]. destruct ev as [m|i o]; cbn [step] in E.
  - injection E as <-. unfold queue. cbn. destruct (is_nil (outgoing s)); [|done]. rewrite elem_of_app, list_elem_of_singleton. by intros [H|H].
  - destruct (loops s !! i) as [p|] eqn:Ep; [|done]. cbn [mbind option_bind] in E. destruct (resume p o s) as [[next s2]|] eqn:Er; [|done].
    cbn [mbind option_bind] in E. injection E as <-. pose proof (proj2 (resume_left _ _ _ _ Er)) as El. cbn in El |- *. rewrite El.
    destruct Hi as [[E0 _]|(q & E0 & dn & og & sub & Hq & _ & _ & _ & Hk & Hat)]; rewrite E0 in Ep; [done|]. destruct i as [|i]; [|done].
    injection Ep as ->. rewrite E0. destruct next as [p'|]; [|by apply not_elem_of_nil]. cbn. intros <-%list_elem_of_singleton.
    apply resume_closing in Er as (m & ms & E1 & E2). rewrite Hq, Forall_app in Hk. destruct Hk as [_ Hk].
    assert (exists m', m' ∈ og /\ msg_https m' = msg_https m) as (m' & Hin & E3).
    { destruct p; cbn in Hat; try (destruct Hat as (m0 & rest & -> & E & _); exists m0; split; [left|]; rewrite E1 in E; by injection E as -> _).
      destruct Hat as [<- _]. exists m. split; [rewrite E1; left|done]. }
    rewrite Forall_forall in Hk. specialize (Hk m' Hin). unfold plain in Hk. congruence.
Qed.
Lemma plain_calm evs : (forall m, Queued m ∈ evs -> plain m) -> calm evs initial.
Proof.
  intros Hm. apply plain_calm_from; [done| |by apply not_elem_of_nil]. left. split; [done|]. exists [], [], []. by split_and!.
Qed.
End client.

(** ** A sample *)
Module HttpSample.
Definition no_v6 (host : list Z) : bool := false.
Definition ask : message := Message [] (bytes_of_string "example.org") (bytes_of_string "/rates") 443 true (Some 1%nat).
Definition tell : message := Message [1; 2] (bytes_of_string "example.org") (bytes_of_string "/hook") 443 true None.
Definition plainly : message := Message [3] (bytes_of_string "example.org") (bytes_of_string "/hook") 443 false None.
Definition next (o : outcome) : event := Resumed 0 o.

(** Two messages over one connection, the first answered. *)
Definition two : list event :=
  [Queued ask; next Completes; Queued tell; next Completes; next Completes; next Completes; next Completes; next (Responds 200 true [7]);
   next Completes; next (Responds 201 false []); next Completes].
Definition after (evs : list event) : client_state := default initial (run no_v6 evs initial).

Example two_sent : (loops (after two), h_notified (after two), rq_body <$> (h_sent (after two)).*2) = ([], [(1%nat, Body [7])], [[]; [1; 2]]).
Proof. vm_compute. reflexivity. Qed.

Lemma each_message_once_witness :
  (h_notified (after two)).*1 = [1%nat] /\ exists sub, sub `sublist_of` [ask; tell] /\ h_sent (after two) = sent_to no_v6 <$> sub.
Proof.
  assert (run no_v6 two initial = Some (after two)) as H by (vm_compute; reflexivity).
  destruct (each_message_once no_v6 two (after two) H) as (_ & _ & _ & _ & H5 & (sub & H6 & H7) & _).
  - vm_compute. repeat split; try done.
  - intros m m' Hm Hm' _ _. assert (forall m, Queued m ∈ two -> msg_https m = true) as Hall; [|by rewrite !Hall].
    clear. intros m Hm. unfold two, next in Hm. rewrite !elem_of_cons, elem_of_nil in Hm.
    repeat match type of Hm with _ \/ _ => destruct Hm as [Hm|Hm]; [first [discriminate Hm|by injection Hm as ->]|] end. done.
  - split; [rewrite H5; vm_compute; reflexivity|]. exists sub. split; [|exact H7].
    assert (h_queued (after two) = [ask; tell]) as <- by (vm_compute; reflexivity). exact H6.
Defined.

(** A message that is queued while TLS is shut down starts a second loop on the same
    socket; it is asked for twice, and when one loop has finished it the other
    looks at an empty queue. *)
Definition shutting : list event :=
  [Queued ask; next Completes; next Completes; next Completes; next Completes; next Completes; next (Responds 200 false [7])].
Definition overlap : list event := [Queued tell; Resumed 1 Completes; next Completes; Resumed 1 Fails; Resumed 1 Completes].
Example second_loop :
  loops (after (shutting ++ take 3 overlap)) = [Resolving; Resolving] /\ length (outgoing (after (shutting ++ take 3 overlap))) = 1%nat /\
  loops (after (shutting ++ overlap)) = [Resolving] /\ outgoing (after (shutting ++ overlap)) = [] /\
  forall o, step no_v6 (Resumed 0 o) (after (shutting ++ overlap)) = None.
Proof. split_and!; try (vm_compute; reflexivity). intros o. destruct o; vm_compute; reflexivity. Qed.

(** The scheme is not compared when a connection is kept: a message without TLS is
    written in the clear into a connection that has it. *)
Example scheme_ignored :
  let s := after [Queued ask; next Completes; Queued plainly; next Completes; next Completes; next Completes; next Completes;
                  next (Responds 200 true [])] in
  loops s = [Writing] /\ last (h_sent s).*1 = Some (Some ((msg_host plainly, 443), true)) /\ msg_https plainly = false.
Proof. split_and!; vm_compute; reflexivity. Qed.
End HttpSample.
