(* ===== verification/RpcClient.v ===== *)
(** The daemon client (src/rpc/client.cpp): waiting for the daemon and for signals
    (module [Wait]), the messages the daemon publishes and the loop that hands them
    to the transaction pool (module [Topics], with [pool_update_loop] of
    src/mempool.cpp), the signal that wakes scanner threads for new accounts (module
    [Wake]), what is published to wallets (module [Push]), the count of warnings
    (module [Warnings]), and the cached exchange rates (module [Rates]).

    ZeroMQ is outside of src/: what a poll, a read or a send ends with is a list of
    outcomes that the functions take in order. *)

From stdpp Require Import gmap.
From S2P Require Import Prelude Wire Data Account Lmdb OwnershipTest Mempool Threads Update Scanner.

(** The values of [errno] the client tells apart. *)
Class Errno := {
  EAGAIN : Z;
  EINTR : Z;
  EFSM : Z;
  again_not_fsm : EAGAIN <> EFSM
}.

(** ** Waiting *)
Module Wait.
Section wait.
Context {EN : Errno}.

(** How [zmq_poll] ends: with an error, with nothing, with the daemon's socket
    ready, or with a signal to read. *)
Inductive polled := PollFailed (err : Z) | PollNothing | PollDaemon | PollSignal (buf : expect Z).

(** A pass of the loop of [do_wait]: the time since the start of the wait, in
    milliseconds, and how the poll ends. *)
Record pass := Pass { ps_spent : Z; ps_polled : polled }.

Definition wake (buf : Z) (account_changes : bool) : option (expect unit) :=
  if buf =? 65 (* A *) then (if account_changes then Some (Err (lws_err account_list_change)) else None)
  else if buf =? 80 (* P *) then Some (Err (lws_err signal_abort_process))
  else if buf =? 83 (* S *) then Some (Err (lws_err signal_abort_scan))
  else Some (Err (lws_err signal_unknown)).

Definition on_poll (p : polled) (account_changes : bool) : option (expect unit) :=
  match p with
  | PollNothing => Some (Err (lws_err daemon_timeout))
  | PollFailed err => if err =? EINTR then None else Some (Err (zmq_err err))
  | PollDaemon => Some (Ok tt)
  | PollSignal (Err e) => Some (Err e)
  | PollSignal (Ok buf) => wake buf account_changes
  end.

(** The timeout a pass gives to [zmq_poll]. *)
Definition poll_timeout (timeout : Z) (p : pass) : Z := timeout - Z.min (ps_spent p) timeout.

(** The result with the passes that are left; [None] when they end first. *)
Fixpoint wait_passes (account_changes : bool) (passes : list pass) : option (expect unit * list pass) :=
  match passes with
  | [] => None
  | p :: passes =>
    match on_poll (ps_polled p) account_changes with
    | Some r => Some (r, passes)
    | None => wait_passes account_changes passes
    end
  end.
Definition do_wait (timeout : Z) (account_changes : bool) (passes : list pass) : option (expect unit * list pass) :=
  if timeout <=? 0 then Some (Err (lws_err daemon_timeout), passes) else wait_passes account_changes passes.

(** [client::get_message] and [client::send]: [tries] are the reads, or the sends,
    that do not block. *)
Fixpoint retry {A} (tries : list (expect A)) (timeout : Z) (passes : list pass) : option (expect A * list pass) :=
  match tries with
  | [] => None
  | t :: tries =>
    match t with
    | Ok _ => Some (t, passes)
    | Err e =>
      if bool_decide (e = zmq_err EAGAIN) then
        match do_wait timeout false passes with
        | None => None
        | Some (Err e, passes) => Some (Err e, passes)
        | Some (Ok _, passes) => retry tries 0 passes
        end
      else Some (t, passes)
    end
  end.
Definition get_message (tries : list (expect (list Z))) (timeout : Z) (passes : list pass) : option (expect (list Z) * list pass) :=
  retry tries timeout passes.
Definition send (tries : list (expect unit)) (timeout : Z) (passes : list pass) : option (expect unit * list pass) :=
  retry tries timeout passes.

(** One wait at most, and two tries: the second one is the last. *)
Lemma retry_second {A} (t1 t2 : expect A) tries timeout passes :
  retry (t1 :: t2 :: tries) timeout passes = retry [t1; t2] timeout passes.
Proof.
  cbn [retry]. destruct t1; [done|]. destruct (bool_decide _); [|done]. destruct (do_wait timeout false passes) as [[[[]|] p]|]; try done.
Qed.

(** Every poll gets what is left of the timeout. *)
Lemma poll_timeout_range timeout p : 0 <= timeout -> 0 <= ps_spent p -> 0 <= poll_timeout timeout p <= timeout /\ (timeout <= ps_spent p -> poll_timeout timeout p = 0).
Proof. unfold poll_timeout. lia. Qed.

(** What a wait passes over: interrupted polls, and account changes nobody asked for. *)
Definition passed_over (account_changes : bool) (p : pass) : Prop :=
  ps_polled p = PollFailed EINTR \/ account_changes = false /\ ps_polled p = PollSignal (Ok 65).
Lemma on_poll_none p account_changes : on_poll (ps_polled p) account_changes = None <-> passed_over account_changes p.
Proof.
  unfold passed_over, on_poll, wake. destruct (ps_polled p) as [err| | |[buf|e]].
  - destruct (Z.eqb_spec err EINTR); split; intros H; try done; [subst; by left|destruct H as [[= ->]|[_ H]]; done].
  - split; [done|by intros [|[]]].
  - split; [done|by intros [|[]]].
  - destruct (Z.eqb_spec buf 65) as [->|]; [destruct account_changes; split; intros H; try done; [by destruct H as [|[]]|by right]|].
    destruct (buf =? 80), (buf =? 83); split; intros H; try done; by destruct H as [H|[_ [= ->]]].
  - split; [done|by intros [|[]]].
Qed.

Lemma wait_passes_spec account_changes passes r rest :
  wait_passes account_changes passes = Some (r, rest) <->
  exists skipped p, passes = skipped ++ p :: rest /\ Forall (passed_over account_changes) skipped /\ on_poll (ps_polled p) account_changes = Some r.
Proof.
  split.
  - induction passes as [|p passes IH]; [done|]. cbn. destruct (on_poll (ps_polled p) account_changes) as [r'|] eqn:E.
    + intros [= -> ->]. by exists [], p.
    + intros (skipped & p' & -> & H1 & H2)%IH. exists (p :: skipped), p'. split_and!; [done| |done]. constructor; [by apply on_poll_none|done].
  - intros (skipped & p & -> & H1 & H2). induction H1 as [|q skipped Hq _ IH]; cbn; [by rewrite H2|]. apply on_poll_none in Hq. by rewrite Hq.
Qed.
End wait.

(** *** Messages in parts *)

Inductive part := PartFailed (err : Z) | Part (bytes : list Z) (more : bool).
Definition max_out : Z := 2147483647.
Definition exceeds (max_message_size : Z) (payload bytes : list Z) : bool :=
  (max_message_size <? Z.of_nat (length payload)) || (max_message_size - Z.of_nat (length payload) <? Z.of_nat (length bytes)).

(** How [do_receive] ends. *)
Inductive received := Received (added : Z) | ReceiveFailed (err : Z) | TooLarge.
Fixpoint receive_parts (max_message_size : Z) (initial : nat) (payload : list Z) (parts : list part) : option (received * list Z * list part) :=
  match parts with
  | [] => None
  | PartFailed err :: parts => Some (ReceiveFailed err, payload, parts)
  | Part bytes more :: parts =>
    if exceeds max_message_size payload bytes then Some (TooLarge, payload, parts)
    else
      let payload := payload ++ bytes in
      if more then receive_parts max_message_size initial payload parts
      else Some (Received (Z.min max_out (Z.of_nat (length payload - initial))), payload, parts)
  end.
Definition do_receive (max_message_size : Z) (payload : list Z) (parts : list part) : option (received * list Z * list part) :=
  receive_parts max_message_size (length payload) payload parts.

Definition part_bytes (p : part) : list Z := match p with Part bytes _ => bytes | PartFailed _ => [] end.
Definition is_more (p : part) : Prop := exists bytes, p = Part bytes true.

(** A message is received whole: all of its parts, in order, and never more than the
    limit. *)
Lemma receive_parts_ok max initial payload parts n payload' rest :
  receive_parts max initial payload parts = Some (Received n, payload', rest) ->
  exists first l, parts = first ++ Part l false :: rest /\ Forall is_more first /\
    payload' = payload ++ mjoin (part_bytes <$> first) ++ l /\ Z.of_nat (length payload') <= max /\
    n = Z.min max_out (Z.of_nat (length payload' - initial)).
Proof.
  revert payload. induction parts as [|[err|bytes more] parts IH]; intros payload; [done|done|]. cbn. unfold exceeds.
  destruct (Z.ltb_spec max (Z.of_nat (length payload))); [done|]. destruct (Z.ltb_spec (max - Z.of_nat (length payload)) (Z.of_nat (length bytes))); [done|].
  cbn. destruct more.
  - intros (first & l & -> & H1 & -> & H2 & ->)%IH. exists (Part bytes true :: first), l. split_and!; try done; [constructor; [by exists bytes|done]|].
    cbn. by rewrite <- !app_assoc.
  - intros [= <- <- <-]. exists [], bytes. split_and!; try done. rewrite length_app. lia.
Qed.
End Wait.

(** ** Published messages *)
Module Topics.
Import Wait.

Inductive topic := block | txpool.
Definition minimal_chain_topic : list Z := bytes_of_string "json-minimal-chain_main".
Definition full_txpool_topic : list Z := bytes_of_string "json-full-txpool_add".
Definition starts_with (pub t : list Z) : bool := bool_decide (take (length t) pub = t).
(** [erase] with the [sizeof] of the topic: its terminator stands for the [:]. *)
Definition erase (t pub : list Z) : list Z := drop (S (length t)) pub.

Definition chain_poll_timeout : Z := 20 * 1000.
Definition chain_sub_timeout : Z := 4 * 60 * 1000.

Section topics.
Context {EN : Errno}.

(** The body of the loop for one message. [std::string::at] throws. *)
Definition sort_message (pub : list Z) : expect (option (topic * list Z)) :=
  if (length pub <? 5)%nat then Err (lws_err bad_daemon_response)
  else
    match pub !! 5%nat with
    | None => Err out_of_range
    | Some c =>
      if c =? 109 (* m *) then Ok (if starts_with pub minimal_chain_topic then Some (block, erase minimal_chain_topic pub) else None)
      else if c =? 102 (* f *) then Ok (if starts_with pub full_txpool_topic then Some (txpool, erase full_txpool_topic pub) else None)
      else Ok None
    end.

(** Until there is nothing to read. *)
Fixpoint read_messages (reads : list (expect (list Z))) (messages : list (topic * list Z)) : option (expect (list (topic * list Z))) :=
  match reads with
  | [] => None
  | Err e :: _ => Some (if bool_decide (e = zmq_err EAGAIN) then Ok messages else Err e)
  | Ok pub :: reads =>
    match sort_message pub with
    | Err e => Some (Err e)
    | Ok None => read_messages reads messages
    | Ok (Some m) => read_messages reads (messages ++ [m])
    end
  end.

(** [daemon_sub]: whether the client has subscribed to the daemon. *)
Definition wait_for_block (daemon_sub : bool) (passes : list pass) (reads : list (expect (list Z)))
    : option (expect (list (topic * list Z)) * list pass) :=
  if daemon_sub then
    match do_wait chain_sub_timeout true passes with
    | None => None
    | Some (Err e, passes) => Some (Err e, passes)
    | Some (Ok _, passes) => (fun r => (r, passes)) <$> read_messages reads []
    end
  else
    match do_wait chain_poll_timeout true passes with
    | None => None
    | Some (Err e, passes) => Some (Err e, passes)
    | Some (Ok _, passes) => Some (Err (lws_err daemon_timeout), passes)
    end.

(** What the daemon publishes under a topic. *)
Definition publication (m : topic * list Z) : list Z :=
  (match m.1 with block => minimal_chain_topic | txpool => full_txpool_topic end) ++ 58 :: m.2.

Lemma sort_publication m : sort_message (publication m) = Ok (Some m).
Proof.
  destruct m as [[] body]; vm_compute; reflexivity.
Qed.

Lemma read_messages_publications ms rest messages :
  read_messages ((Ok ∘ publication <$> ms) ++ Err (zmq_err EAGAIN) :: rest) messages = Some (Ok (messages ++ ms)).
Proof.
  revert messages. induction ms as [|m ms IH]; intros messages; cbn [read_messages fmap list_fmap app].
  - by rewrite bool_decide_true, app_nil_r.
  - unfold compose at 1. rewrite sort_publication, IH. by rewrite <- app_assoc.
Qed.

(** A message of five bytes is let through by the check of the size and then
    indexed behind its end. *)
Lemma five_bytes_throw pub : length pub = 5%nat -> sort_message pub = Err out_of_range.
Proof. intros H. unfold sort_message. rewrite H. cbn. by rewrite lookup_ge_None_2 by lia. Qed.
Lemma sort_message_error pub e :
  sort_message pub = Err e -> (length pub < 5)%nat /\ e = lws_err bad_daemon_response \/ length pub = 5%nat /\ e = out_of_range.
Proof.
  unfold sort_message. destruct (Nat.ltb_spec (length pub) 5); [intros [= <-]; by left|].
  destruct (pub !! 5%nat) as [c|] eqn:E; [by destruct (c =? 109), (c =? 102)|].
  apply lookup_ge_None in E. intros [= <-]. right. split; [lia|done].
Qed.
End topics.

(** *** The loop of the pool *)

Section loop.
Context {EN : Errno} {S Block Txpool : Type}.
Context (block_from_json : list Z -> expect Block) (txpool_from_json : list Z -> expect Txpool).
(** The handlers, where they are set, act on [S]. *)
Context (on_rpc : option (list Z -> S -> expect unit * S)) (on_block : option (Block -> S -> expect unit * S)).
Context (on_txpool : option (Txpool -> S -> expect unit * S)).
(** [event_loop] fills the poll items once: whether the item of the daemon still
    names its socket, which [daemon_reconnect] replaces. *)
Context (polled : S -> bool).

(** What one turn of the loop finds: how [zmq_poll] ends, then the signal, the
    answer and the messages of the sockets that have some. *)
Record turn := Turn {
  tn_failed : option Z;
  tn_signal : option (expect Z);
  tn_rpc : option (expect (list Z));
  tn_pubs : option (list (expect (list Z)))
}.

Definition abort (buf : Z) : error :=
  if buf =? 80 then lws_err signal_abort_process else if buf =? 83 then lws_err signal_abort_scan else lws_err signal_unknown.

(** [inl] goes on. *)
Definition handle {A} (on : option (A -> S -> expect unit * S)) (a : A) (s : S) : (S + error * S) :=
  match on with
  | None => inl s
  | Some on => let '(r, s) := on a s in match r with Ok _ => inl s | Err e => inr (e, s) end
  end.

Definition publish_message (json : list Z) (s : S) : (S + error * S) :=
  if starts_with json minimal_chain_topic then
    match block_from_json (erase minimal_chain_topic json) with Err e => inr (e, s) | Ok parsed => handle on_block parsed s end
  else if starts_with json full_txpool_topic then
    match txpool_from_json (erase full_txpool_topic json) with Err e => inr (e, s) | Ok parsed => handle on_txpool parsed s end
  else inr (lws_err bad_daemon_response, s).

Fixpoint publish_messages (reads : list (expect (list Z))) (s : S) : option (S + error * S) :=
  match reads with
  | [] => None
  | Err e :: _ => Some (if bool_decide (e = zmq_err EAGAIN) then inl s else inr (e, s))
  | Ok json :: reads => match publish_message json s with inl s => publish_messages reads s | inr r => Some (inr r) end
  end.

(** [None]: a turn that cannot happen, as the reads do not end or the answer comes
    from a socket that is not polled. *)
Definition loop_turn (t : turn) (s : S) : option (S + error * S) :=
  match tn_failed t, tn_signal t with
  | Some err, _ => Some (if err =? EINTR then inl s else inr (zmq_err err, s))
  | None, Some (Err e) => Some (inr (e, s))
  | None, Some (Ok buf) => Some (inr (abort buf, s))
  | None, None =>
    if is_some_b (tn_rpc t) && negb (polled s) then None else
    let answered :=
      match tn_rpc t with
      | None => inl s
      | Some (Err e) => if bool_decide (e = zmq_err EAGAIN) then inl s else inr (e, s)
      | Some (Ok json) => handle on_rpc json s
      end in
    match answered with
    | inr r => Some (inr r)
    | inl s => match tn_pubs t with None => Some (inl s) | Some reads => publish_messages reads s end
    end
  end.

Fixpoint event_loop (turns : list turn) (s : S) : option (error * S) :=
  match turns with
  | [] => None
  | t :: turns => match loop_turn t s with None => None | Some (inr r) => Some r | Some (inl s) => event_loop turns s end
  end.

(** What the loop does, as one list of inputs: the answers and the messages in the
    order of the turns, each handed to its handler, until an input or a handler
    ends the loop. *)
Inductive input := Rpc (json : list Z) | Pub (json : list Z) | End (e : error).
Definition apply (i : input) (s : S) : (S + error * S) :=
  match i with Rpc json => handle on_rpc json s | Pub json => publish_message json s | End e => inr (e, s) end.
Fixpoint apply_all (inputs : list input) (s : S) : (S + error * S) :=
  match inputs with
  | [] => inl s
  | i :: inputs => match apply i s with inl s => apply_all inputs s | inr r => inr r end
  end.

Fixpoint pub_inputs (reads : list (expect (list Z))) : list input :=
  match reads with
  | [] => []
  | Ok json :: reads => Pub json :: pub_inputs reads
  | Err e :: _ => if bool_decide (e = zmq_err EAGAIN) then [] else [End e]
  end.
Definition turn_inputs (t : turn) : list input :=
  match tn_failed t, tn_signal t with
  | Some err, _ => if err =? EINTR then [] else [End (zmq_err err)]
  | None, Some (Err e) => [End e]
  | None, Some (Ok buf) => [End (abort buf)]
  | None, None =>
    match tn_rpc t with
    | None => []
    | Some (Err e) => if bool_decide (e = zmq_err EAGAIN) then [] else [End e]
    | Some (Ok json) => [Rpc json]
    end ++ match tn_pubs t with None => [] | Some reads => pub_inputs reads end
  end.

Lemma apply_all_app l l' s : apply_all (l ++ l') s = match apply_all l s with inl s => apply_all l' s | inr r => inr r end.
Proof. revert s. induction l as [|i l IH]; intros s; [done|]. cbn. destruct (apply i s); [apply IH|done]. Qed.

Lemma publish_messages_inputs reads s r : publish_messages reads s = Some r -> apply_all (pub_inputs reads) s = r.
Proof.
  revert s. induction reads as [|[json|e] reads IH]; intros s H; [done| |].
  - cbn in *. destruct (publish_message json s) as [s1|r1]; [by apply IH|by injection H].
  - cbn in *. destruct (bool_decide _); by injection H.
Qed.

Lemma loop_turn_inputs t s r : loop_turn t s = Some r -> apply_all (turn_inputs t) s = r.
Proof.
  intros H. unfold loop_turn, turn_inputs in *. destruct (tn_failed t) as [err|]; [destruct (err =? EINTR); by injection H|].
  destruct (tn_signal t) as [[buf|e]|]; [by injection H..|]. destruct (is_some_b _ && _); [done|]. rewrite apply_all_app.
  assert (forall s r, match tn_pubs t with None => Some (inl s) | Some reads => publish_messages reads s end = Some r ->
    apply_all match tn_pubs t with None => [] | Some reads => pub_inputs reads end s = r) as Hp.
  { intros s1 r1 H1. destruct (tn_pubs t); [by apply publish_messages_inputs|by injection H1]. }
  destruct (tn_rpc t) as [[json|e]|]; [|destruct (bool_decide _); [by apply Hp|by injection H]|by apply Hp].
  cbn. destruct (handle on_rpc json s) as [s1|r1]; [by apply Hp|by injection H].
Qed.

(** A run of the loop is a run of its inputs: all up to one that ends it. *)
Lemma event_loop_inputs turns s r : event_loop turns s = Some r -> apply_all (turns ≫= turn_inputs) s = inr r.
Proof.
  revert s. induction turns as [|t turns IH]; intros s H; [done|]. cbn [event_loop mbind list_bind] in *. rewrite apply_all_app.
  destruct (loop_turn t s) as [[s1|r1]|] eqn:E; [| |done]; apply loop_turn_inputs in E; rewrite E; [by apply IH|by injection H as <-].
Qed.
Lemma apply_all_ends inputs s r : apply_all inputs s = inr r ->
  exists seen i rest s1, inputs = seen ++ i :: rest /\ apply_all seen s = inl s1 /\ apply i s1 = inr r.
Proof.
  revert s. induction inputs as [|i inputs IH]; intros s H; [done|]. cbn [apply_all] in H. destruct (apply i s) as [s1|r1] eqn:E.
  - destruct (IH s1 H) as (seen & j & rest & s2 & -> & H1 & H2). exists (i :: seen), j, rest, s2. split_and!; [done| |done]. cbn. by rewrite E.
  - injection H as ->. by exists [], i, inputs, s.
Qed.
End loop.
End Topics.

(** ** [pool_update_loop] of src/mempool.cpp *)
Module PoolLoop.
Import Wait Topics Pool Ownership.
Section pool.
Context {EN : Errno} {WC : WalletCrypto} {W : Type}.
(** The parsers of the daemon's messages, and the world of its sockets and clock. *)
Context (parse_pool : list Z -> expect (list (hash * transaction))).
Context (block_from_json : list Z -> expect unit) (txpool_from_json : list Z -> expect (list transaction)).
Context (zmq_send make_daemon : W -> expect unit * W) (now : W -> Z).

(** [pw_polled]: the daemon's socket is the one that the loop polls. *)
Record pool_world := PoolWorld { pw_pool : mempool; pw_world : W; pw_polled : bool }.

Definition on_rpc (json : list Z) (s : pool_world) : expect unit * pool_world :=
  match parse_pool json with
  | Err e => (Err e, s)
  | Ok txs => (Ok tt, PoolWorld (reset_txs (pool_response (now (pw_world s)) txs) (pw_pool s)) (pw_world s) (pw_polled s))
  end.

(** [client::send] without time to wait. *)
Definition send_now (w : W) : expect unit * W :=
  let '(t, w) := zmq_send w in
  (match send [t] 0 [] with Some (r, _) => r | None => t end, w).
Definition daemon_reconnect (w : W) : expect unit * W := make_daemon w.

(** The request for the pool; a socket that still waits for an answer is replaced.
    The last component tells whether it was not. *)
Fixpoint request_pool (tries : nat) (status : expect unit) (w : W) (same : bool) : expect unit * W * bool :=
  match tries with
  | O => (status, w, same)
  | S tries =>
    let '(status, w) := send_now w in
    match status with
    | Ok _ => (status, w, same)
    | Err e =>
      if bool_decide (e = zmq_err EFSM) then
        match daemon_reconnect w with (Err e, w) => (Err e, w, same) | (Ok _, w) => request_pool tries status w false end
      else (status, w, same)
    end
  end.
Definition on_block (_ : unit) (s : pool_world) : expect unit * pool_world :=
  let '(r, w, same) := request_pool 2 (Ok tt) (pw_world s) (pw_polled s) in (r, PoolWorld (pw_pool s) w same).

Definition on_txpool (txs : list transaction) (s : pool_world) : expect unit * pool_world :=
  (Ok tt, PoolWorld (add_txs (now (pw_world s)) txs (pw_pool s)) (pw_world s) (pw_polled s)).

Definition pool_update_loop (turns : list turn) (s : pool_world) : option (error * pool_world) :=
  event_loop block_from_json txpool_from_json (Some on_rpc) (Some on_block) (Some on_txpool) pw_polled turns s.

(** A send that would have to wait fails at once, as does any other but one on a
    socket in the wrong state. *)
Lemma send_now_result w : (send_now w).1 = match (zmq_send w).1 with Err e => if bool_decide (e = zmq_err EAGAIN) then Err (lws_err daemon_timeout) else Err e | t => t end.
Proof. unfold send_now, send. destruct (zmq_send w) as [[[]|e] w']; cbn; [done|]. by destruct (bool_decide _). Qed.

(** The transactions the pool holds, by the inputs alone: an answer replaces them, of
    transactions with one hash the first stays, a publication adds those it does
    not have. *)
Definition txs_after (i : input) (held : gmap hash transaction) : gmap hash transaction :=
  match i with
  | Rpc json => match parse_pool json with Ok txs => list_to_map txs | Err _ => held end
  | Pub json =>
    if starts_with json minimal_chain_topic then held
    else if starts_with json full_txpool_topic then
      match txpool_from_json (erase full_txpool_topic json) with
      | Ok txs => held ∪ list_to_map ((fun tx => (get_transaction_hash tx, tx)) <$> txs)
      | Err _ => held
      end
    else held
  | End _ => held
  end.
Definition pool_txs (s : pool_world) : gmap hash transaction := pe_tx <$> state_ (pw_pool s).

Lemma insert_new (h : hash) (e : pool_entry) (s : pool_table) :
  pe_tx <$> (match s !! h with Some _ => s | None => <[h := e]> s end) = (pe_tx <$> s) ∪ {[h := pe_tx e]}.
Proof.
  destruct (s !! h) as [e'|] eqn:E.
  - apply map_eq. intros k. rewrite lookup_union. destruct (decide (k = h)) as [->|Hn].
    + assert ((pe_tx <$> s) !! h = Some (pe_tx e')) as -> by (apply lookup_fmap_Some; by exists e'). by rewrite lookup_singleton_eq.
    + rewrite lookup_singleton_ne by done. by rewrite (right_id_L None (∪)).
  - assert ((pe_tx <$> s) !! h = None) as Hn by (pose proof (lookup_fmap pe_tx s h) as F; setoid_rewrite E in F; exact F).
    etransitivity; [exact (fmap_insert pe_tx s h e)|]. exact (insert_union_singleton_r (pe_tx <$> s) h (pe_tx e) Hn).
Qed.

Lemma insert_all (l : list (hash * pool_entry)) (s : pool_table) :
  pe_tx <$> foldl (fun s e => match s !! e.1 with Some _ => s | None => <[e.1 := e.2]> s end) s l =
  (pe_tx <$> s) ∪ list_to_map ((fun e => (e.1, pe_tx e.2)) <$> l).
Proof.
  revert s. induction l as [|[h e] l IH]; intros s; cbn [foldl fmap list_fmap list_to_map foldr]; [by rewrite (right_id_L ∅ (∪))|].
  rewrite IH. cbn [fst snd]. rewrite insert_new, <- (assoc_L (∪)), <- insert_union_singleton_l. done.
Qed.

Lemma txs_of_add t txs p : pe_tx <$> state_ (add_txs t txs p) = (pe_tx <$> state_ p) ∪ list_to_map ((fun tx => (get_transaction_hash tx, tx)) <$> txs).
Proof.
  pose proof (insert_all ((fun tx => (get_transaction_hash tx, PoolEntry tx t)) <$> txs) (state_ p)) as H.
  rewrite <- list_fmap_compose, foldl_fmap in H. exact H.
Qed.
Lemma txs_of_response t txs : pe_tx <$> pool_response t txs = list_to_map txs.
Proof.
  pose proof (insert_all ((fun e => (e.1, PoolEntry e.2 t)) <$> txs) ∅) as H.
  assert ((fun e : hash * pool_entry => (e.1, pe_tx e.2)) <$> ((fun e : hash * transaction => (e.1, PoolEntry e.2 t)) <$> txs) = txs) as E.
  { clear. induction txs as [|[h tx] txs IH]; [done|]. cbn. by f_equal. }
  rewrite E, foldl_fmap in H. etransitivity; [exact H|]. etransitivity; [exact (f_equal (fun m : gmap hash transaction => m ∪ list_to_map txs) (fmap_empty pe_tx))|]. apply (left_id_L ∅ (∪)).
Qed.

Definition apply_input := apply block_from_json txpool_from_json (Some on_rpc) (Some on_block) (Some on_txpool).
Definition apply_inputs := apply_all block_from_json txpool_from_json (Some on_rpc) (Some on_block) (Some on_txpool).

Lemma apply_txs i s : pool_txs (match apply_input i s with inl s' => s' | inr r => r.2 end) = txs_after i (pool_txs s).
Proof.
  unfold apply_input, apply, txs_after, pool_txs. destruct i as [json|json|e]; [| |done].
  - cbn. unfold on_rpc. destruct (parse_pool json); [|done]. cbn. apply txs_of_response.
  - unfold publish_message. destruct (starts_with json minimal_chain_topic).
    + destruct (block_from_json _) as [b|]; [|done]. cbn. unfold on_block. by destruct (request_pool 2 (Ok tt) (pw_world s) (pw_polled s)) as [[[] w] same].
    + destruct (starts_with json full_txpool_topic); [|done]. destruct (txpool_from_json _) as [txs|]; [|done]. cbn [handle on_txpool fst]. apply txs_of_add.
Qed.

Lemma apply_inputs_txs inputs s s' : apply_inputs inputs s = inl s' -> pool_txs s' = foldl (flip txs_after) (pool_txs s) inputs.
Proof.
  revert s. induction inputs as [|i inputs IH]; intros s H; unfold apply_inputs in H; cbn [apply_all] in H; [by injection H as ->|].
  pose proof (apply_txs i s) as Hi. unfold apply_input in Hi. destruct (apply _ _ _ _ _ i s) as [s1|]; [|done].
  rewrite (IH s1 H), Hi. done.
Qed.

(** C25: Whatever the daemon sends, the loop takes its inputs one after the other,
    every one by its handler, up to the one that ends it. After any number of
    them the pool holds, with their hashes, the transactions of the last answer
    to a request for the pool and those published since (all that it started
    with, before the first answer), and no others; so it does when the loop has
    ended. *)
Theorem pool_follows_daemon turns s e s' :
  pool_update_loop turns s = Some (e, s') ->
  exists seen i rest s1, turns ≫= turn_inputs = seen ++ i :: rest /\
    apply_inputs seen s = inl s1 /\ apply_input i s1 = inr (e, s') /\
    (forall before after, seen = before ++ after ->
       exists s2, apply_inputs before s = inl s2 /\ pool_txs s2 = foldl (flip txs_after) (pool_txs s) before) /\
    pool_txs s' = foldl (flip txs_after) (pool_txs s) (seen ++ [i]).
Proof.
  intros H. apply event_loop_inputs, apply_all_ends in H as (seen & i & rest & s1 & -> & Hs & Hi).
  exists seen, i, rest, s1. split_and!; [done|done|done| |].
  - intros before after ->. rewrite apply_all_app in Hs. destruct (apply_all _ _ _ _ _ before s) as [s2|] eqn:E; [|done].
    exists s2. split; [exact E|]. by apply apply_inputs_txs.
  - rewrite foldl_app. cbn [foldl flip]. rewrite <- (apply_inputs_txs seen s s1 Hs), <- apply_txs. unfold apply_input. by rewrite Hi.
Qed.

(** The loop never reads the answer of a socket that replaced the first one. *)
Lemma replaced_socket_unread turns t s r :
  tn_failed t = None -> tn_signal t = None -> pw_polled s = false -> is_Some (tn_rpc t) -> pool_update_loop (t :: turns) s <> Some r.
Proof.
  intros H1 H2 H3 [a H4] H. unfold pool_update_loop in H. cbn [event_loop] in H. unfold loop_turn in H. by rewrite H1, H2, H3, H4 in H.
Qed.
End pool.
End PoolLoop.

(** ** New accounts and scanner threads

    A scanner thread reads its queue only after it has fetched blocks. Who gives it
    accounts raises a signal afterwards, and the thread looks at its queue when the
    signal ends its wait for a block. Waits in [get_message] and [send] read the
    signal too and pass over it. *)
Module Wake.
Import Wait Queue.
Section protocol.
Context {EN : Errno}.

(** Where [scanner::loop] is: between requests and answers, at the top of the chain
    in [wait_for_block], without accounts in [do_scan_loop], or gone. *)
Inductive phase := Busy | Top | Idle | Gone.
(** [owed]: accounts were given and the signal is still to come. *)
Record state := State { thread_queue : queue; signals : list Z; owed : bool; at_ : phase }.

Inductive event :=
| Give (replace : bool) (users : list Account.state)
| Notify
| Abort (process : bool)
| ReadSignal
| Take (top : bool)
| Published (new_block : bool)
| Fails.

Definition give (replace : bool) (users : list Account.state) (q : queue) : queue :=
  if replace then replace_accounts users q else push_accounts users q.

(** [interrupted] codes leave the loop. *)
Definition woken (q : queue) (r : expect unit) : phase :=
  match r with
  | Ok _ => Busy
  | Err e =>
    if bool_decide (e = lws_err account_list_change) then (if has_accounts q then Busy else Top)
    else if bool_decide (e = lws_err daemon_timeout) then Busy else Gone
  end.

Definition step (ev : event) (s : state) : option state :=
  match ev, at_ s with
  | Give replace users, _ => Some (State (give replace users (thread_queue s)) (signals s) true (at_ s))
  | Notify, _ => Some (State (thread_queue s) (signals s ++ [65]) false (at_ s))
  | Abort process, _ => Some (State (thread_queue s) (signals s ++ [if process then 80 else 83]) (owed s) (at_ s))
  | ReadSignal, Busy =>
    match signals s with
    | [] => None
    | buf :: rest =>
      Some (State (thread_queue s) rest (owed s) (match on_poll (PollSignal (Ok buf)) false with None => Busy | Some _ => Gone end))
    end
  | ReadSignal, Top =>
    match signals s with
    | [] => None
    | buf :: rest =>
      Some (State (thread_queue s) rest (owed s)
        (match on_poll (PollSignal (Ok buf)) true with None => Top | Some r => woken (thread_queue s) r end))
    end
  | Take top, Busy =>
    let '(status, q) := get_accounts (thread_queue s) in
    let nothing := match st_replace status, st_push status with Some [], [] => true | _, _ => false end in
    Some (State q (signals s) (owed s) (if nothing then Idle else if top then Top else Busy))
  | Take _, Idle =>
    (* the next client has signals of its own *)
    (fun sq => State sq.2 [] (owed s) (match take_status [] sq.1 with [] => Idle | _ => Busy end)) <$> wait_for_accounts (thread_queue s)
  | Published new_block, Top => Some (State (thread_queue s) (signals s) (owed s) (if new_block then Busy else Top))
  | Fails, (Busy | Top) => Some (State (thread_queue s) (signals s) (owed s) Gone)
  | _, _ => None
  end.
Fixpoint run (evs : list event) (s : state) : option state :=
  match evs with
  | [] => Some s
  | ev :: evs => s ← step ev s; run evs s
  end.

Definition signal_ok (buf : Z) : Prop := buf ∈ [65; 80; 83].
Definition covered (s : state) : Prop :=
  Forall signal_ok (signals s) /\ (at_ s = Top -> has_accounts (thread_queue s) = true -> owed s = false -> 65 ∈ signals s).

Lemma on_signal_top buf : signal_ok buf ->
  exists e, on_poll (PollSignal (Ok buf)) true = Some (Err e) /\ e <> lws_err daemon_timeout /\ (buf = 65 <-> e = lws_err account_list_change).
Proof. unfold signal_ok. rewrite !elem_of_cons, elem_of_nil. intros [->|[->|[->|[]]]]; eexists; (split; [reflexivity|]); by split. Qed.

Lemma take_covered (s : state) q p : Forall signal_ok (signals s) -> has_accounts q = false -> covered (State q (signals s) (owed s) p).
Proof. intros Hs Hq. split; [done|]. cbn. congruence. Qed.

Lemma wake_step_covered ev s s' : covered s -> step ev s = Some s' -> covered s'.
Proof.
  intros [Hs Hc] H. destruct ev as [replace users| |process| |top|new_block|]; unfold step in H.
  - assert (s' = State (give replace users (thread_queue s)) (signals s) true (at_ s)) as -> by (destruct (at_ s); congruence). by split.
  - assert (s' = State (thread_queue s) (signals s ++ [65]) false (at_ s)) as -> by (destruct (at_ s); congruence).
    split; [apply Forall_app; split; [done|constructor; [left|done]]|]. intros _ _ _. cbn. apply elem_of_app. right. left.
  - assert (s' = State (thread_queue s) (signals s ++ [if process then 80 else 83]) (owed s) (at_ s)) as -> by (destruct (at_ s); congruence).
    split; [apply Forall_app; split; [done|constructor; [|done]]|]; [destruct process; unfold signal_ok; rewrite !elem_of_cons; auto|].
    intros H1 H2 H3. cbn. apply elem_of_app. left. by apply Hc.
  - destruct (at_ s) eqn:Ea; [| |done..]; (destruct (signals s) as [|buf rest] eqn:Es; [done|]); injection H as <-; inversion Hs as [|? ? Hb Hrest]; subst.
    + split; [done|]. cbn. by destruct (wake buf false).
    + split; [done|]. cbn. destruct (on_signal_top buf Hb) as (e & E & Hne & Hiff). cbn [on_poll] in E. rewrite E. unfold woken. destruct (bool_decide_reflect (e = lws_err account_list_change)) as [->|Hn].
      * destruct (has_accounts (thread_queue s)); [done|]. by intros _ ?.
      * by rewrite bool_decide_false.
  - destruct (at_ s); [|done| |done].
    + cbn in H. injection H as <-. by apply take_covered.
    + unfold wait_for_accounts in H. destruct (has_accounts (thread_queue s) || stop_ (thread_queue s)); [|done]. injection H as <-.
      split; [constructor|]. cbn. by destruct (default [] _ ++ _).
  - destruct (at_ s); try done. injection H as <-. split; [done|]. cbn. destruct new_block; [done|]. by intros _; apply Hc.
  - destruct (at_ s); try done; by injection H as <-.
Qed.

Lemma wake_run_covered evs s s' : covered s -> run evs s = Some s' -> covered s'.
Proof.
  revert s. induction evs as [|ev evs IH]; intros s Hc H; cbn in H; [by injection H as <-|].
  destruct (step ev s) as [s1|] eqn:E; [|done]. cbn in H. eapply IH; [|exact H]. by eapply wake_step_covered.
Qed.

(** C26: Accounts given to a scanner thread never wait for the next block: whatever
    the order of gifts, signals, fetches and published blocks, a thread that waits
    at the top of the chain with accounts in its queue has a signal to read, or the
    one who gave them is about to raise it. The wait does not block, and what it
    reads makes the thread fetch blocks, and so take its accounts, or leave. *)
Theorem gifts_are_noticed q evs s :
  run evs (State q [] false Busy) = Some s -> at_ s = Top -> has_accounts (thread_queue s) = true -> owed s = false ->
  exists buf rest s', signals s = buf :: rest /\ step ReadSignal s = Some s' /\
    (forall timeout, 0 < timeout -> exists e, do_wait timeout true [Pass 0 (PollSignal (Ok buf))] = Some (Err e, [])) /\
    (at_ s' = Gone \/ at_ s' = Busy /\ forall top, exists s'', step (Take top) s' = Some s'' /\ has_accounts (thread_queue s'') = false).
Proof.
  intros Hr Ht Hq Ho. assert (covered s) as [Hs Hc] by (eapply wake_run_covered; [|exact Hr]; by split).
  specialize (Hc Ht Hq Ho). destruct (signals s) as [|buf rest] eqn:Es; [by apply elem_of_nil in Hc|].
  inversion Hs as [|? ? Hb _]; subst. destruct (on_signal_top buf Hb) as (e & E & Hne & Hiff).
  exists buf, rest, (State (thread_queue s) rest (owed s) (woken (thread_queue s) (Err e))). split_and!; [done| | |].
  - unfold step. rewrite Ht, Es, E. done.
  - intros timeout Hpos. exists e. unfold do_wait. rewrite (proj2 (Z.leb_gt _ _) Hpos). cbn [wait_passes ps_polled]. by rewrite E.
  - unfold woken. cbn [at_]. destruct (bool_decide_reflect (e = lws_err account_list_change)) as [->|Hn].
    + right. rewrite Hq. split; [done|]. intros top. eexists. split; [reflexivity|done].
    + left. by rewrite bool_decide_false.
Qed.
End protocol.
End Wake.

(** ** What is published to wallets *)
Module Push.
Section push.
(** The MessagePack form of an update; [moved] is a stream after a failed write. *)
Context (bytes : Account.update -> expect (list Z)) (moved : list Z -> list Z).
Context (internal_pub : bool).

(** [prep_message] onto a stream. *)
Definition ends_in_colon (prefix : list Z) : bool := bool_decide (last prefix = Some 58).
Definition header (prefix : list Z) : list Z := if ends_in_colon prefix then prefix else prefix ++ [58].
Definition prep_message (sink prefix : list Z) (message : Account.update) : expect unit * list Z :=
  match bytes message with
  | Err e => (Err e, moved (sink ++ header prefix))
  | Ok b => (Ok tt, sink ++ header prefix ++ b)
  end.

(** The loop over the accounts: the stream, the sizes of its messages, the end of
    the last one, and the last error. [address] throws for an account without one. *)
Record prepared := Prepared { pr_sink : list Z; pr_offsets : list Z; pr_last : Z; pr_rc : expect unit }.
Fixpoint prepare (accts : list Account.state) (new_height : block_id) (p : prepared) : expect prepared * list Account.state :=
  match accts with
  | [] => (Ok p, [])
  | acct :: accts =>
    if new_height <? Account.scan_height acct then let '(r, accts) := prepare accts new_height p in (r, acct :: accts)
    else
      match Account.address acct with
      | Err e => (Err e, acct :: accts)
      | Ok address =>
        let '(u, acct) := Account.updated new_height acct in
        let '(msg, sink) := prep_message (pr_sink p) address u in
        let size := Z.of_nat (length sink) in
        let '(r, accts) := prepare accts new_height
          (Prepared sink (pr_offsets p ++ [u64 (size - pr_last p)]) size (match msg with Err _ => msg | Ok _ => pr_rc p end)) in
        (r, acct :: accts)
      end
  end.

(** [take_slice] one after the other. *)
Fixpoint slices (offsets : list Z) (msgs : list Z) : list (list Z) :=
  match offsets with [] => [] | o :: offsets => take (Z.to_nat o) msgs :: slices offsets (drop (Z.to_nat o) msgs) end.

(** [client::push_updates]: what is sent, and the accounts. *)
Definition push_updates (accts : list Account.state) (new_height : block_id) : expect (list (list Z)) * list Account.state :=
  if internal_pub then
    match prepare accts new_height (Prepared [] [] 0 (Ok tt)) with
    | (Err e, accts) => (Err e, accts)
    | (Ok p, accts) => (match pr_rc p with Err e => Err e | Ok _ => Ok (slices (pr_offsets p) (pr_sink p)) end, accts)
    end
  else (Ok [], (fun acct => (Account.updated new_height acct).2) <$> accts).

(** The message for an account. *)
Definition message (address : list Z) (u : Account.update) : expect (list Z) := let* b := bytes u in Ok (header address ++ b).
Fixpoint messages (accts : list Account.state) (new_height : block_id) : expect (list (list Z)) :=
  match accts with
  | [] => Ok []
  | acct :: accts =>
    if new_height <? Account.scan_height acct then messages accts new_height
    else
      let* address := Account.address acct in
      let* m := message address (Account.updated new_height acct).1 in
      let* ms := messages accts new_height in
      Ok (m :: ms)
  end.

Lemma slices_concat (ms : list (list Z)) : slices ((fun m => Z.of_nat (length m)) <$> ms) (mjoin ms) = ms.
Proof.
  induction ms as [|m ms IH]; [done|]. cbn. rewrite Nat2Z.id, take_app_length, drop_app_length. f_equal. exact IH.
Qed.

Definition has_address (a : Account.state) : Prop := exists address, Account.address a = Ok address.

(** With every form written, the stream is the messages one after the other. *)
Lemma prepare_ok accts h ms sent :
  messages accts h = Ok ms -> Z.of_nat (length (mjoin (sent ++ ms))) <= u64_max ->
  exists p, (prepare accts h (Prepared (mjoin sent) ((fun m => Z.of_nat (length m)) <$> sent) (Z.of_nat (length (mjoin sent))) (Ok tt))).1 = Ok p /\
    pr_sink p = mjoin (sent ++ ms) /\ pr_offsets p = (fun m => Z.of_nat (length m)) <$> (sent ++ ms) /\ pr_rc p = Ok tt.
Proof.
  revert ms sent. induction accts as [|acct accts IH]; intros ms sent H Hlen; cbn [messages prepare] in *.
  - injection H as <-. eexists. split; [reflexivity|]. by rewrite app_nil_r.
  - destruct (Z.ltb_spec h (Account.scan_height acct)).
    + destruct (IH ms sent H Hlen) as (p & H1 & H2 & H3 & H4). destruct (prepare accts h _) as [r accts'] eqn:E. cbn in H1 |- *. by exists p.
    + destruct (Account.address acct) as [address|]; [|done]. cbn [ebind Account.updated fst] in H.
      set (u := Account.Update _ _ _ _) in *. unfold message in H. destruct (bytes u) as [b|] eqn:Eb; [|done]. cbn [ebind] in H.
      destruct (messages accts h) as [ms'|] eqn:Em; [|done]. injection H as <-.
      assert (sent ++ (header address ++ b) :: ms' = (sent ++ [header address ++ b]) ++ ms') as Es by (by rewrite <- app_assoc).
      assert (mjoin (sent ++ [header address ++ b]) = mjoin sent ++ header address ++ b) as Ej by (rewrite join_app; cbn; by rewrite app_nil_r).
      rewrite Es in Hlen |- *. destruct (IH ms' (sent ++ [header address ++ b]) eq_refl Hlen) as (p & H1 & H2 & H3 & H4).
      unfold Account.updated at 1. cbv zeta. fold u. unfold prep_message. rewrite Eb. cbn [pr_sink pr_offsets pr_last pr_rc].
      rewrite <- Ej. assert (u64 (Z.of_nat (length (mjoin (sent ++ [header address ++ b]))) - Z.of_nat (length (mjoin sent))) = Z.of_nat (length (header address ++ b))) as ->.
      { rewrite u64_small; rewrite Ej, (length_app (mjoin sent)); [lia|]. rewrite join_app, Ej, !length_app in Hlen. unfold in_u64. rewrite length_app. lia. }
      rewrite fmap_app in H1. cbn [fmap list_fmap] in H1. destruct (prepare accts h _) as [r accts'] eqn:E. cbn in H1 |- *. by exists p.
Qed.

Lemma prepare_accounts accts h p :
  Forall has_address accts -> (prepare accts h p).2 = (fun a => if h <? Account.scan_height a then a else (Account.updated h a).2) <$> accts.
Proof.
  intros H. revert p. induction H as [|a accts [address Ha] _ IH]; intros p; [done|]. cbn [prepare fmap list_fmap].
  destruct (h <? Account.scan_height a).
  - specialize (IH p). destruct (prepare accts h p) as [r accts']. cbn in IH |- *. by rewrite IH.
  - rewrite Ha. unfold Account.updated at 1. cbv zeta. destruct (prep_message _ _ _) as [msg sink]. set (p' := Prepared _ _ _ _). specialize (IH p').
    destruct (prepare accts h p') as [r accts']. cbn in IH |- *. by rewrite IH.
Qed.

Lemma store_push_updates_accounts users h :
  (Store.push_updates internal_pub users h).2 =
  (fun a => if internal_pub && (h <? Account.scan_height a) then a else (Account.updated h a).2) <$> users.
Proof.
  induction users as [|u users IH]; [done|]. cbn. destruct (Store.push_updates internal_pub users h) as [updates us]. cbn in IH. subst us.
  by destruct (internal_pub && (h <? Account.scan_height u)).
Qed.

(** The updates [Store.push_updates] lists, as messages. *)
Lemma messages_store users h :
  internal_pub = true -> Forall has_address users -> Forall (fun u => exists b, bytes u = Ok b) (Store.push_updates internal_pub users h).1 ->
  exists ms, messages users h = Ok ms /\
    Forall2 (fun m u => exists address b, bytes u = Ok b /\ m = header address ++ b) ms (Store.push_updates internal_pub users h).1.
Proof.
  intros Hi Ha. induction Ha as [|u users [address Hu] _ IH]; intros Hb; [by exists []|]. cbn in Hb |- *.
  destruct (Store.push_updates internal_pub users h) as [updates us]. rewrite Hi in *. cbn in Hb |- *.
  destruct (h <? Account.scan_height u); [by apply IH|]. cbn in Hb. inversion Hb as [|? ? [b Eb] Hb' E1]; subst.
  rewrite Hu. cbn [ebind]. unfold message. rewrite Eb. cbn [ebind]. destruct (IH Hb') as (ms & -> & H2). cbn [ebind].
  eexists. split; [reflexivity|]. constructor; [by exists address, b|done].
Qed.

(** [push_updates] sends, in order, one message for each update of the model of
    the scanner ([Store.push_updates]): the address of the account, a colon and the
    update's form, cut out of one stream by their sizes; and it leaves the same
    accounts. *)
Theorem push_updates_sends accts h :
  Forall has_address accts ->
  Forall (fun u => exists b, bytes u = Ok b) (Store.push_updates internal_pub accts h).1 ->
  (forall ms, messages accts h = Ok ms -> Z.of_nat (length (mjoin ms)) <= u64_max) ->
  exists ms, (push_updates accts h).1 = Ok ms /\ (push_updates accts h).2 = (Store.push_updates internal_pub accts h).2 /\
    Forall2 (fun m u => exists address b, bytes u = Ok b /\ m = header address ++ b) ms (Store.push_updates internal_pub accts h).1 /\
    (internal_pub = true -> messages accts h = Ok ms).
Proof.
  intros Ha Hb Hlen. rewrite store_push_updates_accounts. unfold push_updates. destruct internal_pub eqn:Ei.
  - destruct (messages_store accts h Ei Ha) as (ms & Hm & H2); [by rewrite Ei|]. rewrite Ei in H2.
    destruct (prepare_ok accts h ms [] Hm (Hlen ms Hm)) as (p & H3 & H4 & H5 & H6). cbn in H3. exists ms.
    pose proof (prepare_accounts accts h (Prepared [] [] 0 (Ok tt)) Ha) as Hacc. destruct (prepare accts h _) as [r accts']. cbn in H3, Hacc |- *. subst r.
    rewrite H6, H4, H5. cbn [app]. rewrite slices_concat. split_and!; [done|exact Hacc|exact H2|done].
  - exists []. split_and!; [done|done| |done]. cbn. clear. induction accts as [|a accts IH]; [constructor|]. cbn.
    destruct (Store.push_updates false accts h). exact IH.
Qed.

(** When one form cannot be written, nothing is sent to anyone, and what the
    accounts had found is gone from them. *)
Lemma prepare_rc accts h p p' e : pr_rc p = Err e -> (prepare accts h p).1 = Ok p' -> is_ok (pr_rc p') = false.
Proof.
  revert p e. induction accts as [|a accts IH]; intros p e Hp; cbn [prepare]; [intros [= <-]; by rewrite Hp|].
  destruct (h <? Account.scan_height a).
  - intros H. eapply IH; [exact Hp|]. by destruct (prepare accts h p).
  - destruct (Account.address a) as [address|]; [|done]. unfold Account.updated at 1. cbv zeta. destruct (prep_message _ _ _) as [msg sink].
    set (q := Prepared _ _ _ _). intros H. assert (exists e', pr_rc q = Err e') as [e' Hq] by (subst q; cbn; destruct msg; eauto).
    eapply IH; [exact Hq|]. by destruct (prepare accts h q).
Qed.
Theorem one_failure_drops_all a accts h address e :
  internal_pub = true -> Account.scan_height a <= h -> Account.address a = Ok address -> bytes (Account.updated h a).1 = Err e -> Forall has_address accts ->
  is_ok (push_updates (a :: accts) h).1 = false /\
  (push_updates (a :: accts) h).2 = (fun a => if h <? Account.scan_height a then a else (Account.updated h a).2) <$> a :: accts.
Proof.
  intros Hi Hh Ha Hb Hall. unfold push_updates. rewrite Hi.
  pose proof (prepare_accounts (a :: accts) h (Prepared [] [] 0 (Ok tt)) ltac:(constructor; [by exists address|done])) as Hacc.
  destruct (prepare (a :: accts) h _) as [r accts'] eqn:E. cbn in Hacc |- *. destruct r as [p|e']; [|by split].
  split; [|exact Hacc]. cbn [prepare] in E. rewrite (proj2 (Z.ltb_ge _ _) Hh), Ha in E. unfold Account.updated at 1 in E. cbv zeta in E.
  cbn [Account.updated fst] in Hb. unfold prep_message in E. rewrite Hb in E. cbn [pr_sink pr_rc pr_last pr_offsets] in E.
  set (q := Prepared _ _ _ _) in E. destruct (prepare accts h q) as [r1 accts1] eqn:E1. injection E as -> _.
  assert (is_ok (pr_rc p) = false) as Hf by (eapply (prepare_rc accts h q p e); [done|by rewrite E1]). by destruct (pr_rc p).
Qed.
End push.
End Push.

(** ** Warnings *)
Module Warnings.

(** The count of the context, and one subscriber: the count [watch] has read, whether
    its subscription is there, and the warnings that were delivered, each with its
    number and its place among those pushed since the count was read. *)
Record state := State {
  warning_count : Z;
  h_read : option Z;
  h_pushed : nat;
  subscribed : bool;
  inbox : list (nat * Z)
}.

(** [push_warning_] under its lock, and the steps of [account_sub::watch]. A message
    may not be written, and ZeroMQ may drop it. *)
Inductive event := Push (sent : bool) | ReadCount | Subscribe.

Definition push_warning (internal_pub sent : bool) (s : state) : state :=
  if internal_pub then
    State (u32 (warning_count s + 1)) (h_read s) (S (h_pushed s)) (subscribed s)
      (if sent && subscribed s then inbox s ++ [(h_pushed s, warning_count s)] else inbox s)
  else s.
Definition read_count (s : state) : state := State (warning_count s) (Some (warning_count s)) 0 false [].
Definition subscribe (s : state) : state := State (warning_count s) (h_read s) (h_pushed s) (is_some_b (h_read s)) (inbox s).

Definition step (internal_pub : bool) (ev : event) (s : state) : state :=
  match ev with Push sent => push_warning internal_pub sent s | ReadCount => read_count s | Subscribe => subscribe s end.
Definition run (internal_pub : bool) (evs : list event) (s : state) : state := foldl (flip (step internal_pub)) s evs.

(** The test of the feed, from the count [watch] returned on. *)
Fixpoint accepted (count : Z) (inbox : list (nat * Z)) : bool :=
  match inbox with [] => true | (_, counter) :: inbox => (count =? counter) && accepted (u32 (count + 1)) inbox end.

Definition counted (s : state) : Prop :=
  match h_read s with
  | None => subscribed s = false /\ inbox s = []
  | Some c =>
    warning_count s = u32 (c + Z.of_nat (h_pushed s)) /\ (length (inbox s) <= h_pushed s)%nat /\
    Forall (fun d => (d.1 < h_pushed s)%nat /\ d.2 = u32 (c + Z.of_nat d.1)) (inbox s)
  end.

Lemma step_counted internal_pub ev s : in_u32 (warning_count s) -> counted s -> in_u32 (warning_count (step internal_pub ev s)) /\ counted (step internal_pub ev s).
Proof.
  intros Hw Hc. destruct ev as [sent| |]; cbn [step].
  - unfold push_warning. destruct internal_pub; [|done]. split; [apply u32_range|]. unfold counted in *. cbn. destruct (h_read s) as [c|].
    + destruct Hc as (H1 & H2 & H3). rewrite H1. split_and!.
      * unfold u32. rewrite Z.add_mod_idemp_l by done. f_equal. lia.
      * destruct (sent && subscribed s); [rewrite length_app; cbn|]; lia.
      * assert (Forall (fun d => (d.1 < S (h_pushed s))%nat /\ d.2 = u32 (c + Z.of_nat d.1)) (inbox s)) as H3' by (eapply Forall_impl; [exact H3|]; cbn; intros d []; split; [lia|done]).
        destruct (sent && subscribed s); [|exact H3']. apply Forall_app. split; [exact H3'|]. constructor; [|done]. cbn. split; [lia|done].
    + destruct Hc as [-> ->]. by rewrite andb_false_r.
  - split; [exact Hw|]. unfold counted. cbn. rewrite Z.add_0_r, u32_small by done. split_and!; [done|lia|done].
  - split; [exact Hw|]. unfold counted in *. cbn. destruct (h_read s); [exact Hc|]. by destruct Hc.
Qed.

Lemma accepted_consecutive c inbox k : accepted (u32 (c + Z.of_nat k)) inbox = true -> inbox.*2 = (fun i => u32 (c + Z.of_nat i)) <$> seq k (length inbox).
Proof.
  revert k. induction inbox as [|[i counter] inbox IH]; intros k; [done|]. cbn [accepted length seq fmap list_fmap snd]. intros [<-%Z.eqb_eq H]%andb_true_iff. f_equal.
  apply IH. rewrite <- H. f_equal. unfold u32. rewrite Z.add_mod_idemp_l by done. f_equal. lia.
Qed.

(** A subscriber that takes warnings as long as their numbers follow on from the count
    [watch] gave it has every warning pushed since that count was read, up to the last
    one it took: the count is read before the subscription is made, so a warning that
    comes between them shows as a gap. *)
Theorem no_warning_lost_unseen internal_pub evs s :
  in_u32 (warning_count s) -> h_read s = None -> subscribed s = false -> inbox s = [] ->
  let s' := run internal_pub evs s in
  forall c, h_read s' = Some c -> in_u32 c -> Z.of_nat (h_pushed s') <= 2 ^ 32 -> accepted c (inbox s') = true ->
  (inbox s').*1 = seq 0 (length (inbox s')).
Proof.
  intros Hw Hr Hs Hi s' c Hc Hcr Hp Ha.
  assert (in_u32 (warning_count s') /\ counted s') as [_ Hk].
  { subst s'. unfold run. assert (counted s) as H by (unfold counted; by rewrite Hr). clear Hr Hs Hi Hc Hp Ha. revert s Hw H.
    induction evs as [|ev evs IH]; intros s Hw H; [done|]. cbn. destruct (step_counted internal_pub ev s Hw H). by apply IH. }
  unfold counted in Hk. rewrite Hc in Hk. destruct Hk as (_ & Hl & Hf).
  pose proof (accepted_consecutive c (inbox s') 0) as Hq. rewrite Z.add_0_r, (u32_small c Hcr) in Hq. specialize (Hq Ha).
  apply list_eq_same_length with (n := length (inbox s')); [by rewrite length_seq|by rewrite length_fmap|].
  intros i x y Hlt Hx Hy. apply lookup_seq in Hy as [-> _]. rewrite list_lookup_fmap in Hx. destruct (inbox s' !! i) as [[x' v]|] eqn:Ei; [|done]. injection Hx as <-.
  rewrite Forall_lookup in Hf. destruct (Hf i _ Ei) as [Hb Hv]. cbn in Hb, Hv.
  assert ((inbox s').*2 !! i = Some v) as Hv2 by (by rewrite list_lookup_fmap, Ei). rewrite Hq, list_lookup_fmap, lookup_seq_lt in Hv2 by done.
  injection Hv2 as Hv2. cbn in Hv2. rewrite Hv in Hv2. cbn. unfold u32, in_u32, u32_max in *. change (2 ^ 32) with 4294967296 in Hp.
  Z.to_euclidean_division_equations. lia.
Qed.
End Warnings.

(** ** Exchange rates *)
Module Rates.
Section rates.
Context {R : Type} (no_rates : R) (cache_interval : Z).

(** Times are nanoseconds of the steady clock. [h_]: requests under way, and what was
    fetched when, the last first. *)
Record state := State { cache_time : Z; cached : R; rates_running : bool; h_flying : nat; h_fetched : list (Z * R) }.
Definition initial : state := State 0 no_rates false 0 [].

Definition grace : Z := 30 * 1000000000.
Definition get_rates (now : Z) (s : state) : expect R :=
  if cache_interval <=? 0 then Err (lws_err exchange_rates_disabled)
  else if cache_interval + grace <=? now - cache_time s then Err (lws_err exchange_rates_old)
  else Ok (cached s).

(** [context::retrieve_rates_async]; [queued] is what [get_async] returns. *)
Definition retrieve_rates_async (queued : expect unit) (s : state) : expect unit * state :=
  if cache_interval <=? 0 then (Ok tt, s)
  else if rates_running s then (Ok tt, s)
  else
    match queued with
    | Err e => (Err e, s)
    | Ok _ => (Ok tt, State (cache_time s) (cached s) true (S (h_flying s)) (h_fetched s))
    end.

(** The callback. *)
Definition retrieved (now : Z) (fresh : expect R) (s : state) : state :=
  match fresh with
  | Ok r => State now r false (pred (h_flying s)) ((now, r) :: h_fetched s)
  | Err _ => State (cache_time s) (cached s) false (pred (h_flying s)) (h_fetched s)
  end.

Inductive event := Retrieve (queued : expect unit) | Retrieved (now : Z) (fresh : expect R).
Definition step (ev : event) (s : state) : option state :=
  match ev with
  | Retrieve queued => Some (retrieve_rates_async queued s).2
  | Retrieved now fresh => match h_flying s with O => None | S _ => Some (retrieved now fresh s) end
  end.
Fixpoint run (evs : list event) (s : state) : option state :=
  match evs with
  | [] => Some s
  | ev :: evs => s ← step ev s; run evs s
  end.

Definition consistent (s : state) : Prop :=
  h_flying s = (if rates_running s then 1%nat else 0%nat) /\
  (cache_time s, cached s) = default (0, no_rates) (head (h_fetched s)).

Lemma rates_consistent evs s s' : consistent s -> run evs s = Some s' -> consistent s'.
Proof.
  revert s. induction evs as [|ev evs IH]; intros s Hc H; cbn in H; [by injection H as <-|].
  destruct (step ev s) as [s1|] eqn:E; [|done]. cbn in H. apply (IH s1); [|done]. destruct Hc as [H1 H2]. destruct ev as [queued|now fresh]; cbn in E.
  - injection E as <-. unfold retrieve_rates_async. destruct (cache_interval <=? 0); [by split|]. destruct (rates_running s) eqn:Er; [split; cbn; [by rewrite Er|done]|].
    destruct queued; [|split; cbn; [by rewrite Er|done]]. split; [cbn; by rewrite H1|done].
  - destruct (h_flying s) as [|n] eqn:Ef; [done|]. injection E as <-. destruct (rates_running s); [injection H1 as ->|done].
    unfold retrieved. rewrite Ef. by destruct fresh.
Qed.

(** At most one request is under way, and what [get_rates] answers is the last answer
    of the service, less than half a minute older than the interval; before the
    first one it is nothing the service said, as long as the clock of the machine
    has not reached that age. *)
Theorem rates_recent evs s now r :
  run evs initial = Some s -> get_rates now s = Ok r ->
  (h_flying s <= 1)%nat /\
  match h_fetched s with
  | (t, r') :: _ => r = r' /\ now - t < cache_interval + grace
  | [] => r = no_rates /\ now < cache_interval + grace
  end.
Proof.
  intros Hr Hg. apply rates_consistent in Hr as [H1 H2]; [|done]. split; [rewrite H1; destruct (rates_running s); lia|].
  unfold get_rates in Hg. destruct (cache_interval <=? 0); [done|]. destruct (Z.leb_spec (cache_interval + grace) (now - cache_time s)); [done|].
  injection Hg as <-. destruct (h_fetched s) as [|[t r'] l]; injection H2 as E1 E2; rewrite E1 in *; (split; [done|lia]).
Qed.

(** A server that starts with its machine offers rates of nothing as current. *)
Theorem rates_before_the_first_answer now : 0 < cache_interval -> now < cache_interval + grace -> get_rates now initial = Ok no_rates.
Proof.
  intros H1 H2. unfold get_rates. rewrite (proj2 (Z.leb_gt _ _) H1). cbn [cache_time initial cached]. by rewrite Z.sub_0_r, (proj2 (Z.leb_gt _ _) H2).
Qed.
End rates.
End Rates.

(** ** Samples *)
Module ClientSample.
Import Wait Topics Pool.
#[local] Existing Instance OwnershipTest.OwnershipSample.wallet_crypto.
#[local] Instance linux : Errno := { EAGAIN := 11; EINTR := 4; EFSM := 156384763; again_not_fsm := ltac:(discriminate) }.

(** An interrupted poll and an account change are passed over. *)
Example waits : do_wait 1000 false [Pass 0 (PollFailed 4); Pass 10 (PollSignal (Ok 65)); Pass 400 PollDaemon; Pass 0 PollNothing] = Some (Ok tt, [Pass 0 PollNothing]).
Proof. vm_compute. reflexivity. Qed.
Example second_read_is_last : get_message [Err (zmq_err 11); Err (zmq_err 11); Ok [1]] 1000 [Pass 0 PollDaemon; Pass 0 PollDaemon] = Some (Err (lws_err daemon_timeout), [Pass 0 PollDaemon]).
Proof. vm_compute. reflexivity. Qed.
Example sorts : (wait_for_block true [Pass 0 PollDaemon] [Ok (bytes_of_string "json-full-txpool_add:[]"); Ok (bytes_of_string "json-full-chain_main:[]"); Err (zmq_err 11)]) =
  Some (Ok [(txpool, bytes_of_string "[]")], []).
Proof. vm_compute. reflexivity. Qed.
Example throws : (wait_for_block true [Pass 0 PollDaemon] [Ok (bytes_of_string "json-"); Err (zmq_err 11)]) = Some (Err out_of_range, []).
Proof. vm_compute. reflexivity. Qed.

(** The pool after an answer and a publication; the loop is aborted. *)
Definition parse_pool (json : list Z) : expect (list (hash * transaction)) := Ok [(7, MempoolSample.sweep)].
Definition block_from_json (json : list Z) : expect unit := Ok tt.
Definition txpool_from_json (json : list Z) : expect (list transaction) := Ok [MempoolSample.sweep].
(** The second send finds the socket in the wrong state. *)
Definition zmq_send (w : Z) : expect unit * Z := (if w =? 1 then Err (zmq_err 156384763) else Ok tt, w + 1).
Definition make_daemon (w : Z) : expect unit * Z := (Ok tt, w + 1).
Definition now (w : Z) : Z := w.
Definition a_block : list (expect (list Z)) := [Ok (bytes_of_string "json-minimal-chain_main:{}"); Err (zmq_err 11)].
Definition turns : list turn :=
  [Turn None None None (Some a_block);
   Turn None None (Some (Ok [])) (Some [Ok (bytes_of_string "json-full-txpool_add:[]"); Err (zmq_err 11)]);
   Turn None None None (Some a_block);
   Turn (Some 88) None None None].
Definition begin : PoolLoop.pool_world := PoolLoop.PoolWorld (Mempool ∅ Cache.empty_cache None) 0 true.
Definition updated := PoolLoop.pool_update_loop parse_pool block_from_json txpool_from_json zmq_send make_daemon now turns begin.
Definition after : PoolLoop.pool_world := match updated with Some (_, s) => s | None => begin end.
(** The socket was replaced after the second block, and the poll of the old one
    fails. *)
Example pool_updated : (fst <$> updated, PoolLoop.pw_world after, PoolLoop.pw_polled after, elements (dom (PoolLoop.pool_txs after))) =
  (Some (zmq_err 88), 4, false, [7; 4000]).
Proof. vm_compute. reflexivity. Qed.

Lemma pool_follows_daemon_witness :
  exists seen i rest s1, turns ≫= turn_inputs = seen ++ i :: rest /\
    PoolLoop.apply_inputs parse_pool block_from_json txpool_from_json zmq_send make_daemon now seen begin = inl s1 /\
    PoolLoop.apply_input parse_pool block_from_json txpool_from_json zmq_send make_daemon now i s1 = inr (zmq_err 88, after) /\
    PoolLoop.pool_txs after = foldl (flip (PoolLoop.txs_after parse_pool txpool_from_json)) ∅ (seen ++ [i]).
Proof.
  destruct (PoolLoop.pool_follows_daemon parse_pool block_from_json txpool_from_json zmq_send make_daemon now turns begin (zmq_err 88) after)
    as (seen & i & rest & s1 & H1 & H2 & H3 & _ & H5); [vm_compute; reflexivity|].
  exists seen, i, rest, s1. by split_and!.
Defined.

(** Accounts are given while the thread is busy and while it waits. *)
Definition gift : list Account.state := [OwnershipTest.OwnershipSample.user].
Definition given : list Wake.event := [Wake.Give false gift; Wake.Take true; Wake.Notify; Wake.ReadSignal; Wake.Give false gift; Wake.Notify].
Definition waiting : Wake.state := default (Wake.State Queue.construct [] false Wake.Gone) (Wake.run given (Wake.State Queue.construct [] false Wake.Busy)).
Lemma gifts_are_noticed_witness :
  exists buf rest s', Wake.signals waiting = buf :: rest /\ Wake.step Wake.ReadSignal waiting = Some s' /\
    (forall timeout, 0 < timeout -> exists e, do_wait timeout true [Pass 0 (PollSignal (Ok buf))] = Some (Err e, [])) /\
    (Wake.at_ s' = Wake.Gone \/ Wake.at_ s' = Wake.Busy /\ forall top, exists s'', Wake.step (Wake.Take top) s' = Some s'' /\ Queue.has_accounts (Wake.thread_queue s'') = false).
Proof. apply (Wake.gifts_are_noticed Queue.construct given waiting); vm_compute; reflexivity. Defined.

Definition bytes (u : Account.update) : expect (list Z) := Ok [Account.u_new_height u].
Definition accts : list Account.state := [OwnershipTest.OwnershipSample.user; OwnershipTest.OwnershipSample.user].
Lemma push_updates_sends_witness :
  exists ms, (Push.push_updates bytes id true accts 1000).1 = Ok ms /\ (Push.push_updates bytes id true accts 1000).2 = (Store.push_updates true accts 1000).2 /\
    Forall2 (fun m u => exists address b, bytes u = Ok b /\ m = Push.header address ++ b) ms (Store.push_updates true accts 1000).1 /\ length ms = 2%nat.
Proof.
  destruct (Push.push_updates_sends bytes id true accts 1000) as (ms & H1 & H2 & H3 & _).
  - repeat constructor; eexists; reflexivity.
  - apply Forall_forall. intros u _. by eexists.
  - intros ms. replace (Push.messages bytes accts 1000) with (Ok (A:=list (list Z)) [[58; 1000]; [58; 1000]]) by (vm_compute; reflexivity).
    intros [= <-]. vm_compute. discriminate.
  - exists ms. split_and!; [exact H1|exact H2|exact H3|]. by rewrite (Forall2_length _ _ _ H3).
Defined.

Lemma no_warning_lost_unseen_witness :
  (Warnings.inbox (Warnings.run true [Warnings.ReadCount; Warnings.Subscribe; Warnings.Push true; Warnings.Push true] (Warnings.State 5 None 0 false []))).*1 = seq 0 2.
Proof.
  apply (Warnings.no_warning_lost_unseen true [Warnings.ReadCount; Warnings.Subscribe; Warnings.Push true; Warnings.Push true] (Warnings.State 5 None 0 false []) ltac:(by vm_compute) eq_refl eq_refl eq_refl 5);
    [reflexivity|by vm_compute|vm_compute; discriminate|reflexivity].
Defined.
(** A warning between the two steps of [watch] shows. *)
Example gap_is_seen :
  Warnings.accepted 5 (Warnings.inbox (Warnings.run true [Warnings.ReadCount; Warnings.Push true; Warnings.Subscribe; Warnings.Push true] (Warnings.State 5 None 0 false []))) = false.
Proof. vm_compute. reflexivity. Qed.

(** A minute after the machine has started. *)
Example no_rates_offered : Rates.get_rates (R:=list Z) (60 * 60 * 1000000000) (60 * 1000000000) (Rates.initial []) = Ok [].
Proof. vm_compute. reflexivity. Qed.
End ClientSample.
