(* ===== verification/RestServer.v ===== *)
(** The HTTP side of the REST server (src/rest_server.cpp): the tables of endpoints
    and how a target is looked up (module [Routes]), the response to a request with
    its status and headers (module [Answer]), the connection that reads requests and
    writes responses with its timer (module [Connection]), and the ports the server
    opens (module [Ports]). The handlers themselves are in Rest.v and RestQueue.v;
    here a handler is any function of the body.

    The parsing of HTTP, sockets and TLS are outside of src/: a request is what the
    parser makes of it, and every socket operation ends with or without an error. *)

From S2P Require Import Prelude Wire.

(** ** Endpoints *)
Module Routes.

Inductive handler :=
| daemon_status | get_address_info | get_address_txs | get_random_outs | get_subaddrs | get_unspent_outs | get_version
| import_request | login | provision_subaddrs | submit_raw_tx | upsert_subaddrs
| accept_requests_ | add_account_ | list_accounts_ | list_requests_ | modify_account_ | reject_requests_ | rescan_
| validate_ | webhook_add_ | webhook_delete_ | webhook_del_uuid_ | webhook_list_.

Record endpoint := Endpoint { name_ : string; run : option handler; max_size : Z; is_async : bool }.
Definition name (e : endpoint) : list Z := bytes_of_string (name_ e).

Definition get_max (l : list endpoint) : Z := foldl (fun current_max e => Z.max current_max (max_size e)) 0 l.

Definition endpoints : list endpoint :=
  [Endpoint "/daemon_status" (Some daemon_status) 1024 true;
   Endpoint "/feed" None 0 false;
   Endpoint "/get_address_info" (Some get_address_info) (2 * 1024) false;
   Endpoint "/get_address_txs" (Some get_address_txs) (2 * 1024) false;
   Endpoint "/get_random_outs" (Some get_random_outs) (2 * 1024) true;
   Endpoint "/get_subaddrs" (Some get_subaddrs) (2 * 1024) false;
   Endpoint "/get_txt_records" None 0 false;
   Endpoint "/get_unspent_outs" (Some get_unspent_outs) (2 * 1024) true;
   Endpoint "/get_version" (Some get_version) 1024 false;
   Endpoint "/import_wallet_request" (Some import_request) (2 * 1024) false;
   Endpoint "/login" (Some login) (2 * 1024) false;
   Endpoint "/provision_subaddrs" (Some provision_subaddrs) (2 * 1024) false;
   Endpoint "/submit_raw_tx" (Some submit_raw_tx) (512 * 1024) true;
   Endpoint "/upsert_subaddrs" (Some upsert_subaddrs) (10 * 1024) false].
Definition max_standard_endpoint_size : Z := get_max endpoints.

Definition admin_endpoints : list endpoint :=
  [Endpoint "/accept_requests" (Some accept_requests_) (50 * 1024) false;
   Endpoint "/add_account" (Some add_account_) (50 * 1024) false;
   Endpoint "/list_accounts" (Some list_accounts_) 100 false;
   Endpoint "/list_requests" (Some list_requests_) 100 false;
   Endpoint "/modify_account_status" (Some modify_account_) (50 * 1024) false;
   Endpoint "/reject_requests" (Some reject_requests_) (50 * 1024) false;
   Endpoint "/rescan" (Some rescan_) (50 * 1024) false;
   Endpoint "/validate" (Some validate_) (50 * 1024) false;
   Endpoint "/webhook_add" (Some webhook_add_) (50 * 1024) false;
   Endpoint "/webhook_delete" (Some webhook_delete_) (50 * 1024) false;
   Endpoint "/webhook_delete_uuid" (Some webhook_del_uuid_) (50 * 1024) false;
   Endpoint "/webhook_list" (Some webhook_list_) 100 false].
Definition max_admin_endpoint_size : Z := get_max admin_endpoints.
Definition max_endpoint_size : Z := Z.max max_standard_endpoint_size max_admin_endpoint_size.

(** The order of byte strings. *)
Fixpoint bytes_lt (l r : list Z) : bool :=
  match l, r with
  | [], [] => false
  | [], _ :: _ => true
  | _ :: _, [] => false
  | a :: l, b :: r => if a =? b then bytes_lt l r else a <? b
  end.

(** The constant [feed] of [async_response], by the search of [get_endpoint]. *)
Definition is_feed (e : endpoint) : bool := bool_decide (name e = bytes_of_string "/feed").

(** [internal]: the prefixes of a port. *)
Record prefixes := Prefixes { prefix : option (list Z); admin_prefix : option (list Z) }.
Definition starts_with (uri p : list Z) : bool := bool_decide (take (length p) uri = p).

Definition find_handler (handlers : list endpoint) (uri : list Z) : option endpoint :=
  match handlers !! lower_bound (fun e => bytes_lt (name e) uri) handlers with
  | Some handler => if bool_decide (name handler = uri) then Some handler else None
  | None => None
  end.

Definition under (p : option (list Z)) (uri : list Z) : option (list Z) :=
  match p with
  | Some p => if starts_with uri p then Some (drop (length p) uri) else None
  | None => None
  end.

(** [internal::get_endpoint] *)
Definition get_endpoint (p : prefixes) (uri : list Z) : option endpoint :=
  match under (admin_prefix p) uri with
  | Some uri => find_handler admin_endpoints uri
  | None =>
    match under (prefix p) uri with
    | Some uri => find_handler endpoints uri
    | None => None
    end
  end.

#[export] Instance bytes_lt_total : TotalLt bytes_lt.
Proof.
  split.
  - intros l. induction l as [|a l IH]; [done|]. cbn. by rewrite Z.eqb_refl.
  - intros x. induction x as [|a x IH]; intros [|b y] [|c z] H1 H2; try done. cbn in *.
    destruct (Z.eqb_spec a b) as [->|], (Z.eqb_spec b c) as [->|]; rewrite ?Z.eqb_refl; rewrite ?Z.ltb_lt in *.
    + by eapply IH.
    + destruct (Z.eqb_spec b c); [lia|apply Z.ltb_lt; lia].
    + destruct (Z.eqb_spec a c); [lia|apply Z.ltb_lt; lia].
    + destruct (Z.eqb_spec a c); [lia|apply Z.ltb_lt; lia].
  - intros x. induction x as [|a x IH]; intros [|b y] H1 H2; try done. cbn in *. rewrite (Z.eqb_sym b a) in H2. destruct (Z.eqb_spec a b) as [->|].
    + f_equal. by apply IH.
    + rewrite Z.ltb_ge in *. lia.
Qed.

Lemma lower_bound_fmap {A B} (f : A -> B) (p : B -> bool) l : lower_bound p (f <$> l) = lower_bound (fun a => p (f a)) l.
Proof. induction l as [|a l IH]; [done|]. cbn. by rewrite <- IH. Qed.

(** The tables are sorted, as the constructor of [internal] asserts. *)
Lemma endpoints_sorted : sorted_by bytes_lt (name <$> endpoints).
Proof. vm_compute. repeat constructor. Qed.
Lemma admin_endpoints_sorted : sorted_by bytes_lt (name <$> admin_endpoints).
Proof. vm_compute. repeat constructor. Qed.

Lemma find_handler_exact handlers uri e :
  sorted_by bytes_lt (name <$> handlers) -> NoDup (name <$> handlers) -> (find_handler handlers uri = Some e <-> e ∈ handlers /\ name e = uri).
Proof.
  intros Hs Hd. unfold find_handler. pose proof (lower_bound_found bytes_lt uri (name <$> handlers) Hs) as H. rewrite lower_bound_fmap, list_lookup_fmap in H.
  destruct (handlers !! lower_bound _ handlers) as [h|] eqn:Eh.
  - destruct (bool_decide_reflect (name h = uri)) as [E|E]; split.
    + intros [= <-]. split; [by eapply list_elem_of_lookup_2|done].
    + intros [(j & Hj)%list_elem_of_lookup_1 <-]. f_equal.
      assert (lower_bound (fun e0 => bytes_lt (name e0) (name e)) handlers = j) as Ej.
      { eapply NoDup_lookup; [exact Hd| |]; rewrite list_lookup_fmap; [by rewrite Eh; cbn; rewrite E|by rewrite Hj]. }
      congruence.
    + done.
    + intros [He <-]. exfalso. apply E. assert (name e ∈ name <$> handlers) as Hin by (apply list_elem_of_fmap; by exists e). apply H in Hin. cbn in Hin. congruence.
  - split; [done|]. intros [He <-]. exfalso. assert (name e ∈ name <$> handlers) as Hin by (apply list_elem_of_fmap; by exists e). apply H in Hin. done.
Qed.

Lemma under_spec p uri rest : under p uri = Some rest <-> exists q, p = Some q /\ uri = q ++ rest.
Proof.
  unfold under, starts_with. destruct p as [q|]; [|split; [done|by intros (? & ? & _)]]. destruct (bool_decide_reflect (take (length q) uri = q)) as [E|E]; split.
  - intros [= <-]. exists q. split; [done|]. by rewrite <- E at 1; rewrite take_drop.
  - intros (q' & [= <-] & ->). by rewrite drop_app_length.
  - done.
  - intros (q' & [= <-] & ->). by rewrite take_app_length in E.
Qed.

(** A target is served by an endpoint exactly if it is the prefix of the port
    followed by the endpoint's name: by an administrator's endpoint under the
    administrator's prefix, and otherwise by a wallet's endpoint if the target does
    not start with the administrator's prefix. The binary search finds what a
    search through the table would. *)
Theorem get_endpoint_exact p uri e :
  get_endpoint p uri = Some e <->
  (exists q, admin_prefix p = Some q /\ e ∈ admin_endpoints /\ uri = q ++ name e) \/
  under (admin_prefix p) uri = None /\ exists q, prefix p = Some q /\ e ∈ endpoints /\ uri = q ++ name e.
Proof.
  assert (NoDup (name <$> admin_endpoints)) as Ha by (apply (bool_decide_unpack _); vm_compute; exact I).
  assert (NoDup (name <$> endpoints)) as He by (apply (bool_decide_unpack _); vm_compute; exact I).
  unfold get_endpoint. destruct (under (admin_prefix p) uri) as [rest|] eqn:Eu.
  - rewrite (find_handler_exact _ _ _ admin_endpoints_sorted Ha). apply under_spec in Eu as (q & Hq & ->). split.
    + intros [H1 <-]. left. by exists q.
    + intros [(q' & Hq' & H1 & H2)|[? _]]; [|done]. rewrite Hq in Hq'. injection Hq' as <-. by apply app_inv_head in H2.
  - destruct (under (prefix p) uri) as [rest|] eqn:Ep.
    + rewrite (find_handler_exact _ _ _ endpoints_sorted He). apply under_spec in Ep as (q & Hq & ->). split.
      * intros [H1 <-]. right. split; [done|]. by exists q.
      * intros [(q' & Hq' & _ & H2)|(_ & q' & Hq' & H1 & H2)].
        -- assert (under (admin_prefix p) (q ++ rest) = Some (name e)) as H by (apply under_spec; by exists q'). congruence.
        -- rewrite Hq in Hq'. injection Hq' as <-. by apply app_inv_head in H2.
    + split; [done|]. intros [(q' & Hq' & _ & H2)|(_ & q' & Hq' & H1 & H2)].
      * assert (under (admin_prefix p) uri = Some (name e)) as H by (apply under_spec; by exists q'). congruence.
      * assert (under (prefix p) uri = Some (name e)) as H by (apply under_spec; by exists q'). congruence.
Qed.

(** An administrator's prefix that starts the wallets' prefix hides every wallet
    endpoint. *)
Theorem admin_prefix_hides_wallets p q a e :
  admin_prefix p = Some a -> prefix p = Some (a ++ q) -> (forall h, h ∈ admin_endpoints -> name h <> q ++ name e) ->
  get_endpoint p ((a ++ q) ++ name e) = None.
Proof.
  intros Ha _ Hn. destruct (get_endpoint p _) as [h|] eqn:E; [|done]. exfalso. apply get_endpoint_exact in E as [(a' & Ha' & Hh & H2)|(Hu & _)].
  - rewrite Ha in Ha'. injection Ha' as <-. rewrite <- app_assoc in H2. apply app_inv_head in H2. by eapply Hn.
  - assert (under (admin_prefix p) ((a ++ q) ++ name e) = Some (q ++ name e)) as H by (apply under_spec; exists a; by rewrite app_assoc). congruence.
Qed.
End Routes.

(** ** Responses *)
Module Answer.
Import Routes.

Inductive errc := timed_out | no_lock_available | errc_bad_address | no_buffer_space | interrupted | result_out_of_range.
#[export] Instance errc_eq_dec : EqDecision errc.
Proof. solve_decision. Defined.

(** [default_error_condition] of src/error.cpp. *)
Definition default_error_condition (e : lws_error) : option errc :=
  match e with
  | bad_address | bad_view_key => Some errc_bad_address
  | daemon_timeout | load => Some timed_out
  | exceeded_blockchain_buffer => Some no_buffer_space
  | signal_abort_process | signal_abort_scan | signal_unknown => Some interrupted
  | system_clock_invalid_range => Some result_out_of_range
  | _ => None
  end.

Inductive verb := get | post | options | other_verb.
#[export] Instance verb_eq_dec : EqDecision verb.
Proof. solve_decision. Defined.

(** What the parser has read; [payload_size] is not known for every request. *)
Record request := Request {
  target : list Z;
  method : verb;
  origin : list Z;
  payload_size : option Z;
  body : list Z;
  rq_keep_alive : bool;
  is_upgrade : bool
}.

Record response := Response {
  rs_status : Z;
  rs_body : list Z;
  content_type : bool;
  vary : bool;
  allow_origin : option (list Z);
  allow_methods : bool;
  rs_keep_alive : bool
}.

Record http_response := HttpResponse { hr_value : list Z; hr_status : Z }.

Definition status_ok : Z := 200.
Definition status_bad_request : Z := 400.
Definition status_forbidden : Z := 403.
Definition status_not_found : Z := 404.
Definition status_method_not_allowed : Z := 405.
Definition status_conflict : Z := 409.
Definition status_internal_server_error : Z := 500.
Definition status_not_implemented : Z := 501.
Definition status_service_unavailable : Z := 503.

Record runtime_options := RuntimeOptions { access_controls : list (list Z); feed_timeout : Z }.

Definition star : list Z := [42].

Definition set_cors (origins : list (list Z)) (rq : request) (rs : response) : response :=
  match origins with
  | [] => rs
  | _ :: _ =>
    let rs := Response (rs_status rs) (rs_body rs) (content_type rs) true (allow_origin rs) (allow_methods rs) (rs_keep_alive rs) in
    if bool_decide (origin rq = []) then rs
    else if negb (bool_decide (star ∈ origins)) && negb (bool_decide (origin rq ∈ origins)) then rs
    else Response (rs_status rs) (rs_body rs) (content_type rs) true (Some (origin rq)) (bool_decide (method rq = options)) (rs_keep_alive rs)
  end.

(** [bad_request] with a status; [keep_alive_] is the request's. *)
Definition bad_status (o : runtime_options) (status : Z) (rq : request) : response :=
  set_cors (access_controls o) rq (Response status [] false false None false (rq_keep_alive rq)).

(** The conditions of the errors of other libraries are theirs. *)
Section errors.
Context (other_condition : error -> option errc).
Definition condition (e : error) : option errc := match e with lws_err e => default_error_condition e | _ => other_condition e end.
Definition is_rapidjson (e : error) : bool := match e with rapidjson_err _ => true | _ => false end.

Definition error_status (e : error) : Z :=
  if is_rapidjson e || bool_decide (e ∈ [lws_err invalid_range; lws_err not_enough_amount; lws_err bad_client_tx]) then status_bad_request
  else if bool_decide (e = lws_err bad_verb) then status_method_not_allowed
  else if bool_decide (e ∈ [lws_err account_not_found; lws_err duplicate_request]) then status_forbidden
  else if bool_decide (e = lws_err max_subaddresses) then status_conflict
  else if bool_decide (condition e = Some timed_out) || bool_decide (condition e = Some no_lock_available) then status_service_unavailable
  else status_internal_server_error.
Definition bad_request (o : runtime_options) (e : error) (rq : request) : response := bad_status o (error_status e) rq.

Definition valid_request (o : runtime_options) (value : list Z) (status : Z) (rq : request) : response :=
  set_cors (access_controls o) rq (Response status value true false None false (rq_keep_alive rq)).

(** The resumer of an asynchronous handler. *)
Definition resumed (o : runtime_options) (told : expect http_response) (rq : request) : response :=
  match told with Err e => bad_request o e rq | Ok r => valid_request o (hr_value r) (hr_status r) rq end.

Section respond.
Context {S : Type} (run_handler : handler -> verb -> list Z -> S -> expect (list Z) * S).
Context (feed_start : request -> S -> bool * S).

(** A response; a websocket that has taken the socket; or a handler that will call
    its resumer. *)
Inductive outcome := Responded (r : response) | Upgraded | Waiting.

(** The end of [async_response]: the handler is run. *)
Definition run_endpoint (o : runtime_options) (e : endpoint) (h : handler) (rq : request) (s : S) : outcome * S :=
  let '(value, s) := run_handler h (method rq) (body rq) s in
  (match value with
   | Err e => Responded (bad_request o e rq)
   | Ok value => if negb (is_async e) || negb (bool_decide (value = [])) then Responded (valid_request o value status_ok rq) else Waiting
   end, s).

Definition dispatch (o : runtime_options) (e : endpoint) (rq : request) (s : S) : outcome * S :=
  match run e with
  | None => (Responded (bad_status o status_not_implemented rq), s)
  | Some h =>
    let size := default u64_max (payload_size rq) in
    if max_size e <? size then (Responded (bad_status o status_bad_request rq), s)
    else if bool_decide (method rq = options) && negb (bool_decide (access_controls o = [])) then (Responded (bad_status o status_ok rq), s)
    else if negb (bool_decide (method rq = post)) && negb (bool_decide (method rq = get)) then (Responded (bad_status o status_method_not_allowed rq), s)
    else run_endpoint o e h rq s
  end.

Definition async_response (p : prefixes) (o : runtime_options) (rq : request) (s : S) : outcome * S :=
  match get_endpoint p (target rq) with
  | None => (Responded (bad_status o status_not_found rq), s)
  | Some e =>
    if is_feed e then
      let feed_disabled := feed_timeout o <=? 0 in
      if negb feed_disabled && is_upgrade rq then
        let '(started, s) := feed_start rq s in
        (if started then Upgraded else Responded (bad_status o status_bad_request rq), s)
      else if feed_disabled then (Responded (bad_status o status_not_found rq), s)
      else dispatch o e rq s
    else dispatch o e rq s
  end.

(** A response to [rq] gives no origin access but the one that asked, and only when
    it is configured; and it says that it depends on the origin. *)
Definition cors_ok (o : runtime_options) (rq : request) (r : response) : Prop :=
  vary r = negb (bool_decide (access_controls o = [])) /\
  forall a, allow_origin r = Some a -> a = origin rq /\ a <> [] /\ (star ∈ access_controls o \/ a ∈ access_controls o).

Lemma set_cors_ok o rq r : vary r = false -> allow_origin r = None -> cors_ok o rq (set_cors (access_controls o) rq r).
Proof.
  intros Hv Ha. unfold cors_ok, set_cors. destruct (access_controls o) as [|a l]; [by rewrite Hv, Ha|].
  destruct (bool_decide_reflect (origin rq = [])); [cbn; by rewrite Ha|].
  destruct (bool_decide_reflect (star ∈ a :: l)), (bool_decide_reflect (origin rq ∈ a :: l)); cbn; split; try done; try (intros b [= <-]; by auto); by rewrite Ha.
Qed.
Lemma bad_status_ok o st rq : cors_ok o rq (bad_status o st rq).
Proof. by apply set_cors_ok. Qed.
Lemma valid_request_ok o v st rq : cors_ok o rq (valid_request o v st rq).
Proof. by apply set_cors_ok. Qed.
Lemma resumed_ok o told rq : cors_ok o rq (resumed o told rq).
Proof. destruct told; [apply valid_request_ok|apply bad_status_ok]. Qed.

Lemma set_cors_keep_alive origins rq r : rs_keep_alive (set_cors origins rq r) = rs_keep_alive r.
Proof. unfold set_cors. destruct origins; [done|]. destruct (bool_decide _); [done|]. by destruct (_ && _). Qed.

(** When the handler of an endpoint may run. *)
Definition admissible (p : prefixes) (rq : request) (e : endpoint) (h : handler) : Prop :=
  get_endpoint p (target rq) = Some e /\ run e = Some h /\ (exists size, payload_size rq = Some size /\ size <= max_size e) /\
  (method rq = post \/ method rq = get).

Lemma get_endpoint_max p uri e : get_endpoint p uri = Some e -> max_size e <= max_endpoint_size /\ max_size e < u64_max.
Proof.
  intros H. assert (e ∈ admin_endpoints ++ endpoints) as He by (apply elem_of_app; apply get_endpoint_exact in H as [(q & _ & H & _)|(_ & q & _ & H & _)]; auto).
  assert (Forall (fun e => max_size e <= max_endpoint_size /\ max_size e < u64_max) (admin_endpoints ++ endpoints)) as Hall.
  { assert (max_endpoint_size = 524288) as -> by reflexivity. unfold u64_max. repeat constructor; cbn; lia. }
  rewrite Forall_forall in Hall. by apply Hall.
Qed.

Lemma dispatch_cases p o e rq s :
  get_endpoint p (target rq) = Some e ->
  (exists status, dispatch o e rq s = (Responded (bad_status o status rq), s)) \/
  exists h, admissible p rq e h /\ dispatch o e rq s = run_endpoint o e h rq s.
Proof.
  intros He. unfold dispatch. destruct (run e) as [h|] eqn:Er; [|left; by eexists].
  destruct (Z.ltb_spec (max_size e) (default u64_max (payload_size rq))) as [|Hs]; [left; by eexists|].
  destruct (bool_decide (method rq = options) && _); [left; by eexists|].
  destruct (bool_decide_reflect (method rq = post)), (bool_decide_reflect (method rq = get)); cbn; [| | |left; by eexists];
    right; exists h; (split; [|done]); split_and!; auto;
    (destruct (payload_size rq) as [size|]; [by exists size|]; apply get_endpoint_max in He; cbn in Hs; lia).
Qed.

Lemma run_endpoint_ok o e h rq s r : (run_endpoint o e h rq s).1 = Responded r -> cors_ok o rq r /\ rs_keep_alive r = rq_keep_alive rq.
Proof.
  unfold run_endpoint. destruct (run_handler h (method rq) (body rq) s) as [[value|err] s']; cbn.
  - destruct (negb _ || _); [|done]. intros [= <-]. split; [apply valid_request_ok|apply set_cors_keep_alive].
  - intros [= <-]. split; [apply bad_status_ok|apply set_cors_keep_alive].
Qed.

(** C27: A handler runs only for a POST or GET request to its endpoint whose body has
    a known size within the endpoint's limit; the feed starts only for an upgrade
    while it is configured; otherwise nothing changes and the response is an error
    or, for OPTIONS, empty. Every response gives access to no origin but the one
    that asked, and only when the configuration lists it. *)
Theorem async_response_guarded p o rq s :
  let '(out, s') := async_response p o rq s in
  (forall r, out = Responded r -> cors_ok o rq r /\ rs_keep_alive r = rq_keep_alive rq) /\
  ((exists status, out = Responded (bad_status o status rq) /\ s' = s) \/
   (exists e h, admissible p rq e h /\ (out, s') = run_endpoint o e h rq s) \/
   (0 < feed_timeout o /\ is_upgrade rq = true /\ s' = (feed_start rq s).2 /\
    out = if (feed_start rq s).1 then Upgraded else Responded (bad_status o status_bad_request rq))).
Proof.
  assert (forall status r, Responded (bad_status o status rq) = Responded r -> cors_ok o rq r /\ rs_keep_alive r = rq_keep_alive rq) as Hbad.
  { intros status r [= <-]. split; [apply bad_status_ok|apply set_cors_keep_alive]. }
  destruct (async_response p o rq s) as [out s'] eqn:E. unfold async_response in E.
  destruct (get_endpoint p (target rq)) as [e|] eqn:He.
  - assert (dispatch o e rq s = (out, s') -> (forall r, out = Responded r -> cors_ok o rq r /\ rs_keep_alive r = rq_keep_alive rq) /\
      ((exists status, out = Responded (bad_status o status rq) /\ s' = s) \/ (exists e h, admissible p rq e h /\ (out, s') = run_endpoint o e h rq s))) as Hd.
    { intros Ed. destruct (dispatch_cases p o e rq s He) as [[status H]|(h & Ha & H)]; rewrite Ed in H.
      - injection H as -> ->. split; [apply Hbad|]. left. by eexists.
      - split; [|right; by exists e, h]. intros r ->. apply (run_endpoint_ok o e h rq s). by rewrite <- H. }
    destruct (is_feed e); [|destruct (Hd E) as [H1 [H2|H2]]; split; auto].
    destruct (Z.leb_spec (feed_timeout o) 0); cbn [negb andb] in E.
    + injection E as <- <-. split; [apply Hbad|]. left. by eexists.
    + destruct (is_upgrade rq); [|destruct (Hd E) as [H1 [H2|H2]]; split; auto].
      destruct (feed_start rq s) as [started s1]. injection E as <- <-. cbn. split; [destruct started; [done|apply Hbad]|]. right. right. split_and!; try done.
  - injection E as <- <-. split; [apply Hbad|]. left. by eexists.
Qed.
End respond.
End errors.

End Answer.

(** ** A connection *)
Module Connection.
Import Routes Answer.

(** The operation that is under way in [handler_loop]. *)
Inductive phase := Handshaking | Reading | Pending (rq : request) | Writing (r : response) | Ended.

(** [timer_set]: [timer_] is waited for; [timeouts]: calls of [on_timeout] that are
    queued. [h_] are histories: the requests that were read in time, the responses
    that were made for them, and those written without an error. *)
Record conn (S : Type) := Conn {
  at_ : phase;
  timer_set : bool;
  timeouts : nat;
  open_ : bool;
  world : S;
  h_read : list request;
  h_answers : list response;
  h_written : list response
}.
Arguments Conn {S}. Arguments at_ {S}. Arguments timer_set {S}. Arguments timeouts {S}. Arguments open_ {S}. Arguments world {S}.
Arguments h_read {S}. Arguments h_answers {S}. Arguments h_written {S}.

Section connection.
Context {S : Type} (other_condition : error -> option errc) (run_handler : handler -> verb -> list Z -> S -> expect (list Z) * S).
Context (feed_start : request -> S -> bool * S) (p : prefixes) (o : runtime_options).

Definition with_phase (ph : phase) (c : conn S) : conn S := Conn ph (timer_set c) (timeouts c) (open_ c) (world c) (h_read c) (h_answers c) (h_written c).
Definition with_timer (b : bool) (c : conn S) : conn S := Conn (at_ c) b (timeouts c) (open_ c) (world c) (h_read c) (h_answers c) (h_written c).

(** [shutdown], after which the coroutine ends. *)
Definition shutdown (c : conn S) : conn S := Conn (at_ c) false (timeouts c) false (world c) (h_read c) (h_answers c) (h_written c).
Definition finish (c : conn S) : conn S := with_phase Ended (shutdown c).

(** [set_timeout]: false when the wait that should have been there is queued. *)
Definition set_timeout (existing : bool) (c : conn S) : bool * conn S :=
  if negb (timer_set c) && existing then (false, with_timer false c) else (true, with_timer true c).

(** The head of the loop; [not_first] as the source computes it. *)
Definition start_read (not_first : bool) (c : conn S) : conn S :=
  let '(ok, c) := set_timeout not_first c in if ok then with_phase Reading c else finish c.
Definition start_write (r : response) (c : conn S) : conn S :=
  let '(_, c) := set_timeout false c in
  Conn (Writing r) (timer_set c) (timeouts c) (open_ c) (world c) (h_read c) (h_answers c ++ [r]) (h_written c).

Definition accepted (ssl : bool) (s : S) : conn S :=
  let c := Conn Ended false 0 true s [] [] [] in
  if ssl then with_phase Handshaking (set_timeout false c).2 else start_read false c.

Inductive event :=
| Handshaken (ok : bool)
| Read (rq : option request)
| Told (told : expect http_response)
| Written (ok : bool)
| Expires
| Timeout.

Definition on_read (rq : request) (c : conn S) : conn S :=
  if timer_set c then
    let '(out, s) := async_response other_condition run_handler feed_start p o rq (world c) in
    let c := Conn (Pending rq) false (timeouts c) (open_ c) s (h_read c ++ [rq]) (h_answers c) (h_written c) in
    match out with
    | Responded r => start_write r c
    | Upgraded => with_phase Ended c
    | Waiting => c
    end
  else finish c.

Definition step (ev : event) (c : conn S) : option (conn S) :=
  match ev, at_ c with
  | Handshaken ok, Handshaking => Some (if ok then start_read true c else finish c)
  | Read None, Reading => Some (finish c)
  | Read (Some rq), Reading => Some (on_read rq c)
  | Told told, Pending rq => Some (start_write (resumed other_condition o told rq) c)
  | Written ok, Writing r =>
    if ok then
      let c := Conn (Writing r) (timer_set c) (timeouts c) (open_ c) (world c) (h_read c) (h_answers c) (h_written c ++ [r]) in
      Some (if rs_keep_alive r then start_read true c else finish c)
    else Some (finish c)
  | Expires, ph =>
    if timer_set c then Some (Conn ph false (Datatypes.S (timeouts c)) (open_ c) (world c) (h_read c) (h_answers c) (h_written c)) else None
  | Timeout, ph =>
    match timeouts c with
    | O => None
    | Datatypes.S n => Some (shutdown (Conn ph (timer_set c) n (open_ c) (world c) (h_read c) (h_answers c) (h_written c)))
    end
  | _, _ => None
  end.
Fixpoint run (evs : list event) (c : conn S) : option (conn S) :=
  match evs with
  | [] => Some c
  | ev :: evs => match step ev c with Some c => run evs c | None => None end
  end.

(** [r] answers [rq]: at once, or when the handler has told its result. *)
Definition answers (rq : request) (r : response) : Prop :=
  cors_ok o rq r /\ rs_keep_alive r = rq_keep_alive rq /\
  exists s, let out := (async_response other_condition run_handler feed_start p o rq s).1 in
    out = Responded r \/ out = Waiting /\ exists told, r = resumed other_condition o told rq.

(** The history of a phase: how many requests are answered, and how many answers are
    written. *)
Definition over (c : conn S) : Prop :=
  exists answered rest, h_read c = answered ++ rest /\ Forall2 answers answered (h_answers c) /\ (length rest <= 1)%nat /\
    exists last, h_answers c = h_written c ++ last /\ (length last <= 1)%nat.
Definition history_ok (c : conn S) : Prop :=
  match at_ c with
  | Handshaking => h_read c = [] /\ h_answers c = [] /\ h_written c = []
  | Reading => Forall2 answers (h_read c) (h_answers c) /\ h_written c = h_answers c
  | Pending rq =>
    exists old, h_read c = old ++ [rq] /\ Forall2 answers old (h_answers c) /\ h_written c = h_answers c /\
      exists s, (async_response other_condition run_handler feed_start p o rq s).1 = Waiting
  | Writing r => Forall2 answers (h_read c) (h_answers c) /\ h_answers c = h_written c ++ [r]
  | Ended => over c
  end.
(** Only the last answer may close the connection. *)
Definition kept_alive (c : conn S) : Prop :=
  match at_ c with
  | Ended => True
  | Writing _ => Forall (fun r => rs_keep_alive r = true) (h_written c)
  | _ => Forall (fun r => rs_keep_alive r = true) (h_answers c)
  end.
Definition timer_ok (c : conn S) : Prop :=
  (timeouts c <= 1)%nat /\ (timer_set c = true -> timeouts c = 0%nat /\ open_ c = true) /\
  match at_ c with
  | Handshaking | Reading | Writing _ => open_ c = true -> timer_set c = true \/ timeouts c = 1%nat
  | Pending _ => open_ c = true /\ timer_set c = false /\ timeouts c = 0%nat
  | Ended => timer_set c = false
  end.
Definition sound (c : conn S) : Prop := history_ok c /\ kept_alive c /\ timer_ok c.

Lemma answered_over c : Forall2 answers (h_read c) (h_answers c) -> (exists last, h_answers c = h_written c ++ last /\ (length last <= 1)%nat) -> over c.
Proof. intros H1 H2. exists (h_read c), []. rewrite app_nil_r. split_and!; try done. cbn. lia. Qed.
Lemma history_over c : history_ok c -> over c.
Proof.
  unfold history_ok. destruct (at_ c) as [| |rq|r|].
  - intros (H1 & H2 & H3). apply answered_over; rewrite ?H1, ?H2, ?H3; [done|]. exists []. split; [done|cbn; lia].
  - intros [H1 H2]. apply answered_over; [done|]. exists []. rewrite H2, app_nil_r. split; [done|cbn; lia].
  - intros (old & H1 & H2 & H3 & _). exists old, [rq]. split_and!; try done. exists []. rewrite H3, app_nil_r. split; [done|cbn; lia].
  - intros [H1 H2]. apply answered_over; [done|]. by exists [r].
  - done.
Qed.
Lemma finish_sound c : over c -> (timeouts c <= 1)%nat -> sound (finish c).
Proof. intros H Ht. split_and!; [exact H|done|]. by split_and!. Qed.

Lemma start_read_sound not_first c :
  Forall2 answers (h_read c) (h_answers c) -> h_written c = h_answers c -> Forall (fun r => rs_keep_alive r = true) (h_answers c) ->
  (timeouts c <= 1)%nat -> (timer_set c = true -> timeouts c = 0%nat /\ open_ c = true) ->
  (not_first = false -> timeouts c = 0%nat /\ open_ c = true) -> sound (start_read not_first c).
Proof.
  intros H1 H2 H3 H4 H5 H6. unfold start_read, set_timeout.
  assert (timeouts c = 0%nat -> open_ c = true -> sound (with_phase Reading (with_timer true c))) as Hr.
  { intros E1 E2. unfold sound, history_ok, kept_alive, timer_ok. cbn. rewrite E1, E2. split_and!; auto; lia. }
  destruct (timer_set c); cbn [negb andb]; [destruct (H5 eq_refl); by apply Hr|].
  destruct not_first; cbn [negb andb]; [|destruct (H6 eq_refl); by apply Hr].
  apply finish_sound; [|done]. apply (answered_over c H1). exists []. rewrite H2, app_nil_r. split; [done|cbn; lia].
Qed.

Lemma start_write_sound rq r old c :
  h_read c = old ++ [rq] -> Forall2 answers old (h_answers c) -> answers rq r -> h_written c = h_answers c ->
  Forall (fun r => rs_keep_alive r = true) (h_answers c) -> timeouts c = 0%nat -> open_ c = true -> sound (start_write r c).
Proof.
  intros H1 H2 H3 H4 H5 H6 H7. unfold start_write, set_timeout. rewrite andb_false_r. unfold sound, history_ok, kept_alive, timer_ok. cbn.
  rewrite H1, H4, H6, H7. split_and!; auto. apply Forall2_app; [done|]. by constructor.
Qed.

Lemma on_read_sound rq c : sound c -> at_ c = Reading -> sound (on_read rq c).
Proof.
  intros (H1 & H2 & H3 & H4 & H5) Ha. pose proof (history_over c H1) as Ho. unfold history_ok, kept_alive in *. rewrite Ha in *. destruct H1 as [H1 H6]. unfold on_read.
  destruct (timer_set c); [|by apply finish_sound]. destruct (H4 eq_refl) as [E1 E2].
  pose proof (async_response_guarded other_condition run_handler feed_start p o rq (world c)) as Hg.
  destruct (async_response other_condition run_handler feed_start p o rq (world c)) as [out s] eqn:Er. destruct Hg as [Hg _].
  assert (out = (async_response other_condition run_handler feed_start p o rq (world c)).1) as Eo by (by rewrite Er). destruct out as [r| |].
  - destruct (Hg r eq_refl) as [Hc Hk]. eapply (start_write_sound rq r (h_read c)); cbn; try done.
    unfold answers. split_and!; [done|done|]. exists (world c). left. by rewrite <- Eo.
  - unfold sound, history_ok, kept_alive, timer_ok. cbn. split_and!; try done. exists (h_read c), [rq]. cbn. split_and!; try done. exists []. rewrite H6, app_nil_r. split; [done|cbn; lia].
  - unfold sound, history_ok, kept_alive, timer_ok. cbn. split_and!; try done; try lia. exists (h_read c). split_and!; try done. exists (world c). by rewrite <- Eo.
Qed.

Lemma conn_step_sound ev c c' : sound c -> step ev c = Some c' -> sound c'.
Proof.
  intros Hs H. pose proof Hs as (H1 & H2 & H3 & H4 & H5). pose proof (history_over c H1) as Ho.
  destruct ev as [ok|[rq|]|told|ok| |]; unfold step in H.
  - destruct (at_ c) eqn:Ea; try done. injection H as <-. unfold history_ok, kept_alive in *. rewrite Ea in *. destruct H1 as (E1 & E2 & E3).
    destruct ok; [|by apply finish_sound]. apply start_read_sound; try done; rewrite ?E1, ?E2, ?E3; done.
  - destruct (at_ c) eqn:Ea; try done. injection H as <-. by apply on_read_sound.
  - destruct (at_ c); try done. injection H as <-. by apply finish_sound.
  - destruct (at_ c) as [| |rq| |] eqn:Ea; try done. injection H as <-. unfold history_ok, kept_alive in *. rewrite Ea in *.
    destruct H1 as (old & E1 & E2 & E3 & s & E4), H5 as (E5 & E6 & E7). eapply start_write_sound; try done.
    unfold answers. split_and!; [apply resumed_ok| |exists s; right; split; [done|by eexists]]. destruct told; apply set_cors_keep_alive.
  - destruct (at_ c) as [| | |r|] eqn:Ea; try done. unfold history_ok, kept_alive in *. rewrite Ea in *. destruct H1 as [E1 E2]. destruct ok; [|injection H as <-; by apply finish_sound].
    set (c1 := Conn _ _ _ _ _ _ _ _) in H. destruct (rs_keep_alive r) eqn:Ek; injection H as <-.
    + apply start_read_sound; try done. cbn. rewrite E2. apply Forall_app. split; [done|]. by constructor.
    + apply finish_sound; [|done]. apply (answered_over c1 E1). exists []. cbn. rewrite E2, app_nil_r. split; [done|cbn; lia].
  - destruct (timer_set c) eqn:Et; [|by destruct (at_ c)]. destruct (H4 eq_refl) as [E1 E2].
    assert (c' = Conn (at_ c) false (Datatypes.S (timeouts c)) (open_ c) (world c) (h_read c) (h_answers c) (h_written c)) as -> by (destruct (at_ c); congruence).
    split_and!; [exact H1|exact H2|]. unfold timer_ok. cbn. rewrite E1. split_and!; [done|done|]. destruct (at_ c); auto. by destruct H5 as (_ & ? & _).
  - destruct (timeouts c) as [|n] eqn:En; [by destruct (at_ c)|].
    assert (c' = shutdown (Conn (at_ c) (timer_set c) n (open_ c) (world c) (h_read c) (h_answers c) (h_written c))) as -> by (destruct (at_ c); congruence).
    split_and!; [exact H1|exact H2|]. unfold timer_ok. cbn. split_and!; [lia|done|]. destruct (at_ c); try done. by destruct H5 as (_ & _ & ?).
Qed.

Lemma conn_run_sound evs c c' : sound c -> run evs c = Some c' -> sound c'.
Proof.
  revert c. induction evs as [|ev evs IH]; intros c Hs H; cbn in H; [by injection H as <-|].
  destruct (step ev c) as [c1|] eqn:E; [|done]. eapply IH; [|exact H]. by eapply conn_step_sound.
Qed.

Lemma accepted_sound ssl s : sound (accepted ssl s).
Proof.
  destruct ssl; [|by apply start_read_sound; try constructor]. unfold sound, history_ok, kept_alive, timer_ok. cbn. split_and!; auto; lia.
Qed.

(** Once the socket is shut down nothing is read, handled or answered any more. *)
Lemma closed_step ev c c' : sound c -> open_ c = false -> step ev c = Some c' ->
  open_ c' = false /\ h_read c' = h_read c /\ h_answers c' = h_answers c /\ world c' = world c.
Proof.
  intros (_ & _ & H3 & H4 & H5) Hc H. assert (timer_set c = false) as Ht by (destruct (timer_set c); [destruct (H4 eq_refl); congruence|done]).
  destruct ev as [ok|[rq|]|told|ok| |]; unfold step in H.
  - destruct (at_ c); try done. injection H as <-. unfold start_read, set_timeout. rewrite Ht. by destruct ok.
  - destruct (at_ c); try done. injection H as <-. unfold on_read. by rewrite Ht.
  - destruct (at_ c); try done. by injection H as <-.
  - destruct (at_ c); try done. destruct H5 as [? _]. congruence.
  - destruct (at_ c); try done. destruct ok; [|by injection H as <-]. destruct (rs_keep_alive r); injection H as <-; [|done]. unfold start_read, set_timeout. cbn. by rewrite Ht.
  - rewrite Ht in H. by destruct (at_ c).
  - destruct (timeouts c); [by destruct (at_ c)|]. by destruct (at_ c); injection H as <-.
Qed.

(** C28: On a connection every request that is read is answered by one response of its
    own, in order, before the next one is read; only the last response ends the
    connection; while the connection waits for its peer a timeout is set or about to
    run, and after a timeout nothing is read, handled or answered. *)
Theorem one_answer_per_request ssl s evs c :
  run evs (accepted ssl s) = Some c ->
  (exists answered rest, h_read c = answered ++ rest /\ Forall2 answers answered (h_answers c) /\ (length rest <= 1)%nat /\
    ((exists rq, at_ c = Pending rq /\ rest = [rq]) \/ at_ c = Ended \/ rest = [])) /\
  (exists last, h_answers c = h_written c ++ last /\ (length last <= 1)%nat) /\
  (at_ c = Reading -> Forall (fun r => rs_keep_alive r = true) (h_written c)) /\
  (match at_ c with Handshaking | Reading | Writing _ => open_ c = true -> timer_set c = true \/ timeouts c = 1%nat | _ => True end) /\
  forall evs' c', open_ c = false -> run evs' c = Some c' -> h_read c' = h_read c /\ h_answers c' = h_answers c /\ world c' = world c.
Proof.
  intros H. pose proof (conn_run_sound evs _ c (accepted_sound ssl s) H) as Hs. pose proof Hs as (H1 & H2 & H3 & H4 & H5).
  pose proof (history_over c H1) as (answered & rest & E1 & E2 & E3 & E4). split_and!.
  - unfold history_ok in H1. destruct (at_ c) as [| |rq|r|].
    + destruct H1 as (-> & -> & _). exists [], []. split_and!; try done; [cbn; lia|auto].
    + destruct H1 as [H1 _]. exists (h_read c), []. rewrite app_nil_r. split_and!; try done; [cbn; lia|auto].
    + destruct H1 as (old & -> & H1 & _). exists old, [rq]. split_and!; try done. left. by exists rq.
    + destruct H1 as [H1 _]. exists (h_read c), []. rewrite app_nil_r. split_and!; try done; [cbn; lia|auto].
    + exists answered, rest. split_and!; auto.
  - exact E4.
  - intros Ha. unfold history_ok, kept_alive in *. rewrite Ha in *. destruct H1 as [_ ->]. done.
  - by destruct (at_ c).
  - clear H H1 H2 H3 H4 H5 E1 E2 E3 E4. intros evs'. revert c Hs. induction evs' as [|ev evs' IH]; intros c Hs c' Hc H; cbn in H; [by injection H as <-|].
    destruct (step ev c) as [c1|] eqn:E; [|done]. pose proof (conn_step_sound ev c c1 Hs E) as Hs1. destruct (closed_step ev c c1 Hs Hc E) as (F1 & F2 & F3 & F4).
    destruct (IH c1 Hs1 c' F1 H) as (-> & -> & ->). done.
Qed.
End connection.
End Connection.

(** ** Ports *)
Module Ports.
Import Routes.

(** What epee's [parse_url] makes of an address. *)
Record url_content := Url { schema : list Z; host : list Z; url_port : Z; uri : list Z; m_path : list Z }.
Record rest_configuration := Configuration { allow_external : bool; has_private_key : bool }.

(** A port that listens. *)
Record port := Port { pt_prefixes : prefixes; pt_host : list Z; pt_port : Z; pt_https : bool }.

Section ports.
(** [make_address]: whether a host is an IP address, and of the loopback network.
    [listen]: whether an acceptor can be bound, with the ports that are open. *)
Context (parse_url : list Z -> option url_content) (make_address : list Z -> option bool) (listen : list port -> port -> expect unit).

Definition https_schema : list Z := bytes_of_string "https".
Definition http_schema : list Z := bytes_of_string "http".
Definition slash : Z := 47.

Definition default_port (https : bool) (p : Z) : Z := if p =? 0 then (if https then 8443 else 8080) else p.

(** [rfind]: the last place of [s]. *)
Fixpoint rfind (s l : list Z) (i : nat) : option nat :=
  if bool_decide (take (length s) (drop i l) = s) then Some i
  else match i with O => None | S i => rfind s l i end.

(** The [while] loop: [admin] is sorted, [merged] is the prefix of the port. *)
Fixpoint merge (fuel : nat) (start : list Z) (url : url_content) (https : bool) (admin : list (list Z)) (merged : option (list Z))
    : option (expect (option (list Z) * list (list Z))) :=
  match fuel with
  | O => None
  | S fuel =>
    let i := lower_bound (fun a => bytes_lt a start) admin in
    match admin !! i with
    | None => Some (Ok (merged, admin))
    | Some mergeable =>
      match parse_url mergeable with
      | None => Some (Err (lws_err configuration))
      | Some admin_url =>
        if negb (bool_decide (host url = host admin_url)) || negb (url_port url =? default_port https (url_port admin_url)) then Some (Ok (merged, admin))
        else if is_some_b merged then Some (Err (lws_err configuration))
        else if (length (uri url) <? 2)%nat || (length (uri admin_url) <? 2)%nat then Some (Err (lws_err configuration))
        else if negb (bool_decide (head (uri admin_url) = Some slash)) then Some (Err (lws_err configuration))
        else if negb (bool_decide (uri admin_url = m_path admin_url)) then Some (Err (lws_err configuration))
        else merge fuel start url https (delete i admin) (Some (m_path admin_url))
      end
    end
  end.

(** [init_port]: the port, and the administrators' addresses that are left. *)
Definition init_port (config : rest_configuration) (ports : list port) (address : list Z) (is_admin : bool) (admin : list (list Z))
    : expect (port * list (list Z)) :=
  match parse_url address with
  | None => Err (lws_err configuration)
  | Some url =>
    let https := bool_decide (schema url = https_schema) in
    if negb https && negb (bool_decide (schema url = http_schema)) then Err (lws_err configuration)
    else if u16_max <? url_port url then Err (lws_err configuration)
    else if negb (bool_decide (uri url = [])) && negb (bool_decide (head (uri url) = Some slash)) then Err (lws_err configuration)
    else
      let external :=
        if https then Ok tt
        else
          match make_address (host url) with
          | None => Err (lws_err configuration)
          | Some loopback => if negb loopback && negb (allow_external config) then Err (lws_err configuration) else Ok tt
          end in
      match external with
      | Err e => Err e
      | Ok _ =>
        let url := Url (schema url) (host url) (default_port https (url_port url)) (uri url) (m_path url) in
        let merged :=
          if is_admin then Ok (None, admin)
          else
            let start := match rfind (uri url) address (length address) with Some i => take i address | None => address end in
            default (Ok (None, admin)) (merge (S (S (length admin))) start url https admin None) in
        match merged with
        | Err e => Err e
        | Ok (merged, admin) =>
          if negb (bool_decide (uri url = m_path url)) then Err (lws_err configuration)
          else
            let path := if (length (uri url) <? 2)%nat then [] else m_path url in
            let p := Port (if is_admin then Prefixes None (Some path) else Prefixes (Some path) merged) (host url) (url_port url) https in
            let* _ := listen ports p in
            Ok (p, admin)
        end
      end
  end.

Fixpoint init_ports (config : rest_configuration) (is_admin : bool) (addresses : list (list Z)) (ports : list port) (admin : list (list Z))
    : expect (list port * list (list Z)) :=
  match addresses with
  | [] => Ok (ports, admin)
  | address :: addresses =>
    let* r := init_port config ports address is_admin admin in
    init_ports config is_admin addresses (ports ++ [r.1]) r.2
  end.

(** The constructor. *)
Definition rest_server (config : rest_configuration) (addresses admin : list (list Z)) : expect (list port) :=
  match addresses with
  | [] => Err kInvalidArgument
  | _ :: _ =>
    let* r := init_ports config false addresses [] (std_sort bytes_lt admin) in
    let* r := init_ports config true r.2 r.1 [] in
    if negb (existsb pt_https r.1) && has_private_key config then Err (lws_err configuration) else Ok r.1
  end.

(** The path a port takes from an address. *)
Definition path_of (url : url_content) : list Z := if (length (uri url) <? 2)%nat then [] else m_path url.
Definition at_address (address : list Z) (p : port) (path : list Z) : Prop :=
  exists url, parse_url address = Some url /\ path = path_of url /\ pt_host p = host url /\ pt_port p = default_port (pt_https p) (url_port url).
Definition serves_wallets (p : port) (address : list Z) : Prop := exists path, prefix (pt_prefixes p) = Some path /\ at_address address p path.
Definition serves_admin (p : port) (address : list Z) : Prop := exists path, admin_prefix (pt_prefixes p) = Some path /\ at_address address p path.
Definition safe (config : rest_configuration) (p : port) : Prop :=
  0 < pt_port p <= u16_max /\ (pt_https p = true \/ make_address (pt_host p) = Some true \/ allow_external config = true /\ is_Some (make_address (pt_host p))).

Lemma merge_once fuel start url https admin prefix' r :
  merge (S fuel) start url https admin (Some prefix') = r -> r = Some (Ok (Some prefix', admin)) \/ exists e, r = Some (Err e).
Proof.
  cbn. destruct (admin !! _) as [a|]; [|by intros <-; left]. destruct (parse_url a) as [admin_url|]; [|intros <-; right; by eexists].
  destruct (_ || _); [by intros <-; left|]. intros <-. right. by eexists.
Qed.

Lemma merge_ok fuel start url https admin :
  exists r, merge (S (S fuel)) start url https admin None = Some r /\
    forall merged admin', r = Ok (merged, admin') ->
      merged = None /\ admin' = admin \/
      exists i a admin_url, admin !! i = Some a /\ admin' = delete i admin /\ parse_url a = Some admin_url /\ merged = Some (path_of admin_url) /\
        host url = host admin_url /\ url_port url = default_port https (url_port admin_url).
Proof.
  remember (S fuel) as n eqn:En. cbn [merge]. set (i := lower_bound _ admin). destruct (admin !! i) as [a|] eqn:Ei; [|eexists; split; [reflexivity|intros m ad [= <- <-]; by left]].
  destruct (parse_url a) as [admin_url|] eqn:Ea; [|by eexists].
  destruct (bool_decide_reflect (host url = host admin_url)) as [Eh|]; [|eexists; split; [reflexivity|intros m ad [= <- <-]; by left]].
  destruct (Z.eqb_spec (url_port url) (default_port https (url_port admin_url))) as [Ep|]; [|eexists; split; [reflexivity|intros m ad [= <- <-]; by left]].
  cbn [negb orb is_some_b]. destruct (length (uri url) <? 2)%nat; [by eexists|]. destruct (length (uri admin_url) <? 2)%nat eqn:El; [by eexists|]. cbn [orb].
  destruct (negb (bool_decide (head (uri admin_url) = _))); [by eexists|]. destruct (negb (bool_decide (uri admin_url = _))); [by eexists|].
  subst n. destruct (merge_once fuel start url https (delete i admin) (m_path admin_url) _ eq_refl) as [H|[e H]]; rewrite H.
  - eexists. split; [reflexivity|]. intros m ad [= <- <-]. right. exists i, a, admin_url. unfold path_of. rewrite El. done.
  - eexists. split; [reflexivity|]. done.
Qed.

Lemma init_port_ok config ports address is_admin admin p admin' :
  (forall a url, parse_url a = Some url -> 0 <= url_port url) ->
  init_port config ports address is_admin admin = Ok (p, admin') ->
  safe config p /\ (if is_admin then serves_admin p address /\ admin' = admin else serves_wallets p address) /\
  (admin' = admin \/ exists i a, admin !! i = Some a /\ admin' = delete i admin /\ serves_admin p a).
Proof.
  intros Hpos. unfold init_port. destruct (parse_url address) as [url|] eqn:Eu; [|done]. specialize (Hpos _ _ Eu).
  set (https := bool_decide (schema url = https_schema)). destruct (negb https && _); [done|].
  destruct (Z.ltb_spec u16_max (url_port url)); [done|]. destruct (negb (bool_decide (uri url = [])) && _); [done|].
  destruct (if https then Ok tt else _) as [ext|] eqn:Ee; [|done].
  set (url' := Url (schema url) (host url) (default_port https (url_port url)) (uri url) (m_path url)).
  set (start := match rfind _ _ _ with Some i => take i address | None => address end).
  assert (https = true \/ make_address (host url) = Some true \/ allow_external config = true /\ is_Some (make_address (host url))) as Hsafe.
  { destruct https; [by left|]. destruct (make_address (host url)) as [[]|]; [by right; left| |discriminate]. right. right.
    destruct (allow_external config); [split; [done|by eexists]|discriminate]. }
  assert (0 < default_port https (url_port url) <= u16_max) as Hport by (unfold default_port, u16_max in *; destruct (Z.eqb_spec (url_port url) 0), https; lia).
  destruct is_admin.
  - destruct (negb (bool_decide (uri url' = m_path url'))); [done|]. destruct (listen _ _); [|done]. intros [= <- <-]. split; [by split|]. split; [split; [|done]|by left].
    exists (path_of url). split; [done|]. exists url. done.
  - destruct (merge_ok (length admin) start url' https admin) as (r & E & Hr). rewrite E. cbn [default]. unfold id. destruct r as [[merged ad]|]; [|done].
    destruct (negb (bool_decide (uri url' = m_path url'))); [done|]. cbv zeta. match goal with |- context [listen ports ?q] => destruct (listen ports q); [|done] end. intros [= <- <-].
    split; [by split|]. split; [exists (path_of url); split; [done|]; by exists url|].
    destruct (Hr _ _ eq_refl) as [[-> ->]|(i & b & admin_url & H1 & H2 & H3 & H4 & H5 & H6)]; [by left|]. right. exists i, b. split_and!; try done.
    exists (path_of admin_url). split; [by rewrite H4|]. exists admin_url. done.
Qed.

Lemma init_ports_ok config is_admin addresses ports admin ports' admin' :
  (forall a url, parse_url a = Some url -> 0 <= url_port url) ->
  init_ports config is_admin addresses ports admin = Ok (ports', admin') ->
  exists new, ports' = ports ++ new /\ Forall (safe config) new /\
    Forall2 (if is_admin then serves_admin else serves_wallets) new addresses /\
    (forall a, a ∈ admin -> a ∈ admin' \/ exists p, p ∈ new /\ serves_admin p a) /\ (is_admin = true -> admin' = admin).
Proof.
  intros Hpos. revert ports admin. induction addresses as [|address addresses IH]; intros ports admin H; cbn [init_ports] in H.
  - injection H as <- <-. exists []. rewrite app_nil_r. split_and!; auto.
  - destruct (init_port config ports address is_admin admin) as [[p admin1]|] eqn:E; [|done]. cbn [ebind fst snd] in H.
    destruct (init_port_ok _ _ _ _ _ _ _ Hpos E) as (H1 & H2 & H3). destruct (IH _ _ H) as (new & -> & H4 & H5 & H6 & H7).
    exists (p :: new). rewrite <- app_assoc. split_and!; [done|by constructor|constructor; [destruct is_admin; [apply H2|done]|done]| |].
    + intros a Ha. assert (a ∈ admin1 \/ serves_admin p a) as [Ha1|Ha1].
      { destruct H3 as [->|(i & b & Hb & -> & Hs)]; [by left|]. apply list_elem_of_lookup_1 in Ha as [j Hj].
        destruct (decide (j = i)) as [->|Hne]; [right; congruence|]. left. destruct (decide (j < i)%nat).
        - eapply list_elem_of_lookup_2. by rewrite list_lookup_delete_lt.
        - apply (list_elem_of_lookup_2 _ (pred j)). rewrite list_lookup_delete_ge by lia. by replace (S (pred j)) with j by lia. }
      * destruct (H6 a Ha1) as [?|(p' & Hp & ?)]; [by left|]. right. exists p'. split; [by right|done].
      * right. exists p. split; [left|done].
    + intros ->. rewrite H7 by done. by destruct H2.
Qed.

(** A server that starts has one port for every address of the wallets, in their
    order, and serves every administrator's address on one of its ports, merged or of
    its own, with the path of the address; and no port without TLS is open to other
    machines unless the configuration says so. *)
Theorem every_address_served config addresses admin ports :
  (forall a url, parse_url a = Some url -> 0 <= url_port url) ->
  rest_server config addresses admin = Ok ports ->
  Forall (safe config) ports /\
  (exists wallets admins, ports = wallets ++ admins /\ Forall2 serves_wallets wallets addresses) /\
  (forall a, a ∈ admin -> exists p, p ∈ ports /\ serves_admin p a) /\
  (has_private_key config = true -> exists p, p ∈ ports /\ pt_https p = true).
Proof.
  intros Hpos. unfold rest_server. destruct addresses as [|a0 l]; [done|]. set (addresses := a0 :: l).
  destruct (init_ports config false addresses [] _) as [[ports1 admin1]|] eqn:E1; [|done]. cbn [ebind fst snd].
  destruct (init_ports config true admin1 ports1 []) as [[ports2 admin2]|] eqn:E2; [|done]. cbn [ebind fst snd].
  destruct (negb (existsb pt_https ports2) && has_private_key config) eqn:Ek; [done|]. intros [= <-].
  destruct (init_ports_ok _ _ _ _ _ _ _ Hpos E1) as (wallets & -> & H1 & H2 & H3 & _). destruct (init_ports_ok _ _ _ _ _ _ _ Hpos E2) as (admins & -> & H4 & H5 & _).
  cbn [app] in *. split_and!.
  - by apply Forall_app.
  - by exists wallets, admins.
  - intros a Ha. destruct (H3 a) as [Hin|(p & Hp & Hs)]; [by rewrite std_sort_perm| |exists p; split; [apply elem_of_app; by left|done]].
    apply list_elem_of_lookup_1 in Hin as [j Hj]. destruct (Forall2_lookup_r _ _ _ _ _ H5 Hj) as (p & Hp & Hs). exists p. split; [|done].
    apply elem_of_app. right. by eapply list_elem_of_lookup_2.
  - intros Hk. rewrite Hk, andb_true_r in Ek. apply negb_false_iff, existsb_exists in Ek as (p & Hp & Hh). exists p. split; [by apply list_elem_of_In|done].
Qed.
End ports.
End Ports.

(** ** Samples *)
Module RestServerSample.
Import Routes Answer Connection Ports.
Definition b := bytes_of_string.

Definition ports_prefixes : prefixes := Prefixes (Some (b "/basic")) (Some (b "/admin")).
Example login_found : max_size <$> get_endpoint ports_prefixes (b "/basic/login") = Some 2048.
Proof. vm_compute. reflexivity. Qed.
Example query_not_found : get_endpoint ports_prefixes (b "/basic/login?x=1") = None.
Proof. vm_compute. reflexivity. Qed.
(** The administrator's prefix starts the wallets'. *)
Example hidden : get_endpoint (Prefixes (Some (b "/api/v1")) (Some (b "/api"))) (b "/api/v1/login") = None.
Proof. vm_compute. reflexivity. Qed.

(** A handler that counts its calls; those of [get_unspent_outs] answer later. *)
Definition run_handler (h : handler) (v : verb) (body : list Z) (s : nat) : expect (list Z) * nat :=
  match h with
  | get_unspent_outs => (Ok [], S s)
  | login => (match v with post => Ok (b "{}") | _ => Err (lws_err bad_verb) end, S s)
  | _ => (Err (lws_err account_not_found), S s)
  end.
Definition feed_start (rq : request) (s : nat) : bool * nat := (true, s).
Definition no_condition (e : error) : option errc := None.
Definition opts : runtime_options := RuntimeOptions [b "https://wallet"] 0.

Definition ask (name : string) (v : verb) (from : string) (keep : bool) : request := Request (b name) v (b from) (Some 100) [] keep false.
Definition evs : list event :=
  [Handshaken true; Read (Some (ask "/basic/login" post "https://wallet" true)); Written true;
   Read (Some (ask "/basic/get_unspent_outs" post "https://other" false)); Told (Err (lws_err daemon_timeout)); Expires; Written true].
Definition ended : conn nat := default (accepted false 0%nat) (run no_condition run_handler feed_start ports_prefixes opts evs (accepted true 0%nat)).
Example answered : (fun r => (rs_status r, allow_origin r, vary r)) <$> h_written ended = [(200, Some (b "https://wallet"), true); (503, None, true)].
Proof. vm_compute. reflexivity. Qed.

Lemma one_answer_per_request_witness :
  exists answered rest, h_read ended = answered ++ rest /\ Forall2 (answers no_condition run_handler feed_start ports_prefixes opts) answered (h_answers ended) /\ (length rest <= 1)%nat.
Proof.
  destruct (one_answer_per_request no_condition run_handler feed_start ports_prefixes opts true 0%nat evs ended ltac:(vm_compute; reflexivity))
    as ((answered & rest & H1 & H2 & H3 & _) & _).
  exists answered, rest. split; [exact H1|]. split; [exact H2|exact H3].
Defined.

(** Addresses of the form https://h:8443/path and https://h/path. *)
Definition parse_url (a : list Z) : option url_content :=
  if bool_decide (a = b "https://h:8443/basic") then Some (Url (b "https") (b "h") 8443 (b "/basic") (b "/basic"))
  else if bool_decide (a = b "https://h:8443/admin") then Some (Url (b "https") (b "h") 8443 (b "/admin") (b "/admin"))
  else if bool_decide (a = b "https://h/admin") then Some (Url (b "https") (b "h") 0 (b "/admin") (b "/admin"))
  else if bool_decide (a = b "http://127.0.0.1") then Some (Url (b "http") (b "127.0.0.1") 0 [] [])
  else None.
Definition make_address (h : list Z) : option bool := if bool_decide (h = b "127.0.0.1") then Some true else None.
(** A port is bound once. *)
Definition listen (ports : list port) (p : port) : expect unit :=
  if existsb (fun q => bool_decide (pt_host q = pt_host p) && (pt_port q =? pt_port p)) ports then Err runtime_error else Ok tt.
Definition config : rest_configuration := Configuration false true.
Definition server := rest_server parse_url make_address listen config.

Definition both : list port := [Port (Prefixes (Some (b "/basic")) (Some (b "/admin"))) (b "h") 8443 true; Port (Prefixes (Some []) None) (b "127.0.0.1") 8080 false].
Example both_started : server [b "https://h:8443/basic"; b "http://127.0.0.1"] [b "https://h:8443/admin"] = Ok both.
Proof. vm_compute. reflexivity. Qed.
(** The same two servers, one with the default port left out: they are not merged, and
    the second one finds its port taken. *)
Example not_merged : server [b "https://h:8443/basic"] [b "https://h/admin"] = Err runtime_error.
Proof. vm_compute. reflexivity. Qed.

(** An administrator's https address with the host and port of an http one: it is
    merged, and so served in the clear. *)
Definition parse_mixed (a : list Z) : option url_content :=
  if bool_decide (a = b "http://127.0.0.1:80/basic") then Some (Url (b "http") (b "127.0.0.1") 80 (b "/basic") (b "/basic"))
  else if bool_decide (a = b "https://127.0.0.1:80/admin") then Some (Url (b "https") (b "127.0.0.1") 80 (b "/admin") (b "/admin"))
  else None.
Example https_admin_in_the_clear :
  rest_server parse_mixed make_address listen (Configuration false false) [b "http://127.0.0.1:80/basic"] [b "https://127.0.0.1:80/admin"] =
  Ok [Port (Prefixes (Some (b "/basic")) (Some (b "/admin"))) (b "127.0.0.1") 80 false].
Proof. vm_compute. reflexivity. Qed.

Lemma parse_url_ports a url : parse_url a = Some url -> 0 <= url_port url.
Proof. unfold parse_url. repeat (destruct (bool_decide _); [by intros [= <-]|]). done. Qed.
Lemma every_address_served_witness :
  Forall (safe make_address config) both /\ (forall a, a ∈ [b "https://h:8443/admin"] -> exists p, p ∈ both /\ serves_admin parse_url p a).
Proof.
  destruct (every_address_served parse_url make_address listen config [b "https://h:8443/basic"; b "http://127.0.0.1"] [b "https://h:8443/admin"] both
    parse_url_ports ltac:(vm_compute; reflexivity)) as (H1 & _ & H3 & _).
  split; [exact H1|exact H3].
Defined.
End RestServerSample.
