(* ===== verification/WalletJson.v ===== *)
(** The messages of wallets (src/rpc/light_wallet.cpp): how the requests of the
    REST server are read from JSON (module [Requests]), what the responses and the
    messages of the feed are on the wire (modules [Responses], [FeedWire]), and
    the exchange rates of src/rpc/rates.cpp (module [RatesJson]). *)

From stdpp Require Import gmap.
From S2P Require Import Prelude Wire Data DataWire OwnershipTest RandomOutputs Transactions Rest RestQueue Feed Json JsonSample.
Import Readings.

(** ** Requests *)
Module Requests.
Section requests.
Context `{RJ : RapidJson}.
(** [lws::db::address_string]: the address of a text, with the network checked. *)
Context (address_string : list Z -> expect account_address).

Definition convert_address (source : list Z) : expect account_address :=
  match address_string source with Ok bytes => Ok bytes | Err _ => Err (schema_err schema_fixed_binary) end.

(** The credentials in a request: the text of the address is converted when all
    fields have been read. *)
Definition credentials (address : list Z) (key : secret_key) : expect account_credentials :=
  let* address := convert_address address in Ok (AccountCredentials address key).

Definition read_address_index : reading address_index :=
  read_slots [required "maj_i" (read_unsigned u32_max) (fun i x => AddressIndex i (Data.min_i x));
              required "min_i" (read_unsigned u32_max) (fun i x => AddressIndex (Data.maj_i x) i)] (AddressIndex 0 0).

Definition read_account_credentials : reading account_credentials :=
  converted (read_slots [required "address" read_string (fun a '(_, k) => (a, k));
                         required "view_key" (read_blob 32) (fun k '(a, _) => (a, k))] ([] : list Z, 0))
    (fun '(a, k) => credentials a k).

Definition read_get_address_txs_request : reading (account_credentials * bool) :=
  converted (read_slots [required "address" read_string (fun a '(_, k, r) => (a, k, r));
                         required "view_key" (read_blob 32) (fun k '(a, _, r) => (a, k, r));
                         defaulted "receives" read_bool (fun r '(a, k, _) => (a, k, r)) false] ([] : list Z, 0, false))
    (fun '(a, k, r) => let* creds := credentials a k in Ok (creds, r)).

(** [safe_uint64_array]: a loop of its own, without limits on the size. *)
Fixpoint safe_array_loop (fuel : nat) (count : Z) (values : list Z) (r : JsonReader.reader) : expect (list Z * JsonReader.reader) :=
  match fuel with
  | O => Err logic_error
  | S fuel =>
    let* er := JsonReader.is_array_end count r in
    if er.1 then Ok (values, er.2)
    else
      let* vr := JsonReader.safe_unsigned_integer er.2 in
      let* v := cast_unsigned u64_max vr.1 in
      safe_array_loop fuel (u64 (count - 1)) (values ++ [v]) vr.2
  end.
Definition read_safe_array_bytes (r : JsonReader.reader) : expect (list Z * JsonReader.reader) :=
  let* cr := JsonReader.start_array r in
  let* vr := safe_array_loop (S (length (JsonReader.remaining cr.2))) cr.1 [] cr.2 in
  let* r := JsonReader.end_array vr.2 in Ok (vr.1, r).
Definition read_safe_uint64_array : reading (list Z) :=
  Reading read_safe_array_bytes
    (fun d v => match v with
                | WArr l =>
                  if d + 1 =? JsonReader.max_read_depth then Err (schema_err schema_maximum_depth)
                  else efold (fun vs x => let* y := of_tree read_safe_uint64 (d + 1) x in Ok (vs ++ [y])) [] l
                | _ => Err (schema_err schema_array)
                end)
    (fun v => match v with WArr l => Z.of_nat (length l) <= u64_max /\ Forall (fits read_safe_uint64) l | _ => True end).

Definition read_get_random_outs_request : reading (Z * list Z) :=
  read_slots [required "count" (read_unsigned u64_max) (fun c '(_, a) => (c, a));
              required "amounts" read_safe_uint64_array (fun a '(c, _) => (c, a))] (0, [] : list Z).

Definition unspent_slots : list (slot (list Z * Z * Z * option Z * option bool * option Z)) :=
  [required "address" read_string (fun a '(_, k, m, x, u, t) => (a, k, m, x, u, t));
   required "view_key" (read_blob 32) (fun k '(a, _, m, x, u, t) => (a, k, m, x, u, t));
   required "amount" read_safe_uint64 (fun m '(a, k, _, x, u, t) => (a, k, m, x, u, t));
   optional "mixin" (read_unsigned u32_max) (fun x '(a, k, m, _, u, t) => (a, k, m, x, u, t));
   optional "use_dust" read_bool (fun u '(a, k, m, x, _, t) => (a, k, m, x, u, t));
   optional "dust_threshold" read_safe_uint64 (fun t '(a, k, m, x, u, _) => (a, k, m, x, u, t))].
Definition read_get_unspent_outs_request : reading get_unspent_outs_request :=
  converted (read_slots unspent_slots
               ([] : list Z, 0, 0, None, None, None))
    (fun '(a, k, m, x, u, t) => let* creds := credentials a k in Ok (GetUnspentOutsRequest m t x u creds)).

Definition read_import_request : reading import_request_ :=
  converted (read_slots [required "address" read_string (fun a '(_, k, h, l) => (a, k, h, l));
                         required "view_key" (read_blob 32) (fun k '(a, _, h, l) => (a, k, h, l));
                         defaulted "from_height" (read_unsigned u64_max) (fun h '(a, k, _, l) => (a, k, h, l)) 0;
                         defaulted "lookahead" read_address_index (fun l '(a, k, h, _) => (a, k, h, l)) (AddressIndex 0 0)]
               ([] : list Z, 0, 0, AddressIndex 0 0))
    (fun '(a, k, h, l) => let* creds := credentials a k in Ok (ImportRequest creds h l)).

Definition login_slots : list (slot (list Z * Z * address_index * bool * bool)) :=
  [required "address" read_string (fun a '(_, k, l, c, g) => (a, k, l, c, g));
   required "view_key" (read_blob 32) (fun k '(a, _, l, c, g) => (a, k, l, c, g));
   defaulted "lookahead" read_address_index (fun l '(a, k, _, c, g) => (a, k, l, c, g)) (AddressIndex 0 0);
   required "create_account" read_bool (fun c '(a, k, l, _, g) => (a, k, l, c, g));
   required "generated_locally" read_bool (fun g '(a, k, l, c, _) => (a, k, l, c, g))].
Definition read_login_request : reading login_request :=
  converted (read_slots login_slots
               ([] : list Z, 0, AddressIndex 0 0, false, false))
    (fun '(a, k, l, c, g) => let* creds := credentials a k in Ok (LoginRequest creds l c g)).

Definition read_provision_subaddrs_request : reading provision_subaddrs_request :=
  converted (read_slots [required "address" read_string (fun a '(_, k, x, y, n, m, g) => (a, k, x, y, n, m, g));
                         required "view_key" (read_blob 32) (fun k '(a, _, x, y, n, m, g) => (a, k, x, y, n, m, g));
                         optional "maj_i" (read_unsigned u32_max) (fun x '(a, k, _, y, n, m, g) => (a, k, x, y, n, m, g));
                         optional "min_i" (read_unsigned u32_max) (fun y '(a, k, x, _, n, m, g) => (a, k, x, y, n, m, g));
                         optional "n_maj" (read_unsigned u32_max) (fun n '(a, k, x, y, _, m, g) => (a, k, x, y, n, m, g));
                         optional "n_min" (read_unsigned u32_max) (fun m '(a, k, x, y, n, _, g) => (a, k, x, y, n, m, g));
                         optional "get_all" read_bool (fun g '(a, k, x, y, n, m, _) => (a, k, x, y, n, m, g))]
               ([] : list Z, 0, None, None, None, None, None))
    (fun '(a, k, x, y, n, m, g) => let* creds := credentials a k in Ok (ProvisionSubaddrsRequest creds x y n m g)).

Definition read_submit_raw_tx_request : reading (list Z) :=
  read_slots [required "tx" read_string (fun t _ => t)] [].

(** [subaddress_dict] and its [index_ranges], whose elements take two bytes or
    more. *)
Definition read_subaddress_dict : reading subaddress_dict :=
  converted (read_slots [required "key" (read_unsigned u32_max) (fun k d => (k, d.2));
                         cleared "value" (read_vector (read_pair (read_unsigned u32_max)) 2 u64_max) (fun rs d => (d.1, rs)) []]
               (0, [] : index_ranges))
    (fun d => if check_subaddress_dict d then Ok d else Err (schema_err schema_array)).

Definition max_subaddrs : Z := 16384.
Definition upsert_slots : list (slot (list Z * Z * list subaddress_dict * option bool)) :=
  [required "address" read_string (fun a '(_, k, s, g) => (a, k, s, g));
   required "view_key" (read_blob 32) (fun k '(a, _, s, g) => (a, k, s, g));
   cleared "subaddrs" (read_vector read_subaddress_dict 0 max_subaddrs) (fun s '(a, k, _, g) => (a, k, s, g)) [];
   optional "get_all" read_bool (fun g '(a, k, s, _) => (a, k, s, g))].
Definition read_upsert_subaddrs_request : reading upsert_subaddrs_request :=
  converted (read_slots upsert_slots
               ([] : list Z, 0, [] : list subaddress_dict, None))
    (fun '(a, k, s, g) => let* creds := credentials a k in Ok (UpsertSubaddrsRequest creds s g)).

(** The login of the feed, from JSON. *)
Definition read_feed_login : reading Messages.feed_login :=
  read_slots [required "account" read_account_credentials (fun a l => Messages.FeedLogin a (Messages.fl_tx_sync l) (Messages.fl_receives_only l));
              defaulted "tx_sync" read_bool (fun b l => Messages.FeedLogin (Messages.fl_account l) b (Messages.fl_receives_only l)) true;
              defaulted "receives_only" read_bool (fun b l => Messages.FeedLogin (Messages.fl_account l) (Messages.fl_tx_sync l) b) false]
    (Messages.FeedLogin (AccountCredentials (AccountAddress 0 0) 0) false false).

(** *** Every request is read as its tree *)
Context `{!RapidJsonLaws}.

Ltac slots_done := apply slots_faithful; repeat constructor; apply slot_of_faithful; apply _.

#[export] Instance address_index_faithful : Faithful read_address_index.
Proof. slots_done. Qed.
#[export] Instance account_credentials_faithful : Faithful read_account_credentials.
Proof. apply converted_faithful. slots_done. Qed.
#[export] Instance get_address_txs_faithful : Faithful read_get_address_txs_request.
Proof. apply converted_faithful. slots_done. Qed.
#[export] Instance get_unspent_outs_faithful : Faithful read_get_unspent_outs_request.
Proof. apply converted_faithful. slots_done. Qed.
#[export] Instance import_faithful : Faithful read_import_request.
Proof. apply converted_faithful. slots_done. Qed.
#[export] Instance login_faithful : Faithful read_login_request.
Proof. apply converted_faithful. slots_done. Qed.
#[export] Instance provision_faithful : Faithful read_provision_subaddrs_request.
Proof. apply converted_faithful. slots_done. Qed.
#[export] Instance submit_faithful : Faithful read_submit_raw_tx_request.
Proof. slots_done. Qed.
#[export] Instance ranges_faithful : Faithful (read_vector (read_pair (read_unsigned u32_max)) 2 u64_max).
Proof. by apply vector_faithful; [| |apply _]. Qed.
#[export] Instance dict_faithful : Faithful read_subaddress_dict.
Proof. apply converted_faithful. slots_done. Qed.
#[export] Instance dicts_faithful : Faithful (read_vector read_subaddress_dict 0 max_subaddrs).
Proof. by apply vector_faithful; [| |apply _]. Qed.
#[export] Instance upsert_faithful : Faithful read_upsert_subaddrs_request.
Proof. apply converted_faithful. slots_done. Qed.
#[export] Instance feed_login_faithful : Faithful read_feed_login.
Proof. slots_done. Qed.

Lemma safe_array_loop_text fuel k values l rest d :
  (length l < fuel)%nat -> Forall (fun v => good v = true) l -> 0 <= k -> k + Z.of_nat (length l) <= u64_max ->
  Forall (fits read_safe_uint64) l -> 0 <= d ->
  safe_array_loop fuel (u64 (- k)) values (JsonReader.Mk (ArrayFacts.array_from (u64 (- k)) l ++ ch_close_array :: rest) d) =
  let* vs := efold (fun vs x => let* y := of_tree read_safe_uint64 d x in Ok (vs ++ [y])) values l in Ok (vs, JsonReader.Mk rest d).
Proof.
  revert fuel k values. induction l as [|v l IH]; intros [|fuel] k values Hf Hg Hk Hm Hfit Hd; try (cbn in Hf; lia); cbn [safe_array_loop efold].
  - by rewrite ArrayFacts.is_array_end_done.
  - inversion Hg as [|? ? Hv Hl]; inversion Hfit as [|? ? Hfv Hfl]; subst. cbn [length] in *.
    rewrite ArrayFacts.is_array_end_more by done. cbn [ebind fst snd].
    pose proof (safe_faithful d v Hd Hv Hfv (after (map compact l) ++ ch_close_array :: rest) ltac:(by apply ObjectFacts.after_ends)) as Hs.
    cbn [read_bytes read_safe_uint64 converted of_tree] in Hs |- *.
    destruct (JsonReader.safe_unsigned_integer _) as [[x r]|e]; cbn [ebind fst snd] in Hs |- *.
    2:{ destruct (safe_of_tree v) as [y|e']; cbn [ebind] in Hs |- *; [destruct (cast_unsigned u64_max y)|]; by simplify_eq/=. }
    destruct (cast_unsigned u64_max x) as [b|e]; cbn [ebind] in Hs |- *.
    2:{ destruct (safe_of_tree v) as [y|e']; cbn [ebind] in Hs |- *; [destruct (cast_unsigned u64_max y)|]; by simplify_eq/=. }
    destruct (safe_of_tree v) as [y|e']; cbn [ebind] in Hs |- *; [|done]. destruct (cast_unsigned u64_max y) as [b'|]; cbn [ebind] in Hs |- *; [|done].
    injection Hs as <- ->. replace (u64 (u64 (- k) - 1)) with (u64 (- (k + 1))) by (rewrite u64_sub_l; f_equal; lia).
    assert (ArrayFacts.array_from (u64 (- (k + 1))) l = after (map compact l)) as Ha.
    { unfold ArrayFacts.array_from. rewrite ArrayFacts.count_zero by lia. by destruct (Z.eqb_spec (k + 1) 0); [lia|]. }
    rewrite <- Ha. by apply IH; try done; lia.
Qed.

#[export] Instance safe_array_faithful : Faithful read_safe_uint64_array.
Proof.
  intros d v Hd Hv Hf rest Hr. cbn [read_bytes of_tree read_safe_uint64_array]. unfold read_safe_array_bytes, JsonReader.start_array.
  destruct (ReaderFacts.token_value v rest d Hv) as (c & t & E & Hc & Ht). rewrite Ht, (ReaderFacts.lead_array v c Hc).
  destruct v as [| | | | | |l|]; try done. cbn [negb]. destruct Hf as [Hn Hf].
  change (compact (WArr l)) with (ch_open_array :: ArrayFacts.array_from 0 l ++ [ch_close_array]). cbn [app]. rewrite ReaderFacts.remove_one.
  unfold JsonReader.increment_depth. cbn [JsonReader.depth JsonReader.remaining]. destruct (d + 1 =? JsonReader.max_read_depth); [done|]. cbn [ebind fst snd JsonReader.remaining].
  rewrite <- app_assoc. cbn [app]. set (text := ArrayFacts.array_from 0 l ++ ch_close_array :: rest).
  pose proof (safe_array_loop_text (S (length text)) 0 [] l rest (d + 1)) as Hl. change (u64 (- 0)) with 0 in Hl. fold text in Hl. rewrite Hl; try done; try lia.
  2:{ unfold text. rewrite length_app. pose proof (ArrayFacts.array_from_length 0 l). cbn [length]. lia. }
  2:{ apply Forall_forall. intros x Hx. apply list_elem_of_In in Hx. cbn in Hv. rewrite forallb_forall in Hv. by apply Hv. }
  destruct (efold _ _ _) as [vs|e]; [|done]. cbn [ebind fst snd]. unfold JsonReader.end_array, JsonReader.decrement_depth. cbn [JsonReader.depth JsonReader.remaining].
  destruct (Z.eqb_spec (d + 1) 0); [lia|]. cbn [ebind]. by replace (d + 1 - 1) with d by lia.
Qed.

#[export] Instance get_random_outs_faithful : Faithful read_get_random_outs_request.
Proof. slots_done. Qed.

(** *** Requests as wallets write them

    The members of the object for a request; a member that has a default may be left
    out when it is the default ([shown]: it is not). *)
Definition member (name : String.string) (v : wvalue) : Z * String.string * wvalue := (0, name, v).
Definition maybe {A} (name : String.string) (f : A -> wvalue) (o : option A) : list (Z * String.string * wvalue) :=
  match o with Some a => [member name (f a)] | None => [] end.
Definition safe (z : Z) : wvalue := WStr (u64toa z).
Definition creds_members (address : list Z) (c : account_credentials) : list (Z * String.string * wvalue) :=
  [member "address" (WStr address); member "view_key" (wblob 32 (cr_key c))].

Definition login_members (shown : bool) (address : list Z) (q : login_request) : list (Z * String.string * wvalue) :=
  creds_members address (lr_creds q) ++
  opt_member shown (member "lookahead" (map_address_index (lr_lookahead q))) ++
  [member "create_account" (WBool (lr_create_account q)); member "generated_locally" (WBool (lr_generated_locally q))].
Definition unspent_members (address : list Z) (q : get_unspent_outs_request) : list (Z * String.string * wvalue) :=
  creds_members address (uo_creds q) ++ [member "amount" (safe (uo_amount q))] ++
  maybe "mixin" WUint (uo_mixin q) ++ maybe "use_dust" WBool (uo_use_dust q) ++ maybe "dust_threshold" safe (uo_dust_threshold q).
Definition upsert_members (shown : bool) (address : list Z) (q : upsert_subaddrs_request) : list (Z * String.string * wvalue) :=
  creds_members address (us_creds q) ++
  opt_member shown (member "subaddrs" (WArr (map_subaddress_dict <$> us_subaddrs q))) ++
  maybe "get_all" WBool (us_get_all q).

Definition valid_creds (address : list Z) (c : account_credentials) : Prop :=
  address_string address = Ok (cr_address c) /\ 0 <= cr_key c < 256 ^ 32.
Definition optional_in (P : Z -> Prop) (o : option Z) : Prop := match o with Some z => P z | None => True end.
Definition valid_dict (d : subaddress_dict) : Prop := in_u32 d.1 /\ Forall range_wf d.2 /\ check_subaddress_dict d = true.

(** **** Trees of values *)
Lemma blob_tree n d z : 0 <= z < 256 ^ Z.of_nat n -> of_tree (read_blob n) d (wblob n z) = Ok z.
Proof.
  intros Hz. cbn. unfold ReaderFacts.t_binary_fixed, wblob. rewrite bool_decide_true by (by rewrite length_be_bytes). cbn [ebind].
  by rewrite be_decode_bytes_small.
Qed.
Lemma unsigned_tree d max z : z <= max -> of_tree (read_unsigned max) d (WUint z) = Ok z.
Proof. intros Hz. cbn. unfold cast_unsigned. by rewrite (proj2 (Z.ltb_ge max z)). Qed.
Lemma string_tree d s : of_tree read_string d (WStr s) = Ok s.
Proof. done. Qed.
Lemma bool_tree d b : of_tree read_bool d (WBool b) = Ok b.
Proof. done. Qed.
Lemma safe_uint64_tree d z : in_u64 z -> of_tree read_safe_uint64 d (safe z) = Ok z.
Proof.
  intros Hz. unfold safe. cbn -[safe_of_tree]. rewrite safe_tree by done. cbn. unfold cast_unsigned, in_u64 in *.
  by rewrite (proj2 (Z.ltb_ge u64_max z)) by lia.
Qed.

(** One written member of an object on the tree layer. *)
Ltac tree_step lem :=
  erewrite efold_read_member;
  [ | vm_compute; reflexivity | vm_compute; reflexivity
    | unfold tree_of; cbn -[of_tree wblob read_blob read_unsigned read_string read_bool read_safe_uint64 safe]; rewrite lem by (first [assumption | done | lia]); cbn [ebind]; reflexivity ].
Ltac tree_end :=
  cbn [efold ebind fst snd];
  (match goal with |- context [missing ?a ?b] => replace (missing a b) with false by (vm_compute; reflexivity) end);
  cbn [ebind fst snd]; unfold JsonObject.reset_omitted; cbn [length fields_of map seq foldl];
  repeat (match goal with |- context [bool_decide (?n ∈ ?l)] =>
    let b := eval vm_compute in (bool_decide (n ∈ l)) in change (bool_decide (n ∈ l)) with b end);
  cbn.

Lemma address_index_tree d i : d + 1 < JsonReader.max_read_depth -> valid_address_index i ->
  of_tree read_address_index d (map_address_index i) = Ok i.
Proof.
  intros Hd [H1 H2]. unfold in_u32 in *. cbn -[Z.eqb JsonReader.max_read_depth]. destruct (Z.eqb_spec (d + 1) JsonReader.max_read_depth); [lia|].
  unfold JsonObject.object_tree, Wire.read_object, members. cbn [fmap list_fmap fst snd].
  do 2 tree_step unsigned_tree. tree_end. by destruct i.
Qed.

Lemma creds_convert address c : valid_creds address c -> credentials address (cr_key c) = Ok c.
Proof. intros [Ha _]. unfold credentials, convert_address. rewrite Ha. cbn. by destruct c. Qed.

Lemma login_tree shown address q : valid_creds address (lr_creds q) -> valid_address_index (lr_lookahead q) ->
  (shown = false -> lr_lookahead q = AddressIndex 0 0) ->
  of_tree read_login_request 0 (WObj (login_members shown address q)) = Ok q.
Proof.
  intros Hc Hl Hs. pose proof Hc as [_ Hk]. unfold read_login_request, login_slots. cbn [of_tree converted read_slots ObjectFacts.t_object].
  change (0 + 1 =? JsonReader.max_read_depth) with false. cbv iota. unfold JsonObject.object_tree, Wire.read_object, login_members, creds_members, members, member.
  destruct shown; cbn [fmap list_fmap fst snd app opt_member]; tree_step string_tree; tree_step (blob_tree 32);
    [tree_step address_index_tree|]; do 2 tree_step bool_tree; tree_end; rewrite creds_convert by done; cbn; [by destruct q|].
  destruct q as [c l x y]. cbn in *. by rewrite Hs.
Qed.

Lemma unspent_tree address q : valid_creds address (uo_creds q) -> in_u64 (uo_amount q) ->
  optional_in in_u32 (uo_mixin q) -> optional_in in_u64 (uo_dust_threshold q) ->
  of_tree read_get_unspent_outs_request 0 (WObj (unspent_members address q)) = Ok q.
Proof.
  intros Hc Ha Hm Ht. pose proof Hc as [_ Hk]. unfold read_get_unspent_outs_request, unspent_slots. cbn [of_tree converted read_slots ObjectFacts.t_object].
  change (0 + 1 =? JsonReader.max_read_depth) with false. cbv iota. unfold JsonObject.object_tree, Wire.read_object, unspent_members, creds_members, maybe, members, member.
  destruct q as [am [th|] [mx|] [ud|] creds]; cbn [uo_amount uo_creds uo_dust_threshold uo_mixin uo_use_dust optional_in] in *; unfold in_u32 in *;
    cbn [fmap list_fmap fst snd app]; tree_step string_tree; tree_step (blob_tree 32); tree_step safe_uint64_tree;
    repeat first [tree_step unsigned_tree | tree_step bool_tree | tree_step safe_uint64_tree]; tree_end; rewrite creds_convert by done; done.
Qed.

(** An array that is within its limit. *)
Lemma vector_tree {A} (R : reading A) (t : A -> wvalue) min max d l : d + 1 < JsonReader.max_read_depth ->
  Z.of_nat (length l) <= max -> (forall x, x ∈ l -> of_tree R (d + 1) (t x) = Ok x) ->
  of_tree (read_vector R min max) d (WArr (t <$> l)) = Ok l.
Proof.
  intros Hd Hmax Hl. cbn -[JsonReader.max_read_depth]. destruct (Z.eqb_spec (d + 1) JsonReader.max_read_depth); [lia|].
  assert (forall acc, Z.of_nat (length acc + length l) <= max ->
    efold (ArrayFacts.t_element (fun x l => l ++ [x]) max (of_tree R (d + 1))) acc (t <$> l) = Ok (acc ++ l)) as Ha; [|by apply (Ha [])].
  clear Hmax. induction l as [|x l IH]; intros acc Hmax; cbn [fmap list_fmap efold]; [by rewrite app_nil_r|].
  unfold ArrayFacts.t_element at 1. cbn [length] in Hmax. rewrite (proj2 (Z.leb_gt max _)) by lia.
  rewrite Hl by (by apply elem_of_cons; left). cbn [ebind]. rewrite IH.
  - by rewrite <- app_assoc.
  - intros y Hy. apply Hl, elem_of_cons. by right.
  - rewrite length_app. cbn. lia.
Qed.

Lemma pair_tree d r : d + 1 < JsonReader.max_read_depth -> range_wf r ->
  of_tree (read_pair (read_unsigned u32_max)) d (minor_range r) = Ok r.
Proof.
  intros Hd [H1 H2]. unfold in_u32 in *. cbn [of_tree read_pair]. unfold t_array2, minor_range.
  destruct (Z.eqb_spec (d + 1) JsonReader.max_read_depth); [lia|]. rewrite !unsigned_tree by lia. by destruct r.
Qed.

Lemma dict_tree d x : d + 3 < JsonReader.max_read_depth -> Z.of_nat (length x.2) <= u64_max -> valid_dict x ->
  of_tree read_subaddress_dict d (map_subaddress_dict x) = Ok x.
Proof.
  intros Hd Hn (Hk & Hr & Hc). destruct x as [k rs]. cbn [fst snd] in *. unfold in_u32 in Hk.
  unfold read_subaddress_dict. cbn [of_tree converted read_slots ObjectFacts.t_object map_subaddress_dict].
  destruct (Z.eqb_spec (d + 1) JsonReader.max_read_depth); [lia|]. unfold JsonObject.object_tree, Wire.read_object, members. cbn [fst snd].
  assert (of_tree (read_vector (read_pair (read_unsigned u32_max)) 2 u64_max) (d + 1) (WArr (minor_range <$> rs)) = Ok rs) as Hv.
  { apply vector_tree; [lia|done|]. intros r Hrs. rewrite Forall_forall in Hr. apply pair_tree; [lia|by apply Hr]. }
  destruct (decide (rs = [])) as [->|Hne]; [rewrite bool_decide_true by done|rewrite bool_decide_false by done];
    cbn [negb opt_member fmap list_fmap fst snd]; tree_step unsigned_tree.
  - by tree_end.
  - erewrite efold_read_member; [|vm_compute; reflexivity|vm_compute; reflexivity|].
    2:{ unfold tree_of. cbn -[read_vector of_tree]. change (list_fmap _ _ minor_range rs) with (minor_range <$> rs). rewrite Hv. reflexivity. }
    tree_end. cbn in Hc. by rewrite Hc.
Qed.

Lemma upsert_tree shown address q : valid_creds address (us_creds q) ->
  Z.of_nat (length (us_subaddrs q)) <= max_subaddrs -> Forall (fun d => valid_dict d /\ Z.of_nat (length d.2) <= u64_max) (us_subaddrs q) ->
  (shown = false -> us_subaddrs q = []) -> of_tree read_upsert_subaddrs_request 0 (WObj (upsert_members shown address q)) = Ok q.
Proof.
  intros Hc Hn Hs Hshown. pose proof Hc as [_ Hk]. unfold read_upsert_subaddrs_request, upsert_slots. cbn [of_tree converted read_slots ObjectFacts.t_object].
  change (0 + 1 =? JsonReader.max_read_depth) with false. cbv iota. unfold JsonObject.object_tree, Wire.read_object, upsert_members, creds_members, maybe, members, member.
  destruct q as [creds subs ga]. cbn [us_creds us_subaddrs us_get_all] in *.
  assert (of_tree (read_vector read_subaddress_dict 0 max_subaddrs) 1 (WArr (map_subaddress_dict <$> subs)) = Ok subs) as Hv.
  { apply vector_tree; [done|done|]. intros d Hd. rewrite Forall_forall in Hs. apply Hs in Hd as [??]. by apply dict_tree. }
  destruct shown; [clear Hshown|rewrite (Hshown eq_refl)]; destruct ga as [ga|];
    cbn [opt_member fmap list_fmap fst snd app]; tree_step string_tree; tree_step (blob_tree 32);
    [erewrite efold_read_member; [|vm_compute; reflexivity|vm_compute; reflexivity|
      unfold tree_of; cbn -[read_vector of_tree max_subaddrs read_subaddress_dict map_subaddress_dict fmap]; change (0 + 1) with 1; rewrite Hv; reflexivity]..| |];
    try tree_step bool_tree. all: tree_end; rewrite creds_convert by done; done.
Qed.

(** The fields of the three requests are stored in places of their own. *)
Ltac commute :=
  apply JsonText.pairwise_commuting; repeat split; repeat constructor; apply JsonText.slots_commute_of; intros x y s; repeat case_match; by simplify_eq/=.
Lemma login_commutes : JsonText.commuting login_slots 1.
Proof. commute. Qed.
Lemma unspent_commutes : JsonText.commuting unspent_slots 1.
Proof. commute. Qed.
Lemma upsert_commutes : JsonText.commuting upsert_slots 1.
Proof. commute. Qed.

(** [l] is an object for the members [ms]: they are in it, in any order, with any
    others that match no field. *)
Definition carries {S} (slots : list (slot S)) (l ms : list (Z * String.string * wvalue)) : Prop :=
  good (WObj l) = true /\ Z.of_nat (length l) <= u64_max /\ JsonText.known (fields_of slots) l ≡ₚ ms.

Lemma carries_fits {S} (slots : list (slot S)) s l ms : carries slots l ms ->
  (forall kv, kv ∈ ms -> match find_key (member_key false kv.1.1 kv.1.2) (fields_of slots) with
                          | Some i => match slots !! i with Some sl => s_fits _ sl kv.2 | None => True end
                          | None => True
                          end) -> fits (read_slots slots s) (WObj l).
Proof.
  intros (Hg & Hn & Hp) Hf. split; [by apply Z.leb_le|]. intros kv i sl Hkv Hi Hsl. specialize (Hf kv). rewrite Hi, Hsl in Hf. apply Hf.
  rewrite <- Hp. unfold JsonText.known. rewrite list_elem_of_In, filter_In, <- list_elem_of_In. split; [done|]. by rewrite Hi.
Qed.

(** The reading of the members is the reading of the object. *)
Lemma carries_read {S A} (slots : list (slot S)) s (f : S -> expect A) l ms x : JsonText.commuting slots 1 -> carries slots l ms ->
  Faithful (converted (read_slots slots s) f) -> fits (read_slots slots s) (WObj l) ->
  of_tree (converted (read_slots slots s) f) 0 (WObj ms) = Ok x ->
  JsonReader.from_bytes (read_bytes (converted (read_slots slots s) f)) (compact (WObj l)) = Ok x.
Proof.
  intros Hc (Hg & Hn & Hp) HF Hf Hx. rewrite JsonText.from_text by done. unfold converted in Hx |- *. cbn [of_tree] in *. inv_ok Hx.
  rewrite <- JsonText.tree_ignores_unknown. rewrite (JsonText.tree_permuted slots s 0 ms _ r Hc (symmetry Hp) Hr). done.
Qed.

Ltac members_fit :=
  intros kv Hkv; repeat (apply elem_of_cons in Hkv as [->|Hkv];
    [match goal with |- context [find_key ?k ?fs] => let i := eval vm_compute in (find_key k fs) in change (find_key k fs) with i end;
     cbn -[read_vector fits map_subaddress_dict map_address_index]|]);
  try (by apply elem_of_nil in Hkv).

Lemma index_fits i : fits read_address_index (map_address_index i).
Proof.
  split; [done|]. intros kv j sl Hkv. repeat (apply elem_of_cons in Hkv as [->|Hkv];
    [intros Hj Hsl; vm_compute in Hj; injection Hj as <-; injection Hsl as <-; done|]). by apply elem_of_nil in Hkv.
Qed.

Lemma dict_fits d : Z.of_nat (length d.2) <= u64_max -> fits read_subaddress_dict (map_subaddress_dict d).
Proof.
  intros Hn. destruct d as [k rs]. cbn [snd] in Hn. split; [unfold map_subaddress_dict; cbn [fst snd]; by case_bool_decide|].
  intros kv j sl Hkv Hj Hsl. unfold map_subaddress_dict in Hkv. cbn [fst snd] in Hkv. apply elem_of_cons in Hkv as [->|Hkv].
  - vm_compute in Hj. injection Hj as <-. by injection Hsl as <-.
  - case_bool_decide; cbn [negb opt_member] in Hkv; [by apply elem_of_nil in Hkv|].
    apply list_elem_of_singleton in Hkv as ->. vm_compute in Hj. injection Hj as <-. injection Hsl as <-.
    cbn [s_fits cleared slot_of fits read_vector snd]. split_and!.
    + by rewrite length_fmap.
    + apply Forall_fmap, Forall_forall. intros r _. cbn [compose compact minor_range length]. rewrite length_app. cbn [length]. lia.
    + apply Forall_fmap, Forall_forall. intros r _. cbn. repeat constructor.
Qed.

Definition valid_subaddrs (l : list subaddress_dict) : Prop :=
  Z.of_nat (length l) <= max_subaddrs /\ Forall (fun d => valid_dict d /\ Z.of_nat (length d.2) <= u64_max) l.

(** C14: A request of a wallet is read as it was meant, for login, get_unspent_outs
    (numbers in quotes, three optional members) and upsert_subaddrs (a list of
    subaddress ranges): the text that rapidjson writes for an object with the
    members of the request, in any order, the lookahead or the list left out when it
    is the default, and with any members of other names, gives the request. *)
Theorem requests_read address l :
  (forall q shown, valid_creds address (lr_creds q) -> valid_address_index (lr_lookahead q) ->
     (shown = false -> lr_lookahead q = AddressIndex 0 0) -> carries login_slots l (login_members shown address q) ->
     JsonReader.from_bytes (read_bytes read_login_request) (compact (WObj l)) = Ok q) /\
  (forall q, valid_creds address (uo_creds q) -> in_u64 (uo_amount q) -> optional_in in_u32 (uo_mixin q) -> optional_in in_u64 (uo_dust_threshold q) ->
     carries unspent_slots l (unspent_members address q) ->
     JsonReader.from_bytes (read_bytes read_get_unspent_outs_request) (compact (WObj l)) = Ok q) /\
  (forall q shown, valid_creds address (us_creds q) -> valid_subaddrs (us_subaddrs q) ->
     (shown = false -> us_subaddrs q = []) -> carries upsert_slots l (upsert_members shown address q) ->
     JsonReader.from_bytes (read_bytes read_upsert_subaddrs_request) (compact (WObj l)) = Ok q).
Proof.
  split_and!.
  - intros q shown Hc Hi Hs Hl. eapply carries_read; [exact login_commutes|exact Hl|apply login_faithful| |by apply (login_tree shown address)].
    eapply carries_fits; [exact Hl|]. unfold login_members, creds_members, member. destruct shown; cbn [app opt_member]; members_fit; try done; apply index_fits.
  - intros q Hc Ha Hm Ht Hl. eapply carries_read; [exact unspent_commutes|exact Hl|apply get_unspent_outs_faithful| |by apply (unspent_tree address)].
    eapply carries_fits; [exact Hl|]. unfold unspent_members, creds_members, member, maybe.
    destruct (uo_mixin q), (uo_use_dust q), (uo_dust_threshold q); cbn [app optional_in] in *; members_fit; try done; (eexists; split; [|reflexivity]; assumption).
  - intros q shown Hc [Hn Hs] Hd Hl. eapply carries_read; [exact upsert_commutes|exact Hl|apply upsert_faithful| |by apply (upsert_tree shown address)].
    eapply carries_fits; [exact Hl|]. unfold upsert_members, creds_members, member, maybe.
    destruct shown, (us_get_all q); cbn [app opt_member]; members_fit; try done;
      (cbn [s_fits cleared slot_of fits read_vector snd]; split_and!;
        [rewrite length_fmap; unfold max_subaddrs, u64_max in *; lia
        |apply Forall_forall; intros; lia
        |apply Forall_fmap; eapply Forall_impl; [exact Hs|]; intros d [_ Hd']; by apply dict_fits]).
Qed.
End requests.
End Requests.

(** *** Sample requests *)
Module RequestSamples.
#[local] Existing Instances Sample.library Sample.laws.
Import Requests.
Definition address_text : list Z := bytes_of_string "4address".
Definition parse_address (source : list Z) : expect account_address :=
  if bool_decide (source = address_text) then Ok (AccountAddress 11 12) else Err (lws_err bad_address).
Definition creds : account_credentials := AccountCredentials (AccountAddress 11 12) 77.
Definition login : login_request := LoginRequest creds (AddressIndex 3 20) true false.
Definition unspent : get_unspent_outs_request := GetUnspentOutsRequest 1000000 None (Some 15) (Some true) creds.
Definition upsert : upsert_subaddrs_request := UpsertSubaddrsRequest creds [(0, [(1, 4); (6, 9)]); (2, [(0, 0)])] (Some true).
(** The members backwards, after one of no field. *)
Definition with_unknown (ms : list (Z * String.string * wvalue)) : list (Z * String.string * wvalue) :=
  member "app" (WArr [WBool true; WObj [member "x" (WInt (-4))]]) :: rev ms.
Lemma carried {S} (slots : list (slot S)) ms : good (WObj (with_unknown ms)) = true -> Z.of_nat (length (with_unknown ms)) <= u64_max ->
  JsonText.known (fields_of slots) (with_unknown ms) = rev ms -> carries slots (with_unknown ms) ms.
Proof. intros Hg Hn Hk. split_and!; [done|done|]. rewrite Hk. symmetry. apply Permutation_rev. Qed.
Definition first_login : login_request := LoginRequest creds (AddressIndex 0 0) true false.

Lemma requests_read_witness :
  JsonReader.from_bytes (read_bytes (read_login_request parse_address)) (compact (WObj (with_unknown (login_members true address_text login)))) = Ok login /\
  JsonReader.from_bytes (read_bytes (read_login_request parse_address)) (compact (WObj (with_unknown (login_members false address_text first_login)))) = Ok first_login /\
  JsonReader.from_bytes (read_bytes (read_get_unspent_outs_request parse_address)) (compact (WObj (with_unknown (unspent_members address_text unspent)))) = Ok unspent /\
  JsonReader.from_bytes (read_bytes (read_upsert_subaddrs_request parse_address)) (compact (WObj (with_unknown (upsert_members true address_text upsert)))) = Ok upsert.
Proof.
  split_and!.
  - apply (requests_read parse_address address_text) with (shown := true); [split; [reflexivity|split; vm_compute; congruence]| |done|apply carried; vm_compute; congruence].
    split; vm_compute; split; congruence.
  - apply (requests_read parse_address address_text) with (shown := false); [split; [reflexivity|split; vm_compute; congruence]| |done|apply carried; vm_compute; congruence].
    split; vm_compute; split; congruence.
  - apply (requests_read parse_address address_text); [split; [reflexivity|split; vm_compute; congruence]| | |exact I|apply carried; vm_compute; congruence];
      vm_compute; split; congruence.
  - apply (requests_read parse_address address_text) with (shown := true); [split; [reflexivity|split; vm_compute; congruence]| |done|apply carried; vm_compute; congruence].
    split; [vm_compute; congruence|]. repeat constructor; vm_compute; congruence.
Defined.

(** The text of the login, and an address of another network. *)
Example login_text : JsonWriter.to_bytes (fun _ => 0) (WObj (login_members true address_text login)) = Ok (compact (WObj (login_members true address_text login))).
Proof. vm_compute. reflexivity. Qed.
Example other_network :
  JsonReader.from_bytes (read_bytes (read_login_request parse_address)) (compact (WObj (login_members true (bytes_of_string "9address") login))) =
  Err (schema_err schema_fixed_binary).
Proof. vm_compute. reflexivity. Qed.
End RequestSamples.

(** ** Responses *)
Module Responses.

(** The functions of monero that encrypt an amount. *)
Class RctEncode := {
  ecdhEncode : ecdh_tuple -> secret_key -> bool -> ecdh_tuple;
  rct_commit : Z -> rct_key -> rct_key;
  d2h : Z -> rct_key
}.

Section responses.
Context `{RJ : RapidJson} {WC : WalletCrypto} {RE : RctEncode}.
(** [get_gmt_time] with [strftime]: the text of the time, empty when it does not
    fit the buffer, or nothing when there is no such date. *)
Context (gmt_text : Z -> option (list Z)).

Definition field (name : String.string) (v : wvalue) : Z * String.string * wvalue := (0, name, v).
(** [optional_field] of a pointer. *)
Definition optional_field {A} (name : String.string) (write : A -> wvalue) (o : option A) : list (Z * String.string * wvalue) :=
  match o with Some a => [field name (write a)] | None => [] end.
(** A container, left out when it is empty. *)
Definition array_field {A} (name : String.string) (write : A -> wvalue) (l : list A) : list (Z * String.string * wvalue) :=
  opt_member (negb (bool_decide (l = []))) (field name (WArr (write <$> l))).
(** [defaulted] fields. *)
Definition index_field (name : String.string) (i : address_index) : list (Z * String.string * wvalue) :=
  opt_member (negb (address_index_eqb i (AddressIndex 0 0))) (field name (map_address_index i)).
Definition uint_field (name : String.string) (z default_ : Z) : list (Z * String.string * wvalue) :=
  opt_member (negb (z =? default_)) (field name (WUint z)).

Definition safe_uint64 (z : Z) : wvalue := WStr (u64toa z).

Definition time_max : Z := 2 ^ 63 - 1.
Definition iso_timestamp (self : Z) : expect wvalue :=
  if time_max <? self then Err runtime_error
  else
    match gmt_text self with
    | None => Err runtime_error
    | Some buf => if bool_decide (length buf = 20%nat) then Ok (WStr buf) else Err runtime_error
    end.

(** *** Ringct *)
Record rct_bytes := RctBytes { rb_commitment : rct_key; rb_mask : rct_key; rb_amount : rct_key }.
Definition write_rct (r : rct_bytes) : wvalue := WBin (be_bytes 32 (rb_commitment r) ++ be_bytes 32 (rb_mask r) ++ be_bytes 32 (rb_amount r)).

(** [None] when it is not a ringct output. *)
Definition expand_rct (src : output) (user_key : secret_key) : expect (option rct_bytes) :=
  let flags := (unpack (out_extra src)).1 in
  if negb (has_flag flags ringct_output) then Ok None
  else if negb (has_flag flags coinbase_output) then
    let meta := out_spend_meta src in
    match generate_key_derivation (sme_tx_public meta) user_key with
    | None => Err (lws_err crypto_failure)
    | Some derived =>
      let encrypted := EcdhTuple (out_ringct_mask src) (d2h (sme_amount meta)) in
      let scalar := derivation_to_scalar derived (Z.to_nat (sme_index meta)) in
      let encrypted := ecdhEncode encrypted scalar false in
      Ok (Some (RctBytes (rct_commit (sme_amount meta) (out_ringct_mask src)) (ecdh_mask encrypted) (ecdh_amount encrypted)))
    end
  else Ok (Some (RctBytes 0 rct_identity 0)).

Definition expand_outputs (data : output * list key_image_t) (user_key : secret_key) : expect wvalue :=
  let out := data.1 in
  let meta := out_spend_meta out in
  let* rct := expand_rct out user_key in
  let* timestamp := iso_timestamp (out_timestamp out) in
  Ok (WObj (
    [field "amount" (safe_uint64 (sme_amount meta));
     field "public_key" (wblob 32 (out_pub out));
     field "index" (WUint (sme_index meta));
     field "global_index" (WUint (oi_low (sme_id meta)));
     field "tx_id" (WUint (oi_low (sme_id meta)));
     field "tx_hash" (wblob 32 (tl_tx_hash (out_link out)));
     field "tx_prefix_hash" (wblob 32 (out_tx_prefix_hash out));
     field "tx_pub_key" (wblob 32 (sme_tx_public meta));
     field "timestamp" timestamp;
     field "height" (WUint (tl_height (out_link out)))] ++
    array_field "spend_key_images" (wblob 32) data.2 ++
    optional_field "rct" write_rct rct ++
    [field "recipient" (map_address_index (out_recipient out))])).

Definition expand_receive (user_key : secret_key) (data : output) : expect wvalue :=
  let meta := out_spend_meta data in
  let* rct := expand_rct data user_key in
  Ok (WObj (
    [field "amount" (safe_uint64 (sme_amount meta));
     field "public_key" (wblob 32 (out_pub data));
     field "index" (WUint (sme_index meta));
     field "global_index" (WUint (oi_low (sme_id meta)));
     field "tx_pub_key" (wblob 32 (sme_tx_public meta))] ++
    optional_field "rct" write_rct rct ++
    [field "recipient" (map_address_index (out_recipient data))])).

(** *** Decoys: [key] and [mask] of the daemon's keys *)
Section decoys.
Context {OK : Rings.OutputKeys} (keys_key keys_mask : Rings.output_keys -> rct_key).
Definition write_random_output (self : Rings.random_output) : wvalue :=
  WObj [field "global_index" (safe_uint64 (Rings.ro_index self));
        field "public_key" (wblob 32 (keys_key (Rings.ro_keys self)));
        field "rct" (write_rct (RctBytes (keys_mask (Rings.ro_keys self)) 0 0))].
Definition write_random_ring (self : Rings.random_ring) : wvalue :=
  WObj (field "amount" (safe_uint64 (Rings.rr_amount self)) :: array_field "outputs" write_random_output (Rings.rr_ring self)).
Definition write_get_random_outs (amount_outs : list Rings.random_ring) : wvalue := WObj (array_field "amount_outs" write_random_ring amount_outs).
End decoys.

(** *** The daemon and the server *)
Definition map_daemon_state : list String.string := ["ok"; "no_connections"; "synchronizing"; "unavailable"]%string.
Definition map_network_type : list String.string := ["main"; "test"; "stage"; "fake"]%string.
Definition daemon_state_num (s : daemon_state) : nat :=
  match s with daemon_ok => 0 | no_connections => 1 | synchronizing => 2 | unavailable => 3 end.

Record daemon_status_response := DaemonStatusResponse { dr_info : daemon_info; dr_network : nat; dr_state : daemon_state }.
(** The constructor: unavailable, on the network of the configuration. *)
Definition daemon_status_unavailable (network : nat) (target_height : Z) : daemon_status_response :=
  DaemonStatusResponse (DaemonInfo 0 0 0 target_height) network unavailable.
Definition write_daemon_status (self : daemon_status_response) : wvalue :=
  WObj [field "outgoing_connections_count" (WUint (di_outgoing_connections_count (dr_info self)));
        field "incoming_connections_count" (WUint (di_incoming_connections_count (dr_info self)));
        field "height" (WUint (di_height (dr_info self)));
        field "target_height" (WUint (di_target_height (dr_info self)));
        field "network" (write_enum map_network_type (dr_network self));
        field "state" (write_enum map_daemon_state (daemon_state_num (dr_state self)))].

(** The constants of the build, and the configuration. *)
Record version := Version {
  v_name : list Z; v_id : list Z; v_commit : list Z; v_date : list Z; v_branch : list Z; v_monero : list Z;
  v_api : Z; v_network : nat; v_testnet : bool
}.
Record get_version_response := GetVersionResponse { gv_version : version; gv_blockchain_height : block_id; gv_max_subaddresses : Z }.
Definition write_get_version (self : get_version_response) : wvalue :=
  let v := gv_version self in
  WObj [field "server_type" (WStr (v_name v)); field "server_version" (WStr (v_id v));
        field "last_git_commit_hash" (WStr (v_commit v)); field "last_git_commit_date" (WStr (v_date v));
        field "git_branch_name" (WStr (v_branch v)); field "monero_version_full" (WStr (v_monero v));
        field "blockchain_height" (WUint (gv_blockchain_height self)); field "api" (WUint (v_api v));
        field "max_subaddresses" (WUint (gv_max_subaddresses self));
        field "network_type" (write_enum map_network_type (v_network v)); field "testnet" (WBool (v_testnet v))].

(** *** Accounts *)
Definition write_transaction_spend (self : transaction_spend) : wvalue :=
  WObj [field "amount" (safe_uint64 (sme_amount (ts_meta self)));
        field "key_image" (wblob 32 (sp_image (ts_possible_spend self)));
        field "tx_pub_key" (wblob 32 (sme_tx_public (ts_meta self)));
        field "out_index" (WUint (sme_index (ts_meta self)));
        field "mixin" (WUint (sp_mixin_count (ts_possible_spend self)));
        field "sender" (map_address_index (sp_sender (ts_possible_spend self)))].

(** [scanned_block_height] and [transaction_height] are copies of
    [scanned_height] and [blockchain_height]. *)
Definition heights (scanned start blockchain : Z) : list (Z * String.string * wvalue) :=
  [field "scanned_height" (WUint scanned); field "scanned_block_height" (WUint scanned); field "start_height" (WUint start);
   field "transaction_height" (WUint blockchain); field "blockchain_height" (WUint blockchain)].

Definition rate_names : list String.string :=
  ["AUD"; "BRL"; "BTC"; "CAD"; "CHF"; "CNY"; "EUR"; "GBP"; "HKD"; "INR"; "JPY"; "KRW"; "MXN"; "NOK"; "NZD"; "SEK"; "SGD"; "TRY"; "USD"; "RUB"; "ZAR"]%string.
(** [lws::rates]: a number for each name. *)
Definition map_rates (rates : list Z) : wvalue := WObj (zip_with (fun name r => field name (WReal r)) rate_names rates).

Definition write_get_address_info (rates : option (list Z)) (self : get_address_info_response) : wvalue :=
  WObj ([field "locked_funds" (safe_uint64 (ai_locked_funds self)); field "total_received" (safe_uint64 (ai_total_received self));
         field "total_sent" (safe_uint64 (ai_total_sent self))] ++
        heights (ai_scanned_height self) (ai_start_height self) (ai_blockchain_height self) ++
        uint_field "lookahead_fail" (ai_lookahead_fail self) 0 ++
        array_field "spent_outputs" write_transaction_spend (ai_spent_outputs self) ++
        optional_field "rates" map_rates rates ++
        index_field "lookahead" (ai_lookahead self)).

(** The payment id of an output: short, long or none. *)
Definition payment_id_bytes (o : output) : option (list Z) :=
  let length := (unpack (out_extra o)).2 in
  if length =? 0 then None
  else if length =? 8 then Some (be_bytes 8 (payment_id_short (out_payment_id o))) else Some (be_bytes 32 (out_payment_id o)).

Fixpoint all {A B} (write : A -> expect B) (l : list A) : expect (list B) :=
  match l with [] => Ok [] | x :: l => let* y := write x in let* ys := all write l in Ok (y :: ys) end.

(** [indexed_transaction] *)
Definition write_indexed_transaction (user_key : option secret_key) (index : nat) (self : get_transaction) : expect wvalue :=
  let info := gt_info self in
  let height := tl_height (out_link info) in
  let mempool := height =? block_id_txpool in
  let receives := if is_some_b user_key then gt_receives self else [] in
  let* timestamp := if mempool then Ok None else let* t := iso_timestamp (out_timestamp info) in Ok (Some t) in
  let* receives := all (expand_receive (default 0 user_key)) receives in
  Ok (WObj (
    [field "id" (WUint (Z.of_nat index)); field "hash" (wblob 32 (tl_tx_hash (out_link info)))] ++
    optional_field "timestamp" id timestamp ++
    [field "total_received" (safe_uint64 (sme_amount (out_spend_meta info))); field "total_sent" (safe_uint64 (gt_spent self));
     field "fee" (safe_uint64 (out_fee info)); field "unlock_time" (WUint (out_unlock_time info))] ++
    optional_field "height" WUint (if mempool then None else Some height) ++
    optional_field "payment_id" WBin (payment_id_bytes info) ++
    [field "coinbase" (WBool (has_flag (unpack (out_extra info)).1 coinbase_output)); field "mempool" (WBool mempool);
     field "mixin" (WUint (sme_mixin_count (out_spend_meta info))); field "recipient" (map_address_index (out_recipient info))] ++
    array_field "spent_outputs" write_transaction_spend (gt_spends self) ++
    array_field "receives" id receives)).

Definition write_get_address_txs (self : get_address_txs_response) : expect wvalue :=
  let* txs := all (fun p : nat * get_transaction => write_indexed_transaction (at_user_key self) p.1 p.2)
    (zip (seq 0 (length (at_transactions self))) (at_transactions self)) in
  Ok (WObj (
    field "total_received" (safe_uint64 (at_total_received self)) ::
    heights (at_scanned_height self) (at_start_height self) (at_blockchain_height self) ++
    uint_field "lookahead_fail" (at_lookahead_fail self) 0 ++
    index_field "lookahead" (at_lookahead self) ++
    array_field "transactions" id txs)).

Definition write_get_unspent_outs (self : get_unspent_outs_response) : expect wvalue :=
  let* outputs := all (fun d => expand_outputs d (uo_user_key self)) (uo_outputs self) in
  Ok (WObj (
    [field "per_byte_fee" (WUint (uo_per_byte_fee self)); field "fee_mask" (WUint (uo_fee_mask self)); field "amount" (safe_uint64 (uo_received self))] ++
    uint_field "lookahead_fail" (uo_lookahead_fail self) 0 ++
    array_field "outputs" id outputs ++
    array_field "fees" WUint (uo_fees self))).

Definition write_subaddrs (name : String.string) (l : list subaddress_dict) : expect (list (Z * String.string * wvalue)) :=
  let* l := all write_subaddress_dict l in Ok (array_field name id l).
Definition write_new_subaddrs (self : new_subaddrs_response) : expect wvalue :=
  let* n := write_subaddrs "new_subaddrs" (ns_new_subaddrs self) in
  let* a := write_subaddrs "all_subaddrs" (ns_all_subaddrs self) in Ok (WObj (n ++ a)).
Definition write_get_subaddrs (all_subaddrs : list subaddress_dict) : expect wvalue :=
  let* a := write_subaddrs "all_subaddrs" all_subaddrs in Ok (WObj a).

Definition write_import (self : import_response) : wvalue :=
  WObj [field "import_fee" (safe_uint64 (ip_import_fee self)); field "status" (WStr (bytes_of_string (ip_status self)));
        field "new_request" (WBool (ip_new_request self)); field "request_fulfilled" (WBool (ip_request_fulfilled self));
        field "lookahead" (map_address_index (ip_lookahead self))].
Definition write_login (self : login_response) : wvalue :=
  WObj [field "new_address" (WBool (lg_new_address self)); field "generated_locally" (WBool (lg_generated_locally self));
        field "lookahead" (map_address_index (lg_lookahead self))].
Definition write_submit_raw_tx (self : Submit.submit_raw_tx_response) : wvalue :=
  WObj (field "status" (WStr (Submit.sr_status self)) ::
        opt_member (negb (bool_decide (Submit.sr_reason self = []))) (field "reason" (WStr (Submit.sr_reason self))) ++
        opt_member (Submit.sr_not_relayed self) (field "not_relayed" (WBool (Submit.sr_not_relayed self)))).
End responses.
End Responses.

(** ** What wallets make of the ringct part of an output *)
Module RctFacts.
Import Responses Crypto.

(** The documented behaviour of ringct: decoding undoes encoding, the amount is
    its number, and a commitment is the mask and the amount on the two bases. *)
Class RctLaws {WC : WalletCrypto} {RE : RctEncode} : Prop := {
  decode_encode t s b : ecdhDecode (ecdhEncode t s b) s b = t;
  h2d_d2h a : in_u64 a -> h2d (d2h a) = Some a;
  commit_opens a m : rct_commit a m = addKeys2 m (d2h a) rct_H
}.

Section rct_facts.
Context {WC : WalletCrypto} {RE : RctEncode} `{!RctLaws}.

(** The [rct] member that get_unspent_outs and get_address_txs send for an
    output that is no coinbase opens for the owner of the view key: decoding it
    the way a wallet decodes a transaction gives the amount and the mask that the
    scanner stored. It is left out exactly for outputs before ringct, and a
    coinbase output has the identity as its mask. *)
Theorem rct_opens o user_key rct : in_u64 (sme_amount (out_spend_meta o)) -> expand_rct o user_key = Ok rct ->
  match rct with
  | None => has_flag (unpack (out_extra o)).1 ringct_output = false
  | Some r =>
    has_flag (unpack (out_extra o)).1 ringct_output = true /\
    if has_flag (unpack (out_extra o)).1 coinbase_output then rb_mask r = rct_identity
    else exists derived, generate_key_derivation (sme_tx_public (out_spend_meta o)) user_key = Some derived /\
      decode_amount (rb_commitment r) (EcdhTuple (rb_mask r) (rb_amount r)) derived (Z.to_nat (sme_index (out_spend_meta o))) false =
        Some (sme_amount (out_spend_meta o), out_ringct_mask o)
  end.
Proof.
  intros Ha. unfold expand_rct. destruct (has_flag _ ringct_output) eqn:Er; cbn [negb]; [|by intros [= <-]].
  destruct (has_flag _ coinbase_output) eqn:Ec; cbn [negb]; [by intros [= <-]|].
  destruct (generate_key_derivation _ _) as [derived|] eqn:Ed; [|done]. intros [= <-]. split; [done|]. exists derived. split; [done|].
  cbn [rb_commitment rb_mask rb_amount]. unfold decode_amount. set (t := EcdhTuple _ (d2h _)).
  replace (EcdhTuple (ecdh_mask (ecdhEncode t _ false)) (ecdh_amount (ecdhEncode t _ false))) with
    (ecdhEncode t (derivation_to_scalar derived (Z.to_nat (sme_index (out_spend_meta o)))) false) by by destruct (ecdhEncode t _ false).
  rewrite decode_encode. unfold t. cbn [ecdh_mask ecdh_amount]. rewrite commit_opens, Z.eqb_refl. by rewrite h2d_d2h.
Qed.
End rct_facts.
End RctFacts.

(** ** The feed *)
Module FeedWire.
Import Messages Responses.
Section feed_wire.

Definition status_num (s : feed_status) : Z :=
  match s with
  | unspecified_error => 0 | status_account_not_found => 1 | status_bad_address => 2 | status_bad_view_key => 3
  | status_blockchain_reorg => 4 | daemon_unresponsive => 5 | parse_error => 6 | protocol_error => 7 | queue_error => 8
  | status_schema_error => 9
  end.

Definition write_feed_error (msg : list Z) (code : feed_status) : wvalue :=
  WObj [field "msg" (WStr msg); field "code" (WUint (status_num code))].

Definition write_feed_mempool (received : output) : wvalue :=
  let extra := unpack (out_extra received) in
  let meta := out_spend_meta received in
  WObj ([field "hash" (wblob 32 (tl_tx_hash (out_link received)));
         field "prefix_hash" (wblob 32 (out_tx_prefix_hash received));
         field "fee" (WUint (out_fee received));
         field "unlock_time" (WUint (out_unlock_time received))] ++
        optional_field "payment_id" WBin (payment_id_bytes received) ++
        [field "mixin" (WUint (sme_mixin_count meta)); field "amount" (WUint (sme_amount meta));
         field "public_key" (wblob 32 (out_pub received)); field "tx_pub_key" (wblob 32 (sme_tx_public meta));
         field "index" (WUint (sme_index meta))] ++
        index_field "recipient" (out_recipient received) ++
        optional_field "rct" (wblob 32) (if has_flag extra.1 ringct_output then Some (out_ringct_mask received) else None)).

Definition legacy_temp (id : output_id) : wvalue := WObj [field "amount" (WUint (oi_high id)); field "index" (WUint (oi_low id))].
Definition composite_temp (id : output_id) : wvalue := WObj [field "legacy" (legacy_temp id)].

Definition sync_output {WC : WalletCrypto} (data : output) : wvalue :=
  let flags := (unpack (out_extra data)).1 in
  let meta := out_spend_meta data in
  let rct :=
    if has_flag flags ringct_output
    then Some (if negb (has_flag flags coinbase_output) then out_ringct_mask data else rct_identity) else None in
  WObj ([field "amount" (WUint (sme_amount meta)); field "public_key" (wblob 32 (out_pub data)); field "index" (WUint (sme_index meta))] ++
        opt_member (negb (output_id_eqb (sme_id meta) output_id_txpool)) (field "id" (composite_temp (sme_id meta))) ++
        [field "tx_pub_key" (wblob 32 (sme_tx_public meta))] ++
        optional_field "rct" (wblob 32) rct ++
        index_field "recipient" (out_recipient data)).

Definition sync_spend (data : transaction_spend) : wvalue :=
  WObj [field "id" (composite_temp (sp_source (ts_possible_spend data))); field "key_image" (wblob 32 (sp_image (ts_possible_spend data)))].

Definition sync_transaction {WC : WalletCrypto} (data : get_transaction) : wvalue :=
  let info := gt_info data in
  let is_coinbase := has_flag (unpack (out_extra info)).1 coinbase_output in
  let txpool := tl_height (out_link info) =? block_id_txpool in
  WObj ([field "hash" (wblob 32 (tl_tx_hash (out_link info))); field "prefix_hash" (wblob 32 (out_tx_prefix_hash info));
         field "timestamp" (WUint (out_timestamp info)); field "fee" (WUint (out_fee info)); field "unlock_time" (WUint (out_unlock_time info))] ++
        uint_field "height" (tl_height (out_link info)) block_id_txpool ++
        optional_field "payment_id" WBin (payment_id_bytes info) ++
        opt_member is_coinbase (field "coinbase" (WBool is_coinbase)) ++
        opt_member txpool (field "mempool" (WBool txpool)) ++
        [field "mixin" (WUint (sme_mixin_count (out_spend_meta info)))] ++
        array_field "spends" sync_spend (gt_spends data) ++
        array_field "receives" sync_output (gt_receives data)).

Definition write_feed_tx_sync {WC : WalletCrypto} (info : get_address_txs_response) : wvalue :=
  WObj ([field "scanned_block_height" (WUint (at_scanned_height info)); field "start_height" (WUint (at_start_height info));
         field "blockchain_height" (WUint (at_blockchain_height info))] ++
        uint_field "lookahead_fail" (at_lookahead_fail info) 0 ++
        index_field "lookahead" (at_lookahead info) ++
        array_field "transactions" sync_transaction (at_transactions info)).

Definition write_feed_blocks {WC : WalletCrypto} (self : feed_blocks) : wvalue :=
  WObj ([field "scan_start" (WUint (fb_scan_start self)); field "scan_end" (WUint (fb_scan_end self));
         field "blockchain_height" (WUint (fb_blockchain_height self))] ++
        uint_field "lookahead_fail" (fb_lookahead_fail self) 0 ++
        index_field "lookahead" (fb_lookahead self) ++
        array_field "transactions" sync_transaction (fb_transactions self)).

Definition write_feed_warning (src : feed_warning) : wvalue :=
  WObj [(0, "msg"%string, WStr (fw_msg src)); (1, "code"%string, WUint (status_num (fw_code src)));
        (2, "counter"%string, WUint (fw_counter src)); (3, "height"%string, WUint (fw_height src))].

(** The value of the enumeration with a number: what reads it makes one of the
    underlying 16 bits, named or not; the unnamed ones are left out. *)
Definition status_of (z : Z) : option feed_status :=
  List.find (fun s => status_num s =? z)
    [unspecified_error; status_account_not_found; status_bad_address; status_bad_view_key; status_blockchain_reorg;
     daemon_unresponsive; parse_error; protocol_error; queue_error; status_schema_error].
Definition read_status (v : wvalue) : expect feed_status :=
  let* n := read_uint u16_max v in Ok (default unspecified_error (status_of n)).

Definition feed_warning_fields : list (wfield feed_warning) :=
  [DataWire.required_field 0 "msg" (fun _ => DataWire.read_string) (fun m w => FeedWarning m (fw_code w) (fw_counter w) (fw_height w));
   DataWire.required_field 1 "code" (fun _ => read_status) (fun c w => FeedWarning (fw_msg w) c (fw_counter w) (fw_height w));
   DataWire.required_field 2 "counter" (fun _ => read_uint u32_max) (fun n w => FeedWarning (fw_msg w) (fw_code w) n (fw_height w));
   DataWire.required_field 3 "height" (fun _ => read_uint u64_max) (fun h w => FeedWarning (fw_msg w) (fw_code w) (fw_counter w) h)].
Definition feed_warning_init : feed_warning := FeedWarning [] unspecified_error 0 block_id_txpool.
(** From msgpack, into a warning made by the default constructor. *)
Definition read_feed_warning (ik : bool) (v : wvalue) : expect feed_warning := read_wobject feed_warning_fields ik v feed_warning_init.

Lemma read_status_written s : read_status (WUint (status_num s)) = Ok s.
Proof. by destruct s. Qed.

(** A warning between the parts of the server is read as it was sent. *)
Lemma read_feed_warning_written ik w : in_u32 (fw_counter w) -> in_u64 (fw_height w) ->
  read_feed_warning ik (write_feed_warning w) = Ok w.
Proof.
  intros Hc Hh. unfold in_u32, in_u64 in *. unfold read_feed_warning, write_feed_warning, read_wobject, read_object, members, feed_warning_fields.
  destruct w as [m c n h]. cbn [fw_msg fw_code fw_counter fw_height fmap list_fmap fst snd] in *.
  erewrite efold_read_member; [|destruct ik; vm_compute; reflexivity|vm_compute; reflexivity|reflexivity].
  erewrite efold_read_member; [|destruct ik; vm_compute; reflexivity|vm_compute; reflexivity|].
  2:{ cbn -[read_status]. rewrite read_status_written. reflexivity. }
  do 2 wfield_step. wobject_end. done.
Qed.
End feed_wire.
End FeedWire.

(** ** Exchange rates, as the service sends them *)
Module RatesJson.
Import Responses.
Section rates.
Context `{RJ : RapidJson}.
Definition set_rate (i : nat) (z : Z) (rates : list Z) : list Z := <[i := z]> rates.
Definition rate_slots : list (slot (list Z)) :=
  imap (fun i name => required name read_real (set_rate i)) rate_names.
Definition no_rates : list Z := replicate 21 0.
Definition read_rates : reading (list Z) := read_slots rate_slots no_rates.

(** [crypto_compare_::operator()] *)
Definition crypto_compare (body : list Z) : expect (list Z) := JsonReader.from_bytes (read_bytes read_rates) body.

Context `{!RapidJsonLaws}.
#[export] Instance rates_faithful : Faithful read_rates.
Proof. apply slots_faithful. cbn. repeat constructor; apply slot_of_faithful; apply _. Qed.

Lemma crypto_compare_text v : good v = true -> fits read_rates v -> crypto_compare (compact v) = of_tree read_rates 0 v.
Proof. intros Hv Hf. apply JsonText.from_text; [apply _|done|done]. Qed.
End rates.
End RatesJson.

(** ** Samples *)
Module ResponseSamples.
Import Responses RctFacts.
#[local] Existing Instances Sample.library Sample.laws OwnershipSample.wallet_crypto.
#[local] Instance rct_encode : RctEncode := {
  ecdhEncode t scalar _ := EcdhTuple (ecdh_mask t + scalar) (ecdh_amount t + scalar);
  rct_commit a m := m + a * 1000;
  d2h a := a
}.
#[local] Instance rct_laws : RctLaws.
Proof.
  split.
  - intros [m a] s b. cbn. f_equal; lia.
  - intros a [Ha _]. cbn. by rewrite (proj2 (Z.ltb_ge a 0)).
  - done.
Qed.

Definition received : output :=
  Output (TransactionLink 100 7) (SpendMeta (OutputId 0 5) 30 15 1 200) 1600000000 0 11 12 13 (pack ringct_output 0) 0 30 (AddressIndex 1 2).
Definition gmt (z : Z) : option (list Z) := Some (bytes_of_string "2020-09-13T12:26:40Z").

Lemma rct_opens_witness :
  exists r, expand_rct received 57 = Ok (Some r) /\
    exists derived, generate_key_derivation 200 57 = Some derived /\
      Crypto.decode_amount (rb_commitment r) (EcdhTuple (rb_mask r) (rb_amount r)) derived 1 false = Some (30, 13).
Proof.
  destruct (expand_rct received 57) as [[r|]|e] eqn:E; [|vm_compute in E; congruence..]. exists r. split; [done|].
  pose proof (rct_opens received 57 (Some r)) as H. cbn -[Crypto.decode_amount generate_key_derivation] in H.
  destruct H as [_ H]; [split; vm_compute; congruence|exact E|exact H].
Defined.

(** The text of a response. *)
Definition unspent : get_unspent_outs_response := GetUnspentOutsResponse 3000 10000 30 0 [(received, [])] [3000] 57.
Example unspent_written :
  match write_get_unspent_outs gmt unspent with
  | Ok v => match JsonWriter.to_bytes (fun _ => 0) v with Ok text => bool_decide (text = compact v) | Err _ => false end && good v
  | Err _ => false
  end = true.
Proof. vm_compute. reflexivity. Qed.
(** A time that is no date of four digits for the year stops the response. *)
Example unspent_late : write_get_unspent_outs (fun _ => Some []) unspent = Err runtime_error.
Proof. vm_compute. reflexivity. Qed.
Definition with_quotes (s : String.string) : list Z := (fun c => if c =? 39 then 34 else c) <$> bytes_of_string s.
Example login_written :
  JsonWriter.to_bytes (fun _ => 0) (write_login (LoginResponse true false (AddressIndex 0 5))) =
  Ok (with_quotes "{'new_address':true,'generated_locally':false,'lookahead':{'maj_i':0,'min_i':5}}").
Proof. vm_compute. reflexivity. Qed.
End ResponseSamples.
