(* ===== verification/Admin.v ===== *)
(** The administrator's requests (src/rpc/admin.cpp, [call_admin] of
    src/rest_server.cpp): how they are read from JSON, what each command does to
    the database of Storage.v, and what it answers (module [Commands]); what the
    commands promise (module [CommandFacts]). *)

From S2P Require Import Prelude Wire Data DataWire Lmdb Tables Account Chain Subaddress Accounts Update Storage Rest RestServer Json JsonSample WalletJson.
Import Readings.

(** ** Requests and commands *)
Module Commands.
Import Responses.

Record add_account_req := AddAccountReq { aa_address : account_address; aa_key : secret_key }.
Record address_requests := AddressRequests { ar_addresses : list account_address; ar_max_subaddresses : Z; ar_type : request }.
Record modify_account_req := ModifyAccountReq { ma_addresses : list account_address; ma_status : account_status }.
Record rescan_req := RescanReq { rs_addresses : list account_address; rs_height : block_id }.
Record validate_req := ValidateReq { va_spend_public_hex : list Z; va_view_public_hex : list Z; va_view_key_hex : list Z }.
Record webhook_add_req := WebhookAddReq {
  wa_url : string; wa_token : option string; wa_address : option account_address; wa_payment_id : option hash8;
  wa_confirmations : option Z; wa_type : webhook_type
}.

(** A request with the credentials of the administrator. *)
Record admin (A : Type) := Admin { params : A; auth : option secret_key }.
Arguments Admin {A} _ _.
Arguments params {A} _.
Arguments auth {A} _.

Section commands.
Context `{RJ : RapidJson} {LM : Lmdb} {VC : ViewKeyCrypto} {SC : SubaddressCrypto}.
(** [lws::db::address_string], from text and to text. *)
Context (address_of : list Z -> expect account_address) (address_string : account_address -> list Z).

Definition wire_unwrap (source : list Z) : expect account_address :=
  match address_of source with Ok address => Ok address | Err _ => Err (schema_err schema_string) end.
Definition unwrap_all (addresses : list (list Z)) : expect (list account_address) :=
  efold (fun l elem => let* address := wire_unwrap elem in Ok (l ++ [address])) [] addresses.

(** *** Reading *)
Definition read_base58_address : reading account_address := converted read_string wire_unwrap.
(** The [read_bytes] of [WIRE_DEFINE_ENUM]. *)
Definition read_named (map : list String.string) : reading nat := converted read_string (from_string map).
Definition read_request_type : reading request :=
  converted (read_named map_request) (fun i => Ok (match i with O => create | _ => import_scan end)).
Definition read_status : reading account_status :=
  converted (read_named map_account_status) (fun i => Ok (match i with O => active | S O => inactive | _ => hidden end)).
Definition read_hook_type : reading webhook_type :=
  converted (read_named map_webhook_type) (fun i => Ok (match i with O => tx_confirmation | S O => new_account | _ => tx_spend end)).

Definition no_address : account_address := AccountAddress 0 0.
Definition add_account_slots : list (slot add_account_req) :=
  [required "address" read_base58_address (fun a q => AddAccountReq a (aa_key q));
   required "key" (read_blob 32) (fun k q => AddAccountReq (aa_address q) k)].
Definition read_add_account_req : reading add_account_req := read_slots add_account_slots (AddAccountReq no_address 0).

(** [read_addresses]: the texts are converted when all fields have been read. *)
Definition min_address_size : Z := 64.
Definition addresses_slots {A} (more : list (slot (list (list Z) * A))) : list (slot (list (list Z) * A)) :=
  required "addresses" (read_vector read_string min_address_size u64_max) (fun l q => (l, q.2)) :: more.
Definition read_addresses {A B} (more : list (slot (list (list Z) * A))) (init : A) (f : list account_address -> A -> B) : reading B :=
  converted (read_slots (addresses_slots more) ([] : list (list Z), init))
    (fun q => let* addresses := unwrap_all q.1 in Ok (f addresses q.2)).

Definition type_slot : slot (list (list Z) * request) := required "type" read_request_type (fun t q => (q.1, t)).
Definition read_address_requests : reading address_requests :=
  read_addresses [type_slot] create (fun addresses type => AddressRequests addresses 0 type).
Definition read_modify_account_req : reading modify_account_req :=
  read_addresses [required "status" read_status (fun s q => (q.1, s))] active ModifyAccountReq.
Definition read_rescan_req : reading rescan_req :=
  read_addresses [required "height" (read_unsigned u64_max) (fun h q => (q.1, h))] 0 RescanReq.
Definition read_webhook_delete_req : reading (list account_address) :=
  read_addresses [] tt (fun addresses _ => addresses).

Definition read_validate_req : reading validate_req :=
  read_slots [required "spend_public_hex" read_string (fun s q => ValidateReq s (va_view_public_hex q) (va_view_key_hex q));
              required "view_public_hex" read_string (fun v q => ValidateReq (va_spend_public_hex q) v (va_view_key_hex q));
              required "view_key_hex" read_string (fun k q => ValidateReq (va_spend_public_hex q) (va_view_public_hex q) k)]
    (ValidateReq [] [] []).

Definition webhook_add_slots : list (slot (webhook_add_req * option (list Z))) :=
  [required "type" read_hook_type (fun t '(WebhookAddReq u k a p c _, s) => (WebhookAddReq u k a p c t, s));
   required "url" read_string (fun u '(WebhookAddReq _ k a p c t, s) => (WebhookAddReq (string_of_bytes u) k a p c t, s));
   optional "token" read_string (fun k '(WebhookAddReq u _ a p c t, s) => (WebhookAddReq u (string_of_bytes <$> k) a p c t, s));
   optional "address" read_string (fun s '(q, _) => (q, s));
   optional "payment_id" (read_blob 8) (fun p '(WebhookAddReq u k a _ c t, s) => (WebhookAddReq u k a p c t, s));
   optional "confirmations" (read_unsigned u32_max) (fun c '(WebhookAddReq u k a p _ t, s) => (WebhookAddReq u k a p c t, s))].
Definition with_address (a : option account_address) (q : webhook_add_req) : webhook_add_req :=
  WebhookAddReq (wa_url q) (wa_token q) a (wa_payment_id q) (wa_confirmations q) (wa_type q).
Definition read_webhook_add_req : reading webhook_add_req :=
  converted (read_slots webhook_add_slots (WebhookAddReq "" None None None None tx_confirmation, None))
    (fun '(q, address) =>
       match address with
       | Some address => let* a := wire_unwrap address in Ok (with_address (Some a) q)
       | None => Ok (with_address None q)
       end).

(** The ids are blobs of 16 bytes, so that their array needs no limit. *)
Definition read_webhook_delete_uuid_req : reading (list uuid) :=
  read_slots [cleared "event_ids" (read_vector (read_blob 16) 16 u64_max) (fun ids _ => ids) []] [].

(** [admin<T>], and [admin<expect<void>>] whose [params] may be anything. *)
Definition admin_slots {A} (R : reading A) : list (slot (admin A)) :=
  [optional "auth" (read_blob 32) (fun k q => Admin (params q) k); required "params" R (fun p q => Admin p (auth q))].
Definition read_admin {A} (R : reading A) (init : A) : reading (admin A) := read_slots (admin_slots R) (Admin init None).
Definition read_admin_void : reading (admin unit) :=
  read_slots [optional "auth" (read_blob 32) (fun k q => Admin (params q) k)] (Admin tt None).

(** *** Answers *)
Definition truncated_account (self : account) : wvalue :=
  WObj [field "address" (WStr (address_string (acc_address self))); field "scan_height" (WUint (acc_scan_height self));
        field "access_time" (WUint (acc_access self))].
Definition truncated_request (self : request_info) : wvalue :=
  WObj [field "address" (WStr (address_string (ri_address self))); field "start_height" (WUint (ri_start_height self));
        field "lookahead" (map_address_index (ri_lookahead self))].

(** [stream_object] with [enum_as_string] for the keys: a member for every key. *)
Definition stream_object {K V} (name : K -> String.string) (write : V -> wvalue) (rows : list (K * list V)) : wvalue :=
  WObj ((fun row => field (name row.1) (WArr (write <$> row.2))) <$> rows).

(** An array that is written even when it is empty. *)
Definition write_addresses (self : list account_address) : wvalue :=
  WObj [field "updated" (WArr ((fun a => WStr (address_string a)) <$> self))].
Definition write_webhook_list (data : list (webhook_key * list webhook_value)) : wvalue :=
  WObj (array_field "webhooks" (fun row : webhook_key * list webhook_value =>
    WObj ((0, "key"%string, map_webhook_key row.1) ::
          opt_member (negb (bool_decide (row.2 = []))) (1, "value"%string, WArr (write_webhook_value <$> row.2)))) data).

Definition write_validate_error (name details : String.string) : wvalue :=
  WObj [field "field" (WStr (bytes_of_string name)); field "details" (WStr (bytes_of_string details))].
Definition output_error (name details : String.string) : wvalue := WObj [field "error" (write_validate_error name details)].

(** *** Commands

    A command is given the parameters and the database; it returns what it
    writes, or its error, and the database after it. *)
Definition command (A : Type) : Type := A -> tables -> expect wvalue * tables.

Context (start_read : tables -> expect tables) (deleted_value : tab requests -> request_info -> request_info).
Context (parse_url : string -> option string) (check_key : public_key -> bool).
(** The time of the call, and [boost::uuids::random_generator]. *)
Context (now : Z) (random : uuid).

(** The end of a command that writes the addresses it changed. *)
Definition answered {A B} (f : A -> B * tables) (write : B -> wvalue) (r : expect A) (disk : tables) : expect wvalue * tables :=
  match r with Ok a => (Ok (write (f a).1), (f a).2) | Err e => (Err e, disk) end.

Definition accept_requests_ : command address_requests := fun req disk =>
  answered id write_addresses (accept_requests deleted_value now (ar_type req) (ar_addresses req) (ar_max_subaddresses req) disk) disk.
Definition add_account_ : command add_account_req := fun req disk =>
  answered (pair [aa_address req]) write_addresses (add_account now (aa_address req) (aa_key req) default_account disk) disk.
Definition list_accounts_ : command unit := fun _ disk =>
  (let* reader := start_read disk in
   Ok (stream_object (fun s => get_string map_account_status (Z.to_nat (account_status_num s))) truncated_account
         ((fun s => (s, get_accounts s reader)) <$> keys (t_accounts reader))), disk).
Definition list_requests_ : command unit := fun _ disk =>
  (let* reader := start_read disk in
   Ok (stream_object (fun t => get_string map_request (Z.to_nat (request_num t))) truncated_request
         ((fun t => (t, dups (d:=requests) (t_requests reader) t)) <$> keys (t_requests reader))), disk).
Definition modify_account_ : command modify_account_req := fun req disk =>
  answered id write_addresses (change_status (ma_status req) (ma_addresses req) disk) disk.
Definition reject_requests_ : command address_requests := fun req disk =>
  answered id write_addresses (Ok (reject_requests (ar_type req) (ar_addresses req) disk)) disk.
Definition rescan_ : command rescan_req := fun req disk =>
  answered id write_addresses (rescan (rs_height req) (rs_addresses req) disk) disk.

(** [convert_key]: the 32 bytes, or the error that was written. *)
Definition convert_key (input : list Z) (name : String.string) : Z + wvalue :=
  if negb (Nat.eqb (length input) 64) then inr (output_error name "Expected 64 characters")
  else match to_buffer 32 input with Some out => inl (be_decode out) | None => inr (output_error name "Invalid hex") end.

Definition validate (req : validate_req) : wvalue :=
  if bool_decide (va_spend_public_hex req = va_view_public_hex req)
  then output_error "spend_public_hex" "spend_public_hex and view_public_hex should not be equal"
  else
    match convert_key (va_spend_public_hex req) "spend_public_hex" with
    | inr error => error
    | inl spend_public =>
      match convert_key (va_view_public_hex req) "view_public_hex" with
      | inr error => error
      | inl view_public =>
        match convert_key (va_view_key_hex req) "view_key_hex" with
        | inr error => error
        | inl view_key =>
          if negb (check_key spend_public) then output_error "spend_public_hex" "Invalid public key format"
          else if negb (check_key view_public) then output_error "view_public_hex" "Invalid public key format"
          else if negb (bool_decide (secret_key_to_public_key view_key = Some view_public))
          then output_error "view_key_hex" "view_key and view_public do not match"
          else WObj [field "address" (WStr (address_string (AccountAddress view_public spend_public)))]
        end
      end
    end.
Definition validate_ : command validate_req := fun req disk => (Ok (validate req), disk).

(** Which types of webhooks take an address. *)
Definition hook_fits (type : webhook_type) (address : option account_address) : bool :=
  match type with
  | tx_confirmation | tx_spend => is_some_b address
  | new_account => negb (is_some_b address)
  end.
Definition new_webhook (req : webhook_add_req) : webhook_value :=
  let payment_id := match wa_payment_id req with Some p => u64_of_hash8 p | None => 0 end in
  (WebhookDupsort payment_id random, WebhookData (wa_url req) (default ""%string (wa_token req)) (default 1 (wa_confirmations req))).
Definition webhook_add_ : command webhook_add_req := fun req disk =>
  if negb (hook_fits (wa_type req) (wa_address req)) then (Err (lws_err bad_webhook), disk)
  else
    let event := new_webhook req in
    answered (pair event) write_webhook_value (add_webhook parse_url (wa_type req) (wa_address req) event disk) disk.

Definition webhook_delete_ : command (list account_address) := fun addresses disk =>
  answered (pair tt) (fun _ => WObj []) (clear_webhooks addresses disk) disk.
Definition webhook_del_uuid_ : command (list uuid) := fun ids disk =>
  answered (pair tt) (fun _ => WObj []) (Ok (clear_webhook_ids ids disk)) disk.
Definition webhook_list_ : command unit := fun _ disk =>
  (let* reader := start_read disk in Ok (write_webhook_list (get_webhooks reader)), disk).

(** *** [call_admin] *)
Context (opts : runtime_options) (available : list Z -> Z).

Definition no_values {A} (a : A) : A := a.
Definition add_values (r : address_requests) : address_requests := AddressRequests (ar_addresses r) (max_subaddresses_ opts) (ar_type r).

Section call_admin.
Context {A : Type} (R : reading (admin A)) (add : A -> A) (E : command A).
Definition call_admin (post : bool) (root : list Z) (disk : tables) : expect (list Z) * tables :=
  if negb post then (Err (lws_err bad_verb), disk)
  else
    match JsonReader.from_bytes (read_bytes R) root with
    | Err e => (Err e, disk)
    | Ok req =>
      match admin_allowed start_read opts (auth req) disk with
      | Err e => (Err e, disk)
      | Ok _ => let '(r, disk) := E (add (params req)) disk in (let* v := r in JsonWriter.to_bytes available v, disk)
      end
    end.
End call_admin.

(** The endpoints of the table [admin_endpoints]; none of the others is here. *)
Definition run_admin (h : Routes.handler) : option (bool -> list Z -> tables -> expect (list Z) * tables) :=
  match h with
  | Routes.accept_requests_ => Some (call_admin (read_admin read_address_requests (AddressRequests [] 0 create)) add_values accept_requests_)
  | Routes.add_account_ => Some (call_admin (read_admin read_add_account_req (AddAccountReq no_address 0)) no_values add_account_)
  | Routes.list_accounts_ => Some (call_admin read_admin_void no_values list_accounts_)
  | Routes.list_requests_ => Some (call_admin read_admin_void no_values list_requests_)
  | Routes.modify_account_ => Some (call_admin (read_admin read_modify_account_req (ModifyAccountReq [] active)) no_values modify_account_)
  | Routes.reject_requests_ => Some (call_admin (read_admin read_address_requests (AddressRequests [] 0 create)) add_values reject_requests_)
  | Routes.rescan_ => Some (call_admin (read_admin read_rescan_req (RescanReq [] 0)) no_values rescan_)
  | Routes.validate_ => Some (call_admin (read_admin read_validate_req (ValidateReq [] [] [])) no_values validate_)
  | Routes.webhook_add_ => Some (call_admin (read_admin read_webhook_add_req (WebhookAddReq "" None None None None tx_confirmation)) no_values webhook_add_)
  | Routes.webhook_delete_ => Some (call_admin (read_admin read_webhook_delete_req []) no_values webhook_delete_)
  | Routes.webhook_del_uuid_ => Some (call_admin (read_admin read_webhook_delete_uuid_req []) no_values webhook_del_uuid_)
  | Routes.webhook_list_ => Some (call_admin read_admin_void no_values webhook_list_)
  | _ => None
  end.
End commands.
Arguments Admin {A} _ _.
Arguments params {A} _.
Arguments auth {A} _.
End Commands.

(** ** What the commands promise *)
Module CommandFacts.
Import Commands.

(** *** Requests are read as their trees *)
Section readings.
Context `{RJ : RapidJson} `{!RapidJsonLaws} (address_of : list Z -> expect account_address).

Ltac slots_done := apply slots_faithful; repeat constructor; apply slot_of_faithful; apply _.

#[export] Instance base58_faithful : Faithful (read_base58_address address_of).
Proof. apply _. Qed.
#[export] Instance add_account_faithful : Faithful (read_add_account_req address_of).
Proof. slots_done. Qed.
#[export] Instance texts_faithful : Faithful (read_vector read_string min_address_size u64_max).
Proof. by apply vector_faithful; [| |apply _]. Qed.
#[export] Instance ids_faithful : Faithful (read_vector (read_blob 16) 16 u64_max).
Proof. by apply vector_faithful; [| |apply _]. Qed.
Lemma addresses_faithful {A B} (more : list (slot (list (list Z) * A))) (init : A) (f : list account_address -> A -> B) :
  Forall slot_faithful more -> Faithful (read_addresses address_of more init f).
Proof. intros Hm. apply converted_faithful, slots_faithful. constructor; [|done]. apply slot_of_faithful; apply _. Qed.
#[export] Instance address_requests_faithful : Faithful (read_address_requests address_of).
Proof. apply addresses_faithful. repeat constructor; apply slot_of_faithful; apply _. Qed.
#[export] Instance modify_account_faithful : Faithful (read_modify_account_req address_of).
Proof. apply addresses_faithful. repeat constructor; apply slot_of_faithful; apply _. Qed.
#[export] Instance rescan_faithful : Faithful (read_rescan_req address_of).
Proof. apply addresses_faithful. repeat constructor; apply slot_of_faithful; apply _. Qed.
#[export] Instance webhook_delete_faithful : Faithful (read_webhook_delete_req address_of).
Proof. by apply addresses_faithful. Qed.
#[export] Instance validate_faithful : Faithful read_validate_req.
Proof. slots_done. Qed.
#[export] Instance webhook_add_faithful : Faithful (read_webhook_add_req address_of).
Proof. apply converted_faithful. slots_done. Qed.
#[export] Instance webhook_del_uuid_faithful : Faithful read_webhook_delete_uuid_req.
Proof. slots_done. Qed.
#[export] Instance admin_faithful {A} (R : reading A) (init : A) : Faithful R -> Faithful (read_admin R init).
Proof. intros HR. slots_done. Qed.
#[export] Instance admin_void_faithful : Faithful read_admin_void.
Proof. slots_done. Qed.
End readings.

Section facts.
Context `{RJ : RapidJson} {LM : Lmdb} {VC : ViewKeyCrypto} {SC : SubaddressCrypto}.
Context (address_of : list Z -> expect account_address) (address_string : account_address -> list Z).
Context (start_read : tables -> expect tables) (deleted_value : tab requests -> request_info -> request_info).
Context (parse_url : string -> option string) (check_key : public_key -> bool).
Context (now : Z) (random : uuid) (opts : runtime_options) (available : list Z -> Z).
Context (points : checkpoints).

#[local] Abbreviation step := (storage_step points deleted_value parse_url).

(** *** Who may call

    The key is the view key of an account that is not inactive and has the flag;
    the spend key of the address does not matter. *)
Definition is_administrator (disk : tables) (key : secret_key) : Prop :=
  exists view reader st u, secret_key_to_public_key key = Some view /\ start_read disk = Ok reader /\
    get_account (AccountAddress view 0) reader = Ok (st, u) /\ st <> inactive /\ has_flag (acc_flags u) admin_account = true.

Lemma admin_allowed_iff auth disk :
  admin_allowed start_read opts auth disk = Ok tt <->
  disable_admin_auth opts = true \/ exists key, auth = Some key /\ is_administrator disk key.
Proof.
  unfold admin_allowed, is_administrator. destruct (disable_admin_auth opts); [split; [by left|done]|]. split.
  - destruct auth as [key|]; [|done]. destruct (secret_key_to_public_key key) as [view|] eqn:Ev; [|done]. intros H. inv_ok H. inv_ok H.
    case_bool_decide; [done|]. destruct (Z.land _ _ =? 0) eqn:Ef; [done|]. right. exists key. split; [done|].
    match goal with H : get_account _ ?r = Ok ?p |- _ => exists view, r, p.1, p.2 end.
    split_and!; try done; [by rewrite <- surjective_pairing|]. unfold has_flag. by rewrite Ef.
  - intros [|(key & -> & view & reader & st & u & -> & -> & Hg & Hs & Hf)]; [done|]. cbn [ebind]. rewrite Hg. cbn [ebind fst snd].
    rewrite bool_decide_false by done. unfold has_flag in Hf. apply negb_true_iff in Hf. by rewrite Hf.
Qed.

(** An administrator whose account is hidden - the way to delete an account - is
    still one; an inactive one is not. *)
Theorem hidden_administrators_allowed key view reader u disk :
  secret_key_to_public_key key = Some view -> start_read disk = Ok reader ->
  get_account (AccountAddress view 0) reader = Ok (hidden, u) -> has_flag (acc_flags u) admin_account = true ->
  admin_allowed start_read opts (Some key) disk = Ok tt.
Proof. intros Hv Hr Hg Hf. apply admin_allowed_iff. right. exists key. split; [done|]. by exists view, reader, hidden, u. Qed.

(** *** One transaction at most *)
Definition stays_or_steps {A} (E : command A) : Prop :=
  forall req disk, ids_left disk -> disk = (E req disk).2 \/ step disk (E req disk).2.

Lemma answered_steps {A B} (f : A -> B * tables) write r disk :
  (forall a, r = Ok a -> step disk (f a).2) -> disk = (answered f write r disk).2 \/ step disk (answered f write r disk).2.
Proof. intros H. destruct r as [a|e]; [right; by apply H|by left]. Qed.

Lemma call_admin_steps {A} (R : reading (admin A)) add (E : command A) post root disk : stays_or_steps E -> ids_left disk ->
  let disk' := (call_admin start_read opts available R add E post root disk).2 in
  disk' = disk \/
  step disk disk' /\ post = true /\ exists req, JsonReader.from_bytes (read_bytes R) root = Ok req /\ admin_allowed start_read opts (auth req) disk = Ok tt.
Proof.
  intros HE Hi disk'. subst disk'. unfold call_admin. destruct post; [|by left]. cbn [negb].
  destruct (JsonReader.from_bytes _ _) as [req|e]; [|by left]. destruct (admin_allowed _ _ _ _) as [[]|e] eqn:Ea; [|by left].
  specialize (HE (add (params req)) disk Hi). destruct (E _ _) as [r disk']. cbn [snd] in *.
  destruct HE as [<-|Hs]; [by left|]. right. split; [done|]. split; [done|]. by exists req.
Qed.

Create HintDb admin.
#[local] Hint Constructors storage_step : admin.

Lemma accept_requests_steps : stays_or_steps (accept_requests_ address_string deleted_value now).
Proof. intros req disk Hi. apply answered_steps. intros [l s] H. eauto with admin. Qed.
Lemma add_account_steps : stays_or_steps (add_account_ address_string now).
Proof. intros req disk Hi. apply answered_steps. intros s H. eauto with admin. Qed.
Lemma modify_account_steps : stays_or_steps (modify_account_ address_string).
Proof. intros req disk Hi. apply answered_steps. intros [l s] H. eauto with admin. Qed.
Lemma rescan_steps : stays_or_steps (rescan_ address_string).
Proof. intros req disk Hi. apply answered_steps. intros [l s] H. eauto with admin. Qed.
Lemma reject_requests_steps : stays_or_steps (reject_requests_ address_string).
Proof. intros req disk Hi. apply answered_steps. intros p [= <-]. apply step_reject_requests. Qed.
Lemma webhook_add_steps : stays_or_steps (webhook_add_ parse_url random).
Proof.
  intros req disk Hi. unfold webhook_add_. destruct (negb _); [by left|]. apply answered_steps. intros s H. eauto with admin.
Qed.
Lemma webhook_delete_steps : stays_or_steps webhook_delete_.
Proof. intros req disk Hi. apply answered_steps. intros s H. eauto with admin. Qed.
Lemma webhook_del_uuid_steps : stays_or_steps webhook_del_uuid_.
Proof. intros req disk Hi. apply answered_steps. intros s [= <-]. apply step_clear_webhook_ids. Qed.
(** The key that the text of a request has, by the endpoint's own reader. *)
Definition key_of {A} (R : reading (admin A)) (root : list Z) : expect (option secret_key) :=
  let* req := JsonReader.from_bytes (read_bytes R) root in Ok (auth req).
Definition request_key (h : Routes.handler) (root : list Z) : expect (option secret_key) :=
  match h with
  | Routes.accept_requests_ | Routes.reject_requests_ => key_of (read_admin (read_address_requests address_of) (AddressRequests [] 0 create)) root
  | Routes.add_account_ => key_of (read_admin (read_add_account_req address_of) (AddAccountReq no_address 0)) root
  | Routes.modify_account_ => key_of (read_admin (read_modify_account_req address_of) (ModifyAccountReq [] active)) root
  | Routes.rescan_ => key_of (read_admin (read_rescan_req address_of) (RescanReq [] 0)) root
  | Routes.validate_ => key_of (read_admin read_validate_req (ValidateReq [] [] [])) root
  | Routes.webhook_add_ => key_of (read_admin (read_webhook_add_req address_of) (WebhookAddReq "" None None None None tx_confirmation)) root
  | Routes.webhook_delete_ => key_of (read_admin (read_webhook_delete_req address_of) []) root
  | Routes.webhook_del_uuid_ => key_of (read_admin read_webhook_delete_uuid_req []) root
  | _ => key_of read_admin_void root
  end.

(** C10: A request to an administrator's endpoint leaves the database as it is,
    or it was a POST whose own [auth] member, as the endpoint reads it, is the view
    key of an administrator's account that is not inactive (or authentication is
    disabled), and the database took one step of the transition system of
    [storage]: one write transaction, never two, so that every invariant of the
    reachable databases also holds after it. *)
Theorem admin_calls_are_steps h run post root disk :
  run_admin address_of address_string start_read deleted_value parse_url check_key now random opts available h = Some run -> ids_left disk ->
  let disk' := (run post root disk).2 in
  disk' = disk \/
  step disk disk' /\ post = true /\ exists auth, request_key h root = Ok auth /\
    (disable_admin_auth opts = true \/ exists key, auth = Some key /\ is_administrator disk key).
Proof.
  intros H Hi disk'. subst disk'.
  assert (forall A (R : reading (admin A)) add (E : command A), stays_or_steps E ->
    let disk' := (call_admin start_read opts available R add E post root disk).2 in
    disk' = disk \/ step disk disk' /\ post = true /\ exists auth, key_of R root = Ok auth /\
      (disable_admin_auth opts = true \/ exists key, auth = Some key /\ is_administrator disk key)) as Hc.
  { intros A R add E HE. cbv zeta. destruct (call_admin_steps R add E post root disk HE Hi) as [H'|(Hs & Hp & req & Hr & Ha)]; [by left|].
    right. split_and!; [done|done|]. exists (auth req). unfold key_of. rewrite Hr. split; [done|]. by apply admin_allowed_iff. }
  destruct h; cbn in H; try done; injection H as <-; apply Hc;
    first [by intros ???; left | by auto using accept_requests_steps, add_account_steps, modify_account_steps, rescan_steps,
      reject_requests_steps, webhook_add_steps, webhook_delete_steps, webhook_del_uuid_steps].
Qed.

End facts.

(** *** Webhooks *)
Section hooks.
Context {LM : Lmdb} {LL : LmdbLaws LM} (parse_url : string -> option string) (random : uuid).

(** The hooks for a payment id are a block of the sorted values of the key. *)
Lemma take_while_block {A} (R : A -> A -> Prop) (p : A -> bool) l x :
  StronglySorted R l -> (forall a b, a ∈ l -> b ∈ l -> R a b -> p b = true -> p a = true) -> x ∈ take_while p l <-> x ∈ l /\ p x = true.
Proof.
  induction 1 as [|y l Hl IH Hy]; intros Hp; cbn [take_while]; [rewrite elem_of_nil; tauto|]. rewrite Forall_forall in Hy.
  destruct (p y) eqn:E.
  - rewrite !elem_of_cons, IH; [naive_solver|]. intros a b Ha Hb. apply Hp; by apply elem_of_cons; right.
  - rewrite elem_of_nil, elem_of_cons. split; [done|]. intros [[->|Hx] Hpx]; [congruence|].
    rewrite (Hp y x) in E; try done; try by apply elem_of_cons; [left|right]. by apply elem_of_cons; left. by apply elem_of_cons; right. by apply Hy.
Qed.

Lemma matching_hooks_elem key p (t : tab webhooks) h : (forall x, x ∈ dups (d:=webhooks) t key -> 0 <= wd_event_id x.1) ->
  h ∈ matching_hooks key p t <-> h ∈ dups (d:=webhooks) t key /\ wd_payment_id h.1 = p.
Proof.
  intros Hn. set (q := fun d => webhook_dupsort_lt d (WebhookDupsort p 0)).
  assert (forall a b, td_sort_lt webhooks a b = true -> q b = true -> q a = true) as Hq.
  { intros a b Hab Hb. eapply (tlt_trans (lt:=webhook_dupsort_lt)); [exact Hab|exact Hb]. }
  assert (forall x, x ∈ both_range (d:=webhooks) t key q -> x ∈ dups (d:=webhooks) t key /\ p <= wd_payment_id x.1) as Hge.
  { intros x Hx. apply both_range_elem in Hx as [Hx Hf]; [|done]. split; [done|]. specialize (Hn x Hx). unfold q, webhook_dupsort_lt in Hf. cbn in Hf.
    destruct (Z.eqb_spec (wd_payment_id x.1) p); [lia|]. apply Z.ltb_ge in Hf. lia. }
  unfold matching_hooks. fold q. rewrite (take_while_block (fun x y => td_sort_lt webhooks (td_proj webhooks x) (td_proj webhooks y) = true)).
  - rewrite Z.eqb_eq. split; [intros [Hx Hp]; by apply Hge in Hx as [? _]|]. intros [Hx Hp]. split; [|done].
    apply both_range_elem; [done|]. split; [done|]. unfold q, webhook_dupsort_lt. cbn. rewrite Hp, Z.eqb_refl. apply Z.ltb_ge. by apply Hn.
  - by apply both_range_sorted.
  - intros a b Ha Hb Hab Hpb. apply Hge in Ha as [_ Ha]. apply Z.eqb_eq in Hpb. apply Z.eqb_eq.
    cbn in Hab. unfold webhook_dupsort_lt in Hab. destruct (Z.eqb_spec (wd_payment_id a.1) (wd_payment_id b.1)); [lia|]. apply Z.ltb_lt in Hab. lia.
Qed.

Section del_where.
Context {d : tdesc} `{!TdescOk d} (p : td_val d -> bool).

Lemma del_hits k (l : list (td_val d)) (t : tab d) :
  foldl (fun t v => if p v then del k (td_proj d v) t else t) t l = foldl (fun t v => del k (td_proj d v) t) t (List.filter p l).
Proof. revert t. induction l as [|v l IH]; intros t; [done|]. cbn [foldl List.filter]. destruct (p v); apply IH. Qed.

Lemma del_row k (t : tab d) k' x :
  x ∈ dups (foldl (fun t v => if p v then del k (td_proj d v) t else t) t (dups t k)) k' <->
  x ∈ dups t k' /\ (k' = k -> p x = false).
Proof.
  rewrite del_hits, foldl_del_elem. split; intros [Hx Hp]; (split; [done|]); intros ->.
  - destruct (p x) eqn:E; [|done]. exfalso. apply (Hp eq_refl x); [|done]. by apply list_elem_of_In, filter_In; rewrite <- list_elem_of_In.
  - intros v Hv E. apply list_elem_of_In, filter_In in Hv as [Hv Hpv]. apply list_elem_of_In in Hv.
    rewrite (dups_inj t k x v Hx Hv E) in Hp. by rewrite Hp in Hpv.
Qed.

Lemma del_rows ks (t : tab d) k x :
  x ∈ dups (foldl (fun t k => foldl (fun t v => if p v then del k (td_proj d v) t else t) t (dups t k)) t ks) k <->
  x ∈ dups t k /\ (k ∈ ks -> p x = false).
Proof.
  revert t. induction ks as [|k0 ks IH]; intros t; cbn [foldl].
  - split; [intros Hx; by split; [|intros ?%elem_of_nil]|tauto].
  - rewrite IH, del_row, elem_of_cons. naive_solver.
Qed.

Lemma del_where_elem (t : tab d) k x : x ∈ dups (del_where p t) k <-> x ∈ dups t k /\ p x = false.
Proof.
  unfold del_where. rewrite del_rows. split; [|tauto]. intros [Hx Hp]. split; [done|]. apply Hp, keys_spec; [done|]. intros E.
  rewrite E in Hx. by apply elem_of_nil in Hx.
Qed.
End del_where.

(** No id of a stored webhook is the one just drawn; ids are unsigned. *)
Definition fresh_id (disk : tables) : Prop :=
  0 <= random /\ forall k h, h ∈ dups (d:=webhooks) (t_webhooks disk) k -> 0 <= wd_event_id h.1 /\ wd_event_id h.1 <> random.

Lemma add_webhook_tables type address event disk disk' : add_webhook parse_url type address event disk = Ok disk' ->
  exists user, disk' = with_webhooks (put (d:=webhooks) (WebhookKey user type) event (t_webhooks disk)) disk /\
    match address with
    | Some a => (user <> account_id_invalid -> exists found, find_lookup a disk = Some found /\ user = al_id (ab_lookup found)) /\
                (type <> new_account -> user <> account_id_invalid)
    | None => user = account_id_invalid
    end.
Proof.
  unfold add_webhook. destruct (negb (valid_url _ _)); [done|]. destruct (_ && _) eqn:Eu; [done|]. intros [= <-].
  eexists. split; [reflexivity|]. destruct address as [a|]; [|done]. split.
  - intros Hu. destruct (find_lookup a disk) as [found|]; [by exists found|done].
  - intros Ht Hu. rewrite Hu, Z.eqb_refl in Eu. cbn in Eu. by rewrite bool_decide_false in Eu.
Qed.

(** C24: A webhook that webhook_add accepts is the one the scanner finds: for the
    account of the address (no account for new-account), its type and its payment
    id - eight zeros if none was given - it is found from then on, with every
    webhook that was found before and no other. What is returned is that webhook.
    Its event id is all that webhook_delete_uuid needs to remove it again, and
    nothing else goes with it. *)
Theorem webhook_until_deleted req disk v disk' :
  fresh_id disk -> webhook_add_ parse_url random req disk = (Ok v, disk') ->
  let event := new_webhook random req in
  v = write_webhook_value event /\
  (exists user,
     match wa_address req with
     | Some a => exists found, find_lookup a disk = Some found /\ user = al_id (ab_lookup found)
     | None => user = account_id_invalid
     end /\
     forall k p h, h ∈ matching_hooks k p (t_webhooks disk') <->
       h ∈ matching_hooks k p (t_webhooks disk) \/ (k = WebhookKey user (wa_type req) /\ p = wd_payment_id event.1 /\ h = event)) /\
  forall ids k h, ids = [random] -> h ∈ dups (d:=webhooks) (t_webhooks (webhook_del_uuid_ ids disk').2) k <->
    h ∈ dups (d:=webhooks) (t_webhooks disk) k.
Proof.
  intros [Hr Hfresh]. unfold webhook_add_. destruct (hook_fits _ _) eqn:Hfits; [|done]. cbn [negb].
  destruct (add_webhook _ _ _ _ _) as [disk1|e] eqn:Ha; [|done]. cbn [answered fst snd]. intros [= <- <-]. set (event := new_webhook random req) in *. cbv zeta.
  apply add_webhook_tables in Ha as (user & -> & Huser). split; [done|].
  assert (forall k h, h ∈ dups (d:=webhooks) (put (d:=webhooks) (WebhookKey user (wa_type req)) event (t_webhooks disk)) k <->
    h ∈ dups (d:=webhooks) (t_webhooks disk) k \/ (k = WebhookKey user (wa_type req) /\ h = event)) as Hput.
  { intros k h. rewrite (elem_put (d:=webhooks)). split; [tauto|]. intros [Hh|?]; [right|by left]. split; [done|]. intros _ E.
    apply Hfresh in Hh as [_ Hh]. cbn in E. by rewrite E in Hh. }
  split.
  - exists user. split.
    + destruct (wa_address req) as [a|]; [|done]. destruct Huser as [Hf Ht]. apply Hf, Ht. intros E. unfold hook_fits in Hfits. by rewrite E in Hfits.
    + intros k p h. cbn [t_webhooks with_webhooks]. rewrite !matching_hooks_elem.
      * rewrite Hput. naive_solver.
      * intros x Hx. by destruct (Hfresh k x Hx).
      * intros x Hx. apply Hput in Hx as [Hx|[_ ->]]; [by destruct (Hfresh k x Hx)|done].
  - intros ids k h ->. cbn [webhook_del_uuid_ answered fst snd]. unfold clear_webhook_ids. cbn [t_webhooks with_webhooks with_events].
    rewrite del_where_elem, Hput. cbn [existsb]. rewrite orb_false_r, Z.eqb_neq. split.
    + intros [[Hh|[_ ->]] Hn]; [done|]. by destruct Hn.
    + intros Hh. split; [by left|]. apply Hfresh in Hh as [_ Hh]. congruence.
Qed.

(** webhook_delete removes the webhooks of confirmations of the addresses only:
    those of their spends are still found. *)
Theorem webhook_delete_keeps_spends addresses disk disk' k h : (webhook_delete_ addresses disk).2 = disk' -> wk_type k <> tx_confirmation ->
  h ∈ dups (d:=webhooks) (t_webhooks disk) k -> h ∈ dups (d:=webhooks) (t_webhooks disk') k.
Proof.
  intros <- Hk Hh. unfold webhook_delete_. destruct (clear_webhooks addresses disk) as [s|e] eqn:E; [|done]. cbn [answered fst snd].
  revert E. apply (efold_invariant (fun s => h ∈ dups (d:=webhooks) (t_webhooks s) k)); [|done].
  intros s0 a s1 _ Hs Hc. unfold clear_address in Hc. inv_ok Hc. injection Hc as <-. cbn [t_webhooks with_events with_webhooks].
  unfold del_all. apply foldl_del_elem. split; [done|]. intros ->. done.
Qed.
End hooks.
End CommandFacts.

(** ** Samples: from the body of a POST to the database *)
Module AdminSample.
Import Lmdb.Reference Commands CommandFacts Requests.
#[local] Existing Instances Sample.library Sample.laws.
#[local] Instance sub_crypto : SubaddressCrypto := SubaddressSample.crypto.
#[local] Instance key_crypto : ViewKeyCrypto := AccountsSample.key_crypto.

Definition address_text : list Z := bytes_of_string "4user".
Definition parse_address (source : list Z) : expect account_address :=
  if bool_decide (source = address_text) then Ok AccountsSample.other else Err (lws_err bad_address).
Definition show_address (a : account_address) : list Z := address_text.
Definition parse_url (url : string) : option string := if bool_decide (url = "http://a"%string) then Some "http"%string else None.
Definition any_key (k : public_key) : bool := true.
Definition opts : runtime_options := RuntimeOptions 1000 false true false.
Definition run (h : Routes.handler) : bool -> list Z -> tables -> expect (list Z) * tables :=
  default (fun _ _ s => (Err logic_error, s))
    (run_admin parse_address show_address RestSample.start_read RestSample.deleted_value parse_url any_key 9 77 opts (fun _ => 0) h).

(** A user and an administrator, whose view key is 42. *)
Definition with_admin (status : account_status) : tables :=
  match (let* s := add_account 9 (AccountAddress 40 0) 42 admin_account StorageSample.one in change_status status [AccountAddress 40 0] s) with
  | Ok (_, s) => s
  | Err _ => StorageSample.start
  end.
Definition disk : tables := with_admin active.

Definition webhook_body (key : Z) (type : webhook_type) : list Z :=
  compact (WObj [member "auth" (wblob 32 key);
    member "params" (WObj [member "type" (write_webhook_type type); member "url" (WStr (bytes_of_string "http://a"));
      member "address" (WStr address_text); member "payment_id" (wblob 8 5); member "confirmations" (WUint 3)])]).
Definition hook (payment_id : hash8) : webhook_value := (WebhookDupsort (u64_of_hash8 payment_id) 77, WebhookData "http://a" "" 3).
Definition hooked : tables := (run Routes.webhook_add_ true (webhook_body 42 tx_confirmation) disk).2.

Example webhook_added :
  (run Routes.webhook_add_ true (webhook_body 42 tx_confirmation) disk).1 = JsonWriter.to_bytes (fun _ => 0) (write_webhook_value (hook 5)) /\
  find_webhook (WebhookKey 1 tx_confirmation) 5 hooked = [hook 5].
Proof. vm_compute. split; reflexivity. Qed.
(** Not by a GET, with another key, or with an address for new-account. *)
Example webhook_refused :
  run Routes.webhook_add_ false (webhook_body 42 tx_confirmation) disk = (Err (lws_err bad_verb), disk) /\
  run Routes.webhook_add_ true (webhook_body 67 tx_confirmation) disk = (Err (lws_err account_not_found), disk) /\
  run Routes.webhook_add_ true (webhook_body 42 new_account) disk = (Err (lws_err bad_webhook), disk).
Proof. vm_compute. split_and!; reflexivity. Qed.
(** A hidden administrator goes on, an inactive one does not. *)
Example administrator_hidden :
  (run Routes.list_requests_ true (compact (WObj [member "auth" (wblob 32 42)])) (with_admin hidden)).1 = Ok (bytes_of_string "{}") /\
  (run Routes.list_requests_ true (compact (WObj [member "auth" (wblob 32 42)])) (with_admin inactive)).1 = Err (lws_err account_not_found).
Proof. vm_compute. split; reflexivity. Qed.

Lemma disk_ids : ids_left disk.
Proof.
  intros st u Hu. unfold has_account in Hu. destruct st; vm_compute in Hu; repeat (apply elem_of_cons in Hu as [->|Hu]; [vm_compute; congruence|]);
    by apply elem_of_nil in Hu.
Qed.

Lemma admin_calls_are_steps_witness :
  hooked <> disk /\ storage_step ChainSample.points RestSample.deleted_value parse_url disk hooked /\
  exists key, request_key parse_address Routes.webhook_add_ (webhook_body 42 tx_confirmation) = Ok (Some key) /\
    is_administrator RestSample.start_read disk key.
Proof.
  assert (hooked <> disk) as Hn by (intros E; apply (f_equal (fun s => find_webhook (WebhookKey 1 tx_confirmation) 5 s)) in E; vm_compute in E; congruence).
  split; [exact Hn|].
  destruct (admin_calls_are_steps parse_address show_address RestSample.start_read RestSample.deleted_value parse_url any_key 9 77 opts (fun _ => 0)
    ChainSample.points Routes.webhook_add_ (run Routes.webhook_add_) true (webhook_body 42 tx_confirmation) disk eq_refl disk_ids)
    as [E|(Hs & _ & auth & Ha & [Hd|(key & -> & Hk)])]; [by destruct Hn|discriminate Hd|].
  split; [exact Hs|]. exact (ex_intro _ key (conj Ha Hk)).
Defined.

Definition add_hook : webhook_add_req := WebhookAddReq "http://a" None (Some AccountsSample.other) (Some 5) (Some 3) tx_confirmation.
Lemma webhook_until_deleted_witness :
  exists disk', webhook_add_ parse_url 77 add_hook disk = (Ok (write_webhook_value (hook 5)), disk') /\
    hook 5 ∈ matching_hooks (WebhookKey 1 tx_confirmation) (u64_of_hash8 5) (t_webhooks disk') /\
    dups (d:=webhooks) (t_webhooks (clear_webhook_ids [77] disk')) (WebhookKey 1 tx_confirmation) = [].
Proof.
  destruct (webhook_add_ parse_url 77 add_hook disk) as [r disk'] eqn:E. assert (r = Ok (write_webhook_value (hook 5))) as -> by (apply (f_equal fst) in E; vm_compute in E; rewrite <- E; vm_compute; reflexivity).
  exists disk'. split; [reflexivity|].
  destruct (webhook_until_deleted parse_url 77 add_hook disk (write_webhook_value (hook 5)) disk') as (_ & (user & Hu & Hf) & Hd); [|exact E|].
  - split; [done|]. intros k h Hh. assert (t_webhooks disk = []) as E0 by (vm_compute; reflexivity). rewrite E0 in Hh. by apply elem_of_nil in Hh.
  - assert (user = 1) as -> by (destruct Hu as (found & Hfound & ->); vm_compute in Hfound; by injection Hfound as <-).
    split; [apply Hf; by right|]. specialize (Hd [77] (WebhookKey 1 tx_confirmation)). cbn [webhook_del_uuid_ answered fst snd] in Hd.
    destruct (dups _ _) as [|h l] eqn:El; [reflexivity|]. exfalso.
    assert (h ∈ dups (d:=webhooks) (t_webhooks disk) (WebhookKey 1 tx_confirmation)) as Hh by (apply (Hd h eq_refl); by left).
    assert (t_webhooks disk = []) as E0 by (vm_compute; reflexivity). rewrite E0 in Hh. by apply elem_of_nil in Hh.
Defined.
End AdminSample.
