(* ===== verification/Runner.v ===== *)
(** The scanner process (src/scanner.cpp): how a request to the daemon is sent and
    answered while the process may be told to stop (module [Fetch]), how webhooks
    leave the process over HTTP and ZeroMQ (src/rpc/webhook.h, module [Webhooks]),
    and [scanner::run], which reads the accounts, runs the threads of Threads.v on
    them and synchronizes with the daemon in between (module [Runs]). *)

From S2P Require Import Prelude Wire Data DataWire Account Lmdb Tables Chain Subaddress Accounts Update Threads Sync Json JsonSample RestServer HttpClient.

(** ** [fetch_chain] *)
Module Fetch.
Section fetch.
Import Answer.
(** The conditions of the errors of other libraries are theirs. *)
Context (other_condition : error -> option errc).

Definition sync_rpc_timeout : Z := 30.

(** One turn of either loop: what the client answered, whether the handler of
    SIGINT had run after it, and the seconds since the loop began. *)
Record attempt (A : Type) := Attempt { at_result : expect A; at_shutdown : bool; at_elapsed : Z }.
Arguments Attempt {A} _ _ _.
Arguments at_result {A} _.
Arguments at_shutdown {A} _.
Arguments at_elapsed {A} _.

(** [None] while the loop goes on. *)
Definition try_once {A} (a : attempt A) : option (expect A) :=
  match at_result a with
  | Ok r => Some (Ok r)
  | Err e =>
    if at_shutdown a then Some (Err (lws_err signal_abort_process))
    else if sync_rpc_timeout <=? at_elapsed a then Some (Err (lws_err daemon_timeout))
    else if negb (bool_decide (condition other_condition e = Some timed_out)) then Some (Err e)
    else None
  end.
Fixpoint try_until {A} (attempts : list (attempt A)) : option (expect A) :=
  match attempts with
  | [] => None
  | a :: attempts => match try_once a with Some r => Some r | None => try_until attempts end
  end.

(** What [epee::byte_slice] is after it was moved from. *)
Context (moved : list Z).

(** What is given to [client.send], attempt by attempt. *)
Fixpoint offered (msg : list Z) (attempts : list (attempt unit)) : list (list Z) :=
  match attempts with
  | [] => []
  | a :: attempts => msg :: match try_once a with Some _ => [] | None => offered moved attempts end
  end.

Definition fetch_chain {R} (parse_json_response : list Z -> expect R) (sends : list (attempt unit)) (reads : list (attempt (list Z)))
    : option (expect R) :=
  sent ← try_until sends;
  match sent with
  | Err e => Some (Err e)
  | Ok _ => resp ← try_until reads; Some (ebind resp parse_json_response)
  end.
End fetch.
Arguments Attempt {A} _ _ _.
Arguments at_result {A} _.
Arguments at_shutdown {A} _.
Arguments at_elapsed {A} _.
End Fetch.

(** ** Webhooks *)
Module Webhooks.

(** What the two templates use of an event. *)
Class Webhook (T : Type) := {
  hook_of : T -> webhook_value;
  write_event : T -> wvalue
}.

Section webhooks.
Context `{RJ : RapidJson} (available : list Z -> Z).
Context (parse_url : list Z -> option url_content).
Context {T : Type} {W : Webhook T}.

Definition hook_url (event : T) : list Z := bytes_of_string (wh_url (hook_of event).2).
Definition to_zmq (event : T) : bool := bool_decide (wh_url (hook_of event).2 = "zmq"%string).

(** [http_async]: an event that cannot be written or queued is passed over. *)
Definition http_one (client : client_state) (event : T) : client_state :=
  if to_zmq event then client
  else
    match JsonWriter.to_bytes available (write_event event) with
    | Ok bytes => (post_async parse_url (hook_url event) bytes client).2
    | Err _ => client
    end.
Definition http_async (events : list T) (client : client_state) : client_state := foldl http_one client events.

Definition write_indexed (index : Z) (event : T) : wvalue :=
  WObj [(0, "index"%string, WUint index); (0, "event"%string, write_event event)].

(** [zmq_send] with the static count of its event type: for every event a
    message under either topic, whether the former could be sent or not. *)
Definition zmq_one (st : Z * list (Z * T)) (event : T) : Z * list (Z * T) := (u64 (st.1 + 1), st.2 ++ [(st.1, event)]).
Definition zmq_send (has_publish : bool) (events : list T) (current : Z) : Z * list (Z * T) :=
  if has_publish then foldl zmq_one (current, []) events else (current, []).

(** The bytes [client::publish] is given for a topic. *)
Definition publish_json (topic : list Z) (m : Z * T) : expect (list Z) :=
  let* r := JsonWriter.take_sink (JsonWriter.write_value available (write_indexed m.1 m.2) (JsonWriter.json_slice_writer topic)) in Ok r.1.

Record sender := Sender { sd_http : client_state; sd_current : Z; sd_sent : list (Z * T) }.
Definition send_webhook_async (has_publish : bool) (events : list T) (s : sender) : sender :=
  let '(current, sent) := zmq_send has_publish events (sd_current s) in
  Sender (http_async events (sd_http s)) current (sd_sent s ++ sent).
End webhooks.
Arguments sender _ : clear implicits.
Arguments Sender {T} _ _ _.
Arguments sd_http {T} _.
Arguments sd_current {T} _.
Arguments sd_sent {T} _.

#[export] Instance confirmation_webhook : Webhook webhook_tx_confirmation := {
  hook_of := wtc_value;
  write_event := write_webhook_tx_confirmation
}.
#[export] Instance spend_webhook : Webhook webhook_tx_spend := {
  hook_of := wts_value;
  write_event := write_webhook_tx_spend
}.
#[export] Instance account_webhook (address_string : account_address -> list Z) : Webhook webhook_new_account := {
  hook_of := wna_value;
  write_event := write_webhook_new_account address_string
}.
End Webhooks.

(** ** [scanner::run] *)
Module Runs.
Import Answer.

Section runs.
Context {CS : Consensus} {LM : Lmdb} (points : checkpoints) (start_read : tables -> expect tables).
Context (address_string : account_address -> list Z) (other_condition : error -> option errc).

Record scanner_server := ScannerServer { ss_address : list Z; ss_pass : list Z; ss_allow_external : bool }.

(** The loop over the active accounts. *)
Definition add_active (st : list account_id * list Account.state) (p : account * Account.state) : list account_id * list Account.state :=
  (insert_at (lower_bound (fun y => y <? acc_id p.1) st.1) (acc_id p.1) st.1, st.2 ++ [p.2]).
Definition read_active (thread_count : Z) (disk : tables) : expect (list account_id * list Account.state) :=
  if thread_count =? 0 then Ok ([], [])
  else
    let* reader := start_read disk in
    Ok (foldl add_active ([], []) ((fun u => (u, get_full_account address_string u reader)) <$> get_accounts active reader)).

(** What [check_loop] is called with. *)
Record call := Call { cl_threads : Z; cl_server : scanner_server; cl_users : list Account.state; cl_active : list account_id }.

(** The asserts at its start. *)
Definition check_loop_ok (c : call) : bool :=
  Nat.eqb (length (cl_users c)) (length (cl_active c)) &&
  (negb (cl_threads c =? 0) || negb (bool_decide (ss_address (cl_server c) = []))) &&
  ((cl_threads c =? 0) || negb (bool_decide (cl_users c = []))).

(** [scanner::sync]; the answers of the daemon are those that it would give to
    either way. *)
Record answers := Answers { an_hashes : list (expect (Z * list hash)); an_blocks : list (expect (Z * list block)) }.
Definition sync (has_shutdown : bool) (shutdown_at : block_id -> bool) (untrusted regtest : bool) (disk : tables) (a : answers)
    : option (expect tables) :=
  if has_shutdown then Some (Err kInvalidArgument)
  else if untrusted then sync_full points shutdown_at disk (an_blocks a)
  else sync_quick points regtest disk (an_hashes a).

(** What a turn of the loop meets: the database at its start; whether the
    process is to stop once the threads have ended or the wait is over; the
    connection, if one is made; the database, and whether the process is to stop,
    when synchronization begins; the daemon then; and the warning, if one is sent. *)
Record turn := Turn {
  tn_disk : tables;
  tn_shutdown : bool;
  tn_connect : expect unit;
  tn_sync_disk : tables;
  tn_sync_shutdown : bool;
  tn_shutdown_at : block_id -> bool;
  tn_answers : answers;
  tn_warning : expect unit
}.

Inductive activity := CheckLoop (c : call) | Poll | Synced (disk : tables) | Warned (e : error).
Inductive outcome := Returned | Threw (e : error).

(** [None] while the call goes on. *)
Fixpoint run_turns (opts : Assign.scanner_options) (thread_count : Z) (server : scanner_server) (client : bool) (turns : list turn)
    : list activity * option outcome :=
  match turns with
  | [] => ([], None)
  | t :: turns =>
    match read_active thread_count (tn_disk t) with
    | Err e => ([], Some (Threw e))
    | Ok (ids, users) =>
      let first :=
        if negb (thread_count =? 0) && bool_decide (users = []) then Poll
        else CheckLoop (Call thread_count server users ids) in
      if tn_shutdown t then ([first], Some Returned)
      else
        match (if client then Ok tt else tn_connect t) with
        | Err e => ([first], Some (Threw e))
        | Ok _ =>
          match sync (tn_sync_shutdown t) (tn_shutdown_at t) (Assign.untrusted_daemon opts) (Assign.regtest opts) (tn_sync_disk t) (tn_answers t) with
          | None => ([first], None)
          | Some (Ok disk) =>
            let '(rest, o) := run_turns opts thread_count server true turns in (first :: Synced disk :: rest, o)
          | Some (Err e) =>
            if negb (bool_decide (condition other_condition e = Some timed_out)) then ([first], Some (Threw e))
            else
              match tn_warning t with
              | Err e' => ([first], Some (Threw e'))
              | Ok _ => let '(rest, o) := run_turns opts thread_count server false turns in (first :: Warned e :: rest, o)
              end
          end
        end
    end
  end.

Definition run (opts : Assign.scanner_options) (thread_count : Z) (server : scanner_server) (has_shutdown : bool) (turns : list turn)
    : list activity * option outcome :=
  if has_shutdown then ([], Some (Threw kInvalidArgument))
  else if negb (bool_decide (ss_address server = [])) && (negb (Assign.max_subaddresses opts =? 0) || Assign.untrusted_daemon opts)
  then ([], Some (Threw (lws_err configuration)))
  else
    let thread_count := if bool_decide (ss_address server = []) then Z.max 1 thread_count else thread_count in
    run_turns opts thread_count server false turns.

(** *** Properties *)
Context {LL : LmdbLaws LM}.

Lemma add_active_all l st :
  let st' := foldl add_active st l in
  st'.2 = st.2 ++ l.*2 /\ st'.1 ≡ₚ (acc_id <$> l.*1) ++ st.1 /\ (sorted_by Z.ltb st.1 -> sorted_by Z.ltb st'.1).
Proof.
  revert st. induction l as [|[u x] l IH]; intros st; cbn [foldl fmap list_fmap].
  - split_and!; [by rewrite app_nil_r|done|done].
  - destruct (IH (add_active st (u, x))) as (H1 & H2 & H3). cbn [add_active fst snd] in *. split_and!.
    + rewrite H1. by rewrite <- app_assoc.
    + rewrite H2, insert_at_perm. cbn. by rewrite Permutation_middle.
    + intros Hs. apply H3. by apply sorted_insert; [apply _|].
Qed.

(** The accounts a call is for: with threads, exactly the active ones, of which
    there is one or more. *)
Definition right_call (disk : tables) (c : call) : Prop :=
  check_loop_ok c = true /\ sorted_by Z.ltb (cl_active c) /\ (Account.id <$> cl_users c) ≡ₚ cl_active c /\
  (cl_threads c <> 0 -> exists reader, start_read disk = Ok reader /\
     cl_users c = (fun u => get_full_account address_string u reader) <$> get_accounts active reader).

Lemma read_active_right thread_count server disk ids users :
  (thread_count = 0 -> ss_address server <> []) -> read_active thread_count disk = Ok (ids, users) ->
  negb (thread_count =? 0) && bool_decide (users = []) = false -> right_call disk (Call thread_count server users ids).
Proof.
  intros Hs. unfold read_active, right_call, check_loop_ok. cbn [cl_threads cl_server cl_users cl_active].
  destruct (Z.eqb_spec thread_count 0) as [->|Ht]; cbn [negb andb orb].
  - intros [= <- <-] _. rewrite (bool_decide_false _ (Hs eq_refl)). split_and!; try done. constructor.
  - intros H Hu. inv_ok H. injection H as H. rewrite bool_decide_eq_false in Hu.
    match goal with H : foldl add_active ?st ?l = _ |- _ => destruct (add_active_all l st) as (H1 & H2 & H3); rewrite H in H1, H2, H3 end.
    cbn [fst snd] in *. rewrite app_nil_l in H1. rewrite app_nil_r in H2.
    rewrite <- !list_fmap_compose in *. unfold compose in *. cbn [fst snd] in *.
    split_and!.
    + rewrite !andb_true_iff, Nat.eqb_eq, negb_true_iff, bool_decide_eq_false. split_and!; try done.
      rewrite H1, H2. by rewrite !length_fmap.
    + apply H3. constructor.
    + rewrite H1, H2. rewrite <- list_fmap_compose. unfold compose. by apply reflexive_eq, list_fmap_ext.
    + intros _. eauto.
Qed.

(** What the threads do, and what is done between two runs of them. *)
Definition is_first (a : activity) : bool := match a with CheckLoop _ | Poll => true | _ => false end.
Fixpoint in_turns (acts : list activity) : bool :=
  match acts with
  | [] => true
  | [a] => is_first a
  | a :: b :: acts => is_first a && negb (is_first b) && in_turns acts
  end.

Lemma run_turns_right opts thread_count server client turns acts out :
  (thread_count = 0 -> ss_address server <> []) -> run_turns opts thread_count server client turns = (acts, out) ->
  (forall c, CheckLoop c ∈ acts -> exists t, t ∈ turns /\ right_call (tn_disk t) c) /\ in_turns acts = true /\
  (out = Some Returned -> exists t, t ∈ turns /\ tn_shutdown t = true).
Proof.
  intros Hs. revert client acts out. induction turns as [|t turns IH]; intros client acts out.
  { intros [= <- <-]. split_and!; [by intros c Hc%elem_of_nil|done..]. }
  cbn [run_turns]. destruct (read_active thread_count (tn_disk t)) as [[ids users]|e] eqn:Er.
  2:{ intros [= <- <-]. split_and!; [by intros c Hc%elem_of_nil|done..]. }
  set (first := if _ && _ then Poll else _).
  assert (is_first first = true) as Hf by (subst first; by destruct (_ && _)).
  assert (forall c, CheckLoop c = first -> right_call (tn_disk t) c) as Hr.
  { intros c. subst first. destruct (_ && _) eqn:Ep; [done|]. intros [= ->]. by apply read_active_right. }
  clearbody first.
  assert (forall o, (forall c, CheckLoop c ∈ [first] -> exists t', t' ∈ t :: turns /\ right_call (tn_disk t') c) /\
    in_turns [first] = true /\ (o = Some Returned -> tn_shutdown t = true -> exists t', t' ∈ t :: turns /\ tn_shutdown t' = true)) as Hend.
  { intros o. split_and!; [|done|].
    - intros c Hc%list_elem_of_singleton. exists t. split; [by left|]. by apply Hr.
    - intros _ Ht. exists t. by split; [left|]. }
  assert (forall second rest o, is_first second = false -> 
    (forall c, CheckLoop c ∈ rest -> exists t', t' ∈ turns /\ right_call (tn_disk t') c) /\ in_turns rest = true /\
      (o = Some Returned -> exists t', t' ∈ turns /\ tn_shutdown t' = true) ->
    (forall c, CheckLoop c ∈ first :: second :: rest -> exists t', t' ∈ t :: turns /\ right_call (tn_disk t') c) /\
    in_turns (first :: second :: rest) = true /\ (o = Some Returned -> exists t', t' ∈ t :: turns /\ tn_shutdown t' = true)) as Hnext.
  { intros second rest o H2 (I1 & I2 & I3). split_and!.
    - intros c [Hc|[Hc|Hc]%elem_of_cons]%elem_of_cons.
      + exists t. split; [by left|by apply Hr].
      + by subst second.
      + destruct (I1 c Hc) as (t' & ? & ?). exists t'. by split; [right|].
    - cbn [in_turns]. by rewrite Hf, H2.
    - intros Ho. destruct (I3 Ho) as (t' & ? & ?). exists t'. by split; [right|]. }
  destruct (tn_shutdown t) eqn:Et.
  { intros [= <- <-]. destruct (Hend (Some Returned)) as (H1 & H2 & H3). auto. }
  destruct (if client then _ else _) as [[]|e]; [|by intros [= <- <-]; destruct (Hend None) as (H1 & H2 & _)].
  destruct (sync _ _ _ _ _ _) as [[disk|e]|]; [| |by intros [= <- <-]; destruct (Hend None) as (H1 & H2 & _)].
  - destruct (run_turns opts thread_count server true turns) as [rest o] eqn:E. intros [= <- <-]. apply Hnext; [done|]. by apply (IH true).
  - destruct (negb _); [by intros [= <- <-]; destruct (Hend None) as (H1 & H2 & _)|].
    destruct (tn_warning t); [|by intros [= <- <-]; destruct (Hend None) as (H1 & H2 & _)].
    destruct (run_turns opts thread_count server false turns) as [rest o] eqn:E. intros [= <- <-]. apply Hnext; [done|]. by apply (IH false).
Qed.

End runs.
End Runs.

(** ** Facts *)
Module SendFacts.
Import Fetch Webhooks.

Section fetch_facts.
Context (other_condition : error -> option Answer.errc) (moved : list Z).

(** The loops end with the first attempt after the time is up. *)
Lemma try_until_ends {A} (attempts : list (attempt A)) a : a ∈ attempts -> sync_rpc_timeout <= at_elapsed a ->
  exists r, try_until other_condition attempts = Some r.
Proof.
  intros Ha He. induction attempts as [|b attempts IH]; [by apply elem_of_nil in Ha|]. cbn [try_until].
  destruct (try_once other_condition b) as [r|] eqn:E; [by exists r|]. apply elem_of_cons in Ha as [->|Ha]; [|by apply IH].
  unfold try_once in E. destruct (at_result b) as [r|e]; [done|]. destruct (at_shutdown b); [done|].
  by rewrite (proj2 (Z.leb_le _ _) He) in E.
Qed.

(** A send that times out is tried again, but not with the request: the message
    went with the first attempt. *)
Theorem retries_send_nothing msg (first second : attempt unit) rest : try_once other_condition first = None ->
  exists later, offered other_condition moved msg (first :: second :: rest) = msg :: moved :: later /\ Forall (eq moved) later.
Proof.
  intros Hf. cbn [offered]. rewrite Hf. eexists. split; [reflexivity|]. destruct (try_once other_condition second); [constructor|].
  induction rest as [|a rest IH]; [constructor|]. cbn [offered]. constructor; [done|]. by destruct (try_once other_condition a).
Qed.
End fetch_facts.

Section webhook_facts.
Context `{RJ : RapidJson} (available : list Z -> Z).
Context (parse_url : list Z -> option url_content).
Context {T : Type} {W : Webhook T}.

(** The message that an event is over HTTP, if it is one. *)
Definition post_of (event : T) : option message :=
  if to_zmq event then None
  else
    match JsonWriter.to_bytes available (write_event event) with
    | Err _ => None
    | Ok bytes =>
      parsed ← parse_url (hook_url event);
      if max_port <? uc_port parsed then None
      else if negb (bool_decide (uc_schema parsed = "http"%string)) && negb (bool_decide (uc_schema parsed = "https"%string)) then None
      else Some (Message bytes (uc_host parsed) (if is_nil (uc_uri parsed) then bytes_of_string "/" else uc_uri parsed)
                   (if uc_port parsed =? 0 then (if bool_decide (uc_schema parsed = "http"%string) then 80 else 443) else uc_port parsed)
                   (bool_decide (uc_schema parsed = "https"%string)) None)
    end.

Lemma http_one_posts client event :
  http_one available parse_url client event = match post_of event with Some m => queue m client | None => client end.
Proof.
  unfold http_one, post_of. destruct (to_zmq event); [done|]. destruct (JsonWriter.to_bytes _ _) as [bytes|e]; [|done].
  unfold post_async, queue_async. destruct (parse_url _) as [parsed|]; [|done]. cbn [mbind option_bind].
  destruct (max_port <? uc_port parsed); [done|]. by destruct (_ && _).
Qed.

Definition numbered (current : Z) (events : list T) : list (Z * T) := imap (fun i e => (u64 (current + Z.of_nat i), e)) events.

Lemma numbered_cons current e events : in_u64 current -> numbered current (e :: events) = (current, e) :: numbered (u64 (current + 1)) events.
Proof.
  intros Hc. unfold numbered. cbn [imap]. rewrite Z.add_0_r, u64_small by done. f_equal. apply imap_ext. intros i x _. cbn. f_equal.
  unfold u64. rewrite Zplus_mod_idemp_l. f_equal. lia.
Qed.

Lemma zmq_send_numbered events current : in_u64 current ->
  zmq_send true events current = (u64 (current + Z.of_nat (length events)), numbered current events).
Proof.
  cbn [zmq_send]. assert (forall sent, in_u64 current -> foldl zmq_one (current, sent) events =
    (u64 (current + Z.of_nat (length events)), sent ++ numbered current events)) as H; [|by apply H].
  revert current. induction events as [|e events IH]; intros current sent Hc.
  - cbn. by rewrite Z.add_0_r, u64_small, app_nil_r.
  - cbn [foldl]. unfold zmq_one at 2. cbn [fst snd]. rewrite IH by apply u64_range. rewrite numbered_cons by done. rewrite <- app_assoc.
    f_equal. unfold u64. rewrite Zplus_mod_idemp_l. cbn [length]. f_equal. lia.
Qed.

(** C16: However the events of a type come in, each goes out once over every way
    that is open to it, in order: on ZeroMQ with consecutive numbers, so that a
    subscriber can tell when it missed one, and over HTTP as one message in the
    queue of the client if its URL is one. An event that cannot be written or has
    no such URL holds up no other. *)
Theorem webhooks_sent_once batches s s' : in_u64 (sd_current s) ->
  foldl (fun s events => send_webhook_async available parse_url true events s) s batches = s' ->
  sd_sent s' = sd_sent s ++ numbered (sd_current s) (concat batches) /\
  sd_current s' = u64 (sd_current s + Z.of_nat (length (concat batches))) /\
  sd_http s' = foldl (fun c m => queue m c) (sd_http s) (omap post_of (concat batches)).
Proof.
  intros Hc <-. revert s Hc. induction batches as [|events batches IH]; intros s Hc; cbn [foldl concat].
  - cbn. rewrite app_nil_r, Z.add_0_r, u64_small by done. done.
  - unfold send_webhook_async at 2 4 6. rewrite zmq_send_numbered by done.
    destruct (IH (Sender (http_async available parse_url events (sd_http s)) (u64 (sd_current s + Z.of_nat (length events)))
      (sd_sent s ++ numbered (sd_current s) events)) (u64_range _)) as (-> & -> & ->). cbn [sd_sent sd_current sd_http]. split_and!.
    + rewrite <- app_assoc. f_equal. unfold numbered at 3. rewrite imap_app. f_equal. apply imap_ext. intros i x _. cbn. f_equal.
      unfold u64. rewrite Zplus_mod_idemp_l. f_equal. lia.
    + unfold u64. rewrite Zplus_mod_idemp_l, length_app. f_equal. lia.
    + rewrite omap_app, foldl_app. f_equal. unfold http_async. generalize (sd_http s). induction events as [|e events IHe]; intros c; [done|].
      cbn [foldl omap list_omap]. rewrite IHe, http_one_posts. by destruct (post_of e).
Qed.
End webhook_facts.
End SendFacts.

(** ** Samples *)
Module RunnerSample.
Import Lmdb.Reference Runs Fetch Webhooks SendFacts.
#[local] Existing Instance SyncSample.consensus.
#[local] Existing Instances Sample.library Sample.laws.

Definition start_read (s : tables) : expect tables := Ok s.
Definition no_condition (e : error) : option Answer.errc := None.
Definition opts : Assign.scanner_options := Assign.ScannerOptions (SpecFloat.S754_zero false) 0 1 0 false false false false.
Definition alone : scanner_server := ScannerServer [] [] false.

(** A daemon that is there with nothing new, one that is not, and a stop. *)
Definition quiet : answers := Answers [Ok (3, [103])] [].
Definition turn_of (disk : tables) (shutdown : bool) (a : answers) : turn := Turn disk shutdown (Ok tt) disk false (fun _ => false) a (Ok tt).
Definition away : answers := Answers [Err (lws_err daemon_timeout)] [].
Definition turns : list turn := [turn_of AccountsSample.db false quiet; turn_of SyncSample.db false away; turn_of AccountsSample.db true quiet].
Definition ran : list activity * option outcome :=
  run ChainSample.points start_read UpdateSample.no_string no_condition opts 0 alone false turns.
Definition started : call := Call 1 alone [get_full_account UpdateSample.no_string AccountsSample.user AccountsSample.db] [acc_id AccountsSample.user].

(** A thread is started although none was asked for. *)
Example ran_until_stopped :
  ran = ([CheckLoop started; Synced AccountsSample.db; CheckLoop started; Warned (lws_err daemon_timeout); CheckLoop started], Some Returned).
Proof. vm_compute. reflexivity. Qed.

(** The second attempt sends what is left of the first. *)
Example resent :
  offered no_condition [] [1; 2; 3] [Attempt (Err (lws_err daemon_timeout)) false 1; Attempt (Ok tt) false 1] = [[1; 2; 3]; []].
Proof. vm_compute. reflexivity. Qed.

Definition parse (url : list Z) : option url_content :=
  if bool_decide (url = bytes_of_string "http://127.0.0.1") then Some (UrlContent "http" url 0 []) else None.
Definition to_url (url : string) : webhook_tx_confirmation :=
  let c := sample_confirmation in
  WebhookTxConfirmation (wtc_key c) ((wtc_value c).1, WebhookData url "token" 3) (wtc_tx_info c).
Definition idle : sender webhook_tx_confirmation := Sender initial 7 [].
Definition batches : list (list webhook_tx_confirmation) := [[to_url "zmq"; to_url "http://127.0.0.1"]; []; [to_url "nowhere"; to_url "http://127.0.0.1"]].
Definition after : sender webhook_tx_confirmation := foldl (fun s events => send_webhook_async (fun _ => 1000) parse true events s) idle batches.

Lemma webhooks_sent_once_witness :
  (sd_sent after).*1 = [7; 8; 9; 10] /\ sd_current after = 11 /\ length (h_queued (sd_http after)) = 2%nat.
Proof.
  destruct (webhooks_sent_once (fun _ => 1000) parse batches idle after) as (H1 & H2 & H3); [split; vm_compute; congruence|reflexivity|].
  split_and!; [rewrite H1|rewrite H2|rewrite H3]; vm_compute; reflexivity.
Defined.
End RunnerSample.
