(* ===== verification/DaemonJson.v ===== *)
(** What the daemon answers and publishes, from JSON: the envelope of JSON-RPC
    (src/rpc/json.h) with variants (src/wire/wrapper/variant.h) in module
    [Variants], blocks and transactions (src/rpc/daemon_zmq.cpp) in module
    [Answers], publications (src/rpc/daemon_pub.cpp) in module [Publications]. The
    daemon may be hostile: module [Accepted] has what holds of everything that is
    read, whatever the bytes were. *)

From stdpp Require Import gmap strings.
From S2P Require Import Prelude Wire Data OwnershipTest Sync Scanner Json JsonSample.
Import Readings.

(** ** Variants and the envelope *)
Module Variants.
Section variants.
Context `{RJ : RapidJson}.

(** [WIRE_OPTION]: a field that is read into the variant if no other option was. *)
Definition option_slot {A S} (name : String.string) (R : reading A) (was_read : S -> bool) (set : A -> S -> S) : slot S :=
  Readings.Slot S (Field 0 name false)
    (fun s r => if was_read s then Err (schema_err schema_invalid_key) else let* ar := read_bytes R r in Ok (set ar.1 s, ar.2))
    (fun d s v => if was_read s then Err (schema_err schema_invalid_key) else let* a := of_tree R d v in Ok (set a s))
    (fits R) (fun s => s).

(** [throw_if_not_read], from the [reset] of a field that was not read. *)
Definition variant_read {A} (o : option A) : expect A :=
  match o with Some a => Ok a | None => Err (schema_err schema_missing_key) end.

(** An object that is a variant. *)
Definition variant_slots {A} (options : list (String.string * reading A)) : list (slot (option A)) :=
  (fun o => option_slot o.1 o.2 is_some_b (fun a _ => Some a)) <$> options.
Definition read_variant {A} (options : list (String.string * reading A)) : reading A :=
  converted (read_slots (variant_slots options) None) variant_read.

Record json_error := JsonError { je_code : Z; je_message : list Z }.
Definition read_json_error : reading json_error :=
  read_slots [required "code" (read_signed (- 2 ^ 31) (2 ^ 31 - 1)) (fun c e => JsonError c (je_message e));
              required "message" read_string (fun m e => JsonError (je_code e) m)] (JsonError 0 []).

(** [json_response]: the id and the variant. *)
Definition response_slots {A} (R : reading A) : list (slot (Z * option (json_error + A))) :=
  [required "id" (read_unsigned u32_max) (fun i s => (i, s.2));
   option_slot "result" R (fun s => is_some_b s.2) (fun a s => (s.1, Some (inr a)));
   option_slot "error" read_json_error (fun s => is_some_b s.2) (fun e s => (s.1, Some (inl e)))].
Definition read_json_response {A} (R : reading A) : reading (json_error + A) :=
  converted (read_slots (response_slots R) (0, None)) (fun s => variant_read s.2).

Definition parse_json_response {A} (R : reading A) (source : list Z) : expect A :=
  let* state := JsonReader.from_bytes (read_bytes (read_json_response R)) source in
  match state with inl _ => Err (lws_err json_rpc) | inr r => Ok r end.

(** [json_request] *)
Definition write_json_request (id : Z) (method : String.string) (params : wvalue) : wvalue :=
  WObj [(0, "id"%string, WUint id); (0, "jsonrpc"%string, WStr (bytes_of_string "2.0"));
        (0, "method"%string, WStr (bytes_of_string method)); (0, "params"%string, params)].

Context `{!RapidJsonLaws}.

Lemma option_slot_faithful {A S} name (R : reading A) `{!Faithful R} (was_read : S -> bool) set :
  slot_faithful (option_slot name R was_read set).
Proof.
  intros d v s Hd Hv Hf rest Hr. cbn. destruct (was_read s); [done|]. rewrite (faithful d v Hd Hv Hf rest Hr). destruct (of_tree R d v); done.
Qed.
Lemma variant_faithful {A} (options : list (String.string * reading A)) : Forall (fun o => Faithful o.2) options -> Faithful (read_variant options).
Proof.
  intros Ho. apply converted_faithful, slots_faithful, Forall_fmap. eapply Forall_impl; [exact Ho|]. intros [n R] HR. cbn in HR.
  by apply option_slot_faithful.
Qed.
#[export] Instance json_error_faithful : Faithful read_json_error.
Proof. apply slots_faithful. repeat constructor; apply slot_of_faithful; apply _. Qed.
#[export] Instance response_faithful {A} (R : reading A) : Faithful R -> Faithful (read_json_response R).
Proof.
  intros HR. apply converted_faithful, slots_faithful. unfold response_slots.
  repeat (apply Forall_cons_2; [first [by apply option_slot_faithful; apply _|by apply slot_of_faithful; apply _]|]). constructor.
Qed.
End variants.
End Variants.

(** ** Blocks and transactions *)
Module Answers.
Import Variants.

(** The limits that are constants of monero. *)
Class Limits := { max_blocks_per_fetch : Z; bf_max : Z; bf_plus_max : Z; RCTTypeNull : Z }.

Definition max_txes_per_block : Z := 21845.
Definition max_inputs_per_tx : Z := 3000.
Definition max_outputs_per_tx : Z := 2000.
Definition max_ring_size : Z := 4600.
Definition max_txpool_size : Z := 775.

(** The structures of monero, with the fields that are read. *)
Record mgSig := MgSig { mg_ss : list (list rct_key); mg_cc : rct_key }.
Record clsag := Clsag { cl_s : list rct_key; cl_c1 : rct_key; cl_D : rct_key }.
(** [Bulletproof] and [BulletproofPlus]: fields that are keys, or lists of keys. *)
Record proof := Proof { pf_key : gmap string rct_key; pf_keyV : gmap string (list rct_key) }.
Record rangeSig := RangeSig { rs_s0 : list rct_key; rs_s1 : list rct_key; rs_Ci : list rct_key }.
Record prunable_helper := PrunableHelper {
  pr_rangeSigs : list rangeSig; pr_bulletproofs : list proof; pr_bulletproofs_plus : list proof;
  pr_MGs : list mgSig; pr_CLSAGs : list clsag; pr_pseudo_outs : list rct_key
}.
Record rctSig := RctSig {
  rct_type_ : Z; rct_ecdhInfo : list ecdh_tuple; rct_outPk : list rct_key; rct_txnFee : Z; rct_prunable : option prunable_helper
}.

Inductive txout_target :=
| txout_to_key (key : public_key)
| txout_to_tagged_key (key : public_key) (view_tag : Z)
| txout_to_script (keys : list public_key) (script : list Z)
| txout_to_scripthash (hash : hash).
Record tx_out := MkTxOut { to_amount : Z; to_target : txout_target }.

Inductive txin_v :=
| in_to_key (amount : Z) (key_offsets : list Z) (k_image : key_image_t)
| in_gen (height : Z)
| in_to_script (prev : hash) (prevout : Z) (sigset : list Z)
| in_to_scripthash (prev : hash) (prevout : Z) (script : list public_key * list Z) (sigset : list Z).

Record json_transaction := JsonTransaction {
  jt_version : Z; jt_unlock_time : Z; jt_vin : list txin_v; jt_vout : list tx_out; jt_extra : list Z;
  jt_signatures : list (list Z); jt_rct : rctSig
}.
Record json_block := JsonBlock {
  jb_major_version : Z; jb_minor_version : Z; jb_timestamp : Z; jb_miner_tx : json_transaction; jb_tx_hashes : list hash;
  jb_prev_id : hash; jb_nonce : Z
}.
Record block_with_transactions := BlockWithTransactions { bw_block : json_block; bw_transactions : list json_transaction }.
Record tx_in_pool := TxInPool { tp_tx : json_transaction; tp_tx_hash : hash }.

Record get_hashes_fast_response := GetHashesFastResponse { gh_hashes : list hash; gh_start_height : Z; gh_current_height : Z }.
Record get_blocks_fast_response := GetBlocksFastResponse {
  gb_blocks : list block_with_transactions; gb_output_indices : list (list (list Z)); gb_start_height : Z; gb_current_height : Z
}.

Section readers.
Context `{RJ : RapidJson} {LI : Limits}.

Definition read_key : reading Z := read_blob 32.
(** A [std::vector] of blobs of [n] bytes. *)
Definition read_blobs (n : nat) : reading (list Z) := read_vector (read_blob n) (Z.of_nat n) u64_max.
Definition read_keyV : reading (list rct_key) := read_blobs 32.
(** [std::vector<std::uint8_t>], an optional field like every vector. *)
Definition read_binary : reading (list Z) := Reading JsonReader.binary (fun _ => ReaderFacts.t_binary) (fun v => ReaderFacts.plain v = true).
Definition uint8 : reading Z := read_unsigned 255.
Definition uint32 : reading Z := read_unsigned u32_max.
Definition uint64 : reading Z := read_unsigned u64_max.

(** *** rct *)
Definition read_ecdhTuple : reading ecdh_tuple :=
  read_slots [required "mask" read_key (fun m e => EcdhTuple m (ecdh_amount e)); required "amount" read_key (fun a e => EcdhTuple (ecdh_mask e) a)]
    (EcdhTuple 0 0).
Definition read_clsag : reading clsag :=
  read_slots [cleared "s" read_keyV (fun s c => Clsag s (cl_c1 c) (cl_D c)) []; required "c1" read_key (fun k c => Clsag (cl_s c) k (cl_D c));
              required "D" read_key (fun k c => Clsag (cl_s c) (cl_c1 c) k)] (Clsag [] 0 0).
Definition read_mgSig : reading mgSig :=
  read_slots [required "ss" (read_vector read_keyV 0 256) (fun s m => MgSig s (mg_cc m)); required "cc" read_key (fun c m => MgSig (mg_ss m) c)]
    (MgSig [] 0).

Definition proof_slot (f : bool * String.string) : slot proof :=
  if f.1 then cleared f.2 read_keyV (fun l p => Proof (pf_key p) (<[f.2 := l]> (pf_keyV p))) []
  else required f.2 read_key (fun k p => Proof (<[f.2 := k]> (pf_key p)) (pf_keyV p)).
Definition bulletproof_plus_fields : list (bool * String.string) :=
  [(true, "V"); (false, "A"); (false, "A1"); (false, "B"); (false, "r1"); (false, "s1"); (false, "d1"); (true, "L"); (true, "R")]%string.
Definition bulletproof_fields : list (bool * String.string) :=
  [(true, "V"); (false, "A"); (false, "S"); (false, "T1"); (false, "T2"); (false, "taux"); (false, "mu"); (true, "L"); (true, "R");
   (false, "a"); (false, "b"); (false, "t")]%string.
Definition read_BulletproofPlus : reading proof := read_slots (proof_slot <$> bulletproof_plus_fields) (Proof ∅ ∅).
Definition read_Bulletproof : reading proof := read_slots (proof_slot <$> bulletproof_fields) (Proof ∅ ∅).

Definition is_64 {A} (l : list A) : bool := Nat.eqb (length l) 64.
Definition read_boroSig : reading (list rct_key * list rct_key) :=
  converted (read_slots [cleared "s0" read_keyV (fun l s => (l, s.2)) []; cleared "s1" read_keyV (fun l s => (s.1, l)) []] ([], []))
    (fun s => if negb (is_64 s.1) || negb (is_64 s.2) then Err (schema_err schema_array) else Ok s).
Definition read_rangeSig : reading rangeSig :=
  converted (read_slots [required "asig" read_boroSig (fun s r => RangeSig s.1 s.2 (rs_Ci r));
                         cleared "Ci" read_keyV (fun l r => RangeSig (rs_s0 r) (rs_s1 r) l) []] (RangeSig [] [] []))
    (fun r => if negb (is_64 (rs_Ci r)) then Err (schema_err schema_array) else Ok r).

Definition prunable_slots : list (slot prunable_helper) :=
  [required "range_proofs" (read_vector read_rangeSig (64 * 32 * 3 + 32) u64_max) (fun x '(PrunableHelper _ b p m c o) => PrunableHelper x b p m c o);
   required "bulletproofs" (read_vector read_Bulletproof 0 bf_max) (fun x '(PrunableHelper r _ p m c o) => PrunableHelper r x p m c o);
   required "bulletproofs_plus" (read_vector read_BulletproofPlus 0 bf_plus_max) (fun x '(PrunableHelper r b _ m c o) => PrunableHelper r b x m c o);
   required "mlsags" (read_vector read_mgSig 0 max_inputs_per_tx) (fun x '(PrunableHelper r b p _ c o) => PrunableHelper r b p x c o);
   required "clsags" (read_vector read_clsag 0 max_inputs_per_tx) (fun x '(PrunableHelper r b p m _ o) => PrunableHelper r b p m x o);
   required "pseudo_outs" (read_vector read_key 32 u64_max) (fun x '(PrunableHelper r b p m c _) => PrunableHelper r b p m c x)].
Definition is_empty {A} (l : list A) : bool := match l with [] => true | _ => false end.
Definition pruned (p : prunable_helper) : bool :=
  is_empty (pr_rangeSigs p) && is_empty (pr_bulletproofs p) && is_empty (pr_bulletproofs_plus p) && is_empty (pr_MGs p) &&
  is_empty (pr_CLSAGs p) && is_empty (pr_pseudo_outs p).
Definition read_prunable : reading prunable_helper :=
  converted (read_slots prunable_slots (PrunableHelper [] [] [] [] [] []))
    (fun p => if pruned p then Err (schema_err schema_array) else Ok p).

Definition rct_slots : list (slot (rctSig * option Z)) :=
  [required "type" uint8 (fun t '(RctSig _ e o f p, x) => (RctSig t e o f p, x));
   cleared "encrypted" (read_vector read_ecdhTuple 64 u64_max) (fun e '(RctSig t _ o f p, x) => (RctSig t e o f p, x)) [];
   cleared "commitments" (read_vector read_key 32 u64_max) (fun o '(RctSig t e _ f p, x) => (RctSig t e o f p, x)) [];
   optional "fee" uint64 (fun f '(s, _) => (s, f));
   optional "prunable" read_prunable (fun p '(RctSig t e o f _, x) => (RctSig t e o f p, x))].
Definition with_fee (fee : Z) (s : rctSig) : rctSig := RctSig (rct_type_ s) (rct_ecdhInfo s) (rct_outPk s) fee (rct_prunable s).
Definition check_rct (sf : rctSig * option Z) : expect rctSig :=
  let '(s, txnFee) := sf in
  if negb (rct_type_ s =? RCTTypeNull) then
    match txnFee with
    | Some fee => if is_empty (rct_ecdhInfo s) || is_empty (rct_outPk s) then Err (schema_err schema_missing_key) else Ok (with_fee fee s)
    | None => Err (schema_err schema_missing_key)
    end
  else if negb (is_empty (rct_ecdhInfo s)) || negb (is_empty (rct_outPk s)) || is_some_b txnFee then Err (schema_err schema_invalid_key)
  else Ok (with_fee 0 s).
Definition read_rctSig : reading rctSig := converted (read_slots rct_slots (RctSig 0 [] [] 0 None, None)) check_rct.

(** *** cryptonote *)
Definition read_txout_to_script : reading (list public_key * list Z) :=
  read_slots [cleared "keys" (read_blobs 32) (fun l s => (l, s.2)) []; cleared "script" read_binary (fun b s => (s.1, b)) []] ([], []).
Definition read_txout_to_scripthash : reading hash := read_slots [required "hash" read_key (fun h _ => h)] 0.
Definition read_txout_to_tagged_key : reading (Z * Z) :=
  read_slots [required "key" read_key (fun k s => (k, s.2)); required "view_tag" (read_blob 1) (fun t s => (s.1, t))] (0, 0).
Definition read_txout_to_key : reading Z := read_slots [required "key" read_key (fun k _ => k)] 0.

(** A reader of one kind of target, or input, for the variant. *)
Definition as_option {A B} (R : reading A) (f : A -> B) : reading B := converted R (fun a => Ok (f a)).
Definition tx_out_slots : list (slot (Z * option txout_target)) :=
  let set t (s : Z * option txout_target) := (s.1, Some t) in
  let was_read (s : Z * option txout_target) := is_some_b s.2 in
  [required "amount" uint64 (fun a s => (a, s.2));
   option_slot "to_key" (as_option read_txout_to_key txout_to_key) was_read set;
   option_slot "to_tagged_key" (as_option read_txout_to_tagged_key (fun kt => txout_to_tagged_key kt.1 kt.2)) was_read set;
   option_slot "to_script" (as_option read_txout_to_script (fun ks => txout_to_script ks.1 ks.2)) was_read set;
   option_slot "to_scripthash" (as_option read_txout_to_scripthash txout_to_scripthash) was_read set].
Definition read_tx_out : reading tx_out :=
  converted (read_slots tx_out_slots (0, None)) (fun s => let* t := variant_read s.2 in Ok (MkTxOut s.1 t)).

Definition read_txin_gen : reading Z := read_slots [required "height" uint64 (fun h _ => h)] 0.
Definition read_txin_to_script : reading (hash * Z * list Z) :=
  read_slots [required "prev" read_key (fun p '(_, i, s) => (p, i, s)); required "prevout" uint64 (fun i '(p, _, s) => (p, i, s));
              cleared "sigset" read_binary (fun s '(p, i, _) => (p, i, s)) []] (0, 0, []).
Definition read_txin_to_scripthash : reading (hash * Z * (list public_key * list Z) * list Z) :=
  read_slots [required "prev" read_key (fun p '(_, i, c, s) => (p, i, c, s)); required "prevout" uint64 (fun i '(p, _, c, s) => (p, i, c, s));
              required "script" read_txout_to_script (fun c '(p, i, _, s) => (p, i, c, s));
              cleared "sigset" read_binary (fun s '(p, i, c, _) => (p, i, c, s)) []] (0, 0, ([], []), []).
Definition read_txin_to_key : reading (Z * list Z * key_image_t) :=
  read_slots [required "amount" uint64 (fun a '(_, o, k) => (a, o, k));
              cleared "key_offsets" (read_vector uint64 0 max_ring_size) (fun o '(a, _, k) => (a, o, k)) [];
              required "key_image" read_key (fun k '(a, o, _) => (a, o, k))] (0, [], 0).
Definition txin_options : list (String.string * reading txin_v) :=
  [("to_key"%string, as_option read_txin_to_key (fun '(a, o, k) => in_to_key a o k));
   ("gen"%string, as_option read_txin_gen in_gen);
   ("to_script"%string, as_option read_txin_to_script (fun '(p, i, s) => in_to_script p i s));
   ("to_scripthash"%string, as_option read_txin_to_scripthash (fun '(p, i, c, s) => in_to_scripthash p i c s))].
Definition read_txin_v : reading txin_v := read_variant txin_options.

Definition transaction_slots : list (slot json_transaction) :=
  [required "version" uint64 (fun x '(JsonTransaction _ u i o e s r) => JsonTransaction x u i o e s r);
   required "unlock_time" uint64 (fun x '(JsonTransaction v _ i o e s r) => JsonTransaction v x i o e s r);
   required "inputs" (read_vector read_txin_v 0 max_inputs_per_tx) (fun x '(JsonTransaction v u _ o e s r) => JsonTransaction v u x o e s r);
   required "outputs" (read_vector read_tx_out 0 max_outputs_per_tx) (fun x '(JsonTransaction v u i _ e s r) => JsonTransaction v u i x e s r);
   cleared "extra" read_binary (fun x '(JsonTransaction v u i o _ s r) => JsonTransaction v u i o x s r) [];
   cleared "signatures" (read_vector (read_blobs 64) 0 max_inputs_per_tx) (fun x '(JsonTransaction v u i o e _ r) => JsonTransaction v u i o e x r) [];
   required "ringct" read_rctSig (fun x '(JsonTransaction v u i o e s _) => JsonTransaction v u i o e s x)].

(** What stands in the fields before they are read; all of these are required,
    so none of it is ever seen. *)
Definition no_rct : rctSig := RctSig RCTTypeNull [] [] 0 None.
Definition no_transaction : json_transaction := JsonTransaction 0 0 [] [] [] [] no_rct.
Definition read_transaction : reading json_transaction := read_slots transaction_slots no_transaction.

Definition block_slots : list (slot json_block) :=
  [required "major_version" uint8 (fun x '(JsonBlock _ m t i h p n) => JsonBlock x m t i h p n);
   required "minor_version" uint8 (fun x '(JsonBlock v _ t i h p n) => JsonBlock v x t i h p n);
   required "timestamp" uint64 (fun x '(JsonBlock v m _ i h p n) => JsonBlock v m x i h p n);
   required "miner_tx" read_transaction (fun x '(JsonBlock v m t _ h p n) => JsonBlock v m t x h p n);
   cleared "tx_hashes" (read_vector read_key 32 u64_max) (fun x '(JsonBlock v m t i _ p n) => JsonBlock v m t i x p n) [];
   required "prev_id" read_key (fun x '(JsonBlock v m t i h _ n) => JsonBlock v m t i h x n);
   required "nonce" uint32 (fun x '(JsonBlock v m t i h p _) => JsonBlock v m t i h p x)].
Definition no_block : json_block := JsonBlock 0 0 0 no_transaction [] 0 0.
Definition read_block : reading json_block := read_slots block_slots no_block.

Definition read_block_with_transactions : reading block_with_transactions :=
  read_slots [required "block" read_block (fun b w => BlockWithTransactions b (bw_transactions w));
              cleared "transactions" (read_vector read_transaction 0 max_txes_per_block) (fun t w => BlockWithTransactions (bw_block w) t) []]
    (BlockWithTransactions no_block []).
Definition read_tx_in_pool : reading tx_in_pool :=
  read_slots [required "tx" read_transaction (fun t p => TxInPool t (tp_tx_hash p)); required "tx_hash" read_key (fun h p => TxInPool (tp_tx p) h)]
    (TxInPool no_transaction 0).

(** *** Answers *)
Definition read_get_hashes_fast : reading get_hashes_fast_response :=
  read_slots [cleared "hashes" (read_blobs 32) (fun h r => GetHashesFastResponse h (gh_start_height r) (gh_current_height r)) [];
              required "start_height" uint64 (fun s r => GetHashesFastResponse (gh_hashes r) s (gh_current_height r));
              required "current_height" uint64 (fun c r => GetHashesFastResponse (gh_hashes r) (gh_start_height r) c)]
    (GetHashesFastResponse [] 0 0).

Definition read_output_indices : reading (list (list (list Z))) :=
  read_vector (read_vector (read_vector uint64 0 max_outputs_per_tx) 0 max_txes_per_block) 0 max_blocks_per_fetch.
Definition blocks_slots : list (slot get_blocks_fast_response) :=
  [cleared "blocks" (read_vector read_block_with_transactions 0 max_blocks_per_fetch) (fun x '(GetBlocksFastResponse _ o s c) => GetBlocksFastResponse x o s c) [];
   required "output_indices" read_output_indices (fun x '(GetBlocksFastResponse b _ s c) => GetBlocksFastResponse b x s c);
   required "start_height" uint64 (fun x '(GetBlocksFastResponse b o _ c) => GetBlocksFastResponse b o x c);
   required "current_height" uint64 (fun x '(GetBlocksFastResponse b o s _) => GetBlocksFastResponse b o s x)].
Definition read_get_blocks_fast : reading get_blocks_fast_response := read_slots blocks_slots (GetBlocksFastResponse [] [] 0 0).
Definition read_get_transaction_pool : reading (list tx_in_pool) :=
  read_slots [cleared "transactions" (read_vector read_tx_in_pool 0 max_txpool_size) (fun t _ => t) []] [].

(** *** For the scanner: the parts of a transaction that it uses *)
Section scanner.
(** The number of a target, and the keys of a ringct signature. *)
Context (target_id : txout_target -> Z).
Definition as_txin (i : txin_v) : txin :=
  match i with
  | in_gen _ => txin_gen
  | in_to_key amount key_offsets k_image => txin_to_key amount key_offsets k_image
  | _ => txin_other
  end.
Definition as_transaction (t : json_transaction) : transaction :=
  Transaction (jt_version t) (jt_unlock_time t) (as_txin <$> jt_vin t)
    ((fun o => TxOut (to_amount o) (target_id (to_target o))) <$> jt_vout t) (jt_extra t)
    (rct_type_ (jt_rct t)) (rct_outPk (jt_rct t)) (rct_ecdhInfo (jt_rct t)).
Definition as_block (b : json_block) : block :=
  Block (jb_major_version b) (jb_timestamp b) (jb_prev_id b) (as_transaction (jb_miner_tx b)) (jb_tx_hashes b).
Definition as_fetched (r : get_blocks_fast_response) : fetched :=
  Fetched (gb_start_height r)
    ((fun b => FetchedBlock (as_block (bw_block b)) (as_transaction <$> bw_transactions b)) <$> gb_blocks r) (gb_output_indices r).
End scanner.
End readers.
End Answers.

(** ** Publications *)
Module Publications.
Import Answers.
Section publications.
Context `{RJ : RapidJson} {LI : Limits}.
Definition max_txes_pub : Z := 775.

Record minimal_chain_pub := MinimalChainPub { top_block_height : Z; top_block_id : hash }.
(** Only the last id of the array is kept, with their count. *)
Definition top_of (s : Z * list hash) : expect minimal_chain_pub :=
  match last s.2 with
  | Some id => Ok (MinimalChainPub (u64 (s.1 + Z.of_nat (length s.2) - 1)) id)
  | None => Err (schema_err schema_binary)
  end.
Definition read_minimal_chain_pub : reading minimal_chain_pub :=
  converted (read_slots [required "first_height" uint64 (fun h s => (h, s.2)); cleared "ids" (read_blobs 32) (fun l s => (s.1, l)) []] (0, []))
    top_of.
Definition minimal_chain_from_json (source : list Z) : expect minimal_chain_pub :=
  JsonReader.from_bytes (read_bytes read_minimal_chain_pub) source.

Definition read_full_txpool_pub : reading (list json_transaction) := read_vector read_transaction 0 max_txes_pub.
Definition full_txpool_from_json (source : list Z) : expect (list json_transaction) :=
  JsonReader.from_bytes (read_bytes read_full_txpool_pub) source.
End publications.
End Publications.

(** ** What is read is what was meant *)
Module Faithfulness.
Import Variants Answers Publications.
Section faithful.
Context `{RJ : RapidJson} {LI : Limits} `{!RapidJsonLaws}.
(** The limits are sizes. *)
Context (Hb : 0 <= max_blocks_per_fetch) (Hf : 0 <= bf_max) (Hp : 0 <= bf_plus_max).

Ltac slots :=
  apply slots_faithful;
  repeat (apply Forall_cons_2; [first [apply option_slot_faithful; apply _|apply slot_of_faithful; apply _]|]); constructor.

#[local] Instance key_faithful : Faithful read_key. Proof. apply _. Qed.
#[local] Instance blobs_faithful n : Faithful (read_blobs n).
Proof. apply vector_faithful; [lia|done|apply _]. Qed.
#[local] Instance keyV_faithful : Faithful read_keyV. Proof. apply _. Qed.
#[local] Instance binary_faithful : Faithful read_binary.
Proof. intros d v _ Hv Hpl. by apply ReaderFacts.binary_reads. Qed.
#[local] Instance as_option_faithful {A B} (R : reading A) (f : A -> B) : Faithful R -> Faithful (as_option R f).
Proof. intros HR. by apply converted_faithful. Qed.
#[local] Instance vector0_faithful {A} (R : reading A) n : Faithful R -> 0 <= n -> Faithful (read_vector R 0 n).
Proof. intros HR Hn. by apply vector_faithful. Qed.

#[export] Instance ecdh_faithful : Faithful read_ecdhTuple. Proof. slots. Qed.
#[export] Instance clsag_faithful : Faithful read_clsag. Proof. slots. Qed.
#[local] Instance keyM_faithful : Faithful (read_vector read_keyV 0 256). Proof. by apply vector_faithful; [| |apply _]. Qed.
#[export] Instance mgSig_faithful : Faithful read_mgSig. Proof. slots. Qed.
#[export] Instance bulletproof_plus_faithful : Faithful read_BulletproofPlus. Proof. slots. Qed.
#[export] Instance bulletproof_faithful : Faithful read_Bulletproof. Proof. slots. Qed.
#[export] Instance boroSig_faithful : Faithful read_boroSig. Proof. apply converted_faithful. slots. Qed.
#[export] Instance rangeSig_faithful : Faithful read_rangeSig. Proof. apply converted_faithful. slots. Qed.
#[export] Instance prunable_faithful : Faithful read_prunable.
Proof.
  apply converted_faithful, slots_faithful.
  repeat (apply Forall_cons_2; [apply slot_of_faithful; by apply vector_faithful; [| |apply _]|]). constructor.
Qed.
#[local] Instance vector_min_faithful {A} (R : reading A) n : Faithful R -> 0 <= n -> Faithful (read_vector R n u64_max).
Proof. intros HR Hn. by apply vector_faithful. Qed.
#[export] Instance rctSig_faithful : Faithful read_rctSig.
Proof.
  apply converted_faithful, slots_faithful.
  repeat (apply Forall_cons_2; [apply slot_of_faithful; first [apply _|by apply vector_faithful; [| |apply _]]|]). constructor.
Qed.
#[export] Instance to_script_faithful : Faithful read_txout_to_script. Proof. slots. Qed.
#[export] Instance to_scripthash_faithful : Faithful read_txout_to_scripthash. Proof. slots. Qed.
#[export] Instance to_tagged_key_faithful : Faithful read_txout_to_tagged_key. Proof. slots. Qed.
#[export] Instance to_key_faithful : Faithful read_txout_to_key. Proof. slots. Qed.
#[export] Instance tx_out_faithful : Faithful read_tx_out. Proof. apply converted_faithful. slots. Qed.
#[export] Instance in_gen_faithful : Faithful read_txin_gen. Proof. slots. Qed.
#[export] Instance in_to_script_faithful : Faithful read_txin_to_script. Proof. slots. Qed.
#[export] Instance in_to_scripthash_faithful : Faithful read_txin_to_scripthash. Proof. slots. Qed.
#[local] Instance ring_faithful : Faithful (read_vector uint64 0 max_ring_size). Proof. by apply vector_faithful; [| |apply _]. Qed.
#[export] Instance in_to_key_faithful : Faithful read_txin_to_key. Proof. slots. Qed.
#[export] Instance txin_faithful : Faithful read_txin_v.
Proof. apply variant_faithful. repeat (apply Forall_cons_2; [cbn [snd]; apply _|]). constructor. Qed.
#[local] Instance inputs_faithful : Faithful (read_vector read_txin_v 0 max_inputs_per_tx). Proof. by apply vector_faithful; [| |apply _]. Qed.
#[local] Instance outputs_faithful : Faithful (read_vector read_tx_out 0 max_outputs_per_tx). Proof. by apply vector_faithful; [| |apply _]. Qed.
#[local] Instance signatures_faithful : Faithful (read_vector (read_blobs 64) 0 max_inputs_per_tx). Proof. by apply vector_faithful; [| |apply _]. Qed.
#[export] Instance transaction_faithful : Faithful read_transaction. Proof. slots. Qed.
#[local] Instance keys_faithful : Faithful (read_vector read_key 32 u64_max). Proof. by apply vector_faithful; [| |apply _]. Qed.
#[export] Instance block_faithful : Faithful read_block. Proof. slots. Qed.
#[local] Instance txes_faithful : Faithful (read_vector read_transaction 0 max_txes_per_block). Proof. by apply vector_faithful; [| |apply _]. Qed.
#[export] Instance block_with_faithful : Faithful read_block_with_transactions. Proof. slots. Qed.
#[export] Instance tx_in_pool_faithful : Faithful read_tx_in_pool. Proof. slots. Qed.
#[export] Instance hashes_faithful : Faithful read_get_hashes_fast. Proof. slots. Qed.
#[local] Instance blocks_vector_faithful : Faithful (read_vector read_block_with_transactions 0 max_blocks_per_fetch).
Proof. by apply vector_faithful; [| |apply _]. Qed.
#[local] Instance indices_faithful : Faithful read_output_indices.
Proof. unfold read_output_indices. repeat (apply vector_faithful; [done|done|]). apply _. Qed.
#[export] Instance blocks_faithful : Faithful read_get_blocks_fast. Proof. slots. Qed.
#[local] Instance pool_txes_faithful : Faithful (read_vector read_tx_in_pool 0 max_txpool_size). Proof. by apply vector_faithful; [| |apply _]. Qed.
#[export] Instance transaction_pool_faithful : Faithful read_get_transaction_pool. Proof. slots. Qed.
#[export] Instance minimal_chain_faithful : Faithful read_minimal_chain_pub. Proof. apply converted_faithful. slots. Qed.
#[export] Instance full_txpool_faithful : Faithful read_full_txpool_pub. Proof. by apply vector_faithful; [| |apply _]. Qed.
End faithful.
End Faithfulness.

(** ** Exactly one option *)
Module VariantFacts.
Import Variants JsonObject.
Section variant_facts.
Context `{RJ : RapidJson} `{!RapidJsonLaws}.

Section generic.
Context {A : Type} (options : list (String.string * reading A)).
#[local] Abbreviation slots := (variant_slots options).

(** The reader for a member. *)
Definition option_of (kv : Z * String.string * wvalue) : option (reading A) :=
  i ← find_key (member_key false kv.1.1 kv.1.2) (fields_of slots); snd <$> options !! i.

Lemma fields_optional seen : missing (fields_of slots) seen = false.
Proof.
  unfold missing. apply not_true_iff_false. intros Hm. apply existsb_exists in Hm as ([i f] & Hin & Hb). cbn in Hb.
  apply in_combine_r in Hin. unfold fields_of in Hin. apply in_map_iff in Hin as (sl & <- & Hsl).
  apply in_map_iff in Hsl as (o & <- & _). done.
Qed.
Lemma reset_nothing seen s : JsonObject.reset_omitted (fields_of slots) (reset_of slots) seen s = s.
Proof.
  unfold JsonObject.reset_omitted. generalize (seq 0 (length (fields_of slots))). intros l. revert s. induction l as [|i l IH]; intros s; [done|].
  cbn [foldl]. rewrite IH. destruct (_ && _); [|done]. unfold reset_of, variant_slots. rewrite list_lookup_fmap.
  by destruct (options !! i).
Qed.

Lemma option_of_known kv : kv ∈ JsonText.known (fields_of slots) [kv] -> exists i o,
  find_key (member_key false kv.1.1 kv.1.2) (fields_of slots) = Some i /\ options !! i = Some o /\ option_of kv = Some o.2.
Proof.
  unfold JsonText.known. cbn [List.filter]. destruct (find_key _ _) as [i|] eqn:E; cbn [is_some_b]; [|by intros ?%elem_of_nil]. intros _.
  pose proof (ObjectFacts.find_key_lt _ _ _ E) as Hi. unfold fields_of, variant_slots in Hi. rewrite length_map, length_fmap in Hi.
  apply lookup_lt_is_Some in Hi as [o Ho]. exists i, o. split_and!; [done|done|]. unfold option_of. rewrite E. cbn. by rewrite Ho.
Qed.

Lemma read_option d kv i o seen s : find_key (member_key false kv.1.1 kv.1.2) (fields_of slots) = Some i -> options !! i = Some o ->
  read_member (fields_of slots) (tree_of slots d) (seen, s) (member_key false kv.1.1 kv.1.2, kv.2) =
  if bool_decide (i ∈ seen) || is_some_b s then Err (schema_err schema_invalid_key)
  else let* a := of_tree o.2 d kv.2 in Ok (i :: seen, Some a).
Proof.
  intros Hk Ho. unfold read_member. cbn [fst snd]. rewrite Hk. case_bool_decide; cbn [orb]; [done|]. unfold tree_of, variant_slots.
  rewrite list_lookup_fmap, Ho. cbn. destruct (is_some_b s); [done|]. by destruct (of_tree o.2 d kv.2).
Qed.

Lemma tree_outcome d l : d + 1 < JsonReader.max_read_depth ->
  let ms := JsonText.known (fields_of slots) l in
  let result := of_tree (read_variant options) d (WObj l) in
  match ms with
  | [] => result = Err (schema_err schema_missing_key)
  | kv :: more => exists R, option_of kv = Some R /\
      result = match more with [] => of_tree R (d + 1) kv.2 | _ => let* _ := of_tree R (d + 1) kv.2 in Err (schema_err schema_invalid_key) end
  end.
Proof.
  intros Hd. cbv zeta. unfold read_variant. cbn [of_tree converted]. rewrite <- JsonText.tree_ignores_unknown.
  set (ms := JsonText.known (fields_of slots) l).
  assert (forall kv, kv ∈ ms -> kv ∈ JsonText.known (fields_of slots) [kv]) as Hk.
  { intros kv Hkv. unfold ms, JsonText.known in *. rewrite list_elem_of_In, filter_In in *. split; [by left|tauto]. }
  clearbody ms. clear l. cbn [of_tree read_slots ObjectFacts.t_object]. destruct (Z.eqb_spec (d + 1) JsonReader.max_read_depth); [lia|].
  unfold object_tree, Wire.read_object, members. destruct ms as [|kv more].
  { cbn [fmap list_fmap efold ebind fst]. by rewrite fields_optional; cbn; rewrite reset_nothing. }
  destruct (option_of_known kv) as (i & o & E & Ho & HR); [by apply Hk; left|]. exists o.2. split; [done|].
  cbn [fmap list_fmap efold]. rewrite (read_option _ _ i o) by done. rewrite bool_decide_false by (by apply not_elem_of_nil). cbn [orb is_some_b].
  destruct (of_tree o.2 (d + 1) kv.2) as [a|e]; cbn [ebind]; [|by destruct more]. destruct more as [|kv2 more].
  { cbn [fmap list_fmap efold ebind fst]. by rewrite fields_optional; cbn; rewrite reset_nothing. }
  destruct (option_of_known kv2) as (i2 & o2 & E2 & Ho2 & _); [by apply Hk; right; left|].
  cbn [fmap list_fmap efold]. rewrite (read_option _ _ i2 o2) by done. by rewrite orb_true_r.
Qed.
End generic.

(** An answer of the daemon: its members are the id, the first of [result] and
    [error], and others that are skipped. *)
Definition answer_members {A} (R : reading A) (l : list (Z * String.string * wvalue)) : list (Z * String.string * wvalue) :=
  JsonText.known (fields_of (response_slots R)) l.

Ltac tree_step :=
  erewrite efold_read_member; [|vm_compute; reflexivity|vm_compute; reflexivity|unfold tree_of; cbn -[of_tree read_json_error read_unsigned]].
Lemma no_reset {A} (R : reading A) seen s : JsonObject.reset_omitted (fields_of (response_slots R)) (reset_of (response_slots R)) seen s = s.
Proof. unfold JsonObject.reset_omitted. cbn [length fields_of map response_slots seq foldl]. by repeat destruct (_ && _). Qed.

(** C22: What [parse_json_response] makes of an answer with an id: with [result]
    alone what the response type makes of it, with [error] alone the error
    [json_rpc], with neither a missing key and with both an invalid one, in either
    order; whatever else the answer holds, [jsonrpc] first of all, plays no part. *)
Theorem response_outcome {A} (R : reading A) id l rest :
  Faithful R -> good (WObj l) = true -> fits (read_slots (response_slots R) (0, None)) (WObj l) -> 0 <= id <= u32_max ->
  answer_members R l = (0, "id"%string, WUint id) :: rest ->
  forall result error,
  (rest = [] -> parse_json_response R (compact (WObj l)) = Err (schema_err schema_missing_key)) /\
  (rest = [(0, "result"%string, result)] -> parse_json_response R (compact (WObj l)) = of_tree R 1 result) /\
  (rest = [(0, "error"%string, error)] -> is_ok (of_tree read_json_error 1 error) = true ->
     parse_json_response R (compact (WObj l)) = Err (lws_err json_rpc)) /\
  ((rest = [(0, "result"%string, result); (0, "error"%string, error)] \/ rest = [(0, "error"%string, error); (0, "result"%string, result)]) ->
     is_ok (of_tree R 1 result) = true -> is_ok (of_tree read_json_error 1 error) = true ->
     parse_json_response R (compact (WObj l)) = Err (schema_err schema_invalid_key)).
Proof.
  intros HR Hg Hf Hid Hms result error. unfold parse_json_response. rewrite JsonText.from_text; [|apply _|done|done].
  unfold read_json_response. cbn [of_tree converted]. rewrite <- JsonText.tree_ignores_unknown. unfold answer_members in Hms. rewrite Hms. clear Hms Hf Hg l.
  cbn [of_tree read_slots ObjectFacts.t_object]. change (0 + 1 =? JsonReader.max_read_depth) with false. cbv iota. change (0 + 1) with 1.
  unfold object_tree, Wire.read_object, members. cbn [fmap list_fmap fst snd].
  tree_step; [|cbn; unfold cast_unsigned; rewrite (proj2 (Z.ltb_ge u32_max id)) by lia; reflexivity]. split_and!.
  - intros ->. cbn [efold fmap list_fmap ebind fst snd]. replace (missing _ _) with false by (vm_compute; reflexivity). cbn [ebind fst snd]. by rewrite no_reset.
  - intros ->. cbn [fmap list_fmap fst snd]. destruct (of_tree R 1 result) as [a|e] eqn:E.
    + tree_step; [|by rewrite E]. cbn [efold ebind fst snd]. replace (missing _ _) with false by (vm_compute; reflexivity).
      cbn [ebind fst snd]. by rewrite no_reset.
    + cbn [efold]. unfold read_member. cbn [fst snd].
      match goal with |- context [find_key ?k ?f] => replace (find_key k f) with (Some 1%nat) by (vm_compute; reflexivity) end.
      rewrite bool_decide_false by set_solver. unfold tree_of. cbn -[of_tree]. by rewrite E.
  - intros -> He. cbn [fmap list_fmap fst snd]. destruct (of_tree read_json_error 1 error) as [a|e] eqn:E; [|done].
    tree_step; [|by rewrite E]. cbn [efold ebind fst snd]. replace (missing _ _) with false by (vm_compute; reflexivity).
    cbn [ebind fst snd]. by rewrite no_reset.
  - intros Hr Hres Her. destruct (of_tree R 1 result) as [a|e] eqn:E1; [|done]. destruct (of_tree read_json_error 1 error) as [b|e] eqn:E2; [|done].
    destruct Hr as [-> | ->]; cbn [fmap list_fmap fst snd].
    + tree_step; [|by rewrite E1]. cbn [efold]. unfold read_member. cbn [fst snd].
      match goal with |- context [find_key ?k ?f] => replace (find_key k f) with (Some 2%nat) by (vm_compute; reflexivity) end.
      rewrite bool_decide_false by set_solver. done.
    + tree_step; [|by rewrite E2]. cbn [efold]. unfold read_member. cbn [fst snd].
      match goal with |- context [find_key ?k ?f] => replace (find_key k f) with (Some 1%nat) by (vm_compute; reflexivity) end.
      rewrite bool_decide_false by set_solver. done.
Qed.
End variant_facts.
End VariantFacts.

(** ** What a hostile daemon can make of an answer *)
Module Accepted.
Import JsonReader JsonObject KeyFacts Variants Answers Publications.
Section yields.
Context `{RJ : RapidJson}.
(** The size of the message. *)
Context (N : Z).

(** Everything read is [P], and no byte is read that is not in the message. *)
Definition Yields_by {A} (f : reader -> expect (A * reader)) (P : A -> Prop) : Prop :=
  forall r a r', left r <= N -> f r = Ok (a, r') -> left r' <= N /\ P a.
Definition Yields {A} (R : reading A) (P : A -> Prop) : Prop := Yields_by (read_bytes R) P.

Lemma yields_weaken {A} (R : reading A) (P Q : A -> Prop) : Yields R P -> (forall a, P a -> Q a) -> Yields R Q.
Proof. intros HR HPQ r a r' Hr Ha. destruct (HR r a r' Hr Ha). eauto. Qed.
Lemma yields_converted {A B} (R : reading A) (f : A -> expect B) (P : A -> Prop) (Q : B -> Prop) :
  Yields R P -> (forall a b, P a -> f a = Ok b -> Q b) -> Yields (converted R f) Q.
Proof.
  intros HR Hf r b r' Hr Hb. cbn in Hb. destruct (read_bytes R r) as [[a r1]|] eqn:E; [|done]. cbn in Hb.
  destruct (HR r a r1 Hr E). destruct (f a) as [b1|] eqn:Ef; [|done]. injection Hb as -> ->. eauto.
Qed.
Lemma yields_shrinks {A} (f : reader -> expect (A * reader)) :
  (forall r a r', f r = Ok (a, r') -> (length (remaining r') <= length (remaining r))%nat) -> Yields_by f (fun _ => True).
Proof. intros Hf r a r' Hr Ha. specialize (Hf r a r' Ha). unfold left in *. split; [lia|done]. Qed.

Lemma increment_left r r' : increment_depth r = Ok r' -> remaining r' = remaining r.
Proof. unfold increment_depth. destruct (_ =? _); [done|]. by intros [= <-]. Qed.
Lemma decrement_left r r' : decrement_depth r = Ok r' -> remaining r' = remaining r.
Proof. unfold decrement_depth. destruct (_ =? _); [done|]. by intros [= <-]. Qed.
Lemma remove_left n r : (length (remaining (remove_prefix n r)) <= length (remaining r))%nat.
Proof. cbn. rewrite length_drop. lia. Qed.

Lemma memchr_left c l s rest : memchr c l = Some (s, rest) -> (length rest < length l)%nat.
Proof.
  revert s. induction l as [|x l IH]; intros s; cbn; [done|]. destruct (x =? c); [intros [= <- <-]; lia|].
  destruct (memchr c l) as [[s1 r1]|]; [|done]. intros [= <- <-]. specialize (IH _ eq_refl). lia.
Qed.
Lemma string_left r s r' : get_next_string r = Ok (s, r') -> (length (remaining r') <= length (remaining r))%nat.
Proof.
  unfold get_next_string. destruct (get_next_token r) as [c r1] eqn:E. destruct (negb _); [done|].
  destruct (memchr _ _) as [[s1 rest]|] eqn:Em; [|done]. intros [= <- <-]. apply token_left in E. apply memchr_left in Em.
  pose proof (remove_left 1 r1). cbn [remaining] in *. lia.
Qed.

Lemma yields_unsigned max : Yields (read_unsigned max) (fun z => z <= max).
Proof.
  eapply (yields_converted _ _ (fun _ => True)).
  - apply yields_shrinks. intros r a r' Hr. cbn in Hr. unfold unsigned_integer in Hr. destruct (read_next_value _ r) as [[h r1]|] eqn:E; [|done].
    cbn in Hr. apply read_left in E. destruct (negb (negative h)); [by injection Hr as _ <-|]. destruct (_ <? 0); [done|]. by injection Hr as _ <-.
  - intros a b _. unfold cast_unsigned. destruct (Z.ltb_spec max a); [done|]. intros [= <-]. lia.
Qed.
Lemma yields_blob n : Yields (read_blob n) (fun _ => True).
Proof.
  eapply (yields_converted _ _ (fun _ => True)); [|done]. apply yields_shrinks. intros r a r' Hr. cbn in Hr. unfold binary_fixed in Hr.
  destruct (get_next_string r) as [[s r1]|] eqn:E; [|done]. cbn in Hr. apply string_left in E. destruct (to_buffer n s); [|done]. by injection Hr as _ <-.
Qed.
Lemma yields_binary : Yields read_binary (fun _ => True).
Proof.
  apply yields_shrinks. intros r a r' Hr. cbn -[Nat.div] in Hr. unfold binary in Hr.
  destruct (get_next_string r) as [[s r1]|] eqn:E; [|done]. cbn -[Nat.div] in Hr. apply string_left in E.
  destruct (to_buffer _ s); [|done]. by injection Hr as _ <-.
Qed.
Lemma yields_string : Yields read_string (fun _ => True).
Proof.
  apply yields_shrinks. intros r a r' Hr. cbn in Hr. unfold string in Hr. destruct (read_next_value _ r) as [[h r1]|] eqn:E; [|done].
  injection Hr as _ <-. by apply read_left in E.
Qed.
Lemma yields_signed min max : Yields (read_signed min max) (fun _ => True).
Proof.
  eapply (yields_converted _ _ (fun _ => True)); [|done]. apply yields_shrinks. intros r a r' Hr. cbn in Hr. unfold integer in Hr.
  destruct (read_next_value _ r) as [[h r1]|] eqn:E; [|done]. cbn in Hr. apply read_left in E.
  destruct (negative h); [by injection Hr as _ <-|]. destruct (_ <? _); [done|]. by injection Hr as _ <-.
Qed.

(** *** Arrays *)
Lemma array_end_left count r b r' : is_array_end count r = Ok (b, r') -> (length (remaining r') <= length (remaining r))%nat.
Proof.
  unfold is_array_end. destruct (get_next_token r) as [c r1] eqn:E. apply token_left in E. pose proof (remove_left 1 r1).
  repeat match goal with |- context [if ?b then _ else _] => destruct b end; try done; intros [= _ <-]; lia.
Qed.

Section array_yields.
Context {A : Type} (R : reading A) (P : A -> Prop) (min_size max_count : Z).
(** The elements, their count, and the bytes that they take. *)
Definition vector_of (l : list A) : Prop :=
  Z.of_nat (length l) <= Z.max 0 max_count /\ min_size * Z.of_nat (length l) <= Z.max 0 N /\ Forall P l.

Lemma array_loop_yields : Yields R P -> forall start fuel more count dest r dest' r', start <= N -> left r <= N -> vector_of dest ->
  array_loop (read_bytes R) (fun x l => l ++ [x]) min_size max_count fuel start more count dest r = Ok (dest', r') ->
  left r' <= N /\ vector_of dest'.
Proof.
  intros HR start. induction fuel as [|fuel IH]; intros more count dest r dest' r' Hs Hr Hd; [done|]. cbn [array_loop]. intros Ha.
  inv_ok Ha. destruct r0 as [fin r1].
  assert (left r1 <= N) as Hr1.
  { destruct more; [injection Hr0 as _ <-; lia|]. apply array_end_left in Hr0. unfold left in *. lia. }
  destruct fin; [by injection Ha as <- <-|]. destruct (Z.leb_spec max_count (Z.of_nat (length dest))) as [|Hm]; [done|].
  inv_ok Ha. destruct r0 as [x r2]. destruct (HR r1 x r2 Hr1 Hr2) as [Hl Hx]. case_if Ha; [done|]. apply Z.ltb_ge in Hc.
  eapply IH; [done|exact Hl| |exact Ha]. destruct Hd as (H1 & H2 & H3). split_and!; [rewrite length_app; cbn; lia| |by apply Forall_app_2; [|constructor]].
  set (n := Z.of_nat (length (dest ++ [x]))) in *. assert (0 < n) by (unfold n; rewrite length_app; cbn; lia).
  assert (0 <= left r2) by (unfold left; lia). pose proof (Z.mul_div_le (start - left r2) n). nia.
Qed.
Lemma yields_vector : Yields R P -> Yields (read_vector R min_size max_count) vector_of.
Proof.
  intros HR r l r' Hr Ha. cbn in Ha. unfold array_unchecked in Ha. inv_ok Ha. destruct r0 as [count r1].
  assert (left r1 <= N) as Hr1.
  { unfold start_array in Hr0. destruct (get_next_token r) as [c r2] eqn:E. destruct (negb _); [done|]. inv_ok Hr0. injection Hr0 as _ <-.
    apply increment_left in Hr1. apply token_left in E. pose proof (remove_left 1 r2). unfold left in *. rewrite Hr1. lia. }
  repeat (case_if Ha; [done|]). inv_ok Ha. inv_ok Ha. injection Ha as <- <-. destruct r0 as [dest r3].
  eapply array_loop_yields in Hr2; [|done|lia|done|split_and!; cbn; [lia|lia|done]]. destruct Hr2 as [Hl Hv].
  apply decrement_left in Hr3. cbn in *. split; [|done]. unfold left in *. by rewrite Hr3.
Qed.
End array_yields.

(** *** Objects *)
Lemma next_key_left state r name state' r' : next_key state r = Ok (name, state', r') -> (length (remaining r') <= length (remaining r))%nat.
Proof.
  destruct name as [n|]; [intros ?%next_key_taken; lia|]. unfold next_key. destruct (get_next_token r) as [c r1] eqn:E. apply token_left in E.
  destruct (c =? 0); [done|]. pose proof (remove_left 1 r1). destruct (c =? _); [intros [= _ <-]; lia|]. intros Hk. inv_ok Hk. inv_ok Hk.
  destruct r2 as [h r2]. destruct (get_next_token r2) as [c2 r3]. by case_if Hk.
Qed.
Lemma key_left map state r k : key map state r = Ok k -> (length (remaining k.2) <= length (remaining r))%nat.
Proof.
  unfold key. generalize (S (length (remaining r))). intros fuel. revert state r. induction fuel as [|fuel IH]; intros state r; [done|].
  cbn [key_loop]. intros Hk. inv_ok Hk. destruct r0 as [[[name|] st] r1]; apply next_key_left in Hr; [|injection Hk as <-; cbn; lia].
  destruct (find_key _ _); [injection Hk as <-; cbn; lia|]. inv_ok Hk. apply skip_left in Hr0. apply IH in Hk. lia.
Qed.

Section slots_yield.
Context {S : Type} (I : S -> Prop).
(** A field keeps the invariant [I] of what was read so far. *)
Record keeps (sl : slot S) : Prop := Keeps {
  keeps_unpack : forall s, I s -> Yields_by (s_unpack S sl s) I;
  keeps_reset : forall s, I s -> I (s_reset S sl s)
}.

Lemma slot_of_keeps {A} b name (R : reading A) set reset (P : A -> Prop) :
  Yields R P -> (forall a s, P a -> I s -> I (set a s)) -> (forall s, I s -> I (reset s)) -> keeps (slot_of b name R set reset).
Proof.
  intros HR Hset Hreset. split; [|done]. intros s Hs r s' r' Hr Ha. cbn in Ha. inv_ok Ha. destruct r0 as [a r1]. injection Ha as <- <-.
  destruct (HR _ _ _ Hr Hr0). cbn. auto.
Qed.
Lemma option_slot_keeps {A} name (R : reading A) was_read set (P : A -> Prop) :
  Yields R P -> (forall a s, P a -> I s -> I (set a s)) -> keeps (option_slot name R was_read set).
Proof.
  intros HR Hset. split; [|done]. intros s Hs r s' r' Hr Ha. cbn in Ha. destruct (was_read s); [done|]. inv_ok Ha.
  destruct r0 as [a r1]. injection Ha as <- <-. destruct (HR _ _ _ Hr Hr0). cbn. auto.
Qed.

Lemma fields_yield slots : Forall keeps slots -> forall fuel state required seen s r st, left r <= N -> I s ->
  read_fields (fields_of slots) (unpack_of slots) fuel state required seen s r = Ok st -> left st.2 <= N /\ I st.1.2.
Proof.
  intros Hk. induction fuel as [|fuel IH]; intros state required seen s r st Hr Hs; [done|]. cbn [read_fields]. intros Ha. inv_ok Ha.
  apply key_left in Hr0. destruct r0 as [[[next|] state'] r1]; cbn in Hr0; [|injection Ha as <-; cbn; split; [unfold left in *; lia|done]].
  inv_ok Ha. destruct r0 as [s1 r2]. cbn [fst snd] in Ha. unfold try_read, unpack_of in Hr1. case_bool_decide; [done|].
  destruct (slots !! next) as [sl|] eqn:E; [|done]. destruct (Forall_lookup_1 _ _ _ _ Hk E) as [Hu _].
  destruct (Hu s Hs r1 s1 r2) as [Hl Hs1]; [unfold left in *; lia|done|]. by eapply IH in Ha.
Qed.
Lemma resets_yield slots seen s : Forall keeps slots -> I s -> I (reset_omitted (fields_of slots) (reset_of slots) seen s).
Proof.
  intros Hk. unfold reset_omitted. generalize (seq 0 (length (fields_of slots))). intros l. revert s.
  induction l as [|i l IH]; intros s Hs; [done|]. cbn [foldl]. apply IH. destruct (_ && _); [|done]. unfold reset_of.
  destruct (slots !! i) as [sl|] eqn:E; [|done]. destruct (Forall_lookup_1 _ _ _ _ Hk E) as [_ Hu]. auto.
Qed.
Lemma yields_slots slots s0 : Forall keeps slots -> I s0 -> Yields (read_slots slots s0) I.
Proof.
  intros Hk Hs r s r' Hr Ha. cbn -[read_fields] in Ha. unfold object in Ha. inv_ok Ha. destruct r0 as [state r1].
  assert (left r1 <= N) as Hr1.
  { unfold start_object in Hr0. destruct (get_next_token r) as [c r2] eqn:E. destruct (negb _); [done|]. inv_ok Hr0. injection Hr0 as _ <-.
    apply increment_left in Hr1. apply token_left in E. pose proof (remove_left 1 r2). unfold left in *. rewrite Hr1. lia. }
  inv_ok Ha. destruct r0 as [[[required seen] s1] r2]. eapply fields_yield in Hr2; [|done..]. cbn in Hr2. destruct Hr2 as [Hl Hs1].
  destruct (negb _); [done|]. inv_ok Ha. injection Ha as <- <-. apply decrement_left in Hr2. split; [unfold left in *; by rewrite Hr2|].
  by apply resets_yield.
Qed.
End slots_yield.
End yields.

(** *** The bounds of an answer *)
Section bounds.
Context `{RJ : RapidJson} {LI : Limits}.
Context (N : Z) (HN : 0 <= N) (Hb : 0 <= max_blocks_per_fetch) (Hf : 0 <= bf_max) (Hp : 0 <= bf_plus_max).

Definition at_most {A} (n : Z) (l : list A) : Prop := Z.of_nat (length l) <= n.
(** Elements of at least [size] bytes, all of them in the message. *)
Definition paid_for {A} (size : Z) (l : list A) : Prop := size * Z.of_nat (length l) <= N.

Definition prunable_bounded (p : prunable_helper) : Prop :=
  paid_for (64 * 32 * 3 + 32) (pr_rangeSigs p) /\ at_most bf_max (pr_bulletproofs p) /\ at_most bf_plus_max (pr_bulletproofs_plus p) /\
  at_most max_inputs_per_tx (pr_MGs p) /\ at_most max_inputs_per_tx (pr_CLSAGs p) /\ paid_for 32 (pr_pseudo_outs p).
(** A signature of type null has nothing else; every other has outputs, and a fee. *)
Definition rct_accepted (s : rctSig) : Prop :=
  paid_for 64 (rct_ecdhInfo s) /\ paid_for 32 (rct_outPk s) /\
  (rct_type_ s = RCTTypeNull -> rct_ecdhInfo s = [] /\ rct_outPk s = [] /\ rct_txnFee s = 0) /\
  (rct_type_ s <> RCTTypeNull -> rct_ecdhInfo s <> [] /\ rct_outPk s <> [] /\ rct_txnFee s <= u64_max) /\
  (forall p, rct_prunable s = Some p -> prunable_bounded p /\ pruned p = false).
Definition input_bounded (i : txin_v) : Prop :=
  match i with in_to_key _ key_offsets _ => at_most max_ring_size key_offsets | _ => True end.
Definition tx_bounded (t : json_transaction) : Prop :=
  at_most max_inputs_per_tx (jt_vin t) /\ Forall input_bounded (jt_vin t) /\ at_most max_outputs_per_tx (jt_vout t) /\
  at_most max_inputs_per_tx (jt_signatures t) /\ Forall (paid_for 64) (jt_signatures t) /\ rct_accepted (jt_rct t).
Definition block_bounded (b : block_with_transactions) : Prop :=
  tx_bounded (jb_miner_tx (bw_block b)) /\ paid_for 32 (jb_tx_hashes (bw_block b)) /\
  at_most max_txes_per_block (bw_transactions b) /\ Forall tx_bounded (bw_transactions b).
Definition answer_bounded (r : get_blocks_fast_response) : Prop :=
  at_most max_blocks_per_fetch (gb_blocks r) /\ Forall block_bounded (gb_blocks r) /\
  at_most max_blocks_per_fetch (gb_output_indices r) /\
  Forall (fun b => at_most max_txes_per_block b /\ Forall (at_most max_outputs_per_tx) b) (gb_output_indices r).

#[local] Abbreviation Yields := (Yields N).
Lemma counted {A} (R : reading A) (P : A -> Prop) n : 0 <= n -> Yields R P ->
  Yields (read_vector R 0 n) (fun l => at_most n l /\ Forall P l).
Proof. intros Hn HR. eapply yields_weaken; [by apply yields_vector|]. unfold vector_of, at_most. intros l (? & _ & ?). split; [lia|done]. Qed.
Lemma paid {A} (R : reading A) (P : A -> Prop) size n : Yields R P ->
  Yields (read_vector R size n) (fun l => paid_for size l /\ Forall P l).
Proof. intros HR. eapply yields_weaken; [by apply yields_vector|]. unfold vector_of, paid_for. intros l (_ & ? & ?). split; [lia|done]. Qed.
Lemma yields_blobs n : Yields (read_blobs n) (paid_for (Z.of_nat n)).
Proof. eapply yields_weaken; [apply paid, yields_blob|]. by intros l []. Qed.
Lemma yields_something {A} (R : reading A) (P : A -> Prop) : Yields R P -> Yields R (fun _ => True).
Proof. intros HR. by eapply yields_weaken. Qed.

(** Each field by what is known of its reader, [yields]; nothing but the
    invariant is asked of a field that plays no part in it. *)
Create HintDb yields.
#[local] Hint Resolve yields_unsigned yields_signed yields_blob yields_binary yields_string yields_blobs yields_something : yields.
Ltac slot_keeps :=
  lazymatch goal with
  | |- keeps _ _ (option_slot _ _ _ _) => eapply option_slot_keeps
  | |- _ => eapply slot_of_keeps
  end; [eauto with yields|idtac..].
Ltac slots_keep := first [apply Forall_nil_2|apply Forall_cons_2; [slot_keeps|slots_keep]].
Lemma yields_free {S} (slots : list (slot S)) s : Forall (keeps N (fun _ => True)) slots -> Yields (read_slots slots s) (fun _ => True).
Proof. intros Hk. by apply yields_slots. Qed.

Lemma yields_key : Yields read_key (fun _ => True).
Proof. apply yields_blob. Qed.
#[local] Hint Resolve yields_key : yields.
Lemma yields_keyV : Yields read_keyV (paid_for 32).
Proof. apply yields_blobs. Qed.
#[local] Hint Resolve yields_keyV : yields.
Lemma yields_ecdh : Yields read_ecdhTuple (fun _ => True).
Proof. apply yields_free. slots_keep; done. Qed.
Lemma yields_clsag : Yields read_clsag (fun _ => True).
Proof. apply yields_free. slots_keep; done. Qed.
Lemma yields_mgSig : Yields read_mgSig (fun _ => True).
Proof. apply yields_free. apply Forall_cons_2; [|slots_keep; done]. eapply slot_of_keeps; [apply yields_vector, yields_keyV|done..]. Qed.
Lemma yields_proof fields : Yields (read_slots (proof_slot <$> fields) (Proof ∅ ∅)) (fun _ => True).
Proof.
  apply yields_free, Forall_fmap, Forall_forall. intros [[|] name] _; unfold compose, proof_slot; cbn [fst snd]; slot_keeps; done.
Qed.
Lemma yields_boroSig : Yields read_boroSig (fun _ => True).
Proof. eapply yields_converted; [apply yields_free; slots_keep; done|done]. Qed.
#[local] Hint Resolve yields_boroSig : yields.
Lemma yields_rangeSig : Yields read_rangeSig (fun _ => True).
Proof. eapply yields_converted; [apply yields_free; slots_keep; done|done]. Qed.
#[local] Hint Resolve yields_ecdh yields_clsag yields_mgSig yields_rangeSig : yields.

Lemma yields_prunable : Yields read_prunable (fun p => prunable_bounded p /\ pruned p = false).
Proof.
  eapply (yields_converted _ _ _ prunable_bounded).
  - apply yields_slots; [|unfold prunable_bounded, paid_for, at_most; cbn; unfold max_inputs_per_tx; lia].
    repeat (apply Forall_cons_2;
      [eapply slot_of_keeps;
       [first [apply counted; [done|]|apply paid]; first [apply yields_proof|eauto with yields]
       |intros x [] [] (?&?&?&?&?&?); by split_and!|done]|]).
    by apply Forall_nil_2.
  - intros p q Hq. destruct (pruned p) eqn:E; [done|]. by intros [= <-].
Qed.
#[local] Hint Resolve yields_prunable : yields.

(** What was read of a ringct signature, before [check_rct]. *)
Definition rct_parts (sf : rctSig * option Z) : Prop :=
  paid_for 64 (rct_ecdhInfo sf.1) /\ paid_for 32 (rct_outPk sf.1) /\
  (forall p, rct_prunable sf.1 = Some p -> prunable_bounded p /\ pruned p = false) /\ (forall fee, sf.2 = Some fee -> fee <= u64_max).
Lemma check_rct_accepts sf s : rct_parts sf -> check_rct sf = Ok s -> rct_accepted s.
Proof.
  destruct sf as [[t e o f p] x]. unfold rct_parts, check_rct, rct_accepted. cbn. intros (He & Ho & Hpr & Hx).
  destruct (Z.eqb_spec t RCTTypeNull) as [->|Ht]; cbn [negb]; destruct x as [fee|], e, o; cbn; try done; intros [= <-]; cbn; split_and!; try done; eauto.
Qed.
Lemma nothing_paid {A} size : paid_for size ([] : list A).
Proof. unfold paid_for. cbn. lia. Qed.
Ltac rct_part :=
  intros; repeat match goal with s : rctSig * option Z |- _ => destruct s as [[] ?] end; unfold rct_parts in *; cbn in *;
  destruct_and?; split_and?; try apply nothing_paid; try done; by intros ? [= <-].
Lemma yields_rctSig : Yields read_rctSig rct_accepted.
Proof.
  eapply (yields_converted _ _ _ rct_parts); [|apply check_rct_accepts]. apply yields_slots.
  - apply Forall_cons_2; [slot_keeps; [by intros x [[] ?]|done]|].
    apply Forall_cons_2; [eapply slot_of_keeps; [apply paid, yields_ecdh|rct_part..]|].
    apply Forall_cons_2; [eapply slot_of_keeps; [apply paid, yields_key|rct_part..]|].
    apply Forall_cons_2; [eapply slot_of_keeps; [apply yields_unsigned|rct_part..]|].
    apply Forall_cons_2; [eapply slot_of_keeps; [apply yields_prunable|rct_part..]|].
    apply Forall_nil_2.
  - unfold rct_parts, paid_for. cbn. split_and!; [lia|lia|done..].
Qed.

(** *** Variants *)
Lemma yields_variant {A} (options : list (String.string * reading A)) (P : A -> Prop) :
  Forall (fun o => Yields o.2 P) options -> Yields (read_variant options) P.
Proof.
  intros Ho. eapply (yields_converted _ _ _ (fun o => forall a, o = Some a -> P a)).
  - apply yields_slots; [|done]. apply Forall_fmap. eapply Forall_impl; [exact Ho|]. intros [n R] HR. cbn in *.
    eapply option_slot_keeps; [exact HR|]. cbn. intros a s Ha _ b [= <-]. done.
  - intros [a|] b; cbn; [|done]. intros HP [= <-]. auto.
Qed.
Lemma yields_option {A B} (R : reading A) (f : A -> B) (P : A -> Prop) (Q : B -> Prop) :
  Yields R P -> (forall a, P a -> Q (f a)) -> Yields (as_option R f) Q.
Proof. intros HR Hq. eapply yields_converted; [exact HR|]. intros a b Ha [= <-]. auto. Qed.

Lemma yields_to_script : Yields read_txout_to_script (fun _ => True).
Proof. apply yields_free. slots_keep; done. Qed.
Lemma yields_tx_out : Yields read_tx_out (fun _ => True).
Proof.
  eapply yields_converted; [|done]. apply yields_free. apply Forall_cons_2; [slot_keeps; done|].
  repeat (apply Forall_cons_2; [eapply option_slot_keeps; [eapply (yields_option _ _ _ (fun _ => True)); [first [apply yields_to_script|apply yields_free; slots_keep; done]|done]|done]|]).
  apply Forall_nil_2.
Qed.
#[local] Hint Resolve yields_rctSig yields_to_script yields_tx_out : yields.

Definition ring_bounded (k : Z * list Z * key_image_t) : Prop := at_most max_ring_size k.1.2.
Lemma yields_txin_to_key : Yields read_txin_to_key ring_bounded.
Proof.
  apply yields_slots; [|done]. apply Forall_cons_2; [slot_keeps; [by intros x [[]]|done]|].
  apply Forall_cons_2; [eapply slot_of_keeps; [apply counted; [done|apply yields_unsigned]|by intros x [[]] []|by intros [[]]]|].
  apply Forall_cons_2; [slot_keeps; [by intros x [[]]|done]|apply Forall_nil_2].
Qed.
Lemma yields_txin : Yields read_txin_v input_bounded.
Proof.
  apply yields_variant. apply Forall_cons_2; [eapply yields_option; [apply yields_txin_to_key|by intros [[]]]|].
  apply Forall_cons_2; [eapply yields_option; [apply yields_free; slots_keep; done|done]|].
  apply Forall_cons_2; [eapply yields_option; [apply yields_free; slots_keep; done|by intros [[]]]|].
  apply Forall_cons_2; [eapply yields_option; [apply yields_free; slots_keep; done|by intros [[[]]]]|apply Forall_nil_2].
Qed.

(** *** Transactions, blocks and answers *)
Ltac tx_part :=
  intros; repeat match goal with s : json_transaction |- _ => destruct s end; unfold tx_bounded in *; cbn in *; destruct_and?; by split_and?.
Lemma nothing_bounded : tx_bounded no_transaction.
Proof. unfold tx_bounded, at_most, rct_accepted, no_transaction, no_rct, max_inputs_per_tx, max_outputs_per_tx. cbn. split_and!; try done; apply nothing_paid. Qed.
Lemma yields_transaction : Yields read_transaction tx_bounded.
Proof.
  apply yields_slots; [|apply nothing_bounded].
  do 2 (apply Forall_cons_2; [slot_keeps; tx_part|]).
  apply Forall_cons_2; [eapply slot_of_keeps; [apply counted; [done|apply yields_txin]|tx_part..]|].
  apply Forall_cons_2; [eapply slot_of_keeps; [apply counted; [done|apply yields_tx_out]|tx_part..]|].
  apply Forall_cons_2; [slot_keeps; tx_part|].
  apply Forall_cons_2; [eapply slot_of_keeps; [apply counted; [done|apply yields_blobs]|tx_part..]|].
  apply Forall_cons_2; [eapply slot_of_keeps; [apply yields_rctSig|tx_part..]|apply Forall_nil_2].
Qed.

Definition only_block_bounded (b : json_block) : Prop := tx_bounded (jb_miner_tx b) /\ paid_for 32 (jb_tx_hashes b).
Ltac block_part :=
  intros; repeat match goal with s : json_block |- _ => destruct s end; unfold only_block_bounded in *; cbn in *; destruct_and?; by split_and?.
Lemma yields_block : Yields read_block only_block_bounded.
Proof.
  apply yields_slots; [|split; [apply nothing_bounded|apply nothing_paid]].
  do 3 (apply Forall_cons_2; [slot_keeps; block_part|]).
  apply Forall_cons_2; [eapply slot_of_keeps; [apply yields_transaction|block_part..]|].
  apply Forall_cons_2; [eapply slot_of_keeps; [apply paid, yields_key|block_part|]|].
  { intros [] [? _]. split; [done|apply nothing_paid]. }
  do 2 (apply Forall_cons_2; [slot_keeps; block_part|]). apply Forall_nil_2.
Qed.
Lemma yields_block_with : Yields read_block_with_transactions block_bounded.
Proof.
  apply yields_slots; [|split_and!; [apply nothing_bounded|apply nothing_paid|done|done]].
  apply Forall_cons_2; [eapply slot_of_keeps; [apply yields_block| |done]|].
  { intros b [] [? ?] (_ & _ & ? & ?). by split_and!. }
  apply Forall_cons_2; [eapply slot_of_keeps; [apply counted; [done|apply yields_transaction]| |]|apply Forall_nil_2].
  - intros l [] [? ?] (? & ? & _ & _). by split_and!.
  - intros [] (? & ? & _ & _). by split_and!.
Qed.
Lemma yields_indices : Yields read_output_indices
  (fun l => at_most max_blocks_per_fetch l /\ Forall (fun b => at_most max_txes_per_block b /\ Forall (at_most max_outputs_per_tx) b) l).
Proof.
  apply counted; [done|]. apply counted; [done|]. eapply yields_weaken; [apply counted; [done|apply yields_unsigned]|]. by intros l [].
Qed.
Lemma yields_answer : Yields read_get_blocks_fast answer_bounded.
Proof.
  apply yields_slots; [|unfold answer_bounded, at_most; cbn; split_and!; [lia|done|lia|done]].
  apply Forall_cons_2; [eapply slot_of_keeps; [apply counted; [done|apply yields_block_with]| |]|].
  { intros l [] [? ?] (_ & _ & ? & ?). by split_and!. }
  { intros [] (_ & _ & ?). split; [|by split]. unfold at_most. cbn. lia. }
  apply Forall_cons_2; [eapply slot_of_keeps; [apply yields_indices| |done]|].
  { intros l [] [? ?] (? & ? & _). by split_and!. }
  do 2 (apply Forall_cons_2; [slot_keeps; [by intros x []|done]|]). apply Forall_nil_2.
Qed.
Lemma yields_response {A} (R : reading A) (P : A -> Prop) : Yields R P ->
  Yields (read_json_response R) (fun r => match r with inr a => P a | inl _ => True end).
Proof.
  intros HR. eapply (yields_converted _ _ _ (fun s => match s.2 with Some (inr a) => P a | _ => True end)).
  - apply yields_slots; [|done]. apply Forall_cons_2; [slot_keeps; done|].
    apply Forall_cons_2; [eapply option_slot_keeps; [exact HR|done]|].
    apply Forall_cons_2; [|apply Forall_nil_2]. eapply option_slot_keeps; [apply yields_free; slots_keep; done|done].
  - intros [i [r|]] b; cbn; [|done]. by intros ? [= <-].
Qed.
Lemma yields_pool : Yields read_full_txpool_pub (fun l => at_most max_txes_pub l /\ Forall tx_bounded l).
Proof. apply counted; [done|apply yields_transaction]. Qed.
End bounds.

Lemma from_bytes_yields `{RJ : RapidJson} {A} (R : reading A) (P : A -> Prop) source a :
  Yields (Z.of_nat (length source)) R P -> from_bytes (read_bytes R) source = Ok a -> P a.
Proof.
  intros HR Ha. unfold from_bytes in Ha. inv_ok Ha. destruct r as [b r]. inv_ok Ha. injection Ha as <-.
  apply HR in Hr; [by destruct Hr|]. unfold left. cbn. lia.
Qed.

(** C4: Whatever bytes the daemon sends, an answer of blocks that is accepted is
    bounded, and so is a publication of the pool: no more blocks, transactions,
    inputs, outputs, ring members, signatures and proofs than the limits of
    daemon_zmq.cpp and daemon_pub.cpp, no more hashes, keys and amounts than the
    message has bytes for, and ringct signatures that are either of type null and
    empty, or have keys, amounts and a fee of 64 bits. *)
Theorem hostile_answer_bounded `{RJ : RapidJson} {LI : Limits} source :
  0 <= max_blocks_per_fetch -> 0 <= bf_max -> 0 <= bf_plus_max ->
  let N := Z.of_nat (length source) in
  (forall r, parse_json_response read_get_blocks_fast source = Ok r -> answer_bounded N r) /\
  (forall l, full_txpool_from_json source = Ok l -> at_most max_txes_pub l /\ Forall (tx_bounded N) l).
Proof.
  intros Hb Hf Hp N. assert (0 <= N) by lia. split.
  - intros r Hr. unfold parse_json_response in Hr. inv_ok Hr. destruct r0 as [e|a]; [done|]. injection Hr as ->.
    by apply (from_bytes_yields _ _ _ _ (yields_response N _ _ (yields_answer N ltac:(done) Hb Hf Hp)) Hr0).
  - intros l Hl. by apply (from_bytes_yields _ _ _ _ (yields_pool N ltac:(done) Hf Hp) Hl).
Qed.
End Accepted.

(** ** Samples *)
Module DaemonSample.
Import Variants Answers Publications VariantFacts Accepted JsonObject.
#[local] Existing Instances Sample.library Sample.laws.
#[local] Instance limits : Limits := {| max_blocks_per_fetch := 1000; bf_max := 16; bf_plus_max := 16; RCTTypeNull := 0 |}.

Definition key_of (n : Z) : wvalue := WBin (repeat 0 31 ++ [n]).
Definition field (name : String.string) (v : wvalue) : Z * String.string * wvalue := (0, name, v).
Definition hashes : wvalue :=
  WObj [field "hashes" (WArr [key_of 3; key_of 4]); field "start_height" (WUint 5); field "current_height" (WUint 6); field "status" (WStr [])].
Definition answer (members : list (Z * String.string * wvalue)) : list (Z * String.string * wvalue) :=
  field "jsonrpc" (WStr (bytes_of_string "2.0")) :: field "id" (WUint 0) :: members.
Definition refused : wvalue := WObj [field "code" (WInt (-1)); field "message" (WStr (bytes_of_string "busy"))].

Lemma hashes_read : parse_json_response read_get_hashes_fast (compact (WObj (answer [field "result" hashes]))) =
  Ok (GetHashesFastResponse [3; 4] 5 6).
Proof. vm_compute. reflexivity. Qed.

Lemma response_outcome_witness :
  parse_json_response read_get_hashes_fast (compact (WObj (answer [field "result" hashes; field "error" refused]))) =
  Err (schema_err schema_invalid_key).
Proof.
  eapply (response_outcome read_get_hashes_fast 0 (answer [field "result" hashes; field "error" refused]) [field "result" hashes; field "error" refused]).
  - apply Faithfulness.hashes_faithful; vm_compute; congruence.
  - vm_compute. reflexivity.
  - split; [done|]. intros kv i sl Hkv. repeat (apply elem_of_cons in Hkv as [->|Hkv];
      [intros Hi Hsl; vm_compute in Hi; try done; injection Hi as <-; injection Hsl as <-; cbn; try done|]); [..|by apply elem_of_nil in Hkv].
    + split; [done|]. intros kv i sl Hkv. repeat (apply elem_of_cons in Hkv as [->|Hkv];
        [intros Hi Hsl; vm_compute in Hi; try done; injection Hi as <-; injection Hsl as <-; cbn; try done|]); [..|by apply elem_of_nil in Hkv].
      split_and!; [vm_compute; congruence|repeat constructor; vm_compute; congruence|repeat constructor].
    + split; [done|]. intros kv i sl Hkv. repeat (apply elem_of_cons in Hkv as [->|Hkv];
        [intros Hi Hsl; vm_compute in Hi; try done; injection Hi as <-; injection Hsl as <-; cbn; try done|]); by apply elem_of_nil in Hkv.
  - vm_compute. split; congruence.
  - vm_compute. reflexivity.
  - by left.
  - vm_compute. reflexivity.
  - vm_compute. reflexivity.
Defined.

(** An answer with one block. *)
Definition output : wvalue :=
  WObj [field "amount" (WUint 0); field "to_tagged_key" (WObj [field "key" (key_of 9); field "view_tag" (WBin [7])])].
Definition no_ringct : wvalue := WObj [field "type" (WUint 0)].
Definition with_ringct : wvalue :=
  WObj [field "type" (WUint 6); field "encrypted" (WArr [WObj [field "mask" (key_of 0); field "amount" (key_of 1)]]);
        field "commitments" (WArr [key_of 2]); field "fee" (WUint 30)].
Definition tx (input ringct : wvalue) : wvalue :=
  WObj [field "version" (WUint 2); field "unlock_time" (WUint 0); field "inputs" (WArr [input]); field "outputs" (WArr [output]);
        field "extra" (WBin [1; 2]); field "signatures" (WArr []); field "ringct" ringct].
Definition gen : wvalue := WObj [field "gen" (WObj [field "height" (WUint 5)])].
Definition spend (ring : list wvalue) : wvalue :=
  WObj [field "to_key" (WObj [field "amount" (WUint 0); field "key_offsets" (WArr ring); field "key_image" (key_of 8)])].
Definition blocks (txes : list wvalue) : wvalue :=
  WObj [field "blocks" (WArr [WObj [
          field "block" (WObj [field "major_version" (WUint 16); field "minor_version" (WUint 16); field "timestamp" (WUint 1600000000);
            field "miner_tx" (tx gen no_ringct); field "tx_hashes" (WArr [key_of 11]); field "prev_id" (key_of 10); field "nonce" (WUint 1)]);
          field "transactions" (WArr txes)]]);
        field "output_indices" (WArr [WArr [WArr [WUint 1]; WArr [WUint 2]]]); field "start_height" (WUint 5); field "current_height" (WUint 6)].
Definition blocks_text (txes : list wvalue) : list Z := compact (WObj (answer [field "result" (blocks txes)])).
Definition fetched_blocks : expect get_blocks_fast_response :=
  parse_json_response read_get_blocks_fast (blocks_text [tx (spend [WUint 100; WUint 3]) with_ringct]).

Lemma hostile_answer_bounded_witness :
  match fetched_blocks with
  | Ok r => answer_bounded (Z.of_nat (length (blocks_text [tx (spend [WUint 100; WUint 3]) with_ringct]))) r
  | Err _ => False
  end.
Proof.
  unfold fetched_blocks. set (text := blocks_text [tx (spend [WUint 100; WUint 3]) with_ringct]).
  destruct (hostile_answer_bounded text) as [H _]; [vm_compute; congruence..|]. cbv zeta in H.
  destruct (parse_json_response read_get_blocks_fast text) as [r|e] eqn:E; [exact (H r eq_refl)|vm_compute in E; congruence].
Defined.

(** The block as the scanner sees it; a spend without a fee is refused. *)
Example block_fetched :
  (let* r := fetched_blocks in Ok (as_fetched (fun t => match t with txout_to_tagged_key k _ => k | _ => 0 end) r)) =
  Ok (Fetched 5 [FetchedBlock
        (Block 16 1600000000 10 (Transaction 2 0 [txin_gen] [TxOut 0 9] [1; 2] 0 [] []) [11])
        [Transaction 2 0 [txin_to_key 0 [100; 3] 8] [TxOut 0 9] [1; 2] 6 [2] [EcdhTuple 0 1]]] [[[1]; [2]]]).
Proof. vm_compute. reflexivity. Qed.
Example spend_without_fee :
  parse_json_response read_get_blocks_fast (blocks_text [tx (spend []) (WObj [field "type" (WUint 6); field "commitments" (WArr [key_of 2])])]) =
  Err (schema_err schema_missing_key).
Proof. vm_compute. reflexivity. Qed.
Example chain_published :
  minimal_chain_from_json (compact (WObj [field "first_height" (WUint 5); field "ids" (WArr [key_of 3; key_of 4])])) = Ok (MinimalChainPub 6 4) /\
  minimal_chain_from_json (compact (WObj [field "first_height" (WUint 5); field "ids" (WArr [])])) = Err (schema_err schema_binary).
Proof. split; vm_compute; reflexivity. Qed.
End DaemonSample.
