(* ===== verification/PackRead.v ===== *)
(** [wire_read::object] and [wire_read::array_unchecked] (src/wire/read.h) over
    the tokens of [msgpack_reader], and with them the [read_bytes] functions of
    the accounts that scanner processes send each other (src/db/account.cpp,
    data.cpp, src/wire/adapted/pair.h). What they make of the bytes is what the
    readers of Data.v and DataWire.v make of the tree ([Agrees]). The count of
    required fields and the reset of the omitted ones are those of Json.v. *)

From S2P Require Import Prelude Wire Msgpack Data DataWire Account Json.

(** ** Objects and arrays *)
Module PackObject.
Import Reader.

Section object.
Context {S : Type}.
(** The fields of the object; [unpack i] is [unpack_field] of field [i] with the
    destinations [S], [reset i] its [reset_field]. *)
Context (fields : list field) (unpack : nat -> S -> reader -> expect (S * reader)) (reset : nat -> S -> S).

Definition try_read (index : nat) (seen : list nat) (s : S) (r : reader) : expect (S * reader) :=
  if bool_decide (index ∈ seen) then Err (schema_err schema_invalid_key) else unpack index s r.

(** The loop; [key] counts [state] down, so that many rounds and the last are
    enough. *)
Fixpoint read_fields (fuel : nat) (state : nat) (required : Z) (seen : list nat) (s : S) (r : reader)
  : expect (Z * list nat * S * reader) :=
  match fuel with
  | O => Err logic_error
  | Datatypes.S fuel =>
    let* k := key fields state r in
    match k with
    | (None, _, r) => Ok (required, seen, s, r)
    | (Some next, state, r) =>
      let* sr := try_read next seen s r in
      read_fields fuel state (if JsonObject.is_required fields next then required - 1 else required) (next :: seen) sr.1 sr.2
    end
  end.

Definition object (s : S) (r : reader) : expect (S * reader) :=
  let* sr := start_object r in
  let '(state, r) := sr in
  let* st := read_fields (Datatypes.S (Z.to_nat state)) (Z.to_nat state) (JsonObject.required_fields fields) [] s r in
  let '(required, seen, s, r) := st in
  if negb (required =? 0) then Err (schema_err schema_missing_key)
  else
    let s := JsonObject.reset_omitted fields reset seen s in
    let* r := decrement_depth r in Ok (s, r).
End object.

Section array.
Context {A : Type} (read : reader -> expect (A * reader)) (min_element_size max_element_count : Z).
Definition left (r : reader) : Z := Z.of_nat (length (remaining r)).

(** Arrays of MessagePack are not delimited: their size was checked before. *)
Fixpoint array_loop (fuel : nat) (start_bytes : Z) (more : bool) (count : Z) (dest : list A) (r : reader)
  : expect (list A * reader) :=
  match fuel with
  | O => Err logic_error
  | Datatypes.S fuel =>
    let* er := if more then Ok (false, r) else is_array_end count r in
    let '(fin, r) := er in
    if fin then Ok (dest, r)
    else
      let* ar := read r in
      let '(x, r) := ar in
      let dest := dest ++ [x] in
      let count := u64 (count - 1) in
      let more := more && negb (count =? 0) in
      if (start_bytes - left r) / Z.of_nat (length dest) <? min_element_size
      then Err (schema_err schema_array_min_size)
      else array_loop fuel start_bytes more count dest r
  end.

Definition array_unchecked (r : reader) : expect (list A * reader) :=
  let* cr := start_array min_element_size r in
  let '(count, r) := cr in
  if max_element_count <? count then Err (schema_err schema_array_max_element)
  else if left r / Z.max min_element_size 1 <? count then Err (schema_err schema_array_min_size)
  else
    let* dr := array_loop (Datatypes.S (Z.to_nat count)) (left r) (negb (count =? 0)) count [] r in
    let* r := decrement_depth dr.2 in Ok (dr.1, r).
End array.
End PackObject.

(** ** The bytes of a tree are read as the tree *)
Module PackFacts.
Import Reader Encoding RoundTrip Skipping PackObject.

(** The deepest nesting of containers. *)
Fixpoint height (v : wvalue) : nat :=
  match v with
  | WArr l => S (list_max (map height l))
  | WObj l => S (list_max (map (fun kv : Z * String.string * wvalue => height kv.2) l))
  | _ => 0
  end.

(** There is a tag for the value, and neither the tags nor the depth run out. *)
Record room (v : wvalue) (tg d : Z) : Prop := Room {
  room_tag : 0 < tg;
  room_nodes : tg + Z.of_nat (nodes v) <= u64_max;
  room_depth : 0 <= d;
  room_height : d + Z.of_nat (height v) < max_read_depth
}.

Section ik.
Context (ik : bool).

(** From the encoding of [v] the reader takes [a], and exactly that encoding. *)
Definition reads {A} (f : reader -> expect (A * reader)) (v : wvalue) (a : A) : Prop :=
  forall rest tg d, room v tg d -> f (MkReader (enc ik v ++ rest) tg d) = Ok (a, MkReader rest (tg - 1) d).

Lemma reads_bind {A B} (f : reader -> expect (A * reader)) (g : A -> expect B) v a b :
  reads f v a -> g a = Ok b -> reads (fun r => let* ar := f r in let* b := g ar.1 in Ok (b, ar.2)) v b.
Proof. intros Hf Hg rest tg d Hr. rewrite Hf by done. cbn [ebind fst snd]. by rewrite Hg. Qed.

(** *** Objects *)
Section object.
Context {S : Type} (fields : list field) (unpack : nat -> S -> reader -> expect (S * reader)) (reset : nat -> S -> S).
Context (read : nat -> wvalue -> S -> expect S).

Definition member_bytes (kv : Z * String.string * wvalue) : list Z := enc_key ik kv.1.1 kv.1.2 ++ enc ik kv.2.
(** Every member is a field of its own, and its reader agrees on its value. *)
Definition member_reads (kv : Z * String.string * wvalue) : Prop :=
  key_ok ik kv.1.1 kv.1.2 /\ exists i, find_key (member_key ik kv.1.1 kv.1.2) fields = Some i /\
    forall s s', read i kv.2 s = Ok s' -> reads (unpack i s) kv.2 s'.

Lemma nodes_members l : nodes (WObj l) = Datatypes.S (length l + nat_sum (map (fun kv => nodes kv.2) l)).
Proof. cbn [nodes]. f_equal. induction l as [|kv l IH]; [done|]. cbn [map nat_sum length]. rewrite IH. lia. Qed.
Lemma members_nodes (l : list (Z * String.string * wvalue)) : (length l <= nat_sum (map (fun kv => nodes kv.2) l))%nat.
Proof. induction l as [|[[id name] v] l IH]; cbn [length map nat_sum]; [lia|]. pose proof (nodes_children true v). cbn [snd]. lia. Qed.

Lemma read_fields_members l : Forall member_reads l -> forall fuel seen s st req rest tg d, (length l < fuel)%nat ->
  efold (read_member fields read) (seen, s) (members ik l) = Ok st ->
  0 < tg -> tg + Z.of_nat (length l) + Z.of_nat (nat_sum (map (fun kv => nodes kv.2) l)) <= u64_max -> 0 <= d ->
  (forall kv, kv ∈ l -> d + Z.of_nat (height kv.2) < max_read_depth) ->
  read_fields fields unpack fuel (length l) req seen s
    (MkReader (concat (member_bytes <$> l) ++ rest) (tg + 2 * Z.of_nat (length l)) d) =
  Ok (req - (ObjectFacts.required_seen fields st.1 - ObjectFacts.required_seen fields seen), st.1, st.2, MkReader rest (tg - 1) d).
Proof.
  induction 1 as [|kv l (Hk & i & Hi & Hread) Hl IH]; intros [|fuel] seen s st req rest tg d Hfuel Hst Htg Hmax Hd Hh; cbn [length] in Hfuel; try lia.
  { cbn in Hst. injection Hst as <-. cbn [length fmap list_fmap concat app read_fields key]. rewrite Z.add_0_r, update_tags_pos by done.
    cbn [ebind fst snd]. f_equal. f_equal. f_equal. f_equal. lia. }
  cbn [length]. cbn [read_fields key]. cbn [fmap list_fmap concat]. unfold member_bytes at 1. rewrite <- !app_assoc.
  rewrite read_key_enc by (done || lia). cbn [ebind fst snd]. rewrite Hi. cbn [ebind]. cbn in Hst. unfold read_member at 1 in Hst. cbn [fst snd] in Hst.
  rewrite Hi in Hst. unfold try_read. case_bool_decide as Hseen; [done|]. destruct (read i kv.2 s) as [s1|] eqn:Er; [|done]. cbn [ebind] in Hst.
  cbn [map nat_sum length] in Hmax. pose proof (members_nodes l) as Hnodes.
  rewrite (Hread _ _ Er) by (split; [lia|lia|done|apply Hh; by left]). cbn [ebind fst snd].
  change (concat (list_fmap _ _ member_bytes l)) with (concat (member_bytes <$> l)).
  replace (tg + 2 * Z.of_nat (Datatypes.S (length l)) - 1 - 1) with (tg + 2 * Z.of_nat (length l)) by lia.
  rewrite (IH fuel (i :: seen) s1 st) by (done || lia || (intros; apply Hh; by right)). f_equal. f_equal. f_equal. f_equal.
  unfold ObjectFacts.required_seen. cbn [List.filter]. destruct (JsonObject.is_required fields i); cbn [length]; lia.
Qed.

Lemma height_member l kv : kv ∈ l -> (height kv.2 < height (WObj l))%nat.
Proof.
  intros Hkv. cbn [height]. assert (height kv.2 <= list_max (map (fun kv => height kv.2) l))%nat; [|lia].
  pose proof (proj1 (list_max_le (map (fun kv : Z * String.string * wvalue => height kv.2) l) _) (Nat.le_refl _)) as Hf.
  rewrite List.Forall_forall in Hf. apply Hf, in_map_iff. exists kv. split; [done|]. by apply list_elem_of_In.
Qed.

Lemma pack_object_reads l s st : len_ok l -> Forall member_reads l ->
  Wire.read_object fields read (members ik l) s = Ok st ->
  reads (object fields unpack reset s) (WObj l) (JsonObject.reset_omitted fields reset st.1 st.2).
Proof.
  intros Hn Hl Hst rest tg d [Htg Hmax Hd Hh]. unfold Wire.read_object in Hst. destruct (efold _ _ _) as [st1|] eqn:Ef; [|done].
  cbn [ebind] in Hst. destruct (missing fields st1.1) eqn:Hm; [done|]. injection Hst as ->.
  rewrite nodes_members in Hmax. unfold len_ok in Hn. pose proof (members_nodes l) as Hnodes.
  cbn [enc]. unfold object, start_object.
  destruct (read_count_enc ftag_object object_types schema_object (Z.of_nat (length l)) ltac:(tauto) ltac:(lia)) as (tag & body & -> & _ & _ & Hc).
  cbn [app]. rewrite <- app_assoc, Hc. cbn [ebind]. unfold u32_max in Hn.
  assert (u64_max / 2 = 9223372036854775807) as Ehalf by reflexivity. rewrite Ehalf, (proj2 (Z.ltb_ge 9223372036854775807 _)) by lia.
  cbn [tags_remaining]. rewrite (proj2 (Z.ltb_ge (u64_max - tg) _)) by lia.
  unfold add_tags, increment_depth. cbn [depth remaining tags_remaining]. assert (0 < Z.of_nat (height (WObj l))) as H0 by (cbn [height]; lia).
  rewrite (proj2 (Z.eqb_neq (d + 1) max_read_depth)) by lia. cbn [ebind]. rewrite Nat2Z.id.
  replace (Z.of_nat (length l) * 2) with (2 * Z.of_nat (length l)) by lia.
  rewrite (read_fields_members l Hl (Datatypes.S (length l)) [] s st _ rest tg (d + 1) ltac:(lia) Ef) by
    (try done; try lia; intros kv Hkv; apply height_member in Hkv; lia).
  cbn [ebind]. unfold ObjectFacts.required_seen at 2. cbn [List.filter length].
  apply ObjectFacts.read_members_seen in Ef as [Hnd Hlt]; [|split; constructor].
  rewrite Z.sub_0_r, ObjectFacts.required_missing, Hm by done. unfold decrement_depth. cbn [depth remaining tags_remaining].
  rewrite (proj2 (Z.eqb_neq (d + 1) 0)) by lia. cbn [ebind]. by replace (d + 1 - 1) with d by lia.
Qed.
End object.

(** *** Arrays *)
Section array.
Context {A : Type} (read : reader -> expect (A * reader)) (t_read : wvalue -> expect A).
Context (min_element_size max_element_count : Z).

Lemma array_members l : Forall (fun v => (forall a, t_read v = Ok a -> reads read v a) /\ min_element_size <= Z.of_nat (length (enc ik v))) l ->
  forall fuel dest as_ start rest tg d, (length l < fuel)%nat ->
  efold (fun dest v => let* a := t_read v in Ok (dest ++ [a])) dest l = Ok as_ ->
  0 < tg -> tg + Z.of_nat (S (nat_sum (map nodes l))) <= u64_max -> 0 <= d ->
  (forall v, v ∈ l -> d + Z.of_nat (height v) < max_read_depth) ->
  Z.of_nat (length dest) * min_element_size + Z.of_nat (length (concat (enc ik <$> l) ++ rest)) <= start -> Z.of_nat (length l) <= u64_max ->
  array_loop read min_element_size fuel start (negb (Z.of_nat (length l) =? 0)) (Z.of_nat (length l)) dest
    (MkReader (concat (enc ik <$> l) ++ rest) (tg + Z.of_nat (length l)) d) = Ok (as_, MkReader rest (tg - 1) d).
Proof.
  induction 1 as [|v l [Hread Hmin] Hl IH]; intros [|fuel] dest as_ start rest tg d Hfuel Hst Htg Hmax Hd Hh Hstart Hlen;
    cbn [length] in Hfuel; try lia.
  { cbn in Hst. injection Hst as <-. cbn [length array_loop Z.of_nat Z.eqb negb]. unfold is_array_end. cbn [Z.eqb negb].
    cbn [fmap list_fmap concat app]. rewrite Z.add_0_r, update_tags_pos by done. done. }
  cbn [array_loop]. rewrite (proj2 (Z.eqb_neq (Z.of_nat (length (v :: l))) 0)) by (cbn [length]; lia). cbn [negb ebind].
  cbn [fmap list_fmap concat] in *. rewrite <- app_assoc in *. cbn [efold] in Hst. destruct (t_read v) as [a|] eqn:Ea; [|done]. cbn [ebind] in Hst.
  cbn [map nat_sum length] in *. assert (length l <= nat_sum (map nodes l))%nat as Hnodes.
  { clear. induction l as [|x l IH]; cbn [length map nat_sum]; [lia|]. pose proof (nodes_children true x). lia. }
  rewrite (Hread a eq_refl) by (split; [lia|lia|done|apply Hh; by left]). cbn [ebind andb].
  change (list_fmap _ _ (enc ik) l) with (enc ik <$> l) in *. rewrite length_app in Hstart.
  rewrite u64_small by (unfold in_u64; lia).
  assert (((start - left (MkReader (concat (enc ik <$> l) ++ rest) (tg + Z.of_nat (S (length l)) - 1) d)) / Z.of_nat (length (dest ++ [a]))
    <? min_element_size) = false) as ->.
  { apply Z.ltb_ge. unfold left. cbn [remaining]. apply Z.div_le_lower_bound; [rewrite length_app; cbn; lia|].
    rewrite (length_app dest). cbn [length]. nia. }
  replace (tg + Z.of_nat (S (length l)) - 1) with (tg + Z.of_nat (length l)) by lia.
  replace (Z.of_nat (S (length l)) - 1) with (Z.of_nat (length l)) by lia.
  apply IH; try done; try lia; [intros x Hx; apply Hh; by right|]. rewrite (length_app dest). cbn [length]. nia.
Qed.

Lemma height_element l v : v ∈ l -> (height v < height (WArr l))%nat.
Proof.
  intros Hv. cbn [height]. assert (height v <= list_max (map height l))%nat; [|lia].
  pose proof (proj1 (list_max_le (map height l) _) (Nat.le_refl _)) as Hf.
  rewrite List.Forall_forall in Hf. apply Hf, in_map_iff. exists v. split; [done|]. by apply list_elem_of_In.
Qed.

Lemma pack_array_reads l as_ : 0 <= min_element_size -> len_ok l -> Z.of_nat (length l) <= max_element_count ->
  Forall (fun v => (forall a, t_read v = Ok a -> reads read v a) /\ Z.max min_element_size 1 <= Z.of_nat (length (enc ik v))) l ->
  efold (fun dest v => let* a := t_read v in Ok (dest ++ [a])) [] l = Ok as_ ->
  reads (array_unchecked read min_element_size max_element_count) (WArr l) as_.
Proof.
  intros Hmin Hn Hc Hl Hst rest tg d [Htg Hmax Hd Hh]. cbn [nodes] in Hmax. unfold len_ok in Hn.
  cbn [enc]. unfold array_unchecked, start_array.
  destruct (read_count_enc ftag_array array_types schema_array (Z.of_nat (length l)) ltac:(tauto) ltac:(lia)) as (tag & body & -> & _ & _ & Hcnt).
  assert (length l <= nat_sum (map nodes l))%nat as Hnodes.
  { clear. induction l as [|x l IH]; cbn [length map nat_sum]; [lia|]. pose proof (nodes_children true x). lia. }
  assert (Z.of_nat (length l) * Z.max min_element_size 1 <= Z.of_nat (length (concat (enc ik <$> l)))) as Hbytes.
  { clear -Hl. induction Hl as [|v l [_ Hv] Hl IH]; [done|]. cbn [fmap list_fmap concat length]. rewrite length_app.
    change (list_fmap _ _ (enc ik) l) with (enc ik <$> l). nia. }
  set (body_ := concat (enc ik <$> l) ++ rest). assert (Z.of_nat (length l) <= Z.of_nat (length body_) / Z.max min_element_size 1) as Hdiv.
  { apply Z.div_le_lower_bound; [lia|]. unfold body_. rewrite length_app. lia. }
  cbn [app]. rewrite <- app_assoc, Hcnt. cbn [ebind tags_remaining remaining].
  change (concat (enc ik <$> l) ++ rest) with body_.
  rewrite (proj2 (Z.ltb_ge (u64_max - tg) _)), (proj2 (Z.ltb_ge (Z.of_nat (length body_) / _) _)) by lia.
  unfold add_tags, increment_depth. cbn [depth remaining tags_remaining]. assert (0 < Z.of_nat (height (WArr l))) as H0 by (cbn [height]; lia).
  rewrite (proj2 (Z.eqb_neq (d + 1) max_read_depth)) by lia. cbn [ebind]. rewrite Nat2Z.id. unfold left at 1. cbn [remaining].
  rewrite (proj2 (Z.ltb_ge max_element_count _)), (proj2 (Z.ltb_ge (Z.of_nat (length body_) / _) _)) by lia.
  unfold left, body_. cbn [remaining]. rewrite (array_members l) with (as_ := as_) (tg := tg) (d := d + 1); try done; try lia.
  - cbn [ebind fst snd]. unfold decrement_depth. cbn [depth remaining tags_remaining].
    rewrite (proj2 (Z.eqb_neq (d + 1) 0)) by lia. cbn [ebind]. by replace (d + 1 - 1) with d by lia.
  - eapply Forall_impl; [exact Hl|]. intros v [? ?]. split; [done|lia].
  - intros v Hv. apply height_element in Hv. lia.
Qed.
End array.
End ik.
End PackFacts.

(** ** Readers *)
Module PackReadings.
Import Reader Encoding RoundTrip Skipping PackObject PackFacts.

(** A [read_bytes] function: on the bytes; on the tree, with integer or string
    keys; and the trees on which the second stands for the first. *)
Record reading (A : Type) := Reading {
  r_bytes : reader -> expect (A * reader);
  r_tree : bool -> wvalue -> expect A;
  r_fits : bool -> wvalue -> Prop
}.
Arguments Reading {A} _ _ _.
Arguments r_bytes {A} _ _.
Arguments r_tree {A} _ _ _.
Arguments r_fits {A} _ _ _.

Definition Agrees {A} (R : reading A) : Prop :=
  forall ik v a, wf v -> r_fits R ik v -> r_tree R ik v = Ok a -> reads ik (r_bytes R) v a.

Definition converted {A B} (R : reading A) (f : A -> expect B) : reading B :=
  Reading (fun r => let* ar := r_bytes R r in let* b := f ar.1 in Ok (b, ar.2))
    (fun ik v => let* a := r_tree R ik v in f a) (r_fits R).
Definition anything (ik : bool) (v : wvalue) : Prop := True.

(** Integers with their casts, blobs and strings. *)
Definition uint (max : Z) : reading Z :=
  Reading (fun r => let* zr := unsigned_integer r in let* z := Readings.cast_unsigned max zr.1 in Ok (z, zr.2)) (fun _ => read_uint max) anything.
Definition blob (n : nat) : reading Z :=
  Reading (fun r => let* br := binary_fixed n r in Ok (be_decode br.1, br.2)) (fun _ => read_blob n) anything.
Definition binary_ : reading (list Z) := Reading binary (fun _ => Data.read_binary) anything.
Definition bool_ : reading bool := Reading boolean (fun _ => read_boolean) anything.
Definition string_ : reading (list Z) := Reading string (fun _ => DataWire.read_string) anything.

(** [trusted_array]: no bound on the elements. *)
Definition trusted_array {A} (R : reading A) : reading (list A) :=
  Reading (array_unchecked (r_bytes R) 0 u64_max)
    (fun ik v => match v with
                 | WArr l => efold (fun dest v => let* a := r_tree R ik v in Ok (dest ++ [a])) [] l
                 | _ => Err (schema_err schema_array)
                 end)
    (fun ik v => match v with WArr l => Forall (r_fits R ik) l | _ => True end).

(** A field with its reader, which may depend on what was read before, and its
    place in the destination. *)
Record slot (S : Type) := Slot {
  s_field : field;
  s_unpack : S -> reader -> expect (S * reader);
  s_tree : bool -> wvalue -> S -> expect S;
  s_fits : bool -> wvalue -> Prop;
  s_reset : S -> S
}.
Arguments Slot {S} _ _ _ _ _.
Arguments s_field {S} _.
Arguments s_unpack {S} _ _ _.
Arguments s_tree {S} _ _ _ _.
Arguments s_fits {S} _ _ _.
Arguments s_reset {S} _ _.
Definition slot_of {A S} (f : field) (R : reading A) (set : A -> S -> S) (reset : S -> S) : slot S :=
  Slot f (fun s r => let* ar := r_bytes R r in Ok (set ar.1 s, ar.2)) (fun ik v s => let* a := r_tree R ik v in Ok (set a s)) (r_fits R) reset.
Definition required {A S} (id : Z) (name : String.string) (R : reading A) (set : A -> S -> S) : slot S :=
  slot_of (Field id name true) R set (fun s => s).
Definition optional {A S} (id : Z) (name : String.string) (R : reading A) (set : A -> S -> S) (reset : S -> S) : slot S :=
  slot_of (Field id name false) R set reset.

Section slots.
Context {S : Type} (slots : list (slot S)).
Definition fields_of : list field := map s_field slots.
Definition unpack_of (i : nat) (s : S) (r : reader) : expect (S * reader) :=
  match slots !! i with Some sl => s_unpack sl s r | None => Err (schema_err schema_invalid_key) end.
Definition reset_of (i : nat) (s : S) : S := match slots !! i with Some sl => s_reset sl s | None => s end.
Definition tree_of (ik : bool) (i : nat) (v : wvalue) (s : S) : expect S :=
  match slots !! i with Some sl => s_tree sl ik v s | None => Err (schema_err schema_invalid_key) end.
Definition member_fits (ik : bool) (kv : Z * String.string * wvalue) : Prop :=
  key_ok ik kv.1.1 kv.1.2 /\ exists i sl, find_key (member_key ik kv.1.1 kv.1.2) fields_of = Some i /\ slots !! i = Some sl /\ s_fits sl ik kv.2.
Definition read_slots (s : S) : reading S :=
  Reading (object fields_of unpack_of reset_of s)
    (fun ik v => match v with
                 | WObj l => let* st := Wire.read_object fields_of (tree_of ik) (members ik l) s in
                     Ok (JsonObject.reset_omitted fields_of reset_of st.1 st.2)
                 | _ => Err (schema_err schema_object)
                 end)
    (fun ik v => match v with WObj l => Forall (member_fits ik) l | _ => True end).
End slots.

(** *** They agree *)
Lemma converted_agrees {A B} (R : reading A) (f : A -> expect B) : Agrees R -> Agrees (converted R f).
Proof.
  intros HR ik v b Hv Hf Hb. cbn in Hb. destruct (r_tree R ik v) as [a|] eqn:E; [|done]. cbn in Hb. eapply reads_bind; [by eapply HR|done].
Qed.
Lemma uint_agrees max : Agrees (uint max).
Proof.
  intros ik v a Hv _ Ha. cbn in Ha. unfold read_uint in Ha. intros rest tg d [Htg _ _ _]. cbn [r_bytes uint].
  assert (exists z, in_u64 z /\ enc ik v = enc_uint z /\ (max <? z) = false /\ a = z) as (z & Hz & -> & Hm & ->).
  { destruct v as [| z | z | | | | | ]; try done.
    - case_if Ha; [done|]. case_if Ha; [done|]. case_if Ha; [done|]. injection Ha as ->. exists a. apply Z.ltb_ge in Hc0. cbn in Hv.
      unfold int64_max in Hv. split; [unfold in_u64, u64_max; lia|]. split; [|done]. cbn [enc]. unfold enc_int. by rewrite (proj2 (Z.leb_le 0 a)).
    - case_if Ha; [done|]. injection Ha as ->. by exists a. }
  rewrite unsigned_integer_ok by done. cbn [ebind fst snd]. unfold Readings.cast_unsigned. by rewrite Hm.
Qed.
Lemma blob_agrees n : Agrees (blob n).
Proof.
  intros ik v a Hv _ Ha rest tg d [Htg _ _ _]. cbn in Ha. unfold Data.read_blob, Data.read_binary in Ha. destruct v; try done. cbn [ebind] in Ha.
  case_bool_decide as Hn; [|done]. injection Ha as <-. cbn [r_bytes blob enc]. unfold binary_fixed. rewrite binary_ok by done. cbn [ebind fst snd].
  by rewrite bool_decide_true.
Qed.
Lemma binary_agrees : Agrees binary_.
Proof. intros ik v a Hv _ Ha rest tg d [Htg _ _ _]. destruct v; try done. injection Ha as <-. by apply binary_ok. Qed.
Lemma string_agrees : Agrees string_.
Proof. intros ik v a Hv _ Ha rest tg d [Htg _ _ _]. destruct v; try done. injection Ha as <-. by apply string_ok. Qed.
Lemma bool_agrees : Agrees bool_.
Proof.
  intros ik v a Hv _ Ha rest tg d [Htg _ _ _]. destruct v as [b| | | | | | |]; try done. injection Ha as <-. cbn [r_bytes bool_]. unfold boolean.
  rewrite update_tags_pos by done. by destruct b.
Qed.
Lemma array_agrees {A} (R : reading A) : Agrees R -> Agrees (trusted_array R).
Proof.
  intros HR ik v a Hv Hf Ha. destruct v as [| | | | | |l|]; try done. apply wf_arr in Hv as [Hn Hl]. cbn [r_bytes trusted_array].
  apply (pack_array_reads ik (r_bytes R) (r_tree R ik)); [done|done|unfold len_ok, u32_max, u64_max in *; lia| |exact Ha].
  cbn in Hf. rewrite !Forall_forall in *. intros v Hv. split; [intros b; apply HR; auto|]. destruct (header_cons v (Hl v Hv)) as (b & t & E).
  rewrite (enc_header ik v), E. cbn [app length]. lia.
Qed.

Definition slot_agrees {S} (sl : slot S) : Prop :=
  forall ik v s s', wf v -> s_fits sl ik v -> s_tree sl ik v s = Ok s' -> reads ik (s_unpack sl s) v s'.
Lemma slot_of_agrees {A S} f (R : reading A) (set : A -> S -> S) reset : Agrees R -> slot_agrees (slot_of f R set reset).
Proof.
  intros HR ik v s s' Hv Hf Hs rest tg d Hr. cbn in Hs. destruct (r_tree R ik v) as [a|] eqn:E; [|done]. injection Hs as <-.
  cbn [s_unpack slot_of]. by rewrite (HR ik v a Hv Hf E rest tg d Hr).
Qed.
Lemma slots_agree {S} (slots : list (slot S)) s0 : Forall slot_agrees slots -> Agrees (read_slots slots s0).
Proof.
  intros Hsl ik v s Hv Hf Hs. destruct v as [| | | | | | |l]; try done. apply wf_obj in Hv as [Hn Hl]. cbn in Hf, Hs.
  destruct (Wire.read_object _ _ _ _) as [st|] eqn:E; [|done]. injection Hs as <-. cbn [r_bytes read_slots].
  eapply pack_object_reads; [done| |exact E]. apply Forall_forall. intros kv Hkv. rewrite Forall_forall in Hsl. rewrite Forall_forall in Hf. rewrite Forall_forall in Hl. destruct (Hf kv Hkv) as (Hk & i & sl & Hi & Hs & Hfit).
  split; [done|]. exists i. split; [done|]. intros s1 s2. unfold tree_of, unpack_of. rewrite Hs. intros Ht. eapply (Hsl sl); [by eapply list_elem_of_lookup_2| |done|exact Ht].
  specialize (Hl kv Hkv). destruct kv as [[? ?] ?]. by destruct Hl as (_ & _ & ?).
Qed.
End PackReadings.

(** ** What writers write *)
Module PackWritten.
Import Reader Encoding RoundTrip Skipping PackFacts PackReadings.

(** From the tree [v], at most [h] containers deep, the reader takes [a]. *)
Record carries {A} (R : reading A) (ik : bool) (h : nat) (v : wvalue) (a : A) : Prop := Carries {
  c_wf : wf v;
  c_fits : r_fits R ik v;
  c_tree : r_tree R ik v = Ok a;
  c_height : (height v <= h)%nat
}.

Lemma carries_reads {A} (R : reading A) ik h v a : Agrees R -> carries R ik h v a ->
  forall rest tg d, 0 < tg -> tg + Z.of_nat (length (enc ik v)) <= u64_max -> 0 <= d -> d + Z.of_nat h < max_read_depth ->
  r_bytes R (MkReader (enc ik v ++ rest) tg d) = Ok (a, MkReader rest (tg - 1) d).
Proof.
  intros HR [Hw Hf Ht Hh] rest tg d Htg Hn Hd Hdh. apply HR; [done..|]. split; [done| |done|lia].
  pose proof (forest_length ik [v] ltac:(by repeat constructor)) as Hl. cbn [map nat_sum fmap list_fmap concat] in Hl. rewrite app_nil_r in Hl. lia.
Qed.
Lemma carries_converted {A B} (R : reading A) (f : A -> expect B) ik h v a b : carries R ik h v a -> f a = Ok b -> carries (converted R f) ik h v b.
Proof. intros [Hw Hf Ht Hh] Hb. split; [done|done| |done]. cbn. by rewrite Ht. Qed.
Lemma carries_weaken {A} (R : reading A) ik h h' v a : (h <= h')%nat -> carries R ik h v a -> carries R ik h' v a.
Proof. intros Hle [? ? ? ?]. split; try done. lia. Qed.

Lemma carries_uint ik max z : 0 <= z <= max -> max <= u64_max -> carries (uint max) ik 0 (WUint z) z.
Proof. intros Hz Hm. split; [cbn; unfold in_u64; lia|done| |done]. cbn. by rewrite (proj2 (Z.ltb_ge max z)) by lia. Qed.
Lemma carries_blob ik n z : 0 <= z < 256 ^ Z.of_nat n -> Z.of_nat n <= u32_max -> carries (blob n) ik 0 (wblob n z) z.
Proof. intros Hz Hn. split; [cbn; unfold len_ok; by rewrite length_be_bytes|done| |done]. cbn [r_tree blob]. by apply read_blob_ok. Qed.
Lemma carries_string ik s : len_ok s -> carries string_ ik 0 (WStr s) s.
Proof. by split. Qed.
Lemma carries_array {A B} (R : reading A) ik h (w : B -> wvalue) (c : B -> A) l : len_ok l ->
  Forall (fun b => carries R ik h (w b) (c b)) l -> carries (trusted_array R) ik (S h) (WArr (w <$> l)) (c <$> l).
Proof.
  intros Hn Hl. split.
  - apply wf_arr. split; [unfold len_ok in *; by rewrite length_fmap|]. apply Forall_fmap. eapply Forall_impl; [exact Hl|]. by intros b [].
  - cbn. apply Forall_fmap. eapply Forall_impl; [exact Hl|]. by intros b [].
  - cbn. assert (forall dest, efold (fun dest v => let* a := r_tree R ik v in Ok (dest ++ [a])) dest (w <$> l) = Ok (dest ++ (c <$> l))) as H;
      [|by apply (H [])].
    clear Hn. induction Hl as [|b l [_ _ Ht _] Hl IH]; intros dest; cbn [fmap list_fmap efold]; [by rewrite app_nil_r|].
    rewrite Ht. cbn [ebind]. change (list_fmap _ _ w l) with (w <$> l). rewrite IH, <- app_assoc. done.
  - cbn [height]. apply le_n_S, list_max_le, List.Forall_forall. intros n Hin. apply in_map_iff in Hin as (v & <- & Hv).
    apply list_elem_of_In, list_elem_of_fmap in Hv as (b & -> & Hb). rewrite Forall_forall in Hl. by destruct (Hl b Hb).
Qed.

Section object.
Context {S : Type} (slots : list (slot S)) (ik : bool) (h : nat).

(** The members of an object one by one, each with its slot. *)
Inductive written : list nat -> S -> list (Z * String.string * wvalue) -> list nat -> S -> Prop :=
| written_end seen s : written seen s [] seen s
| written_member seen s id name v l i sl s' seen' s'' :
    0 <= id <= u32_max -> len_ok (bytes_of_string name) ->
    find_key (member_key ik id name) (fields_of slots) = Some i -> slots !! i = Some sl -> bool_decide (i ∈ seen) = false ->
    wf v -> s_fits sl ik v -> s_tree sl ik v s = Ok s' -> (height v <= h)%nat ->
    written (i :: seen) s' l seen' s'' -> written seen s ((id, name, v) :: l) seen' s''.

Lemma written_object s l seen s' : written [] s l seen s' -> len_ok l -> missing (fields_of slots) seen = false ->
  carries (read_slots slots s) ik (Datatypes.S h) (WObj l) (JsonObject.reset_omitted (fields_of slots) (reset_of slots) seen s').
Proof.
  intros Hw Hn Hm. assert (forall seen0 s0 l seen1 s1, written seen0 s0 l seen1 s1 ->
    Forall wf_member l /\ Forall (member_fits slots ik) l /\ Forall (fun kv => (height kv.2 <= h)%nat) l /\
    efold (read_member (fields_of slots) (tree_of slots ik)) (seen0, s0) (members ik l) = Ok (seen1, s1)) as H.
  { clear. induction 1 as [seen s|seen s id name v l i sl s' seen' s'' Hid Hnm Hk Hs Hseen Hw Hf Ht Hh Hl (IH1 & IH2 & IH3 & IH4)];
      [split_and!; constructor|]. split_and!.
    - constructor; [|done]. refine (conj _ (conj Hnm Hw)). cbn [fst snd]. unfold in_u64, u64_max, u32_max in *. lia.
    - constructor; [|done]. split; [by destruct ik|]. by exists i, sl.
    - by constructor.
    - change (members ik ((id, name, v) :: l)) with ((member_key ik id name, v) :: members ik l).
      rewrite (efold_read_member _ _ seen s _ v _ i s'); [done|done|done|]. unfold tree_of. by rewrite Hs. }
  apply H in Hw as (H1 & H2 & H3 & H4). split.
  - by apply wf_obj.
  - done.
  - cbn. unfold Wire.read_object. rewrite H4. cbn [ebind fst snd]. by rewrite Hm.
  - cbn [height]. apply le_n_S, list_max_le, List.Forall_forall. intros n Hin. apply in_map_iff in Hin as (kv & <- & Hv).
    rewrite Forall_forall in H3. by apply H3, list_elem_of_In.
Qed.
End object.
End PackWritten.

(** ** Outputs, spends and their parts *)
Module PackData.
Import Reader Encoding RoundTrip Skipping PackObject PackFacts PackReadings PackWritten.

(** An object of required unsigned integers. *)
Definition uints (fs : list field) (max : Z) (init : list Z) : reading (list Z) :=
  Reading (object fs (fun i l r => let* zr := r_bytes (uint max) r in Ok (<[i := zr.1]> l, zr.2)) (fun _ l => l) init)
    (fun ik v => read_uints ik fs max v init)
    (fun ik v => match v with
                 | WObj l => Forall (fun kv => key_ok ik kv.1.1 kv.1.2 /\ is_some_b (find_key (member_key ik kv.1.1 kv.1.2) fs) = true) l
                 | _ => True
                 end).
Definition output_id_ (dest : output_id) : reading output_id :=
  converted (uints output_id_fields u64_max [oi_high dest; oi_low dest]) (fun l => Ok (OutputId (nth 0 l 0) (nth 1 l 0))).
Definition address_index_ (dest : address_index) : reading address_index :=
  converted (uints address_index_fields u32_max [maj_i dest; min_i dest]) (fun l => Ok (AddressIndex (nth 0 l 0) (nth 1 l 0))).

(** A field read by a reader that starts from what the destination holds. *)
Definition nested {A S} (id : Z) (name : String.string) (get : S -> A) (R : A -> reading A) (set : A -> S -> S) : slot S :=
  Slot (Field id name true) (fun s r => let* ar := r_bytes (R (get s)) r in Ok (set ar.1 s, ar.2))
    (fun ik v s => let* a := r_tree (R (get s)) ik v in Ok (set a s)) (fun ik v => forall a, r_fits (R a) ik v) (fun s => s).

(** *** spend *)
Definition spend_slots : list (slot (spend * option hash)) :=
  [required 0 "height" (uint u64_max) (fun h '(s, p) =>
     (Spend (TransactionLink h (tl_tx_hash (sp_link s))) (sp_image s) (sp_source s) (sp_timestamp s) (sp_unlock_time s) (sp_mixin_count s) (sp_length s) (sp_payment_id s) (sp_sender s), p));
   required 1 "tx_hash" (blob 32) (fun h '(s, p) =>
     (Spend (TransactionLink (tl_height (sp_link s)) h) (sp_image s) (sp_source s) (sp_timestamp s) (sp_unlock_time s) (sp_mixin_count s) (sp_length s) (sp_payment_id s) (sp_sender s), p));
   required 2 "image" (blob 32) (fun i '(s, p) =>
     (Spend (sp_link s) i (sp_source s) (sp_timestamp s) (sp_unlock_time s) (sp_mixin_count s) (sp_length s) (sp_payment_id s) (sp_sender s), p));
   required 3 "source" (output_id_ (OutputId 0 0)) (fun i '(s, p) =>
     (Spend (sp_link s) (sp_image s) i (sp_timestamp s) (sp_unlock_time s) (sp_mixin_count s) (sp_length s) (sp_payment_id s) (sp_sender s), p));
   required 4 "timestamp" (uint u64_max) (fun z '(s, p) =>
     (Spend (sp_link s) (sp_image s) (sp_source s) z (sp_unlock_time s) (sp_mixin_count s) (sp_length s) (sp_payment_id s) (sp_sender s), p));
   required 5 "unlock_time" (uint u64_max) (fun z '(s, p) =>
     (Spend (sp_link s) (sp_image s) (sp_source s) (sp_timestamp s) z (sp_mixin_count s) (sp_length s) (sp_payment_id s) (sp_sender s), p));
   required 6 "mixin_count" (uint u32_max) (fun z '(s, p) =>
     (Spend (sp_link s) (sp_image s) (sp_source s) (sp_timestamp s) (sp_unlock_time s) z (sp_length s) (sp_payment_id s) (sp_sender s), p));
   optional 7 "payment_id" (blob 32) (fun h '(s, _) => (s, Some h)) (fun '(s, _) => (s, None));
   required 8 "sender" (address_index_ address_index_primary) (fun i '(s, p) =>
     (Spend (sp_link s) (sp_image s) (sp_source s) (sp_timestamp s) (sp_unlock_time s) (sp_mixin_count s) (sp_length s) (sp_payment_id s) i, p))].
Definition spend_ (dest : spend) : reading spend :=
  converted (read_slots spend_slots (dest, None))
    (fun r => Ok (match r.2 with
                  | Some payment_id => with_payment_id 32 payment_id r.1
                  | None => with_payment_id 0 (sp_payment_id r.1) r.1
                  end)).

(** *** output *)
Definition unset {S} (reset : S -> S) (sl : slot S) : slot S :=
  Slot (Field (f_id (s_field sl)) (f_name (s_field sl)) false) (s_unpack sl) (s_tree sl) (s_fits sl) reset.
Definition output_slots : list (slot output_reading) :=
  let sme f s := on_self (with_spend_meta f) s in
  let link f s := on_self (with_link f) s in
  [unset (sme (set_sme_id output_id_txpool))
     (nested 0 "id" (fun s => sme_id (out_spend_meta (or_self s))) output_id_ (fun x => sme (set_sme_id x)));
   optional 1 "block" (uint u64_max) (fun x => link (fun l => TransactionLink x (tl_tx_hash l)))
     (link (fun l => TransactionLink block_id_txpool (tl_tx_hash l)));
   required 2 "index" (uint u32_max) (fun x => sme (set_sme_index x));
   required 3 "amount" (uint u64_max) (fun x => sme (set_sme_amount x));
   required 4 "timestamp" (uint u64_max) (fun x => on_self (with_timestamp x));
   required 5 "tx_hash" (blob 32) (fun x => link (fun l => TransactionLink (tl_height l) x));
   required 6 "tx_prefix_hash" (blob 32) (fun x => on_self (with_tx_prefix_hash x));
   required 7 "tx_public" (blob 32) (fun x => sme (set_sme_tx_public x));
   optional 8 "rct_mask" (blob 32) (fun x s => OutputReading (or_self s) (or_coinbase s) (Some x) (or_payment_id s)) (fun s => s);
   optional 9 "payment_id" binary_ (fun x s => OutputReading (or_self s) (or_coinbase s) (or_rct s) (Some x)) (fun s => s);
   required 10 "unlock_time" (uint u64_max) (fun x => on_self (with_unlock_time x));
   required 11 "mixin_count" (uint u32_max) (fun x => sme (set_sme_mixin x));
   required 12 "coinbase" bool_ (fun x s => OutputReading (or_self s) x (or_rct s) (or_payment_id s));
   required 13 "fee" (uint u64_max) (fun x => on_self (with_fee x));
   nested 14 "recipient" (fun s => out_recipient (or_self s)) address_index_ (fun x => on_self (with_recipient x));
   required 15 "pub" (blob 32) (fun x => on_self (with_pub x))].
Definition output_ (dest : output) : reading output :=
  converted (read_slots output_slots (OutputReading dest false None None)) finish_output.

(** *** std::pair *)
Definition pair_slots {A B} (R1 : reading A) (R2 : reading B) : list (slot (A * B)) :=
  [required 0 "first" R1 (fun a p => (a, p.2)); required 1 "second" R2 (fun b p => (p.1, b))].
Definition pair_ {A B} (R1 : reading A) (R2 : reading B) (init : A * B) : reading (A * B) := read_slots (pair_slots R1 R2) init.

(** *** They agree with the trees *)
Lemma uints_agree fs max init : Agrees (uints fs max init).
Proof.
  intros ik v a Hv Hf Ha. destruct v as [| | | | | | |l]; try done. apply wf_obj in Hv as [Hn Hl]. cbn [r_tree uints] in Ha. unfold read_uints in Ha.
  destruct (Wire.read_object _ _ _ _) as [st|] eqn:E; [|done]. injection Ha as <-. cbn [r_bytes uints].
  replace st.2 with (JsonObject.reset_omitted fs (fun _ (l : list Z) => l) st.1 st.2).
  2:{ unfold JsonObject.reset_omitted. generalize (seq 0 (length fs)). intros is_. clear. generalize st.2. induction is_ as [|i is_ IH]; intros s; [done|].
      cbn [foldl]. destruct (_ && _); apply IH. }
  eapply pack_object_reads; [done| |exact E]. apply Forall_forall. intros kv Hkv. cbn [r_fits uints] in Hf. rewrite Forall_forall in Hf. rewrite Forall_forall in Hl.
  destruct (Hf kv Hkv) as [Hk Hi]. destruct (find_key (member_key ik kv.1.1 kv.1.2) fs) as [i|] eqn:Ei; [|done]. split; [done|]. exists i. split; [exact Ei|]. intros s s' Hs rest tg d Hr.
  destruct (read_uint max kv.2) as [z|] eqn:Ez; [|done]. injection Hs as <-. specialize (Hl kv Hkv).
  assert (wf kv.2) as Hw by (destruct kv as [[? ?] ?]; by destruct Hl as (_ & _ & ?)).
  by rewrite (uint_agrees max ik kv.2 z Hw I Ez rest tg d Hr).
Qed.
Lemma output_id_agrees dest : Agrees (output_id_ dest).
Proof. apply converted_agrees, uints_agree. Qed.
Lemma address_index_agrees dest : Agrees (address_index_ dest).
Proof. apply converted_agrees, uints_agree. Qed.
Lemma nested_agrees {A S} id name (get : S -> A) R (set : A -> S -> S) : (forall a, Agrees (R a)) -> slot_agrees (nested id name get R set).
Proof.
  intros HR ik v s s' Hv Hf Hs rest tg d Hr. cbn in Hs. destruct (r_tree (R (get s)) ik v) as [a|] eqn:E; [|done]. injection Hs as <-.
  cbn [s_unpack nested]. by rewrite (HR _ ik v a Hv (Hf _) E rest tg d Hr).
Qed.
Lemma unset_agrees {S} (reset : S -> S) (sl : slot S) : slot_agrees sl -> slot_agrees (unset reset sl).
Proof. intros Hsl. exact Hsl. Qed.

Create HintDb pack.
#[export] Hint Resolve uint_agrees blob_agrees binary_agrees bool_agrees string_agrees array_agrees output_id_agrees address_index_agrees : pack.
Ltac slots_agree :=
  apply slots_agree; repeat (apply Forall_cons_2; [first [apply slot_of_agrees|apply nested_agrees; intros ?|apply unset_agrees, nested_agrees; intros ?]; auto with pack|]);
  apply Forall_nil_2.
Lemma spend_agrees dest : Agrees (spend_ dest).
Proof. apply converted_agrees. slots_agree. Qed.
Lemma output_agrees dest : Agrees (output_ dest).
Proof. apply converted_agrees. slots_agree. Qed.
Lemma pair_agrees {A B} (R1 : reading A) (R2 : reading B) init : Agrees R1 -> Agrees R2 -> Agrees (pair_ R1 R2 init).
Proof. intros H1 H2. slots_agree. Qed.
#[export] Hint Resolve spend_agrees output_agrees pair_agrees : pack.
End PackData.

(** *** Their trees are those of Data.v and DataWire.v *)
Module PackTrees.
Import Encoding Skipping PackFacts PackReadings PackWritten PackData.

Lemma read_object_ext {S} fs (f g : nat -> wvalue -> S -> expect S) l s :
  (forall i v s, (i < length fs)%nat -> f i v s = g i v s) -> Wire.read_object fs f l s = Wire.read_object fs g l s.
Proof.
  intros Hfg. unfold Wire.read_object. assert (forall st, efold (read_member fs f) st l = efold (read_member fs g) st l) as ->; [|done].
  induction l as [|kv l IH]; intros [seen s0]; [done|]. cbn [efold]. unfold read_member at 1 3. destruct (find_key kv.1 fs) as [i|] eqn:E; [|apply IH].
  case_bool_decide; [done|]. rewrite Hfg by (by eapply ObjectFacts.find_key_lt). destruct (g i kv.2 s0); [apply IH|done].
Qed.
Ltac nth_field := intros i v s Hi; repeat first [lia|destruct i as [|i]; [reflexivity|]].

Lemma spend_tree ik v dest : r_tree (spend_ dest) ik v = read_spend ik v dest.
Proof.
  unfold spend_, read_spend, read_wobject. cbn [r_tree converted read_slots]. destruct v as [| | | | | | |l]; try done.
  assert (forall i v s, (i < 9)%nat -> tree_of spend_slots ik i v s =
    match spend_fields !! i with Some f => w_read f ik v s | None => Err (schema_err schema_invalid_key) end) as H by nth_field.
  rewrite (read_object_ext (fields_of spend_slots) _ _ (members ik l) (dest, None) H). clear H.
  change (w_field <$> spend_fields) with (fields_of spend_slots). destruct (Wire.read_object _ _ _ _) as [[seen [s p]]|]; [|done]. cbn [ebind fst snd].
  unfold JsonObject.reset_omitted, DataWire.reset_omitted. cbn. by destruct (negb _).
Qed.
Lemma output_tree ik v dest : r_tree (output_ dest) ik v = read_output ik v dest.
Proof.
  unfold output_, read_output. cbn [r_tree converted read_slots]. destruct v as [| | | | | | |l]; try done.
  assert (forall i v s, (i < 16)%nat -> tree_of output_slots ik i v s = output_try_read ik i v s) as H by nth_field.
  rewrite (read_object_ext (fields_of output_slots) _ _ (members ik l) (OutputReading dest false None None) H). clear H.
  change (fields_of output_slots) with output_fields.
  destruct (Wire.read_object _ _ _ _) as [[seen [o c r p]]|]; [|done]. cbn [ebind fst snd]. f_equal.
  unfold JsonObject.reset_omitted, output_reset. cbn -[bool_decide]. by repeat case_bool_decide.
Qed.

(** *** What is written is read *)
Lemma wf_small id name v : 0 <= id <= 255 -> (String.length name <= 255)%nat -> wf v -> wf_member (id, name, v).
Proof.
  intros Hi Hn Hv. split; [cbn; unfold in_u64, u64_max; lia|]. split; [|done]. unfold len_ok, bytes_of_string, u32_max. cbn. rewrite length_fmap.
  assert (length (String.list_ascii_of_string name) = String.length name) as -> by (clear; induction name; cbn; congruence). lia.
Qed.
Ltac wf_members := apply wf_obj; split; [unfold len_ok, u32_max; cbn; lia|];
  repeat (apply Forall_cons_2; [apply wf_small; [lia|cbn; lia|]|]); [..|apply Forall_nil_2].
Lemma carries_output_id ik dest i : valid_output_id i -> carries (output_id_ dest) ik 1 (map_output_id i) i.
Proof.
  intros Hi. pose proof Hi as [H1 H2]. split.
  - unfold map_output_id. wf_members; done.
  - cbn [r_fits output_id_ converted uints map_output_id]. repeat (apply Forall_cons_2; [by destruct ik|]). apply Forall_nil_2.
  - exact (read_output_id_ok ik i dest Hi).
  - cbn. lia.
Qed.
Lemma carries_address_index ik dest i : valid_address_index i -> carries (address_index_ dest) ik 1 (map_address_index i) i.
Proof.
  intros Hi. pose proof Hi as [H1 H2]. unfold in_u32 in *. split.
  - unfold map_address_index. wf_members; cbn; unfold in_u64, u32_max, u64_max in *; lia.
  - cbn [r_fits address_index_ converted uints map_address_index]. repeat (apply Forall_cons_2; [by destruct ik|]). apply Forall_nil_2.
  - exact (read_address_index_ok ik i dest Hi).
  - cbn. lia.
Qed.

Lemma wf_blob n z : Z.of_nat n <= u32_max -> wf (wblob n z).
Proof. intros Hn. cbn. unfold len_ok. by rewrite length_be_bytes. Qed.
Ltac member_fits_tac :=
  match goal with |- member_fits _ ?ik _ =>
    split; [destruct ik; cbn [fst snd]; unfold key_ok, len_ok, u32_max; cbn; lia|];
    destruct ik; (eexists _, _; split; [vm_compute; reflexivity|split; [reflexivity|]])
  end.

Lemma carries_spend ik dest s : valid_spend s ->
  carries (spend_ dest) ik 2 (write_spend s) (with_payment_id (sp_length s) (if sp_length s =? 32 then sp_payment_id s else sp_payment_id dest) s).
Proof.
  intros Hs. pose proof Hs as [Hh Ht Hi Hsrc Hts Hu Hm Hp Hl Hse].
  pose proof (c_wf _ _ _ _ _ (carries_output_id ik (OutputId 0 0) _ Hsrc)) as Hwsrc.
  pose proof (c_wf _ _ _ _ _ (carries_address_index ik address_index_primary _ Hse)) as Hwse.
  assert (in_u64 (sp_mixin_count s)) as Hm64 by (unfold in_u32, in_u64, u32_max, u64_max in *; lia). split.
  - unfold write_spend, map_spend. destruct (sp_length s =? 32); cbn [app]; wf_members; try done; by apply wf_blob.
  - cbn [r_fits spend_ converted read_slots]. unfold write_spend, map_spend.
    destruct (sp_length s =? 32); cbn [app]; (repeat apply Forall_cons_2; [..|apply Forall_nil_2]); member_fits_tac; try done;
      first [apply (c_fits _ _ _ _ _ (carries_output_id _ (OutputId 0 0) _ Hsrc))|apply (c_fits _ _ _ _ _ (carries_address_index _ address_index_primary _ Hse))].
  - rewrite spend_tree. by apply read_spend_written.
  - unfold write_spend, map_spend. destruct (sp_length s =? 32); cbn; lia.
Qed.

Lemma opt_member_all (P : Z * String.string * wvalue -> Prop) b m : P m -> Forall P (opt_member b m).
Proof. intros Hm. destruct b; cbn; auto. Qed.
Ltac in_chunks :=
  repeat (apply Forall_app; split); try apply opt_member_all; repeat apply Forall_cons_2; try apply Forall_nil_2.

Lemma carries_output ik dest o : valid_output o -> carries (output_ dest) ik 2 (write_output o) (output_canon o dest).
Proof.
  intros Ho. pose proof Ho as [Hh Hth Hid Ham Hmix Hidx Htp Hts Hun Hpre Hpub Hmask Hpay Hfee Hrec Hex Hlen].
  pose proof (c_wf _ _ _ _ _ (carries_output_id ik (OutputId 0 0) _ Hid)) as Hwid.
  pose proof (c_wf _ _ _ _ _ (carries_address_index ik address_index_primary _ Hrec)) as Hwrec.
  assert (in_u64 (sme_mixin_count (out_spend_meta o)) /\ in_u64 (sme_index (out_spend_meta o))) as [Hm64 Hi64]
    by (unfold in_u32, in_u64, u32_max, u64_max in *; lia).
  unfold write_output. set (u := unpack (out_extra o)). set (pb := if _ =? 32 then _ else _).
  assert (len_ok pb) as Hpb by (unfold len_ok, pb, u32_max; repeat (destruct (_ =? _)); rewrite ?length_be_bytes; cbn; lia).
  split.
  - apply wf_obj. split; [unfold len_ok, opt_member, u32_max; repeat match goal with |- context [if ?b then _ else _] => destruct b end; cbn; lia|]. in_chunks;
      (apply wf_small; [lia|cbn; lia|]); try done; by apply wf_blob.
  - clearbody pb u. clear Hlen. cbn [r_fits output_ converted read_slots]. in_chunks; member_fits_tac; try done; intros a;
      first [apply (c_fits _ _ _ _ _ (carries_output_id _ a _ Hid))|apply (c_fits _ _ _ _ _ (carries_address_index _ a _ Hrec))].
  - rewrite output_tree. exact (read_output_written ik o dest Ho).
  - unfold opt_member. destruct (negb _), (negb _), (has_flag u.1 ringct_output), (negb (bool_decide _)); cbn; lia.
Qed.
End PackTrees.

(** ** Accounts (src/db/account.cpp) *)
Module PackAccount.
Import Reader Encoding RoundTrip Skipping PackFacts PackReadings PackWritten PackData PackTrees.

(** What [emplace_back] leaves to be read into. *)
Definition no_spend : spend := Spend (TransactionLink 0 0) 0 (OutputId 0 0) 0 0 0 0 0 address_index_primary.
Definition no_output : output :=
  Output (TransactionLink 0 0) (SpendMeta (OutputId 0 0) 0 0 0 0) 0 0 0 0 0 0 0 0 address_index_primary.
Definition no_internal : Account.internal := Account.Internal [] account_id_invalid (AccountAddress 0 0) 0.

Definition account_address_ (dest : account_address) : reading account_address :=
  read_slots [required 0 "spend_public" (blob 32) (fun k a => AccountAddress (view_public a) k);
              required 1 "view_public" (blob 32) (fun k a => AccountAddress k (spend_public a))] dest.

(** [account::internal] *)
Definition write_internal (i : Account.internal) : wvalue :=
  WObj [(0, "address"%string, WStr (Account.in_address i)); (1, "id"%string, WUint (Account.in_id i));
        (2, "pubs"%string, map_account_address (Account.in_pubs i)); (3, "view_key"%string, wblob 32 (Account.in_view_key i))].
Definition internal_slots : list (slot Account.internal) :=
  [required 0 "address" string_ (fun a i => Account.Internal a (Account.in_id i) (Account.in_pubs i) (Account.in_view_key i));
   required 1 "id" (uint u32_max) (fun n i => Account.Internal (Account.in_address i) n (Account.in_pubs i) (Account.in_view_key i));
   nested 2 "pubs" Account.in_pubs account_address_ (fun p i => Account.Internal (Account.in_address i) (Account.in_id i) p (Account.in_view_key i));
   required 3 "view_key" (blob 32) (fun k i => Account.Internal (Account.in_address i) (Account.in_id i) (Account.in_pubs i) k)].
Definition internal_ : reading Account.internal := read_slots internal_slots no_internal.

(** [account::map]; the vectors are trusted arrays, left out when empty. *)
Definition map_pair (p : output_id * address_index) : wvalue :=
  WObj [(0, "first"%string, map_output_id p.1); (1, "second"%string, map_address_index p.2)].
Definition array_member (id : Z) (name : String.string) (l : list wvalue) : list (Z * String.string * wvalue) :=
  opt_member (negb (bool_decide (l = []))) (id, name, WArr l).
Definition write_user (self : Account.state) : expect wvalue :=
  let* immutable := Account.null_check self in
  Ok (WObj ([(0, "immutable_"%string, write_internal immutable)] ++
    array_member 1 "spendable_" (map_pair <$> Account.spendable_ self) ++ array_member 2 "pubs_" (wblob 32 <$> Account.pubs_ self) ++
    array_member 3 "spends_" (write_spend <$> Account.spends_ self) ++ array_member 4 "outputs_" (write_output <$> Account.outputs_ self) ++
    [(5, "height_"%string, WUint (Account.height_ self))])).
Definition user_slots : list (slot Account.state) :=
  [required 0 "immutable_" internal_ (fun i s => Account.State (Some i) (Account.spendable_ s) (Account.pubs_ s) (Account.spends_ s) (Account.outputs_ s) (Account.height_ s));
   optional 1 "spendable_" (trusted_array (pair_ (output_id_ (OutputId 0 0)) (address_index_ address_index_primary) (OutputId 0 0, address_index_primary)))
     (fun l s => Account.State (Account.immutable_ s) l (Account.pubs_ s) (Account.spends_ s) (Account.outputs_ s) (Account.height_ s))
     (fun s => Account.State (Account.immutable_ s) [] (Account.pubs_ s) (Account.spends_ s) (Account.outputs_ s) (Account.height_ s));
   optional 2 "pubs_" (trusted_array (blob 32))
     (fun l s => Account.State (Account.immutable_ s) (Account.spendable_ s) l (Account.spends_ s) (Account.outputs_ s) (Account.height_ s))
     (fun s => Account.State (Account.immutable_ s) (Account.spendable_ s) [] (Account.spends_ s) (Account.outputs_ s) (Account.height_ s));
   optional 3 "spends_" (trusted_array (spend_ no_spend))
     (fun l s => Account.State (Account.immutable_ s) (Account.spendable_ s) (Account.pubs_ s) l (Account.outputs_ s) (Account.height_ s))
     (fun s => Account.State (Account.immutable_ s) (Account.spendable_ s) (Account.pubs_ s) [] (Account.outputs_ s) (Account.height_ s));
   optional 4 "outputs_" (trusted_array (output_ no_output))
     (fun l s => Account.State (Account.immutable_ s) (Account.spendable_ s) (Account.pubs_ s) (Account.spends_ s) l (Account.height_ s))
     (fun s => Account.State (Account.immutable_ s) (Account.spendable_ s) (Account.pubs_ s) (Account.spends_ s) [] (Account.height_ s));
   required 5 "height_" (uint u64_max) (fun h s => Account.State (Account.immutable_ s) (Account.spendable_ s) (Account.pubs_ s) (Account.spends_ s) (Account.outputs_ s) h)].
(** [account::read_bytes] sorts what it read. *)
Definition sort_user (s : Account.state) : Account.state :=
  Account.State (Account.immutable_ s) (std_sort Account.spendable_lt (Account.spendable_ s)) (std_sort Account.sort_pubs (Account.pubs_ s))
    (Account.spends_ s) (Account.outputs_ s) (Account.height_ s).
Definition user_ : reading Account.state := converted (read_slots user_slots Account.empty_account) (fun s => Ok (sort_user s)).

Lemma account_address_agrees dest : Agrees (account_address_ dest).
Proof. slots_agree. Qed.
Lemma internal_agrees : Agrees internal_.
Proof. apply slots_agree. repeat (apply Forall_cons_2; [first [apply slot_of_agrees; auto with pack|apply nested_agrees; intros; apply account_address_agrees]|]). apply Forall_nil_2. Qed.
#[export] Hint Resolve internal_agrees : pack.
Lemma user_agrees : Agrees user_.
Proof. apply converted_agrees. slots_agree. Qed.
#[export] Hint Resolve user_agrees : pack.

(** *** What is written is read *)
Lemma written_slot {A S} (slots : list (slot S)) ik h seen s id name v l i f (R : reading A) set reset a seen' s' :
  find_key (member_key ik id name) (fields_of slots) = Some i -> slots !! i = Some (slot_of f R set reset) -> bool_decide (i ∈ seen) = false ->
  0 <= id <= u32_max -> len_ok (bytes_of_string name) -> carries R ik h v a ->
  written slots ik h (i :: seen) (set a s) l seen' s' -> written slots ik h seen s ((id, name, v) :: l) seen' s'.
Proof.
  intros Hk Hs Hseen Hid Hnm [Hw Hf Ht Hh] Hl. eapply written_member; try done. cbn. by rewrite Ht.
Qed.
Ltac wslot tac :=
  eapply written_slot; [vm_compute; reflexivity|reflexivity|vm_compute; reflexivity|unfold u32_max; lia|unfold len_ok, u32_max; cbn; lia|tac|].

Definition valid_address (a : account_address) : Prop := in_blob32 (spend_public a) /\ in_blob32 (view_public a).
Record valid_internal (i : Account.internal) : Prop := {
  vi_address : len_ok (Account.in_address i); vi_id : in_u32 (Account.in_id i); vi_pubs : valid_address (Account.in_pubs i);
  vi_view_key : in_blob32 (Account.in_view_key i)
}.
(** An account with the ranges of its C++ types. *)
Record valid_user (u : Account.state) (i : Account.internal) : Prop := {
  vu_immutable : Account.immutable_ u = Some i; vu_internal : valid_internal i;
  vu_spendable : len_ok (Account.spendable_ u) /\ Forall (fun p => valid_output_id p.1 /\ valid_address_index p.2) (Account.spendable_ u);
  vu_pubs : len_ok (Account.pubs_ u) /\ Forall in_blob32 (Account.pubs_ u);
  vu_spends : len_ok (Account.spends_ u) /\ Forall valid_spend (Account.spends_ u);
  vu_outputs : len_ok (Account.outputs_ u) /\ Forall valid_output (Account.outputs_ u);
  vu_height : in_u64 (Account.height_ u)
}.

(** What the other process has: the fields that are not on the wire are those
    of a new record. *)
Definition spend_canon (s : spend) : spend := with_payment_id (sp_length s) (if sp_length s =? 32 then sp_payment_id s else 0) s.
Definition received (u : Account.state) : Account.state :=
  sort_user (Account.State (Account.immutable_ u) (Account.spendable_ u) (Account.pubs_ u) (spend_canon <$> Account.spends_ u)
    ((fun o => output_canon o no_output) <$> Account.outputs_ u) (Account.height_ u)).

Lemma carries_object {S} (slots : list (slot S)) ik h s l seen s' a : written slots ik h [] s l seen s' -> len_ok l ->
  missing (fields_of slots) seen = false -> JsonObject.reset_omitted (fields_of slots) (reset_of slots) seen s' = a ->
  carries (read_slots slots s) ik (Datatypes.S h) (WObj l) a.
Proof. intros Hw Hn Hm <-. by apply written_object. Qed.
Ltac carried :=
  eapply carries_object; [|unfold len_ok, u32_max; cbn; lia|vm_compute; reflexivity|].

Lemma carries_account_address ik dest a : valid_address a -> carries (account_address_ dest) ik 1 (map_account_address a) a.
Proof.
  intros [Hs Hv]. unfold account_address_, map_account_address. destruct ik.
  all: eapply carries_object; [do 2 (wslot ltac:(by apply carries_blob)); apply written_end|unfold len_ok, u32_max; cbn; lia|vm_compute; reflexivity|].
  all: by destruct a, dest.
Qed.
Lemma written_nested {A S} (slots : list (slot S)) ik h seen s id name v l i (get : S -> A) R set a seen' s' :
  find_key (member_key ik id name) (fields_of slots) = Some i -> slots !! i = Some (nested id name get R set) -> bool_decide (i ∈ seen) = false ->
  0 <= id <= u32_max -> len_ok (bytes_of_string name) -> (forall d, carries (R d) ik h v a) ->
  written slots ik h (i :: seen) (set a s) l seen' s' -> written slots ik h seen s ((id, name, v) :: l) seen' s'.
Proof.
  intros Hk Hs Hseen Hid Hnm Hv Hl. destruct (Hv (get s)) as [Hw _ Ht Hh]. eapply written_member; try done; [intros d; by destruct (Hv d)|].
  cbn. by rewrite Ht.
Qed.
Ltac wnested tac :=
  eapply written_nested; [vm_compute; reflexivity|reflexivity|vm_compute; reflexivity|unfold u32_max; lia|unfold len_ok, u32_max; cbn; lia|intros; tac|].
Ltac at_depth n tac := apply (carries_weaken _ _ n); [lia|]; tac.

Lemma carries_internal ik i : valid_internal i -> carries internal_ ik 2 (write_internal i) i.
Proof.
  intros [Ha Hi Hp Hk]. unfold internal_, write_internal. unfold in_u32 in Hi. destruct ik.
  all: eapply carries_object;
    [wslot ltac:(at_depth 0%nat ltac:(by apply carries_string)); wslot ltac:(at_depth 0%nat ltac:(by apply carries_uint));
     wnested ltac:(by apply carries_account_address); wslot ltac:(at_depth 0%nat ltac:(by apply carries_blob)); apply written_end
    |unfold len_ok, u32_max; cbn; lia|vm_compute; reflexivity|by destruct i].
Qed.
Lemma carries_pair ik p : valid_output_id p.1 -> valid_address_index p.2 ->
  carries (pair_ (output_id_ (OutputId 0 0)) (address_index_ address_index_primary) (OutputId 0 0, address_index_primary)) ik 2 (map_pair p) p.
Proof.
  intros H1 H2. unfold pair_, map_pair. destruct ik.
  all: eapply carries_object; [wslot ltac:(by apply carries_output_id); wslot ltac:(by apply carries_address_index); apply written_end
    |unfold len_ok, u32_max; cbn; lia|vm_compute; reflexivity|by destruct p].
Qed.

Lemma carries_user ik u i : valid_user u i -> exists v, write_user u = Ok v /\ carries user_ ik 4 v (received u).
Proof.
  intros [Hi Hin [Hn1 H1] [Hn2 H2] [Hn3 H3] [Hn4 H4] Hh]. unfold write_user, Account.null_check. rewrite Hi. cbn [ebind]. eexists. split; [reflexivity|].
  unfold user_. eapply carries_converted; [|reflexivity].
  pose proof (carries_array (pair_ (output_id_ (OutputId 0 0)) (address_index_ address_index_primary) (OutputId 0 0, address_index_primary)) ik 2 map_pair id
    (Account.spendable_ u) Hn1 ltac:(eapply Forall_impl; [exact H1|]; intros p []; by apply carries_pair)) as C1.
  pose proof (carries_array (blob 32) ik 0 (wblob 32) id (Account.pubs_ u) Hn2 ltac:(eapply Forall_impl; [exact H2|]; intros p ?; by apply carries_blob)) as C2.
  pose proof (carries_array (spend_ no_spend) ik 2 write_spend spend_canon (Account.spends_ u) Hn3
    ltac:(eapply Forall_impl; [exact H3|]; intros p ?; by apply carries_spend)) as C3.
  pose proof (carries_array (output_ no_output) ik 2 write_output (fun o => output_canon o no_output) (Account.outputs_ u) Hn4
    ltac:(eapply Forall_impl; [exact H4|]; intros p ?; by apply carries_output)) as C4.
  rewrite !list_fmap_id in *. unfold array_member.
  destruct (bool_decide (map_pair <$> _ = [])) eqn:E1, (bool_decide (wblob 32 <$> _ = [])) eqn:E2,
    (bool_decide (write_spend <$> _ = [])) eqn:E3, (bool_decide (write_output <$> _ = [])) eqn:E4.
  all: repeat match goal with E : bool_decide (_ = []) = true |- _ => apply bool_decide_eq_true, fmap_nil_inv in E end.
  all: cbn [negb opt_member app]; destruct ik.
  all: eapply carries_object;
    [wslot ltac:(at_depth 2%nat ltac:(by apply carries_internal));
     repeat first [wslot ltac:(first [exact C1|exact C3|exact C4|at_depth 1%nat ltac:(exact C2)])
                  |wslot ltac:(at_depth 0%nat ltac:(by apply carries_uint))]; apply written_end
    |unfold len_ok, u32_max; cbn; lia|vm_compute; reflexivity|].
  all: rewrite ?E1, ?E2, ?E3, ?E4, Hi; reflexivity.
Qed.
End PackAccount.
