(* ===== verification/ScanWire.v ===== *)
(** What scanner processes say to each other, byte for byte: the commands of
    src/rpc/scanner/commands.cpp in MessagePack (module [Commands]), the queue of
    writes of src/rpc/scanner/write_commands.h and connection.cpp (module
    [Writes]), and the loop of read_commands.h over the bytes of a connection
    (module [Stream]), which runs the sessions of ScanServer.v. *)

From S2P Require Import Prelude Wire Msgpack Data DataWire Account Lmdb Tables Chain Subaddress Accounts Update Threads ScanServer OwnershipTest Sync Scanner Json PackRead.

(** ** Commands *)
Module Commands.
Import PackReadings PackData PackAccount Connection.

(** [WIRE_MSGPACK_DEFINE_OBJECT]s of commands.cpp. *)
Definition write_initialize (pass : list Z) (threads : Z) : wvalue :=
  WObj [(0, "pass"%string, WStr pass); (1, "threads"%string, WUint threads)].
Definition initialize_slots : list (slot (list Z * Z)) :=
  [required 0 "pass" string_ (fun p s => (p, s.2)); required 1 "threads" (uint u32_max) (fun t s => (s.1, t))].
Definition initialize_ : reading (list Z * Z) := read_slots initialize_slots ([], 0).

Definition write_users (users : list Account.state) : expect (list wvalue) :=
  efold (fun vs u => let* v := write_user u in Ok (vs ++ [v])) [] users.
Definition write_update_accounts (users : list Account.state) (blocks : list hash) : expect wvalue :=
  let* us := write_users users in Ok (WObj (array_member 0 "users" us ++ array_member 1 "blocks" (wblob 32 <$> blocks))).
Definition update_accounts_slots : list (slot (list Account.state * list hash)) :=
  [optional 0 "users" (trusted_array user_) (fun us s => (us, s.2)) (fun s => ([], s.2));
   optional 1 "blocks" (trusted_array (blob 32)) (fun bs s => (s.1, bs)) (fun s => (s.1, []))].
Definition update_accounts_ : reading (list Account.state * list hash) := read_slots update_accounts_slots ([], []).

(** [push_accounts] and [replace_accounts] have the same form. *)
Definition write_accounts (users : list Account.state) : expect wvalue :=
  let* us := write_users users in Ok (WObj (array_member 0 "users" us)).
Definition accounts_slots : list (slot (list Account.state)) :=
  [optional 0 "users" (trusted_array user_) (fun us _ => us) (fun _ => [])].
Definition accounts_ : reading (list Account.state) := read_slots accounts_slots [].

(** [wire::msgpack::from_bytes] *)
Definition from_bytes {A} (R : reading A) (source : list Z) : expect A :=
  let* ar := r_bytes R (Reader.init source) in
  let* _ := Reader.check_complete ar.2 in Ok ar.1.

(** [call<F>] of the handler with that id, on either side; the ids beyond are
    never read. *)
Definition server_from_bytes (id : Z) (payload : list Z) : expect message :=
  if id =? initialize_id then let* p := from_bytes initialize_ payload in Ok (Initialize p.1 p.2)
  else let* p := from_bytes update_accounts_ payload in Ok (UpdateAccounts p.1 p.2).
Definition push_accounts_id : Z := 0.
Definition replace_accounts_id : Z := 1.
Definition client_from_bytes (id : Z) (payload : list Z) : expect Server.command :=
  let* users := from_bytes accounts_ payload in
  Ok (if id =? push_accounts_id then Server.PushAccounts users else Server.ReplaceAccounts users).

(** The command a side sends: its id and its tree. *)
Definition server_bound (m : message) : Z * expect wvalue :=
  match m with
  | Initialize pass threads => (initialize_id, Ok (write_initialize pass threads))
  | UpdateAccounts users blocks => (update_accounts_id, write_update_accounts users blocks)
  end.
Definition client_bound (c : Server.command) : Z * expect wvalue :=
  match c with
  | Server.PushAccounts users => (push_accounts_id, write_accounts users)
  | Server.ReplaceAccounts users => (replace_accounts_id, write_accounts users)
  end.
End Commands.

(** ** Frames *)
Module Frames.
Import Connection.

Definition header_bytes (h : header) : list Z := h_version h :: h_id h :: rev (be_bytes 4 (h_length h)).
(** [std::memcpy] of [next_]. *)
Definition read_header (l : list Z) : header :=
  Header (nth 0 l 0) (nth 1 l 0) (be_decode (rev (take 4 (drop 2 l)))).

(** [complete_command]; [None] is a null slice. *)
Definition complete_command (id : Z) (sink : list Z) : option (list Z) :=
  let size := Z.of_nat (length sink) in
  if size <? header_size then None
  else if u32_max <? size - header_size then None
  else Some (header_bytes (Header 0 id (size - header_size)) ++ drop (Z.to_nat header_size) sink).

(** [write_command] up to the queue: the tree is written behind the room for
    the header, with integer keys. *)
Definition write_command (cmd : Z * expect wvalue) : expect (option (list Z)) :=
  let* v := cmd.2 in
  let* w := Writer.write_value v (Writer.init (repeat 0 (Z.to_nat header_size)) true) in
  let* sink := Writer.take_msgpack w in
  Ok (complete_command cmd.1 sink).
End Frames.

(** ** The queue of writes

    The part of [connection] that [write_buffers] works on. An asynchronous write
    puts its whole buffer on the socket or fails after a part of it. *)
Module Writes.

Definition max_write_buffers : nat := 100.

Record connection := MkConnection {
  write_bufs_ : list (list Z);
  writing : bool;        (* an [async_write] of the front is at work *)
  write_timeout_ : bool; (* the timer is set *)
  expired : nat;         (* handlers of a timer that ran out, not yet run *)
  cleanup_ : bool;
  sent : list Z          (* what is on the socket *)
}.
Definition construct : connection := MkConnection [] false false 0 false [].

(** [base_cleanup]: the socket is closed and the timer cancelled. *)
Definition cleanup (c : connection) : connection := MkConnection (write_bufs_ c) (writing c) false (expired c) true (sent c).

(** The coroutine from the test of its loop to the next wait. *)
Definition write_buffers (c : connection) : connection :=
  if cleanup_ c then c
  else match write_bufs_ c with
       | [] => c
       | _ => MkConnection (write_bufs_ c) true true (expired c) false (sent c)
       end.

(** [queue_slice] *)
Definition queue_slice (msg : list Z) (c : connection) : connection :=
  let queue := match write_bufs_ c with [] => true | _ => false end in
  let c := MkConnection (write_bufs_ c ++ [msg]) (writing c) (write_timeout_ c) (expired c) (cleanup_ c) (sent c) in
  if queue then write_buffers c
  else if Nat.leb max_write_buffers (length (write_bufs_ c)) then cleanup c
  else c.

(** A write has ended. *)
Inductive result := Written | Aborted (n : nat) | Broken (n : nat).
Definition on_written (r : result) (c : connection) : connection :=
  let part n := sent c ++ take n (default [] (head (write_bufs_ c))) in
  match r with
  | Written =>
    let c := MkConnection (write_bufs_ c) false (write_timeout_ c) (expired c) (cleanup_ c) (sent c ++ default [] (head (write_bufs_ c))) in
    if cleanup_ c then c
    else write_buffers (MkConnection (tail (write_bufs_ c)) false false (expired c) (cleanup_ c) (sent c))
  | Broken n => cleanup (MkConnection (write_bufs_ c) false (write_timeout_ c) (expired c) (cleanup_ c) (part n))
  | Aborted n => MkConnection (write_bufs_ c) false false (expired c) (cleanup_ c) (part n)
  end.

(** The timer runs out, which posts its handler: cancelling the timer after that
    does not stop it. *)
Definition expires (c : connection) : connection :=
  MkConnection (write_bufs_ c) (writing c) false (S (expired c)) (cleanup_ c) (sent c).
Definition timeout (c : connection) : connection :=
  cleanup (MkConnection (write_bufs_ c) (writing c) (write_timeout_ c) (pred (expired c)) (cleanup_ c) (sent c)).

(** The handlers that run in the strand (a slice that was dispatched, the end of
    a write, [timeout], and [cleanup] for a command that is too long, a failed
    read or a stop), and the clock. *)
Inductive event := Slice (msg : list Z) | WriteEnds (r : result) | Expires | Timeout | Cleanup.
Definition step (c : connection) (e : event) : option connection :=
  match e with
  | Slice msg => Some (queue_slice msg c)
  | WriteEnds r => if writing c then Some (on_written r c) else None
  | Expires => if write_timeout_ c then Some (expires c) else None
  | Timeout => if (0 <? expired c)%nat then Some (timeout c) else None
  | Cleanup => Some (cleanup c)
  end.
Fixpoint run (c : connection) (es : list event) : option connection :=
  match es with
  | [] => Some c
  | e :: es => match step c e with Some c => run c es | None => None end
  end.

(** The messages that were queued. *)
Definition slices (es : list event) : list (list Z) := omap (fun e => match e with Slice msg => Some msg | _ => None end) es.
(** The socket is closed by this side only in [cleanup], so no operation on it
    is aborted before. *)
Definition allowed (c : connection) (e : event) : Prop :=
  match e with WriteEnds (Aborted _) => cleanup_ c = true | _ => True end.

Definition front (c : connection) : list Z := default [] (head (write_bufs_ c)).
Definition prefix_of (l msgs : list Z) : Prop := exists rest, l ++ rest = msgs.

(** What is on the socket and what is queued, at any time: what was sent, and
    will be by the write at work, is the beginning of the messages; and while the
    connection is open the queue has the others, one write is at work if it is
    not empty, and it is below its limit; the timer only runs for a write. *)
Record queued (msgs : list (list Z)) (c : connection) : Prop := Queued {
  q_sent : prefix_of (sent c) (concat msgs);
  q_writing : writing c = true -> write_bufs_ c <> [] /\ prefix_of (sent c ++ front c) (concat msgs);
  q_timer : write_timeout_ c = true -> cleanup_ c = false /\ writing c = true;
  q_open : cleanup_ c = false -> sent c ++ concat (write_bufs_ c) = concat msgs /\
    writing c = negb (bool_decide (write_bufs_ c = [])) /\ (length (write_bufs_ c) < max_write_buffers)%nat
}.

Lemma prefix_app l rest msgs : prefix_of l msgs -> prefix_of l (msgs ++ rest).
Proof. intros [r <-]. exists (r ++ rest). by rewrite <- app_assoc. Qed.
Lemma prefix_take l n m msgs : prefix_of (l ++ m) msgs -> prefix_of (l ++ take n m) msgs.
Proof. intros [r <-]. exists (drop n m ++ r). rewrite <- !app_assoc. f_equal. by rewrite app_assoc, take_drop. Qed.
Lemma prefix_left l m msgs : prefix_of (l ++ m) msgs -> prefix_of l msgs.
Proof. intros [r <-]. exists (m ++ r). by rewrite <- app_assoc. Qed.

Lemma cleanup_queued msgs c : prefix_of (sent c) (concat msgs) ->
  (writing c = true -> write_bufs_ c <> [] /\ prefix_of (sent c ++ front c) (concat msgs)) -> queued msgs (cleanup c).
Proof. intros Hs Hw. by split. Qed.

Lemma slice_queued msgs msg c : queued msgs c -> queued (msgs ++ [msg]) (queue_slice msg c).
Proof.
  intros [Hs Hw Ht Ho]. assert (concat (msgs ++ [msg]) = concat msgs ++ msg) as Hcat by (rewrite concat_app; cbn; by rewrite app_nil_r).
  unfold queue_slice, front in *. destruct c as [bufs w t ex cl s]. cbn [write_bufs_ writing write_timeout_ cleanup_ expired sent] in *.
  assert (w = true -> bufs ++ [msg] <> [] /\ prefix_of (s ++ default [] (head (bufs ++ [msg]))) (concat (msgs ++ [msg]))) as Hw2.
  { intros E. destruct (Hw E) as [Hn Hp]. destruct bufs as [|b bufs]; [done|]. split; [done|]. rewrite Hcat. by apply prefix_app. }
  assert (prefix_of s (concat (msgs ++ [msg]))) as Hs2 by (rewrite Hcat; by apply prefix_app).
  destruct bufs as [|b bufs].
  - unfold write_buffers. cbn [cleanup_ write_bufs_ app sent]. destruct cl; [by split|].
    destruct (Ho eq_refl) as (Hc & -> & _). cbn in Hc. rewrite app_nil_r in Hc. subst s.
    split; cbn; rewrite ?Hcat, ?app_nil_r; [by exists msg|intros _; split; [done|by exists []; rewrite app_nil_r]|done|].
    intros _. split_and!; [done..|unfold max_write_buffers; lia].
  - destruct (Nat.leb_spec max_write_buffers (length ((b :: bufs) ++ [msg]))) as [|Hlt]; cbn [write_bufs_] in *; [by apply cleanup_queued|].
    split; cbn [write_bufs_ writing write_timeout_ cleanup_ sent]; [done|done|done|].
    intros E. destruct (Ho E) as (Hc & -> & _). split_and!; [|done|done].
    rewrite concat_app, Hcat, <- Hc. cbn. by rewrite app_nil_r, <- !app_assoc.
Qed.

Lemma written_queued msgs r c : queued msgs c -> writing c = true -> allowed c (WriteEnds r) -> queued msgs (on_written r c).
Proof.
  intros [Hs Hw Ht Ho] Hwr Ha. destruct (Hw Hwr) as [Hn Hp]. unfold on_written, front in *. destruct c as [bufs w t ex cl s].
  cbn [write_bufs_ writing write_timeout_ cleanup_ expired sent] in *. subst w. destruct bufs as [|b bufs]; [done|]. cbn [head default tail] in *.
  destruct r as [|n|n].
  - destruct cl; [split; cbn; try done; intros E; by apply Ht in E as [? _]|]. destruct (Ho eq_refl) as (Hc & _ & Hlen).
    unfold write_buffers. cbn [cleanup_ write_bufs_ sent]. cbn in Hc. destruct bufs as [|b2 bufs].
    + split; cbn; try done. intros _. split_and!; try done; [by rewrite <- Hc, <- app_assoc|unfold max_write_buffers; lia].
    + split; cbn; try done; [|intros _; split_and!; try done; [by rewrite <- Hc, <- app_assoc|cbn in Hlen; lia]].
      intros _. split; [done|]. exists (concat bufs). rewrite <- Hc. cbn. by rewrite <- !app_assoc.
  - cbn in Ha. subst cl. split; cbn; try done. by apply prefix_take.
  - split; cbn; try done. by apply prefix_take.
Qed.

Lemma run_queued es c c' msgs : queued msgs c -> run c es = Some c' ->
  (forall es1 e es2 c1, es = es1 ++ e :: es2 -> run c es1 = Some c1 -> allowed c1 e) -> queued (msgs ++ slices es) c'.
Proof.
  revert c msgs. induction es as [|e es IH]; intros c msgs Hq Hr Ha; cbn [run slices omap list_omap] in *.
  { injection Hr as <-. by rewrite app_nil_r. }
  destruct (step c e) as [c1|] eqn:E; [|done]. pose proof (Ha [] e es c eq_refl eq_refl) as Hal.
  assert (forall es1 e' es2 c2, es = es1 ++ e' :: es2 -> run c1 es1 = Some c2 -> allowed c2 e') as Ha'.
  { intros es1 e' es2 c2 -> Hr2. apply (Ha (e :: es1) e' es2 c2); [done|]. cbn. by rewrite E. }
  destruct e as [msg|r| | |]; cbn [step] in E.
  - injection E as <-. replace (msgs ++ msg :: _) with ((msgs ++ [msg]) ++ slices es) by (by rewrite <- app_assoc).
    by eapply IH; [apply slice_queued| |].
  - destruct (writing c) eqn:Ew; [|done]. injection E as <-. by eapply IH; [apply written_queued| |].
  - destruct (write_timeout_ c) eqn:Et; [|done]. injection E as <-. eapply IH; [|done|done]. destruct Hq. by split.
  - destruct (_ <? _)%nat; [|done]. injection E as <-. eapply IH; [|done|done]. destruct Hq. by apply cleanup_queued.
  - injection E as <-. eapply IH; [|done|done]. destruct Hq. by apply cleanup_queued.
Qed.

(** Only [cleanup] closes the socket on this side. *)
Definition fair (es : list event) : Prop :=
  forall es1 e es2 c, es = es1 ++ e :: es2 -> run construct es1 = Some c -> allowed c e.
Lemma prefix_trans a b l : prefix_of a b -> prefix_of b l -> prefix_of a l.
Proof. intros [r <-] [r2 <-]. exists (r ++ r2). by rewrite app_assoc. Qed.
Lemma construct_queued : queued [] construct.
Proof. split; cbn; try done; [by exists []|]. intros _. split_and!; [done..|unfold max_write_buffers; lia]. Qed.
Lemma run_sent es c : run construct es = Some c -> fair es -> prefix_of (sent c) (concat (slices es)).
Proof. intros Hr Hf. apply (q_sent (slices es)). by apply (run_queued es construct c [] construct_queued Hr). Qed.
Lemma never_aborted es : Forall (fun e => match e with WriteEnds (Aborted _) => False | _ => True end) es -> fair es.
Proof. intros Hes es1 e es2 c -> _. apply Forall_app in Hes as [_ Hes]. inversion Hes as [|? ? He]; subst. by destruct e as [|[]| | |]. Qed.
End Writes.

(** ** Reading a connection *)
Module Stream.
Import Connection Commands Frames.

Section server.
Context (check_pass : list Z -> bool).

(** [do_read_commands] on the bytes [input] that have arrived: each round waits
    for a header and then for the payload that [next_size] grants; what is
    returned is the session where the loop waits or has stopped. Each round
    takes a header, so the length of the input is fuel enough. *)
Fixpoint read_commands (fuel : nat) (c : connection) (input : list Z) : connection * list effect :=
  match fuel with
  | O => (c, [])
  | S fuel =>
    if cleanup_ c then (c, [])
    else if Z.of_nat (length input) <? header_size then (c, [ReadBuffer header_size])
    else
      let next := read_header input in
      let input := drop (Z.to_nat header_size) input in
      let next_length := next_size (with_next next c) in
      if Z.of_nat (length input) <? next_length then (with_next next c, [ReadBuffer header_size; ReadBuffer next_length])
      else
        let '(c, effects) := read_command server_from_bytes check_pass c (next, take (Z.to_nat next_length) input) in
        let '(c, more) := read_commands fuel c (drop (Z.to_nat next_length) input) in
        (c, effects ++ more)
  end.
Definition serve (input : list Z) : connection * list effect := read_commands (S (length input)) construct input.

(** What a session gives to the database. *)
Definition stores (effects : list effect) : list (list Account.state * list hash) :=
  omap (fun e => match e with Store users blocks => Some (users, blocks) | _ => None end) effects.
Lemma stores_app a b : stores (a ++ b) = stores a ++ stores b.
Proof. apply omap_app. Qed.

Definition valid_header (h : header) : Prop := 0 <= h_length h <= u32_max.
Lemma length_header_bytes h : length (header_bytes h) = 6%nat.
Proof. unfold header_bytes. cbn [length]. by rewrite length_rev, length_be_bytes. Qed.
Lemma read_header_bytes h rest : valid_header h -> read_header (header_bytes h ++ rest) = h.
Proof.
  intros Hh. unfold read_header, header_bytes.
  change (drop 2 _) with (rev (be_bytes 4 (h_length h)) ++ rest).
  rewrite take_app_le by (by rewrite length_rev, length_be_bytes). rewrite take_ge by (by rewrite length_rev, length_be_bytes).
  rewrite rev_involutive, be_decode_bytes_small; [by destruct h|]. unfold valid_header, u32_max in Hh. lia.
Qed.
Lemma drop_header_bytes h rest : drop (Z.to_nat header_size) (header_bytes h ++ rest) = rest.
Proof. change (Z.to_nat header_size) with 6%nat. by rewrite <- (length_header_bytes h), drop_app_length. Qed.

(** A message that the session lets in. *)
Definition granted (c : connection) (h : header) (payload : list Z) : Prop :=
  valid_header h /\ next_size (with_next h c) = Z.of_nat (length payload).

Lemma round fuel c h payload rest : cleanup_ c = false -> granted c h payload ->
  read_commands (S fuel) c (header_bytes h ++ payload ++ rest) =
  let '(c, effects) := read_command server_from_bytes check_pass c (h, payload) in
  let '(c, more) := read_commands fuel c rest in (c, effects ++ more).
Proof.
  intros Hc [Hh Hn]. cbn [read_commands]. rewrite Hc.
  rewrite (proj2 (Z.ltb_ge _ header_size)) by (rewrite length_app, length_header_bytes; unfold header_size; lia).
  rewrite read_header_bytes, drop_header_bytes by done. cbv zeta. rewrite Hn.
  rewrite (proj2 (Z.ltb_ge _ _)) by (rewrite length_app; lia). by rewrite Nat2Z.id, take_app_length, drop_app_length.
Qed.

Lemma frame_waits fuel c h payload input : cleanup_ c = false -> granted c h payload ->
  Writes.prefix_of input (header_bytes h ++ payload) -> (length input < length (header_bytes h ++ payload))%nat ->
  cleanup_ (read_commands (S fuel) c input).1 = false /\ stores (read_commands (S fuel) c input).2 = [].
Proof.
  intros Hc [Hh Hn] [r Hr] Hlt. cbn [read_commands]. rewrite Hc.
  destruct (Z.ltb_spec (Z.of_nat (length input)) header_size) as [|Hge]; [done|]. unfold header_size in Hge.
  assert (exists part, input = header_bytes h ++ part) as [part ->].
  { exists (drop 6 input). rewrite <- (take_drop 6 input) at 1. f_equal.
    apply (f_equal (take 6)) in Hr. rewrite !take_app_le in Hr by (rewrite ?length_header_bytes; lia).
    rewrite (take_ge (header_bytes h)) in Hr by (by rewrite length_header_bytes). done. }
  rewrite read_header_bytes, drop_header_bytes by done. cbv zeta. rewrite Hn. rewrite !length_app in Hlt.
  by rewrite (proj2 (Z.ltb_lt _ _)) by lia.
Qed.

Lemma frame_cases input f rest : Writes.prefix_of input (f ++ rest) ->
  (exists input', input = f ++ input' /\ Writes.prefix_of input' rest) \/ ((length input < length f)%nat /\ Writes.prefix_of input f).
Proof.
  intros [r Hr]. destruct (Nat.ltb_spec (length input) (length f)) as [Hlt|Hge].
  - right. split; [done|]. exists (drop (length input) f). rewrite <- (take_drop (length input) f) at 2. f_equal.
    apply (f_equal (take (length input))) in Hr. rewrite take_app_length, take_app_le in Hr by lia. done.
  - left. exists (drop (length f) input). split.
    + rewrite <- (take_drop (length f) input) at 1. f_equal.
      apply (f_equal (take (length f))) in Hr. by rewrite take_app_length, take_app_le in Hr by lia.
    + exists r. apply (f_equal (drop (length f))) in Hr. by rewrite drop_app_length, drop_app_le in Hr by lia.
Qed.
End server.

(** How many of the frames are whole in the first [n] bytes. *)
Fixpoint arrived (frames : list (list Z)) (n : nat) : nat :=
  match frames with
  | [] => 0
  | f :: frames => if Nat.leb (length f) n then S (arrived frames (n - length f)) else 0
  end.
End Stream.

(** ** From one process to the other *)
Module Delivery.
Import Encoding PackReadings PackWritten PackData PackAccount Connection Commands Frames Stream.

(** *** A command is read as it was written *)
Definition valid_users (users : list Account.state) : Prop := len_ok users /\ Forall (fun u => exists i, valid_user u i) users.
Definition valid_blocks (blocks : list hash) : Prop := len_ok blocks /\ Forall in_blob32 blocks.

Lemma carries_users ik users : valid_users users ->
  exists vs, write_users users = Ok vs /\ carries (trusted_array user_) ik 5 (WArr vs) (received <$> users) /\ (vs = [] <-> users = []).
Proof.
  intros [Hn Hu]. set (w u := match write_user u with Ok v => v | Err _ => WBool false end).
  assert (Forall (fun u => write_user u = Ok (w u) /\ carries user_ ik 4 (w u) (received u)) users) as H.
  { eapply Forall_impl; [exact Hu|]. intros u [i Hi]. destruct (carries_user ik u i Hi) as (v & Hv & Hc). unfold w. by rewrite Hv. }
  exists (w <$> users). split_and!.
  - assert (forall l, efold (fun vs u => let* v := write_user u in Ok (vs ++ [v])) l users = Ok (l ++ (w <$> users))) as He; [|apply He].
    clear Hn Hu. induction H as [|u users [Hw _] H IH]; intros l; cbn [efold fmap list_fmap]; [by rewrite app_nil_r|].
    rewrite Hw. cbn [ebind]. rewrite IH, <- app_assoc. done.
  - apply carries_array; [done|]. eapply Forall_impl; [exact H|]. by intros u [].
  - by destruct users.
Qed.

Lemma carries_update ik users blocks : valid_users users -> valid_blocks blocks ->
  exists v, write_update_accounts users blocks = Ok v /\ carries update_accounts_ ik 6 v (received <$> users, blocks).
Proof.
  intros Hu [Hn Hb]. destruct (carries_users ik users Hu) as (vs & Hvs & Hc & He). unfold write_update_accounts. rewrite Hvs.
  cbn [ebind]. eexists. split; [reflexivity|].
  assert (carries (trusted_array (blob 32)) ik 1 (WArr (wblob 32 <$> blocks)) blocks) as Hcb.
  { rewrite <- (list_fmap_id blocks) at 2. apply carries_array; [done|]. eapply Forall_impl; [exact Hb|]. intros p ?. by apply carries_blob. }
  unfold array_member. destruct (bool_decide (vs = [])) eqn:E1, (bool_decide (wblob 32 <$> blocks = [])) eqn:E2.
  all: repeat match goal with E : bool_decide _ = true |- _ => apply bool_decide_eq_true in E end.
  all: cbn [negb opt_member app]; destruct ik.
  all: eapply carries_object;
    [repeat wslot ltac:(first [exact Hc|at_depth 1%nat ltac:(exact Hcb)]); apply written_end
    |unfold len_ok, u32_max; cbn; lia|vm_compute; reflexivity|].
  all: try (apply fmap_nil_inv in E2; subst blocks); try (apply He in E1; subst users); reflexivity.
Qed.

Lemma carries_initialize ik pass threads : len_ok pass -> 0 <= threads <= u32_max ->
  carries initialize_ ik 1 (write_initialize pass threads) (pass, threads).
Proof.
  intros Hp Ht. unfold initialize_, write_initialize. destruct ik.
  all: eapply carries_object;
    [wslot ltac:(at_depth 0%nat ltac:(by apply carries_string)); wslot ltac:(at_depth 0%nat ltac:(by apply carries_uint)); apply written_end
    |unfold len_ok, u32_max; cbn; lia|vm_compute; reflexivity|reflexivity].
Qed.

Lemma carries_accounts ik users : valid_users users ->
  exists v, write_accounts users = Ok v /\ carries accounts_ ik 6 v (received <$> users).
Proof.
  intros Hu. destruct (carries_users ik users Hu) as (vs & Hvs & Hc & He). unfold write_accounts. rewrite Hvs.
  cbn [ebind]. eexists. split; [reflexivity|]. unfold array_member. destruct (bool_decide (vs = [])) eqn:E1.
  1: apply bool_decide_eq_true in E1.
  all: cbn [negb opt_member app]; destruct ik.
  all: eapply carries_object;
    [repeat wslot ltac:(exact Hc); apply written_end|unfold len_ok, u32_max; cbn; lia|vm_compute; reflexivity|].
  all: try (apply He in E1; subst users); reflexivity.
Qed.

(** *** Frames *)
Lemma write_command_ok id v frame : wf v -> write_command (id, Ok v) = Ok frame ->
  frame = complete_command id (repeat 0 (Z.to_nat header_size) ++ enc true v).
Proof. intros Hw. unfold write_command. cbn [snd ebind fst]. rewrite write_value_enc by done. cbn. by intros [= <-]. Qed.

Definition framed (id : Z) (payload f : list Z) : Prop :=
  f = header_bytes (Header 0 id (Z.of_nat (length payload))) ++ payload /\ Z.of_nat (length payload) <= u32_max.

Lemma write_command_framed id v f : wf v -> write_command (id, Ok v) = Ok (Some f) -> framed id (enc true v) f.
Proof.
  intros Hw H. apply write_command_ok in H; [|done]. unfold complete_command in H. rewrite length_app, repeat_length in H.
  change (Z.to_nat header_size) with 6%nat in H. unfold header_size in H.
  replace (Z.of_nat (6 + length (enc true v)) - 6) with (Z.of_nat (length (enc true v))) in H by lia.
  destruct (_ <? 6); [done|]. destruct (Z.ltb_spec u32_max (Z.of_nat (length (enc true v)))); [done|].
  injection H as ->. split; [|done]. f_equal.
Qed.

Lemma read_back {A} (R : reading A) h v a : Agrees R -> carries R true h v a -> Z.of_nat h < Reader.max_read_depth ->
  Z.of_nat (length (enc true v)) <= u32_max -> from_bytes R (enc true v) = Ok a.
Proof.
  intros HR Hc Hh Hl. unfold from_bytes, Reader.init. rewrite <- (app_nil_r (enc true v)).
  rewrite (carries_reads R true h v a HR Hc) by (unfold u64_max, u32_max in *; lia). done.
Qed.

Lemma initialize_agrees : Agrees initialize_.
Proof. slots_agree. Qed.
Lemma update_accounts_agrees : Agrees update_accounts_.
Proof. slots_agree. Qed.
Lemma accounts_agrees : Agrees accounts_.
Proof. slots_agree. Qed.

Lemma enc_nonempty ik v : wf v -> (0 < length (enc ik v))%nat.
Proof.
  intros Hw. pose proof (Skipping.forest_length ik [v] ltac:(by repeat constructor)) as Hl.
  cbn [map nat_sum fmap list_fmap concat] in Hl. rewrite app_nil_r in Hl. destruct v; cbn [Skipping.nodes] in Hl; lia.
Qed.

Lemma length_enc_first types z : Forall (fun t => (mt_width t <= 8)%nat) types -> (length (enc_first types z) <= 9)%nat.
Proof.
  induction 1 as [|t types Ht Hts IH]; cbn [enc_first]; [cbn; lia|]. destruct (_ <? _); [done|]. cbn [length]. rewrite length_be_bytes. lia.
Qed.
Ltac widths := repeat constructor; vm_compute; lia.
Lemma length_enc_count ft types n : Forall (fun t => (mt_width t <= 8)%nat) types -> (length (enc_count ft types n) <= 9)%nat.
Proof. intros Ht. unfold enc_count. destruct (_ <=? _); [cbn; lia|by apply length_enc_first]. Qed.
Lemma length_enc_uint z : (length (enc_uint z) <= 9)%nat.
Proof. unfold enc_uint. destruct (_ <=? _); [cbn; lia|]. apply length_enc_first. widths. Qed.
Lemma length_enc_str s : (length (enc_str s) <= 9 + length s)%nat.
Proof. unfold enc_str. rewrite length_app. pose proof (length_enc_count ftag_string string_types (Z.of_nat (length s)) ltac:(widths)). lia. Qed.

Lemma length_initialize pass threads : (length (enc true (write_initialize pass threads)) <= 45 + length pass)%nat.
Proof.
  assert (forall a b c d e f : list Z, length (a ++ concat [b ++ c; d ++ e; f]) = (length a + (length b + length c + (length d + length e + length f)))%nat) as Hl
    by (intros; cbn [concat]; rewrite !length_app; cbn [length]; lia).
  pose proof (length_enc_count ftag_object object_types 2 ltac:(widths)). pose proof (length_enc_uint 0). pose proof (length_enc_uint 1).
  pose proof (length_enc_uint threads). pose proof (length_enc_str pass).
  change (enc true (write_initialize pass threads)) with
    (enc_count ftag_object object_types 2 ++ concat [enc_uint 0 ++ enc_str pass; enc_uint 1 ++ enc_uint threads; []]).
  rewrite Hl. cbn [length]. lia.
Qed.

(** *** A scanner's messages *)
Definition valid_message (m : message) : Prop :=
  match m with
  | Initialize pass threads => Z.of_nat (length pass) <= 1000000 /\ 0 < threads <= u32_max
  | UpdateAccounts users blocks => valid_users users /\ valid_blocks blocks
  end.
Definition id_of (m : message) : Z := match m with Initialize _ _ => initialize_id | UpdateAccounts _ _ => update_accounts_id end.
Definition arrives (m : message) : message :=
  match m with UpdateAccounts users blocks => UpdateAccounts (received <$> users) blocks | _ => m end.

(** What [write_command] makes of a message, the handler reads. *)
Lemma message_framed m f : valid_message m -> write_command (server_bound m) = Ok (Some f) ->
  exists payload, framed (id_of m) payload f /\ (0 < length payload)%nat /\ server_from_bytes (id_of m) payload = Ok (arrives m) /\
    match m with Initialize _ _ => Z.of_nat (length payload) <= max_unauthenticated | _ => True end.
Proof.
  destruct m as [pass threads|users blocks]; cbn [server_bound valid_message].
  - intros [Hp Ht] Hf. pose proof (carries_initialize true pass threads ltac:(unfold len_ok, u32_max; lia) ltac:(lia)) as Hc.
    pose proof (c_wf _ _ _ _ _ Hc) as Hw. apply write_command_framed in Hf as [-> Hl]; [|done]. exists (enc true (write_initialize pass threads)).
    split_and!; [done|by apply enc_nonempty| |unfold max_unauthenticated; pose proof (length_initialize pass threads); lia].
    unfold server_from_bytes. cbn [id_of]. by rewrite (read_back _ _ _ _ initialize_agrees Hc) by done.
  - intros [Hu Hb] Hf. destruct (carries_update true users blocks Hu Hb) as (v & Hv & Hc). rewrite Hv in Hf.
    pose proof (c_wf _ _ _ _ _ Hc) as Hw. apply write_command_framed in Hf as [-> Hl]; [|done]. exists (enc true v).
    split_and!; [done|by apply enc_nonempty| |done].
    unfold server_from_bytes. cbn [id_of]. by rewrite (read_back _ _ _ _ update_accounts_agrees Hc) by done.
Qed.

Section session.
Context (check_pass : list Z -> bool).

Definition delivered (up : list Account.state * list hash) : list (list Account.state * list hash) :=
  match up.1 with [] => [] | _ => [(received <$> up.1, up.2)] end.

Lemma read_update c h users blocks payload : authenticated_ c = true -> cleanup_ c = false -> h_id h = update_accounts_id -> 0 < h_length h ->
  server_from_bytes update_accounts_id payload = Ok (arrives (UpdateAccounts users blocks)) ->
  exists c' es, read_command server_from_bytes check_pass c (h, payload) = (c', es) /\ authenticated_ c' = true /\ cleanup_ c' = false /\
    stores es = delivered (users, blocks).
Proof.
  intros Ha Hc Hi Hl Hm. unfold read_command. rewrite Hc. destruct h as [ver i len], c as [nx th au cl]. cbn in Ha, Hc, Hi, Hl. subst.
  unfold next_size. cbn [next_ with_next authenticated_ h_length h_id orb fst snd]. rewrite (proj2 (Z.eqb_neq len 0)) by lia. cbv zeta.
  change (2 <=? update_accounts_id) with false. cbn [negb]. unfold call. cbn [next_ with_next h_id]. rewrite Hm. cbn [arrives].
  change (update_accounts_id =? update_accounts_id) with true. unfold update_accounts_handle, delivered. cbn [fst snd].
  destruct users; cbn; by eauto 6.
Qed.

Lemma read_updates updates frames c input fuel :
  authenticated_ c = true -> cleanup_ c = false ->
  Forall2 (fun up f => valid_message (UpdateAccounts up.1 up.2) /\ write_command (server_bound (UpdateAccounts up.1 up.2)) = Ok (Some f)) updates frames ->
  Writes.prefix_of input (concat frames) -> (length input < fuel)%nat ->
  cleanup_ (read_commands check_pass fuel c input).1 = false /\
  stores (read_commands check_pass fuel c input).2 = concat (delivered <$> take (arrived frames (length input)) updates).
Proof.
  intros Ha Hc Hf. revert c input fuel Ha Hc. induction Hf as [|[users blocks] f updates frames [Hv Hf] Hfs IH]; intros c input fuel Ha Hc Hp Hfu.
  { destruct Hp as [r Hr]. apply app_eq_nil in Hr as [-> _]. destruct fuel as [|fuel]; [cbn in Hfu; lia|]. cbn [read_commands]. by rewrite Hc. }
  destruct (message_framed _ f Hv Hf) as (payload & [-> Hn] & Hpos & Hm & _). cbn [fst snd id_of] in *.
  set (h := Header 0 update_accounts_id (Z.of_nat (length payload))) in *.
  assert (granted c h payload) as Hg by (split; [unfold valid_header; cbn; lia|unfold next_size; cbn; by rewrite Ha]).
  cbn [concat] in Hp. destruct fuel as [|fuel]; [lia|]. destruct (frame_cases _ _ _ Hp) as [(input' & -> & Hp')|[Hlt Hpf]].
  - rewrite <- (app_assoc (header_bytes h) payload), round by done.
    destruct (read_update c h users blocks payload Ha Hc ltac:(done) ltac:(cbn; lia) Hm) as (c' & es & Hrc & Ha' & Hc' & Hs).
    rewrite Hrc. cbn [arrived]. rewrite !length_app, length_header_bytes in *.
    destruct (Nat.leb_spec (6 + length payload) (6 + (length payload + length input'))); [|lia].
    replace (6 + (length payload + length input') - (6 + length payload))%nat with (length input') by lia.
    specialize (IH c' input' fuel Ha' Hc' Hp' ltac:(lia)). destruct (read_commands check_pass fuel c' input') as [c'' more].
    cbn [fst snd] in *. split; [apply IH|]. rewrite stores_app, Hs. cbn [take fmap list_fmap concat]. f_equal. apply IH.
  - destruct (frame_waits check_pass fuel c h payload input Hc Hg Hpf Hlt) as [Hw ->]. split; [done|]. cbn [arrived].
    destruct (Nat.leb_spec (length (header_bytes h ++ payload)) (length input)); [lia|done].
Qed.

Lemma read_login h pass threads payload : check_pass pass = true -> valid_message (Initialize pass threads) ->
  h_id h = initialize_id -> server_from_bytes initialize_id payload = Ok (Initialize pass threads) -> 0 < h_length h -> h_length h <= max_unauthenticated ->
  exists c' es, read_command server_from_bytes check_pass construct (h, payload) = (c', es) /\ authenticated_ c' = true /\ cleanup_ c' = false /\ stores es = [].
Proof.
  intros Hp [_ Ht] Hi Hm Hl Hmax. destruct h as [ver i len]. cbn in Hi, Hl, Hmax. subst. unfold read_command, next_size, construct.
  cbn [next_ with_next authenticated_ cleanup_ threads_ h_length h_id orb fst snd]. change (initialize_id =? initialize_id) with true.
  rewrite (proj2 (Z.leb_le len _)) by done. cbn [andb]. rewrite (proj2 (Z.eqb_neq len 0)) by lia. cbv zeta.
  change (2 <=? initialize_id) with false. unfold call. cbn [next_ with_next h_id]. rewrite Hm.
  change (initialize_id =? initialize_id) with true. unfold initialize_handle. cbn [threads_ with_next negb Z.eqb].
  rewrite (proj2 (Z.eqb_neq threads 0)) by lia. rewrite Hp. cbn. by eauto 6.
Qed.

(** C8: What a scanner reports arrives: whatever the order in which its writes,
    its messages and its timer come, and wherever the connection is cut, the
    bytes that the server has received make it store exactly the account
    updates whose messages are complete, in the order in which they were queued,
    each with its accounts and blocks as they were written, and do not make it
    close the connection. *)
Theorem updates_reach_store es c pass threads updates frames input :
  check_pass pass = true -> valid_message (Initialize pass threads) ->
  Forall (fun up => valid_message (UpdateAccounts up.1 up.2)) updates ->
  Forall2 (fun m f => write_command (server_bound m) = Ok (Some f)) (Initialize pass threads :: ((fun up => UpdateAccounts up.1 up.2) <$> updates)) frames ->
  Writes.slices es = frames -> Writes.run Writes.construct es = Some c -> Writes.fair es ->
  Writes.prefix_of input (Writes.sent c) ->
  cleanup_ (serve check_pass input).1 = false /\
  stores (serve check_pass input).2 = concat (delivered <$> take (pred (arrived frames (length input))) updates).
Proof.
  intros Hpass Hlogin Hups Hframes Hsl Hrun Hfair Hin.
  pose proof (Writes.run_sent es c Hrun Hfair) as Hsent. rewrite Hsl in Hsent. clear Hsl Hrun Hfair.
  assert (Writes.prefix_of input (concat frames)) as Hp by (eapply Writes.prefix_trans; done). clear Hsent Hin.
  inversion Hframes as [|m f ms fs Hf Hfs]; subst. rename Hfs into Hufs. cbn [concat] in Hp.
  destruct (message_framed _ f Hlogin Hf) as (payload & [-> Hn] & Hpos & Hm & Hmax). cbn [id_of] in *.
  set (h := Header 0 initialize_id (Z.of_nat (length payload))) in *.
  assert (granted construct h payload) as Hg.
  { split; [unfold valid_header; cbn; lia|]. unfold next_size. cbn [construct with_next next_ authenticated_ h_id h_length h orb].
    change (initialize_id =? initialize_id) with true. by rewrite (proj2 (Z.leb_le _ _)) by done. }
  unfold serve. destruct (frame_cases _ _ _ Hp) as [(input' & -> & Hp')|[Hlt Hpf]].
  - rewrite <- (app_assoc (header_bytes h) payload), round by done.
    destruct (read_login h pass threads payload) as (c' & es' & Hrc & Ha' & Hc' & Hs); [done..|cbn; lia|cbn; lia|]. rewrite Hrc.
    cbn [arrived]. rewrite !length_app, length_header_bytes in *.
    destruct (Nat.leb_spec (6 + length payload) (6 + (length payload + length input'))); [|lia].
    replace (6 + (length payload + length input') - (6 + length payload))%nat with (length input') by lia.
    assert (Forall2 (fun up f => valid_message (UpdateAccounts up.1 up.2) /\ write_command (server_bound (UpdateAccounts up.1 up.2)) = Ok (Some f)) updates fs) as H2.
    { rewrite Forall2_fmap_l in Hufs. revert Hups. clear -Hufs. induction Hufs; intros Hups; [constructor|]. inversion Hups; subst. constructor; [done|auto]. }
    destruct (read_updates updates fs c' input' (6 + (length payload + length input')) Ha' Hc' H2 Hp' ltac:(lia)) as [H3 H4].
    destruct (read_commands check_pass _ c' input') as [c'' more]. cbn [fst snd pred] in *. split; [done|]. by rewrite stores_app, Hs.
  - destruct (frame_waits check_pass (length input) construct h payload input eq_refl Hg Hpf Hlt) as [Hw ->]. split; [done|]. cbn [arrived].
    destruct (Nat.leb_spec (length (header_bytes h ++ payload)) (length input)); [lia|done].
Qed.
End session.
End Delivery.

(** ** The two ends *)
Module Peers.
Import Connection Commands.

(** *** [client::connector]: connecting, with its timer *)
Module Connector.
Inductive phase :=
| Idle
| Connecting (timer : bool)   (* [async_connect] is at work; the timer has not expired *)
| Waiting                     (* for [reconnect_interval] *)
| Connected
| Ended.                      (* the coroutine has returned *)
(** How [async_connect] ends; closing its socket aborts it. *)
Inductive result := Done | Failed | Aborted.
Inductive event := Connect | Expired | ConnectEnds (r : result) | Retry.
Inductive action := AsyncConnect | Close | Send (cmd : Z * expect wvalue) | ReadCommands.

Section connector.
Context (pass : list Z) (local : Z).

(** [initialize{pass_, threads}] with its [numeric_cast]. *)
Definition hello : list action :=
  if local <=? u32_max then [Send (server_bound (Initialize pass local)); ReadCommands] else [].

Definition step (p : phase) (e : event) : option (phase * list action) :=
  match p, e with
  | Idle, Connect => Some (Connecting true, [AsyncConnect])
  | Connecting true, Expired => Some (Connecting false, [Close])
  | Connecting _, ConnectEnds Aborted => Some (Ended, [])
  | Connecting _, ConnectEnds Failed => Some (Waiting, [Close])
  | Connecting timer, ConnectEnds Done => if timer then Some (Connected, hello) else Some (Waiting, [Close])
  | Waiting, Retry => Some (Connecting true, [AsyncConnect])
  | _, _ => None
  end.
Fixpoint run (p : phase) (es : list event) : option (phase * list action) :=
  match es with
  | [] => Some (p, [])
  | e :: es => match step p e with
               | Some (p, a) => match run p es with Some (p, b) => Some (p, a ++ b) | None => None end
               | None => None
               end
  end.

Definition connected_ (p : phase) : bool := match p with Connected => true | _ => false end.
Definition is_send (a : action) : bool := match a with Send _ => true | _ => false end.

Lemma run_connected es r : run Connected es = Some r -> r = (Connected, []).
Proof. destruct es as [|[] es]; cbn; congruence. Qed.

(** A scanner says who it is once, when it is connected, and nothing before. *)
Lemma hello_once p es p' acts : run p es = Some (p', acts) -> connected_ p = false -> local <= u32_max ->
  filter (fun a => is_send a = true) acts = if connected_ p' then [Send (server_bound (Initialize pass local))] else [].
Proof.
  intros Hr Hp Hl. revert p acts Hr Hp. induction es as [|e es IH]; intros p acts Hr Hp; cbn [run] in Hr.
  { injection Hr as <- <-. by rewrite Hp. }
  destruct (step p e) as [[p1 a]|] eqn:E; [|done]. destruct (run p1 es) as [[p2 b]|] eqn:E2; [|done]. injection Hr as <- <-.
  rewrite filter_app. destruct (connected_ p1) eqn:E1.
  - destruct p1; try done. apply run_connected in E2 as [= -> ->].
    destruct p as [|[]| | |], e as [| |[]|]; cbn in E; try done. injection E as <-. unfold hello. by rewrite (proj2 (Z.leb_le _ _)) by done.
  - rewrite (IH p1 b E2 E1). assert (filter (fun a => is_send a = true) a = []) as ->; [|done].
    destruct p as [|[]| | |], e as [| |[]|]; cbn in E; try done; injection E as <- <-; done.
Qed.

(** The timer closes the socket, which aborts the attempt, and an aborted attempt
    is not repeated: the interval for the next one is only waited for after a
    connection that failed by itself. *)
Lemma timed_out_is_not_retried es p acts :
  run Idle ([Connect; Expired; ConnectEnds Aborted] ++ es) = Some (p, acts) -> p = Ended /\ es = [] /\ acts = [AsyncConnect; Close].
Proof. destruct es as [|[] es]; cbn; try done. by intros [= <- <-]. Qed.
End connector.
End Connector.

(** [client::send_update]: what goes to [write_command]. *)
Definition send_update (p : Connector.phase) (users : list Account.state) (blocks : list hash) : expect (Z * expect wvalue) :=
  if Connector.connected_ p then Ok (server_bound (UpdateAccounts users blocks)) else Err kInvalidArgument.

(** *** [server::store] and [server::get_endpoint] *)
Section store.
Context {LM : Lmdb} (points : checkpoints) (internal_pub regtest : bool).

(** An error is an exception that leaves the loop of the server. *)
Definition store (users : list Account.state) (blocks : list hash) (sv : Server.server) (disk : tables) :
    expect (Server.server * Store.published * tables) :=
  let users := std_sort Account.by_height users in
  let* r := Store.store points internal_pub blocks users [] regtest disk in
  Ok (if Store.so_ok r then sv else Server.do_stop sv, Store.so_published r, Store.so_tables r).

Lemma sorted_is_sorted users : Store.is_sorted (std_sort Account.by_height users) = true.
Proof.
  assert (forall l, Sorted (fun x y => Account.by_height y x = false) l -> Store.is_sorted l = true) as H.
  { induction 1 as [|u l Hl IH Hu]; [done|]. destruct l as [|v l]; [done|]. inversion Hu; subst.
    unfold Store.is_sorted in *. cbn [zip zip_with forallb fst snd] in *. rewrite H0. exact IH. }
  apply H, Sorted_merge_sort. intros x y. unfold Account.by_height. destruct (Z.ltb_spec (Account.scan_height y) (Account.scan_height x)); [right|by left].
  apply Z.ltb_ge. lia.
Qed.

(** Only an update with accounts and no blocks is refused as such. *)
Lemma store_spec users blocks sv disk : blocks <> [] ->
  store users blocks sv disk =
  match std_sort Account.by_height users with
  | [] => Ok (sv, Store.nothing, disk)
  | first :: _ =>
    let users := std_sort Account.by_height users in
    match update points (Account.scan_height first) blocks users [] regtest disk with
    | Err e => if bool_decide (e = lws_err blockchain_reorg) then Ok (Server.do_stop sv, Store.nothing, disk) else Err e
    | Ok (updated, disk) =>
      let '(updates, users) := Store.push_updates internal_pub users (u64 (Account.scan_height first + Z.of_nat (length blocks) - 1)) in
      if accounts_updated updated =? Z.of_nat (length users)
      then Ok (sv, Store.Published (confirm_pubs updated) (spend_pubs updated) updates (last blocks), disk)
      else Ok (Server.do_stop sv, Store.Published (confirm_pubs updated) (spend_pubs updated) updates None, disk)
    end
  end.
Proof.
  intros Hb. unfold store, Store.store. pose proof (sorted_is_sorted users) as Hs. destruct (std_sort Account.by_height users) as [|first rest]; [done|].
  rewrite bool_decide_eq_false_2, Hs by done. cbn [orb negb]. cbv zeta. destruct (update _ _ _ _ _ _ _) as [[updated disk']|e].
  - destruct (Store.push_updates _ _ _) as [updates us]. by destruct (_ =? _).
  - by case_bool_decide.
Qed.
End store.

(** The host and the port of an address; [rfind] of a colon. *)
Fixpoint rfind (c : Z) (s : list Z) : option nat :=
  match s with
  | [] => None
  | b :: s => match rfind c s with Some n => Some (S n) | None => if b =? c then Some O else None end
  end.
Definition any_host : list Z := bytes_of_string "0.0.0.0".
Definition split_address (address : list Z) : list Z * list Z :=
  match rfind 58 address with
  | None => (any_host, address)
  | Some split => (take split address, drop (S split) address)
  end.
Lemma split_host_port host port : 58 ∉ port -> split_address (host ++ 58 :: port) = (host, port).
Proof.
  intros Hp. unfold split_address. assert (rfind 58 port = None) as Hn.
  { induction port as [|b port IH]; [done|]. apply not_elem_of_cons in Hp as [Hb Hp]. cbn. rewrite IH by done. by rewrite (proj2 (Z.eqb_neq b 58)). }
  assert (rfind 58 (host ++ 58 :: port) = Some (length host)) as ->.
  { induction host as [|b host IH]; cbn [app rfind length]; [by rewrite Hn|by rewrite IH]. }
  rewrite take_app_length. f_equal. change (58 :: port) with ([58] ++ port). rewrite app_assoc.
  replace (S (length host)) with (length (host ++ [58])) by (rewrite length_app; cbn; lia). apply drop_app_length.
Qed.
End Peers.

(** ** Two updates, the second of which is cut *)
Module ScanWireSample.
Import Encoding PackAccount Connection Commands Frames Stream Delivery.

Definition login : list Z := [112; 119].
Definition key : Account.internal := Account.Internal [57; 57] 3 (AccountAddress 50 60) 77.
Definition user (height : block_id) : Account.state :=
  Account.State (Some key) [(OutputId 8 1, AddressIndex 0 2)] [300; 400] [] [sample_output] height.
Definition updates : list (list Account.state * list hash) := [([user 30], [9; 10]); ([], [7]); ([user 31], [11])].
Definition frame (m : message) : list Z := match write_command (server_bound m) with Ok (Some f) => f | _ => [] end.
Definition frames : list (list Z) := frame (Initialize login 2) :: ((fun up => frame (UpdateAccounts up.1 up.2)) <$> updates).
Definition events : list Writes.event :=
  (Writes.Slice <$> take 2 frames) ++ [Writes.WriteEnds Writes.Written; Writes.WriteEnds Writes.Written] ++
  (Writes.Slice <$> drop 2 frames) ++ [Writes.WriteEnds Writes.Written; Writes.Expires; Writes.WriteEnds (Writes.Broken 100); Writes.Timeout; Writes.Cleanup].
Definition after : Writes.connection := default Writes.construct (Writes.run Writes.construct events).
Definition right_pass (pass : list Z) : bool := bool_decide (pass = login).

Lemma user_valid height : in_u64 height -> valid_user (user height) key.
Proof.
  intros Hh. split; try done.
  - split; [unfold len_ok, u32_max; cbn; lia|]. repeat constructor; vm_compute; done.
  - split; [unfold len_ok, u32_max; cbn; lia|]. repeat constructor; vm_compute; done.
  - split; [unfold len_ok, u32_max; cbn; lia|]. constructor; [apply sample_output_valid|constructor].
Qed.
Lemma updates_valid : Forall (fun up => valid_message (UpdateAccounts up.1 up.2)) updates.
Proof.
  repeat constructor; try (unfold u32_max, len_ok; cbn; lia); try (exists key; apply user_valid; vm_compute; done); vm_compute; done.
Qed.

(** The connection broke in the middle of the last message: the first update is
    stored and the empty one is not. *)
Lemma updates_reach_store_witness :
  length (Writes.sent after) = (length (concat (take 3 frames)) + 100)%nat /\
  stores (serve right_pass (Writes.sent after)).2 = [([received (user 30)], [9; 10])] /\ cleanup_ (serve right_pass (Writes.sent after)).1 = false.
Proof.
  assert (pred (arrived frames (length (Writes.sent after))) = 2%nat) as E by (vm_compute; reflexivity).
  destruct (updates_reach_store right_pass events after login 2 updates frames (Writes.sent after)) as [H1 H2].
  - reflexivity.
  - split; unfold u32_max; cbn; lia.
  - apply updates_valid.
  - repeat constructor; vm_compute; reflexivity.
  - vm_compute. reflexivity.
  - vm_compute. reflexivity.
  - apply Writes.never_aborted. repeat constructor.
  - exists []. apply app_nil_r.
  - rewrite E in H2. split_and!; [vm_compute; reflexivity|exact H2|exact H1].
Defined.
End ScanWireSample.
